(* ===== verification/_CoqProject ===== *)
-Q . S2P
Prelude.v
GoStd.v
GoText.v
GoConv.v
GoPath.v
GoState.v
Json.v
Clierr.v
TaskState.v
TaskProg.v
TaskStore.v
TaskLocks.v
TaskLife.v
TaskSystem.v
TaskSafety.v
TaskCancel.v
TaskExamples.v
Redact.v
RedactMask.v
RedactStream.v
Graph.v
GraphReach.v
GraphSort.v
DevSubst.v
DevSubstitution.v
DevTypes.v
DevMerge.v
DevMerging.v
DevExtends.v
DevLineage.v
Dockerfile.v
Features.v
FeatureOrder.v
FeatureOptions.v
FeatureLock.v
FeatureDeps.v
FeatureClosure.v
OptVars.v
OptResolver.v
OptConsistent.v
OptResolved.v
LogTypes.v
HookEnv.v
Hooks.v
HookPhases.v
HookSystem.v
HookLife.v
LogManifest.v
LogFS.v
LogStore.v
LogSegment.v
LogDisk.v
LogDurable.v
LogCodec.v
LogSystem.v
LogBudget.v
LogCursor.v
LogAck.v
LogRetention.v
LogReader.v
LogPaging.v
LogMirror.v
LogSender.v
LogSink.v
LogPull.v
LogMirroring.v
LogRecorder.v
LogRecorded.v
LogImport.v
LogFailed.v
SshConfig.v
SshBlocks.v
EnvStore.v
Journal.v
LogExamples.v
LogMirrorExamples.v
OptExamples.v
DevExamples.v
FeatureExamples.v
HookExamples.v
