(* ===== verification/Prelude.v ===== *)
(** Verification of the core logic of devsy (Go sources under src/): workspace
    logs, background tasks, secret redaction, the configuration, features and
    lifecycle commands of dev containers, Dockerfiles, provider options, the
    managed blocks of ssh configurations, stored environment values, the journal
    of workspace events, and the classification of errors.

    ** The program and its parts

    devsy starts development containers for a workspace.  A command of the user
    runs the set-up in the foreground or as a background _task_ (src/pkg/task);
    several processes - the command line, the desktop application, the worker
    itself - watch, cancel and delete the same task through files in a shared
    directory.

    The set-up reads a _dev container configuration_
    (src/pkg/devcontainer/config): it inherits from others, has its variables
    replaced on the host and in the container, and is merged with the metadata
    of its image.  The _features_ it names (src/pkg/devcontainer/feature) are
    resolved with what they depend on, pinned by a lockfile, and installed in an
    order found with a dependency _graph_ (src/pkg/devcontainer/graph).  When it is
    built from a _Dockerfile_ (src/pkg/dockerfile), the stages say what image it
    starts from and which user it has.  Then the
    _lifecycle commands_ run in phases (src/pkg/devcontainer/setup), some of them
    after the user is let in.  Providers have _options_, which a resolver
    (src/pkg/options/resolver) computes in the order of the same kind of graph.
    In the end the workspace is entered into the user's _ssh configuration_
    (src/pkg/ssh), as a block of lines with an owner.  _Environment values_ the
    user keeps for workspaces are in a file of their own (src/pkg/envstore).

    Whatever the set-up prints is recorded by the processes that take part in it
    as _workspace logs_ (src/pkg/workspacelogs): a _run_ has a manifest and, for
    each _producer_, a log of numbered records in segment files.  Output passes
    the _redactor_ (src/pkg/secrets) and a _recorder_, which also records the
    states of the lifecycle commands; another host _mirrors_ the log while it
    grows or _imports_ pages of it.  The progress of operations (src/pkg/status) is
    also kept in a _journal_ of events (src/pkg/workspacejournal).  Errors of all
    of it are _classified_ for the user (src/pkg/clierr).

    ** Files

    - [Prelude]: libraries, scopes, hint databases, tactics and lemmas on finite
      sets shared by all files.  [GoStd], [GoText], [GoConv], [GoPath]: what the
      sources use of Go's standard library (error chains with [errors.Is],
      [strings], [strconv], [uint64] with wrap-around, [unicode/utf8], numbers
      and durations, slash-separated paths) and facts about it.  [GoState] is the
      monad of code with a state and an error, and [Json] has untyped JSON values.
    - [Clierr]: src/pkg/clierr/errors.go.  An error chain is a value of [error];
      [Classify], [New] and [WithContext] follow the source's order of tests.
    - [TaskState], [TaskProg], [TaskStore]: src/pkg/task.  [TaskState] has the
      record [State] and every function the package passes to the locked update
      of a task file ([succeedFn] is the closure of Handle.Succeed, and so on).
      [TaskProg] has the atomic steps - a locked update, a try-lock, a look at a
      process, a wait - and [Prog], the trees of such steps; [TaskStore] writes
      each operation of store.go, task.go and launch.go as such a program.
      [TaskLocks] shows that every operation changes a task only in the ways the
      locks it holds allow; [TaskLife] shows that each allowed
      change keeps states well-formed and follows the life of a task;
      [TaskSystem] interleaves the steps of several processes, which may die at
      any point; [TaskSafety] and [TaskCancel] have the theorems and
      [TaskExamples] their concrete instances.
    - [Redact]: src/pkg/secrets/redact.go and redact_matcher.go; [RedactMask]
      proves facts about masking known values and about the format patterns,
      [RedactStream] has the theorems.
    - [Graph]: src/pkg/devcontainer/graph/graph.go; [GraphReach] is about
      reachability and subgraph removal, [GraphSort] about the sorts.
    - [DevSubst] (substitute.go), [DevTypes] (config.go), [DevMerge] (merge.go,
      metadata.go) and [DevExtends] (extends.go, extends_oci.go, parse.go,
      legacy.go) of src/pkg/devcontainer/config; [DevSubstitution], [DevMerging]
      and [DevLineage] have their theorems, [DevExamples] concrete
      configurations.
    - [Dockerfile]: src/pkg/dockerfile/parse.go and what build.go of
      src/pkg/devcontainer asks of it, with theorems and examples.
    - [Features], [FeatureOrder], [FeatureDeps] (extend.go), [FeatureOptions]
      (options.go, features.go) and [FeatureLock] (lockfile.go) of
      src/pkg/devcontainer/feature; [FeatureClosure] is about fetching as a
      whole, [FeatureExamples] has concrete features.
    - [HookEnv], [Hooks]: src/pkg/devcontainer/setup (lifecyclehooks.go,
      lifecycle_terminal.go, markers of setup.go).  A run writes a history of
      events - commands that start and end, records, markers - and the goroutines
      of a hook are interleaved by a schedule.  [HookPhases] and [HookSystem] say
      what a phase adds to the history, [HookLife] has the theorems on whole
      setups, [HookExamples] concrete ones.
    - [OptVars], [OptResolver]: src/pkg/options/resolver with the types of
      src/pkg/types/option.go.  [OptConsistent] is about the graph and about
      resolving one option, [OptResolved] about all of them; [OptExamples] runs
      the resolver.
    - [LogTypes], [LogManifest], [LogFS], [LogStore], [LogSegment]: the data, the
      manifest transitions, the file system with its failures, the run level and
      the append path of src/pkg/workspacelogs (types.go, store.go, segment.go,
      append.go).  [LogDisk] and [LogDurable] prove that the segment files form one
      log which the append path only extends; [LogSystem] lifts
      this to batches and to several processes; [LogBudget] bounds the bytes;
      [LogCodec] is a concrete codec for evaluated examples.
    - [LogRetention] (retention.go), [LogAck] (ack.go), [LogCursor] (cursor.go)
      and [LogReader] (reader.go, selectors.go, and
      src/cmd/workspace/setup_logs.go) are the other operations of the store;
      [LogPaging] is about reading in pages.
    - [LogMirror] (mirror.go) and [LogSender]
      (src/pkg/agent/tunnel/setup_log_sender.go and
      src/pkg/agent/tunnelserver/setup_logs.go) mirror a producer's log to the
      next host over a network that loses, delays and repeats calls.  [LogSink]
      says what a copy of a log is and what the sink does to its store,
      [LogPull] what is read at the source; [LogMirroring] proves the mirror
      right end to end and [LogMirrorExamples] runs one.
    - [LogRecorder] (recorder.go) with its theorems in [LogRecorded]; [LogImport]
      (import.go, spool.go) and [LogFailed] (failed.go, session.go) with theirs.
      [LogExamples] has concrete runs of the store, of a recorder and of an
      import.
    - [SshConfig]: src/pkg/ssh/config.go, config_block_owner.go,
      config_conflicts.go, config_alias.go and config_lock.go; [SshBlocks] has
      the theorems, which are stated with a file cut into blocks, and examples.
    - [EnvStore]: src/pkg/envstore (store.go, batch.go); [Journal]:
      src/pkg/status/status.go and src/pkg/workspacejournal/journal.go.  Each has
      its theorems and ends with a module of concrete files.

    ** How code corresponds to definitions

    Definitions carry the names of the Go functions they translate; a name that
    occurs in several packages is told apart by its file ([TaskStore.update] and
    [LogStore.update]).  Pure functions are Gallina functions.  The log store
    runs in the monad [St] of [LogFS]: the world holds the files, the tail cache,
    the clock, the generated IDs and a schedule that decides which system calls
    fail and how much of a torn write reaches the disk.  The task store runs in
    [Prog] of [TaskProg]: every step sees a shared world of task files, locks
    and processes.  Configurations, features, options, ssh files, environment
    values and the journal are handled in the monad [Go] of [GoState].  The
    redactor returns [None] where Go would panic.  Maps are [gmap]; where the order
    of Go's map iteration can be seen, it is a parameter ([Walks], [Outside],
    [HookWorld]).  Sequence numbers and
    sizes are integers; where [uint64] can wrap, the wrap is written out.

    ** What the theorems show

    - Logs: under every interleaving of processes, every crash point and every
      schedule of failing system calls, the stored log of a producer stays the
      contiguous records 1, 2, 3, ... and only grows; an append stores exactly
      the missing records of its batch and never acknowledges more; manifests
      only move forward and a run reported complete is complete; bytes stay
      within the budget; retention spares runs with active writers; reading in
      pages shows every record once, in order, and terminates; a page token
      decodes to the cursor it was made from.
    - Recording: whatever fails, a recorder's log is what it was asked to record,
      in order, and only output may be missing while it reports no error; the
      chunks of an output are together the output, redacted in pieces that split
      no known value.  Importing a page
      extends exactly the logs it names; the failed invocations of a run are
      those whose furthest record says so.
    - Mirroring: in the run of a sender whose stored position is not past the
      receiver's log (or is stored with a gap), whatever the network loses or
      repeats and whichever system calls fail, the receiving host holds a copy of
      the beginning of the source's log; a flush that reports success means it
      holds all of it; the sender ends.
    - Tasks: under every interleaving, the states stored for a task are
      well-formed, an outcome is final, only a holder of the right lock records
      that a process tree was cleaned up, and a task file is only removed when
      nothing is left to clean up; cancelling a task whose worker is gone ends.
    - Redaction: cutting the output into writes does not change what is masked
      of the known values - though it may change what is masked of credentials
      known only by their form -, what is held back is bounded, and ASCII output
      cannot make the redactor panic.
    - Graph: editing keeps the representation consistent; both sorts return a
      topological order, or an error exactly when there is a cycle; the queue
      based cycle test agrees with them; removal of a subgraph removes exactly
      what is reachable.
    - Configuration: substitution on the host and in the container is one
      substitution; a merged configuration takes every property by its own rule;
      inheritance ends and every property is pinned by the lineage, most of
      them by the last source that gives one; the exceptions (empty arrays,
      deprecated properties) are stated and have examples.
    - Features: fetching ends and returns the configured features with all they
      depend on and no others, each behind one of the name it depends on;
      install scripts do not depend on secret options and the shell reads quoted
      text back; a frozen lockfile is never changed.
    - Lifecycle commands: commands start in the order of phases and hooks, each
      once per occasion (the start or the creation of the container) over any
      number of setups, and every command of a recorded setup that is not
      interactive is accounted for in the records, whatever fails.
    - Options: resolving from nothing, without sub options, gives values that
      fit together - each is the user's, an answer, or what the option's default or command gives under
      the final values of the options it names; scopes are respected and cycles
      refused; resolving ends, sub options included.
    - SSH configuration: only blocks the owner has a claim to are replaced, the
      other lines stay; removing a block gives back the lines there were, but
      for carriage returns and blank lines at the edges; the search for conflicting hosts is exact and reads each file once.
    - Dockerfiles: parsing loses no instruction; the base image of a target is
      the one at the end of its chain of stages; replacing variables ends unless
      they refer to one another in a circle, and then it does not.
    - Environment values: an operation takes its effect at one point or not at
      all, whatever fails, and moving values out of the catalog of secrets loses
      nothing.
    - Journal: while its files hold whole lines, an append adds its record at the
      end and takes only the oldest away; operations are reported as started and
      ended.
    - Errors: classification follows the order of the classifiers, and adding
      context keeps everything else.

    ** Fuel and bounds

    Loops over data are structural.  The breadth-first and depth-first searches
    of the graph and the rounds of its sorts take one unit of fuel per node (and
    per edge for the work lists); the theorems show that this is enough.  The
    readers' loops over pages take the number of remaining records plus one
    ([LogPaging] proves termination for it).  The sender's loop takes one round
    per record and each round one page per record of the run ([LogMirroring]).
    The waiting loops of tasks take the number of waits their context admits: a
    context is that number, and a context that ends earlier is a failing step.
    The boundary loop of the redactor takes the length of the text.  The queue
    of sub options takes n * (n + 1) steps for n names ([OptResolved]).
    Inheritance takes as many levels as there are names of files and artifacts
    ([DevLineage]), fetching of features as many as there are identifiers
    ([FeatureClosure]).  The goroutines of a hook take two steps each
    ([Hooks.interleave]).  The loops over the lines of an ssh configuration take
    their number plus one, and includes the five levels of the source.  The chain
    of stages of a Dockerfile takes their number plus two; the depth in which its
    variables are replaced is a parameter, and [Dockerfile] says which is enough.

    ** Interfaces

    Code that is not in the repository is a parameter with documented laws: the
    JSON codec ([JSON], [JSONLaws]), generated UUIDs ([IDSource]), SHA-256
    ([SHA256], [IDHash], [HexDigests]), control of process trees ([Processes]),
    the commands, clock, user and map order an option resolution meets
    ([Outside]) and its regular expressions ([Regexp]), the files and artifacts
    configurations inherit from ([ConfigWorld]), image references ([References]),
    sources of features ([FeatureSources], [SecretWorld], [LockWorld]), the
    container commands run in ([HookWorld]), the system around ssh files
    ([SshWorld]), BuildKit's parser and lexer ([BuildKit]), YAML ([EnvYAML],
    [EnvYAMLLaws]), and lower-casing of characters outside ASCII.  What a recorder
    relies on is an interface ([Backend], [BackendLaws]) of which the store is an
    instance.  [LogCodec] and the example files instantiate the others.

    ** Not modelled

    - The rest of devsy - drivers, the container engine, providers, the agent and
      its tunnel, IDE integration, clients, the daemon, git helpers, the ssh
      server, the desktop application - mostly starts other programs or calls
      services and libraries; PROJECT.json lists each part with the reason.
    - In the parts that are modelled: symbolic links in the log store (which
      refuses them, so a path is either a regular file, a directory or absent);
      the failure of [dirBytes]; what happens inside one locked section, which is
      one step; the rendering of errors, progress and logs to terminals; file
      modes and owners; glob metacharacters in identifiers (excluded by
      [ValidID]); the Windows variants; hooks that exist for tests; telemetry.
      [Prune] is not a step of the interleaved system of [LogSystem], because it
      removes whole runs; [LogRetention] has its own theorem.
    - Of configurations: the decoding of JSON into typed fields, mounts that are
      null, and the typed substitution of image metadata.  Of features: downloads
      and their cache.  Of lifecycle commands: terminals, the installation of
      dotfiles, and other programs that change marker files.  Of the spool:
      choosing its directory.  Of Dockerfiles: what builds do with them.  Of
      progress: contexts and the encoding of reports for a terminal. *)
From stdpp Require Export base tactics option list relations fin_sets fin_maps fin_map_dom gmap sets strings pretty sorting.
From Stdlib Require Export Ascii ZArith Lia.

#[global] Set Default Goal Selector "!".
#[global] Set Warnings "-register-all,-clear-no-such-hyp,-level-tolerance".
#[global] Open Scope string_scope.
#[global] Open Scope list_scope.
#[global] Open Scope Z_scope.

(** ** Results of fallible code *)
Declare Scope devsy_scope.
Delimit Scope devsy_scope with devsy.
#[global] Open Scope devsy_scope.

Create HintDb graph.

(** ** Tactics *)

(** Split every [match]/[if] of the goal or of a hypothesis, simplifying the
    equations that come out of it. *)
Ltac split_cases :=
  repeat (first [case_match | progress simplify_eq/=]).


(** ** Sizes of finite sets *)

Section Sizes.
Context `{Countable A}.
Implicit Types (X Y : gset A) (l : list A).

Lemma size_union_le X Y : (size (X ∪ Y) <= size X + size Y)%nat.
Proof.
  rewrite size_union_alt. pose proof (subseteq_size (Y ∖ X) Y ltac:(set_solver)). lia.
Qed.

Lemma size_list_to_set_le l : (size (list_to_set l : gset A) <= length l)%nat.
Proof.
  induction l as [|x l IH]; [by rewrite list_to_set_nil, size_empty|].
  rewrite list_to_set_cons. cbn [length].
  pose proof (size_union_le {[x]} (list_to_set l)) as Hu. rewrite size_singleton in Hu. lia.
Qed.
End Sizes.
