(* ===== verification/GoStd.v ===== *)
(** The part of Go's standard library the modelled packages use: error values
    ([errors], [fmt.Errorf]), strings ([strings], [strconv]), unsigned 64-bit
    arithmetic and [sort].  Go strings are byte strings, which is what Rocq's
    [string] is. *)
From S2P Require Import Prelude.

(** ** Error values *)

(** One universe for the error values of all modelled packages.  A sentinel
    (a package-level [errors.New]) is identified by its qualified name, because
    two [errors.New] with the same text are different values.  [Errorf] keeps
    the format and the arguments; [AErr] is an argument consumed by [%w], the
    others are plain values.  [CLIErr] is a [*clierr.CLIError].  [Wrapping] is a
    value of any other error type: its message and what it unwraps to or
    claims to be. *)
Inductive goerr :=
| Sentinel (name text : string)
| Errorf (fmt : string) (args : list fmtarg)
| Joined (errs : list goerr)
| CLIErr (code message hint : string) (context : gmap string string)
         (wrapped : option goerr)
| Wrapping (text : string) (errs : list goerr)
with fmtarg :=
| AStr (s : string)
| AInt (z : Z)
| AErr (e : goerr).

(** A Go [error] result: [None] is [nil]. *)
Abbreviation err := (option goerr).

(** Decimal text of an integer ([strconv.Itoa], [%d]). *)
Definition Itoa (z : Z) : string := pretty z.

(** [strconv.Quote] on printable text: the quote and the backslash escaped. *)
Fixpoint escape_quoted (s : string) : string :=
  match s with
  | EmptyString => ""
  | String c s' =>
      if decide (c = "034"%char) then "\" +:+ String c (escape_quoted s')
      else if decide (c = "\"%char) then "\\" +:+ escape_quoted s'
      else String c (escape_quoted s')
  end.
Definition Quote (s : string) : string :=
  let q := String "034"%char EmptyString in q +:+ escape_quoted s +:+ q.

(** [fmt.Sprintf] for the verbs the sources use; each argument comes with its
    plain text, which [%q] quotes. *)
Fixpoint sprintf (fmt : string) (args : list string) : string :=
  match fmt with
  | EmptyString => ""
  | String "%" (String v rest) =>
      match args with
      | a :: args' =>
          (if decide (v = "q"%char) then Quote a else a) +:+ sprintf rest args'
      | [] => String "%" (String v (sprintf rest []))
      end
  | String c rest => String c (sprintf rest args)
  end.

(** [strings.Join]. *)
Fixpoint Join (elems : list string) (sep : string) : string :=
  match elems with
  | [] => ""
  | [s] => s
  | s :: rest => s +:+ sep +:+ Join rest sep
  end.

(** [err.Error()]. *)
Fixpoint error_text (e : goerr) : string :=
  match e with
  | Sentinel _ text => text
  | Errorf fmt args =>
      sprintf fmt (map (fun a => match a with
                                 | AStr s => s
                                 | AInt z => Itoa z
                                 | AErr e' => error_text e'
                                 end) args)
  | Joined errs => Join (map error_text errs) (String "010"%char EmptyString)
  | CLIErr _ message _ _ _ => message
  | Wrapping text _ => text
  end.

(** [errors.Is(err, target)] for a sentinel target. *)
Fixpoint errorsIs (e : goerr) (target : string) : bool :=
  match e with
  | Sentinel name _ => bool_decide (name = target)
  | Errorf _ args =>
      existsb (fun a => match a with AErr e' => errorsIs e' target | _ => false end) args
  | Joined errs => existsb (fun e' => errorsIs e' target) errs
  | CLIErr _ _ _ _ (Some w) => errorsIs w target
  | CLIErr _ _ _ _ None => false
  | Wrapping _ errs => existsb (fun e' => errorsIs e' target) errs
  end.

(** [errors.Is] on a possibly nil error. *)
Definition Is (e : err) (target : string) : bool :=
  match e with Some e' => errorsIs e' target | None => false end.

(** [errors.Join]: nil when every argument is nil. *)
Definition errorsJoin (es : list err) : err :=
  match omap id es with
  | [] => None
  | l => Some (Joined l)
  end.

(** Run the second check when the first one passed. *)
Definition andThen (e : err) (k : err) : err := match e with Some _ => e | None => k end.
Lemma andThen_None e k : andThen e k = None <-> e = None /\ k = None.
Proof. destruct e; naive_solver. Qed.

(** ** Strings *)

Definition len (s : string) : Z := Z.of_nat (String.length s).

Definition HasPrefix (s prefix : string) : bool := String.prefix prefix s.

Fixpoint string_rev_app (s acc : string) : string :=
  match s with
  | EmptyString => acc
  | String c s' => string_rev_app s' (String c acc)
  end.
Definition string_rev (s : string) : string := string_rev_app s "".

Definition HasSuffix (s suffix : string) : bool :=
  String.prefix (string_rev suffix) (string_rev s).

(** [s[n:]] and [s[:n]]. *)
Fixpoint string_drop (n : nat) (s : string) : string :=
  match n, s with
  | S n', String _ s' => string_drop n' s'
  | _, _ => s
  end.
Fixpoint string_take (n : nat) (s : string) : string :=
  match n, s with
  | S n', String c s' => String c (string_take n' s')
  | _, _ => ""
  end.

Definition TrimPrefix (s prefix : string) : string :=
  if HasPrefix s prefix then string_drop (String.length prefix) s else s.
Definition TrimSuffix (s suffix : string) : string :=
  if HasSuffix s suffix then string_take (String.length s - String.length suffix) s else s.

(** [strconv.ParseUint(s, 10, 64)]: [None] for a syntax or a range error. *)
Definition digit_of (c : ascii) : option Z :=
  let n := Z.of_nat (Ascii.nat_of_ascii c) in
  if (48 <=? n) && (n <=? 57) then Some (n - 48) else None.
Fixpoint parse_digits (acc : Z) (s : string) : option Z :=
  match s with
  | EmptyString => Some acc
  | String c s' =>
      match digit_of c with
      | Some d => parse_digits (10 * acc + d) s'
      | None => None
      end
  end.
Definition ParseUint (s : string) : option Z :=
  match s with
  | EmptyString => None
  | _ => match parse_digits 0 s with
         | Some z => if z <? 2 ^ 64 then Some z else None
         | None => None
         end
  end.

(** [%0*d] for a number of at most [width] digits. *)
Definition digit_char (d : Z) : ascii := Ascii.ascii_of_nat (Z.to_nat (48 + d)).
Fixpoint padDigits (width : nat) (n : Z) : string :=
  match width with
  | O => ""
  | S w => padDigits w (n / 10) +:+ String (digit_char (n mod 10)) EmptyString
  end.

Definition nl : string := String "010"%char EmptyString.

(** [strings.Cut(s, sep)] by the first occurrence of [sep]. *)
Fixpoint Cut (s sep : string) : option (string * string) :=
  if HasPrefix s sep then Some ("", string_drop (String.length sep) s)
  else match s with
       | EmptyString => None
       | String c s' =>
           match Cut s' sep with
           | Some (before, after) => Some (String c before, after)
           | None => None
           end
       end.

(** What a loop over [ReadBytes('\n')] delivers: the complete lines (without
    their newline) and the bytes after the last newline. *)
Fixpoint splitLines (s : string) : list string * string :=
  match s with
  | EmptyString => ([], "")
  | String c s' =>
      let '(ls, rest) := splitLines s' in
      if decide (c = "010"%char) then ("" :: ls, rest)
      else match ls with
           | [] => ([], String c rest)
           | l :: ls' => (String c l :: ls', rest)
           end
  end.
Definition joinLines (ls : list string) : string := foldr (fun l acc => l +:+ nl +:+ acc) "" ls.

(** The encodings of the characters [unicode.IsSpace] accepts. *)
Definition u8 (l : list nat) : string :=
  foldr (fun n s => String (Ascii.ascii_of_nat n) s) EmptyString l.
Definition spaceEncodings : list string :=
  map (fun n => u8 [n]) [9; 10; 11; 12; 13; 32]%nat ++
  [u8 [194; 133]; u8 [194; 160]; u8 [225; 154; 128]]%nat ++
  map (fun n => u8 [226; 128; n])%nat [128; 129; 130; 131; 132; 133; 134; 135; 136; 137; 138;
                                     168; 169; 175]%nat ++
  [u8 [226; 129; 159]; u8 [227; 128; 128]]%nat.

(** [bytes.TrimSpace]: drop white space characters at both ends. *)
Fixpoint trimLeft (encodings : list string) (fuel : nat) (s : string) : string :=
  match fuel with
  | O => s
  | S fuel' =>
      match filter (fun e => HasPrefix s e = true) encodings with
      | e :: _ => trimLeft encodings fuel' (string_drop (String.length e) s)
      | [] => s
      end
  end.
Definition TrimLeftSpace (s : string) : string := trimLeft spaceEncodings (String.length s) s.
Definition TrimRightSpace (s : string) : string :=
  string_rev (trimLeft (map string_rev spaceEncodings) (String.length s) (string_rev s)).
Definition TrimSpace (s : string) : string := TrimRightSpace (TrimLeftSpace s).

(** ** Unsigned 64-bit integers *)

Definition u64 (z : Z) : Z := z mod 2 ^ 64.

(** ** Sorting *)

(** [sort.Strings]: Go compares strings bytewise. *)
Definition sortStrings (l : list string) : list string := merge_sort String.le l.

(** [sort.Search(n, f)]: the binary search of the library, [n] halvings being
    more than it ever does. *)
Fixpoint Search_loop (fuel : nat) (f : Z -> bool) (i j : Z) : Z :=
  match fuel with
  | O => i
  | S fuel' =>
      if i <? j then
        let h := (i + j) / 2 in
        if f h then Search_loop fuel' f i h else Search_loop fuel' f (h + 1) j
      else i
  end.
Definition SearchZ (n : Z) (f : Z -> bool) : Z := Search_loop (Z.to_nat n) f 0 n.

(** [sort.SearchStrings]: the first index whose element is not below [x]. *)
Definition SearchStrings (a : list string) (x : string) : Z :=
  SearchZ (Z.of_nat (length a))
    (fun i => match a !! Z.to_nat i with
              | Some y => bool_decide (String.le x y)
              | None => false
              end).

(** ** UTF-8 ([unicode/utf8]) *)

Definition byte (c : ascii) : Z := Z.of_nat (Ascii.nat_of_ascii c).
(** A value among constants ([switch] with one case list). *)
Definition one_of (s : string) (cases : list string) : bool := bool_decide (s ∈ cases).

Definition in_range (lo hi : Z) (c : ascii) : bool := (lo <=? byte c) && (byte c <=? hi).

(** A continuation byte, [10xxxxxx]. *)
Definition is_cont (c : ascii) : bool := in_range 128 191 c.
Definition RuneStart (c : ascii) : bool := negb (is_cont c).

(** The bytes allowed second, after a leading byte. *)
Definition second_ok (b0 b1 : ascii) : bool :=
  if byte b0 =? 224 then in_range 160 191 b1
  else if byte b0 =? 237 then in_range 128 159 b1
  else if byte b0 =? 240 then in_range 144 191 b1
  else if byte b0 =? 244 then in_range 128 143 b1
  else is_cont b1.

(** The length of the encoding a leading byte announces, 0 for none. *)
Definition rune_size (b0 : ascii) : nat :=
  if byte b0 <? 128 then 1
  else if in_range 194 223 b0 then 2
  else if in_range 224 239 b0 then 3
  else if in_range 240 244 b0 then 4
  else 0.

(** The length of the valid encoding [s] starts with, 0 when there is none. *)
Definition rune_len (s : string) : nat :=
  match s with
  | EmptyString => 0
  | String b0 s1 =>
      match rune_size b0, s1 with
      | 1%nat, _ => 1
      | 2%nat, String b1 _ => if second_ok b0 b1 then 2 else 0
      | 3%nat, String b1 (String b2 _) => if second_ok b0 b1 && is_cont b2 then 3 else 0
      | 4%nat, String b1 (String b2 (String b3 _)) =>
          if second_ok b0 b1 && is_cont b2 && is_cont b3 then 4 else 0
      | _, _ => 0
      end
  end.

(** [utf8.ValidString]. *)
Fixpoint ValidString (s : string) : bool :=
  match s with
  | EmptyString => true
  | String b0 s1 =>
      match rune_len s, s1 with
      | 1%nat, _ => ValidString s1
      | 2%nat, String _ s2 => ValidString s2
      | 3%nat, String _ (String _ s3) => ValidString s3
      | 4%nat, String _ (String _ (String _ s4)) => ValidString s4
      | _, _ => false
      end
  end.

(** U+FFFD, the replacement character. *)
Definition replacement : string := "�".

(** What [encoding/json] does to a string: every byte that starts no valid
    encoding becomes U+FFFD. *)
Fixpoint coerceUTF8 (s : string) : string :=
  match s with
  | EmptyString => ""
  | String b0 s1 =>
      match rune_len s, s1 with
      | 1%nat, _ => String b0 (coerceUTF8 s1)
      | 2%nat, String b1 s2 => String b0 (String b1 (coerceUTF8 s2))
      | 3%nat, String b1 (String b2 s3) => String b0 (String b1 (String b2 (coerceUTF8 s3)))
      | 4%nat, String b1 (String b2 (String b3 s4)) =>
          String b0 (String b1 (String b2 (String b3 (coerceUTF8 s4))))
      | _, _ => replacement +:+ coerceUTF8 s1
      end
  end.

(** ** Facts *)

(** Strong induction on a valid string, one encoded character at a time. *)
Lemma ValidString_ind (P : string -> Prop) :
  P "" ->
  (forall s, ValidString s = true -> s <> "" -> (0 < rune_len s)%nat ->
             ValidString (string_drop (rune_len s) s) = true ->
             P (string_drop (rune_len s) s) -> P s) ->
  forall s, ValidString s = true -> P s.
Proof.
  intros Hnil Hstep s. remember (String.length s) as n eqn:Hn. revert s Hn.
  induction (lt_wf n) as [n _ IH]. intros [|b0 s1] -> Hv; [done|].
  assert (Hd : ValidString (string_drop (rune_len (String b0 s1)) (String b0 s1)) = true /\
               (0 < rune_len (String b0 s1))%nat /\
               (String.length (string_drop (rune_len (String b0 s1)) (String b0 s1)) <
                String.length (String b0 s1))%nat).
  { cbn [ValidString] in Hv. revert Hv.
    destruct (rune_len (String b0 s1)) as [|[|[|[|[|k]]]]] eqn:Hk; try (by destruct s1).
    - simpl. intros Hv. split_and!; [done|lia|lia].
    - destruct s1 as [|b1 s2]; [done|]. simpl. intros Hv. split_and!; [done|lia|lia].
    - destruct s1 as [|b1 [|b2 s3]]; [done..|]. simpl. intros Hv. split_and!; [done|lia|lia].
    - destruct s1 as [|b1 [|b2 [|b3 s4]]]; [done..|]. simpl. intros Hv. split_and!; [done|lia|lia]. }
  destruct Hd as (Hvd & Hpos & Hlt). apply Hstep; [done|done|done|done|].
  by eapply (IH _ Hlt).
Qed.

Lemma coerceUTF8_valid s : ValidString s = true -> coerceUTF8 s = s.
Proof.
  revert s. apply ValidString_ind; [done|]. intros [|b0 s1] Hv Hne _ _ IH; [done|].
  cbn [ValidString] in Hv. cbn [coerceUTF8]. revert Hv IH.
  destruct (rune_len (String b0 s1)) as [|[|[|[|[|k]]]]]; try (by destruct s1).
  - simpl. by intros _ ->.
  - destruct s1 as [|b1 s2]; [done|]. simpl. by intros _ ->.
  - destruct s1 as [|b1 [|b2 s3]]; [done..|]. simpl. by intros _ ->.
  - destruct s1 as [|b1 [|b2 [|b3 s4]]]; [done..|]. simpl. by intros _ ->.
Qed.

Lemma string_take_drop n s : string_take n s +:+ string_drop n s = s.
Proof.
  revert s. induction n as [|n IH]; intros [|c s]; try done.
  change (String c (string_take n s +:+ string_drop n s) = String c s). by rewrite IH.
Qed.

Lemma string_length_app s1 s2 :
  String.length (s1 +:+ s2) = (String.length s1 + String.length s2)%nat.
Proof.
  induction s1 as [|c s1 IH]; [done|].
  change (S (String.length (s1 +:+ s2)) = S (String.length s1 + String.length s2)%nat).
  by rewrite IH.
Qed.

Lemma string_length_take n s :
  String.length (string_take n s) = Nat.min n (String.length s).
Proof. revert s. induction n as [|n IH]; intros [|c s]; simpl; auto. Qed.

Lemma string_length_drop n s :
  String.length (string_drop n s) = (String.length s - n)%nat.
Proof. revert s. induction n as [|n IH]; intros [|c s]; simpl; auto. Qed.
