(* ===== verification/GoText.v ===== *)
(** The functions of [strings] and [unicode/utf8] the sources use, and facts on them:
    concatenation, lines, zero-padded decimal numbers, prefixes and suffixes;
    mapping and searching character by character, and what JSON does to a text. *)
From S2P Require Import Prelude GoStd.

(** ** Concatenation *)

Lemma string_app_nil_r s : s +:+ "" = s.
Proof. induction s as [|c s IH]; [done|]. change (String c (s +:+ "") = String c s). by rewrite IH. Qed.
Lemma string_app_assoc s1 s2 s3 : s1 +:+ (s2 +:+ s3) = (s1 +:+ s2) +:+ s3.
Proof.
  induction s1 as [|c s1 IH]; [done|].
  change (String c (s1 +:+ (s2 +:+ s3)) = String c ((s1 +:+ s2) +:+ s3)). by rewrite IH.
Qed.
Lemma string_app_cons c s1 s2 : String c s1 +:+ s2 = String c (s1 +:+ s2).
Proof. done. Qed.

Lemma len_app s1 s2 : len (s1 +:+ s2) = len s1 + len s2.
Proof. unfold len. rewrite string_length_app. lia. Qed.
Lemma len_nonneg s : 0 <= len s.
Proof. unfold len. lia. Qed.
Lemma len_0 s : len s = 0 -> s = "".
Proof. by destruct s. Qed.

Lemma string_take_app s1 s2 : string_take (String.length s1) (s1 +:+ s2) = s1.
Proof. induction s1 as [|c s1 IH]; [by destruct s2|]. simpl. by rewrite IH. Qed.
Lemma string_drop_app s1 s2 : string_drop (String.length s1) (s1 +:+ s2) = s2.
Proof. induction s1 as [|c s1 IH]; [by destruct s2|]. done. Qed.
Lemma string_take_app_le n s1 s2 :
  (n <= String.length s1)%nat -> string_take n (s1 +:+ s2) = string_take n s1.
Proof.
  revert s1. induction n as [|n IH]; intros [|c s1] Hn; simpl in *; [done|done|lia|].
  rewrite IH; [done|lia].
Qed.
Lemma string_take_all n s : (String.length s <= n)%nat -> string_take n s = s.
Proof.
  revert s. induction n as [|n IH]; intros [|c s] Hn; simpl in *; [done|lia|done|].
  by rewrite IH by lia.
Qed.
Lemma string_app_inj_l s1 s2 t1 t2 :
  String.length s1 = String.length t1 -> s1 +:+ s2 = t1 +:+ t2 -> s1 = t1 /\ s2 = t2.
Proof.
  revert t1. induction s1 as [|c s1 IH]; intros [|d t1] Hl H; try done.
  injection H as -> H. injection Hl as Hl. by destruct (IH t1 Hl H) as [-> ->].
Qed.

(** ** Reversal, prefixes and suffixes *)

Lemma string_rev_app_spec s acc : string_rev_app s acc = string_rev s +:+ acc.
Proof.
  unfold string_rev. revert acc. induction s as [|c s IH]; intros acc; [done|]. simpl.
  rewrite IH, (IH (String c "")). by rewrite <- string_app_assoc.
Qed.
Lemma string_rev_cons c s : string_rev (String c s) = string_rev s +:+ String c "".
Proof. unfold string_rev at 1. simpl. apply string_rev_app_spec. Qed.
Lemma string_rev_concat s1 s2 : string_rev (s1 +:+ s2) = string_rev s2 +:+ string_rev s1.
Proof.
  induction s1 as [|c s1 IH]; [by rewrite string_app_nil_r|].
  rewrite string_app_cons, !string_rev_cons, IH. by rewrite string_app_assoc.
Qed.
Lemma string_rev_involutive s : string_rev (string_rev s) = s.
Proof. induction s as [|c s IH]; [done|]. by rewrite string_rev_cons, string_rev_concat, IH. Qed.
Lemma string_rev_length s : String.length (string_rev s) = String.length s.
Proof.
  induction s as [|c s IH]; [done|]. rewrite string_rev_cons, string_length_app, IH. simpl. lia.
Qed.

Lemma HasPrefix_spec s p : HasPrefix s p = true <-> exists t, s = p +:+ t.
Proof.
  unfold HasPrefix. revert s. induction p as [|c p IH]; intros s.
  - split; [by exists s|]. by destruct s.
  - destruct s as [|d s]; simpl; [split; [done|]; by intros [t ?]|]. destruct (ascii_dec c d) as [->|Hne].
    + rewrite IH. split; intros [t Ht]; exists t; [by rewrite Ht|]. by injection Ht.
    + split; [done|]. intros [t Ht]. by injection Ht.
Qed.
Lemma HasSuffix_spec s p : HasSuffix s p = true <-> exists t, s = t +:+ p.
Proof.
  unfold HasSuffix. change (String.prefix (string_rev p) (string_rev s))
    with (HasPrefix (string_rev s) (string_rev p)). rewrite HasPrefix_spec. split; intros [t Ht].
  - exists (string_rev t). rewrite <- (string_rev_involutive s), Ht, string_rev_concat.
    by rewrite string_rev_involutive.
  - exists (string_rev t). by rewrite Ht, string_rev_concat.
Qed.
Lemma TrimPrefix_app p s : TrimPrefix (p +:+ s) p = s.
Proof.
  unfold TrimPrefix. replace (HasPrefix (p +:+ s) p) with true; [apply string_drop_app|].
  symmetry. apply HasPrefix_spec. by exists s.
Qed.
Lemma TrimSuffix_app s p : TrimSuffix (s +:+ p) p = s.
Proof.
  unfold TrimSuffix. replace (HasSuffix (s +:+ p) p) with true.
  - rewrite string_length_app, Nat.add_sub. apply string_take_app.
  - symmetry. apply HasSuffix_spec. by exists s.
Qed.

(** ** Lines *)

Lemma splitLines_cons c s :
  splitLines (String c s) =
    if decide (c = "010"%char) then ("" :: (splitLines s).1, (splitLines s).2)
    else match (splitLines s).1 with
         | [] => ([], String c (splitLines s).2)
         | l :: ls => (String c l :: ls, (splitLines s).2)
         end.
Proof. simpl. destruct (splitLines s) as [ls rest]. repeat case_match; naive_solver. Qed.

(** Text after complete lines starts afresh. *)
Lemma splitLines_app s t ls :
  splitLines s = (ls, "") -> splitLines (s +:+ t) = (ls ++ (splitLines t).1, (splitLines t).2).
Proof.
  revert ls. induction s as [|c s IH]; intros ls.
  - intros [= <-]. change ("" +:+ t) with t. by destruct (splitLines t).
  - rewrite string_app_cons, !splitLines_cons. destruct (splitLines s) as [ls' rest] eqn:Hs. simpl.
    case_decide.
    + intros [= <- ->]. by rewrite (IH ls').
    + destruct ls' as [|l ls'']; intros [= <- ->]. by rewrite (IH (l :: ls'')).
Qed.

Lemma splitLines_line s : splitLines s = ([], s) -> splitLines (s +:+ nl) = ([s], "").
Proof.
  induction s as [|c s IH]; [done|]. rewrite string_app_cons, !splitLines_cons.
  destruct (splitLines s) as [ls rest] eqn:Hs. simpl. case_decide; [done|].
  destruct ls; [|done]. intros [= ->]. by rewrite IH.
Qed.

Lemma splitLines_take n s : splitLines s = ([], s) -> splitLines (string_take n s) = ([], string_take n s).
Proof.
  revert s. induction n as [|n IH]; intros [|c s]; try done.
  change (string_take (S n) (String c s)) with (String c (string_take n s)). rewrite !splitLines_cons.
  destruct (splitLines s) as [ls rest] eqn:Hs. simpl. case_decide; [done|].
  destruct ls; [|done]. intros [= ->]. by rewrite IH.
Qed.

(** The text is its lines and the rest. *)
Lemma splitLines_join s : joinLines (splitLines s).1 +:+ (splitLines s).2 = s.
Proof.
  induction s as [|c s IH]; [done|]. rewrite splitLines_cons. case_decide as Hc; simpl.
  - subst c. rewrite <- IH at 3. done.
  - destruct (splitLines s) as [[|l ls] rest] eqn:Hs; simpl in *; by rewrite <- IH.
Qed.

Lemma splitLines_complete s : (splitLines s).2 = "" -> s = joinLines (splitLines s).1.
Proof. intros H. rewrite <- (splitLines_join s) at 1. by rewrite H, string_app_nil_r. Qed.

Lemma splitLines_joinLines_prefix s : splitLines (joinLines (splitLines s).1) = ((splitLines s).1, "").
Proof.
  induction s as [|c s IH]; [done|]. rewrite splitLines_cons. case_decide as Hc; simpl.
  - change ("" +:+ joinLines (splitLines s).1) with (joinLines (splitLines s).1). by rewrite IH.
  - destruct (splitLines s) as [[|l ls] rest] eqn:Hs; cbn [joinLines foldr fst snd] in *; [done|].
    rewrite string_app_cons, splitLines_cons, IH. by rewrite decide_False.
Qed.

(** ** Zero-padded decimal numbers *)

Lemma padDigits_length k n : String.length (padDigits k n) = k.
Proof. revert n. induction k as [|k IH]; intros n; [done|]. simpl. rewrite string_length_app, IH. simpl. lia. Qed.

Lemma digit_of_char d : 0 <= d < 10 -> digit_of (digit_char d) = Some d.
Proof.
  intros Hd. assert (d = 0 \/ d = 1 \/ d = 2 \/ d = 3 \/ d = 4 \/ d = 5 \/ d = 6 \/ d = 7 \/ d = 8 \/ d = 9)
    as Hc by lia.
  by destruct_or! Hc; subst.
Qed.
Lemma digit_char_of c d : digit_of c = Some d -> digit_char d = c /\ 0 <= d < 10.
Proof.
  unfold digit_of, digit_char. case_match eqn:Hb; [|done]. intros [= <-].
  apply andb_true_iff in Hb as [H1%Z.leb_le H2%Z.leb_le]. split; [|lia].
  replace (48 + (Z.of_nat (nat_of_ascii c) - 48)) with (Z.of_nat (nat_of_ascii c)) by lia.
  rewrite Nat2Z.id. apply ascii_nat_embedding.
Qed.

Lemma parse_digits_app acc s t :
  parse_digits acc (s +:+ t) = match parse_digits acc s with
                               | Some a => parse_digits a t
                               | None => None
                               end.
Proof.
  revert acc. induction s as [|c s IH]; intros acc; [done|]. rewrite string_app_cons. simpl.
  by destruct (digit_of c).
Qed.

Lemma parse_padDigits acc k n :
  0 <= n -> parse_digits acc (padDigits k n) = Some (acc * 10 ^ Z.of_nat k + n mod 10 ^ Z.of_nat k).
Proof.
  intros Hn. revert n Hn. induction k as [|k IH]; intros n Hn.
  - simpl. by rewrite Z.mod_1_r, Z.mul_1_r, Z.add_0_r.
  - cbn [padDigits]. rewrite parse_digits_app, IH by (apply Z.div_pos; lia). cbn [parse_digits].
    rewrite digit_of_char by (apply Z.mod_pos_bound; lia). f_equal.
    rewrite Nat2Z.inj_succ, Z.pow_succ_r by lia. rewrite (Z.rem_mul_r n 10) by lia. lia.
Qed.

Lemma parse_digits_inverse t n :
  parse_digits 0 (string_rev t) = Some n -> padDigits (String.length t) n = string_rev t /\ 0 <= n.
Proof.
  revert n. induction t as [|c t IH]; intros n; [by intros [= <-]|].
  rewrite string_rev_cons, parse_digits_app.
  destruct (parse_digits 0 (string_rev t)) as [a|] eqn:Ha; [|done]. destruct (IH a eq_refl) as [IHa Hpos].
  cbn [parse_digits String.length padDigits].
  destruct (digit_of c) as [d|] eqn:Hd; [|done]. intros [= <-].
  apply digit_char_of in Hd as [Hc Hd].
  replace ((10 * a + d) / 10) with a by (apply (Z.div_unique _ _ a d); lia).
  replace ((10 * a + d) mod 10) with d by (apply (Z.mod_unique _ _ a d); lia).
  rewrite IHa, Hc. split; [done|lia].
Qed.

Lemma ParseUint_padDigits k n :
  0 <= n < 2 ^ 64 -> n < 10 ^ Z.of_nat k -> (0 < k)%nat -> ParseUint (padDigits k n) = Some n.
Proof.
  intros Hn Hk H0. unfold ParseUint. pose proof (padDigits_length k n) as Hl.
  destruct (padDigits k n) as [|c s] eqn:Hp; [simpl in Hl; lia|]. rewrite <- Hp.
  rewrite parse_padDigits, Z.mod_small by lia. simpl. by rewrite (proj2 (Z.ltb_lt _ _)) by lia.
Qed.

Lemma ParseUint_Some s n :
  ParseUint s = Some n -> padDigits (String.length s) n = s /\ 0 <= n < 2 ^ 64.
Proof.
  unfold ParseUint. destruct s as [|c s]; [done|]. set (t := String c s).
  destruct (parse_digits 0 t) as [z|] eqn:Hz; [|done]. destruct (z <? 2 ^ 64) eqn:Hlt; [|done].
  intros [= <-]. rewrite <- (string_rev_involutive t) in Hz. apply parse_digits_inverse in Hz as [H1 H2].
  rewrite string_rev_involutive, string_rev_length in H1. by apply Z.ltb_lt in Hlt.
Qed.

(** ** Searching *)

Fixpoint Contains (s sub : string) : bool :=
  HasPrefix s sub || match s with EmptyString => false | String _ s' => Contains s' sub end.
Fixpoint ContainsAny (s : string) (chars : list ascii) : bool :=
  match s with EmptyString => false | String c s' => bool_decide (c ∈ chars) || ContainsAny s' chars end.
(** The start of the last occurrence, -1 for none. *)
Fixpoint LastIndex (s sub : string) : Z :=
  match s with
  | EmptyString => if HasPrefix s sub then 0 else -1
  | String _ s' =>
      let r := LastIndex s' sub in
      if 0 <=? r then r + 1 else if HasPrefix s sub then 0 else -1
  end.

(** ** Mapping *)

(** [strings.Map] with a function on encoded characters: a byte that starts no
    valid encoding becomes U+FFFD, which is three bytes. *)
Fixpoint mapRunes (f : string -> string) (s : string) : string :=
  match s with
  | EmptyString => ""
  | String b0 s1 =>
      match rune_len s, s1 with
      | 1%nat, _ => f (String b0 "") +:+ mapRunes f s1
      | 2%nat, String b1 s2 => f (String b0 (String b1 "")) +:+ mapRunes f s2
      | 3%nat, String b1 (String b2 s3) => f (String b0 (String b1 (String b2 ""))) +:+ mapRunes f s3
      | 4%nat, String b1 (String b2 (String b3 s4)) =>
          f (String b0 (String b1 (String b2 (String b3 "")))) +:+ mapRunes f s4
      | _, _ => replacement +:+ mapRunes f s1
      end
  end.

Definition to_lower (c : ascii) : ascii :=
  if in_range 65 90 c then Ascii.ascii_of_nat (Ascii.nat_of_ascii c + 32) else c.
Definition to_upper (c : ascii) : ascii :=
  if in_range 97 122 c then Ascii.ascii_of_nat (Ascii.nat_of_ascii c - 32) else c.
(** A change of case, given by [f] on ASCII and by [g] on the other characters. *)
Definition foldCase (f : ascii -> ascii) (g : string -> string) (r : string) : string :=
  match r with String c EmptyString => String (f c) "" | _ => g r end.

(** [strings.ToLower] and [strings.ToUpper] as far as ASCII letters can come out:
    the Kelvin sign and the dotted capital I become k and i, the long s and the
    dotless i become S and I; no other character becomes an ASCII one. *)
Definition ToLower (s : string) : string :=
  mapRunes (foldCase to_lower (fun r =>
    if decide (r = u8 [226; 132; 170]%nat) then "k" else if decide (r = u8 [196; 176]%nat) then "i" else r)) s.
Definition ToUpper (s : string) : string :=
  mapRunes (foldCase to_upper (fun r =>
    if decide (r = u8 [197; 191]%nat) then "S" else if decide (r = u8 [196; 177]%nat) then "I" else r)) s.

(** ** What JSON does to texts *)

(** An encoding is found whatever follows it. *)
Lemma rune_len_prefix s t n :
  rune_len s = n -> (0 < n)%nat -> rune_len (string_take n s +:+ t) = n /\ String.length (string_take n s) = n.
Proof.
  destruct s as [|b0 s1]; [cbn; lia|]. cbn [rune_len].
  destruct (rune_size b0) as [|[|[|[|[|k]]]]] eqn:Hk.
  - destruct s1; cbn; lia.
  - intros <- _. destruct s1; cbn [string_take String.length]; rewrite !string_app_cons; cbn [rune_len]; by rewrite Hk.
  - destruct s1 as [|b1 s2]; [lia|]. destruct (second_ok b0 b1) eqn:H2; [|lia].
    intros <- _. cbn [string_take String.length].
    rewrite !string_app_cons. cbn [rune_len]. by rewrite Hk, H2.
  - destruct s1 as [|b1 [|b2 s3]]; [lia..|].
    destruct (second_ok b0 b1 && is_cont b2) eqn:H2; [|lia]. intros <- _. cbn [string_take String.length].
    rewrite !string_app_cons. cbn [rune_len]. by rewrite Hk, H2.
  - destruct s1 as [|b1 [|b2 [|b3 s4]]]; [lia..|].
    destruct (second_ok b0 b1 && is_cont b2 && is_cont b3) eqn:H2; [|lia]. intros <- _. cbn [string_take String.length].
    rewrite !string_app_cons. cbn [rune_len]. by rewrite Hk, H2.
  - destruct s1; cbn; lia.
Qed.

(** [coerceUTF8] by encoded characters. *)
Lemma coerceUTF8_step s :
  s <> "" ->
  coerceUTF8 s =
    if decide (rune_len s = 0%nat) then replacement +:+ coerceUTF8 (string_drop 1 s)
    else string_take (rune_len s) s +:+ coerceUTF8 (string_drop (rune_len s) s).
Proof.
  destruct s as [|b0 s1]; [done|]. intros _. cbn [coerceUTF8]. cbn [rune_len].
  destruct (rune_size b0) as [|[|[|[|[|k]]]]] eqn:Hk.
  - by destruct s1.
  - by destruct s1.
  - destruct s1 as [|b1 s2]; [done|]. by destruct (second_ok b0 b1).
  - destruct s1 as [|b1 [|b2 s3]]; [done..|]. by destruct (second_ok b0 b1 && is_cont b2).
  - destruct s1 as [|b1 [|b2 [|b3 s4]]]; [done..|].
    by destruct (second_ok b0 b1 && is_cont b2 && is_cont b3).
  - by destruct s1.
Qed.
Lemma ValidString_step s :
  s <> "" -> ValidString s = bool_decide (rune_len s <> 0%nat) && ValidString (string_drop (rune_len s) s).
Proof.
  destruct s as [|b0 s1]; [done|]. intros _. cbn [ValidString]. cbn [rune_len].
  destruct (rune_size b0) as [|[|[|[|[|k]]]]] eqn:Hk.
  - by destruct s1.
  - by destruct s1.
  - destruct s1 as [|b1 s2]; [done|]. by destruct (second_ok b0 b1).
  - destruct s1 as [|b1 [|b2 s3]]; [done..|]. by destruct (second_ok b0 b1 && is_cont b2).
  - destruct s1 as [|b1 [|b2 [|b3 s4]]]; [done..|].
    by destruct (second_ok b0 b1 && is_cont b2 && is_cont b3).
  - by destruct s1.
Qed.
Lemma coerceUTF8_ValidString s : ValidString (coerceUTF8 s) = true.
Proof.
  remember (String.length s) as n eqn:Hn. revert s Hn.
  induction (lt_wf n) as [n _ IH]. intros s ->.
  destruct (decide (s = "")) as [->|Hne]; [done|]. rewrite coerceUTF8_step by done.
  assert (Hpos : (0 < String.length s)%nat) by (destruct s; [done|cbn; lia]).
  assert (Hlt : forall k, (0 < k)%nat -> (String.length (string_drop k s) < String.length s)%nat).
  { intros k Hk. rewrite string_length_drop. lia. }
  case_decide as Hz.
  - change (ValidString (coerceUTF8 (string_drop 1 s)) = true). eapply IH; [|done]. apply Hlt. lia.
  - destruct (rune_len_prefix s (coerceUTF8 (string_drop (rune_len s) s)) _ eq_refl) as [Hl Hlen]; [lia|].
    set (p := string_take (rune_len s) s) in *. rewrite ValidString_step.
    + rewrite Hl, bool_decide_true by done. rewrite <- Hlen at 1. rewrite string_drop_app. cbn.
      eapply IH; [|done]. apply Hlt. lia.
    + destruct p; [cbn in Hlen; lia|done].
Qed.
Lemma coerceUTF8_idem s : coerceUTF8 (coerceUTF8 s) = coerceUTF8 s.
Proof. apply coerceUTF8_valid, coerceUTF8_ValidString. Qed.
Lemma coerceUTF8_empty s : coerceUTF8 s = "" <-> s = "".
Proof.
  split; [|by intros ->]. intros H. destruct (decide (s = "")) as [|Hne]; [done|].
  rewrite coerceUTF8_step in H by done. case_decide as Hz; [done|].
  destruct (rune_len_prefix s "" _ eq_refl) as [_ Hlen]; [lia|].
  destruct (string_take (rune_len s) s); [cbn in Hlen; lia|done].
Qed.

