(* ===== verification/GoConv.v ===== *)
(** Reading numbers, truth values and durations from text: [strconv.ParseInt],
    [strconv.ParseBool] and [time.ParseDuration] of Go's standard library. *)
From Stdlib Require SpecFloat.
From S2P Require Import Prelude GoStd GoText.

(** [s] up to the first character that does not satisfy [p], and the rest. *)
Fixpoint span (p : ascii -> bool) (s : string) : string * string :=
  match s with
  | EmptyString => ("", "")
  | String c s' => if p c then let '(a, b) := span p s' in (String c a, b) else ("", s)
  end.

Lemma span_join p s : (span p s).1 +:+ (span p s).2 = s.
Proof. induction s as [|c s IH]; [done|]. cbn. destruct (p c); [|done]. destruct (span p s) as [a b]. cbn [fst snd] in *. by rewrite string_app_cons, IH. Qed.

Definition is_digit (c : ascii) : bool := in_range 48 57 c.

(** A sign and the rest; [true] is a minus. *)
Definition signOf (s : string) : bool * string :=
  match s with
  | String "-" s' => (true, s')
  | String "+" s' => (false, s')
  | _ => (false, s)
  end.

(** [strconv.ParseInt(s, 10, 64)] *)
Definition ParseInt (s : string) : option Z :=
  let '(neg, digits) := signOf s in
  match ParseUint digits with
  | None => None
  | Some n =>
      if (neg : bool) then if 2 ^ 63 <? n then None else Some (- n)
      else if 2 ^ 63 <=? n then None else Some n
  end.

(** [strconv.ParseBool] *)
Definition ParseBool (s : string) : option bool :=
  if bool_decide (s ∈ ["1"; "t"; "T"; "TRUE"; "true"; "True"]) then Some true
  else if bool_decide (s ∈ ["0"; "f"; "F"; "FALSE"; "false"; "False"]) then Some false
  else None.

(** ** Durations *)

(** [leadingInt]: the digits at the start of a text; [None] is an overflow. *)
Fixpoint leadingInt (x : Z) (s : string) : option (Z * string) :=
  match s with
  | EmptyString => Some (x, s)
  | String c s' =>
      if is_digit c then
        if 2 ^ 63 / 10 <? x then None
        else let x' := x * 10 + (byte c - 48) in
             if 2 ^ 63 <? x' then None else leadingInt x' s'
      else Some (x, s)
  end.

(** [leadingFraction]: digits behind the point and their scale; what overflows
    is dropped. *)
Fixpoint leadingFraction (x scale : Z) (overflow : bool) (s : string) : Z * Z * string :=
  match s with
  | EmptyString => (x, scale, s)
  | String c s' =>
      if is_digit c then
        let y := x * 10 + (byte c - 48) in
        if overflow || ((2 ^ 63 - 1) / 10 <? x) || (2 ^ 63 <? y)
        then leadingFraction x scale true s'
        else leadingFraction y (scale * 10) false s'
      else (x, scale, s)
  end.

(** The two code points that look like a Greek mu, in UTF-8. *)
Definition micro1 : string := String "194" (String "181" "s").
Definition micro2 : string := String "206" (String "188" "s").
Definition unitMap (u : string) : option Z :=
  if bool_decide (u = "ns") then Some 1
  else if bool_decide (u ∈ ["us"; micro1; micro2]) then Some 1000
  else if bool_decide (u = "ms") then Some (10 ^ 6)
  else if bool_decide (u = "s") then Some (10 ^ 9)
  else if bool_decide (u = "m") then Some (60 * 10 ^ 9)
  else if bool_decide (u = "h") then Some (3600 * 10 ^ 9)
  else None.

Definition numberPart (c : ascii) : bool := is_digit c || bool_decide (c = "."%char).

(** A [float64] from an integer and back, towards zero. *)
Definition toFloat (z : Z) : SpecFloat.spec_float := SpecFloat.binary_normalize 53 1024 z 0 false.
Definition truncFloat (x : SpecFloat.spec_float) : Z :=
  match x with
  | SpecFloat.S754_finite false m e => Z.shiftl (Zpos m) e
  | SpecFloat.S754_finite true m e => - Z.shiftl (Zpos m) e
  | _ => 0
  end.
(** [float64(f) * (float64(unit) / scale)] *)
Definition fractionOf (f unit scale : Z) : Z :=
  truncFloat (SpecFloat.SFmul 53 1024 (toFloat f)
                (SpecFloat.SFdiv 53 1024 (toFloat unit) (toFloat scale))).

(** One number with its unit: its value in nanoseconds and the rest. *)
Definition durationItem (s : string) : option (Z * string) :=
  match s with
  | String c _ =>
      if negb (numberPart c) then None else
      match leadingInt 0 s with
      | None => None
      | Some (v, s1) =>
          let pre := negb (String.eqb s s1) in
          let '(f, scale, s2, post) :=
            match s1 with
            | String "." s' =>
                let '(f, scale, s2) := leadingFraction 0 1 false s' in
                (f, scale, s2, negb (String.eqb s' s2))
            | _ => (0, 1, s1, false)
            end in
          if negb (pre || post) then None
          else
            let '(u, rest) := span (fun c => negb (numberPart c)) s2 in
            match unitMap u with
            | None => None
            | Some unit =>
                if 2 ^ 63 / unit <? v then None
                else let n := v * unit + fractionOf f unit scale in
                     if 2 ^ 63 <? n then None else Some (n, rest)
            end
      end
  | EmptyString => None
  end.

Fixpoint durationItems (fuel : nat) (d : Z) (s : string) : option Z :=
  match fuel, s with
  | _, EmptyString => Some d
  | O, _ => None
  | S fuel', _ =>
      match durationItem s with
      | None => None
      | Some (n, rest) =>
          let d' := (d + n) mod 2 ^ 64 in
          if 2 ^ 63 <? d' then None else durationItems fuel' d' rest
      end
  end.

(** [time.ParseDuration]; an item takes a character at least. *)
Definition ParseDuration (s : string) : option Z :=
  let '(neg, t) := signOf s in
  if String.eqb t "0" then Some 0
  else if String.eqb t "" then None
  else match durationItems (String.length t) 0 t with
       | None => None
       | Some d => if (neg : bool) then Some (- d) else if 2 ^ 63 - 1 <? d then None else Some d
       end.

Example duration_hours : ParseDuration "1h30m" = Some (5400 * 10 ^ 9).
Proof. vm_compute. reflexivity. Qed.
Example duration_fraction : ParseDuration "-1.5s" = Some (- 1500 * 10 ^ 6).
Proof. vm_compute. reflexivity. Qed.
(** 290 * 0.1 and 57 * 0.1 in floating point. *)
Example duration_float : ParseDuration "0.0290us" = Some 29 /\ ParseDuration "0.0057us" = Some 5.
Proof. vm_compute. done. Qed.
Example duration_no_unit : ParseDuration "10" = None.
Proof. vm_compute. reflexivity. Qed.
