(* ===== verification/GoPath.v ===== *)
(** Splitting texts, and slash-separated paths: [strings.Split], and the parts of
    Go's [path] and [path/filepath] (on Unix) that the sources use. *)
From S2P Require Import Prelude GoStd GoText.

(** ** Splitting *)

(** [strings.Split(s, sep)] for a separator of one character; never empty. *)
Fixpoint SplitChar (sep : ascii) (s : string) : list string :=
  match s with
  | EmptyString => [""]
  | String c s' =>
      if decide (c = sep) then "" :: SplitChar sep s'
      else match SplitChar sep s' with
           | part :: parts => String c part :: parts
           | [] => [String c ""]
           end
  end.

(** Does [c] occur in [s]? *)
Fixpoint hasChar (c : ascii) (s : string) : bool :=
  match s with EmptyString => false | String d s' => bool_decide (d = c) || hasChar c s' end.

Lemma SplitChar_cons sep s : exists part parts, SplitChar sep s = part :: parts.
Proof. destruct s as [|c s]; cbn; [by eauto|]. case_decide; [by eauto|]. case_match; eauto. Qed.

Lemma Join_cons x y (l : list string) sep : Join (x :: y :: l) sep = x +:+ (sep +:+ Join (y :: l) sep).
Proof. done. Qed.

(** Joining the parts gives the text back. *)
Lemma Join_SplitChar sep s : Join (SplitChar sep s) (String sep "") = s.
Proof.
  induction s as [|c s IH]; [done|]. cbn [SplitChar]. destruct (SplitChar_cons sep s) as (x & l & Hl).
  rewrite Hl in IH |- *. case_decide as Hc.
  - subst c. rewrite Join_cons, IH. done.
  - destruct l as [|y l]; [cbn in IH; by subst|]. rewrite Join_cons in IH |- *. rewrite string_app_cons. by rewrite IH.
Qed.

Lemma hasChar_app c s1 s2 : hasChar c (s1 +:+ s2) = hasChar c s1 || hasChar c s2.
Proof. induction s1 as [|d s1 IH]; [done|]. rewrite string_app_cons. cbn. by rewrite IH, orb_assoc. Qed.

Lemma SplitChar_none sep s : hasChar sep s = false -> SplitChar sep s = [s].
Proof.
  induction s as [|c s IH]; [done|]. cbn. intros [Hc Hs]%orb_false_iff. apply bool_decide_eq_false in Hc.
  by rewrite decide_False, (IH Hs).
Qed.
Lemma SplitChar_app sep s1 s2 :
  hasChar sep s1 = false -> SplitChar sep (s1 +:+ String sep s2) = s1 :: SplitChar sep s2.
Proof.
  induction s1 as [|c s1 IH]; cbn [hasChar].
  - intros _. change ("" +:+ ?x) with x. cbn [SplitChar]. by rewrite decide_True.
  - intros [Hc Hs]%orb_false_iff. apply bool_decide_eq_false in Hc. rewrite string_app_cons. cbn [SplitChar].
    by rewrite decide_False, (IH Hs).
Qed.
(** No part contains the separator. *)
Lemma SplitChar_parts sep s : Forall (fun p => hasChar sep p = false) (SplitChar sep s).
Proof.
  induction s as [|c s IH]; [by repeat constructor|]. cbn [SplitChar].
  destruct (SplitChar_cons sep s) as (x & l & Hl). rewrite Hl in IH |- *. case_decide as Hc; [by constructor|].
  inversion IH; subst. constructor; [|done]. cbn. by rewrite bool_decide_false.
Qed.

(** ** Paths *)

Definition slash : ascii := "/"%char.
Definition IsAbs (p : string) : bool := HasPrefix p "/".

(** One element of a path on the stack of the elements before it, last first. *)
Definition cleanStep (rooted : bool) (stack : list string) (elem : string) : list string :=
  if one_of elem [""; "."] then stack
  else if bool_decide (elem = "..") then
    match stack with
    | top :: rest => if bool_decide (top = "..") then elem :: stack else rest
    | [] => if rooted then [] else [elem]
    end
  else elem :: stack.
(** [path.Clean] *)
Definition Clean (p : string) : string :=
  let rooted := IsAbs p in
  let elems := reverse (foldl (cleanStep rooted) [] (SplitChar slash p)) in
  if rooted then "/" +:+ Join elems "/"
  else if bool_decide (elems = []) then "." else Join elems "/".

(** [path.Join] *)
Definition JoinPath (elems : list string) : string :=
  match filter (fun e => e <> "") elems with [] => "" | l => Clean (Join l "/") end.

(** The text behind the last slash, and up to and with it. *)
Definition lastElem (p : string) : string := default "" (last (SplitChar slash p)).
Definition dirPart (p : string) : string :=
  string_take (String.length p - String.length (lastElem p)) p.
(** [path.Dir] *)
Definition Dir (p : string) : string := Clean (dirPart p).
Fixpoint trimSlashes (fuel : nat) (p : string) : string :=
  match fuel with
  | S n => if HasSuffix p "/" then trimSlashes n (TrimSuffix p "/") else p
  | O => p
  end.
(** [path.Base] *)
Definition Base (p : string) : string :=
  if bool_decide (p = "") then "."
  else
    let q := trimSlashes (String.length p) p in
    if bool_decide (q = "") then "/" else lastElem q.

Example clean_examples :
  Clean "a//b/./c/.." = "a/b" /\ Clean "/../a" = "/a" /\ Clean "../../x" = "../../x" /\ Clean "" = "." /\
  Clean "/" = "/" /\ Clean "a/.." = "." /\ Clean "a/../.." = "..".
Proof. vm_compute. done. Qed.
Example dir_base : Dir "/a/b/c.json" = "/a/b" /\ Dir "c" = "." /\ Base "/a/b/" = "b" /\ Base "///" = "/" /\ Dir "/c" = "/".
Proof. vm_compute. done. Qed.

(** ** Cleaning twice *)

(** An element that stays where it is. *)
Definition steady (e : string) : Prop := e <> "" /\ e <> "." /\ e <> ".." /\ hasChar slash e = false.

Lemma cleanStep_rooted stack e :
  Forall steady stack -> hasChar slash e = false -> Forall steady (cleanStep true stack e).
Proof.
  intros Hs He. unfold cleanStep, one_of. case_bool_decide as H1; [done|]. case_bool_decide as H2.
  - destruct stack as [|top rest]; [done|]. apply Forall_cons in Hs as [[_ [_ [Ht _]]] Hr].
    by rewrite bool_decide_false.
  - constructor; [|done]. split_and!; [set_solver..|done|done].
Qed.
Lemma cleanSteps_rooted es : forall stack,
  Forall steady stack -> Forall (fun e => hasChar slash e = false) es -> Forall steady (foldl (cleanStep true) stack es).
Proof.
  induction es as [|e es IH]; intros stack Hs He; [done|]. apply Forall_cons in He as [He Hes].
  cbn [foldl]. apply IH; [|done]. by apply cleanStep_rooted.
Qed.
Lemma cleanStep_steady stack e : steady e -> cleanStep true stack e = e :: stack.
Proof.
  intros (H1 & H2 & H3 & _). unfold cleanStep, one_of. rewrite bool_decide_false by set_solver.
  by rewrite bool_decide_false.
Qed.
Lemma cleanSteps_steady es : forall stack, Forall steady es -> foldl (cleanStep true) stack es = reverse es ++ stack.
Proof.
  induction es as [|e es IH]; intros stack Hs; [done|]. apply Forall_cons in Hs as [He Hs].
  cbn [foldl]. rewrite cleanStep_steady, IH by done. by rewrite reverse_cons, <- app_assoc.
Qed.
Lemma SplitChar_Join sep es :
  Forall (fun e => hasChar sep e = false) es -> es <> [] -> SplitChar sep (Join es (String sep "")) = es.
Proof.
  induction 1 as [|e es He Hes IH]; [done|]. intros _. destruct es as [|e' es]; [by apply SplitChar_none|].
  rewrite Join_cons. change (String sep "" +:+ ?x) with (String sep x). rewrite SplitChar_app by done. by rewrite IH.
Qed.

Lemma IsAbs_Clean p : IsAbs p = true -> IsAbs (Clean p) = true.
Proof. intros Hp. unfold Clean. rewrite Hp. apply HasPrefix_spec. by eexists. Qed.
Lemma Clean_idem p : IsAbs p = true -> Clean (Clean p) = Clean p.
Proof.
  intros Hp. pose proof (IsAbs_Clean p Hp) as Ha. unfold Clean at 1. rewrite Ha. unfold Clean. rewrite Hp.
  set (es := reverse (foldl (cleanStep true) [] (SplitChar slash p))). assert (Hes : Forall steady es).
  { subst es. apply Forall_reverse, cleanSteps_rooted; [constructor|apply SplitChar_parts]. }
  do 2 f_equal. change ("/" +:+ Join es "/") with (String slash (Join es (String slash ""))). cbn [SplitChar].
  rewrite decide_True by done. cbn [foldl]. change (cleanStep true [] "") with (@nil string).
  destruct (decide (es = [])) as [->|Hne]; [done|].
  rewrite (SplitChar_Join slash) by (done || by eapply Forall_impl; [exact Hes|]; intros e (_ & _ & _ & He)).
  by rewrite cleanSteps_steady, app_nil_r, reverse_involutive.
Qed.

(** A path below an absolute one is absolute. *)
Lemma IsAbs_app p q : IsAbs p = true -> IsAbs (p +:+ q) = true.
Proof.
  unfold IsAbs. rewrite !HasPrefix_spec. intros [r ->]. exists (r +:+ q). by rewrite string_app_assoc.
Qed.
Lemma JoinPath_abs p l : IsAbs p = true -> exists q, JoinPath (p :: l) = Clean q /\ IsAbs q = true.
Proof.
  intros Hp. unfold JoinPath. rewrite filter_cons_True by (by intros ->).
  eexists; split; [done|]. destruct (filter _ l) as [|e es]; [done|]. rewrite Join_cons. by apply IsAbs_app.
Qed.

(** The directory of an absolute path is absolute. *)
Lemma SplitChar_lengths sep s : Forall (fun p => String.length p <= String.length s)%nat (SplitChar sep s).
Proof.
  induction s as [|c s IH]; [by repeat constructor|]. cbn [SplitChar String.length].
  destruct (SplitChar_cons sep s) as (x & l & Hl). rewrite Hl in IH |- *. case_decide.
  - constructor; [cbn; lia|]. eapply Forall_impl; [exact IH|]. cbn. lia.
  - apply Forall_cons in IH as [Hx IH]. constructor; [cbn; lia|]. eapply Forall_impl; [exact IH|]. cbn. lia.
Qed.
Lemma IsAbs_Dir p : IsAbs p = true -> IsAbs (Dir p) = true.
Proof.
  intros Hp. apply IsAbs_Clean. unfold dirPart, lastElem. pose proof Hp as [s ->]%HasPrefix_spec.
  change ("/" +:+ s) with (String slash s). cbn [SplitChar]. rewrite decide_True by done.
  destruct (SplitChar_cons slash s) as (x & l & Hl). pose proof (SplitChar_lengths slash s) as Hlen. rewrite Hl in *.
  assert (Hlast : (String.length (default "" (last ("" :: x :: l))) <= String.length s)%nat).
  { change (last ("" :: x :: l)) with (last (x :: l)). destruct (last (x :: l)) as [y|] eqn:Hy; [|cbn; lia].
    apply last_Some_elem_of in Hy. rewrite Forall_forall in Hlen. by apply Hlen. }
  cbn [String.length]. replace (S _ - _)%nat with (S (String.length s - String.length (default "" (last ("" :: x :: l))))) by lia.
  cbn [string_take]. apply HasPrefix_spec. by eexists.
Qed.
