(* ===== verification/GoState.v ===== *)
(** Go code that changes a state and may return an error.  Recursion that is not
    structural has fuel, and running out of it is not an error of the code. *)
From S2P Require Import Prelude GoStd.

Inductive failure := Failed (e : goerr) | OutOfFuel.
(** On failure the state is the one reached so far. *)
Definition Go (S A : Type) : Type := S -> S * (failure + A).

Section Go.
Context {S : Type}.
Definition yield {A} (a : A) : Go S A := fun s => (s, inr a).
Definition refuse {A} (e : goerr) : Go S A := fun s => (s, inl (Failed e)).
Definition exhausted {A} : Go S A := fun s => (s, inl OutOfFuel).
Definition bindGo {A B} (m : Go S A) (k : A -> Go S B) : Go S B := fun s =>
  let '(s', x) := m s in
  match x with inl f => (s', inl f) | inr a => k a s' end.
Definition update (f : S -> S) : Go S () := fun s => (f s, inr ()).
Definition read {A} (f : S -> A) : Go S A := fun s => (s, inr (f s)).
(** [if err != nil { return err }] and with the error wrapped. *)
Definition orErr {A} (x : goerr + A) : Go S A := match x with inl e => refuse e | inr a => yield a end.
Definition orRefuse {A} (format : string) (args : list string) (x : goerr + A) : Go S A :=
  match x with inl e => refuse (Errorf format (map AStr args ++ [AErr e])) | inr a => yield a end.
End Go.
Notation "'go!' x ':=' m 'in' k" := (bindGo m (fun x => k))
  (at level 10, x pattern, m at level 100, k at level 200) : devsy_scope.

(** [range] over a list with a body that may return. *)
Fixpoint eachGo {S A} (body : A -> Go S ()) (l : list A) : Go S () :=
  match l with [] => yield () | x :: rest => go! _ := body x in eachGo body rest end.

Lemma bindGo_inr {S A B} (m : Go S A) (k : A -> Go S B) s b :
  (bindGo m k s).2 = inr b -> exists a s', m s = (s', inr a) /\ (k a s').2 = inr b.
Proof. unfold bindGo. destruct (m s) as [s' [f|a]]; [done|]. by eauto. Qed.

(** ** Reasoning about a run *)

Definition isDone {A} (r : failure + A) : bool := match r with inl _ => false | inr _ => true end.
Definition runs {S A} (m : Go S A) (s : S) (Q : S -> failure + A -> Prop) : Prop := Q (m s).1 (m s).2.
Lemma runs_bind {S A B} (m : Go S A) (k : A -> Go S B) s Q :
  runs m s (fun s' r => match r with inl f => Q s' (inl f) | inr a => runs (k a) s' Q end) -> runs (bindGo m k) s Q.
Proof. unfold runs, bindGo. by destruct (m s) as [s' [f|a]]. Qed.
Lemma runs_mono {S A} (m : Go S A) s (Q Q' : S -> failure + A -> Prop) :
  runs m s Q -> (forall s' r, Q s' r -> Q' s' r) -> runs m s Q'.
Proof. unfold runs. auto. Qed.

(** ** Agreement of runs with different amounts of fuel *)

(** [keeps s s'] is what every step guarantees, [sound] what it needs, and
    [remaining] what bounds the depth of the recursion. *)
Section Agreement.
Context {S : Type} (sound : S -> Prop) (remaining : S -> nat) (keeps : S -> S -> Prop).
Context `{HK : !PreOrder keeps}.
Context (keeps_sound : forall s s', keeps s s' -> sound s -> sound s' /\ (remaining s' <= remaining s)%nat).

(** Both runs are the same, and end, when less than [n] remains. *)
Definition agreeWithin {A} (n : nat) (m1 m2 : Go S A) : Prop := forall s, sound s ->
  keeps s (m1 s).1 /\ (remaining s < n -> m1 s = m2 s /\ (m1 s).2 <> inl OutOfFuel)%nat.

Lemma agree_yield {A} n (a : A) : agreeWithin n (yield a) (yield a).
Proof. by intros s. Qed.
Lemma agree_refuse {A} n e : agreeWithin n (refuse (A:=A) e) (refuse e).
Proof. by intros s. Qed.
Lemma agree_read {A} n (f : S -> A) : agreeWithin n (read f) (read f).
Proof. by intros s. Qed.
Lemma agree_orRefuse {A} n format args (x : goerr + A) : agreeWithin n (orRefuse format args x) (orRefuse format args x).
Proof. destruct x; [apply agree_refuse|apply agree_yield]. Qed.
(** What follows may rely on what a result is like. *)
Lemma agree_bind_post {A B} (P : A -> Prop) n m1 m2 (k1 k2 : A -> Go S B) :
  agreeWithin n m1 m2 -> (forall s s' a, sound s -> m1 s = (s', inr a) -> P a) ->
  (forall a, P a -> agreeWithin n (k1 a) (k2 a)) -> agreeWithin n (bindGo m1 k1) (bindGo m2 k2).
Proof.
  intros Hm Hp Hk s Hs. destruct (Hm s Hs) as [Hkeep Heq]. specialize (Hp s). unfold bindGo.
  destruct (m1 s) as [s' x] eqn:Hm1. cbn in *. destruct (keeps_sound _ _ Hkeep Hs) as [Hs' Hle]. split.
  - destruct x as [f|a]; [done|]. destruct (Hk a (Hp _ _ Hs eq_refl) s' Hs') as [Hkeep' _]. by trans s'.
  - intros Hn. destruct (Heq Hn) as [<- Hf]. destruct x as [f|a]; [split; [done|]; by intros [= ->]|].
    apply (Hk a (Hp _ _ Hs eq_refl) s' Hs'). lia.
Qed.
Lemma agree_bind {A B} n m1 m2 (k1 k2 : A -> Go S B) :
  agreeWithin n m1 m2 -> (forall a, agreeWithin n (k1 a) (k2 a)) -> agreeWithin n (bindGo m1 k1) (bindGo m2 k2).
Proof. intros Hm Hk. by apply (agree_bind_post (fun _ => True)). Qed.
Lemma agree_each {A} n (body1 body2 : A -> Go S ()) l :
  (forall x, x ∈ l -> agreeWithin n (body1 x) (body2 x)) -> agreeWithin n (eachGo body1 l) (eachGo body2 l).
Proof.
  intros Hb. induction l as [|x l IH]; [apply agree_yield|].
  apply agree_bind; [apply Hb; left|]. intros _. apply IH. intros; apply Hb; by right.
Qed.
(** A step that runs the same code on both sides. *)
Lemma agree_same {A} n (m : Go S A) :
  (forall s, sound s -> keeps s (m s).1 /\ (m s).2 <> inl OutOfFuel) -> agreeWithin n m m.
Proof. intros Hm s Hs. destruct (Hm s Hs). split; [done|]. by intros _. Qed.
End Agreement.
