(* ===== verification/Json.v ===== *)
(** JSON values as [encoding/json] decodes them into an [any]; formatting them with
    %v ([fmt.Sprintf]), and the replacements and comparisons of [strings] that go
    with it. *)
From Stdlib Require SpecFloat.
From S2P Require Import Prelude GoStd GoText GoConv GoPath.

(** A [float64] for numbers; an object is a Go map, here a list of its fields. *)
Inductive json :=
| JNull
| JBool (b : bool)
| JNumber (x : SpecFloat.spec_float)
| JString (s : string)
| JArray (l : list json)
| JObject (fields : list (string * json)).

(** Induction through arrays and objects. *)
Section Induction.
Variable P : json -> Prop.
Hypothesis Hnull : P JNull.
Hypothesis Hbool : forall b, P (JBool b).
Hypothesis Hnumber : forall x, P (JNumber x).
Hypothesis Hstring : forall s, P (JString s).
Hypothesis Harray : forall l, Forall P l -> P (JArray l).
Hypothesis Hobject : forall fields, Forall (fun f => P f.2) fields -> P (JObject fields).
Fixpoint json_nested_ind (v : json) : P v :=
  match v with
  | JNull => Hnull
  | JBool b => Hbool b
  | JNumber x => Hnumber x
  | JString s => Hstring s
  | JArray l => Harray l ((fix go l := match l return Forall P l with
                                       | [] => Forall_nil_2 _
                                       | x :: l' => Forall_cons_2 _ _ _ (json_nested_ind x) (go l')
                                       end) l)
  | JObject fs => Hobject fs ((fix go fs := match fs return Forall (fun f => P f.2) fs with
                                            | [] => Forall_nil_2 _
                                            | f :: fs' => Forall_cons_2 _ _ _ (json_nested_ind f.2) (go fs')
                                            end) fs)
  end.
End Induction.

(** The value of a field. *)
Fixpoint field (name : string) (fields : list (string * json)) : option json :=
  match fields with
  | [] => None
  | (k, v) :: rest => if decide (k = name) then Some v else field name rest
  end.
(** [m[name] = v] *)
Definition setField (name : string) (v : json) (fields : list (string * json)) : list (string * json) :=
  filter (fun f : string * json => f.1 <> name) fields ++ [(name, v)].
(** [delete(m, name)] *)
Definition deleteField (name : string) (fields : list (string * json)) : list (string * json) :=
  filter (fun f : string * json => f.1 <> name) fields.

Lemma field_app k l1 l2 :
  field k (l1 ++ l2) = match field k l1 with Some v => Some v | None => field k l2 end.
Proof. induction l1 as [|[k' v'] l1 IH]; [done|]. simpl. by case_decide. Qed.
Lemma field_deleteField name k fields :
  field k (deleteField name fields) = if decide (k = name) then None else field k fields.
Proof.
  unfold deleteField. induction fields as [|[k' v'] fields IH]; [by case_decide|].
  rewrite filter_cons. cbn [fst field]. destruct (decide (k' <> name)) as [Hk'|Hk'%dec_stable]; cbn [field].
  - rewrite IH. repeat case_decide; by subst.
  - rewrite IH. repeat case_decide; by subst.
Qed.
Lemma field_setField name k v fields :
  field k (setField name v fields) = if decide (k = name) then Some v else field k fields.
Proof.
  unfold setField. rewrite field_app. change (filter _ fields) with (deleteField name fields).
  rewrite field_deleteField. simpl. repeat case_decide; subst; by repeat case_match.
Qed.
Lemma field_map (g : json -> json) k fields :
  field k (map (fun f => (f.1, g f.2)) fields) = g <$> field k fields.
Proof. induction fields as [|[k' v'] fields IH]; [done|]. simpl. by case_decide. Qed.

(** ** Numbers *)

(** The [float64] next to [n * 10 ^ k]. *)
Definition floatOfDecimal (n k : Z) : SpecFloat.spec_float :=
  match n with
  | Zpos p =>
      SpecFloat.SFdiv 53 1024 (SpecFloat.S754_finite false (if 0 <=? k then Pos.mul p (Z.to_pos (10 ^ k)) else p) 0)
        (SpecFloat.S754_finite false (if 0 <=? k then xH else Z.to_pos (10 ^ (- k))) 0)
  | _ => SpecFloat.S754_zero false
  end.
(** A positive number as a quotient. *)
Definition ratioOf (m : positive) (e : Z) : Z * Z :=
  if 0 <=? e then (Zpos m * 2 ^ e, 1) else (Zpos m, 2 ^ (- e)).
(** The [k] with [10 ^ (k - 1) <= num / den < 10 ^ k]. *)
Fixpoint decimalExponent (fuel : nat) (num den k : Z) : Z :=
  match fuel with
  | O => k
  | S fuel' =>
      if den * 10 ^ (Z.max k 0) <=? num * 10 ^ (Z.max (- k) 0) then decimalExponent fuel' num den (k + 1)
      else if num * 10 ^ (Z.max (1 - k) 0) <? den * 10 ^ (Z.max (k - 1) 0) then decimalExponent fuel' num den (k - 1)
      else k
  end.
(** The shortest digits that are read back as the number, the nearest of them;
    17 digits always are. *)
Fixpoint shortestDigits (fuel : nat) (x : SpecFloat.spec_float) (num den k d : Z) : Z * Z :=
  match fuel with
  | O => (0, 0)
  | S fuel' =>
      let s := d - k in
      let num' := num * 10 ^ (Z.max s 0) in
      let den' := den * 10 ^ (Z.max (- s) 0) in
      let lo := num' / den' in
      let fits := fun c => match SpecFloat.SFcompare (floatOfDecimal c (- s)) x with Some Eq => true | _ => false end in
      let near := 2 * (num' - lo * den') <=? den' in
      if fits lo && (near || negb (fits (lo + 1))) then (lo, d)
      else if fits (lo + 1) then (lo + 1, d)
      else shortestDigits fuel' x num den k (d + 1)
  end.
Fixpoint trimZeros (fuel : nat) (n d : Z) : Z * Z :=
  match fuel with
  | O => (n, d)
  | S fuel' => if (n mod 10 =? 0) && (1 <? d) then trimZeros fuel' (n / 10) (d - 1) else (n, d)
  end.
(** [strconv.FormatFloat(x, 'g', -1, 64)] with the exponent threshold of %v. *)
Definition formatPositive (m : positive) (e : Z) : string :=
  let '(num, den) := ratioOf m e in
  let k := decimalExponent 800 num den 0 in
  let '(n0, d0) := shortestDigits 20 (SpecFloat.S754_finite false m e) num den k 1 in
  (* rounding up may have given one digit more *)
  let k' := if 10 ^ d0 <=? n0 then k + 1 else k in
  let '(n, d) := trimZeros 20 (if 10 ^ d0 <=? n0 then n0 / 10 else n0) d0 in
  let digits := Itoa n in
  let x := k' - 1 in
  if (x <? -4) || (21 <=? x) then
    let frac := string_drop 1 digits in
    let ex := Itoa (Z.abs x) in
    string_take 1 digits +:+ (if bool_decide (frac = "") then "" else "." +:+ frac) +:+ "e" +:+
      (if x <? 0 then "-" else "+") +:+ (if Z.abs x <? 10 then "0" else "") +:+ ex
  else if k' <=? 0 then "0." +:+ Join (repeat "0" (Z.to_nat (- k'))) "" +:+ digits
  else if d <=? k' then digits +:+ Join (repeat "0" (Z.to_nat (k' - d))) ""
  else string_take (Z.to_nat k') digits +:+ "." +:+ string_drop (Z.to_nat k') digits.
Definition formatFloat (x : SpecFloat.spec_float) : string :=
  match x with
  | SpecFloat.S754_zero s => if s then "-0" else "0"
  | SpecFloat.S754_infinity s => if s then "-Inf" else "+Inf"
  | SpecFloat.S754_nan => "NaN"
  | SpecFloat.S754_finite s m e => (if s then "-" else "") +:+ formatPositive m e
  end.
Example formatted_numbers :
  formatFloat (toFloat 3) = "3" /\ formatFloat (toFloat 120) = "120" /\
  formatFloat (SpecFloat.SFdiv 53 1024 (toFloat 1) (toFloat 10)) = "0.1" /\
  formatFloat (SpecFloat.SFdiv 53 1024 (toFloat 2) (toFloat 3)) = "0.6666666666666666" /\
  formatFloat (toFloat (10 ^ 21)) = "1e+21" /\ formatFloat (toFloat (10 ^ 20)) = "100000000000000000000" /\
  formatFloat (SpecFloat.SFdiv 53 1024 (toFloat 15) (toFloat 1000000)) = "1.5e-05" /\
  formatFloat (SpecFloat.SFdiv 53 1024 (toFloat (-314)) (toFloat 100)) = "-3.14".
Proof. vm_compute. done. Qed.

(** ** Values *)

(** [%v]: maps are printed with sorted keys. *)
Definition fieldLe (f g : string * string) : Prop := String.le f.1 g.1.
#[export] Instance fieldLe_dec : RelDecision fieldLe.
Proof. intros f g. unfold fieldLe. apply _. Defined.
Fixpoint sprintV (v : json) : string :=
  match v with
  | JNull => "<nil>"
  | JBool b => if b then "true" else "false"
  | JNumber x => formatFloat x
  | JString s => s
  | JArray l => "[" +:+ Join (map sprintV l) " " +:+ "]"
  | JObject fields =>
      "map[" +:+ Join (map (fun f => f.1 +:+ ":" +:+ f.2)
                         (merge_sort fieldLe (map (fun f => (f.1, sprintV f.2)) fields))) " " +:+ "]"
  end.
Example printed_values :
  sprintV (JArray [JString "a"; JNull; JBool true]) = "[a <nil> true]" /\
  sprintV (JObject [("b", JNumber (toFloat 2)); ("a", JString "x")]) = "map[a:x b:2]".
Proof. vm_compute. done. Qed.

(** ** Texts *)

(** [strings.ReplaceAll(s, c, new)] for a character. *)
Fixpoint ReplaceChar (c : ascii) (new s : string) : string :=
  match s with
  | EmptyString => ""
  | String d s' => (if decide (d = c) then new else String d "") +:+ ReplaceChar c new s'
  end.
(** [strings.Cut(s, c)] *)
Fixpoint CutChar (c : ascii) (s : string) : option (string * string) :=
  match s with
  | EmptyString => None
  | String d s' =>
      if decide (d = c) then Some ("", s')
      else match CutChar c s' with Some (a, b) => Some (String d a, b) | None => None end
  end.
(** [strings.EqualFold(s, t)] for an ASCII [t]: besides the ASCII letters the
    Kelvin sign and the long s are letters of either case. *)
Fixpoint EqualFold (s t : string) : bool :=
  match t with
  | EmptyString => bool_decide (s = "")
  | String d t' =>
      match s with
      | EmptyString => false
      | String a s1 =>
          if bool_decide (to_lower a = to_lower d) then EqualFold s1 t'
          else match s1 with
               | String b s2 =>
                   if bool_decide (to_lower d = "s"%char) && bool_decide (String a (String b "") = u8 [197; 191]%nat)
                   then EqualFold s2 t'
                   else match s2 with
                        | String c s3 =>
                            bool_decide (to_lower d = "k"%char) &&
                            bool_decide (String a (String b (String c "")) = u8 [226; 132; 170]%nat) && EqualFold s3 t'
                        | EmptyString => false
                        end
               | EmptyString => false
               end
      end
  end.

Lemma CutChar_spec c s :
  match CutChar c s with
  | Some (a, b) => s = a +:+ String c b /\ hasChar c a = false
  | None => hasChar c s = false
  end.
Proof.
  induction s as [|d s IH]; [done|]. cbn [CutChar]. case_decide as Hd; [subst d; done|].
  destruct (CutChar c s) as [[a b]|]; cbn [hasChar]; rewrite bool_decide_false by done; [|done].
  destruct IH as [-> Ha]. split; [by rewrite string_app_cons|done].
Qed.
