(* ===== verification/Clierr.v ===== *)
(** Classified command-line errors (src/pkg/clierr/errors.go): a stable code, a
    message and a hint for every error chain. *)
From S2P Require Import Prelude GoStd GoText.

(** ** Codes *)

Definition dockerDaemonUnavailableMessage := "Docker daemon is unavailable.".
Definition CodeRateLimited := "RATE_LIMITED".
Definition CodePanic := "PANIC".
Definition CodeUnknown := "UNKNOWN".
Definition CodeBuildFailedRecoverable := "BUILD_FAILED_RECOVERABLE".
Definition CodeDockerDaemonUnreachable := "docker_daemon_unreachable".
Definition CodeCanceled := "canceled".
Definition CodeDeadlineExceeded := "deadline_exceeded".
Definition CodeUnlockRequired := "unlock_required".
Definition CodeUnlockFailed := "unlock_failed".
Definition CodeSecretBackendUnavailable := "secret_backend_unavailable".
Definition CodeSecretStoreCorrupt := "secret_store_corrupt".
Definition CodeSecretNotFound := "secret_not_found".

(** ** Errors *)

Record CLIError := mkCLIError {
  eCode : string;
  eMessage : string;
  eHint : string;
  eContext : gmap string string;
  eWrapped : option goerr;
}.
(** A [*CLIError] as an [error]. *)
Definition asError (e : CLIError) : goerr :=
  CLIErr (eCode e) (eMessage e) (eHint e) (eContext e) (eWrapped e).

Definition ErrRateLimited : goerr := Sentinel "clierr.ErrRateLimited" "rate limited".
Definition ErrBuildFailedRecoverable : goerr :=
  Sentinel "clierr.ErrBuildFailedRecoverable" "dev container build failed".
Definition contextCanceled : goerr := Sentinel "context.Canceled" "context canceled".
Definition contextDeadlineExceeded : goerr :=
  Sentinel "context.DeadlineExceeded" "context deadline exceeded".

(** A panic value reaches [NewPanic] as the text [%v] prints of it. *)
Definition NewPanic (recovered : string) : CLIError :=
  mkCLIError CodePanic ("internal error: " +:+ recovered) "" ∅
    (Some (Errorf "panic: %v" [AStr recovered])).

(** [recoverableBuildError]: the text of the error it wraps, and [Is] of the
    sentinel. *)
Definition Recoverable (e : err) : err :=
  match e with Some e' => Some (Wrapping (error_text e') [ErrBuildFailedRecoverable; e']) | None => None end.

(** [errors.As] with a [*CLIError] target: the first one in the chain, depth
    first. *)
Fixpoint findCLI (e : goerr) : option CLIError :=
  let firstOf := fix go (l : list goerr) : option CLIError :=
    match l with
    | [] => None
    | e' :: rest => match findCLI e' with Some c => Some c | None => go rest end
    end in
  let firstArg := fix go (l : list fmtarg) : option CLIError :=
    match l with
    | [] => None
    | AErr e' :: rest => match findCLI e' with Some c => Some c | None => go rest end
    | _ :: rest => go rest
    end in
  match e with
  | CLIErr code message hint context wrapped =>
      Some (mkCLIError code message hint context wrapped)
  | Errorf _ args => firstArg args
  | Joined errs | Wrapping _ errs => firstOf errs
  | Sentinel _ _ => None
  end.

(** ** Classification *)

Definition plain (code message hint : string) (e : goerr) : CLIError :=
  mkCLIError code message hint ∅ (Some e).

(** The table of [classifySecretError]. *)
Definition secretStates : list (string * string * string) :=
  [("secrets.ErrUnlockRequired", CodeUnlockRequired,
    "Supply DEVSY_SECRETS_PASSPHRASE, DEVSY_SECRETS_PASSPHRASE_FILE, a remembered credential, or run interactively.");
   ("secrets.ErrUnlockFailed", CodeUnlockFailed, "Verify the passphrase and encrypted store, then retry.");
   ("secrets.ErrBackendUnavailable", CodeSecretBackendUnavailable,
    "Restore access to the secret backend and retry.");
   ("secrets.ErrStoreCorrupt", CodeSecretStoreCorrupt, "Restore a valid encrypted store backup.");
   ("secrets.ErrSecretNotFound", CodeSecretNotFound, "Create or repair the required secret and retry.")].
Fixpoint secretError (states : list (string * string * string)) (e : goerr) : option CLIError :=
  match states with
  | [] => None
  | (target, code, hint) :: rest =>
      if errorsIs e target then Some (plain code (error_text e) hint e) else secretError rest e
  end.
Definition classifySecretError (e : goerr) : option CLIError := secretError secretStates e.

Definition classifyBuildFailure (e : goerr) : option CLIError :=
  if errorsIs e "clierr.ErrBuildFailedRecoverable"
  then Some (plain CodeBuildFailedRecoverable (error_text e) "" e) else None.

Definition classifyRateLimit (e : goerr) : option CLIError :=
  if errorsIs e "clierr.ErrRateLimited"
  then Some (plain CodeRateLimited
    "Rate limited by an upstream API. Wait and retry, or authenticate for a higher limit." "" e)
  else None.

Definition classifyContextError (e : goerr) : option CLIError :=
  if errorsIs e "context.Canceled"
  then Some (plain CodeCanceled "Operation canceled." "Retry the operation when ready." e)
  else if errorsIs e "context.DeadlineExceeded"
  then Some (plain CodeDeadlineExceeded "Operation timed out."
               "Retry the operation or increase its timeout." e)
  else None.

Definition classifyDockerDaemonError (e : goerr) : option CLIError :=
  let message := ToLower (error_text e) in
  if negb (Contains message "cannot connect to the docker daemon") &&
     negb (Contains message "is the docker daemon running") then None
  else Some (plain CodeDockerDaemonUnreachable dockerDaemonUnavailableMessage
               "Start the Docker daemon for the selected context and retry." e).

Definition classifiers : list (goerr -> option CLIError) :=
  [classifySecretError; classifyBuildFailure; classifyRateLimit; classifyContextError;
   classifyDockerDaemonError].

Fixpoint firstClassified (cs : list (goerr -> option CLIError)) (e : goerr) : CLIError :=
  match cs with
  | [] => plain CodeUnknown (error_text e) "" e
  | c :: rest => match c e with Some classified => classified | None => firstClassified rest e end
  end.
(** [Classify] of an error that is not nil. *)
Definition Classify (e : goerr) : CLIError :=
  match findCLI e with Some c => c | None => firstClassified classifiers e end.

Definition WithContext (e : err) (values : gmap string string) : err :=
  match e with
  | None => None
  | Some e' =>
      if bool_decide (values = ∅) then Some e'
      else
        let classified := Classify e' in
        Some (asError (mkCLIError (eCode classified) (eMessage classified) (eHint classified)
                         (eContext classified ∪ values) (Some e')))
  end.

(** ** Properties *)

(** An error chain without a classified error in it. *)
Definition unclassified (e : goerr) : Prop := findCLI e = None.

(** The code of an unclassified error is decided by the first that applies
    of: a secret sentinel (in the order of the table), a recoverable build
    failure, a rate limit, cancellation, a deadline, the Docker daemon's
    message; and only an error none of these applies to is unknown, with its own
    message.  The original error stays in the chain. *)
Theorem Classify_precedence e :
  unclassified e ->
  eWrapped (Classify e) = Some e /\ eContext (Classify e) = ∅ /\
  eCode (Classify e) =
    (if errorsIs e "secrets.ErrUnlockRequired" then CodeUnlockRequired
     else if errorsIs e "secrets.ErrUnlockFailed" then CodeUnlockFailed
     else if errorsIs e "secrets.ErrBackendUnavailable" then CodeSecretBackendUnavailable
     else if errorsIs e "secrets.ErrStoreCorrupt" then CodeSecretStoreCorrupt
     else if errorsIs e "secrets.ErrSecretNotFound" then CodeSecretNotFound
     else if errorsIs e "clierr.ErrBuildFailedRecoverable" then CodeBuildFailedRecoverable
     else if errorsIs e "clierr.ErrRateLimited" then CodeRateLimited
     else if errorsIs e "context.Canceled" then CodeCanceled
     else if errorsIs e "context.DeadlineExceeded" then CodeDeadlineExceeded
     else if Contains (ToLower (error_text e)) "cannot connect to the docker daemon" ||
             Contains (ToLower (error_text e)) "is the docker daemon running"
     then CodeDockerDaemonUnreachable else CodeUnknown).
Proof.
  unfold unclassified, Classify. intros ->. unfold firstClassified, classifiers, classifySecretError,
    secretError, secretStates, classifyBuildFailure, classifyRateLimit, classifyContextError.
  repeat match goal with |- context [errorsIs e ?t] => destruct (errorsIs e t); [done|] end.
  unfold classifyDockerDaemonError. cbv zeta. rewrite <- negb_orb.
  by destruct (Contains _ _ || Contains _ _).
Qed.
Lemma Classify_precedence_witness :
  unclassified (Joined [ErrRateLimited; Errorf "x: %w" [AErr contextCanceled]]) /\
  eCode (Classify (Joined [ErrRateLimited; Errorf "x: %w" [AErr contextCanceled]])) = CodeRateLimited.
Proof.
  split; [reflexivity|].
  exact (proj2 (proj2 (Classify_precedence (Joined [ErrRateLimited; Errorf "x: %w" [AErr contextCanceled]]) eq_refl))).
Defined.

(** Adding context classifies the error without losing anything: code,
    message and hint are those of the original, keys it already carried keep
    their values and the new ones are added, every sentinel of the chain is
    still found, and classifying again returns the same. *)
Theorem WithContext_keeps e values e' :
  WithContext (Some e) values = Some e' -> values <> ∅ ->
  let c := Classify e in
  eCode (Classify e') = eCode c /\ eMessage (Classify e') = eMessage c /\ eHint (Classify e') = eHint c /\
  (forall k, eContext (Classify e') !! k =
     match eContext c !! k with Some v => Some v | None => values !! k end) /\
  (forall target, errorsIs e' target = errorsIs e target) /\
  error_text e' = eMessage c.
Proof.
  unfold WithContext. intros He Hne. rewrite bool_decide_false in He by done. simplify_eq.
  split_and!; try done. intros k. cbn. rewrite lookup_union. by destruct (eContext (Classify e) !! k), (values !! k).
Qed.
Lemma WithContext_keeps_witness :
  exists e', WithContext (Some ErrRateLimited) {[ "runId" := "r" ]} = Some e' /\
    eCode (Classify e') = CodeRateLimited.
Proof.
  eexists. split; [reflexivity|].
  refine (proj1 (WithContext_keeps ErrRateLimited {[ "runId" := "r" ]} _ eq_refl _)).
  intros H. apply (f_equal (lookup "runId")) in H. discriminate.
Defined.
