(* ===== verification/TaskState.v ===== *)
(** The state of a background task (src/pkg/task/task.go, launch.go, runlogs.go):
    its record, the questions asked of it, and every function the package passes
    to the locked update of a task file. *)
From S2P Require Import Prelude GoStd GoText Clierr.

(** ** Process references (src/pkg/command/process.go) *)

Definition ProcessTreeLegacyPID := "legacy-pid".
Definition ProcessTreeUnixGroup := "unix-group-v1".
Definition ProcessTreeWindowsJob := "windows-job-v1".

Record ProcessRef := mkProcessRef {
  rPID : Z;
  rTreeKind : string;
  rTreeID : string;
  rIdentity : string;
}.
#[export] Instance ProcessRef_eq_dec : EqDecision ProcessRef.
Proof. solve_decision. Defined.

(** ** Progress events (src/pkg/status/status.go) *)

Definition StateStarted := "started".
Definition StateSucceeded := "succeeded".
Definition StateFailed := "failed".
Definition StateSkipped := "skipped".
Definition PhaseConfiguringSSH := "configuring_ssh".
Definition PhaseStartingSSHTunnel := "starting_ssh_tunnel".

Record ErrorInfo := mkErrorInfo {
  iCode : string;
  iMessage : string;
  iHint : string;
  iContext : gmap string string;
}.
(** The duration is in nanoseconds. *)
Record Event := mkEvent {
  evPipeline : string;
  evOperationID : string;
  evParentOperationID : string;
  evPhase : string;
  evStep : string;
  evState : string;
  evDuration : Z;
  evError : option ErrorInfo;
}.

(** ** The state *)

Definition ErrCanceled : goerr := Sentinel "task.ErrCanceled" "canceled".
Definition ErrAbandoned : goerr :=
  Sentinel "task.ErrAbandoned" "worker exited without recording a result".

Definition StatusPending := "pending".
Definition StatusRunning := "running".
Definition StatusSucceeded := "succeeded".
Definition StatusFailed := "failed".

Definition Terminal (s : string) : bool :=
  bool_decide (s = StatusSucceeded) || bool_decide (s = StatusFailed).

Definition WorkerProcessName (id : string) : string := "devsy-up-" +:+ id.

(** The result of the work is kept as the JSON text of it, which the package
    stores and returns unread; a nil map is the empty one, which JSON omits. *)
Record State := mkState {
  sID : string;
  sCommand : string;
  sWorkspaceID : string;
  sRunID : string;
  sStatus : string;
  sPhase : string;
  sStep : string;
  sOperationID : string;
  sParentOperationID : string;
  sDurationMs : Z;
  sError : string;
  sErrorCode : string;
  sErrorHint : string;
  sErrorContext : gmap string string;
  sResult : option string;
  sPID : Z;
  sProcessTreeIdentity : string;
  sProcess : option ProcessRef;
  sProcessCleanupComplete : bool;
  sCancelRequested : bool;
  sLaunchPending : bool;
  sLaunchProtocol : Z;
  sWorkerReady : bool;
  sLaunchTreeID : string;
  sLaunchOwned : bool;
  sStartedAt : Z;
  sUpdatedAt : Z;
}.
#[export] Instance State_eq_dec : EqDecision State.
Proof. solve_decision. Defined.

(** *** Assignments to fields *)

Definition setWorkspace (v : string) (s : State) : State :=
  mkState (sID s) (sCommand s) v (sRunID s) (sStatus s) (sPhase s) (sStep s) (sOperationID s)
    (sParentOperationID s) (sDurationMs s) (sError s) (sErrorCode s) (sErrorHint s)
    (sErrorContext s) (sResult s) (sPID s) (sProcessTreeIdentity s) (sProcess s)
    (sProcessCleanupComplete s) (sCancelRequested s) (sLaunchPending s) (sLaunchProtocol s)
    (sWorkerReady s) (sLaunchTreeID s) (sLaunchOwned s) (sStartedAt s) (sUpdatedAt s).
Definition setStatus (v : string) (s : State) : State :=
  mkState (sID s) (sCommand s) (sWorkspaceID s) (sRunID s) v (sPhase s) (sStep s)
    (sOperationID s) (sParentOperationID s) (sDurationMs s) (sError s) (sErrorCode s)
    (sErrorHint s) (sErrorContext s) (sResult s) (sPID s) (sProcessTreeIdentity s) (sProcess s)
    (sProcessCleanupComplete s) (sCancelRequested s) (sLaunchPending s) (sLaunchProtocol s)
    (sWorkerReady s) (sLaunchTreeID s) (sLaunchOwned s) (sStartedAt s) (sUpdatedAt s).
Definition setProgress (phase step op parent : string) (s : State) : State :=
  mkState (sID s) (sCommand s) (sWorkspaceID s) (sRunID s) (sStatus s) phase step op parent
    (sDurationMs s) (sError s) (sErrorCode s) (sErrorHint s) (sErrorContext s) (sResult s)
    (sPID s) (sProcessTreeIdentity s) (sProcess s) (sProcessCleanupComplete s)
    (sCancelRequested s) (sLaunchPending s) (sLaunchProtocol s) (sWorkerReady s)
    (sLaunchTreeID s) (sLaunchOwned s) (sStartedAt s) (sUpdatedAt s).
Definition setDuration (v : Z) (s : State) : State :=
  mkState (sID s) (sCommand s) (sWorkspaceID s) (sRunID s) (sStatus s) (sPhase s) (sStep s)
    (sOperationID s) (sParentOperationID s) v (sError s) (sErrorCode s) (sErrorHint s)
    (sErrorContext s) (sResult s) (sPID s) (sProcessTreeIdentity s) (sProcess s)
    (sProcessCleanupComplete s) (sCancelRequested s) (sLaunchPending s) (sLaunchProtocol s)
    (sWorkerReady s) (sLaunchTreeID s) (sLaunchOwned s) (sStartedAt s) (sUpdatedAt s).
Definition setFailure (message code hint : string) (context : gmap string string) (s : State) : State :=
  mkState (sID s) (sCommand s) (sWorkspaceID s) (sRunID s) (sStatus s) (sPhase s) (sStep s)
    (sOperationID s) (sParentOperationID s) (sDurationMs s) message code hint context
    (sResult s) (sPID s) (sProcessTreeIdentity s) (sProcess s) (sProcessCleanupComplete s)
    (sCancelRequested s) (sLaunchPending s) (sLaunchProtocol s) (sWorkerReady s)
    (sLaunchTreeID s) (sLaunchOwned s) (sStartedAt s) (sUpdatedAt s).
Definition setResult (v : option string) (s : State) : State :=
  mkState (sID s) (sCommand s) (sWorkspaceID s) (sRunID s) (sStatus s) (sPhase s) (sStep s)
    (sOperationID s) (sParentOperationID s) (sDurationMs s) (sError s) (sErrorCode s)
    (sErrorHint s) (sErrorContext s) v (sPID s) (sProcessTreeIdentity s) (sProcess s)
    (sProcessCleanupComplete s) (sCancelRequested s) (sLaunchPending s) (sLaunchProtocol s)
    (sWorkerReady s) (sLaunchTreeID s) (sLaunchOwned s) (sStartedAt s) (sUpdatedAt s).
Definition setProcessRef (ref : ProcessRef) (s : State) : State :=
  mkState (sID s) (sCommand s) (sWorkspaceID s) (sRunID s) (sStatus s) (sPhase s) (sStep s)
    (sOperationID s) (sParentOperationID s) (sDurationMs s) (sError s) (sErrorCode s)
    (sErrorHint s) (sErrorContext s) (sResult s) (rPID ref) (rIdentity ref) (Some ref)
    (sProcessCleanupComplete s) (sCancelRequested s) (sLaunchPending s) (sLaunchProtocol s)
    (sWorkerReady s) (sLaunchTreeID s) (sLaunchOwned s) (sStartedAt s) (sUpdatedAt s).
Definition setCleanupComplete (v : bool) (s : State) : State :=
  mkState (sID s) (sCommand s) (sWorkspaceID s) (sRunID s) (sStatus s) (sPhase s) (sStep s)
    (sOperationID s) (sParentOperationID s) (sDurationMs s) (sError s) (sErrorCode s)
    (sErrorHint s) (sErrorContext s) (sResult s) (sPID s) (sProcessTreeIdentity s) (sProcess s)
    v (sCancelRequested s) (sLaunchPending s) (sLaunchProtocol s) (sWorkerReady s)
    (sLaunchTreeID s) (sLaunchOwned s) (sStartedAt s) (sUpdatedAt s).
Definition setCancelRequested (v : bool) (s : State) : State :=
  mkState (sID s) (sCommand s) (sWorkspaceID s) (sRunID s) (sStatus s) (sPhase s) (sStep s)
    (sOperationID s) (sParentOperationID s) (sDurationMs s) (sError s) (sErrorCode s)
    (sErrorHint s) (sErrorContext s) (sResult s) (sPID s) (sProcessTreeIdentity s) (sProcess s)
    (sProcessCleanupComplete s) v (sLaunchPending s) (sLaunchProtocol s) (sWorkerReady s)
    (sLaunchTreeID s) (sLaunchOwned s) (sStartedAt s) (sUpdatedAt s).
Definition setLaunchPending (v : bool) (s : State) : State :=
  mkState (sID s) (sCommand s) (sWorkspaceID s) (sRunID s) (sStatus s) (sPhase s) (sStep s)
    (sOperationID s) (sParentOperationID s) (sDurationMs s) (sError s) (sErrorCode s)
    (sErrorHint s) (sErrorContext s) (sResult s) (sPID s) (sProcessTreeIdentity s) (sProcess s)
    (sProcessCleanupComplete s) (sCancelRequested s) v (sLaunchProtocol s) (sWorkerReady s)
    (sLaunchTreeID s) (sLaunchOwned s) (sStartedAt s) (sUpdatedAt s).
Definition setLaunchProtocol (v : Z) (s : State) : State :=
  mkState (sID s) (sCommand s) (sWorkspaceID s) (sRunID s) (sStatus s) (sPhase s) (sStep s)
    (sOperationID s) (sParentOperationID s) (sDurationMs s) (sError s) (sErrorCode s)
    (sErrorHint s) (sErrorContext s) (sResult s) (sPID s) (sProcessTreeIdentity s) (sProcess s)
    (sProcessCleanupComplete s) (sCancelRequested s) (sLaunchPending s) v (sWorkerReady s)
    (sLaunchTreeID s) (sLaunchOwned s) (sStartedAt s) (sUpdatedAt s).
Definition setWorkerReady (v : bool) (s : State) : State :=
  mkState (sID s) (sCommand s) (sWorkspaceID s) (sRunID s) (sStatus s) (sPhase s) (sStep s)
    (sOperationID s) (sParentOperationID s) (sDurationMs s) (sError s) (sErrorCode s)
    (sErrorHint s) (sErrorContext s) (sResult s) (sPID s) (sProcessTreeIdentity s) (sProcess s)
    (sProcessCleanupComplete s) (sCancelRequested s) (sLaunchPending s) (sLaunchProtocol s) v
    (sLaunchTreeID s) (sLaunchOwned s) (sStartedAt s) (sUpdatedAt s).
Definition setLaunchOwned (tree : string) (s : State) : State :=
  mkState (sID s) (sCommand s) (sWorkspaceID s) (sRunID s) (sStatus s) (sPhase s) (sStep s)
    (sOperationID s) (sParentOperationID s) (sDurationMs s) (sError s) (sErrorCode s)
    (sErrorHint s) (sErrorContext s) (sResult s) (sPID s) (sProcessTreeIdentity s) (sProcess s)
    (sProcessCleanupComplete s) (sCancelRequested s) (sLaunchPending s) (sLaunchProtocol s)
    (sWorkerReady s) tree true (sStartedAt s) (sUpdatedAt s).
Definition touch (now : Z) (s : State) : State :=
  mkState (sID s) (sCommand s) (sWorkspaceID s) (sRunID s) (sStatus s) (sPhase s) (sStep s)
    (sOperationID s) (sParentOperationID s) (sDurationMs s) (sError s) (sErrorCode s)
    (sErrorHint s) (sErrorContext s) (sResult s) (sPID s) (sProcessTreeIdentity s) (sProcess s)
    (sProcessCleanupComplete s) (sCancelRequested s) (sLaunchPending s) (sLaunchProtocol s)
    (sWorkerReady s) (sLaunchTreeID s) (sLaunchOwned s) (sStartedAt s) now.

(** ** Questions *)

Definition Canceled (s : State) : bool :=
  bool_decide (sStatus s = StatusFailed) && bool_decide (sErrorCode s = CodeCanceled).

Definition ProcessReference (s : State) : option ProcessRef :=
  match sProcess s with
  | Some p =>
      if 0 <? rPID p then Some p
      else if sPID s <=? 0 then None
      else Some (mkProcessRef (sPID s) ProcessTreeLegacyPID (WorkerProcessName (sID s))
                   (sProcessTreeIdentity s))
  | None =>
      if sPID s <=? 0 then None
      else Some (mkProcessRef (sPID s) ProcessTreeLegacyPID (WorkerProcessName (sID s))
                   (sProcessTreeIdentity s))
  end.
Definition hasProcessReference (s : State) : bool := bool_decide (is_Some (ProcessReference s)).

Definition NeedsExitedWorkerCleanup (s : State) : bool :=
  if negb (bool_decide (sStatus s = StatusFailed)) ||
     negb (bool_decide (sError s = error_text ErrAbandoned)) || sProcessCleanupComplete s
  then false else hasProcessReference s.
Definition NeedsCanceledWorkerCleanup (s : State) : bool :=
  if negb (Canceled s) || sProcessCleanupComplete s then false else hasProcessReference s.
Definition NeedsReconciliation (s : State) : bool :=
  negb (Terminal (sStatus s)) && negb (sLaunchPending s).

Definition hasPendingLaunch (s : State) : bool := sLaunchPending s.
Definition acceptsLaunch (s : State) : bool :=
  (sLaunchProtocol s =? 1) && sLaunchPending s && negb (Terminal (sStatus s)) &&
  negb (sCancelRequested s).

Definition checkDeletion (force : bool) (s : State) : err :=
  if sLaunchPending s || NeedsExitedWorkerCleanup s || NeedsCanceledWorkerCleanup s
  then Some (Errorf "task %s still needs process tree cleanup" [AStr (sID s)])
  else if negb force && negb (Terminal (sStatus s))
  then Some (Errorf "task %s is still %s; cancel it first or delete with force"
               [AStr (sID s); AStr (sStatus s)])
  else None.

(** ** Functions passed to the locked update

    [Some s'] is a state to store, [None] leaves the file; the second component
    is what the function leaves in variables of its caller. *)
Definition Mutation (R : Type) : Type := State -> option State * R.
(** [update]: always stores. *)
Definition always (f : State -> State) : Mutation unit := fun s => (Some (f s), tt).

Section Mutations.
(** Masking of credentials in texts ([secrets.NewEnvironmentRedactor]). *)
Context (redact : string -> string).

Definition redactContext (values : gmap string string) : gmap string string :=
  list_to_map (prod_map redact redact <$> map_to_list values).
(** Keys of the failure win over the run's. *)
Definition withRunContext (base run : gmap string string) : gmap string string := base ∪ run.

(** The result tells whether the task was canceled or already launched. *)
Definition beginLaunchFn : Mutation bool := fun s =>
  if Terminal (sStatus s) || sCancelRequested s || negb (sLaunchProtocol s =? 0) || negb (sPID s =? 0)
  then (Some s, true)
  else (Some (setWorkerReady false (setLaunchProtocol 1 (setLaunchPending true s))), false).
Definition finishLaunchFn : Mutation unit := always (setLaunchPending false).
Definition setProcessFn (ref : ProcessRef) : Mutation unit :=
  always (fun s => setLaunchPending false (setProcessRef ref s)).
Definition setWorkspaceIDFn (id : string) : Mutation unit := always (setWorkspace id).

Definition succeedFn (result : option string) : Mutation unit := always (fun s =>
  if Terminal (sStatus s) || sCancelRequested s then s
  else setFailure "" "" "" ∅ (setResult result (setStatus StatusSucceeded s))).

Definition markCanceled (s : State) : State :=
  setFailure (error_text ErrCanceled) CodeCanceled "Retry the operation when ready." ∅
    (setStatus StatusFailed s).
Definition markLaunchCleanupPending (s : State) : State :=
  if (sLaunchProtocol s =? 1) && negb (sProcessCleanupComplete s) then setLaunchPending true s else s.

(** The classified form of the error a worker failed with, [None] for nil. *)
Definition classifyFailure (e : err) : option CLIError :=
  match e with
  | None => None
  | Some e' =>
      Some (if errorsIs e' "task.ErrCanceled"
            then mkCLIError CodeCanceled (error_text ErrCanceled) "Retry the operation when ready." ∅ None
            else Classify e')
  end.
Definition failureFn (classified : option CLIError) (failedLaunch : bool)
    (runContext : gmap string string) : Mutation unit := always (fun s0 =>
  let s := if failedLaunch then markLaunchCleanupPending s0 else s0 in
  if Terminal (sStatus s) || sCancelRequested s then s
  else
    let s1 := setStatus StatusFailed s in
    let s2 :=
      match classified with
      | Some c => setFailure (redact (eMessage c)) (redact (eCode c)) (redact (eHint c))
                    (redactContext (eContext c)) s1
      | None => setFailure "" (sErrorCode s1) (sErrorHint s1) (sErrorContext s1) s1
      end in
    setFailure (sError s2) (sErrorCode s2) (sErrorHint s2)
      (withRunContext (sErrorContext s2) runContext) s2).

(** The result is the snapshot the caller goes on with. *)
Definition requestCancelFn : Mutation State := fun s =>
  let s' := if Terminal (sStatus s) then s else setCancelRequested true s in (Some s', s').
Definition finalizeCanceledFn : Mutation unit := always (fun s =>
  if negb (Terminal (sStatus s)) && sCancelRequested s
  then setCleanupComplete true (setLaunchPending false (markCanceled s)) else s).

Definition recoverableFailure (phase : string) : bool :=
  bool_decide (phase = PhaseStartingSSHTunnel) || bool_decide (phase = PhaseConfiguringSSH).
Definition reportFn (e : Event) : Mutation unit := always (fun s =>
  if Terminal (sStatus s) || sCancelRequested s then s
  else
    let s1 := setProgress (redact (evPhase e)) (redact (evStep e)) (redact (evOperationID e))
                (redact (evParentOperationID e)) s in
    if bool_decide (evState e = StateFailed) then
      let s2 := setDuration (Z.quot (evDuration e) 1000000) (setStatus StatusFailed s1) in
      let s3 :=
        match evError e with
        | Some i => setFailure (redact (iMessage i)) (redact (iCode i)) (redact (iHint i))
                      (redactContext (iContext i)) s2
        | None => s2
        end in
      if recoverableFailure (evPhase e) then setStatus StatusRunning s3 else s3
    else if bool_decide (sStatus s1 = StatusPending) then setStatus StatusRunning s1 else s1).

(** Launching; the results tell whether the step was accepted. *)
Definition prepareOwnershipFn (treeID : string) : Mutation bool := fun s =>
  if negb (acceptsLaunch s) || sLaunchOwned s then (Some s, false)
  else (Some (setLaunchOwned treeID s), true).
Definition publishProcessFn (ref : ProcessRef) : Mutation bool := fun s =>
  if negb (acceptsLaunch s) || bool_decide (is_Some (sProcess s)) then (Some s, false)
  else (Some (setProcessRef ref s), true).
Definition workerReadyFn (pid : Z) (identity : string) : Mutation bool := fun s =>
  if negb (acceptsLaunch s) || negb (sPID s =? pid) || bool_decide (identity = "") ||
     negb (bool_decide (sProcessTreeIdentity s = identity))
  then (Some s, false) else (Some (setWorkerReady true s), true).
(** [(committed, rejected)]; only a commit is stored. *)
Definition commitLaunchFn : Mutation (bool * bool) := fun s =>
  if negb (acceptsLaunch s) || bool_decide (sProcess s = None) then (None, (false, true))
  else if negb (sWorkerReady s) then (None, (false, false))
  else (Some (setLaunchPending false s), (true, false)).

Definition finishAbandonedFn (aborting : bool) : Mutation unit := always (fun s =>
  if negb (sLaunchPending s) && negb aborting then s
  else
    let s1 := setCleanupComplete true (setLaunchPending false s) in
    if Terminal (sStatus s1) then s1
    else if sCancelRequested s1 then markCanceled s1
    else
      let failure := Classify ErrAbandoned in
      setFailure (eMessage failure) (eCode failure) (eHint failure) (sErrorContext s1)
        (setStatus StatusFailed s1)).

Definition cleanupCompleteFn : Mutation unit := always (setCleanupComplete true).
End Mutations.

(** The state [create] stores. *)
Record CreateOptions := mkCreateOptions { oCommand : string; oWorkspaceID : string; oRunID : string }.
Definition initialState (id : string) (opts : CreateOptions) (launch : bool) (now : Z) : State :=
  let s := mkState id (oCommand opts) (oWorkspaceID opts) (oRunID opts) StatusPending "" "" "" "" 0
             "" "" "" ∅ None 0 "" None false false false 0 false "" false now now in
  if launch then setLaunchProtocol 1 (setLaunchPending true s) else s.

(** What JSON keeps of a state: its texts. *)
Definition cleanProcess (p : ProcessRef) : ProcessRef :=
  mkProcessRef (rPID p) (coerceUTF8 (rTreeKind p)) (coerceUTF8 (rTreeID p)) (coerceUTF8 (rIdentity p)).
Definition cleanContext (m : gmap string string) : gmap string string :=
  list_to_map (prod_map coerceUTF8 coerceUTF8 <$> map_to_list m).
Definition cleanState (s : State) : State :=
  mkState (coerceUTF8 (sID s)) (coerceUTF8 (sCommand s)) (coerceUTF8 (sWorkspaceID s))
    (coerceUTF8 (sRunID s)) (coerceUTF8 (sStatus s)) (coerceUTF8 (sPhase s))
    (coerceUTF8 (sStep s)) (coerceUTF8 (sOperationID s)) (coerceUTF8 (sParentOperationID s))
    (sDurationMs s) (coerceUTF8 (sError s)) (coerceUTF8 (sErrorCode s))
    (coerceUTF8 (sErrorHint s)) (cleanContext (sErrorContext s)) (sResult s) (sPID s)
    (coerceUTF8 (sProcessTreeIdentity s)) (cleanProcess <$> sProcess s)
    (sProcessCleanupComplete s) (sCancelRequested s) (sLaunchPending s) (sLaunchProtocol s)
    (sWorkerReady s) (coerceUTF8 (sLaunchTreeID s)) (sLaunchOwned s) (sStartedAt s)
    (sUpdatedAt s).
