(* ===== verification/TaskProg.v ===== *)
(** Programs over the task store (src/pkg/task/store.go): the atomic steps the
    package's code is made of, what each does to the shared files, locks and
    processes, and programs as trees of such steps, so that steps of several
    processes can be interleaved. *)
From S2P Require Import Prelude GoStd GoText Clierr TaskState.

(** ** The shared world *)

(** A task file holds a state or text that is not one. *)
Inductive taskFile := Stored (s : State) | Damaged.

Definition lockTimeoutText := "timed out".
Definition osErrNotExist : goerr := Sentinel "os.ErrNotExist" "file does not exist".
Definition ioError : goerr := Sentinel "os.EIO" "input/output error".
Definition parseError : goerr := Sentinel "json.SyntaxError" "invalid character".

(** The operating system's processes, as src/pkg/command offers them: the two
    operations of a [ProcessController], whether a referenced process is known
    to have exited, the identity of a running one, and the lease a launcher
    shares with the worker it starts until that worker exits. *)
Class Processes (OS : Type) := {
  terminate : ProcessRef -> OS -> OS * err;
  cleanupAfterExit : ProcessRef -> OS -> OS * err;
  processExited : ProcessRef -> OS -> goerr + bool;
  treeIdentity : Z -> OS -> goerr + string;
  newLaunchLease : string -> OS -> OS * err;
  closeLaunchLease : string -> OS -> OS * err;
  cleanupUnpublishedLaunch : string -> string -> bool -> OS -> OS * err;
}.

(** [tHeld] maps a locked file to the process holding it; [tLockFiles] are the
    lock files that exist.  [tFaults] decides for each following step whether
    it fails (or its context has ended); none fails when it runs out. *)
Record TW (OS : Type) := mkTW {
  tFiles : gmap string taskFile;
  tHeld : gmap string nat;
  tLockFiles : gset string;
  tFaults : list bool;
  tClock : Z;
  tTicks : list Z;
  tIDs : nat;
  tOS : OS;
}.
Arguments mkTW {OS} _ _ _ _ _ _ _ _.
Arguments tFiles {OS} _.
Arguments tHeld {OS} _.
Arguments tLockFiles {OS} _.
Arguments tFaults {OS} _.
Arguments tClock {OS} _.
Arguments tTicks {OS} _.
Arguments tIDs {OS} _.
Arguments tOS {OS} _.

(** [random.String] and [runFailureContext] of another package's store. *)
Class TaskEnv := {
  randomID : nat -> string;
  failureContext : string -> gmap string string;
}.

(** ** Steps *)

(** [path] accepts an id that is one clean path component ([filepath.Base]
    leaves it alone). *)
Fixpoint hasSlash (s : string) : bool :=
  match s with EmptyString => false | String c s' => bool_decide (c = "/"%char) || hasSlash s' end.
Definition validTaskID (id : string) : bool :=
  negb (one_of id [""; "."; ".."] || (hasSlash id && negb (bool_decide (id = "/")))).
Definition invalidID (id : string) : goerr := Errorf "invalid task id %q" [AStr id].

Definition workerLockPath (id : string) : string := id +:+ ".json.worker.lock".
Definition reconcileLockPath (id : string) : string := workerLockPath id +:+ ".reconcile".
Definition launcherLockPath (id : string) : string := id +:+ ".json.launcher.lock".
Definition launchLeasePath (id : string) : string := id +:+ ".json.launch.lease".

(** The answer type of a step is its index.  [Update] is [updateIf], [Get] the
    locked and [Peek] the unlocked read, [Create] the locked write of a new
    state, [DeleteIf] the locked check and removal of [Delete]. *)
Inductive Step : Type -> Type :=
| CtxErr : Step err
| Wait : Step err
| Update {R} (id : string) (f : Mutation R) : Step (goerr + R)
| Get (id : string) : Step (goerr + State)
| Peek (id : string) : Step (goerr + State)
| Create (id : string) (mk : Z -> State) : Step err
| DeleteIf (id : string) (check : State -> err) : Step err
| ListIDs : Step (goerr + list string)
| TryLock (path : string) : Step (goerr + bool)
| Unlock (path : string) : Step err
| StatLock (path : string) : Step (goerr + bool)
| Terminate (ref : ProcessRef) : Step err
| CleanupAfterExit (ref : ProcessRef) : Step err
| ProcessExited (ref : ProcessRef) : Step (goerr + bool)
| TreeIdentity (pid : Z) : Step (goerr + string)
| NewLease (path : string) : Step err
| CloseLease (path : string) : Step err
| CleanupUnpublished (path treeID : string) (owned : bool) : Step err
| RandomID : Step string
| FailureContext (runID : string) : Step (gmap string string).

Section Exec.
Context {OS : Type} `{Processes OS} `{TaskEnv}.
Implicit Types (w : TW OS) (id : string).

Definition setFiles (fs : gmap string taskFile) w : TW OS :=
  mkTW fs (tHeld w) (tLockFiles w) (tFaults w) (tClock w) (tTicks w) (tIDs w) (tOS w).
Definition setHeld (held : gmap string nat) (files : gset string) w : TW OS :=
  mkTW (tFiles w) held files (tFaults w) (tClock w) (tTicks w) (tIDs w) (tOS w).
Definition setOS (os : OS) w : TW OS :=
  mkTW (tFiles w) (tHeld w) (tLockFiles w) (tFaults w) (tClock w) (tTicks w) (tIDs w) os.

(** The next fault decision. *)
Definition fault w : TW OS * bool :=
  (mkTW (tFiles w) (tHeld w) (tLockFiles w) (List.tl (tFaults w)) (tClock w) (tTicks w) (tIDs w) (tOS w),
   default false (head (tFaults w))).
(** [time.Now] *)
Definition timeNow w : TW OS * Z :=
  let t := tClock w + default 0 (head (tTicks w)) in
  (mkTW (tFiles w) (tHeld w) (tLockFiles w) (tFaults w) t (List.tl (tTicks w)) (tIDs w) (tOS w), t).

Definition readState w id : goerr + State :=
  if negb (validTaskID id) then inl (invalidID id)
  else match tFiles w !! id with
       | None => inl (Errorf "read task %s: %w" [AStr id; AErr osErrNotExist])
       | Some Damaged => inl (Errorf "parse task %s: %w" [AStr id; AErr parseError])
       | Some (Stored s) => inr s
       end.

(** [write] replaces the file by rename: it holds the old or the new state,
    never a part of one.  What is read back is what JSON keeps. *)
Definition storeState (s : State) w : TW OS := setFiles (<[sID s := Stored (cleanState s)]> (tFiles w)) w.

(** [updateIf]: read, mutate, stamp the time, write.  A failure (the lock, the
    write) leaves the file as it was. *)
Definition execUpdate {R} id (f : Mutation R) w0 : TW OS * (goerr + R) :=
  let '(w, failed) := fault w0 in
  if failed then (w, inl (Errorf "lock task %s: %w" [AStr id; AErr ioError]))
  else match readState w id with
       | inl e => (w, inl e)
       | inr s =>
           match f s with
           | (None, r) => (w, inr r)
           | (Some s', r) =>
               let '(w1, now) := timeNow w in
               let '(w2, failed') := fault w1 in
               if failed' then (w2, inl (Errorf "write task state: %w" [AErr ioError]))
               else if negb (validTaskID (sID s')) then (w2, inl (invalidID (sID s')))
               else (storeState (touch now s') w2, inr r)
           end
       end.

Definition execRead (prefix : string) id w0 : TW OS * (goerr + State) :=
  let '(w, failed) := fault w0 in
  (w, if failed then inl (Errorf (prefix +:+ " task %s: %w") [AStr id; AErr ioError]) else readState w id).

Definition execTryLock (me : nat) (path : string) w0 : TW OS * (goerr + bool) :=
  let '(w, failed) := fault w0 in
  if failed then (w, inl ioError)
  else match tHeld w !! path with
       | Some _ => (setHeld (tHeld w) ({[path]} ∪ tLockFiles w) w, inr false)
       | None => (setHeld (<[path := me]> (tHeld w)) ({[path]} ∪ tLockFiles w) w, inr true)
       end.

(** One step of process [me]. *)
Definition exec (me : nat) {A} (st : Step A) : TW OS -> TW OS * A :=
  match st in Step A' return TW OS -> TW OS * A' with
  | CtxErr | Wait => fun w =>
      let '(w1, ended) := fault w in (w1, if ended then Some contextDeadlineExceeded else None)
  | Update id f => execUpdate id f
  | Get id => execRead "lock" id
  | Peek id => execRead "read" id
  | Create id mk => fun w =>
      let '(w1, failed) := fault w in
      let '(w2, now) := timeNow w1 in
      if failed then (w2, Some (Errorf "lock task %s: %w" [AStr id; AErr ioError]))
      else if negb (validTaskID id) then (w2, Some (invalidID id))
      else (storeState (mk now) w2, None)
  | DeleteIf id check => fun w =>
      let '(w1, failed) := fault w in
      if failed then (w1, Some (Errorf "lock task %s: %w" [AStr id; AErr ioError]))
      else match readState w1 id with
           | inl e => (w1, Some e)
           | inr s =>
               match check s with
               | Some e => (w1, Some e)
               | None =>
                   let '(w2, failed') := fault w1 in
                   if failed' then (w2, Some (Errorf "delete task %s: %w" [AStr id; AErr ioError]))
                   else (setFiles (delete id (tFiles w2)) w2, None)
               end
           end
  | ListIDs => fun w =>
      let '(w1, failed) := fault w in
      (w1, if failed then inl (Errorf "read task dir: %w" [AErr ioError])
           else inr (sortStrings (map_to_list (tFiles w1)).*1))
  | TryLock path => execTryLock me path
  | Unlock path => fun w =>
      let '(w1, failed) := fault w in
      (setHeld (if decide (tHeld w1 !! path = Some me) then delete path (tHeld w1) else tHeld w1)
         (tLockFiles w1) w1, if failed then Some ioError else None)
  | StatLock path => fun w =>
      let '(w1, failed) := fault w in
      (w1, if failed then inl ioError else inr (bool_decide (path ∈ tLockFiles w1)))
  | Terminate ref => fun w => let '(os, e) := terminate ref (tOS w) in (setOS os w, e)
  | CleanupAfterExit ref => fun w => let '(os, e) := cleanupAfterExit ref (tOS w) in (setOS os w, e)
  | ProcessExited ref => fun w => (w, processExited ref (tOS w))
  | TreeIdentity pid => fun w => (w, treeIdentity pid (tOS w))
  | NewLease path => fun w => let '(os, e) := newLaunchLease path (tOS w) in (setOS os w, e)
  | CloseLease path => fun w => let '(os, e) := closeLaunchLease path (tOS w) in (setOS os w, e)
  | CleanupUnpublished path treeID owned => fun w =>
      let '(os, e) := cleanupUnpublishedLaunch path treeID owned (tOS w) in (setOS os w, e)
  | RandomID => fun w =>
      (mkTW (tFiles w) (tHeld w) (tLockFiles w) (tFaults w) (tClock w) (tTicks w) (S (tIDs w)) (tOS w),
       randomID (tIDs w))
  | FailureContext runID => fun w => (w, if bool_decide (runID = "") then ∅ else failureContext runID)
  end.
End Exec.

(** ** Programs *)

Inductive Prog (A : Type) : Type :=
| Ret (a : A)
| Do {X : Type} (st : Step X) (k : X -> Prog A).
Arguments Ret {A} _.
Arguments Do {A X} _ _.

Definition step {X} (st : Step X) : Prog X := Do st Ret.
Fixpoint pbind {A B} (p : Prog A) (k : A -> Prog B) : Prog B :=
  match p with
  | Ret a => k a
  | Do st k' => Do st (fun x => pbind (k' x) k)
  end.
(** Go on with a value, return the error otherwise. *)
Definition pebind {A B} (p : Prog (goerr + A)) (k : A -> Prog (goerr + B)) : Prog (goerr + B) :=
  pbind p (fun r => match r with inl e => Ret (inl e) | inr a => k a end).
Definition fail {A} (e : goerr) : Prog (goerr + A) := Ret (inl e).
Definition done {A} (a : A) : Prog (goerr + A) := Ret (inr a).

Notation "'do*' x ':=' p 'in' k" := (pbind p (fun x => k))
  (at level 10, x pattern, p at level 100, k at level 200) : devsy_scope.
Notation "'do!' x ':=' p 'in' k" := (pebind p (fun x => k))
  (at level 10, x pattern, p at level 100, k at level 200) : devsy_scope.

(** A step that returns an error, as a result without a value. *)
Definition stepErr (st : Step err) : Prog (goerr + unit) :=
  do* e := step st in Ret (match e with Some e' => inl e' | None => inr tt end).
Definition errResult {A} (e : err) (a : A) : goerr + A := match e with Some e' => inl e' | None => inr a end.
Definition errOf {A} (r : goerr + A) : err := match r with inl e => Some e | inr _ => None end.

(** Running a program alone. *)
Fixpoint run {OS} `{Processes OS} `{TaskEnv} (me : nat) {A} (p : Prog A) (w : TW OS) : TW OS * A :=
  match p with
  | Ret a => (w, a)
  | Do st k => let '(w', x) := exec me st w in run me (k x) w'
  end.
