(* ===== verification/TaskStore.v ===== *)
(** The operations of the task store and of task handles (src/pkg/task/store.go,
    task.go, launch.go) as programs over the atomic steps of [TaskProg].  A
    context is the number of waits it admits in one loop before it ends; the
    steps [CtxErr] and [Wait] may find it ended earlier. *)
From S2P Require Import Prelude GoStd GoText Clierr TaskState TaskProg.

Section TaskStore.
Context (redact : string -> string).

(** A handle: what it holds of the task's locks. *)
Record Task := mkTask {
  tkID : string;
  tkWorkerLock : bool;
  tkLauncherLock : bool;
  tkLease : bool;
}.
(** [Open] *)
Definition Open (id : string) : Task := mkTask id false false false.

Definition update {R} (id : string) (f : Mutation R) : Prog (goerr + R) := step (Update id f).

(** [defer lock.Unlock()] around the rest of a function. *)
Definition unlocking {A} (path : string) (body : Prog A) : Prog A :=
  do* r := body in do* _ := step (Unlock path) in Ret r.

(** ** Locks of a task *)

Definition tryLock (id path : string) : Prog (goerr + bool) :=
  if validTaskID id then step (TryLock path) else fail (invalidID id).
Definition tryWorkerLock (id : string) : Prog (goerr + bool) := tryLock id (workerLockPath id).
Definition tryLauncherLock (id : string) : Prog (goerr + bool) := tryLock id (launcherLockPath id).

Definition releaseLauncherLock (t : Task) : Prog (Task * err) :=
  let id := tkID t in
  do* leaseErr := (if tkLease t then step (CloseLease (launchLeasePath id)) else Ret None) in
  let t1 := mkTask id (tkWorkerLock t) false false in
  if negb (tkLauncherLock t) then Ret (t1, leaseErr)
  else
    do* e := step (Unlock (launcherLockPath id)) in
    Ret (t1, match e with
             | Some e' => Some (Errorf "unlock task %s launcher: %w" [AStr id; AErr e'])
             | None => leaseErr
             end).

Definition claimLaunchOwnership (t : Task) : Prog (goerr + Task) :=
  let id := tkID t in
  do* lock := tryLauncherLock id in
  match lock with
  | inl e => fail (Errorf "lock task %s launcher: %w" [AStr id; AErr e])
  | inr false => fail (Errorf "task %s already has a launcher" [AStr id])
  | inr true =>
      do* lease := step (NewLease (launchLeasePath id)) in
      match lease with
      | Some e => do* _ := step (Unlock (launcherLockPath id)) in fail e
      | None => done (mkTask id (tkWorkerLock t) true true)
      end
  end.

Definition HoldWorkerLock (t : Task) : Prog (goerr + Task) :=
  let id := tkID t in
  do* lock := tryWorkerLock id in
  match lock with
  | inl e => fail (if validTaskID id then Errorf "lock task %s worker: %w" [AStr id; AErr e] else e)
  | inr false => fail (Errorf "task %s already has a running worker" [AStr id])
  | inr true => done (mkTask id true (tkLauncherLock t) (tkLease t))
  end.
Definition ReleaseWorkerLock (t : Task) : Prog (Task * err) :=
  let id := tkID t in
  if negb (tkWorkerLock t) then Ret (t, None)
  else
    do* e := step (Unlock (workerLockPath id)) in
    Ret (mkTask id false (tkLauncherLock t) (tkLease t),
         match e with
         | Some e' => Some (Errorf "unlock task %s worker: %w" [AStr id; AErr e'])
         | None => None
         end).
Definition LauncherAlive (t : Task) : Prog (goerr + bool) :=
  do! available := tryLauncherLock (tkID t) in
  if (available : bool)
  then do! _ := stepErr (Unlock (launcherLockPath (tkID t))) in done false
  else done true.

(** ** Creating *)

Definition create (opts : CreateOptions) (launch : bool) : Prog (goerr + Task) :=
  do* id := step RandomID in
  do! t := (if launch then claimLaunchOwnership (Open id) else done (Open id)) in
  do* e := step (Create id (initialState id opts launch)) in
  match e with
  | Some e' =>
      do* released := releaseLauncherLock t in
      fail (default e' (errorsJoin [Some e'; released.2]))
  | None => done t
  end.

Definition CreateTask (opts : CreateOptions) : Prog (goerr + Task) := create opts false.
Definition CreateLaunch (opts : CreateOptions) : Prog (goerr + Task) := create opts true.

(** ** The task's own operations *)

Definition RunID (t : Task) : Prog string :=
  do* s := step (Peek (tkID t)) in
  Ret (match s with inr s' => sRunID s' | inl _ => "" end).

Definition BeginLaunch (t : Task) : Prog (Task * err) :=
  do* claimed := claimLaunchOwnership t in
  match claimed with
  | inl e => Ret (t, Some e)
  | inr t1 =>
      do* r := update (tkID t) beginLaunchFn in
      match r with
      | inl e => do* rel := releaseLauncherLock t1 in Ret (rel.1, errorsJoin [Some e; rel.2])
      | inr true => do* rel := releaseLauncherLock t1 in Ret (rel.1, errorsJoin [Some ErrCanceled; rel.2])
      | inr false => Ret (t1, None)
      end
  end.
Definition FinishLaunch (t : Task) : Prog (Task * err) :=
  do* r := update (tkID t) finishLaunchFn in
  do* rel := releaseLauncherLock t in Ret (rel.1, errorsJoin [errOf r; rel.2]).
Definition SetProcess (t : Task) (ref : ProcessRef) : Prog (Task * err) :=
  if rPID ref <=? 0 then Ret (t, Some (Errorf "invalid worker PID %d" [AInt (rPID ref)]))
  else
    do* r := update (tkID t) (setProcessFn ref) in
    do* rel := releaseLauncherLock t in Ret (rel.1, errorsJoin [errOf r; rel.2]).
Definition SetPID (t : Task) (pid : Z) : Prog (Task * err) :=
  do* identity := step (TreeIdentity pid) in
  match identity with
  | inl e => Ret (t, Some (Errorf "identify process tree for pid %d: %w" [AInt pid; AErr e]))
  | inr i => SetProcess t (mkProcessRef pid ProcessTreeLegacyPID (WorkerProcessName (tkID t)) i)
  end.
Definition SetWorkspaceID (t : Task) (id : string) : Prog (goerr + unit) :=
  update (tkID t) (setWorkspaceIDFn id).
Definition Succeed (t : Task) (result : option string) : Prog (goerr + unit) :=
  update (tkID t) (succeedFn result).
(** [taskReporter.Report] drops the error. *)
Definition Report (t : Task) (e : Event) : Prog unit :=
  do* _ := update (tkID t) (reportFn redact e) in Ret tt.

Definition recordFailure (t : Task) (e : err) (failedLaunch : bool) : Prog (goerr + unit) :=
  do* current := step (Peek (tkID t)) in
  do* runContext := match current with
                    | inr s => step (FailureContext (sRunID s))
                    | inl _ => Ret ∅
                    end in
  update (tkID t) (failureFn redact (classifyFailure e) failedLaunch runContext).
Definition Fail (t : Task) (e : err) : Prog (goerr + unit) := recordFailure t e false.

Definition requestCancel (t : Task) : Prog (goerr + State) := update (tkID t) requestCancelFn.
Definition finalizeCanceled (id : string) : Prog (goerr + unit) := update id finalizeCanceledFn.
Definition markProcessCleanupComplete (id : string) : Prog (goerr + unit) := update id cleanupCompleteFn.

(** ** Launching *)

(** A step that must be accepted. *)
Definition accepted (r : goerr + bool) : goerr + unit :=
  match r with inl e => inl e | inr true => inr tt | inr false => inl ErrCanceled end.
Definition PrepareProcessOwnership (t : Task) (treeID : string) : Prog (goerr + unit) :=
  do* r := update (tkID t) (prepareOwnershipFn treeID) in Ret (accepted r).
Definition PublishProcess (t : Task) (ref : ProcessRef) : Prog (goerr + unit) :=
  if (rPID ref <=? 0) || bool_decide (rIdentity ref = "")
  then fail (Errorf "worker launch requires a strong process reference" [])
  else do* r := update (tkID t) (publishProcessFn ref) in Ret (accepted r).
Definition WorkerLaunchReady (t : Task) (pid : Z) : Prog (goerr + unit) :=
  do! identity := step (TreeIdentity pid) in
  do* r := update (tkID t) (workerReadyFn pid identity) in Ret (accepted r).
Definition commitLaunchStep (t : Task) : Prog (goerr + bool) :=
  do! r := update (tkID t) commitLaunchFn in
  if (r.2 : bool) then fail ErrCanceled else done r.1.
Fixpoint CommitLaunch (ctx : nat) (t : Task) : Prog (Task * err) :=
  match ctx with
  | O => Ret (t, Some contextDeadlineExceeded)
  | S ctx' =>
      do* ended := step CtxErr in
      match ended with
      | Some e => Ret (t, Some e)
      | None =>
          do* committed := commitLaunchStep t in
          match committed with
          | inl e => Ret (t, Some e)
          | inr true => releaseLauncherLock t
          | inr false =>
              do* ended' := step Wait in
              match ended' with Some e => Ret (t, Some e) | None => CommitLaunch ctx' t end
          end
      end
  end.

Definition cleanupPendingLaunch (s : State) : Prog (goerr + unit) :=
  do! _ := stepErr CtxErr in
  if negb (sLaunchProtocol s =? 1)
  then fail (Errorf "cannot verify cleanup of a legacy abandoned launch" [])
  else
    do! _ := match ProcessReference s with
             | Some ref => do! _ := stepErr (Terminate ref) in stepErr (CleanupAfterExit ref)
             | None => done tt
             end in
    do* e := step (CleanupUnpublished (launchLeasePath (sID s)) (sLaunchTreeID s) (sLaunchOwned s)) in
    match e with
    | Some e' => fail (Errorf "clean up abandoned launch %s: %w" [AStr (sID s); AErr e'])
    | None => done tt
    end.

(** A state with an error next to it, as several operations return them. *)
Definition Reconciled : Type := option State * err.
Definition fromGet (r : goerr + State) : Reconciled :=
  match r with inr s => (Some s, None) | inl e => (None, Some e) end.

Definition finishAbandonedLaunch (id : string) (aborting : bool) : Prog Reconciled :=
  do* r := update id (finishAbandonedFn aborting) in
  match r with
  | inl e => Ret (None, Some e)
  | inr _ => do* s := step (Get id) in Ret (fromGet s)
  end.
Definition reconcileLaunch (id : string) (aborting : bool) : Prog Reconciled :=
  do* lock := tryLauncherLock id in
  match lock with
  | inl e => Ret (None, Some e)
  | inr false => do* s := step (Get id) in Ret (fromGet s)
  | inr true =>
      unlocking (launcherLockPath id) (
        do* r := step (Get id) in
        match r with
        | inl e => Ret (None, Some e)
        | inr s =>
            if negb (sLaunchPending s) && negb aborting then Ret (Some s, None)
            else if sProcessCleanupComplete s then Ret (Some s, None)
            else
              do* c := cleanupPendingLaunch s in
              match c with
              | inl e => Ret (Some s, Some e)
              | inr _ => finishAbandonedLaunch id aborting
              end
        end)
  end.
Definition reconcilePendingLaunch (id : string) : Prog Reconciled := reconcileLaunch id false.

Definition FailLaunch (t : Task) (cause : err) : Prog (Task * err) :=
  do* failed := recordFailure t cause true in
  do* rel := releaseLauncherLock t in
  do* cleaned := reconcileLaunch (tkID t) true in
  Ret (rel.1, errorsJoin [errOf failed; rel.2; cleaned.2]).

Definition stateAfterLaunchCleanup (id : string) : Prog (goerr + State) :=
  do! s := step (Get id) in
  if negb (sLaunchPending s) then done s
  else
    do* r := reconcilePendingLaunch id in
    match r with
    | (_, Some e) => fail e
    | (Some s', None) =>
        if sLaunchPending s' then fail (Errorf "task %s launch is still owned" [AStr id]) else done s'
    | (None, None) => fail (invalidID id)
    end.

(** ** Dead workers *)

Definition workerExitConfirmed (id : string) : Prog bool :=
  do* r := step (Get id) in
  match r with
  | inl _ => Ret false
  | inr s =>
      match ProcessReference s with
      | None => Ret false
      | Some ref =>
          do* e := step (ProcessExited ref) in
          Ret (match e with inr b => b | inl _ => false end)
      end
  end.

Definition claimConfirmedWorkerExit (id path : string) : Prog (option string) :=
  do* first := workerExitConfirmed id in
  if negb first then Ret None
  else
    do* lock := step (TryLock path) in
    match lock with
    | inr true =>
        do* again := workerExitConfirmed id in
        if (again : bool) then Ret (Some path)
        else do* _ := step (Unlock path) in Ret None
    | _ => Ret None
    end.

(** The path of the lock that was claimed. *)
Definition claimDeadWorkerLock (id : string) : Prog (option string) :=
  if negb (validTaskID id) then Ret None
  else
    let path := workerLockPath id in
    do* exists_ := step (StatLock path) in
    match exists_ with
    | inr false => claimConfirmedWorkerExit id (reconcileLockPath id)
    | inl _ => Ret None
    | inr true =>
        do* lock := step (TryLock path) in
        Ret (match lock with inr true => Some path | _ => None end)
    end.

Definition Abandoned (s : State) : Prog bool :=
  if Terminal (sStatus s) then Ret false
  else
    do* lock := claimDeadWorkerLock (sID s) in
    match lock with
    | Some path => do* _ := step (Unlock path) in Ret true
    | None => Ret false
    end.

Definition failAbandoned (s : State) : Prog State :=
  do* r := step (Get (sID s)) in
  match r with
  | inl _ => Ret s
  | inr current =>
      if Terminal (sStatus current) then Ret current
      else
        do* f := Fail (Open (sID s)) (Some ErrAbandoned) in
        match f with
        | inl _ => Ret current
        | inr _ =>
            do* r' := step (Get (sID s)) in
            Ret (match r' with inr reconciled => reconciled | inl _ => current end)
        end
  end.

Definition reconcileClaimedCancellation (current : State) : Prog Reconciled :=
  do* ended := step CtxErr in
  match ended with
  | Some e => Ret (Some current, Some e)
  | None =>
      do* c := match ProcessReference current with
               | Some ref => step (CleanupAfterExit ref)
               | None => Ret None
               end in
      match c with
      | Some e => Ret (Some current, Some (Errorf "clean up canceled task %s process tree: %w"
                                             [AStr (sID current); AErr e]))
      | None =>
          do* f := finalizeCanceled (sID current) in
          match f with
          | inl e => Ret (Some current, Some e)
          | inr _ => do* s := step (Get (sID current)) in Ret (fromGet s)
          end
      end
  end.

Definition finishClaimedReconciliation (current0 : State) (cleaned : bool) : Prog Reconciled :=
  do* current := failAbandoned current0 in
  if cleaned && bool_decide (sStatus current = StatusFailed) &&
     bool_decide (sError current = error_text ErrAbandoned)
  then
    do* m := markProcessCleanupComplete (sID current) in
    match m with
    | inl e => Ret (Some current, Some e)
    | inr _ => do* s := step (Get (sID current)) in Ret (fromGet s)
    end
  else Ret (Some current, None).

Definition reconcileClaimedTask (id : string) : Prog Reconciled :=
  do* r := step (Get id) in
  match r with
  | inl e => Ret (None, Some e)
  | inr current =>
      if negb (NeedsReconciliation current) then Ret (Some current, None)
      else if sCancelRequested current then reconcileClaimedCancellation current
      else match ProcessReference current with
           | None => finishClaimedReconciliation current false
           | Some ref =>
               do* ended := step CtxErr in
               match ended with
               | Some e => Ret (Some current, Some e)
               | None =>
                   do* c := step (CleanupAfterExit ref) in
                   match c with
                   | Some e => Ret (Some current, Some (Errorf "clean up task %s process tree: %w"
                                                          [AStr id; AErr e]))
                   | None => finishClaimedReconciliation current true
                   end
               end
           end
  end.

Definition ReconcileTask (id : string) : Prog Reconciled :=
  do* ended := step CtxErr in
  match ended with
  | Some e => Ret (None, Some e)
  | None =>
      do* r := step (Get id) in
      match r with
      | inl e => Ret (None, Some e)
      | inr current =>
          if sLaunchPending current then reconcilePendingLaunch id
          else if negb (NeedsReconciliation current) then Ret (Some current, None)
          else
            do* lock := claimDeadWorkerLock id in
            match lock with
            | None => Ret (Some current, None)
            | Some path => unlocking path (reconcileClaimedTask id)
            end
      end
  end.

Definition pendingLaunchState (s : State) : Prog State :=
  do* r := reconcilePendingLaunch (sID s) in
  Ret (match r with (Some current, None) => current | _ => s end).
Definition ReconcileState (s : State) : Prog State :=
  if hasPendingLaunch s then pendingLaunchState s
  else if negb (NeedsReconciliation s) then Ret s
  else
    do* lock := claimDeadWorkerLock (sID s) in
    match lock with
    | None => Ret s
    | Some path =>
        unlocking path (
          do* r := step (Get (sID s)) in
          match r with
          | inl _ => Ret s
          | inr current =>
              if negb (NeedsReconciliation current) then Ret current
              else if sCancelRequested current then
                do* c := reconcileClaimedCancellation current in
                Ret (match c with (Some reconciled, None) => reconciled | _ => current end)
              else failAbandoned current
          end)
    end.

(** ** Cleaning up worker trees *)

Definition CleanupExitedWorkerTree (id : string) : Prog (goerr + unit) :=
  do! s := stateAfterLaunchCleanup id in
  if negb (NeedsExitedWorkerCleanup s) then done tt
  else
    do* lock := claimDeadWorkerLock id in
    match lock with
    | None => fail (Errorf "cannot claim dead worker lock for abandoned task %s" [AStr id])
    | Some path =>
        unlocking path (
          do! s' := step (Get id) in
          if negb (NeedsExitedWorkerCleanup s') then done tt
          else
            do* c := match ProcessReference s' with
                     | Some ref => step (CleanupAfterExit ref)
                     | None => Ret None
                     end in
            match c with
            | Some e => fail (Errorf "clean up task %s process tree: %w" [AStr id; AErr e])
            | None => markProcessCleanupComplete id
            end)
    end.

Definition finishCanceledWorkerCleanup (id : string) (ref : ProcessRef) (terminated : bool)
    : Prog (goerr + unit) :=
  do! current := step (Get id) in
  if negb (NeedsCanceledWorkerCleanup current) then done tt
  else
    do* c := (if negb terminated || negb (bool_decide (rIdentity ref = ""))
              then step (CleanupAfterExit ref) else Ret None) in
    match c with
    | Some e => fail (Errorf "clean up canceled task %s process tree: %w" [AStr id; AErr e])
    | None => markProcessCleanupComplete id
    end.

(** The result: complete, and terminated so far. *)
Definition cleanupCanceledWorkerTreeStep (id : string) (ref : ProcessRef) (terminated : bool)
    : Prog (goerr + (bool * bool)) :=
  do* lock := tryWorkerLock id in
  match lock with
  | inl e => fail (Errorf "inspect canceled task %s worker lock: %w" [AStr id; AErr e])
  | inr true =>
      do! _ := unlocking (workerLockPath id) (finishCanceledWorkerCleanup id ref terminated) in
      done (true, terminated)
  | inr false =>
      if terminated then done (false, true)
      else
        do* e := step (Terminate ref) in
        match e with
        | Some e' => fail (Errorf "terminate canceled task %s process tree: %w" [AStr id; AErr e'])
        | None => done (false, true)
        end
  end.
Fixpoint waitCanceledWorkerCleanup (ctx : nat) (id : string) (ref : ProcessRef) (terminated : bool)
    : Prog (goerr + unit) :=
  match ctx with
  | O => fail contextDeadlineExceeded
  | S ctx' =>
      do! _ := stepErr CtxErr in
      do! r := cleanupCanceledWorkerTreeStep id ref terminated in
      if (r.1 : bool) then done tt
      else do! _ := stepErr Wait in waitCanceledWorkerCleanup ctx' id ref r.2
  end.
Definition CleanupCanceledWorkerTree (ctx : nat) (id : string) : Prog (goerr + unit) :=
  do! s := step (Get id) in
  if negb (NeedsCanceledWorkerCleanup s) then done tt
  else match ProcessReference s with
       | Some ref => waitCanceledWorkerCleanup ctx id ref false
       | None => done tt
       end.

Definition Delete (ctx : nat) (id : string) (force : bool) : Prog (goerr + unit) :=
  if negb (validTaskID id) then fail (invalidID id)
  else
    do! _ := CleanupCanceledWorkerTree ctx id in
    do! _ := CleanupExitedWorkerTree id in
    stepErr (DeleteIf id (checkDeletion force)).

(** ** Cancelling *)

Record WorkerObservation := mkObservation { woState : State; woGone : bool }.
Definition workerObservation (id : string) : Prog (goerr + option WorkerObservation) :=
  do! s := step (Get id) in
  if Terminal (sStatus s) || hasProcessReference s then done (Some (mkObservation s false))
  else
    do! available := tryWorkerLock id in
    if negb available then done None
    else do* _ := step (Unlock (workerLockPath id)) in done (Some (mkObservation s true)).
Fixpoint WaitForWorkerObservation (ctx : nat) (id : string) : Prog (goerr + WorkerObservation) :=
  match ctx with
  | O => fail contextDeadlineExceeded
  | S ctx' =>
      do! o := workerObservation id in
      match o with
      | Some observation => done observation
      | None => do! _ := stepErr Wait in WaitForWorkerObservation ctx' id
      end
  end.

(** [cancel task ID: what: cause] *)
Definition cancelErr (id what : string) (cause : goerr) : goerr :=
  Errorf ("cancel task %s: " +:+ what +:+ ": %w") [AStr id; AErr cause].

Definition clearAbandonedLaunch (id : string) : Prog (goerr + bool) :=
  do! s := step (Get id) in
  if sLaunchProtocol s =? 1 then
    do* r := reconcilePendingLaunch id in
    Ret (errResult r.2 (match r.1 with Some current => negb (sLaunchPending current) | None => false end))
  else fail (Errorf "cannot verify cleanup of a legacy abandoned launch" []).
Definition waitForLaunchStep (id : string) : Prog (goerr + option State) :=
  do* r := step (Get id) in
  match r with
  | inl e => fail (cancelErr id "read state" e)
  | inr s =>
      if Terminal (sStatus s) || negb (sLaunchPending s) then done (Some s)
      else do! _ := clearAbandonedLaunch id in done None
  end.
Fixpoint waitForLaunch (ctx : nat) (id : string) : Prog (goerr + State) :=
  match ctx with
  | O => fail (cancelErr id "wait for launch publication" contextDeadlineExceeded)
  | S ctx' =>
      do! r := waitForLaunchStep id in
      match r with
      | Some s => done s
      | None =>
          do* ended := step Wait in
          match ended with
          | Some e => fail (cancelErr id "wait for launch publication" e)
          | None => waitForLaunch ctx' id
          end
      end
  end.

Definition cancelWithoutWorker (ctx : nat) (id : string) : Prog (goerr + unit) :=
  unlocking (workerLockPath id) (
    do! s := waitForLaunch ctx id in
    if Terminal (sStatus s) then done tt
    else
      do* c := match ProcessReference s with
               | Some ref => step (CleanupAfterExit ref)
               | None => Ret None
               end in
      match c with
      | Some e => fail (cancelErr id "clean up worker tree" e)
      | None => finalizeCanceled id
      end).
(** Finalized?  An error comes with [true], as the code returns it. *)
Definition tryFinalizeWithoutWorker (ctx : nat) (id : string) : Prog (bool * err) :=
  do* lock := tryWorkerLock id in
  match lock with
  | inl e => Ret (false, Some (cancelErr id "inspect worker lock" e))
  | inr false => Ret (false, None)
  | inr true => do* r := cancelWithoutWorker ctx id in Ret (true, errOf r)
  end.

Definition terminateWorker (ctx : nat) (id : string) (ref : ProcessRef) (terminated : option ProcessRef)
    : Prog (goerr + unit) :=
  if bool_decide (terminated = Some ref) then done tt
  else
    do* e := step (Terminate ref) in
    match e with
    | None => done tt
    | Some e' =>
        do* f := tryFinalizeWithoutWorker ctx id in
        match f with
        | (true, None) => done tt
        | _ => fail (cancelErr id "terminate worker tree" e')
        end
    end.
Definition processCancellationObservation (ctx : nat) (id : string) (s : State)
    (terminated : option ProcessRef) : Prog (goerr + (bool * option ProcessRef)) :=
  match ProcessReference s with
  | Some ref => do! _ := terminateWorker ctx id ref terminated in done (false, Some ref)
  | None =>
      do* o := WaitForWorkerObservation ctx id in
      match o with
      | inl e => fail (cancelErr id "wait for worker startup" e)
      | inr observation => done (woGone observation, None)
      end
  end.

(** Retry, and the process terminated so far. *)
Definition quiesceCancellationStep (ctx : nat) (id : string) (terminated : option ProcessRef)
    : Prog (goerr + (bool * option ProcessRef)) :=
  do* r := step (Get id) in
  match r with
  | inl e => fail (cancelErr id "read state" e)
  | inr s =>
      if Terminal (sStatus s) then done (false, None)
      else
        do* f := tryFinalizeWithoutWorker ctx id in
        match f with
        | (_, Some e) => fail e
        | (true, None) => done (false, None)
        | (false, None) =>
            do! o := processCancellationObservation ctx id s terminated in
            if (o.1 : bool) then done (true, terminated)
            else done (true, match o.2 with Some ref => Some ref | None => terminated end)
        end
  end.
Fixpoint quiesceCancellation (fuel ctx : nat) (id : string) (terminated : option ProcessRef)
    : Prog (goerr + unit) :=
  match fuel with
  | O => fail (Errorf "cancel task %s: %w" [AStr id; AErr contextDeadlineExceeded])
  | S fuel' =>
      do! r := quiesceCancellationStep ctx id terminated in
      if negb r.1 then done tt
      else
        do* ended := step Wait in
        match ended with
        | Some e => fail (Errorf "cancel task %s: %w" [AStr id; AErr e])
        | None => quiesceCancellation fuel' ctx id r.2
        end
  end.

Definition CancelContext (ctx : nat) (t : Task) : Prog (goerr + unit) :=
  let id := tkID t in
  do! _ := stepErr CtxErr in
  do! s := requestCancel t in
  do! _ := (if Terminal (sStatus s) then done tt else quiesceCancellation ctx ctx id None) in
  do! _ := CleanupCanceledWorkerTree ctx id in
  CleanupExitedWorkerTree id.

(** [Cancel] bounds its waits by five seconds. *)
Definition Cancel (waits : nat) (t : Task) : Prog (goerr + unit) := CancelContext waits t.

(** ** Listing *)

(** Absent under the lock confirms a concurrent deletion. *)
Fixpoint listEach (ids : list string) : Prog (goerr + list State) :=
  match ids with
  | [] => done []
  | id :: rest =>
      do* r := step (Get id) in
      match r with
      | inl e =>
          if errorsIs e "os.ErrNotExist" then listEach rest
          else fail (Errorf "list task %s: %w" [AStr id; AErr e])
      | inr s => do! more := listEach rest in done (s :: more)
      end
  end.
(** Newest first; [sort.Slice] leaves the order of equal times open. *)
Definition startedBefore (a b : State) : Prop := sStartedAt b <= sStartedAt a.
#[export] Instance startedBefore_dec : RelDecision startedBefore.
Proof. intros a b. unfold startedBefore. apply _. Defined.
Definition List : Prog (goerr + list State) :=
  do! ids := step ListIDs in
  do! states := listEach ids in done (merge_sort startedBefore states).
Definition ForWorkspace (workspaceID command : string) : Prog (goerr + list State) :=
  do! states := List in
  done (filter (fun s => sWorkspaceID s = workspaceID /\ (command = "" \/ sCommand s = command)) states).
Definition ActiveForWorkspace (workspaceID command : string) : Prog (goerr + list State) :=
  do! states := ForWorkspace workspaceID command in
  done (filter (fun s => Terminal (sStatus s) = false) states).
End TaskStore.
