(* ===== verification/TaskLocks.v ===== *)
(** Which locks a process holds while it runs a program of the task store; every
    operation of the store obeys this discipline, and changes a task only in the
    ways its locks allow. *)
From S2P Require Import Prelude GoStd GoText Clierr TaskState TaskProg TaskStore.

Abbreviation locks := (gset string).

(** The locks held after a step, from those held before and its answer. *)
Definition after {X} (st : Step X) : X -> locks -> locks :=
  match st in Step X' return X' -> locks -> locks with
  | TryLock path => fun x L => match x with inr true => {[path]} ∪ L | _ => L end
  | Unlock path => fun _ L => L ∖ {[path]}
  | _ => fun _ L => L
  end.

(** A lock that proves that no worker of the task is active, or is going to be. *)
Definition workerGone (L : locks) (id : string) : Prop :=
  workerLockPath id ∈ L \/ reconcileLockPath id ∈ L.
Definition launcher (L : locks) (id : string) : Prop := launcherLockPath id ∈ L.

Section Locks.
Context (redact : string -> string).
Implicit Types (L M : locks) (id : string) (t : Task).

(** The functions the package passes to the locked update of [id], and the
    locks it holds when it does. *)
Inductive permitted (L : locks) (id : string) : forall {R}, Mutation R -> Prop :=
| may_begin : launcher L id -> permitted L id beginLaunchFn
| may_finish : permitted L id finishLaunchFn
| may_setProcess ref : 0 < rPID ref -> permitted L id (setProcessFn ref)
| may_label v : permitted L id (setWorkspaceIDFn v)
| may_succeed r : permitted L id (succeedFn r)
| may_fail c failedLaunch ctx : permitted L id (failureFn redact c failedLaunch ctx)
| may_request : permitted L id requestCancelFn
| may_finalize : workerGone L id -> permitted L id finalizeCanceledFn
| may_report e : permitted L id (reportFn redact e)
| may_prepare tree : permitted L id (prepareOwnershipFn tree)
| may_publish ref : 0 < rPID ref -> rIdentity ref <> "" -> permitted L id (publishProcessFn ref)
| may_ready pid identity : permitted L id (workerReadyFn pid identity)
| may_commit : permitted L id commitLaunchFn
| may_abandon aborting : launcher L id -> permitted L id (finishAbandonedFn aborting)
| may_complete : workerGone L id -> permitted L id cleanupCompleteFn.

Definition allowed (L : locks) {X} (st : Step X) : Prop :=
  match st with
  | Update id f => permitted L id f
  | Create id mk => exists opts launch, mk = initialState id opts launch /\ (launch = true -> launcher L id)
  | DeleteIf id check => exists force, check = checkDeletion force
  | _ => True
  end.

(** A state read from the file of [id] is the state of [id]. *)
Definition possible {X} (st : Step X) : X -> Prop :=
  match st in Step X' return X' -> Prop with
  | Get id | Peek id => fun r => match r with inr s => sID s = id | inl _ => True end
  | _ => fun _ => True
  end.

(** Started with the locks [L], every step of [p] is allowed, and [Q] holds of
    its result and of the locks it ends with. *)
Fixpoint safe {A} (L : locks) (p : Prog A) (Q : A -> locks -> Prop) : Prop :=
  match p with
  | Ret a => Q a L
  | Do st k => allowed L st /\ forall x, possible st x -> safe (after st x L) (k x) Q
  end.

Lemma safe_mono {A} (p : Prog A) L (Q Q' : A -> locks -> Prop) :
  safe L p Q -> (forall a M, Q a M -> Q' a M) -> safe L p Q'.
Proof.
  intros H HQ. revert L H. induction p as [a|X st k IH]; intros L; cbn; [apply HQ|].
  intros [Hst Hk]. split; [done|]. intros x Hx. by apply IH, Hk.
Qed.
Lemma safe_bind {A B} (p : Prog A) (k : A -> Prog B) L Q Q' :
  safe L p Q' -> (forall a M, Q' a M -> safe M (k a) Q) -> safe L (pbind p k) Q.
Proof.
  intros H Hk. revert L H. induction p as [a|X st k' IH]; intros L; cbn; [apply Hk|].
  intros [Hst Hs]. split; [done|]. intros x Hx. apply IH. by apply Hs.
Qed.
Lemma safe_do {X A} (st : Step X) (k : X -> Prog A) L (Q : A -> locks -> Prop) :
  allowed L st -> (forall x, possible st x -> safe (after st x L) (k x) Q) -> safe L (Do st k) Q.
Proof. done. Qed.

(** [p] is safe and keeps the locks it started with, but for [ls]. *)
Definition keeps {A} (ls L : locks) (p : Prog A) : Prop := safe L p (fun _ M => L ∖ ls ⊆ M).

Lemma keeps_ret {A} ls L (a : A) : keeps ls L (Ret a).
Proof. unfold keeps. cbn. set_solver. Qed.
Lemma keeps_bind {A B} ls L (p : Prog A) (k : A -> Prog B) :
  keeps ls L p -> (forall a M, L ∖ ls ⊆ M -> keeps ls M (k a)) -> keeps ls L (pbind p k).
Proof.
  intros Hp Hk. eapply safe_bind; [exact Hp|]. cbn. intros a M HM.
  eapply safe_mono; [exact (Hk a M HM)|]. cbn. clear -HM. set_solver.
Qed.
Lemma keeps_ebind {A B} ls L (p : Prog (goerr + A)) (k : A -> Prog (goerr + B)) :
  keeps ls L p -> (forall a M, L ∖ ls ⊆ M -> keeps ls M (k a)) -> keeps ls L (pebind p k).
Proof.
  intros Hp Hk. apply keeps_bind; [done|]. intros [e|a] M HM; [apply keeps_ret|by apply Hk].
Qed.
Lemma keeps_do {X A} ls L (st : Step X) (k : X -> Prog A) :
  allowed L st ->
  (forall x, possible st x -> L ∖ ls ⊆ after st x L /\ keeps ls (after st x L) (k x)) ->
  keeps ls L (Do st k).
Proof.
  intros Hst Hk. split; [done|]. intros x Hx. destruct (Hk x Hx) as [HL Hs].
  eapply safe_mono; [exact Hs|]. cbn. clear -HL. set_solver.
Qed.
Lemma keeps_weaken {A} ls ls' L (p : Prog A) : keeps ls L p -> ls ⊆ ls' -> keeps ls' L p.
Proof. intros H Hls. eapply safe_mono; [exact H|]. cbn. set_solver. Qed.
Lemma keeps_bind_free {A B} ls L (p : Prog A) (k : A -> Prog B) :
  keeps ∅ L p -> (forall a M, L ⊆ M -> keeps ls M (k a)) -> keeps ls L (pbind p k).
Proof.
  intros Hp Hk. eapply safe_bind; [exact Hp|]. cbn. intros a M HM.
  eapply safe_mono; [apply (Hk a M); clear -HM; set_solver|]. cbn. clear -HM. set_solver.
Qed.
Lemma keeps_safe {A} ls L (p : Prog A) : keeps ls L p -> safe L p (fun _ _ => True).
Proof. intros H. by eapply safe_mono. Qed.


(** ** Rules the tactic below applies *)

Lemma keeps_at {X A} ls L (st : Step X) (k : X -> Prog A) :
  allowed L st ->
  (forall x, possible st x -> L ∖ ls ⊆ after st x L /\ keeps ls (after st x L) (k x)) ->
  keeps ls L (pbind (step st) k).
Proof. apply keeps_do. Qed.
Lemma keeps_last {X} ls L (st : Step X) :
  allowed L st -> (forall x, possible st x -> L ∖ ls ⊆ after st x L) -> keeps ls L (step st).
Proof. intros Hst Hx. apply keeps_do; [done|]. intros x Hp. split; [by apply Hx|apply keeps_ret]. Qed.
Lemma keeps_post {A B} ls L (p : Prog A) (k : A -> Prog B) Q :
  safe L p Q -> (forall a M, Q a M -> L ∖ ls ⊆ M /\ keeps ls M (k a)) -> keeps ls L (pbind p k).
Proof.
  intros Hp Hk. eapply safe_bind; [exact Hp|]. intros a M HQ. destruct (Hk a M HQ) as [HM Hs].
  eapply safe_mono; [exact Hs|]. cbn. clear -HM. set_solver.
Qed.
End Locks.

(** *** The locks of a task are different *)

Lemma worker_launcher id : workerLockPath id <> launcherLockPath id.
Proof. unfold workerLockPath, launcherLockPath. intros H%(inj (String.append id)). done. Qed.
Lemma reconcile_launcher id : reconcileLockPath id <> launcherLockPath id.
Proof.
  unfold reconcileLockPath, workerLockPath, launcherLockPath.
  rewrite <- string_app_assoc. intros H%(inj (String.append id)). done.
Qed.
Lemma worker_reconcile id : workerLockPath id <> reconcileLockPath id.
Proof.
  unfold reconcileLockPath, workerLockPath.
  rewrite <- string_app_assoc. intros H%(inj (String.append id)). done.
Qed.

Ltac locks_solve := unfold workerGone, launcher in *; set_solver.

(** One step through a program: split on what it tests, apply the rule of its
    head; facts about its sub-programs come from the hints in [tasks]. *)
Create HintDb tasks.
#[export] Hint Constructors permitted : tasks.
#[export] Hint Extern 5 (workerGone _ _) => locks_solve : tasks.
#[export] Hint Extern 4 (workerGone _ (sID ?s)) =>
  match goal with H : sID s = _ |- _ => rewrite H end : tasks.
#[export] Hint Extern 5 (launcher _ _) => locks_solve : tasks.
#[export] Hint Extern 5 (_ ⊆ _) => locks_solve : tasks.

Ltac keeps_step :=
  cbv beta zeta;
  lazymatch goal with
  | |- keeps _ _ _ (Ret _) => apply keeps_ret
  | |- keeps _ _ _ (fail _) => apply keeps_ret
  | |- keeps _ _ _ (done _) => apply keeps_ret
  | |- keeps _ _ _ (match ?x with _ => _ end) => destruct x eqn:?
  | |- keeps _ _ _ (pbind (Ret _) _) => cbn [pbind]
  | |- keeps _ _ _ (pbind (done _) _) => unfold done; cbn [pbind]
  | |- keeps _ _ _ (pbind (fail _) _) => unfold fail; cbn [pbind]
  | |- keeps _ _ _ (pebind _ _) => unfold pebind
  | |- keeps _ _ _ (pbind (pebind _ _) _) => unfold pebind
  | |- keeps _ _ _ (pbind (match ?x with _ => _ end) _) => destruct x eqn:?
  | |- keeps _ _ _ (pbind (step (TryLock _)) _) =>
      apply keeps_at; [exact I|intros [?|[]] ?; cbn [after]; (split; [solve [locks_solve]|])]
  | |- keeps _ _ _ (Do (TryLock _) _) =>
      apply keeps_do; [exact I|intros [?|[]] ?; cbn [after]; (split; [solve [locks_solve]|])]
  | |- keeps _ _ _ (Do _ _) =>
      apply keeps_do; [solve [cbn [allowed]; eauto with tasks]|
                       cbn [after possible]; intros ? ?; split; [solve [locks_solve]|]]
  | |- keeps _ _ _ (pbind (step _) _) =>
      apply keeps_at; [solve [cbn [allowed]; eauto with tasks]|cbn [after possible]; intros ? ?; split; [solve [locks_solve]|]]
  | |- keeps _ _ _ (pbind (update _ _) _) => unfold update
  | |- keeps _ _ _ (pbind (stepErr _) _) => unfold stepErr
  | |- keeps _ _ _ (update _ _) => unfold update
  | |- keeps _ _ _ (stepErr _) => unfold stepErr
  | |- keeps _ _ _ (step _) =>
      apply keeps_last; [solve [cbn [allowed]; eauto with tasks]|cbn [after possible]; intros ? ?; solve [locks_solve]]
  | |- keeps _ _ _ (pbind (pbind _ _) _) => apply keeps_bind; [|intros ? ? ?]
  | |- keeps _ _ _ (pbind _ _) => first
      [apply keeps_bind_free; [solve [eauto with tasks]|intros ? ? ?]
      |apply keeps_bind; [solve [eauto with tasks]|intros ? ? ?]]
  | |- keeps _ _ _ _ => solve [eauto with tasks]
  end.
Ltac keeps_tac := repeat keeps_step.

Section Safe.
Context (redact : string -> string).
Implicit Types (L M ls : locks) (id : string) (t : Task) (s : State).
Abbreviation keeps := (keeps redact).
Abbreviation safe := (safe redact).

(** The locks of a task. *)
Definition taskLocks id : locks := {[workerLockPath id; reconcileLockPath id; launcherLockPath id]}.

(** ** Operations without locks of their own *)

Lemma update_keeps {R} ls L id (f : Mutation R) : permitted redact L id f -> keeps ls L (update id f).
Proof. intros Hf. unfold update. apply keeps_last; cbn; [done|]. intros _ _. locks_solve. Qed.

Lemma recordFailure_keeps ls L t e b : keeps ls L (recordFailure redact t e b).
Proof. unfold recordFailure. keeps_tac. Qed.

Lemma Fail_keeps ls L t e : keeps ls L (Fail redact t e).
Proof. apply recordFailure_keeps. Qed.
Lemma finalizeCanceled_keeps ls L id : workerGone L id -> keeps ls L (finalizeCanceled id).
Proof. intros HL. apply update_keeps. eauto with tasks. Qed.
Lemma markComplete_keeps ls L id : workerGone L id -> keeps ls L (markProcessCleanupComplete id).
Proof. intros HL. apply update_keeps. eauto with tasks. Qed.
Lemma workerExitConfirmed_keeps ls L id : keeps ls L (workerExitConfirmed id).
Proof. unfold workerExitConfirmed. keeps_tac. Qed.
Lemma cleanupPendingLaunch_keeps ls L s : keeps ls L (cleanupPendingLaunch s).
Proof. unfold cleanupPendingLaunch. keeps_tac. Qed.
Lemma finishAbandonedLaunch_keeps ls L id b :
  launcher L id -> keeps ls L (finishAbandonedLaunch id b).
Proof. intros HL. unfold finishAbandonedLaunch. keeps_tac. Qed.
#[local] Hint Resolve update_keeps recordFailure_keeps Fail_keeps finalizeCanceled_keeps
  markComplete_keeps workerExitConfirmed_keeps cleanupPendingLaunch_keeps
  finishAbandonedLaunch_keeps : tasks.

(** ** The launcher's lock *)

Lemma releaseLauncherLock_keeps ls L t :
  launcherLockPath (tkID t) ∈ ls -> keeps ls L (releaseLauncherLock t).
Proof. intros Hls. unfold releaseLauncherLock. keeps_tac. Qed.
Lemma claimLaunchOwnership_safe L t :
  safe L (claimLaunchOwnership t)
    (fun r M => L ∖ {[launcherLockPath (tkID t)]} ⊆ M /\
       match r with inr t' => tkID t' = tkID t /\ launcher M (tkID t) | inl _ => True end).
Proof.
  unfold claimLaunchOwnership, tryLauncherLock, tryLock.
  destruct (validTaskID _); cbn; [|set_solver].
  split; [done|]. intros [e|[]] _; cbn; [set_solver| |set_solver].
  split; [done|]. intros [e|] _; cbn; [|split; [set_solver|split; [done|locks_solve]]].
  split; [done|]. set_solver.
Qed.
Lemma reconcileLaunch_keeps ls L id b :
  launcherLockPath id ∈ ls -> keeps ls L (reconcileLaunch id b).
Proof.
  intros Hls. unfold reconcileLaunch, tryLauncherLock, tryLock, unlocking. keeps_tac.
Qed.

#[local] Hint Resolve reconcileLaunch_keeps releaseLauncherLock_keeps : tasks.
#[local] Hint Extern 4 (_ ∈ _) => (unfold taskLocks; set_solver) : tasks.

Lemma stateAfterLaunchCleanup_keeps L id :
  keeps {[launcherLockPath id]} L (stateAfterLaunchCleanup id).
Proof. unfold stateAfterLaunchCleanup, reconcilePendingLaunch. keeps_tac. Qed.

(** ** The locks of a dead worker *)

Ltac reduce := cbn [TaskLocks.safe pbind step after possible allowed].

Lemma claimDeadWorkerLock_safe L id :
  safe L (claimDeadWorkerLock id) (fun r M =>
    L ∖ {[reconcileLockPath id]} ⊆ M /\
    match r with
    | Some path => path ∈ M /\ (path = workerLockPath id \/ path = reconcileLockPath id)
    | None => True
    end).
Proof.
  unfold claimDeadWorkerLock. destruct (validTaskID id); reduce; [|set_solver].
  split; [done|]. intros [e|[]] _; [reduce; set_solver| |].
  - reduce. split; [done|]. intros [e|[]] _; reduce; set_solver.
  - unfold claimConfirmedWorkerExit.
    eapply safe_bind; [apply (workerExitConfirmed_keeps ∅)|]. reduce. intros [] M HM; reduce; [|set_solver].
    split; [done|]. intros [e|[]] _; reduce; [set_solver| |set_solver].
    eapply safe_bind; [apply (workerExitConfirmed_keeps ∅)|]. reduce. intros [] M' HM'; reduce; set_solver.
Qed.
Lemma claimDeadWorkerLock_bind {A} ls L id (k : option string -> Prog A) :
  reconcileLockPath id ∈ ls ->
  (forall M, L ∖ {[reconcileLockPath id]} ⊆ M -> keeps ls M (k None)) ->
  (forall path M, L ∖ {[reconcileLockPath id]} ⊆ M -> path ∈ M ->
     path = workerLockPath id \/ path = reconcileLockPath id -> keeps ls M (k (Some path))) ->
  keeps ls L (pbind (claimDeadWorkerLock id) k).
Proof.
  intros Hls HN HS. eapply keeps_post; [apply claimDeadWorkerLock_safe|]. cbn.
  intros [path|] M [HM Hp]; (split; [set_solver|]); [destruct Hp; auto|auto].
Qed.

Lemma failAbandoned_safe L s :
  safe L (failAbandoned redact s) (fun s' M => L ⊆ M /\ sID s' = sID s).
Proof.
  unfold failAbandoned. reduce. split; [done|]. intros [e|current] Hid; reduce; [set_solver|].
  destruct (Terminal _); reduce; [set_solver|].
  eapply safe_bind; [apply (Fail_keeps ∅)|]. reduce. intros [e|u] M HM; reduce; [set_solver|].
  split; [done|]. intros [e|s'] Hs'; reduce; set_solver.
Qed.
Lemma reconcileClaimedCancellation_keeps ls L s :
  workerGone L (sID s) -> keeps ls L (reconcileClaimedCancellation s).
Proof. intros HL. unfold reconcileClaimedCancellation. keeps_tac. Qed.
Lemma finishClaimedReconciliation_keeps ls L s b :
  workerGone L (sID s) -> keeps ls L (finishClaimedReconciliation redact s b).
Proof.
  intros HL. unfold finishClaimedReconciliation.
  eapply keeps_post; [apply failAbandoned_safe|]. reduce. intros s' M [HM Hid].
  split; [set_solver|]. assert (workerGone M (sID s')) by (rewrite Hid; locks_solve). keeps_tac.
Qed.
#[local] Hint Resolve stateAfterLaunchCleanup_keeps reconcileClaimedCancellation_keeps
  finishClaimedReconciliation_keeps : tasks.
Lemma reconcileClaimedTask_keeps ls L id :
  workerGone L id -> keeps ls L (reconcileClaimedTask redact id).
Proof.
  intros HL. unfold reconcileClaimedTask. keeps_tac.
Qed.

#[local] Hint Resolve reconcileClaimedTask_keeps : tasks.

Lemma ReconcileTask_keeps L id : keeps (taskLocks id) L (ReconcileTask redact id).
Proof.
  unfold ReconcileTask, reconcilePendingLaunch, unlocking. keeps_tac.
  apply claimDeadWorkerLock_bind; [unfold taskLocks; set_solver| |].
  - intros M HM. keeps_tac.
  - intros path M HM Hp [-> | ->]; (apply keeps_bind_free; [solve [eauto with tasks]|intros ? ? ?]);
      unfold taskLocks in *; keeps_tac.
Qed.
Lemma failAbandoned_keeps ls L s : keeps ls L (failAbandoned redact s).
Proof. eapply safe_mono; [apply failAbandoned_safe|]. cbn. set_solver. Qed.
#[local] Hint Resolve failAbandoned_keeps : tasks.
Lemma ReconcileState_keeps L s : keeps (taskLocks (sID s)) L (ReconcileState redact s).
Proof.
  unfold ReconcileState, pendingLaunchState, reconcilePendingLaunch, unlocking. keeps_tac.
  apply claimDeadWorkerLock_bind; [unfold taskLocks; set_solver| |].
  - intros M HM. keeps_tac.
  - intros path M HM Hp Hpath.
    assert (workerGone M (sID s)) by (destruct Hpath as [-> | ->]; locks_solve).
    assert (path ∈ taskLocks (sID s)) by (unfold taskLocks; set_solver).
    clear Hpath. keeps_tac.
Qed.
Lemma Abandoned_keeps L s : keeps (taskLocks (sID s)) L (Abandoned s).
Proof.
  unfold Abandoned. keeps_tac.
  apply claimDeadWorkerLock_bind; [unfold taskLocks; set_solver| |].
  - intros M HM. keeps_tac.
  - intros path M HM Hp Hpath. assert (path ∈ taskLocks (sID s)) by (unfold taskLocks; set_solver).
    keeps_tac.
Qed.
Lemma CleanupExitedWorkerTree_keeps L id : keeps (taskLocks id) L (CleanupExitedWorkerTree id).
Proof.
  unfold CleanupExitedWorkerTree, unlocking. unfold pebind at 1.
  eapply keeps_bind; [eapply keeps_weaken; [apply stateAfterLaunchCleanup_keeps|unfold taskLocks; set_solver]|].
  intros r L' HL'. keeps_tac.
  apply claimDeadWorkerLock_bind; [unfold taskLocks; set_solver| |].
  - intros M HM. keeps_tac.
  - intros path M HM Hp Hpath.
    assert (workerGone M id) by (destruct Hpath as [-> | ->]; locks_solve).
    assert (path ∈ taskLocks id) by (unfold taskLocks; set_solver).
    clear Hpath. keeps_tac.
Qed.

(** ** Cleaning up and deleting *)

Lemma finishCanceledWorkerCleanup_keeps ls L id ref b :
  workerGone L id -> keeps ls L (finishCanceledWorkerCleanup id ref b).
Proof. intros HL. unfold finishCanceledWorkerCleanup. keeps_tac. Qed.
#[local] Hint Resolve finishCanceledWorkerCleanup_keeps : tasks.
Lemma cleanupCanceledWorkerTreeStep_keeps L id ref b :
  keeps (taskLocks id) L (cleanupCanceledWorkerTreeStep id ref b).
Proof.
  unfold cleanupCanceledWorkerTreeStep, tryWorkerLock, tryLock, unlocking. keeps_tac.
  all: unfold taskLocks; set_solver.
Qed.
#[local] Hint Resolve cleanupCanceledWorkerTreeStep_keeps : tasks.
Lemma waitCanceledWorkerCleanup_keeps ctx L id ref b :
  keeps (taskLocks id) L (waitCanceledWorkerCleanup ctx id ref b).
Proof.
  revert L b. induction ctx as [|ctx IH]; intros L b; cbn [waitCanceledWorkerCleanup]; keeps_tac; auto.
Qed.
#[local] Hint Resolve waitCanceledWorkerCleanup_keeps : tasks.
Lemma CleanupCanceledWorkerTree_keeps ctx L id :
  keeps (taskLocks id) L (CleanupCanceledWorkerTree ctx id).
Proof. unfold CleanupCanceledWorkerTree. keeps_tac. Qed.
#[local] Hint Resolve CleanupCanceledWorkerTree_keeps CleanupExitedWorkerTree_keeps : tasks.
Lemma Delete_keeps ctx L id force : keeps (taskLocks id) L (Delete ctx id force).
Proof. unfold Delete. keeps_tac. Qed.

(** ** Cancelling *)

Lemma workerObservation_keeps L id : keeps (taskLocks id) L (workerObservation id).
Proof. unfold workerObservation, tryWorkerLock, tryLock. keeps_tac. all: unfold taskLocks; set_solver. Qed.
#[local] Hint Resolve workerObservation_keeps : tasks.
Lemma WaitForWorkerObservation_keeps ctx L id : keeps (taskLocks id) L (WaitForWorkerObservation ctx id).
Proof. revert L. induction ctx as [|ctx IH]; intros L; cbn [WaitForWorkerObservation]; keeps_tac. Qed.

Lemma waitForLaunchStep_keeps L id : keeps {[launcherLockPath id]} L (waitForLaunchStep id).
Proof. unfold waitForLaunchStep, clearAbandonedLaunch, reconcilePendingLaunch. keeps_tac. Qed.
#[local] Hint Resolve waitForLaunchStep_keeps : tasks.
Lemma waitForLaunch_keeps ctx L id : keeps {[launcherLockPath id]} L (waitForLaunch ctx id).
Proof. revert L. induction ctx as [|ctx IH]; intros L; cbn [waitForLaunch]; keeps_tac. Qed.

(** The worker's lock is not the launcher's, which waiting may give back. *)
Lemma cancelWithoutWorker_keeps ctx L id :
  workerLockPath id ∈ L -> keeps (taskLocks id) L (cancelWithoutWorker ctx id).
Proof.
  intros HL. unfold cancelWithoutWorker, unlocking.
  apply keeps_bind; [|intros r M HM; keeps_tac; unfold taskLocks; set_solver].
  unfold pebind at 1. eapply keeps_post; [apply waitForLaunch_keeps|]. intros r M HM.
  assert (workerGone M id) by (pose proof (worker_launcher id); locks_solve).
  split; [unfold taskLocks; set_solver|]. destruct r as [e|s]; keeps_tac.
Qed.
Lemma tryFinalizeWithoutWorker_keeps ctx L id :
  keeps (taskLocks id) L (tryFinalizeWithoutWorker ctx id).
Proof.
  unfold tryFinalizeWithoutWorker, tryWorkerLock, tryLock. keeps_tac.
  apply keeps_bind; [apply cancelWithoutWorker_keeps; set_solver|intros; keeps_tac].
Qed.
#[local] Hint Resolve tryFinalizeWithoutWorker_keeps WaitForWorkerObservation_keeps : tasks.
Lemma quiesceCancellationStep_keeps ctx L id terminated :
  keeps (taskLocks id) L (quiesceCancellationStep ctx id terminated).
Proof. unfold quiesceCancellationStep, processCancellationObservation, terminateWorker. keeps_tac. Qed.
#[local] Hint Resolve quiesceCancellationStep_keeps : tasks.
Lemma quiesceCancellation_keeps fuel ctx L id terminated :
  keeps (taskLocks id) L (quiesceCancellation fuel ctx id terminated).
Proof.
  revert L terminated. induction fuel as [|fuel IH]; intros L terminated; cbn [quiesceCancellation];
    keeps_tac; auto.
Qed.
#[local] Hint Resolve quiesceCancellation_keeps : tasks.
Lemma CancelContext_keeps ctx L t : keeps (taskLocks (tkID t)) L (CancelContext ctx t).
Proof. unfold CancelContext, requestCancel. cbv zeta. keeps_tac. Qed.

(** ** Creating and launching *)

Lemma claim_bind {A} ls L t (k : goerr + Task -> Prog A) :
  launcherLockPath (tkID t) ∈ ls ->
  (forall e M, L ∖ {[launcherLockPath (tkID t)]} ⊆ M -> keeps ls M (k (inl e))) ->
  (forall t' M, tkID t' = tkID t -> L ∖ {[launcherLockPath (tkID t)]} ⊆ M -> launcher M (tkID t) ->
     keeps ls M (k (inr t'))) ->
  keeps ls L (pbind (claimLaunchOwnership t) k).
Proof.
  intros Hls HE HS. eapply keeps_post; [apply claimLaunchOwnership_safe|]. cbv beta.
  intros [e|t'] M [HM Hl]; (split; [set_solver|]); [auto|]. destruct Hl. by apply HS.
Qed.

Lemma create_safe L opts launch : safe L (create opts launch) (fun _ _ => True).
Proof.
  unfold create. apply (safe_do redact); [exact I|]. intros id _. cbn [after pbind].
  apply (keeps_safe redact {[launcherLockPath id]}). unfold pebind at 1.
  destruct launch.
  - apply claim_bind; [cbn; set_solver|intros; keeps_tac|]. intros t' M Ht HM Hl. cbn [tkID Open] in *.
    apply keeps_at; [exists opts, true; split; [done|by intros _]|]. intros [e|] _; cbn [after]; (split; [set_solver|]); [|keeps_tac].
    apply keeps_bind; [apply releaseLauncherLock_keeps; rewrite Ht; cbn; set_solver|intros; keeps_tac].
  - cbn [pbind done]. apply keeps_at; [exists opts, false; split; [done|discriminate]|].
    intros [e|] _; cbn [after]; (split; [set_solver|]); [|keeps_tac].
    apply keeps_bind; [apply releaseLauncherLock_keeps; cbn; set_solver|intros; keeps_tac].
Qed.
Lemma BeginLaunch_keeps L t : keeps (taskLocks (tkID t)) L (BeginLaunch t).
Proof.
  unfold BeginLaunch. apply claim_bind; [unfold taskLocks; set_solver|intros; keeps_tac|].
  intros t' M Ht HM Hl. keeps_tac; apply keeps_bind; try (intros; keeps_tac);
    apply releaseLauncherLock_keeps; rewrite Ht; unfold taskLocks; set_solver.
Qed.
Lemma SetProcess_keeps L t ref : keeps (taskLocks (tkID t)) L (SetProcess t ref).
Proof.
  unfold SetProcess. destruct (rPID ref <=? 0) eqn:Hpid; [apply keeps_ret|].
  apply Z.leb_gt in Hpid. unfold taskLocks. keeps_tac.
Qed.
Lemma PublishProcess_keeps ls L t ref : keeps ls L (PublishProcess t ref).
Proof.
  unfold PublishProcess. destruct (_ || _) eqn:Hc; [apply keeps_ret|].
  apply orb_false_iff in Hc as [Hpid%Z.leb_gt Hid%bool_decide_eq_false]. keeps_tac.
Qed.
Lemma CommitLaunch_keeps ctx L t : keeps (taskLocks (tkID t)) L (CommitLaunch ctx t).
Proof.
  revert L. induction ctx as [|ctx IH]; intros L; cbn [CommitLaunch]; [apply keeps_ret|].
  unfold commitLaunchStep, taskLocks in *. keeps_tac.
Qed.
End Safe.
