(* ===== verification/TaskLife.v ===== *)
(** The life of a task: what holds of every stored state, how one stored state
    may follow another, and that every permitted change respects both. *)
From S2P Require Import Prelude GoStd GoText Clierr TaskState TaskProg TaskStore TaskLocks.

(** ** What JSON does to texts *)

Lemma cleanContext_idem m : cleanContext (cleanContext m) = cleanContext m.
Proof.
  unfold cleanContext at 1. set (m' := cleanContext m).
  assert (Hm : forall k v, m' !! k = Some v -> coerceUTF8 k = k /\ coerceUTF8 v = v).
  { intros k v Hk%elem_of_list_to_map_2. apply list_elem_of_fmap in Hk as ([k0 v0] & [= -> ->] & _).
    by rewrite !coerceUTF8_idem. }
  transitivity (list_to_map (map_to_list m') :> gmap string string); [|apply list_to_map_to_list].
  f_equal. transitivity (id <$> map_to_list m'); [|apply list_fmap_id].
  apply list_fmap_ext. intros i [k v] Hkv%list_elem_of_lookup_2%elem_of_map_to_list.
  destruct (Hm _ _ Hkv) as [Hk Hv]. unfold prod_map, id. cbn. by rewrite Hk, Hv.
Qed.
Lemma cleanContext_empty : cleanContext ∅ = ∅.
Proof. done. Qed.
Lemma cleanState_idem s : cleanState (cleanState s) = cleanState s.
Proof.
  unfold cleanState; cbn. rewrite !coerceUTF8_idem, cleanContext_idem. f_equal.
  destruct (sProcess s) as [p|]; [|done]. unfold cleanProcess; cbn. by rewrite !coerceUTF8_idem.
Qed.

(** ** The invariant of a stored state *)

Definition statuses := [StatusPending; StatusRunning; StatusSucceeded; StatusFailed].
Definition processFields (s : State) : Prop :=
  match sProcess s with
  | Some p => 0 < rPID p /\ sPID s = rPID p /\ sProcessTreeIdentity s = rIdentity p
  | None => sPID s = 0 /\ sProcessTreeIdentity s = ""
  end.

(** Of a state of the task [id]; [taskOK] adds that JSON keeps it as it is. *)
Record wf (id : string) (s : State) : Prop := {
  wf_id : sID s = id;
  wf_status : sStatus s ∈ statuses;
  wf_process : processFields s;
  wf_ready : sWorkerReady s = true -> is_Some (sProcess s);
  wf_protocol : sLaunchProtocol s = 0 \/ sLaunchProtocol s = 1;
  wf_pending : sLaunchPending s = true -> sLaunchProtocol s = 1;
  wf_ready_protocol : sWorkerReady s = true -> sLaunchProtocol s = 1;
  wf_owned : sLaunchOwned s = true -> sLaunchProtocol s = 1;
  (* A requested cancellation ends the task only after its cleanup. *)
  wf_cancel : sCancelRequested s = true -> Terminal (sStatus s) = true ->
    Canceled s = true /\ sProcessCleanupComplete s = true;
  wf_result : is_Some (sResult s) -> sStatus s = StatusSucceeded;
  wf_success : sStatus s = StatusSucceeded ->
    sError s = "" /\ sErrorCode s = "" /\ sErrorHint s = "" /\ sErrorContext s = ∅;
}.
Definition taskOK (id : string) (s : State) : Prop := wf id s /\ cleanState s = s.

(** The outcome of a task: what a reader of a terminal one sees. *)
Definition outcome (s : State) :=
  (sStatus s, sError s, sErrorCode s, sErrorHint s, sErrorContext s, sResult s).

Record advances (s s' : State) : Prop := {
  adv_id : sID s' = sID s;
  adv_created : (sCommand s', sRunID s', sStartedAt s') = (sCommand s, sRunID s, sStartedAt s);
  adv_protocol : sLaunchProtocol s = 1 -> sLaunchProtocol s' = 1;
  adv_started : sStatus s' = StatusPending -> sStatus s = StatusPending;
  adv_cancel : sCancelRequested s = true -> sCancelRequested s' = true;
  adv_complete : sProcessCleanupComplete s = true -> sProcessCleanupComplete s' = true;
  adv_owned : sLaunchOwned s = true -> sLaunchOwned s' = true /\ sLaunchTreeID s' = sLaunchTreeID s;
  adv_outcome : Terminal (sStatus s) = true ->
    outcome s' = outcome s /\ sCancelRequested s' = sCancelRequested s;
}.

Lemma advances_refl s : advances s s.
Proof. by constructor; auto. Qed.
Lemma advances_trans s1 s2 s3 : advances s1 s2 -> advances s2 s3 -> advances s1 s3.
Proof.
  intros H1 H2. destruct (H1) as [? ? ? ? ? ? _ _], (H2) as [? ? ? ? ? ? _ _].
  constructor; try (intuition congruence).
  - intros H. destruct (adv_owned _ _ H1 H) as [Ho Ht].
    destruct (adv_owned _ _ H2 Ho) as [Ho' Ht']. split; congruence.
  - intros H. destruct (adv_outcome _ _ H1 H) as [Ho Hc].
    assert (Hst : sStatus s2 = sStatus s1) by (unfold outcome in Ho; congruence).
    destruct (adv_outcome _ _ H2) as [Ho' Hc']; [by rewrite Hst|]. split; congruence.
Qed.
#[export] Instance advances_preorder : PreOrder advances.
Proof. split; [exact advances_refl|exact advances_trans]. Qed.

(** ** Changes *)

(** What cleaning keeps. *)
Lemma Terminal_clean st : st ∈ statuses -> coerceUTF8 st = st.
Proof.
  intros H. assert (st = StatusPending \/ st = StatusRunning \/ st = StatusSucceeded \/ st = StatusFailed)
    as [-> | [-> | [-> | ->]]] by (unfold statuses in H; set_solver); done.
Qed.
Lemma wf_clean id s now : coerceUTF8 id = id -> wf id s -> wf id (cleanState (touch now s)).
Proof.
  intros Hid []. assert (Hst := Terminal_clean _ wf_status0).
  constructor; cbn; rewrite ?Hst; try done; auto.
  - by rewrite wf_id0.
  - revert wf_process0. unfold processFields; cbn. destruct (sProcess s); cbn; [intuition congruence|].
    intros [-> ->]. done.
  - intros H. by apply fmap_is_Some, wf_ready0.
  - unfold Canceled in *; cbn. rewrite Hst. intros Hc Ht. destruct wf_cancel0 as [H1 H2]; [done..|].
    split; [|done]. apply andb_true_iff in H1 as [H1 H3%bool_decide_eq_true]. rewrite H1, H3. done.
  - intros H. destruct wf_success0 as (-> & -> & -> & ->); done.
Qed.
Lemma advances_clean id s s' now : cleanState s = s -> wf id s' -> advances s s' -> advances s (cleanState (touch now s')).
Proof.
  intros Hc Hw []. pose proof (Terminal_clean _ (wf_status _ _ Hw)) as Hst. assert (Hf : forall {A} (f : State -> A), f (cleanState s) = f s) by (intros; by rewrite Hc).
  constructor; cbn; auto.
  - rewrite adv_id0. exact (Hf _ sID).
  - injection adv_created0 as -> -> ->.
    pose proof (Hf _ sCommand). pose proof (Hf _ sRunID). cbn in *. congruence.
  - by rewrite Hst.
  - intros H. destruct adv_owned0 as [H1 H2]; [done|]. split; [done|]. rewrite H2. exact (Hf _ sLaunchTreeID).
  - intros H. destruct adv_outcome0 as [Ho H2]; [done|]. split; [|done].
    unfold outcome in *; cbn. injection Ho as -> -> -> -> -> ->.
    pose proof (Hf _ sStatus) as H3. pose proof (Hf _ sError) as H4. pose proof (Hf _ sErrorCode) as H5.
    pose proof (Hf _ sErrorHint) as H6. pose proof (Hf _ sErrorContext) as H7. cbn in *. congruence.
Qed.

(** *** Every function of the locked update *)

Lemma Terminal_false st : st ∈ statuses -> Terminal st = false -> st = StatusPending \/ st = StatusRunning.
Proof.
  intros H. assert (st = StatusPending \/ st = StatusRunning \/ st = StatusSucceeded \/ st = StatusFailed)
    as [-> | [-> | [-> | ->]]] by (unfold statuses in H; set_solver); auto; discriminate.
Qed.

(** A change keeps the task well-formed and is one of its life. *)
Definition lives (id : string) (s s' : State) : Prop := wf id s' /\ advances s s'.

Lemma lives_refl id s : wf id s -> lives id s s.
Proof. split; [done|reflexivity]. Qed.

(** The end of a task that is not over. *)
Ltac life_start H :=
  let Hid := fresh "Hid" in let Hst := fresh "Hst" in let Hproc := fresh "Hproc" in
  destruct (H) as [Hid Hst Hproc Hready Hproto Hpend Hrproto Howned Hcancel Hresult Hsuccess].
Ltac life_solve :=
  split; constructor; unfold processFields, outcome, Canceled in *; cbn in *;
  try solve [auto | done | intros; eauto | intros; simplify_eq/=; auto; congruence
    | match goal with Hc : sCancelRequested _ = true -> _ |- _ =>
        let H1 := fresh in let H2 := fresh in intros H1 H2; destruct (Hc H1 H2); auto end].

Lemma finishLaunch_lives id s : wf id s -> lives id s (setLaunchPending false s).
Proof. intros Hw. life_start Hw. life_solve. Qed.
Lemma setWorkspace_lives id v s : wf id s -> lives id s (setWorkspace v s).
Proof. intros Hw. life_start Hw. life_solve. Qed.
Lemma setProcessRef_lives id ref s : wf id s -> 0 < rPID ref -> lives id s (setProcessRef ref s).
Proof. intros Hw Hp. life_start Hw. life_solve. Qed.
Lemma requestCancel_lives id s : wf id s -> Terminal (sStatus s) = false -> lives id s (setCancelRequested true s).
Proof. intros Hw Ht. life_start Hw. life_solve. Qed.
Lemma cleanupComplete_lives id s : wf id s -> lives id s (setCleanupComplete true s).
Proof. intros Hw. life_start Hw. life_solve. Qed.
Lemma markLaunchCleanupPending_lives id s : wf id s -> lives id s (markLaunchCleanupPending s).
Proof.
  intros Hw. unfold markLaunchCleanupPending. destruct (_ && _) eqn:Hc; [|by apply lives_refl].
  apply andb_true_iff in Hc as [Hp%Z.eqb_eq _]. life_start Hw. life_solve.
Qed.
Lemma lives_trans id s1 s2 s3 : lives id s1 s2 -> lives id s2 s3 -> lives id s1 s3.
Proof. intros [_ H1] [Hw H2]. split; [done|by etransitivity]. Qed.

(** The end of a task that is not over. *)
Lemma end_lives id s m c h ctx :
  wf id s -> Terminal (sStatus s) = false ->
  (sCancelRequested s = true -> c = CodeCanceled /\ sProcessCleanupComplete s = true) ->
  lives id s (setFailure m c h ctx (setStatus StatusFailed s)).
Proof.
  intros Hw Ht Hcr. assert (Hres : sResult s = None).
  { destruct (sResult s) eqn:Hr; [|done]. rewrite (wf_result _ _ Hw) in Ht by by rewrite Hr. done. }
  life_start Hw. life_solve.
  - unfold statuses. set_solver.
  - intros Hc _. destruct (Hcr Hc) as [-> Hp]. done.
  - rewrite Hres. by intros [].
Qed.
Lemma markCanceled_lives id s :
  wf id s -> Terminal (sStatus s) = false -> sProcessCleanupComplete s = true -> lives id s (markCanceled s).
Proof. intros Hw Ht Hc. by apply end_lives. Qed.
Lemma succeed_lives id s r :
  wf id s -> Terminal (sStatus s) = false -> sCancelRequested s = false ->
  lives id s (setFailure "" "" "" ∅ (setResult r (setStatus StatusSucceeded s))).
Proof. intros Hw Ht Hcr. life_start Hw. life_solve. unfold statuses. set_solver. Qed.
(** Progress of a task that is neither over nor being canceled. *)
Lemma progress_lives id s ph st op par :
  wf id s -> Terminal (sStatus s) = false -> lives id s (setProgress ph st op par s).
Proof. intros Hw Ht. life_start Hw. life_solve. Qed.
Lemma running_lives id s :
  wf id s -> Terminal (sStatus s) = false -> lives id s (setStatus StatusRunning s).
Proof.
  intros Hw Ht. assert (Hres : sResult s = None).
  { destruct (sResult s) eqn:Hr; [|done]. rewrite (wf_result _ _ Hw) in Ht by by rewrite Hr. done. }
  life_start Hw. life_solve; [unfold statuses; set_solver|rewrite Hres; by intros []].
Qed.
(** A failure of a phase with a fallback is noted, the task goes on. *)
Lemma recovered_lives id s d m c h ctx :
  wf id s -> Terminal (sStatus s) = false ->
  lives id s (setStatus StatusRunning (setFailure m c h ctx (setDuration d (setStatus StatusFailed s)))).
Proof.
  intros Hw Ht. assert (Hres : sResult s = None).
  { destruct (sResult s) eqn:Hr; [|done]. rewrite (wf_result _ _ Hw) in Ht by by rewrite Hr. done. }
  life_start Hw. life_solve; [unfold statuses; set_solver|rewrite Hres; by intros []].
Qed.
(** A failure of any other phase ends the task. *)
Lemma failed_lives id s d m c h ctx :
  wf id s -> Terminal (sStatus s) = false -> sCancelRequested s = false ->
  lives id s (setFailure m c h ctx (setDuration d (setStatus StatusFailed s))).
Proof.
  intros Hw Ht Hcr. assert (Hd : lives id s (setDuration d s)) by (life_start Hw; life_solve).
  eapply lives_trans; [exact Hd|]. apply (end_lives id (setDuration d s)); [apply Hd|done|].
  cbn. by rewrite Hcr.
Qed.

Section Changes.
Context (redact : string -> string).
Implicit Types (id : string) (s : State).

(** A mutation that lives whatever it stores. *)
Definition vital {R} id (f : Mutation R) : Prop :=
  forall s s' r, wf id s -> f s = (Some s', r) -> lives id s s'.
Lemma vital_always id (f : State -> State) : (forall s, wf id s -> lives id s (f s)) -> vital id (always f).
Proof. intros Hf s s' r Hw [= <- _]. by apply Hf. Qed.

Lemma beginLaunch_vital id : vital id beginLaunchFn.
Proof.
  intros s s' r Hw. unfold beginLaunchFn. destruct (_ || _) eqn:Hc; intros [= <- <-]; [by apply lives_refl|].
  rewrite !orb_false_iff, !negb_false_iff, !Z.eqb_eq in Hc. destruct Hc as [[[Ht Hcr] Hp] Hpid].
  life_start Hw. life_solve.
Qed.
Lemma setProcess_vital id ref : 0 < rPID ref -> vital id (setProcessFn ref).
Proof.
  intros Hp. apply vital_always. intros s Hw.
  eapply lives_trans; [by apply setProcessRef_lives|]. apply finishLaunch_lives.
  by apply setProcessRef_lives.
Qed.
Lemma over_false s : Terminal (sStatus s) || sCancelRequested s = false ->
  Terminal (sStatus s) = false /\ sCancelRequested s = false.
Proof. apply orb_false_iff. Qed.
Lemma succeed_vital id r : vital id (succeedFn r).
Proof.
  apply vital_always. intros s Hw. destruct (_ || _) eqn:Hc; [by apply lives_refl|].
  apply over_false in Hc as [Ht Hcr]. by apply succeed_lives.
Qed.
Lemma failure_vital id c b ctx : vital id (failureFn redact c b ctx).
Proof.
  apply vital_always. intros s0 Hw0. cbv zeta. set (s := if b then markLaunchCleanupPending s0 else s0).
  assert (Hs : lives id s0 s) by (subst s; destruct b; [by apply markLaunchCleanupPending_lives|by apply lives_refl]).
  eapply lives_trans; [exact Hs|]. destruct Hs as [Hw _]. clearbody s. clear s0 Hw0.
  destruct (_ || _) eqn:Hc; [by apply lives_refl|]. apply over_false in Hc as [Ht Hcr].
  destruct c as [c|]; apply end_lives; rewrite ?Hcr; done.
Qed.
Lemma requestCancel_vital id : vital id requestCancelFn.
Proof.
  intros s s' r Hw. unfold requestCancelFn. destruct (Terminal _) eqn:Ht; intros [= <- <-];
    [by apply lives_refl|by apply requestCancel_lives].
Qed.
Lemma finalize_vital id : vital id finalizeCanceledFn.
Proof.
  apply vital_always. intros s Hw. destruct (_ && _) eqn:Hc; [|by apply lives_refl].
  apply andb_true_iff in Hc as [Ht%negb_true_iff Hcr].
  assert (H1 : lives id s (setCleanupComplete true (setLaunchPending false s))).
  { eapply lives_trans; [by apply finishLaunch_lives|]. apply cleanupComplete_lives. by apply finishLaunch_lives. }
  eapply lives_trans; [exact H1|]. apply (markCanceled_lives id (setCleanupComplete true (setLaunchPending false s)));
    [apply H1|done|done].
Qed.
Lemma report_vital id e : vital id (reportFn redact e).
Proof.
  apply vital_always. intros s Hw. destruct (_ || _) eqn:Hc; [by apply lives_refl|].
  apply over_false in Hc as [Ht Hcr]. cbv zeta. set (s1 := setProgress _ _ _ _ s).
  assert (H1 : lives id s s1) by by apply progress_lives.
  assert (Ht1 : Terminal (sStatus s1) = false) by done. assert (Hcr1 : sCancelRequested s1 = false) by done.
  eapply lives_trans; [exact H1|]. destruct H1 as [Hw1 _]. clearbody s1.
  destruct (bool_decide _).
  - destruct (recoverableFailure _), (evError e) as [i|].
    + by apply recovered_lives.
    + by apply (recovered_lives _ s1 (Z.quot (evDuration e) 1000000) (sError s1) (sErrorCode s1) (sErrorHint s1) (sErrorContext s1)).
    + by apply failed_lives.
    + by apply (failed_lives _ s1 (Z.quot (evDuration e) 1000000) (sError s1) (sErrorCode s1) (sErrorHint s1) (sErrorContext s1)).
  - destruct (bool_decide _); [by apply running_lives|by apply lives_refl].
Qed.
Lemma prepare_vital id tree : vital id (prepareOwnershipFn tree).
Proof.
  intros s s' r Hw. unfold prepareOwnershipFn, acceptsLaunch. destruct (_ || _) eqn:Hc; intros [= <- <-];
    [by apply lives_refl|].
  rewrite orb_false_iff, negb_false_iff, !andb_true_iff, Z.eqb_eq in Hc.
  destruct Hc as [[[[Hp _] _] _] Ho]. life_start Hw. life_solve.
Qed.
Lemma publish_vital id ref : 0 < rPID ref -> vital id (publishProcessFn ref).
Proof.
  intros Hp s s' r Hw. unfold publishProcessFn. destruct (_ || _); intros [= <- <-];
    [by apply lives_refl|by apply setProcessRef_lives].
Qed.
Lemma ready_vital id pid identity : vital id (workerReadyFn pid identity).
Proof.
  intros s s' r Hw. unfold workerReadyFn, acceptsLaunch. destruct (_ || _) eqn:Hc; intros [= <- <-];
    [by apply lives_refl|].
  rewrite !orb_false_iff, !negb_false_iff, !andb_true_iff, !Z.eqb_eq, bool_decide_eq_false,
    bool_decide_eq_true in Hc.
  destruct Hc as [[[[[[Hp _] _] _] _] Hne] Heq].
  assert (Hproc : is_Some (sProcess s)).
  { pose proof (wf_process _ _ Hw) as H. unfold processFields in H. destruct (sProcess s); [done|].
    destruct H as [_ H]. congruence. }
  life_start Hw. life_solve.
Qed.
Lemma commit_vital id : vital id commitLaunchFn.
Proof.
  intros s s' r Hw. unfold commitLaunchFn. destruct (_ || _); [done|]. destruct (negb _); [done|].
  intros [= <- <-]. by apply finishLaunch_lives.
Qed.
Lemma abandon_vital id b : vital id (finishAbandonedFn b).
Proof.
  apply vital_always. intros s Hw. destruct (_ && _); [by apply lives_refl|]. cbv zeta.
  set (s1 := setCleanupComplete true (setLaunchPending false s)).
  assert (H1 : lives id s s1).
  { eapply lives_trans; [by apply finishLaunch_lives|]. apply cleanupComplete_lives. by apply finishLaunch_lives. }
  assert (Hc : sProcessCleanupComplete s1 = true) by done. clearbody s1.
  eapply lives_trans; [exact H1|]. destruct H1 as [Hw1 _].
  destruct (Terminal _) eqn:Ht; [by apply lives_refl|].
  destruct (sCancelRequested s1) eqn:Hcr; [by apply markCanceled_lives|].
  apply end_lives; rewrite ?Hcr; done.
Qed.

Lemma permitted_vital L id R (f : Mutation R) : permitted redact L id f -> vital id f.
Proof.
  destruct 1; auto using beginLaunch_vital, setProcess_vital, succeed_vital, failure_vital,
    requestCancel_vital, finalize_vital, report_vital, prepare_vital, publish_vital, ready_vital,
    commit_vital, abandon_vital.
  - apply vital_always. apply finishLaunch_lives.
  - apply vital_always. intros. by apply setWorkspace_lives.
  - apply vital_always. apply cleanupComplete_lives.
Qed.

(** The state stored after a permitted change. *)
Lemma permitted_stored L id R (f : Mutation R) s s' r now :
  taskOK id s -> coerceUTF8 id = id -> permitted redact L id f -> f s = (Some s', r) ->
  taskOK id (cleanState (touch now s')) /\ advances s (cleanState (touch now s')).
Proof.
  intros [Hw Hc] Hid Hf Hs. destruct (permitted_vital _ _ _ _ Hf _ _ _ Hw Hs) as [Hw' Ha].
  split; [split; [by apply wf_clean|apply cleanState_idem]|by eapply advances_clean].
Qed.
End Changes.

Lemma initialState_ok id opts launch now :
  coerceUTF8 id = id -> taskOK id (cleanState (initialState id opts launch now)).
Proof.
  intros Hid. split; [|apply cleanState_idem].
  assert (Hw : wf id (initialState id opts launch now)).
  { unfold initialState. destruct launch; constructor; unfold processFields; cbn; try done; auto;
      try (unfold statuses; set_solver); by intros []. }
  exact (wf_clean id _ (sUpdatedAt (initialState id opts launch now)) Hid Hw).
Qed.
