(* ===== verification/TaskSystem.v ===== *)
(** Several processes working on one task store: each runs operations of
    src/pkg/task one atomic step at a time, in any order, and may die. *)
From S2P Require Import Prelude GoStd GoText Clierr TaskState TaskProg TaskStore TaskLocks TaskLife.

Section Clients.
Context (redact : string -> string).

(** The exported operations. *)
Inductive operation : forall {A}, Prog A -> Prop :=
| op_create opts launch : operation (create opts launch)
| op_RunID t : operation (RunID t)
| op_BeginLaunch t : operation (BeginLaunch t)
| op_FinishLaunch t : operation (FinishLaunch t)
| op_SetProcess t ref : operation (SetProcess t ref)
| op_SetPID t pid : operation (SetPID t pid)
| op_SetWorkspaceID t v : operation (SetWorkspaceID t v)
| op_HoldWorkerLock t : operation (HoldWorkerLock t)
| op_ReleaseWorkerLock t : operation (ReleaseWorkerLock t)
| op_LauncherAlive t : operation (LauncherAlive t)
| op_Succeed t r : operation (Succeed t r)
| op_Report t e : operation (Report redact t e)
| op_Fail t e : operation (Fail redact t e)
| op_CancelContext ctx t : operation (CancelContext ctx t)
| op_PrepareProcessOwnership t tree : operation (PrepareProcessOwnership t tree)
| op_PublishProcess t ref : operation (PublishProcess t ref)
| op_WorkerLaunchReady t pid : operation (WorkerLaunchReady t pid)
| op_CommitLaunch ctx t : operation (CommitLaunch ctx t)
| op_FailLaunch t e : operation (FailLaunch redact t e)
| op_Get id : operation (step (Get id))
| op_Abandoned s : operation (Abandoned s)
| op_ReconcileTask id : operation (ReconcileTask redact id)
| op_ReconcileState s : operation (ReconcileState redact s)
| op_CleanupExitedWorkerTree id : operation (CleanupExitedWorkerTree id)
| op_CleanupCanceledWorkerTree ctx id : operation (CleanupCanceledWorkerTree ctx id)
| op_WaitForWorkerObservation ctx id : operation (WaitForWorkerObservation ctx id)
| op_Delete ctx id force : operation (Delete ctx id force)
| op_List : operation List
| op_ForWorkspace w c : operation (ForWorkspace w c)
| op_ActiveForWorkspace w c : operation (ActiveForWorkspace w c).

(** A process: operations one after the other, each chosen from the results of
    those before. *)
Inductive client : Prog unit -> Prop :=
| client_done : client (Ret tt)
| client_call A (op : Prog A) k :
    operation op -> (forall a, client (k a)) -> client (pbind op k).

Abbreviation keeps := (keeps redact).
Abbreviation safe := (safe redact).
Abbreviation anywhere := (fun _ _ => True).

#[local] Hint Resolve BeginLaunch_keeps SetProcess_keeps PublishProcess_keeps CommitLaunch_keeps
  recordFailure_keeps CancelContext_keeps ReconcileTask_keeps ReconcileState_keeps Abandoned_keeps
  CleanupExitedWorkerTree_keeps CleanupCanceledWorkerTree_keeps WaitForWorkerObservation_keeps
  Delete_keeps create_safe update_keeps releaseLauncherLock_keeps reconcileLaunch_keeps : tasks.
#[local] Hint Extern 4 (_ ∈ _) => (unfold taskLocks; set_solver) : tasks.

Lemma listEach_keeps ls L ids : keeps ls L (listEach ids).
Proof.
  revert L. induction ids as [|id ids IH]; intros L; cbn [listEach]; keeps_tac; eauto.
Qed.

Lemma List_keeps ls L : keeps ls L List.
Proof. unfold List. keeps_tac. apply keeps_bind; [apply listEach_keeps|intros; keeps_tac]. Qed.
Lemma ForWorkspace_keeps ls L w c : keeps ls L (ForWorkspace w c).
Proof. unfold ForWorkspace, pebind. apply keeps_bind; [apply List_keeps|intros; keeps_tac]. Qed.
Lemma FinishLaunch_keeps L t : keeps (taskLocks (tkID t)) L (FinishLaunch t).
Proof. unfold FinishLaunch, taskLocks. keeps_tac. Qed.
#[local] Hint Resolve List_keeps ForWorkspace_keeps FinishLaunch_keeps : tasks.

Lemma operation_safe A (op : Prog A) : operation op -> forall L, safe L op anywhere.
Proof.
  destruct 1; intros L; try exact (create_safe _ _ _ _);
    first [apply (keeps_safe redact ∅); solve [eauto with tasks]
          |match goal with t : Task |- _ => apply (keeps_safe redact (taskLocks (tkID t))) end
          |match goal with id : string |- _ => apply (keeps_safe redact (taskLocks id)) end
          |match goal with s : State |- _ => apply (keeps_safe redact (taskLocks (sID s))) end
          |apply (keeps_safe redact ∅)];
    try solve [eauto with tasks].
  all: unfold RunID, SetPID, SetWorkspaceID, HoldWorkerLock, ReleaseWorkerLock, LauncherAlive,
    tryLauncherLock, tryWorkerLock, tryLock, Succeed, Report, PrepareProcessOwnership,
    WorkerLaunchReady, FailLaunch, ActiveForWorkspace.
  all: keeps_tac.
Qed.
Lemma client_safe p : client p -> forall L, safe L p anywhere.
Proof.
  induction 1 as [|A op k Hop _ IH]; intros L; [done|].
  eapply safe_bind; [by apply operation_safe|]. cbn. intros a M _. apply IH.
Qed.
End Clients.

(** ** The system *)

Section System.
Context {OS : Type} `{Processes OS} `{TaskEnv} (redact : string -> string).
Implicit Types (w : TW OS) (id : string) (L : locks).

(** The shared world, every process with the program it still has to run, and
    the identifiers of the tasks ever created. *)
Record System := mkSystem {
  sysWorld : TW OS;
  sysProgs : gmap nat (Prog unit);
  sysIDs : gset string;
}.

(** What the environment decides before a step: failures, the passing of time,
    the state of the processes. *)
Definition environ (faults : list bool) (ticks : list Z) (os : OS) (w : TW OS) : TW OS :=
  mkTW (tFiles w) (tHeld w) (tLockFiles w) faults (tClock w) ticks (tIDs w) os.

(** The identifier drawn for a new task is text and was never drawn before. *)
Definition fresh {X} (st : Step X) (ids : gset string) : Prop :=
  match st with Create id _ => id ∉ ids /\ coerceUTF8 id = id | _ => True end.
Definition drawn {X} (st : Step X) (ids : gset string) : gset string :=
  match st with Create id _ => {[id]} ∪ ids | _ => ids end.

(** The process [me] starts, takes its next step, or dies, which releases its
    locks. *)
Definition release (me : nat) (held : gmap string nat) : gmap string nat :=
  filter (fun h : string * nat => h.2 <> me) held.
Inductive sysStep (me : nat) : System -> System -> Prop :=
| sys_start w ps ids p :
    ps !! me = None -> client redact p -> sysStep me (mkSystem w ps ids) (mkSystem w (<[me := p]> ps) ids)
| sys_step w ps ids X (st : Step X) k faults ticks os w' x :
    ps !! me = Some (Do st k) -> fresh st ids ->
    exec me st (environ faults ticks os w) = (w', x) ->
    sysStep me (mkSystem w ps ids) (mkSystem w' (<[me := k x]> ps) (drawn st ids))
| sys_die w ps ids :
    sysStep me (mkSystem w ps ids)
      (mkSystem (setHeld (release me (tHeld w)) (tLockFiles w) w) (delete me ps) ids).

Definition anyStep (S S' : System) : Prop := exists me, sysStep me S S'.

(** A store nobody has used yet. *)
Definition emptyStore (S : System) : Prop :=
  tFiles (sysWorld S) = ∅ /\ tHeld (sysWorld S) = ∅ /\ sysProgs S = ∅.
Definition reachable (S : System) : Prop := exists S0, emptyStore S0 /\ rtc anyStep S0 S.

(** ** One step *)

(** The locks of a process. *)
Definition heldBy (me : nat) w : locks := dom (filter (fun h : string * nat => h.2 = me) (tHeld w)).
Lemma elem_of_heldBy path me w : path ∈ heldBy me w <-> tHeld w !! path = Some me.
Proof.
  unfold heldBy. rewrite elem_of_dom. split.
  - intros [q Hq]. apply map_lookup_filter_Some in Hq as [Hq Hm]. cbn in Hm. by subst.
  - intros Hp. exists me. by apply map_lookup_filter_Some.
Qed.

(** How a step of a process with the locks [L] that draws the identifiers [D]
    changes the file of [id]. *)
Inductive change L (D : gset string) id : option taskFile -> option taskFile -> Prop :=
| unchanged f : change L D id f f
| created opts launch now :
    id ∈ D -> coerceUTF8 id = id ->
    change L D id None (Some (Stored (cleanState (initialState id opts launch now))))
| updated R (f : Mutation R) s s' r now :
    permitted redact L id f -> f s = (Some s', r) ->
    change L D id (Some (Stored s)) (Some (Stored (cleanState (touch now s'))))
| removed force s : checkDeletion force s = None -> change L D id (Some (Stored s)) None.

(** Every stored file is a well-formed state of a task that was created. *)
Definition filesOK w (ids : gset string) : Prop :=
  forall id f, tFiles w !! id = Some f ->
    exists s, f = Stored s /\ taskOK id s /\ id ∈ ids /\ coerceUTF8 id = id.

Lemma readState_ok w ids id s :
  filesOK w ids -> readState w id = inr s ->
  tFiles w !! id = Some (Stored s) /\ taskOK id s /\ id ∈ ids /\ coerceUTF8 id = id.
Proof.
  intros Hf. unfold readState. destruct (validTaskID id); [|done]. cbn.
  destruct (tFiles w !! id) as [f|] eqn:Hid; [|done]. destruct (Hf _ _ Hid) as (s' & -> & Hs).
  intros [= <-]. done.
Qed.

(** *** Locks *)

Lemma exec_locks me X (st : Step X) w w' x :
  exec me st w = (w', x) ->
  tHeld w' =
    match st in Step X' return X' -> gmap string nat with
    | TryLock path => fun r => match r with inr true => <[path := me]> (tHeld w) | _ => tHeld w end
    | Unlock path => fun _ => if decide (tHeld w !! path = Some me) then delete path (tHeld w) else tHeld w
    | _ => fun _ => tHeld w
    end x.
Proof.
  destruct st; cbn [exec]; unfold execUpdate, execRead, execTryLock, fault, timeNow, storeState; cbn;
    intros Hx; repeat case_match; simplify_eq/=; done.
Qed.
Lemma exec_trylock me path w w' : exec me (TryLock path) w = (w', inr true) -> tHeld w !! path = None.
Proof.
  cbn [exec]. unfold execTryLock, fault. cbn. destruct (default false _); [done|].
  destruct (tHeld w !! path); [done|done].
Qed.
Lemma exec_held me X (st : Step X) w w' x :
  exec me st w = (w', x) -> heldBy me w' = after st x (heldBy me w).
Proof.
  intros Hx. pose proof (exec_locks _ _ _ _ _ _ Hx) as Hl. apply set_eq. intros path.
  rewrite elem_of_heldBy. destruct st; cbn [after] in *; rewrite Hl, ?elem_of_heldBy; try done.
  - destruct x as [e|[]]; [by rewrite elem_of_heldBy| |by rewrite elem_of_heldBy].
    rewrite elem_of_union, elem_of_singleton, elem_of_heldBy, lookup_insert_Some.
    pose proof (exec_trylock _ _ _ _ Hx). destruct (decide (path0 = path)) as [->|]; naive_solver.
  - rewrite elem_of_difference, elem_of_singleton, elem_of_heldBy.
    case_decide; rewrite ?lookup_delete_Some; naive_solver.
Qed.
Lemma exec_held_other me q X (st : Step X) w w' x :
  exec me st w = (w', x) -> q <> me -> heldBy q w' = heldBy q w.
Proof.
  intros Hx Hq. pose proof (exec_locks _ _ _ _ _ _ Hx) as Hl. apply set_eq. intros path.
  rewrite !elem_of_heldBy. destruct st; cbn [after] in *; rewrite Hl; try done.
  - destruct x as [e|[]]; [done| |done]. pose proof (exec_trylock _ _ _ _ Hx).
    rewrite lookup_insert_Some. naive_solver.
  - case_decide; rewrite ?lookup_delete_Some; naive_solver.
Qed.

(** *** Files *)

Lemma exec_possible me X (st : Step X) w w' x ids :
  filesOK w ids -> exec me st w = (w', x) -> possible st x.
Proof.
  intros Hf. destruct st; cbn [possible]; try done; cbn [exec]; unfold execRead, fault; cbn;
    (destruct (default false _); intros [= <- <-]; [done|]); destruct (readState _ id) as [|s] eqn:Hr; try done;
    eapply (readState_ok _ ids) in Hr; [apply Hr|done|apply Hr|done].
Qed.

(** Replacing one file. *)
Lemma change_insert L D id f w id' :
  (id' = id -> change L D id (tFiles w !! id) (Some f)) ->
  change L D id' (tFiles w !! id') (<[id := f]> (tFiles w) !! id').
Proof.
  intros Hc. destruct (decide (id' = id)) as [->|Hne]; [rewrite lookup_insert_eq; auto|].
  rewrite lookup_insert_ne by done. constructor.
Qed.

Lemma execUpdate_change me R id (f : Mutation R) w w' x ids D id' :
  filesOK w ids -> permitted redact (heldBy me w) id f -> execUpdate id f w = (w', x) ->
  change (heldBy me w) D id' (tFiles w !! id') (tFiles w' !! id').
Proof.
  intros Hf Hp. unfold execUpdate, fault. cbn. destruct (default false _); [intros [= <- _]; constructor|].
  destruct (readState _ id) as [e|s] eqn:Hr; [intros [= <- _]; constructor|].
  destruct (readState_ok _ ids _ _ Hf Hr) as (Hs & Hok & _ & Hid).
  destruct (f s) as [[s'|] r] eqn:Hfs; [|intros [= <- _]; constructor].
  destruct (permitted_stored redact _ _ _ _ _ _ _ 0 Hok Hid Hp Hfs) as [[Hw _] _].
  unfold timeNow. cbn. destruct (default false _); [intros [= <- _]; constructor|].
  destruct (negb _); [intros [= <- _]; constructor|]. intros [= <- _]. cbn.
  assert (Hs' : sID s' = id).
  { assert (Hv : vital id f) by (by eapply permitted_vital). by apply (Hv s s' r (proj1 Hok) Hfs). }
  rewrite Hs'. apply change_insert. intros ->. rewrite Hs. by econstructor.
Qed.

Lemma exec_change me X (st : Step X) w w' x ids id :
  filesOK w ids -> fresh st ids -> allowed redact (heldBy me w) st -> exec me st w = (w', x) ->
  change (heldBy me w) (drawn st ∅) id (tFiles w !! id) (tFiles w' !! id).
Proof.
  intros Hf Hfr Ha. destruct st; cbn [exec].
  all: try (unfold execRead, execTryLock, fault; cbn; intros Hx; repeat case_match; simplify_eq/=; constructor).
  - by eapply execUpdate_change.
  - destruct Ha as (opts & launch & -> & _). destruct Hfr as [Hfr Hco]. unfold fault, timeNow. cbn.
    destruct (default false _); [intros [= <- _]; constructor|].
    destruct (negb _); [intros [= <- _]; constructor|]. intros [= <- _]. cbn.
    assert (Hid : sID (initialState id0 opts launch (tClock w + default 0 (head (tTicks w)))) = id0) by by destruct launch.
    rewrite Hid. apply change_insert. intros ->.
    assert (Hnone : tFiles w !! id0 = None).
    { destruct (tFiles w !! id0) as [f|] eqn:Hl; [|done]. destruct (Hf _ _ Hl) as (_ & _ & _ & Hin & _). done. }
    rewrite Hnone. constructor; [cbn; set_solver|done].
  - destruct Ha as [force ->]. unfold fault. cbn. destruct (default false _); [intros [= <- _]; constructor|].
    destruct (readState _ id0) as [e|s] eqn:Hr; [intros [= <- _]; constructor|].
    destruct (readState_ok _ ids _ _ Hf Hr) as (Hs & _).
    destruct (checkDeletion force s) eqn:Hcd; [intros [= <- _]; constructor|]. cbn.
    destruct (default false _); [intros [= <- _]; constructor|]. intros [= <- _]. cbn.
    destruct (decide (id = id0)) as [->|Hne]; [|rewrite lookup_delete_ne by done; constructor].
    rewrite lookup_delete_eq. cbn in Hs. rewrite Hs. by econstructor.
Qed.

(** ** The invariant *)

Definition Inv (S : System) : Prop :=
  filesOK (sysWorld S) (sysIDs S) /\
  forall me p, sysProgs S !! me = Some p -> safe redact (heldBy me (sysWorld S)) p (fun _ _ => True).

Lemma heldBy_die me q w :
  q <> me -> heldBy q (setHeld (release me (tHeld w)) (tLockFiles w) w) = heldBy q w.
Proof.
  intros Hq. apply set_eq. intros path. rewrite !elem_of_heldBy. cbn. unfold release.
  rewrite map_lookup_filter_Some. naive_solver.
Qed.

Lemma change_filesOK L w w' ids D :
  filesOK w ids -> (forall id, change L D id (tFiles w !! id) (tFiles w' !! id)) -> filesOK w' (D ∪ ids).
Proof.
  intros Hf Hc id f Hid. specialize (Hc id). rewrite Hid in Hc.
  remember (tFiles w !! id) as old eqn:Hold. remember (Some f) as new eqn:Hnew. symmetry in Hold.
  destruct Hc as [f'|opts launch now Hin Hco|R g s s' r now Hg Hgs|force s]; simplify_eq.
  - destruct (Hf id f) as (s & -> & ? & ? & ?); [congruence|].
    eexists. split_and!; [done|done|set_solver|done].
  - eexists. split_and!; [done|by apply initialState_ok|set_solver|done].
  - destruct (Hf id (Stored s)) as (s0 & [= <-] & Hok & Hin & Hid'); [congruence|].
    eexists. split_and!; [done| |set_solver|done]. by eapply permitted_stored.
Qed.

Lemma drawn_union X (st : Step X) ids : drawn st ids = drawn st ∅ ∪ ids.
Proof. destruct st; cbn; set_solver. Qed.

(** A step changes every file as the locks of the process that takes it allow. *)
Record stepped (S S' : System) (me : nat) (D : gset string) : Prop := {
  st_ids : sysIDs S' = D ∪ sysIDs S;
  st_new : D ## sysIDs S;
  st_change id : change (heldBy me (sysWorld S)) D id
    (tFiles (sysWorld S) !! id) (tFiles (sysWorld S') !! id);
}.
Lemma sysStep_change me S S' :
  Inv S -> sysStep me S S' -> Inv S' /\ exists D, stepped S S' me D.
Proof.
  intros [Hf Hs] Hstep. destruct Hstep as [w ps ids p Hme Hp|w ps ids X st k faults ticks os w' x Hme Hfr Hx|w ps ids];
    cbn [sysWorld sysProgs sysIDs] in *.
  - split; [split; [done|]|exists ∅; split; cbn; [set_solver|set_solver|constructor]].
    cbn. intros q p' [[<- <-]|[Hq Hp']]%lookup_insert_Some; [by apply client_safe|by apply Hs].
  - destruct (Hs _ _ Hme) as [Ha Hk]. set (w1 := environ faults ticks os w) in *.
    assert (Hf1 : filesOK w1 ids) by done.
    assert (Hc : forall id, change (heldBy me w) (drawn st ∅) id (tFiles w !! id) (tFiles w' !! id))
      by (intros id; by eapply (exec_change me X st w1)).
    split; [split|exists (drawn st ∅); split; cbn].
    + cbn. rewrite drawn_union. by eapply change_filesOK.
    + cbn [sysProgs sysWorld]. intros q p' [[<- <-]|[Hq Hp']]%lookup_insert_Some.
      * rewrite (exec_held _ _ _ _ _ _ Hx). apply Hk. by eapply exec_possible.
      * rewrite (exec_held_other _ _ _ _ _ _ _ Hx) by done. by apply Hs.
    + apply drawn_union.
    + destruct st; cbn in *; set_solver.
    + exact Hc.
  - split; [split; [done|]|exists ∅; split; cbn; [set_solver|set_solver|constructor]].
    cbn. intros q p' [Hq Hp']%lookup_delete_Some. rewrite heldBy_die by done. by apply Hs.
Qed.
Lemma reachable_Inv S : reachable S -> Inv S.
Proof.
  intros (S0 & (Hf & Hh & Hp) & Hsteps).
  assert (Hinit : Inv S0).
  { split; [intros id f; by rewrite Hf, lookup_empty|intros me p; by rewrite Hp, lookup_empty]. }
  clear Hf Hh Hp. induction Hsteps as [|S1 S2 S3 [me Hstep] _ IH]; [done|].
  apply IH. by eapply sysStep_change.
Qed.
End System.
