(* ===== verification/TaskSafety.v ===== *)
(** What no interleaving of processes, no failing call and no dying process can
    do to the tasks of a store. *)
From S2P Require Import Prelude GoStd GoText Clierr TaskState TaskProg TaskStore TaskLocks TaskLife TaskSystem.

Section Safety.
Context {OS : Type} `{Processes OS} `{TaskEnv} (redact : string -> string).
Implicit Types (S : System (OS := OS)) (id : string).
Abbreviation reachable := (reachable redact).
Abbreviation sysStep := (sysStep redact).
Abbreviation anyStep := (anyStep redact).

(** The file of a task in a state of the system. *)
Definition stored S id : option taskFile := tFiles (sysWorld S) !! id.

(** C13: Whatever processes run on a new store, in whatever order, with whatever
    failures and deaths, no task file is ever damaged, and every stored state is
    a well-formed state of its task: known status, process fields that agree,
    readiness only of a published process, a result only with success, success
    without an error, and a requested cancellation that ended the task ended it
    as canceled with its process tree cleaned up. *)
Theorem tasks_wellformed S id f :
  reachable S -> stored S id = Some f -> exists s, f = Stored s /\ taskOK id s.
Proof. intros HS Hf. destruct (proj1 (reachable_Inv _ _ HS) _ _ Hf) as (s & ? & ? & _). eauto. Qed.

(** *** One step of a stored task *)

Lemma step_stored me S S' id s :
  Inv redact S -> sysStep me S S' -> stored S id = Some (Stored s) ->
  stored S' id = None \/ exists s', stored S' id = Some (Stored s') /\ advances s s'.
Proof.
  intros HI Hstep Hs. destruct (sysStep_change _ _ _ _ HI Hstep) as [_ (D & [_ _ Hc])].
  specialize (Hc id). unfold stored in *. rewrite Hs in Hc.
  destruct (proj1 HI _ _ Hs) as (s0 & [= <-] & Hok & _ & Hco).
  remember (Some (Stored s)) as old eqn:Hold. remember (tFiles (sysWorld S') !! id) as new eqn:Hnew.
  destruct Hc as [f'|opts launch now Hin Hid|R g s1 s' r now Hg Hgs|force s1]; simplify_eq; [|right..|by left].
  - right. exists s. split; [done|reflexivity].
  - eexists. split; [done|]. by eapply permitted_stored.
Qed.
Lemma step_gone me S S' id :
  Inv redact S -> sysStep me S S' -> id ∈ sysIDs S -> stored S id = None -> stored S' id = None.
Proof.
  intros HI Hstep Hin Hs. destruct (sysStep_change _ _ _ _ HI Hstep) as [_ (D & [_ Hnew Hc])].
  specialize (Hc id). unfold stored in *. rewrite Hs in Hc. inversion Hc; [done|set_solver].
Qed.
Lemma step_ids me S S' : Inv redact S -> sysStep me S S' -> sysIDs S ⊆ sysIDs S'.
Proof.
  intros HI Hstep. destruct (sysStep_change _ _ _ _ HI Hstep) as [_ (D & [-> _ _])]. set_solver.
Qed.
Lemma steps_gone S S' id :
  Inv redact S -> rtc anyStep S S' -> id ∈ sysIDs S -> stored S id = None -> stored S' id = None.
Proof.
  intros HI Hsteps. revert HI. induction Hsteps as [S|S S1 S' [me Hstep] _ IH]; intros HI Hin Hs; [done|].
  pose proof (step_ids _ _ _ HI Hstep). apply IH; [by eapply sysStep_change|set_solver|].
  by eapply step_gone.
Qed.
Lemma steps_stored S S' id s :
  Inv redact S -> rtc anyStep S S' -> id ∈ sysIDs S -> stored S id = Some (Stored s) ->
  stored S' id = None \/ exists s', stored S' id = Some (Stored s') /\ advances s s'.
Proof.
  intros HI Hsteps. revert s HI. induction Hsteps as [S|S S1 S' [me Hstep] Hsteps IH]; intros s HI Hin Hs.
  { right. exists s. split; [done|reflexivity]. }
  assert (HI1 : Inv redact S1) by by eapply sysStep_change.
  assert (Hin1 : id ∈ sysIDs S1) by (pose proof (step_ids _ _ _ HI Hstep); set_solver).
  destruct (step_stored _ _ _ _ _ HI Hstep Hs) as [Hn|(s1 & Hs1 & Ha)].
  - left. by eapply steps_gone.
  - destruct (IH s1 HI1 Hin1 Hs1) as [|(s' & Hs' & Ha')]; [by left|].
    right. exists s'. split; [done|by etransitivity].
Qed.

(** C14: Once a task is over its outcome is final: however the processes go on,
    as long as its file is there it shows the same status, error, code, hint,
    context and result, and its cancellation is neither requested nor withdrawn;
    and a task whose cancellation was requested before it was over can only end
    as canceled, after its process tree was cleaned up. *)
Theorem outcome_final S S' id s s' :
  reachable S -> rtc anyStep S S' ->
  stored S id = Some (Stored s) -> stored S' id = Some (Stored s') ->
  (Terminal (sStatus s) = true -> outcome s' = outcome s /\ sCancelRequested s' = sCancelRequested s) /\
  (sCancelRequested s = true -> Terminal (sStatus s') = true ->
     Canceled s' = true /\ sProcessCleanupComplete s' = true).
Proof.
  intros HS Hsteps Hs Hs'. pose proof (reachable_Inv _ _ HS) as HI.
  assert (HI' : Inv redact S').
  { apply reachable_Inv. destruct HS as (S0 & He & Hr). exists S0. split; [done|by etransitivity]. }
  destruct (proj1 HI _ _ Hs) as (s0 & [= <-] & _ & Hin & _).
  destruct (steps_stored _ _ _ _ HI Hsteps Hin Hs) as [Hn|(s1 & Hs1 & Ha)]; [congruence|].
  rewrite Hs1 in Hs'. injection Hs' as ->. split; [by apply adv_outcome|].
  intros Hc. apply (adv_cancel _ _ Ha) in Hc.
  destruct (proj1 HI' _ _ Hs1) as (s0 & [= <-] & [Hw _] & _). by eapply wf_cancel.
Qed.

Lemma permitted_cleanup L id R (f : Mutation R) s s' r :
  permitted redact L id f -> f s = (Some s', r) ->
  sProcessCleanupComplete s = false -> sProcessCleanupComplete s' = true -> workerGone L id \/ launcher L id.
Proof.
  intros Hf Hfs Hb Ha. destruct Hf; auto; exfalso; revert Ha Hb Hfs.
  all: unfold beginLaunchFn, finishLaunchFn, setProcessFn, setWorkspaceIDFn, succeedFn, failureFn,
    requestCancelFn, reportFn, prepareOwnershipFn, publishProcessFn, workerReadyFn, commitLaunchFn, always,
    markLaunchCleanupPending.
  all: intros Ha Hb Hfs; repeat case_match; simplify_eq/=; congruence.
Qed.

(** C15: The cleanup of a task's process tree is recorded only in a step of a
    process that holds the worker's lock or the reconciliation lock of the task
    (so no worker runs) or its launcher's lock (so none was released to work). *)
Theorem cleanup_under_lock me S S' id s s' :
  reachable S -> sysStep me S S' ->
  stored S id = Some (Stored s) -> stored S' id = Some (Stored s') ->
  sProcessCleanupComplete s = false -> sProcessCleanupComplete s' = true ->
  exists path, path ∈ [workerLockPath id; reconcileLockPath id; launcherLockPath id] /\
    tHeld (sysWorld S) !! path = Some me.
Proof.
  intros HS Hstep Hs Hs' Hb Ha. destruct (sysStep_change _ _ _ _ (reachable_Inv _ _ HS) Hstep) as [_ (D & [_ _ Hc])].
  specialize (Hc id). unfold stored in *. rewrite Hs, Hs' in Hc.
  inversion Hc as [| |R f s1 s2 r now Hf Hfs|]; simplify_eq; [congruence|].
  assert (Hl : workerGone (heldBy me (sysWorld S)) id \/ launcher (heldBy me (sysWorld S)) id)
    by (by eapply permitted_cleanup).
  unfold workerGone, launcher in Hl. rewrite !elem_of_heldBy in Hl.
  destruct Hl as [[Hl|Hl]|Hl]; (eexists; split; [|exact Hl]); set_solver.
Qed.

(** A task file disappears only when nothing of the task is left to clean up:
    no launch is pending, and neither an abandoned nor a canceled task still has a
    process tree that was not cleaned up.  Nothing else removes it. *)
Theorem removal_needs_cleanup me S S' id s :
  reachable S -> sysStep me S S' -> stored S id = Some (Stored s) -> stored S' id = None ->
  sLaunchPending s = false /\ NeedsExitedWorkerCleanup s = false /\ NeedsCanceledWorkerCleanup s = false.
Proof.
  intros HS Hstep Hs Hs'. destruct (sysStep_change _ _ _ _ (reachable_Inv _ _ HS) Hstep) as [_ (D & [_ _ Hc])].
  specialize (Hc id). unfold stored in *. rewrite Hs, Hs' in Hc.
  inversion Hc as [| | |force s1 Hd]; simplify_eq. unfold checkDeletion in Hd.
  destruct (_ || _ || _) eqn:Hcd; [done|]. by rewrite !orb_false_iff in Hcd; destruct Hcd as [[-> ->] ->].
Qed.
End Safety.
