(* ===== verification/TaskCancel.v ===== *)
(** Cancelling a task whose worker is gone, run to its end. *)
From S2P Require Import Prelude GoStd GoText Clierr TaskState TaskProg TaskStore TaskLocks TaskLife.

Section Cancel.
Context {OS : Type} `{Processes OS} `{TaskEnv}.
Implicit Types (w : TW OS) (id : string) (s : State).

Lemma run_bind me A B (p : Prog A) (k : A -> Prog B) w :
  run me (pbind p k) w = let '(w', a) := run me p w in run me (k a) w'.
Proof.
  revert w. induction p as [a|X st k' IH]; intros w; cbn; [done|].
  destruct (exec me st w) as [w' x]. apply IH.
Qed.
Lemma run_ebind me A B (p : Prog (goerr + A)) (k : A -> Prog (goerr + B)) w w' a :
  run me p w = (w', inr a) -> run me (pebind p k) w = run me (k a) w'.
Proof. intros Hp. unfold pebind. by rewrite run_bind, Hp. Qed.

(** A world in which no call fails and the task [id] is stored as [s]. *)
Record stands w id s : Prop := {
  sd_calm : tFaults w = [];
  sd_id : validTaskID id = true;
  sd_file : tFiles w !! id = Some (Stored s);
  sd_ok : taskOK id s;
}.

Lemma fault_calm w : tFaults w = [] -> fault w = (w, false).
Proof. destruct w. cbn. intros ->. done. Qed.
Lemma run_get me w id s : stands w id s -> run me (step (Get id)) w = (w, inr s).
Proof.
  intros [Hc Hid Hf _]. cbn [run step exec]. unfold execRead. rewrite fault_calm by done. unfold readState.
  by rewrite Hid, Hf.
Qed.
Lemma run_calm me w : tFaults w = [] -> run me (stepErr CtxErr) w = (w, inr tt).
Proof. intros Hc. unfold stepErr. rewrite run_bind. cbn [run step exec]. by rewrite fault_calm. Qed.

(** The world after a stored update. *)
Definition afterUpdate id s now w : TW OS := 
  mkTW (<[id := Stored s]> (tFiles w)) (tHeld w) (tLockFiles w) [] now (List.tl (tTicks w)) (tIDs w) (tOS w).
Lemma run_update me w id s R (f : Mutation R) s' r :
  stands w id s -> f s = (Some s', r) -> lives id s s' ->
  let now := tClock w + default 0 (head (tTicks w)) in
  coerceUTF8 id = id ->
  let w' := afterUpdate id (cleanState (touch now s')) now w in
  run me (update id f) w = (w', inr r) /\ stands w' id (cleanState (touch now s')).
Proof.
  intros [Hc Hid Hf Hok] Hfs [Hw _] now Hco w'.
  assert (Hs : sID s' = id) by apply Hw. split.
  - cbn [run update step exec]. unfold execUpdate. rewrite fault_calm by done. unfold readState. rewrite Hid, Hf. cbn. rewrite Hfs.
    unfold timeNow, fault. cbn. rewrite Hc. cbn. rewrite Hs, Hid. cbn. unfold storeState. cbn. by rewrite Hs.
  - split; [done|done|cbn; by rewrite lookup_insert_eq|split; [by apply wf_clean|apply cleanState_idem]].
Qed.

(** Locks. *)
Definition locked (path : string) (me : nat) w : TW OS :=
  setHeld (<[path := me]> (tHeld w)) ({[path]} ∪ tLockFiles w) w.
Definition unlocked (path : string) w : TW OS := setHeld (delete path (tHeld w)) (tLockFiles w) w.
Lemma run_tryLock me w id path :
  tFaults w = [] -> validTaskID id = true -> tHeld w !! path = None ->
  run me (tryLock id path) w = (locked path me w, inr true).
Proof.
  intros Hc Hid Hl. unfold tryLock. rewrite Hid. cbn [run step exec]. unfold execTryLock.
  rewrite fault_calm by done. by rewrite Hl.
Qed.
Lemma run_unlock me w path :
  tFaults w = [] -> tHeld w !! path = Some me -> run me (step (Unlock path)) w = (unlocked path w, None).
Proof.
  intros Hc Hl. cbn [run step exec]. rewrite fault_calm by done. by rewrite decide_True.
Qed.
Lemma run_unlocking me A path (body : Prog A) w w' a :
  run me body w = (w', a) -> tFaults w' = [] -> tHeld w' !! path = Some me ->
  run me (unlocking path body) w = (unlocked path w', a).
Proof.
  intros Hb Hc Hl. unfold unlocking. rewrite run_bind, Hb, run_bind, run_unlock by done. done.
Qed.
Lemma stands_held w id s h f : stands w id s -> stands (setHeld h f w) id s.
Proof. by intros []. Qed.
Lemma stands_os w id s os : stands w id s -> stands (setOS os w) id s.
Proof. by intros []. Qed.

(** A change of a flag is stored as it is. *)
Lemma cleanState_flag s s' : cleanState s = s ->
  (exists c p o r k, s' = setCancelRequested c (setLaunchPending p (setCleanupComplete o (setWorkerReady r (touch k s))))) ->
  cleanState s' = s'.
Proof.
  intros Hc (c & p & o & r & k & ->). destruct s; cbn in *. injection Hc. intros. unfold cleanState; cbn. 
  repeat match goal with E : _ = ?x |- _ => is_var x; rewrite E; clear E end. done.
Qed.
Lemma ProcessReference_request s now : cleanState s = s ->
  ProcessReference (cleanState (touch now (setCancelRequested true s))) = ProcessReference s.
Proof.
  intros Hc. rewrite (cleanState_flag s); [by destruct s|done|].
  exists true, (sLaunchPending s), (sProcessCleanupComplete s), (sWorkerReady s), now. by destruct s.
Qed.

(** ** The steps of the cancellation *)

(** The request was recorded and the task is not over. *)
Definition requested s : Prop := Terminal (sStatus s) = false /\ sCancelRequested s = true.
(** It ended as canceled and nothing is left to clean up. *)
Definition settled s : Prop :=
  Canceled s = true /\ sProcessCleanupComplete s = true /\ sLaunchPending s = false.
Definition obeys s : Prop := forall ref, ProcessReference s = Some ref -> forall os,
  (terminate ref os).2 = None /\ (cleanupAfterExit ref os).2 = None.

Lemma Terminal_failed s : Canceled s = true -> Terminal (sStatus s) = true.
Proof. unfold Canceled, Terminal. intros [H1 _]%andb_true_iff. by rewrite H1, orb_true_r. Qed.

Lemma run_finalize me w id s :
  stands w id s -> coerceUTF8 id = id -> requested s ->
  exists w' s', run me (finalizeCanceled id) w = (w', inr tt) /\ stands w' id s' /\ settled s' /\
    tHeld w' = tHeld w.
Proof.
  intros Hs Hco [Ht Hr].
  assert (Hfs : finalizeCanceledFn s = (Some (setCleanupComplete true (setLaunchPending false (markCanceled s))), tt)).
  { unfold finalizeCanceledFn, always. by rewrite Ht, Hr. }
  assert (Hv : lives id s (setCleanupComplete true (setLaunchPending false (markCanceled s)))).
  { by eapply (finalize_vital id s); [apply Hs|]. }
  destruct (run_update me w id s _ _ _ _ Hs Hfs Hv Hco) as [Hrun Hs'].
  eexists _, _. split; [exact Hrun|]. split; [exact Hs'|]. split; [|done]. split_and!; reflexivity.
Qed.

(** The cleanup of the referenced process, if there is one. *)
Lemma run_cleanup me w id s : stands w id s -> obeys s ->
  exists os, run me (match ProcessReference s with
                     | Some ref => step (CleanupAfterExit ref)
                     | None => Ret None
                     end) w = (setOS os w, None).
Proof.
  intros Hs Ho. destruct (ProcessReference s) as [ref|] eqn:Hr; [|exists (tOS w); by destruct w].
  destruct (Ho ref Hr (tOS w)) as [_ Hc]. cbn [run step exec].
  destruct (cleanupAfterExit ref (tOS w)) as [os e]. cbn in Hc. subst. by exists os.
Qed.

(** A launch that is no longer pending. *)
Lemma run_waitForLaunch me w id s n :
  stands w id s -> sLaunchPending s = false -> run me (waitForLaunch (S n) id) w = (w, inr s).
Proof.
  intros Hs Hl. cbn [waitForLaunch].
  assert (Hstep : run me (waitForLaunchStep id) w = (w, inr (Some s))).
  { unfold waitForLaunchStep. rewrite run_bind, (run_get _ _ _ s) by done. cbn. by rewrite Hl, orb_true_r. }
  by erewrite run_ebind by exact Hstep.
Qed.

(** A pending launch whose launcher is gone is finished as canceled. *)
Definition launcherGone id s : Prop :=
  sProcessCleanupComplete s = false /\ sLaunchProtocol s = 1 /\
  forall tree owned os, (cleanupUnpublishedLaunch (launchLeasePath id) tree owned os).2 = None.

Lemma run_endTree me w s : obeys s ->
  exists os, run me (match ProcessReference s with
                     | Some ref => do! _ := stepErr (Terminate ref) in stepErr (CleanupAfterExit ref)
                     | None => done tt
                     end) w = (setOS os w, inr tt).
Proof.
  intros Ho. destruct (ProcessReference s) as [ref|] eqn:Hr; [|exists (tOS w); by destruct w].
  destruct (Ho ref Hr (tOS w)) as [Ht _]. unfold pebind, stepErr. cbn [pbind step run exec].
  destruct (terminate ref (tOS w)) as [os e]. cbn in Ht. subst e. cbn.
  destruct (Ho ref Hr os) as [_ Hc]. destruct (cleanupAfterExit ref os) as [os' e]. cbn in Hc. subst e.
  by exists os'.
Qed.
Lemma run_cleanupPendingLaunch me w id s :
  stands w id s -> obeys s -> launcherGone id s ->
  exists os, run me (cleanupPendingLaunch s) w = (setOS os w, inr tt).
Proof.
  intros Hs Ho (_ & Hp & Hu). unfold cleanupPendingLaunch.
  rewrite (run_ebind _ _ _ _ _ w w tt) by (apply run_calm; apply Hs).
  rewrite Hp. change (negb (1 =? 1)) with false. cbv iota.
  destruct (run_endTree me w s Ho) as [os Hrun]. erewrite run_ebind by exact Hrun.
  cbn [run step exec pbind setOS tOS]. assert (Hid : sID s = id) by apply Hs. rewrite Hid.
  specialize (Hu (sLaunchTreeID s) (sLaunchOwned s) os).
  destruct (cleanupUnpublishedLaunch _ _ _ os) as [os' e]. cbn in Hu. subst e. by exists os'.
Qed.
Lemma run_finishAbandoned me w id s :
  stands w id s -> coerceUTF8 id = id -> requested s -> sLaunchPending s = true ->
  exists w' s', run me (finishAbandonedLaunch id false) w = (w', (Some s', None)) /\ stands w' id s' /\
    settled s' /\ tHeld w' = tHeld w.
Proof.
  intros Hs Hco [Ht Hr] Hl.
  assert (Hfs : finishAbandonedFn false s =
                (Some (markCanceled (setCleanupComplete true (setLaunchPending false s))), tt)).
  { unfold finishAbandonedFn, always. rewrite Hl. cbn. by rewrite Ht, Hr. }
  assert (Hv : lives id s (markCanceled (setCleanupComplete true (setLaunchPending false s)))).
  { by eapply (abandon_vital id false s); [apply Hs|]. }
  destruct (run_update me w id s _ _ _ _ Hs Hfs Hv Hco) as [Hrun Hs'].
  eexists _, _. split.
  { unfold finishAbandonedLaunch. rewrite run_bind, Hrun, run_bind. erewrite run_get by exact Hs'. done. }
  split; [exact Hs'|]. split; [|done]. split_and!; reflexivity.
Qed.

Lemma run_reconcile me w id s :
  stands w id s -> coerceUTF8 id = id -> requested s -> obeys s -> sLaunchPending s = true ->
  launcherGone id s -> tHeld w !! launcherLockPath id = None ->
  exists w' s', run me (reconcilePendingLaunch id) w = (w', (Some s', None)) /\ stands w' id s' /\
    settled s' /\ tHeld w' = tHeld w.
Proof.
  intros Hs Hco Hr Ho Hl Hg Hlock. destruct (Hg) as (Hcc & _ & _).
  set (w1 := locked (launcherLockPath id) me w).
  assert (Hs1 : stands w1 id s) by by apply stands_held.
  destruct (run_cleanupPendingLaunch me w1 id s Hs1 Ho Hg) as [os Hclean].
  destruct (run_finishAbandoned me (setOS os w1) id s) as (w2 & s2 & Hfin & Hs2 & Hset & Hh); try done;
    [by apply stands_os|].
  exists (unlocked (launcherLockPath id) w2), s2. unfold reconcilePendingLaunch, reconcileLaunch.
  rewrite run_bind. unfold tryLauncherLock. rewrite run_tryLock by (apply Hs || done).
  split; [|split; [by apply stands_held|split; [done|]]].
  - eapply (run_unlocking me _ (launcherLockPath id) _ w1 w2); [|apply Hs2|by rewrite Hh; cbn; rewrite lookup_insert_eq].
    rewrite run_bind, (run_get _ _ id s) by done. rewrite Hl, Hcc. cbn [negb andb].
    by rewrite run_bind, Hclean.
  - cbn. rewrite Hh. cbn. by rewrite delete_insert_id.
Qed.

(** A launch in progress has no owner any more. *)
Definition launchSettles w id s : Prop :=
  sLaunchPending s = true -> launcherGone id s /\ tHeld w !! launcherLockPath id = None.

Lemma run_cancelWithoutWorker me w id s n :
  stands w id s -> coerceUTF8 id = id -> requested s -> obeys s -> launchSettles w id s ->
  tHeld w !! workerLockPath id = Some me ->
  exists w' s', run me (cancelWithoutWorker (S (S n)) id) w = (w', inr tt) /\ stands w' id s' /\
    settled s' /\ tHeld w' = delete (workerLockPath id) (tHeld w).
Proof.
  intros Hs Hco Hr Ho Hl Hw. unfold cancelWithoutWorker.
  assert (Hend : exists w' s', run me (do! s := waitForLaunch (S (S n)) id in
      if Terminal (sStatus s) then done tt
      else do* c := match ProcessReference s with
                    | Some ref => step (CleanupAfterExit ref) | None => Ret None end in
           match c with
           | Some e => fail (cancelErr id "clean up worker tree" e)
           | None => finalizeCanceled id
           end) w = (w', inr tt) /\ stands w' id s' /\ settled s' /\ tHeld w' = tHeld w).
  { destruct (sLaunchPending s) eqn:Hp.
    - destruct (Hl Hp) as [Hg Hlock].
      destruct (run_reconcile me w id s Hs Hco Hr Ho Hp Hg Hlock) as (w1 & s1 & Hrec & Hs1 & Hset & Hh).
      exists w1, s1. split; [|done]. rewrite (run_ebind _ _ _ _ _ w w1 s1).
      + destruct Hset as [Hc _]. by rewrite (Terminal_failed _ Hc).
      + assert (Hstep : run me (waitForLaunchStep id) w = (w1, inr None)).
        { unfold waitForLaunchStep. rewrite run_bind, (run_get _ _ id s) by done.
          rewrite Hp, (proj1 Hr). cbn [orb negb]. unfold clearAbandonedLaunch.
          assert (Hproto : sLaunchProtocol s = 1) by apply Hg.
          assert (Hclear : run me (do! s := step (Get id) in
            if sLaunchProtocol s =? 1 then
              do* r := reconcilePendingLaunch id in
              Ret (errResult r.2 (match r.1 with Some current => negb (sLaunchPending current) | None => false end))
            else fail (Errorf "cannot verify cleanup of a legacy abandoned launch" [])) w = (w1, inr true)).
          { rewrite (run_ebind _ _ _ _ _ w w s) by by apply run_get. rewrite Hproto. cbn [Z.eqb Pos.eqb].
            rewrite run_bind, Hrec. cbn. destruct Hset as (_ & _ & ->). done. }
          by erewrite run_ebind by exact Hclear. }
        cbn [waitForLaunch]. rewrite (run_ebind _ _ _ _ _ w w1 None) by exact Hstep.
        rewrite run_bind. assert (Hwait : run me (step Wait) w1 = (w1, None)).
        { cbn [run step exec]. by rewrite fault_calm by apply Hs1. }
        rewrite Hwait. apply (run_waitForLaunch me w1 id s1 n Hs1). apply Hset.
    - rewrite (run_ebind _ _ _ _ _ w w s) by by apply run_waitForLaunch.
      rewrite (proj1 Hr). destruct (run_cleanup me w id s Hs Ho) as [os Hc]. rewrite run_bind, Hc.
      destruct (run_finalize me (setOS os w) id s) as (w1 & s1 & Hf & Hs1 & Hset & Hh); [by apply stands_os|done|done|].
      exists w1, s1. done. }
  destruct Hend as (w1 & s1 & Hrun & Hs1 & Hset & Hh).
  exists (unlocked (workerLockPath id) w1), s1. split; [|split; [by apply stands_held|split; [done|cbn; by rewrite Hh]]].
  eapply run_unlocking; [exact Hrun|apply Hs1|by rewrite Hh].
Qed.

Lemma run_quiesce me w id s n :
  stands w id s -> coerceUTF8 id = id -> requested s -> obeys s -> launchSettles w id s ->
  tHeld w !! workerLockPath id = None ->
  exists w' s', run me (quiesceCancellation (S (S n)) (S (S n)) id None) w = (w', inr tt) /\
    stands w' id s' /\ settled s' /\ tHeld w' = tHeld w.
Proof.
  intros Hs Hco Hr Ho Hl Hw. set (w1 := locked (workerLockPath id) me w).
  destruct (run_cancelWithoutWorker me w1 id s n) as (w2 & s2 & Hrun & Hs2 & Hset & Hh); try done;
    [by apply stands_held| |cbn; by rewrite lookup_insert_eq|].
  { intros Hp. destruct (Hl Hp) as [Hg Hlock]. split; [done|]. cbn.
    rewrite lookup_insert_ne by apply worker_launcher. done. }
  exists w2, s2. split; [|split; [done|split; [done|by rewrite Hh; cbn; rewrite delete_insert_id]]].
  cbn [quiesceCancellation]. rewrite (run_ebind _ _ _ _ _ w w2 (false, None)); [done|].
  unfold quiesceCancellationStep. rewrite run_bind, (run_get _ _ id s) by done. rewrite (proj1 Hr).
  rewrite run_bind. unfold tryFinalizeWithoutWorker, tryWorkerLock.
  rewrite run_bind, run_tryLock by (apply Hs || done). cbv beta iota. fold w1.
  rewrite run_bind, Hrun. done.
Qed.

(** Nothing is left for the cleanups that follow. *)
Lemma settled_quiet s : settled s ->
  NeedsCanceledWorkerCleanup s = false /\ NeedsExitedWorkerCleanup s = false /\ sLaunchPending s = false.
Proof.
  intros (Hc & Hp & Hl). unfold NeedsCanceledWorkerCleanup, NeedsExitedWorkerCleanup.
  rewrite Hc, Hp, !orb_true_r. done.
Qed.
Lemma run_cleanups me w id s ctx : stands w id s -> settled s ->
  run me (do! _ := CleanupCanceledWorkerTree ctx id in CleanupExitedWorkerTree id) w = (w, inr tt).
Proof.
  intros Hs (H1 & H2 & H3)%settled_quiet. rewrite (run_ebind _ _ _ _ _ w w tt).
  - unfold CleanupExitedWorkerTree. rewrite (run_ebind _ _ _ _ _ w w s); [by rewrite H2|].
    unfold stateAfterLaunchCleanup. rewrite (run_ebind _ _ _ _ _ w w s) by by apply run_get. by rewrite H3.
  - unfold CleanupCanceledWorkerTree. rewrite (run_ebind _ _ _ _ _ w w s) by by apply run_get. by rewrite H1.
Qed.

(** C16: Cancelling a task that is not over and whose worker is gone succeeds,
    when no call fails, the operating system ends and cleans up the recorded
    process when asked to, and a launch that is still pending has lost its
    launcher: with two waits the task ends as canceled, its process tree cleaned
    up and no launch pending, and every lock is back where it was. *)
Theorem cancel_settles me w id s n :
  stands w id s -> coerceUTF8 id = id -> Terminal (sStatus s) = false -> obeys s -> launchSettles w id s ->
  tHeld w !! workerLockPath id = None ->
  exists w' s', run me (CancelContext (S (S n)) (Open id)) w = (w', inr tt) /\
    tFiles w' !! id = Some (Stored s') /\ settled s' /\ tHeld w' = tHeld w.
Proof.
  intros Hs Hco Ht Ho Hl Hw. set (now := tClock w + default 0 (head (tTicks w))).
  set (s1 := cleanState (touch now (setCancelRequested true s))).
  assert (Hfs : requestCancelFn s = (Some (setCancelRequested true s), setCancelRequested true s))
    by (unfold requestCancelFn; by rewrite Ht).
  assert (Hv : lives id s (setCancelRequested true s)) by (apply requestCancel_lives; [apply Hs|done]).
  destruct (run_update me w id s _ _ _ _ Hs Hfs Hv Hco) as [Hreq Hs1]. fold now s1 in Hreq, Hs1.
  set (w1 := afterUpdate id s1 now w) in *. destruct (Hs) as [_ _ _ [Hwf Hclean]].
  destruct (run_quiesce me w1 id s1 n Hs1 Hco) as (w2 & s2 & Hq & Hs2 & Hset & Hh); [..|done|].
  - split; [|done]. cbn. by rewrite (Terminal_clean _ (wf_status _ _ Hwf)).
  - intros ref. unfold s1. rewrite ProcessReference_request by done. apply Ho.
  - exact Hl.
  - exists w2, s2. split; [|split; [apply Hs2|split; [done|exact Hh]]].
    unfold CancelContext. cbn [tkID Open]. cbv zeta.
    rewrite (run_ebind _ _ _ _ _ w w tt) by (apply run_calm; apply Hs).
    rewrite (run_ebind _ _ _ _ _ w w1 (setCancelRequested true s)) by exact Hreq. cbn [sStatus setCancelRequested].
    rewrite Ht, (run_ebind _ _ _ _ _ w1 w2 tt) by exact Hq. by eapply run_cleanups.
Qed.
End Cancel.
