(* ===== verification/TaskExamples.v ===== *)
(** Concrete runs of the task store, at which the theorems of [TaskSafety] apply. *)
From S2P Require Import Prelude GoStd GoText Clierr TaskState TaskProg TaskStore TaskLocks TaskLife TaskSystem TaskSafety TaskCancel.

(** An operating system without processes. *)
#[export] Instance quietOS : Processes unit := {|
  terminate _ os := (os, None);
  cleanupAfterExit _ os := (os, None);
  processExited _ _ := inr true;
  treeIdentity _ _ := inr "identity";
  newLaunchLease _ os := (os, None);
  closeLaunchLease _ os := (os, None);
  cleanupUnpublishedLaunch _ _ _ os := (os, None);
|}.
#[export] Instance exampleEnv : TaskEnv := {|
  randomID n := "task" +:+ pretty n;
  failureContext runID := {[ "runId" := runID ]};
|}.
Definition plainText (s : string) : string := s.

(** ** Running one process *)

Abbreviation Sys := (System (OS := unit)).

Definition stepOnce (S : Sys) : Sys :=
  match sysProgs S !! 0%nat with
  | Some (Do st k) =>
      let '(w, x) := exec 0 st (environ [] [] tt (sysWorld S)) in
      mkSystem w (<[0%nat := k x]> (sysProgs S)) (drawn st (sysIDs S))
  | _ => S
  end.
Definition freshb {X} (st : Step X) (ids : gset string) : bool :=
  match st with
  | Create id _ => bool_decide (id ∉ ids) && bool_decide (coerceUTF8 id = id)
  | _ => true
  end.
Definition canAdvance (S : Sys) : bool :=
  match sysProgs S !! 0%nat with Some (Do st _) => freshb st (sysIDs S) | _ => false end.
Lemma advance_step S : canAdvance S = true -> sysStep plainText 0 S (stepOnce S).
Proof.
  unfold canAdvance, stepOnce. destruct S as [w ps ids]; cbn.
  destruct (ps !! 0%nat) as [[a|X st k]|] eqn:Hp; [done| |done]. intros Hf.
  destruct (exec 0 st (environ [] [] tt w)) as [w' x] eqn:Hx.
  eapply sys_step; [exact Hp| |exact Hx].
  destruct st; cbn in *; try done. apply andb_true_iff in Hf as [?%bool_decide_eq_true ?%bool_decide_eq_true].
  done.
Qed.

Fixpoint advances_n (n : nat) (S : Sys) : Sys := match n with O => S | Datatypes.S n' => stepOnce (advances_n n' S) end.
Fixpoint canAdvance_n (n : nat) (S : Sys) : bool :=
  match n with O => true | Datatypes.S n' => canAdvance_n n' S && canAdvance (advances_n n' S) end.
Lemma advances_n_steps n S : canAdvance_n n S = true -> rtc (anyStep plainText) S (advances_n n S).
Proof.
  induction n as [|n IH]; [done|]. cbn. intros [Hn Hc]%andb_true_iff.
  eapply rtc_r; [by apply IH|]. exists 0%nat. by apply advance_step.
Qed.

Definition emptyWorld : TW unit := mkTW ∅ ∅ ∅ [] 0 [] 0 tt.
Definition started (p : Prog unit) : Sys := mkSystem emptyWorld {[0%nat := p]} ∅.
Lemma started_reachable p n :
  client plainText p -> canAdvance_n n (started p) = true -> reachable plainText (advances_n n (started p)).
Proof.
  intros Hp Hn. exists (mkSystem emptyWorld ∅ ∅). split; [done|].
  eapply rtc_l; [|by apply advances_n_steps]. exists 0%nat. apply sys_start; [done|done].
Qed.

(** ** Programs *)

Definition withTask (k : Task -> Prog unit) : Prog unit :=
  do* r := create (mkCreateOptions "up" "w" "") false in
  match r with inl _ => Ret tt | inr t => k t end.
Lemma withTask_client k : (forall t, client plainText (k t)) -> client plainText (withTask k).
Proof. intros Hk. apply client_call; [constructor|]. intros [e|t]; [constructor|apply Hk]. Qed.

(** A task that succeeds, then gets another label. *)
Definition succeeding : Prog unit :=
  withTask (fun t => do* _ := Succeed t (Some "{}") in do* _ := SetWorkspaceID t "v" in Ret tt).
Lemma succeeding_client : client plainText succeeding.
Proof.
  apply withTask_client. intros t. apply client_call; [constructor|]. intros _.
  apply client_call; [constructor|]. intros _. constructor.
Qed.
(** A task that is canceled before any worker starts. *)
Definition canceling : Prog unit := withTask (fun t => do* _ := CancelContext 1 t in Ret tt).
Lemma canceling_client : client plainText canceling.
Proof. apply withTask_client. intros t. apply client_call; [constructor|]. intros _. constructor. Qed.
(** A task that succeeds and is deleted. *)
Definition deleting : Prog unit :=
  withTask (fun t => do* _ := Succeed t None in do* _ := Delete 1 (tkID t) false in Ret tt).
Lemma deleting_client : client plainText deleting.
Proof.
  apply withTask_client. intros t. apply client_call; [constructor|]. intros _.
  apply client_call; [constructor|]. intros _. constructor.
Qed.

(** What a reader sees of a task after [n] steps. *)
Definition seen (p : Prog unit) (n : nat) : option taskFile := stored (advances_n n (started p)) "task0".

Definition stateOf (o : option taskFile) : State :=
  match o with Some (Stored s) => s | _ => initialState "" (mkCreateOptions "" "" "") false 0 end.

Lemma seen_stored p n : match seen p n with Some (Stored _) => True | _ => False end ->
  stored (advances_n n (started p)) "task0" = Some (Stored (stateOf (seen p n))).
Proof. unfold seen. by destruct (stored _ _) as [[]|]. Qed.

Lemma succeeding_reachable n : canAdvance_n n (started succeeding) = true ->
  reachable plainText (advances_n n (started succeeding)).
Proof. apply started_reachable, succeeding_client. Qed.
Lemma tasks_wellformed_witness :
  exists s, seen succeeding 4 = Some (Stored s) /\ taskOK "task0" s /\ sStatus s = StatusSucceeded.
Proof.
  assert (Hr : reachable plainText (advances_n 4 (started succeeding)))
    by (apply succeeding_reachable; vm_compute; reflexivity).
  assert (Hs : stored (advances_n 4 (started succeeding)) "task0" = Some (Stored (stateOf (seen succeeding 4))))
    by (apply seen_stored; vm_compute; exact I).
  destruct (tasks_wellformed plainText _ _ _ Hr Hs) as (s & Heq & Hok). injection Heq as <-.
  eexists. split; [exact Hs|]. split; [exact Hok|]. vm_compute. reflexivity.
Defined.

Lemma outcome_final_witness :
  outcome (stateOf (seen succeeding 4)) = outcome (stateOf (seen succeeding 3)) /\
  sWorkspaceID (stateOf (seen succeeding 4)) = "v" /\ sWorkspaceID (stateOf (seen succeeding 3)) = "w".
Proof.
  assert (Hr : reachable plainText (advances_n 3 (started succeeding)))
    by (apply succeeding_reachable; vm_compute; reflexivity).
  assert (Hsteps : rtc (anyStep plainText) (advances_n 3 (started succeeding)) (advances_n 4 (started succeeding))).
  { apply rtc_once. exists 0%nat. apply advance_step. vm_compute. reflexivity. }
  assert (Hs : stored (advances_n 3 (started succeeding)) "task0" = Some (Stored (stateOf (seen succeeding 3))))
    by (apply seen_stored; vm_compute; exact I).
  assert (Hs' : stored (advances_n 4 (started succeeding)) "task0" = Some (Stored (stateOf (seen succeeding 4))))
    by (apply seen_stored; vm_compute; exact I).
  destruct (outcome_final plainText _ _ _ _ _ Hr Hsteps Hs Hs') as [Ho _].
  split; [apply Ho; vm_compute; reflexivity|split; vm_compute; reflexivity].
Defined.

Lemma cleanup_under_lock_witness :
  exists path, path ∈ [workerLockPath "task0"; reconcileLockPath "task0"; launcherLockPath "task0"] /\
    tHeld (sysWorld (advances_n 7 (started canceling))) !! path = Some 0%nat.
Proof.
  assert (Hr : reachable plainText (advances_n 7 (started canceling)))
    by (apply started_reachable; [apply canceling_client|vm_compute; reflexivity]).
  assert (Hstep : sysStep plainText 0 (advances_n 7 (started canceling)) (advances_n 8 (started canceling)))
    by (apply advance_step; vm_compute; reflexivity).
  assert (Hs : stored (advances_n 7 (started canceling)) "task0" = Some (Stored (stateOf (seen canceling 7))))
    by (apply seen_stored; vm_compute; exact I).
  assert (Hs' : stored (advances_n 8 (started canceling)) "task0" = Some (Stored (stateOf (seen canceling 8))))
    by (apply seen_stored; vm_compute; exact I).
  apply (cleanup_under_lock plainText _ _ _ _ _ _ Hr Hstep Hs Hs'); vm_compute; reflexivity.
Defined.

Lemma removal_needs_cleanup_witness :
  seen deleting 5 <> None /\ seen deleting 6 = None /\ sLaunchPending (stateOf (seen deleting 5)) = false.
Proof.
  assert (Hr : reachable plainText (advances_n 5 (started deleting)))
    by (apply started_reachable; [apply deleting_client|vm_compute; reflexivity]).
  assert (Hstep : sysStep plainText 0 (advances_n 5 (started deleting)) (advances_n 6 (started deleting)))
    by (apply advance_step; vm_compute; reflexivity).
  assert (Hs : stored (advances_n 5 (started deleting)) "task0" = Some (Stored (stateOf (seen deleting 5))))
    by (apply seen_stored; vm_compute; exact I).
  assert (Hs' : stored (advances_n 6 (started deleting)) "task0" = None) by (vm_compute; reflexivity).
  destruct (removal_needs_cleanup plainText _ _ _ _ _ Hr Hstep Hs Hs') as [Hl _].
  split; [unfold seen; rewrite Hs; discriminate|]. split; [exact Hs'|exact Hl].
Defined.

(** A launch whose launcher died, canceled. *)
Definition launching : State := cleanState (initialState "task0" (mkCreateOptions "up" "w" "") true 5).
Definition launchingWorld : TW unit := mkTW {[ "task0" := Stored launching ]} ∅ ∅ [] 5 [] 1 tt.
Lemma cancel_settles_witness :
  sLaunchPending launching = true /\
  exists w' s', run 0 (CancelContext 2 (Open "task0")) launchingWorld = (w', inr tt) /\
    tFiles w' !! "task0" = Some (Stored s') /\ settled s' /\ tHeld w' = ∅.
Proof.
  split; [reflexivity|].
  assert (Hs : stands launchingWorld "task0" launching).
  { split; [reflexivity|reflexivity|vm_compute; reflexivity|exact (initialState_ok "task0" _ true 5 eq_refl)]. }
  assert (Ho : obeys launching) by (intros ref Hr; discriminate).
  assert (Hl : launchSettles launchingWorld "task0" launching) by (intros _; repeat split).
  exact (cancel_settles 0 launchingWorld "task0" launching 0 Hs eq_refl eq_refl Ho Hl eq_refl).
Defined.
