(* ===== verification/RedactMask.v ===== *)
(** Masking of known values: the trie finds the longest value, and cutting a
    text where the streaming redactor cuts it does not change what is masked.
    Format patterns: a text in which none of them matches is left alone, and so is
    every part of it. *)
From S2P Require Import Prelude GoStd GoText Redact.

Implicit Types (s x y v : string) (values : list string).

(** ** Prefixes and parts *)

Lemma HasPrefix_app x y v : HasPrefix x v = true -> HasPrefix (x +:+ y) v = true.
Proof. rewrite !HasPrefix_spec. intros [t ->]. exists (t +:+ y). by rewrite string_app_assoc. Qed.
Lemma HasPrefix_length x v : HasPrefix x v = true -> (String.length v <= String.length x)%nat.
Proof. rewrite HasPrefix_spec. intros [t ->]. rewrite string_length_app. lia. Qed.
Lemma string_take_length_app x y n :
  (String.length x <= n)%nat -> string_take n (x +:+ y) = x +:+ string_take (n - String.length x) y.
Proof.
  revert n. induction x as [|c x IH]; intros n Hn.
  - cbn [String.length]. by rewrite Nat.sub_0_r.
  - destruct n as [|n]; [cbn in Hn; lia|]. rewrite !string_app_cons. cbn [string_take String.length].
    f_equal. apply IH. cbn in Hn. lia.
Qed.
Lemma string_drop_app_le n x y :
  (n <= String.length x)%nat -> string_drop n (x +:+ y) = string_drop n x +:+ y.
Proof.
  revert x. induction n as [|n IH]; intros x Hn; [done|]. destruct x as [|c x]; [cbn in Hn; lia|].
  rewrite string_app_cons. cbn [string_drop]. apply IH. cbn in Hn. lia.
Qed.
Lemma string_drop_drop i j s : string_drop i (string_drop j s) = string_drop (i + j) s.
Proof.
  revert i s. induction j as [|j IH]; intros i s; [by rewrite Nat.add_0_r|].
  rewrite Nat.add_succ_r. destruct s as [|c s]; [by destruct i|]. cbn [string_drop]. apply IH.
Qed.
Lemma string_take_take i j s : string_take i (string_take j s) = string_take (Nat.min i j) s.
Proof.
  revert j s. induction i as [|i IH]; intros [|j] s; try done; destruct s as [|c s]; try done; [].
  cbn [string_take Nat.min]. by rewrite IH.
Qed.
Lemma string_take_drop_comm i j s : string_take i (string_drop j s) = string_drop j (string_take (i + j) s).
Proof.
  revert s. induction j as [|j IH]; intros s; [by rewrite Nat.add_0_r|].
  rewrite Nat.add_succ_r. destruct s as [|c s]; [by destruct i|]. cbn [string_drop string_take]. apply IH.
Qed.
Lemma string_drop_all n s : (String.length s <= n)%nat -> string_drop n s = "".
Proof. revert n. induction s as [|c s IH]; intros [|n] Hn; try done; cbn in *; [lia|apply IH; lia]. Qed.

(** [x] is the beginning of [v] and shorter. *)
Definition properPrefix x v : Prop := HasPrefix v x = true /\ (String.length x < String.length v)%nat.

Lemma HasPrefix_extend x y v :
  x <> "" -> ~ properPrefix x v -> HasPrefix (x +:+ y) v = HasPrefix x v.
Proof.
  intros Hx Hp. apply Bool.eq_iff_eq_true. split; [|by apply HasPrefix_app].
  rewrite HasPrefix_spec. intros [t Ht].
  destruct (decide (String.length v <= String.length x)%nat) as [Hle|Hgt].
  - apply HasPrefix_spec. exists (string_drop (String.length v) x).
    rewrite <- (string_take_drop (String.length v) x) at 1. f_equal.
    apply (f_equal (string_take (String.length v))) in Ht.
    rewrite string_take_app, string_take_app_le in Ht by done. done.
  - destruct Hp. split; [|lia]. apply HasPrefix_spec. exists (string_drop (String.length x) v).
    rewrite <- (string_take_drop (String.length x) v) at 1. f_equal.
    apply (f_equal (string_take (String.length x))) in Ht.
    rewrite string_take_app, string_take_app_le in Ht by lia. done.
Qed.
Lemma HasPrefix_take n x v :
  HasPrefix (string_take n x) v = bool_decide (String.length v <= n)%nat && HasPrefix x v.
Proof.
  apply Bool.eq_iff_eq_true. rewrite andb_true_iff, bool_decide_eq_true. split.
  - intros H. split.
    + apply HasPrefix_length in H. rewrite string_length_take in H. lia.
    + rewrite <- (string_take_drop n x). by apply HasPrefix_app.
  - rewrite !HasPrefix_spec. intros [Hn [t ->]]. exists (string_take (n - String.length v) t).
    by apply string_take_length_app.
Qed.

(** ** The longest value a text starts with *)

Fixpoint best values x : nat :=
  match values with
  | [] => 0
  | v :: rest => Nat.max (if HasPrefix x v then String.length v else 0) (best rest x)
  end.

Lemma best_extend values x y :
  x <> "" -> (forall v, v ∈ values -> ~ properPrefix x v) -> best values (x +:+ y) = best values x.
Proof.
  intros Hx. induction values as [|v values IH]; intros Hp; [done|]. cbn.
  rewrite HasPrefix_extend by (set_solver). rewrite IH by set_solver. done.
Qed.
Lemma best_length values x : (best values x <= String.length x)%nat.
Proof.
  induction values as [|v values IH]; cbn; [lia|].
  destruct (HasPrefix x v) eqn:Hv; [apply HasPrefix_length in Hv; lia|lia].
Qed.
Lemma best_take values n x : (best values x <= n)%nat -> best values (string_take n x) = best values x.
Proof.
  induction values as [|v values IH]; cbn; intros Hn; [done|].
  rewrite IH by lia. rewrite HasPrefix_take. destruct (HasPrefix x v) eqn:Hv; [|by rewrite andb_false_r].
  rewrite bool_decide_true by lia. done.
Qed.
Lemma best_spec values x : best values x = 0%nat \/ exists v, v ∈ values /\ HasPrefix x v = true /\ String.length v = best values x.
Proof.
  induction values as [|v values IH]; cbn; [by left|].
  destruct IH as [-> | (v' & Hin & Hp & Hl)].
  - destruct (HasPrefix x v) eqn:Hv; [|by left]. right. exists v. rewrite Nat.max_0_r. set_solver.
  - destruct (HasPrefix x v) eqn:Hv; [|right; exists v'; set_solver].
    destruct (decide (String.length v <= best values x)%nat).
    + right. exists v'. rewrite Nat.max_r by lia. set_solver.
    + right. exists v. rewrite Nat.max_l by lia. set_solver.
Qed.

(** ** Masking *)

Lemma replaceFrom_skip m k s : replaceFrom m k s = replaceAll m (string_drop k s).
Proof.
  revert k. induction s as [|c s IH]; intros [|k]; try done; [].
  change (replaceFrom m k s = replaceAll m (string_drop k s)). apply IH.
Qed.
Lemma replaceAll_cons m c s :
  replaceAll m (String c s) =
    match m (String c s) with
    | Some (S n, r) => r +:+ replaceAll m (string_drop n s)
    | _ => String c (replaceAll m s)
    end.
Proof.
  unfold replaceAll at 1. cbn [replaceFrom]. destruct (m (String c s)) as [[[|n] r]|]; try done.
  by rewrite replaceFrom_skip.
Qed.

(** Values as a redactor keeps them: not empty, longer ones first. *)
Definition longestFirst values : Prop :=
  Sorted longerFirst values /\ Forall (fun v => v <> "") values.

Lemma best_bounded values x n : Forall (fun v => (String.length v <= n)%nat) values -> (best values x <= n)%nat.
Proof. induction 1 as [|v values Hv _ IH]; cbn; [lia|]. destruct (HasPrefix x v); lia. Qed.
#[export] Instance longerFirst_trans : Transitive longerFirst.
Proof. intros a b c. unfold longerFirst. lia. Qed.
Lemma firstValue_best values x :
  longestFirst values ->
  firstValue values x = if (best values x =? 0)%nat then None else Some (best values x, redactMask).
Proof.
  intros [Hs Hne]. apply Sorted_StronglySorted in Hs; [|apply _].
  induction Hs as [|v values Hs IH Hall]; [done|]. inversion Hne as [|? ? Hv Hne']; subst. cbn.
  destruct (HasPrefix x v); [|by apply IH].
  assert (best values x <= String.length v)%nat.
  { apply best_bounded. eapply Forall_impl; [exact Hall|]. intros w. unfold longerFirst. done. }
  rewrite Nat.max_l by done. destruct (String.length v) eqn:Hl; [destruct v; done|done].
Qed.

Section Values.
Context values (Hvalues : longestFirst values).

Definition mask (s : string) : string := replaceAll (firstValue values) s.

Lemma mask_copy x : x <> "" -> best values x = 0%nat -> mask x = string_take 1 x +:+ mask (string_drop 1 x).
Proof.
  destruct x as [|c x]; [done|]. intros _ Hb. unfold mask. rewrite replaceAll_cons, firstValue_best, Hb by done.
  cbn. by destruct x.
Qed.
Lemma mask_value x : best values x <> 0%nat -> mask x = redactMask +:+ mask (string_drop (best values x) x).
Proof.
  intros Hb. destruct x as [|c x].
  { pose proof (best_length values ""). cbn in *. lia. }
  unfold mask. rewrite replaceAll_cons, firstValue_best by done.
  destruct (best values (String c x)) as [|n]; [done|]. done.
Qed.
(** One round of the masking, of [Nat.max (best values x) 1] bytes. *)
Definition masked x : string := if (best values x =? 0)%nat then string_take 1 x else redactMask.
Lemma mask_step x : x <> "" -> mask x = masked x +:+ mask (string_drop (Nat.max (best values x) 1) x).
Proof.
  intros Hx. unfold masked. destruct (Nat.eqb_spec (best values x) 0) as [Hb|Hb].
  - rewrite Hb. by apply mask_copy.
  - rewrite Nat.max_l by lia. by apply mask_value.
Qed.
Lemma masked_ext x y : best values x = best values y -> string_take 1 x = string_take 1 y -> masked x = masked y.
Proof. unfold masked. intros -> ->. done. Qed.

(** ** Cutting *)

(** No suffix that starts before [cut] is the beginning of a longer value. *)
Definition cuttable value cut : Prop :=
  (cut <= String.length value)%nat /\
  forall offset v, (offset < cut)%nat -> v ∈ values -> ~ properPrefix (string_drop offset value) v.

(** The text behind an offset is masked the same up to [r], whatever follows. *)
Definition splitsAt value offset r : Prop :=
  forall rest, mask (string_drop offset value +:+ rest) =
    mask (string_take (r - offset) (string_drop offset value)) +:+ mask (string_drop r value +:+ rest).

Lemma boundaryLoop_splits t value cut fuel offset :
  (forall x, secretMatchLength t x = best values x) -> cuttable value cut ->
  (offset <= cut)%nat -> (cut - offset < fuel)%nat ->
  let r := boundaryLoop fuel t value offset cut in (offset <= r <= cut)%nat /\ splitsAt value offset r.
Proof.
  intros Ht [Hcut Hc]. revert offset. induction fuel as [|fuel IH]; intros offset Ho Hf; [lia|]. cbn [boundaryLoop].
  destruct (Nat.leb_spec cut offset) as [Hle|Hlt].
  { assert (cut = offset) as -> by lia. split; [lia|]. intros rest. by rewrite Nat.sub_diag. }
  cbv zeta. set (x := string_drop offset value). rewrite Ht.
  destruct (Nat.ltb_spec cut (offset + best values x)) as [Hb|Hb].
  { split; [lia|]. intros rest. by rewrite Nat.sub_diag. }
  assert (Hx : x <> "").
  { intros Hx. apply (f_equal String.length) in Hx. unfold x in Hx. rewrite string_length_drop in Hx. cbn in Hx. lia. }
  set (n := Nat.max (best values x) 1).
  destruct (IH (offset + n)%nat) as [Hr Hsplit]; [subst n; lia|subst n; lia|].
  set (r := boundaryLoop fuel t value (offset + n) cut) in *. split; [subst n; lia|]. unfold splitsAt. intros rest. fold x.
  assert (Hxl : (n <= String.length x)%nat).
  { pose proof (best_length values x). destruct x; [done|]. subst n. cbn in *. lia. }
  assert (Hext : best values (x +:+ rest) = best values x).
  { apply best_extend; [done|]. intros v Hv. by apply Hc. }
  assert (Htake : best values (string_take (r - offset) x) = best values x) by (apply best_take; subst n; lia).
  rewrite (mask_step (x +:+ rest)), (mask_step (string_take (r - offset) x)).
  - rewrite Hext, Htake. fold n. rewrite string_drop_app_le by done.
    assert (Hdrop : string_drop n x = string_drop (offset + n) value)
      by (unfold x; rewrite string_drop_drop; f_equal; lia).
    rewrite Hdrop, (Hsplit rest), string_app_assoc. f_equal. f_equal.
    + apply masked_ext; [congruence|]. rewrite string_take_app_le by (subst n; lia).
      rewrite string_take_take. f_equal. subst n. lia.
    + f_equal. rewrite <- Hdrop, string_take_drop_comm. f_equal. f_equal. lia.
  - intros H. apply (f_equal String.length) in H. rewrite string_length_take in H. cbn in H. subst n. lia.
  - by destruct x.
Qed.
End Values.

(** ** The trie *)

Lemma child_setChild c n t d : child (setChild c n t) d = if decide (d = c) then Some n else child t d.
Proof.
  destruct t as [cs k]. unfold child, setChild. cbn [children]. destruct (decide (d = c)) as [->|Hne].
  - by rewrite filter_cons_True.
  - rewrite filter_cons_False by (cbn; congruence). f_equal. f_equal.
    induction cs as [|[e n'] cs IH]; [done|]. destruct (decide (e = c)) as [->|He].
    + rewrite (filter_cons_False _ _ cs) by (cbn; naive_solver). by rewrite (filter_cons_False _ (c, n') cs) by (cbn; congruence).
    + rewrite (filter_cons_True _ _ cs) by done. destruct (decide (e = d)) as [->|Hed].
      * by rewrite !filter_cons_True, IH.
      * by rewrite !filter_cons_False, IH.
Qed.
Lemma child_empty c : child emptyNode c = None.
Proof. done. Qed.

(** The length noted at a text. *)
Fixpoint lengthAt (t : secretNode) (p : string) : nat :=
  match p with
  | EmptyString => nodeLength t
  | String c p' => match child t c with Some t' => lengthAt t' p' | None => 0 end
  end.
Lemma lengthAt_empty p : lengthAt emptyNode p = 0%nat.
Proof. by destruct p. Qed.
Lemma lengthAt_addValue v n t p : lengthAt (addValue v n t) p = if decide (p = v) then n else lengthAt t p.
Proof.
  revert t p. induction v as [|c v IH]; intros t p.
  - destruct p as [|d p]; [done|]. cbn. destruct t. done.
  - cbn [addValue]. destruct p as [|d p]; [by destruct t|]. cbn [lengthAt]. rewrite child_setChild.
    destruct (decide (d = c)) as [->|Hne].
    + rewrite IH. destruct (decide (p = v)) as [->|Hpv]; [by rewrite decide_True|].
      rewrite decide_False by congruence. destruct (child t c); [done|apply lengthAt_empty].
    + rewrite decide_False by congruence. done.
Qed.

Lemma nodeLength_addValue v n t : nodeLength (addValue v n t) = if decide (v = "") then n else nodeLength t.
Proof. destruct v; [done|by destruct t]. Qed.
Lemma matchLength_addValue v n t x :
  v <> "" -> (lengthAt t v <= n)%nat ->
  matchLength (addValue v n t) x = Nat.max (if HasPrefix x v then n else 0) (matchLength t x).
Proof.
  revert t x. induction v as [|c v IH]; intros t x Hv Hn; [done|]. destruct x as [|d x]; [done|].
  cbn [addValue matchLength]. rewrite child_setChild. unfold HasPrefix. cbn [String.prefix].
  destruct (ascii_dec c d) as [<-|Hne]; [rewrite decide_True by done|rewrite decide_False by congruence; done].
  fold (HasPrefix x v). cbn [lengthAt] in Hn. set (t' := default emptyNode (child t c)).
  assert (Ht' : match child t c with Some t'' => Nat.max (nodeLength t'') (matchLength t'' x) | None => 0%nat end
                = Nat.max (nodeLength t') (matchLength t' x)).
  { subst t'. destruct (child t c); [done|]. by destruct x. }
  assert (Hn' : (lengthAt t' v <= n)%nat).
  { subst t'. destruct (child t c); [done|]. cbn. rewrite lengthAt_empty. lia. }
  rewrite Ht', nodeLength_addValue. destruct (decide (v = "")) as [->|Hv'].
  - cbn [addValue]. assert (Hm : matchLength (Node (children t') n) x = matchLength t' x).
    { destruct x as [|e x]; [done|]. cbn [matchLength]. done. }
    rewrite Hm. cbn in Hn'. assert (HasPrefix x "" = true) as -> by by destruct x. lia.
  - rewrite IH by done. lia.
Qed.

(** The trie of a list of values finds the longest one a text starts with. *)
Lemma matcher_best values x :
  Forall (fun v => v <> "") values -> secretMatchLength (newSecretMatcher values) x = best values x.
Proof.
  intros Hne. unfold secretMatchLength, newSecretMatcher.
  assert (Hgen : forall t, (forall v, lengthAt t v <= String.length v)%nat ->
    matchLength (foldl (fun t v => addValue v (String.length v) t) t values) x
    = Nat.max (best values x) (matchLength t x)).
  { induction Hne as [|v values Hv _ IH]; intros t Ht; [done|]. cbn [foldl best]. rewrite IH.
    - rewrite matchLength_addValue by done. lia.
    - intros w. rewrite lengthAt_addValue. destruct (decide (w = v)) as [->|]; [done|apply Ht]. }
  rewrite Hgen; [|intros v; rewrite lengthAt_empty; lia]. destruct x; cbn; lia.
Qed.

Implicit Types (p q : pattern).

(** A match that ends before the text does not depend on what follows; and
    whatever follows, there still is a match. *)
Definition Stable p : Prop :=
  forall x y n, p x = Some n -> (n < String.length x)%nat -> p (x +:+ y) = Some n.
Definition Lasting p : Prop := forall x y n, p x = Some n -> is_Some (p (x +:+ y)).
Definition Fixed p : Prop := forall x y n, p x = Some n -> p (x +:+ y) = Some n.

Create HintDb patterns.
Lemma Fixed_Stable p : Fixed p -> Stable p.
Proof. intros Hp x y n Hx _. by apply Hp. Qed.
Lemma Fixed_Lasting p : Fixed p -> Lasting p.
Proof. intros Hp x y n Hx. eexists. by apply Hp. Qed.
#[export] Hint Resolve Fixed_Stable Fixed_Lasting : patterns.

Lemma wordLen_Fixed w : Fixed (wordLen w).
Proof.
  enough (H : forall k w x y n, (String.length w <= k)%nat -> wordLen w x = Some n -> wordLen w (x +:+ y) = Some n)
    by (intros x y n; by eapply H).
  clear w. induction k as [|k IH]; intros w x y n Hk; (destruct w as [|a w]; [done|]); [cbn in Hk; lia|].
  destruct x as [|b x]; [done|]. rewrite string_app_cons. cbn [wordLen]. cbn in Hk.
  destruct (decide (to_lower b = a)).
  - rewrite !fmap_Some. intros (k' & Hk' & ->). exists k'. split; [|done]. apply IH; [lia|done].
  - destruct (decide _); [|done]. destruct x as [|b' x]; [done|]. rewrite string_app_cons.
    destruct (decide _); [|done]. rewrite !fmap_Some. intros (k' & Hk' & ->). exists k'. split; [|done].
    apply IH; [lia|done].
Qed.
Lemma span_app f x y : (span f x < String.length x)%nat -> span f (x +:+ y) = span f x.
Proof.
  induction x as [|c x IH]; cbn [span String.length]; [lia|]. rewrite string_app_cons. cbn [span].
  destruct (f c); [|done]. intros H. by rewrite IH by lia.
Qed.
Lemma span_app_le f x y : (span f x <= span f (x +:+ y))%nat.
Proof.
  induction x as [|c x IH]; cbn [span]; [lia|]. rewrite string_app_cons. cbn [span]. destruct (f c); lia.
Qed.
Lemma manyP_Stable f : Stable (manyP f).
Proof. intros x y n. unfold manyP. intros [= <-] Hn. by rewrite span_app. Qed.
Lemma someP_Stable f : Stable (someP f).
Proof.
  intros x y n. unfold someP. destruct (span f x) as [|k] eqn:Hs; [done|]. intros [= <-] Hn.
  by rewrite span_app, Hs by lia.
Qed.
Lemma someP_Lasting f : Lasting (someP f).
Proof.
  intros x y n. unfold someP. pose proof (span_app_le f x y). destruct (span f x); [done|].
  intros _. destruct (span f (x +:+ y)); [lia|by eexists].
Qed.
Lemma oneP_Fixed f : Fixed (oneP f).
Proof. intros [|c x] y n; [done|]. rewrite string_app_cons. done. Qed.

Lemma seqP_inv p q x n :
  seqP p q x = Some n -> q "" = None ->
  exists a b, p x = Some a /\ q (string_drop a x) = Some b /\ n = (a + b)%nat /\ (a < String.length x)%nat.
Proof.
  unfold seqP. intros H Hq. destruct (p x) as [a|]; [|done].
  destruct (q (string_drop a x)) as [b|] eqn:Hb; [|done]. injection H as <-. exists a, b.
  split_and!; [done|done|done|]. destruct (decide (a < String.length x)%nat); [done|].
  rewrite string_drop_all in Hb by lia. congruence.
Qed.
Lemma seqP_Stable p q : Stable p -> Stable q -> q "" = None -> Stable (seqP p q).
Proof.
  intros Hp Hq Hn x y n H Hl. destruct (seqP_inv _ _ _ _ H Hn) as (a & b & Ha & Hb & -> & Hal).
  unfold seqP. rewrite (Hp _ y _ Ha Hal), string_drop_app_le by lia.
  rewrite (Hq _ y _ Hb); [done|]. rewrite string_length_drop. lia.
Qed.
Lemma seqP_Lasting p q : Stable p -> Lasting q -> q "" = None -> Lasting (seqP p q).
Proof.
  intros Hp Hq Hn x y n H. destruct (seqP_inv _ _ _ _ H Hn) as (a & b & Ha & Hb & -> & Hal).
  unfold seqP. rewrite (Hp _ y _ Ha Hal), string_drop_app_le by lia.
  destruct (Hq _ y _ Hb) as [c ->]. by eexists.
Qed.
#[export] Hint Resolve wordLen_Fixed manyP_Stable someP_Stable someP_Lasting oneP_Fixed seqP_Stable
  seqP_Lasting : patterns.
#[export] Hint Extern 0 (_ "" = None) => reflexivity : patterns.

(** Two words that differ at a letter: what matches one never matches the other. *)
Definition Apart p q : Prop := forall x y n, q x = Some n -> p (x +:+ y) = None.
Lemma orP_Fixed p q : Fixed p -> Fixed q -> Apart p q -> Fixed (orP p q).
Proof.
  intros Hp Hq Ha x y n. unfold orP. destruct (p x) as [k|] eqn:Hx.
  - intros [= <-]. by rewrite (Hp _ y _ Hx).
  - intros H. rewrite (Ha _ y _ H). by apply Hq.
Qed.

Lemma to_lower_long c : String c "" <> "" -> byte c = 197 -> to_lower c = c.
Proof. intros _ H. unfold to_lower, in_range. rewrite H. done. Qed.
Lemma wordLen_apart_cons c w w' : Apart (wordLen w) (wordLen w') -> c <> "s"%char ->
  Apart (wordLen (String c w)) (wordLen (String c w')).
Proof.
  intros Ha Hc x y n. destruct x as [|b x]; [done|]. rewrite string_app_cons. cbn [wordLen].
  destruct (decide (to_lower b = c)); [|by rewrite decide_False].
  intros (k & Hk & _)%fmap_Some. by rewrite (Ha _ y _ Hk).
Qed.
(** Different letters; the long s is none of those compared with. *)
Lemma wordLen_apart_head c d w w' : c <> d -> d <> "s"%char -> to_lower (Ascii.ascii_of_nat 197) <> d ->
  Apart (wordLen (String c w)) (wordLen (String d w')).
Proof.
  intros Hcd Hd Hl x y n. destruct x as [|b x]; [done|]. rewrite string_app_cons. cbn [wordLen].
  destruct (decide (to_lower b = d)) as [Hb|]; [|by rewrite decide_False].
  intros _. rewrite decide_False by congruence. destruct (decide (c = "s"%char)); [|done].
  destruct (x +:+ y) as [|b' z]; [done|]. rewrite decide_False; [done|]. cbn. intros [= -> _]. done.
Qed.
Lemma urlScheme_Fixed : Fixed urlScheme.
Proof.
  apply orP_Fixed; [apply wordLen_Fixed..|]. do 4 (apply wordLen_apart_cons; [|discriminate]).
  by apply wordLen_apart_head.
Qed.
Lemma authKind_Fixed : Fixed (orP (wordLen "bearer") (wordLen "basic")).
Proof.
  apply orP_Fixed; [apply wordLen_Fixed..|]. apply wordLen_apart_cons; [|discriminate].
  by apply wordLen_apart_head.
Qed.
#[export] Hint Resolve urlScheme_Fixed authKind_Fixed : patterns.
Lemma userinfo_Lasting : Lasting userinfo.
Proof. unfold userinfo. auto with patterns. Qed.
Lemma authScheme_Stable : Stable authScheme.
Proof. unfold authScheme. auto 12 with patterns. Qed.
Lemma credential_Lasting : Lasting credential.
Proof. unfold credential. auto with patterns. Qed.

(** ** Texts without a match *)

Definition lasting (m : string -> option (nat * string)) : Prop :=
  forall x y, is_Some (m x) -> is_Some (m (x +:+ y)).
Lemma keeping_lasting kept secret mask :
  Stable kept -> Lasting secret -> secret "" = None -> lasting (keeping kept secret mask).
Proof.
  intros Hk Hs Hn x y. unfold keeping. destruct (kept x) as [n|] eqn:Hx; [|by intros []].
  destruct (secret (string_drop n x)) as [k|] eqn:Hsx; [|by intros []]. intros _.
  assert (Hl : (n < String.length x)%nat).
  { destruct (decide (n < String.length x)%nat); [done|]. rewrite string_drop_all in Hsx by lia. congruence. }
  rewrite (Hk _ y _ Hx Hl), string_drop_app_le by lia. destruct (Hs _ y _ Hsx) as [k' ->]. by eexists.
Qed.
Lemma credentialURL_lasting : lasting credentialURLPattern.
Proof. apply keeping_lasting; [auto with patterns|apply userinfo_Lasting|done]. Qed.
Lemma authorization_lasting : lasting authorizationPattern.
Proof. apply keeping_lasting; [apply authScheme_Stable|apply credential_Lasting|done]. Qed.

(** No pattern matches anywhere. *)
Fixpoint unformatted (s : string) : bool :=
  match s with
  | EmptyString => true
  | String _ s' =>
      bool_decide (credentialURLPattern s = None) && bool_decide (authorizationPattern s = None) && unformatted s'
  end.
Lemma unformatted_app x y : unformatted (x +:+ y) = true -> unformatted x = true /\ unformatted y = true.
Proof.
  induction x as [|c x IH]; [done|]. rewrite string_app_cons. cbn [unformatted].
  rewrite !andb_true_iff, !bool_decide_eq_true. intros [[Hu Ha] Hxy]. destruct (IH Hxy) as [Hx Hy].
  split; [|done]. split; [|done]. rewrite <- string_app_cons in Hu, Ha. split; apply eq_None_not_Some; intros H.
  - apply (credentialURL_lasting _ y) in H. rewrite Hu in H. by destruct H.
  - apply (authorization_lasting _ y) in H. rewrite Ha in H. by destruct H.
Qed.
Lemma formatMask_unformatted s : unformatted s = true -> formatMask s = s.
Proof.
  intros H. assert (Hall : replaceAll credentialURLPattern s = s /\ replaceAll authorizationPattern s = s).
  { induction s as [|c s IH]; [done|]. cbn [unformatted] in H.
    rewrite !andb_true_iff, !bool_decide_eq_true in H. destruct H as [[Hu Ha] Hs].
    rewrite !replaceAll_cons, Hu, Ha. destruct (IH Hs) as [-> ->]. done. }
  unfold formatMask. destruct Hall as [-> ->]. done.
Qed.
