(* ===== verification/RedactStream.v ===== *)
(** The streaming redactor against the redaction of the whole text. *)
From S2P Require Import Prelude GoStd GoText Redact RedactMask.

(** ** The cut *)

Lemma HasSuffix_drop s p : HasSuffix s p = true <-> exists k, (k <= String.length s)%nat /\ string_drop k s = p.
Proof.
  rewrite HasSuffix_spec. split.
  - intros [t ->]. exists (String.length t). rewrite string_length_app, string_drop_app. split; [lia|done].
  - intros (k & _ & <-). exists (string_take k s). by rewrite string_take_drop.
Qed.
Lemma prefixCuts_spec combined secret i n cut :
  (prefixCuts combined secret i n cut <= cut)%nat /\
  (forall p, (i <= p < i + n)%nat -> HasSuffix combined (string_take p secret) = true ->
     (prefixCuts combined secret i n cut <= String.length combined - p)%nat) /\
  (forall m, (m <= cut)%nat -> (forall p, (i <= p < i + n)%nat -> m <= String.length combined - p)%nat ->
     (m <= prefixCuts combined secret i n cut)%nat).
Proof.
  revert i cut. induction n as [|n IH]; intros i cut; cbn [prefixCuts].
  { split_and!; [lia|lia|auto]. }
  set (cut' := if HasSuffix combined (string_take i secret) then Nat.min cut (String.length combined - i) else cut).
  destruct (IH (S i) cut') as (H1 & H2 & H3).
  assert (Hc : (cut' <= cut)%nat) by (subst cut'; destruct (HasSuffix _ _); lia).
  split_and!; [lia| |].
  - intros p Hp Hs. destruct (decide (p = i)) as [->|]; [|apply H2; [lia|done]].
    subst cut'. rewrite Hs in *. lia.
  - intros m Hm Hall. apply H3; [|intros p Hp; apply Hall; lia].
    subst cut'. specialize (Hall i ltac:(lia)). destruct (HasSuffix _ _); lia.
Qed.

Lemma secretCut_spec combined values :
  (secretCut combined values <= String.length combined)%nat /\
  (forall v p, v ∈ values -> (0 < p < String.length v)%nat -> HasSuffix combined (string_take p v) = true ->
     (secretCut combined values <= String.length combined - p)%nat) /\
  (forall n, Forall (fun v => String.length v <= n)%nat values ->
     (String.length combined - (n - 1) <= secretCut combined values)%nat).
Proof.
  unfold secretCut. set (L := String.length combined).
  assert (Hgen : forall cut, let r := foldl (fun cut secret =>
           prefixCuts combined secret 1 (Nat.min (String.length secret - 1) L) cut) cut values in
    (r <= cut)%nat /\
    (forall v p, v ∈ values -> (0 < p < String.length v)%nat -> HasSuffix combined (string_take p v) = true ->
       (r <= L - p)%nat) /\
    (forall n, Forall (fun v => String.length v <= n)%nat values -> (L - (n - 1) <= cut)%nat -> (L - (n - 1) <= r)%nat)).
  { induction values as [|w values IH]; intros cut; cbn [foldl].
    { split_and!; [lia|set_solver|auto]. }
    set (cut' := prefixCuts combined w 1 (Nat.min (String.length w - 1) L) cut).
    destruct (prefixCuts_spec combined w 1 (Nat.min (String.length w - 1) L) cut) as (P1 & P2 & P3).
    fold cut' in P1, P2, P3. destruct (IH cut') as (H1 & H2 & H3). split_and!; [lia| |].
    - intros v p [-> | Hv]%elem_of_cons Hp Hs; [|by eapply H2].
      assert (Hlen : (p <= L)%nat).
      { apply HasSuffix_spec in Hs as [t Ht]. apply (f_equal String.length) in Ht.
        rewrite string_length_app, string_length_take in Ht. subst L. lia. }
      specialize (P2 p ltac:(lia) Hs). subst L. lia.
    - intros n Hall Hn. inversion Hall; subst. apply H3; [done|]. apply P3; [done|]. intros p Hp. subst L. lia. }
  destruct (Hgen L) as (H1 & H2 & H3). split_and!; [done|done|]. intros n Hall. apply H3; [done|lia].
Qed.

Lemma secretCut_cuttable combined values : cuttable values combined (secretCut combined values).
Proof.
  destruct (secretCut_spec combined values) as (H1 & H2 & _). split; [done|].
  intros offset v Ho Hv [Hp Hl]. rewrite string_length_drop in Hl.
  assert (Hs : HasSuffix combined (string_take (String.length combined - offset) v) = true).
  { apply HasSuffix_drop. exists offset. split; [lia|]. apply HasPrefix_spec in Hp as [t ->].
    by rewrite string_take_app_le, string_take_all by (rewrite string_length_drop; lia). }
  specialize (H2 v (String.length combined - offset)%nat Hv ltac:(lia) Hs). lia.
Qed.
Lemma cuttable_le values value cut cut' : cuttable values value cut -> (cut' <= cut)%nat -> cuttable values value cut'.
Proof. intros [H1 H2] Hle. split; [lia|]. intros offset v Ho. apply H2. lia. Qed.

(** ** Redactors as they are made *)

Record wellMade (r : Redactor) : Prop := {
  wm_values : longestFirst (rValues r);
  wm_matcher : rMatcher r = match rValues r with [] => None | _ => Some (newSecretMatcher (rValues r)) end;
  wm_max : Forall (fun v => String.length v <= rMaxLength r)%nat (rValues r);
}.
#[export] Instance longerFirst_total : Total longerFirst.
Proof. intros a b. unfold longerFirst. lia. Qed.
Lemma fromValues_wellMade values : Forall (fun v => v <> "") values -> wellMade (fromValues values).
Proof.
  intros Hne. unfold fromValues. pose proof (Sorted_merge_sort longerFirst values) as Hs.
  pose proof (merge_sort_Permutation longerFirst values) as Hp.
  destruct (merge_sort longerFirst values) as [|v rest] eqn:Hm; [by repeat constructor|].
  assert (Hall : Forall (fun v => v <> "") (v :: rest)) by by rewrite Hp.
  split; cbn; [done|done|]. apply Sorted_StronglySorted in Hs; [|apply _]. inversion Hs; subst.
  constructor; [done|]. done.
Qed.
Lemma envValue_nonempty entry v : envValue entry = Some v -> v <> "".
Proof. unfold envValue. destruct (Cut entry "=") as [[k w]|]; [|done]. case_bool_decide; naive_solver. Qed.
Lemma NewRedactor_wellMade env : wellMade (NewRedactor env).
Proof.
  apply fromValues_wellMade. induction env as [|e env IH]; [constructor|]. cbn.
  destruct (envValue e) as [v|] eqn:He; [|done]. constructor; [by eapply envValue_nonempty|done].
Qed.

Section Stream.
Context (lowerRune : string -> string) (r : Redactor) (Hr : wellMade r).
Abbreviation values := (rValues r).

Lemma maskValues_mask s : maskValues r s = mask values s.
Proof.
  unfold maskValues. rewrite (wm_matcher _ Hr). destruct (rValues r); [|done].
  unfold mask. induction s as [|c s IH]; [done|]. rewrite replaceAll_cons. cbn. by f_equal.
Qed.

Lemma boundaryLoop_full t value fuel offset :
  (forall x, secretMatchLength t x = best values x) ->
  (offset <= String.length value)%nat -> (String.length value - offset < fuel)%nat ->
  boundaryLoop fuel t value offset (String.length value) = String.length value.
Proof.
  intros Ht. revert offset. induction fuel as [|fuel IH]; intros offset Ho Hf; [done|]. cbn [boundaryLoop].
  destruct (Nat.leb_spec (String.length value) offset); [done|]. cbv zeta. rewrite Ht.
  pose proof (best_length values (string_drop offset value)) as Hb. rewrite string_length_drop in Hb.
  destruct (Nat.ltb_spec (String.length value) (offset + best values (string_drop offset value))); [lia|].
  apply IH; lia.
Qed.

(** The cut never splits a value, whatever is written next. *)
Lemma boundary_splits value cut :
  cuttable values value cut ->
  let c := completeSecretBoundary r value cut in (c <= cut)%nat /\ splitsAt values value 0 c.
Proof.
  intros Hc. unfold completeSecretBoundary. rewrite (wm_matcher _ Hr).
  assert (Ht : forall x, secretMatchLength (newSecretMatcher values) x = best values x).
  { intros x. apply matcher_best. apply (wm_values _ Hr). }
  pose proof (boundaryLoop_splits values (wm_values _ Hr) _ value cut (S cut) 0 Ht Hc ltac:(lia) ltac:(lia)) as [Hle Hsp].
  destruct (rValues r) as [|v rest] eqn:Hv.
  - split; [lia|]. intros rest. cbn [string_drop]. rewrite Nat.sub_0_r.
    pose proof maskValues_mask as Hm. rewrite Hv in Hm. rewrite <- !Hm. unfold maskValues.
    rewrite (wm_matcher _ Hr), Hv. by rewrite string_app_assoc, string_take_drop.
  - destruct (Nat.eqb_spec cut (String.length value)) as [->|Hne]; [|cbv zeta; split; [lia|done]].
    split; [lia|]. rewrite <- Hv in *. by rewrite boundaryLoop_full in Hsp by (done || lia).
Qed.

Lemma RedactChunk_splits pending chunk s' out :
  RedactChunk lowerRune (mkStreaming (Some r) pending) chunk = Some (s', out) ->
  exists piece, sBase s' = Some r /\ pending +:+ chunk = piece +:+ sPending s' /\ out = Redact (Some r) piece /\
    forall rest, maskValues r (piece +:+ (sPending s' +:+ rest)) = maskValues r piece +:+ maskValues r (sPending s' +:+ rest).
Proof.
  unfold RedactChunk. cbn [sBase sPending]. set (combined := pending +:+ chunk).
  destruct (incompleteCredentialURLStart lowerRune combined) as [f|]; [|done]. cbn.
  set (cut := if 0 <=? f then _ else _). intros [= <- <-]. cbn [sBase sPending].
  assert (Hc : cuttable values combined cut).
  { eapply cuttable_le; [apply secretCut_cuttable|]. subst cut. destruct (0 <=? f); lia. }
  destruct (boundary_splits _ _ Hc) as [Hle Hs]. set (c := completeSecretBoundary r combined cut) in *.
  exists (string_take c combined). split_and!; [done|by rewrite string_take_drop|done|].
  intros rest. rewrite string_app_assoc, string_take_drop, !maskValues_mask.
  specialize (Hs rest). cbn [string_drop] in Hs. by rewrite Nat.sub_0_r in Hs.
Qed.

Fixpoint cat (l : list string) : string := match l with [] => "" | s :: rest => s +:+ cat rest end.

Lemma redactChunks_splits chunks pending s' out :
  redactChunks lowerRune (mkStreaming (Some r) pending) chunks = Some (s', out) ->
  exists pieces, sBase s' = Some r /\ pending +:+ cat chunks = cat pieces +:+ sPending s' /\
    out = cat (Redact (Some r) <$> pieces) /\
    forall rest, maskValues r (cat pieces +:+ (sPending s' +:+ rest)) =
      cat (maskValues r <$> pieces) +:+ maskValues r (sPending s' +:+ rest).
Proof.
  revert pending s' out. induction chunks as [|chunk chunks IH]; intros pending s' out; cbn [redactChunks].
  { intros [= <- <-]. exists []. cbn. split_and!; try done. by rewrite string_app_nil_r. }
  destruct (RedactChunk lowerRune (mkStreaming (Some r) pending) chunk) as [[s1 o1]|] eqn:H1; [|done]. cbn.
  destruct (RedactChunk_splits _ _ _ _ H1) as (p1 & Hb1 & Hp1 & -> & Hm1).
  destruct s1 as [b1 pend1]. cbn [sBase sPending] in *. subst b1.
  destruct (redactChunks lowerRune (mkStreaming (Some r) pend1) chunks) as [[s2 o2]|] eqn:H2; [|done]. cbn.
  intros [= <- <-]. destruct (IH _ _ _ H2) as (pieces & Hb & Hp & -> & Hm).
  exists (p1 :: pieces). cbn. split_and!; [done| |done|].
  - rewrite (string_app_assoc pending), Hp1, <- !string_app_assoc. by rewrite Hp.
  - intros rest. assert (Hrest : cat pieces +:+ (sPending s2 +:+ rest) = pend1 +:+ (cat chunks +:+ rest)).
    { by rewrite string_app_assoc, <- Hp, string_app_assoc. }
    rewrite <- !string_app_assoc, Hrest, Hm1, <- Hrest, Hm. done.
Qed.
End Stream.

Lemma unformatted_cat l : unformatted (cat l) = true -> Forall (fun s => unformatted s = true) l.
Proof.
  induction l as [|s l IH]; [done|]. cbn [cat]. intros [Hs Hl]%unformatted_app. constructor; auto.
Qed.
Lemma cat_app l1 l2 : cat (l1 ++ l2) = cat l1 +:+ cat l2.
Proof. induction l1 as [|s l1 IH]; [done|]. cbn. by rewrite IH, string_app_assoc. Qed.

(** A stream is redacted in pieces of the text, in which the secrets of the whole
    text are masked. *)
Lemma redactStream_pieces lowerRune r chunks out :
  wellMade r -> redactStream lowerRune (Some r) chunks = Some out ->
  exists pieces, cat pieces = cat chunks /\ out = cat (Redact (Some r) <$> pieces) /\
    cat (maskValues r <$> pieces) = maskValues r (cat chunks).
Proof.
  intros Hr Hout. unfold redactStream in Hout. destruct (redactChunks _ _ _) as [[s o]|] eqn:Hc; [|done]. cbn in Hout.
  injection Hout as <-. destruct (redactChunks_splits _ r Hr _ _ _ _ Hc) as (pieces & Hb & Hp & -> & Hm).
  exists (pieces ++ [sPending s]). rewrite !fmap_app, !cat_app. cbn [cat fmap list_fmap]. rewrite !string_app_nil_r.
  split_and!; [by rewrite <- Hp|by rewrite Hb|]. specialize (Hm ""). rewrite !string_app_nil_r in Hm.
  rewrite <- Hm, <- Hp. done.
Qed.
(** Without credentials in formats there is nothing else to mask. *)
Lemma pieces_unformatted r pieces text :
  cat (maskValues r <$> pieces) = maskValues r text -> unformatted (maskValues r text) = true ->
  cat (Redact (Some r) <$> pieces) = Redact (Some r) text.
Proof.
  intros Hm Hu. rewrite <- Hm in Hu. unfold Redact at 2. rewrite <- Hm, formatMask_unformatted by done.
  apply unformatted_cat in Hu. clear -Hu. induction pieces as [|p l IH]; [done|].
  inversion Hu; subst. cbn. rewrite IH by done. f_equal. by apply formatMask_unformatted.
Qed.

(** C17: However a text is cut into writes, when the streaming redactor does not
    fail, it redacts the text in pieces that together are the text, and the known
    values of the environment are masked exactly as in the whole text: none escapes
    by being split across writes, and none is masked that the whole text would not
    have masked.  Credentials that are known only by their form, in a URL or a
    header, are found piece by piece; so what is written is what redacting the whole
    text gives when the text, its values masked, has none ([unformatted]), and may
    differ when a credential is split (the example [split_credential_escapes]). *)
Theorem stream_masks_values lowerRune env chunks out :
  let r := NewRedactor env in
  redactStream lowerRune (Some r) chunks = Some out ->
  (exists pieces, cat pieces = cat chunks /\ out = cat (Redact (Some r) <$> pieces) /\
     cat (maskValues r <$> pieces) = maskValues r (cat chunks)) /\
  (unformatted (maskValues r (cat chunks)) = true -> out = Redact (Some r) (cat chunks)).
Proof.
  intros r Hout. destruct (redactStream_pieces _ r _ _ (NewRedactor_wellMade env) Hout) as (pieces & Hp & -> & Hm).
  split; [by exists pieces|]. by apply pieces_unformatted.
Qed.

(** ** How much is held back *)

Lemma sliceFrom_le value start s : sliceFrom value start = Some s -> start <= len value.
Proof. unfold sliceFrom. destruct (_ && _) eqn:Hc; [|done]. apply andb_true_iff in Hc. lia. Qed.
Lemma sliceFrom_len value start s : sliceFrom value start = Some s -> len s = len value - start.
Proof.
  unfold sliceFrom. destruct (_ && _) eqn:Hc; [|done]. apply andb_true_iff in Hc as [H1%Z.leb_le H2%Z.leb_le].
  intros [= <-]. unfold len in *. rewrite string_length_drop. lia.
Qed.
Lemma prefixStart_ge value low prefix i n start :
  prefixStart value low prefix i n = Some start -> len value - Z.of_nat (i + n) <= start.
Proof.
  revert i. induction n as [|n IH]; intros i; cbn [prefixStart]; [done|].
  destruct (HasSuffix _ _); [intros [= <-]; lia|]. intros H. apply IH in H. lia.
Qed.
Lemma splitSchemeStart_ge value low : len value - 8 <= splitSchemeStart value low \/ splitSchemeStart value low < 0.
Proof.
  unfold splitSchemeStart. destruct (prefixStart value low "http://" 1 6) as [a|] eqn:Ha.
  - apply prefixStart_ge in Ha. lia.
  - destruct (prefixStart value low "https://" 1 7) as [b|] eqn:Hb; [apply prefixStart_ge in Hb|]; cbn; lia.
Qed.
Lemma splitAuthorizationStart_ge value low :
  len value - 23 <= splitAuthorizationStart value low \/ splitAuthorizationStart value low < 0.
Proof.
  unfold splitAuthorizationStart, authorizationPrefixStart.
  change (String.length "authorization: bearer ") with 22%nat.
  change (String.length "authorization: basic ") with 21%nat.
  set (a := prefixStart value low "authorization: bearer " 1 22).
  set (b := prefixStart value low "authorization: basic " 1 21).
  assert (Ha : forall z, a = Some z -> len value - 23 <= z) by (intros z Hz; apply prefixStart_ge in Hz; lia).
  assert (Hb : forall z, b = Some z -> len value - 23 <= z) by (intros z Hz; apply prefixStart_ge in Hz; lia).
  destruct a as [x|], b as [y|]; cbn; try specialize (Ha _ eq_refl); try specialize (Hb _ eq_refl);
    repeat case_match; lia.
Qed.
Lemma formatStart_ge lowerRune value f :
  incompleteCredentialURLStart lowerRune value = Some f -> 0 <= f -> len value - 512 <= f.
Proof.
  unfold incompleteCredentialURLStart, credentialURLStart. set (low := lower lowerRune value).
  assert (Hrest : forall g, (let scheme := splitSchemeStart value low in
      if 0 <=? scheme then scheme else splitAuthorizationStart value low) = g -> 0 <= g -> len value - 512 <= g).
  { intros g. cbv zeta. pose proof (splitSchemeStart_ge value low). pose proof (splitAuthorizationStart_ge value low).
    destruct (Z.leb_spec 0 (splitSchemeStart value low)); intros <-; lia. }
  set (start := Z.max _ _). destruct (Z.ltb_spec start 0) as [|Hs].
  - cbn. intros [= Hf]. by apply Hrest.
  - destruct (sliceFrom value start) as [suffix|] eqn:Hsl; [|done]. cbn.
    pose proof (sliceFrom_len _ _ _ Hsl) as Hlen.
    destruct (Z.leb_spec (len suffix) 512); cbn [andb]; [|cbn; intros [= Hf]; by apply Hrest].
    destruct (_ && _); [|cbn; intros [= Hf]; by apply Hrest].
    destruct (Z.leb_spec 0 start); [|lia]. intros [= <-]. lia.
Qed.

Lemma boundaryLoop_ge t value cut fuel offset n :
  (forall x, secretMatchLength t x <= n)%nat -> (offset <= cut)%nat ->
  (cut - (n - 1) <= boundaryLoop fuel t value offset cut)%nat.
Proof.
  intros Hn. revert offset. induction fuel as [|fuel IH]; intros offset Ho; cbn [boundaryLoop]; [lia|].
  destruct (Nat.leb_spec cut offset); [lia|]. cbv zeta. specialize (Hn (string_drop offset value)) as Hx.
  destruct (Nat.ltb_spec cut (offset + secretMatchLength t (string_drop offset value))); [lia|]. apply IH. lia.
Qed.

(** What a redactor may hold back: less than twice its longest value, or that
    value and the 512 bytes a URL is looked for in. *)
Definition holdLimit (r : Redactor) : Z :=
  Z.max 512 (Z.of_nat (rMaxLength r)) + Z.of_nat (rMaxLength r).

(** C21: The streaming redactor holds back a bounded suffix, however long the
    output and however often a secret repeats in it: less than twice the longest
    known value, or less than that value and 512 bytes of a possible URL. *)
Theorem pending_bounded lowerRune env s chunk s' out :
  sBase s = Some (NewRedactor env) -> RedactChunk lowerRune s chunk = Some (s', out) ->
  len (sPending s') <= holdLimit (NewRedactor env).
Proof.
  unfold holdLimit. pose proof (NewRedactor_wellMade env) as Hr. set (r := NewRedactor env) in *. clearbody r. intros Hb.
  unfold RedactChunk. rewrite Hb. set (combined := sPending s +:+ chunk).
  destruct (incompleteCredentialURLStart lowerRune combined) as [f|] eqn:Hf; [|done]. cbn.
  set (cut := if 0 <=? f then _ else _). intros [= <- _]. cbn [sPending].
  destruct (secretCut_spec combined (rValues r)) as (Hle & _ & Hge). specialize (Hge _ (wm_max _ Hr)).
  assert (Hcut : (cut <= String.length combined)%nat /\
    Z.of_nat (String.length combined) - Z.max 512 (Z.of_nat (rMaxLength r)) <= Z.of_nat cut).
  { pose proof (formatStart_ge _ _ _ Hf) as Hfg. unfold len in Hfg. subst cut. destruct (Z.leb_spec 0 f); lia. }
  assert (Hc : (cut - (rMaxLength r - 1) <= completeSecretBoundary r combined cut)%nat).
  { unfold completeSecretBoundary. destruct (rMatcher r) as [t|] eqn:Hm; [|lia].
    destruct (Nat.eqb_spec cut (String.length combined)); [lia|]. apply boundaryLoop_ge; [|lia]. intros x.
    rewrite (wm_matcher _ Hr) in Hm. destruct (rValues r) as [|v rest] eqn:Hv; [done|]. injection Hm as <-.
    rewrite <- Hv. rewrite matcher_best by apply (wm_values _ Hr). apply best_bounded, (wm_max _ Hr). }
  unfold len. rewrite string_length_drop. lia.
Qed.

(** ** Panics *)

Fixpoint isASCII (s : string) : bool :=
  match s with EmptyString => true | String c s' => (byte c <? 128) && isASCII s' end.
Lemma isASCII_app x y : isASCII (x +:+ y) = isASCII x && isASCII y.
Proof. induction x as [|c x IH]; [done|]. rewrite string_app_cons. cbn. by rewrite IH, andb_assoc. Qed.
Lemma lower_length lowerRune s : isASCII s = true -> String.length (lower lowerRune s) = String.length s.
Proof.
  unfold lower. induction s as [|c s IH]; [done|]. cbn [isASCII]. intros [Hc Hs]%andb_true_iff.
  cbn [mapRunes rune_len]. unfold rune_size at 1. rewrite Hc. cbn [foldCase].
  rewrite string_length_app, IH by done. done.
Qed.
Lemma LastIndex_le s sub : LastIndex s sub <= len s.
Proof.
  unfold len. induction s as [|c s IH]; cbn [LastIndex]; [destruct (HasPrefix _ _); cbn; lia|].
  cbv zeta. cbn [String.length]. destruct (Z.leb_spec 0 (LastIndex s sub)); [lia|]. destruct (HasPrefix _ _); lia.
Qed.
Lemma RedactChunk_total lowerRune r pending chunk :
  isASCII pending = true -> isASCII chunk = true ->
  exists s' out, RedactChunk lowerRune (mkStreaming r pending) chunk = Some (s', out) /\
    sBase s' = r /\ isASCII (sPending s') = true.
Proof.
  intros Hp Hc. unfold RedactChunk. cbn [sBase sPending]. set (combined := pending +:+ chunk).
  assert (Ha : isASCII combined = true) by (unfold combined; by rewrite isASCII_app, Hp, Hc).
  destruct r as [r|]; [|eexists _, _; split; [done|by split]].
  assert (Hf : is_Some (incompleteCredentialURLStart lowerRune combined)).
  { unfold incompleteCredentialURLStart, credentialURLStart. set (low := lower lowerRune combined).
    assert (Hl : len low = len combined) by (unfold len, low; by rewrite lower_length).
    pose proof (LastIndex_le low "http://"). pose proof (LastIndex_le low "https://").
    set (start := Z.max _ _). destruct (Z.ltb_spec start 0); [by eexists|].
    unfold sliceFrom. rewrite (proj2 (Z.leb_le 0 start)), (proj2 (Z.leb_le start (len combined))) by lia.
    cbn. repeat case_match; by eexists. }
  destruct Hf as [f Hf]. rewrite Hf. cbn. eexists _, _. split; [done|]. split; [done|]. cbn.
  set (cut := completeSecretBoundary _ _ _). rewrite <- (string_take_drop cut combined), isASCII_app in Ha.
  by apply andb_true_iff in Ha as [_ ->].
Qed.

(** Redacting ASCII output never panics, however it is cut into writes. *)
Theorem stream_never_panics lowerRune r chunks :
  Forall (fun chunk => isASCII chunk = true) chunks -> is_Some (redactStream lowerRune r chunks).
Proof.
  intros Hall. unfold redactStream.
  assert (H : forall pending, isASCII pending = true ->
    is_Some (redactChunks lowerRune (mkStreaming r pending) chunks)).
  { induction Hall as [|chunk chunks Hc _ IH]; intros pending Hp; [by eexists|]. cbn [redactChunks].
    destruct (RedactChunk_total lowerRune r pending chunk Hp Hc) as ([b p] & out & -> & Hb & Ha).
    cbn in *. subst b. destruct (IH p Ha) as [[s2 o2] ->]. by eexists. }
  destruct (H "" eq_refl) as [[s o] Hs]. unfold NewStreamingRedactor. rewrite Hs. by eexists.
Qed.

(** Four bytes that are no text before a URL: lowering them makes twelve, the
    position found in the lowered text lies behind the end of the chunk. *)
Example invalid_bytes_panic lowerRune :
  redactStream lowerRune (Some (NewRedactor [])) [u8 [255; 255; 255; 255]%nat +:+ "http://"] = None.
Proof. vm_compute. reflexivity. Qed.
(** A header whose credential is split across two writes: the rest of the
    credential is written as it is. *)
Example split_credential_escapes lowerRune :
  redactStream lowerRune (Some (NewRedactor [])) ["Authorization: Bearer api"; "-token"]
  = Some "Authorization: Bearer ***-token".
Proof. vm_compute. reflexivity. Qed.

(** *** Witnesses *)

Lemma stream_masks_values_witness :
  exists out, redactStream (fun s => s) (Some (NewRedactor ["A=abcabcX"; "B=abcabc"])) ["ordinary abc"; "ab"; "cX abcabc"] = Some out /\
    out = Redact (Some (NewRedactor ["A=abcabcX"; "B=abcabc"])) "ordinary abcabcX abcabc".
Proof.
  exists "ordinary *** ***". split; [vm_compute; reflexivity|].
  refine (proj2 (stream_masks_values (fun s => s) ["A=abcabcX"; "B=abcabc"] ["ordinary abc"; "ab"; "cX abcabc"]
                   "ordinary *** ***" _) _); vm_compute; reflexivity.
Defined.
Lemma pending_bounded_witness :
  exists s' out, RedactChunk (fun s => s) (NewStreamingRedactor (Some (NewRedactor ["T=abcabc"]))) "abcabcabcab" = Some (s', out) /\
    sPending s' = "abcab" /\ len (sPending s') <= Z.max 512 6 + 6.
Proof.
  eexists _, _. split; [vm_compute; reflexivity|]. split; [vm_compute; reflexivity|].
  apply (pending_bounded (fun s => s) ["T=abcabc"] (NewStreamingRedactor (Some (NewRedactor ["T=abcabc"]))) "abcabcabcab" _ "***"); vm_compute; reflexivity.
Defined.
Lemma stream_never_panics_witness :
  is_Some (redactStream (fun s => s) (Some (NewRedactor ["T=abcabc"])) ["see http"; "s://u:p@h"]).
Proof. apply stream_never_panics. repeat constructor. Defined.
