(* ===== verification/Graph.v ===== *)
(** The dependency graph of dev container features
    (src/pkg/devcontainer/graph/graph.go): nodes with data, ordered adjacency
    lists, an in-degree counter per node and a set of hard edges; editing,
    reachability, and Kahn's algorithm in rounds. *)
From S2P Require Import Prelude GoStd.

(** ** Data and operations *)

Record Graph (T : Type) := mkGraph {
  nodes : gmap string T;
  edges : gmap string (list string);
  inDegree : gmap string Z;
  hardEdges : gmap string (gmap string bool);
}.
Arguments mkGraph {T} _ _ _ _.
Arguments nodes {T} _.
Arguments edges {T} _.
Arguments inDegree {T} _.
Arguments hardEdges {T} _.

(** Reading a Go map yields the zero value for an absent key. *)
Definition edgesOf (es : gmap string (list string)) (id : string) : list string :=
  default [] (es !! id).
Definition degreeOf (m : gmap string Z) (id : string) : Z := default 0 (m !! id).

Section Operations.
Context {T : Type}.
Implicit Types (g : Graph T) (id : string).

Definition NewGraph : Graph T := mkGraph ∅ ∅ ∅ ∅.

Definition HasNode g id : bool := bool_decide (is_Some (nodes g !! id)).

Definition insertNode g id (data : T) : Graph T :=
  mkGraph (<[id := data]> (nodes g)) (<[id := []]> (edges g))
          (<[id := 0]> (inDegree g)) (hardEdges g).

Definition AddNode g id (data : T) : Graph T * err :=
  if HasNode g id then (g, Some (Errorf "node %s already exists" [AStr id]))
  else (insertNode g id data, None).

(** The node named in the error is the first existing one in the iteration
    order; nothing else depends on that order. *)
Definition AddNodes g (new : gmap string T) : Graph T * err :=
  match filter (fun p => HasNode g p.1) (map_to_list new) with
  | (id, _) :: _ => (g, Some (Errorf "node %s already exists" [AStr id]))
  | [] => (foldl (fun g' p => insertNode g' p.1 p.2) g (map_to_list new), None)
  end.

Definition AddEdge g (from to : string) : Graph T * err :=
  if negb (HasNode g from) then
    (g, Some (Errorf "source node %s does not exist" [AStr from]))
  else if negb (HasNode g to) then
    (g, Some (Errorf "target node %s does not exist" [AStr to]))
  else if bool_decide (to ∈ edgesOf (edges g) from) then (g, None)
  else (mkGraph (nodes g)
          (<[from := edgesOf (edges g) from ++ [to]]> (edges g))
          (<[to := degreeOf (inDegree g) to + 1]> (inDegree g))
          (hardEdges g), None).

Definition deleteAll (x : string) (l : list string) : list string :=
  filter (fun y => y <> x) l.

Definition RemoveEdge g (from to : string) : Graph T * err :=
  if negb (HasNode g from) then
    (g, Some (Errorf "source node %s does not exist" [AStr from]))
  else if negb (HasNode g to) then
    (g, Some (Errorf "target node %s does not exist" [AStr to]))
    else
  let old := edgesOf (edges g) from in
    let new := deleteAll to old in
    (mkGraph (nodes g) (<[from := new]> (edges g))
       (if bool_decide (length new < length old)%nat && (0 <? degreeOf (inDegree g) to)
        then <[to := degreeOf (inDegree g) to - 1]> (inDegree g)
        else inDegree g)
       (hardEdges g), None).

Definition GetNode g id : option T := nodes g !! id.

Definition UpdateNode g id (data : T) : Graph T * err :=
  if negb (HasNode g id) then (g, Some (Errorf "node %s does not exist" [AStr id]))
  else (mkGraph (<[id := data]> (nodes g)) (edges g) (inDegree g) (hardEdges g), None).

Definition SetNode g id (data : T) : Graph T * err :=
  if HasNode g id then UpdateNode g id data else AddNode g id data.

(** [if inDegree[c] > 0 { inDegree[c]-- }] *)
Definition decrementPositive (m : gmap string Z) (c : string) : gmap string Z :=
  if 0 <? degreeOf m c then <[c := degreeOf m c - 1]> m else m.

Definition RemoveNode g id : Graph T * err :=
  if negb (HasNode g id) then (g, Some (Errorf "node %s does not exist" [AStr id]))
  else
    let deg := foldl decrementPositive (inDegree g) (edgesOf (edges g) id) in
    (mkGraph (delete id (nodes g))
             (delete id (deleteAll id <$> edges g))
             (delete id deg) (hardEdges g), None).

Definition GetChildren g id : list string := edgesOf (edges g) id.

Definition GetParents g id : list string :=
  sortStrings ((filter (fun p : string * list string => id ∈ p.2) (map_to_list (edges g))).*1).

Definition HasEdge g (from to : string) : bool :=
  bool_decide (to ∈ edgesOf (edges g) from).

Definition MarkEdgeHard g (from to : string) : Graph T :=
  mkGraph (nodes g) (edges g) (inDegree g)
    (<[from := <[to := true]> (default ∅ (hardEdges g !! from))]> (hardEdges g)).

Definition isHard g (from to : string) : bool :=
  default false (default ∅ (hardEdges g !! from) !! to).

Definition NodeCount g : nat := size (nodes g).
Definition EdgeCount g : nat :=
  sum_list_with (fun p : string * list string => length p.2) (map_to_list (edges g)).
Definition IsEmpty g : bool := bool_decide (size (nodes g) = 0%nat).
Definition GetNodes g : gmap string T := nodes g.

(** [collectChildren]: depth-first with an explicit stack.  A popped node that
    was visited is dropped; the children pushed are those not yet visited.
    [None] is out of fuel. *)
Fixpoint collectLoop (fuel : nat) g (stack : list string) (visited : gset string)
    (acc : list string) : option (list string) :=
  match stack, fuel with
  | [], _ => Some acc
  | _, O => None
  | current :: rest, S fuel' =>
      if decide (current ∈ visited) then collectLoop fuel' g rest visited acc
      else
        let visited' := {[current]} ∪ visited in
        let pushed := filter (fun c => c ∉ visited') (edgesOf (edges g) current) in
        collectLoop fuel' g (reverse pushed ++ rest) visited' (acc ++ [current])
  end.
(** Every popped entry but the first was pushed once, along an edge. *)
Definition walkFuel g : nat := S (EdgeCount g).
Definition collectChildren g id : list string :=
  default [] (collectLoop (walkFuel g) g [id] ∅ []).

Fixpoint removeAll g (ids : list string) : Graph T * err :=
  match ids with
  | [] => (g, None)
  | id :: rest =>
      match RemoveNode g id with
      | (g', None) => removeAll g' rest
      | (g', Some e) => (g', Some e)
      end
  end.

Definition RemoveSubGraph g id : Graph T * err :=
  if negb (HasNode g id) then (g, None) else removeAll g (collectChildren g id).

Fixpoint removeSubGraphs g (ids : list string) : Graph T * err :=
  match ids with
  | [] => (g, None)
  | id :: rest =>
      match RemoveSubGraph g id with
      | (g', None) => removeSubGraphs g' rest
      | (g', Some e) => (g', Some e)
      end
  end.
Definition RemoveChildren g id : Graph T * err := removeSubGraphs g (GetChildren g id).

(** One pass over the neighbours of [current]: [None] when the target was
    seen, else the extended visited set and the nodes enqueued. *)
Fixpoint scanNeighbors g (hardOnly : bool) (current to : string)
    (ns : list string) (visited : gset string) : option (gset string * list string) :=
  match ns with
  | [] => Some (visited, [])
  | n :: ns' =>
      if hardOnly && negb (isHard g current n) then
        scanNeighbors g hardOnly current to ns' visited
      else if decide (n = to) then None
      else if decide (n ∈ visited) then scanNeighbors g hardOnly current to ns' visited
      else match scanNeighbors g hardOnly current to ns' ({[n]} ∪ visited) with
           | None => None
           | Some (v, q) => Some (v, n :: q)
           end
  end.

(** The queue loop; [None] is out of fuel. *)
Fixpoint reachLoop (fuel : nat) g (hardOnly : bool) (to : string)
    (queue : list string) (visited : gset string) : option bool :=
  match fuel, queue with
  | _, [] => Some false
  | O, _ => None
  | S fuel', current :: rest =>
      match scanNeighbors g hardOnly current to (edgesOf (edges g) current) visited with
      | None => Some true
      | Some (visited', q) => reachLoop fuel' g hardOnly to (rest ++ q) visited'
      end
  end.
Definition isReachable g (from to : string) (hardOnly : bool) : option bool :=
  if decide (from = to) then Some true
  else reachLoop (walkFuel g) g hardOnly to [from] ∅.
Definition IsReachable g (from to : string) : option bool := isReachable g from to false.
Definition IsReachableViaHardEdges g (from to : string) : option bool :=
  isReachable g from to true.

(** *** Sorting *)

Definition collectZeroInDegree (deg : gmap string Z) : list string :=
  (filter (fun p : string * Z => p.2 = 0) (map_to_list deg)).*1.

Definition decrement (deg : gmap string Z) (n : string) : gmap string Z :=
  <[n := degreeOf deg n - 1]> deg.

Definition advanceNode (es : gmap string (list string)) (deg : gmap string Z)
    (id : string) : gmap string Z :=
  foldl decrement (delete id deg) (edgesOf es id).
Definition advanceRound (round : list string) (es : gmap string (list string))
    (deg : gmap string Z) : gmap string Z :=
  foldl (advanceNode es) deg round.

(** The [for] loop both sorts share; [order] arranges one round.  The result
    is the sorted list and the remaining degrees, [None] out of fuel. *)
Fixpoint sortRounds (order : list string -> list string) (fuel : nat)
    (es : gmap string (list string)) (deg : gmap string Z) (sorted : list string)
    : option (list string * gmap string Z) :=
  match fuel with
  | O => None
  | S fuel' =>
      match collectZeroInDegree deg with
      | [] => Some (sorted, deg)
      | zs =>
          let round := order zs in
          sortRounds order fuel' es (advanceRound round es deg) (sorted ++ round)
      end
  end.

Definition cycleError (remaining : list string) : goerr :=
  Errorf "circular dependency detected among nodes: %v"
    [AStr ("[" +:+ Join (sortStrings remaining) " " +:+ "]")].

Definition sortFuel g : nat := S (S (size (inDegree g))).

Definition sortNodeIDs g : option (goerr + list string) :=
  match sortRounds sortStrings (sortFuel g) (edges g) (inDegree g) [] with
  | None => None
  | Some (sorted, deg) =>
      if decide (length sorted = size (nodes g)) then Some (inr sorted)
      else Some (inl (cycleError ((map_to_list deg).*1)))
  end.

Definition comparePriority (priority : gmap string Z) (a b : string) : bool :=
  match priority !! a, priority !! b with
  | Some pa, Some pb => if pa =? pb then String.ltb a b else pa <? pb
  | Some _, None => true
  | None, Some _ => false
  | None, None => String.ltb a b
  end.
Definition notAfter (priority : gmap string Z) (a b : string) : Prop :=
  comparePriority priority b a = false.
#[export] Instance notAfter_dec priority : RelDecision (notAfter priority).
Proof. intros a b. unfold notAfter. apply _. Defined.
Definition sortByPriority (priority : gmap string Z) (ids : list string) : list string :=
  merge_sort (notAfter priority) ids.

Definition circularDependencyError (deg : gmap string Z) : goerr :=
  cycleError ((filter (fun p : string * Z => 0 < p.2) (map_to_list deg)).*1).

Definition sortNodeIDsWithPriority g (priority : gmap string Z)
    : option (goerr + list string) :=
  match sortRounds (sortByPriority priority) (sortFuel g) (edges g) (inDegree g) [] with
  | None => None
  | Some (sorted, deg) =>
      if decide (length sorted = size (nodes g)) then Some (inr sorted)
      else Some (inl (circularDependencyError deg))
  end.

(** [result[i] = g.nodes[id]]; [zero] is [T]'s zero value. *)
Definition nodeData (zero : T) g (ids : list string) : list T :=
  map (fun id => default zero (nodes g !! id)) ids.
Definition mapSorted (zero : T) g (r : option (goerr + list string))
    : option (goerr + list T) :=
  match r with
  | Some (inr ids) => Some (inr (nodeData zero g ids))
  | Some (inl e) => Some (inl e)
  | None => None
  end.
Definition Sort (zero : T) g := mapSorted zero g (sortNodeIDs g).
Definition SortWithPriority (zero : T) g (priority : gmap string Z) :=
  mapSorted zero g (sortNodeIDsWithPriority g priority).
Definition SortNodeIDs g := sortNodeIDs g.

(** *** The queue version *)

Definition initializeQueue (deg : gmap string Z) : list string :=
  sortStrings (collectZeroInDegree deg).

Definition insertAt (i : Z) (x : string) (l : list string) : list string :=
  take (Z.to_nat i) l ++ x :: drop (Z.to_nat i) l.

Definition processNeighbor (st : gmap string Z * list string) (n : string)
    : gmap string Z * list string :=
  let deg := decrement st.1 n in
  (deg, if degreeOf deg n =? 0 then insertAt (SearchStrings st.2 n) n st.2 else st.2).
Definition processNeighbors (es : gmap string (list string)) (current : string)
    (deg : gmap string Z) (queue : list string) : gmap string Z * list string :=
  foldl processNeighbor (deg, queue) (edgesOf es current).

Fixpoint processLoop (fuel : nat) (es : gmap string (list string))
    (deg : gmap string Z) (queue : list string) (count : nat) : option nat :=
  match queue, fuel with
  | [], _ => Some count
  | _, O => None
  | current :: rest, S fuel' =>
      let '(deg', queue') := processNeighbors es current deg rest in
      processLoop fuel' es deg' queue' (S count)
  end.
Definition HasCircularDependency g : option bool :=
  match processLoop (S (size (nodes g))) (edges g) (inDegree g)
          (initializeQueue (inDegree g)) 0 with
  | Some count => Some (negb (bool_decide (count = size (nodes g))))
  | None => None
  end.

(** [String]: the node lines in sorted order. *)
Definition nodeLine g id : string :=
  match GetChildren g id with
  | [] => "  " +:+ id +:+ nl
  | children => "  " +:+ id +:+ " -> [" +:+ Join children " " +:+ "]" +:+ nl
  end.
Definition GraphString g : string :=
  if IsEmpty g then "Graph: empty"
  else "Graph: " +:+ pretty (NodeCount g) +:+ " nodes, " +:+ pretty (EdgeCount g) +:+ " edges" +:+
       nl +:+ Join (map (nodeLine g) (sortStrings ((map_to_list (nodes g)).*1))) "".
End Operations.

(** ** The well-formedness invariant *)

(** The sources of the edges into [v]. *)
Definition predsOf (es : gmap string (list string)) (v : string) : gset string :=
  dom (filter (fun p : string * list string => v ∈ p.2) es).

Record wf {T} (g : Graph T) : Prop := {
  wf_edges : dom (edges g) = dom (nodes g);
  wf_degrees : dom (inDegree g) = dom (nodes g);
  wf_targets u v : v ∈ edgesOf (edges g) u -> v ∈ dom (nodes g);
  wf_simple u : NoDup (edgesOf (edges g) u);
  wf_count v : v ∈ dom (nodes g) ->
               inDegree g !! v = Some (Z.of_nat (size (predsOf (edges g) v)));
}.

Section EdgeLemmas.
Implicit Types (es : gmap string (list string)) (m : gmap string Z).

Lemma edgesOf_insert es k l u :
  edgesOf (<[k := l]> es) u = if decide (k = u) then l else edgesOf es u.
Proof. unfold edgesOf. rewrite lookup_insert. by case_decide. Qed.

Lemma edgesOf_delete es k u :
  edgesOf (delete k es) u = if decide (k = u) then [] else edgesOf es u.
Proof. unfold edgesOf. rewrite lookup_delete. by case_decide. Qed.

Lemma edgesOf_deleteAll es x u :
  edgesOf (deleteAll x <$> es) u = deleteAll x (edgesOf es u).
Proof. unfold edgesOf. rewrite lookup_fmap. by destruct (es !! u). Qed.

Lemma elem_of_deleteAll x y l : y ∈ deleteAll x l <-> y ∈ l /\ y <> x.
Proof. unfold deleteAll. rewrite list_elem_of_filter. tauto. Qed.

Lemma NoDup_deleteAll x l : NoDup l -> NoDup (deleteAll x l).
Proof. apply NoDup_filter. Qed.

Lemma deleteAll_notin x l : x ∉ l -> deleteAll x l = l.
Proof.
  unfold deleteAll. induction l as [|y l IH]; intros Hx; [done|].
  apply not_elem_of_cons in Hx as [Hne Hx].
  rewrite filter_cons_True by done. by rewrite IH.
Qed.

Lemma elem_of_predsOf es u v : u ∈ predsOf es v <-> v ∈ edgesOf es u.
Proof.
  unfold predsOf, edgesOf. rewrite elem_of_dom. split.
  - intros [l [Hl Hv]%map_lookup_filter_Some]. by rewrite Hl.
  - destruct (es !! u) as [l|] eqn:Hl; simpl; [|set_solver].
    intros Hv. exists l. by apply map_lookup_filter_Some.
Qed.

Lemma degreeOf_insert m k z v :
  degreeOf (<[k := z]> m) v = if decide (k = v) then z else degreeOf m v.
Proof. unfold degreeOf. rewrite lookup_insert. by case_decide. Qed.

Lemma degreeOf_lookup m v z : m !! v = Some z -> degreeOf m v = z.
Proof. unfold degreeOf. by intros ->. Qed.

Lemma lookup_degreeOf m v : v ∈ dom m -> m !! v = Some (degreeOf m v).
Proof. intros [z Hz]%elem_of_dom. by rewrite Hz, (degreeOf_lookup _ _ _ Hz). Qed.

Lemma size_singleton_difference (X : gset string) x :
  x ∈ X -> Z.of_nat (size (X ∖ {[x]})) = Z.of_nat (size X) - 1.
Proof.
  intros Hx. rewrite size_difference by set_solver. rewrite size_singleton.
  assert (size X <> 0%nat); [|lia]. apply size_non_empty_iff. set_solver.
Qed.

Lemma decrementPositive_dom m c : dom (decrementPositive m c) = dom m.
Proof.
  unfold decrementPositive. destruct (Z.ltb_spec 0 (degreeOf m c)); [|done].
  rewrite dom_insert_L. apply subseteq_union_1_L, singleton_subseteq_l, elem_of_dom. unfold degreeOf in *. destruct (m !! c); [done|simpl in *; lia].
Qed.

Lemma foldl_decrementPositive m l v :
  NoDup l ->
  degreeOf (foldl decrementPositive m l) v =
    if decide (v ∈ l /\ 0 < degreeOf m v) then degreeOf m v - 1 else degreeOf m v.
Proof.
  revert m. induction l as [|c l IH]; intros m Hnd; cbn [foldl].
  { rewrite decide_False; [done|set_solver]. }
  apply NoDup_cons in Hnd as [Hc Hnd]. rewrite IH by done.
  unfold decrementPositive. destruct (Z.ltb_spec 0 (degreeOf m c)) as [Hpos|Hpos].
  - rewrite degreeOf_insert. destruct (decide (c = v)) as [->|Hne].
    + rewrite (decide_False (P := v ∈ l /\ _)) by tauto.
      by rewrite decide_True by set_solver.
    + apply decide_ext. set_solver.
  - apply decide_ext. split; [set_solver|].
    intros [[->|?]%elem_of_cons ?]; [lia|done].
Qed.

Lemma foldl_decrementPositive_dom m l : dom (foldl decrementPositive m l) = dom m.
Proof.
  revert m. induction l as [|c l IH]; intros m; simpl; [done|].
  by rewrite IH, decrementPositive_dom.
Qed.
End EdgeLemmas.

Section Invariant.
Context {T : Type}.
Implicit Types (g : Graph T).

Lemma HasNode_true g id : HasNode g id = true <-> id ∈ dom (nodes g).
Proof. unfold HasNode. rewrite bool_decide_eq_true, elem_of_dom. done. Qed.

Lemma HasNode_false g id : HasNode g id = false <-> id ∉ dom (nodes g).
Proof. unfold HasNode. rewrite bool_decide_eq_false, elem_of_dom. done. Qed.

Lemma wf_source g u v : wf g -> v ∈ edgesOf (edges g) u -> u ∈ dom (nodes g).
Proof.
  intros Hg Hv. rewrite <- (wf_edges _ Hg). apply elem_of_dom.
  unfold edgesOf in Hv. destruct (edges g !! u); [done|set_solver].
Qed.

Lemma wf_degree g v : wf g -> v ∈ dom (nodes g) ->
  degreeOf (inDegree g) v = Z.of_nat (size (predsOf (edges g) v)).
Proof. intros Hg Hv. by apply degreeOf_lookup, wf_count. Qed.

Lemma NewGraph_wf : wf (NewGraph : Graph T).
Proof. 
  split; simpl; unfold edgesOf; rewrite ?dom_empty_L; simpl.
  1-2: done.
  - intros u v. rewrite lookup_empty. simpl. set_solver.
  - intros u. rewrite lookup_empty. constructor.
  - intros v. set_solver.
Qed.

Lemma insertNode_wf g id data : wf g -> id ∉ dom (nodes g) -> wf (insertNode g id data).
Proof.
  intros Hg Hid.
  assert (Hno : edgesOf (edges g) id = []).
  { unfold edgesOf. rewrite (not_elem_of_dom_1 (edges g) id); [done|].
    by rewrite (wf_edges _ Hg). }
  assert (Heo : forall u, edgesOf (<[id := []]> (edges g)) u = edgesOf (edges g) u).
  { intros u. rewrite edgesOf_insert. case_decide; by subst. }
  assert (Hpr : forall v, predsOf (<[id := []]> (edges g)) v = predsOf (edges g) v).
  { intros v. apply set_eq. intros u. by rewrite !elem_of_predsOf, Heo. }
  split; simpl.
  - rewrite !dom_insert_L, (wf_edges _ Hg). done.
  - rewrite !dom_insert_L, (wf_degrees _ Hg). done.
  - intros u v. rewrite Heo. intros Hv%(wf_targets _ Hg). set_solver.
  - intros u. rewrite Heo. apply (wf_simple _ Hg).
  - intros v. rewrite dom_insert_L, Hpr, lookup_insert. case_decide as Hv.
    + subst v. intros _. do 2 f_equal. symmetry. apply Nat2Z.inj_iff with (m := 0%nat).
      apply size_empty_iff. intros u. rewrite elem_of_predsOf. split; [|set_solver].
      intros Hin%(wf_targets _ Hg). done.
    + intros Hin. apply (wf_count _ Hg). set_solver.
Qed.

Lemma AddNode_wf g id data : wf g -> wf (AddNode g id data).1.
Proof.
  intros Hg. unfold AddNode. destruct (HasNode g id) eqn:Hid; [done|].
  apply insertNode_wf; [done|]. by apply HasNode_false.
Qed.

Lemma AddNodes_wf g new : wf g -> wf (AddNodes g new).1.
Proof.
  intros Hg. unfold AddNodes. destruct (filter _ _) as [|[? ?] ?] eqn:Hf; [|done].
  simpl. assert (Hnew : forall p, p ∈ map_to_list new -> p.1 ∉ dom (nodes g)).
  { intros p Hp. apply HasNode_false, not_true_is_false. intros Ht.
    assert (Hin : p ∈ filter (fun p : string * T => HasNode g p.1) (map_to_list new)).
    { apply list_elem_of_filter. by rewrite Ht. }
    rewrite Hf in Hin. set_solver. }
  assert (Hnd : NoDup (map_to_list new).*1) by apply NoDup_fst_map_to_list.
  clear Hf. revert g Hg Hnew.
  induction (map_to_list new) as [|p l IH]; intros g Hg Hnew; simpl; [done|].
  apply NoDup_cons in Hnd as [Hp Hnd].
  apply IH; [done|apply insertNode_wf; [done|set_solver]|].
  intros q Hq. simpl. rewrite dom_insert_L, not_elem_of_union, not_elem_of_singleton.
  split; [|set_solver]. intros Heq. apply Hp. rewrite <- Heq. by apply list_elem_of_fmap_2.
Qed.

Lemma AddEdge_wf g from to : wf g -> wf (AddEdge g from to).1.
Proof.
  intros Hg. unfold AddEdge.
  destruct (HasNode g from) eqn:Hf; simpl; [apply HasNode_true in Hf|done].
  destruct (HasNode g to) eqn:Ht; simpl; [apply HasNode_true in Ht|done].
  case_bool_decide as Hin; simpl; [done|].
  assert (Hto : to ∈ dom (inDegree g)) by (by rewrite (wf_degrees _ Hg)).
  split; simpl.
  - rewrite dom_insert_L, (wf_edges _ Hg). set_solver.
  - rewrite dom_insert_L, (wf_degrees _ Hg). set_solver.
  - intros u v. rewrite edgesOf_insert. case_decide; [|apply (wf_targets _ Hg)].
    intros [Hv%(wf_targets _ Hg)|]%elem_of_app; [done|set_solver].
  - intros u. rewrite edgesOf_insert. case_decide; [|apply (wf_simple _ Hg)].
    apply NoDup_app. split; [apply (wf_simple _ Hg)|].
    split; [set_solver|apply NoDup_singleton].
  - intros v Hv. rewrite lookup_insert. case_decide as Hvt.
    + subst v. rewrite (wf_degree _ _ Hg Ht). do 2 f_equal.
      assert (predsOf (<[from:=edgesOf (edges g) from ++ [to]]> (edges g)) to =
              {[from]} ∪ predsOf (edges g) to) as ->.
      { apply set_eq. intros u.
        rewrite elem_of_union, elem_of_singleton, !elem_of_predsOf, edgesOf_insert.
        case_decide; set_solver. }
      rewrite size_union, size_singleton; [lia|].
      intros u. rewrite elem_of_singleton, elem_of_predsOf. naive_solver.
    + rewrite (wf_count _ Hg) by done. do 3 f_equal. apply set_eq. intros u.
      rewrite !elem_of_predsOf, edgesOf_insert. case_decide; set_solver.
Qed.

Lemma RemoveEdge_wf g from to : wf g -> wf (RemoveEdge g from to).1.
Proof.
  intros Hg. unfold RemoveEdge.
  destruct (HasNode g from) eqn:Hf; simpl; [apply HasNode_true in Hf|done].
  destruct (HasNode g to) eqn:Ht; simpl; [apply HasNode_true in Ht|done].
  set (old := edgesOf (edges g) from). set (cond := bool_decide _ && _).
  assert (Hcond : cond = bool_decide (to ∈ old)).
  { unfold cond. destruct (decide (to ∈ old)) as [Hin|Hout].
    - rewrite (bool_decide_eq_true_2 (to ∈ old)) by done. apply andb_true_intro. split.
      + apply bool_decide_eq_true. unfold deleteAll.
        apply (length_filter_lt _ _ to); [done|tauto].
      + apply Z.ltb_lt. rewrite (wf_degree _ _ Hg Ht).
        assert (size (predsOf (edges g) to) <> 0%nat); [|lia].
        apply size_non_empty_iff. intros Hemp.
        assert (from ∈ predsOf (edges g) to) by (by apply elem_of_predsOf). set_solver.
    - rewrite (bool_decide_eq_false_2 (to ∈ old)) by done.
      rewrite (bool_decide_eq_false_2 (_ < _)%nat); [done|].
      rewrite deleteAll_notin by done. lia. }
  clearbody cond. subst cond.
  assert (Hpr : forall u v,
    u ∈ predsOf (<[from:=deleteAll to old]> (edges g)) v <->
    u ∈ predsOf (edges g) v /\ (u = from -> v <> to)).
  { intros u v. rewrite !elem_of_predsOf, edgesOf_insert.
    case_decide; subst; [rewrite elem_of_deleteAll|]; naive_solver. }
  split; simpl.
  - rewrite dom_insert_L, (wf_edges _ Hg). set_solver.
  - case_bool_decide; [|apply (wf_degrees _ Hg)].
    rewrite dom_insert_L, (wf_degrees _ Hg). set_solver.
  - intros u v [Hv _]%elem_of_predsOf%Hpr.
    by apply (wf_targets _ Hg u), elem_of_predsOf.
  - intros u. rewrite edgesOf_insert.
    case_decide; [apply NoDup_deleteAll|]; apply (wf_simple _ Hg).
  - intros v Hv. case_bool_decide as Hin; [rewrite lookup_insert; case_decide as Hvt|].
    + subst v. rewrite (wf_degree _ _ Hg Ht). f_equal.
      rewrite <- (size_singleton_difference _ from) by (by apply elem_of_predsOf).
      do 2 f_equal. apply set_eq. intros u. rewrite Hpr. set_solver.
    + rewrite (wf_count _ Hg) by done. do 3 f_equal. apply set_eq. intros u.
      rewrite Hpr. naive_solver.
    + rewrite (wf_count _ Hg) by done. do 3 f_equal. apply set_eq. intros u.
      rewrite Hpr. split; [|naive_solver]. intros Hu. split; [done|].
      intros -> ->. by apply Hin, elem_of_predsOf.
Qed.

Lemma UpdateNode_wf g id data : wf g -> wf (UpdateNode g id data).1.
Proof.
  intros Hg. unfold UpdateNode.
  destruct (HasNode g id) eqn:Hid; simpl; [apply HasNode_true in Hid|done].
  assert (Hd : dom (<[id := data]> (nodes g)) = dom (nodes g)).
  { rewrite dom_insert_L. set_solver. }
  destruct Hg. split; simpl; rewrite ?Hd; done.
Qed.

Lemma SetNode_wf g id data : wf g -> wf (SetNode g id data).1.
Proof.
  intros Hg. unfold SetNode.
  destruct (HasNode g id); auto using UpdateNode_wf, AddNode_wf.
Qed.

Lemma MarkEdgeHard_wf g from to : wf g -> wf (MarkEdgeHard g from to).
Proof. intros Hg. destruct Hg. by split. Qed.

(** The edges left after [RemoveNode g id]. *)
Lemma RemoveNode_edges g id u v :
  id ∈ dom (nodes g) ->
  v ∈ edgesOf (edges (RemoveNode g id).1) u <->
  v ∈ edgesOf (edges g) u /\ u <> id /\ v <> id.
Proof.
  intros Hid%HasNode_true. unfold RemoveNode. rewrite Hid. simpl.
  rewrite edgesOf_delete. case_decide; [set_solver|].
  rewrite edgesOf_deleteAll, elem_of_deleteAll. naive_solver.
Qed.

Lemma RemoveNode_wf g id : wf g -> wf (RemoveNode g id).1.
Proof.
  intros Hg. destruct (HasNode g id) eqn:Hid; [|by unfold RemoveNode; rewrite Hid].
  apply HasNode_true in Hid. pose proof (RemoveNode_edges g id) as He.
  revert He. unfold RemoveNode. rewrite (proj2 (HasNode_true g id) Hid). simpl. intros He.
  split; simpl.
  - by rewrite !dom_delete_L, dom_fmap_L, (wf_edges _ Hg).
  - by rewrite !dom_delete_L, foldl_decrementPositive_dom, (wf_degrees _ Hg).
  - intros u v [Hv [? ?]]%He; [|done]. apply (wf_targets _ Hg) in Hv. set_solver.
  - intros u. rewrite edgesOf_delete. case_decide; [constructor|].
    rewrite edgesOf_deleteAll. apply NoDup_deleteAll, (wf_simple _ Hg).
  - intros v. rewrite dom_delete_L, elem_of_difference, elem_of_singleton.
    intros [Hv Hne]. rewrite lookup_delete_ne by done.
    rewrite lookup_degreeOf by (by rewrite foldl_decrementPositive_dom, (wf_degrees _ Hg)).
    f_equal. rewrite foldl_decrementPositive by apply (wf_simple _ Hg).
    rewrite (wf_degree _ _ Hg Hv).
    assert (Hp : predsOf (delete id (deleteAll id <$> edges g)) v =
                 predsOf (edges g) v ∖ {[id]}).
    { apply set_eq. intros u. rewrite elem_of_difference, elem_of_singleton.
      rewrite !elem_of_predsOf, He by done. naive_solver. }
    rewrite Hp. case_decide as Hc.
    + symmetry. apply size_singleton_difference. apply elem_of_predsOf. tauto.
    + do 2 f_equal. apply set_eq. intros u. rewrite elem_of_difference, elem_of_singleton.
      split; [|tauto]. intros Hu. split; [done|]. intros ->. apply Hc.
      split; [by apply elem_of_predsOf|].
      assert (size (predsOf (edges g) v) <> 0%nat); [|lia].
      apply size_non_empty_iff. set_solver.
Qed.

Lemma removeAll_wf g ids : wf g -> wf (removeAll g ids).1.
Proof.
  revert g. induction ids as [|id ids IH]; intros g Hg; simpl; [done|].
  pose proof (RemoveNode_wf g id Hg). destruct (RemoveNode g id) as [g' [e|]]; auto.
Qed.

Lemma RemoveSubGraph_wf g id : wf g -> wf (RemoveSubGraph g id).1.
Proof. intros Hg. unfold RemoveSubGraph. case_match; [done|by apply removeAll_wf]. Qed.

Lemma RemoveChildren_wf g id : wf g -> wf (RemoveChildren g id).1.
Proof.
  unfold RemoveChildren. generalize (GetChildren g id). intros ids. revert g.
  induction ids as [|c ids IH]; intros g Hg; simpl; [done|].
  pose proof (RemoveSubGraph_wf g c Hg). destruct (RemoveSubGraph g c) as [g' [e|]]; auto.
Qed.
End Invariant.

#[export] Hint Resolve NewGraph_wf AddNode_wf AddNodes_wf AddEdge_wf RemoveEdge_wf
  UpdateNode_wf SetNode_wf MarkEdgeHard_wf RemoveNode_wf RemoveSubGraph_wf
  RemoveChildren_wf : graph.

(** ** Editing as a transition system *)

Inductive graphOp (T : Type) :=
| OpAddNode (id : string) (data : T)
| OpAddNodes (new : gmap string T)
| OpAddEdge (from to : string)
| OpRemoveEdge (from to : string)
| OpUpdateNode (id : string) (data : T)
| OpSetNode (id : string) (data : T)
| OpRemoveNode (id : string)
| OpRemoveSubGraph (id : string)
| OpRemoveChildren (id : string)
| OpMarkEdgeHard (from to : string).
Arguments OpAddNode {T}. Arguments OpAddNodes {T}. Arguments OpAddEdge {T}.
Arguments OpRemoveEdge {T}. Arguments OpUpdateNode {T}. Arguments OpSetNode {T}.
Arguments OpRemoveNode {T}. Arguments OpRemoveSubGraph {T}.
Arguments OpRemoveChildren {T}. Arguments OpMarkEdgeHard {T}.

Definition runOp {T} (g : Graph T) (op : graphOp T) : Graph T :=
  match op with
  | OpAddNode id data => (AddNode g id data).1
  | OpAddNodes new => (AddNodes g new).1
  | OpAddEdge from to => (AddEdge g from to).1
  | OpRemoveEdge from to => (RemoveEdge g from to).1
  | OpUpdateNode id data => (UpdateNode g id data).1
  | OpSetNode id data => (SetNode g id data).1
  | OpRemoveNode id => (RemoveNode g id).1
  | OpRemoveSubGraph id => (RemoveSubGraph g id).1
  | OpRemoveChildren id => (RemoveChildren g id).1
  | OpMarkEdgeHard from to => MarkEdgeHard g from to
  end.

Lemma runOp_wf {T} (g : Graph T) op : wf g -> wf (runOp g op).
Proof. destruct op; simpl; auto with graph. Qed.

Lemma runOps_wf {T} (g : Graph T) ops : wf g -> wf (foldl runOp g ops).
Proof. revert g. induction ops; simpl; auto using runOp_wf. Qed.

(** C6: Every sequence of editing operations on a new graph keeps the
    adjacency lists, the node table and the in-degree counters consistent. *)
Theorem editing_keeps_graph_wf {T} (ops : list (graphOp T)) : wf (foldl runOp NewGraph ops).
Proof. apply runOps_wf, NewGraph_wf. Qed.
