(* ===== verification/GraphReach.v ===== *)
(** Reachability in the feature graph: the breadth-first search of
    [isReachable] and the depth-first collection of [RemoveSubGraph] compute the
    reflexive-transitive closure of the edge relation, within their fuel.  And what
    editing does to nodes and edges, for the clients that build a graph: options
    and features. *)
From S2P Require Import Prelude GoStd Graph.

(** The edges the search may follow. *)
Definition stepG {T} (g : Graph T) (hardOnly : bool) (u v : string) : Prop :=
  v ∈ edgesOf (edges g) u /\ (hardOnly = true -> isHard g u v = true).
Definition edge {T} (g : Graph T) (u v : string) : Prop := v ∈ edgesOf (edges g) u.

#[export] Instance edge_dec {T} (g : Graph T) u v : Decision (edge g u v).
Proof. unfold edge. apply _. Defined.

(** ** Counting *)

(** The edges leaving the nodes outside [visited]. *)
Definition pending (es : gmap string (list string)) (visited : gset string) : nat :=
  sum_list_with (fun p : string * list string => length p.2)
    (map_to_list (filter (fun p : string * list string => p.1 ∉ visited) es)).

Lemma sum_list_with_Permutation {A} (f : A -> nat) l k :
  l ≡ₚ k -> sum_list_with f l = sum_list_with f k.
Proof. induction 1; simpl; lia. Qed.

Lemma pending_visit es x visited :
  x ∉ visited ->
  pending es visited = (length (edgesOf es x) + pending es ({[x]} ∪ visited))%nat.
Proof.
  intros Hx. unfold pending, edgesOf. destruct (es !! x) as [l|] eqn:Hl; simpl.
  - assert (filter (fun p : string * list string => p.1 ∉ visited) es =
            <[x := l]> (filter (fun p : string * list string => p.1 ∉ {[x]} ∪ visited) es))
      as ->.
    { apply map_eq. intros y. rewrite lookup_insert. case_decide as Hxy.
      - subst y. by apply map_lookup_filter_Some.
      - apply option_eq. intros k. rewrite !map_lookup_filter_Some. set_solver. }
    erewrite sum_list_with_Permutation; [|apply map_to_list_insert]; [done|].
    apply map_lookup_filter_None. right. set_solver.
  - do 2 f_equal. apply map_filter_ext. intros y k Hk.
    rewrite not_elem_of_union, not_elem_of_singleton. naive_solver.
Qed.

Lemma pending_empty {T} (g : Graph T) : pending (edges g) ∅ = EdgeCount g.
Proof.
  unfold pending, EdgeCount. do 2 f_equal. apply map_eq. intros i. apply option_eq.
  intros l. rewrite map_lookup_filter_Some. set_solver.
Qed.

(** All edge targets; there are at most [EdgeCount] of them. *)
Definition targets (es : gmap string (list string)) : gset string :=
  ⋃ map (fun p : string * list string => list_to_set p.2) (map_to_list es).

Lemma elem_of_targets es u v : v ∈ edgesOf es u -> v ∈ targets es.
Proof.
  unfold edgesOf, targets. intros Hv. destruct (es !! u) as [l|] eqn:Hl; [|set_solver].
  apply elem_of_union_list. exists (list_to_set l).
  split; [|by apply elem_of_list_to_set].
  apply list_elem_of_fmap. exists (u, l). split; [done|]. by apply elem_of_map_to_list.
Qed.

Lemma size_targets {T} (g : Graph T) : (size (targets (edges g)) <= EdgeCount g)%nat.
Proof.
  unfold targets, EdgeCount. induction (map_to_list (edges g)) as [|p l IH].
  { cbn [map union_list fold_right]. by rewrite size_empty. }
  cbn [map union_list fold_right sum_list_with].
  pose proof (size_list_to_set_le p.2).
  pose proof (size_union_le (list_to_set p.2 : gset string)
    (⋃ map (fun p : string * list string => list_to_set p.2) l)). lia.
Qed.

(** ** The breadth-first search *)

Section Reach.
Context {T : Type} (g : Graph T) (hardOnly : bool) (from to : string).
Abbreviation step := (stepG g hardOnly).

Lemma scanNeighbors_spec current ns visited :
  ns ⊆ edgesOf (edges g) current ->
  match scanNeighbors g hardOnly current to ns visited with
  | None => step current to
  | Some (visited', q) =>
      (visited' = visited ∪ list_to_set q) /\ NoDup q /\
      (forall x, x ∈ q -> (x ∉ visited) /\ step current x /\ x <> to) /\
      (forall x, x ∈ ns -> step current x -> x ∈ visited' /\ x <> to)
  end.
Proof.
  revert visited. induction ns as [|n ns IH]; intros visited Hsub; simpl.
  { split; [set_solver|]. split; [constructor|]. split; set_solver. }
  destruct (hardOnly && negb (isHard g current n)) eqn:Hskip.
  { assert (~ step current n).
    { intros [_ Hh]. apply andb_true_iff in Hskip as [-> Hn].
      rewrite Hh in Hn by done. done. }
    specialize (IH visited ltac:(set_solver)).
    destruct (scanNeighbors _ _ _ _ ns visited) as [[v q]|]; [|done].
    destruct IH as (Hv & Hnd & Hq & Hns). split_and!; [done..|].
    intros x [->|Hx]%elem_of_cons Hs; [done|auto]. }
  assert (Hstep : step current n).
  { split; [set_solver|]. intros ->. by destruct (isHard g current n). }
  case_decide as Hnt; [by subst|]. case_decide as Hvis.
  { specialize (IH visited ltac:(set_solver)).
    destruct (scanNeighbors _ _ _ _ ns visited) as [[v q]|]; [|done].
    destruct IH as (-> & Hnd & Hq & Hns). split_and!; [done..|].
    intros x [->|Hx]%elem_of_cons Hs; [set_solver|auto]. }
  specialize (IH ({[n]} ∪ visited) ltac:(set_solver)).
  destruct (scanNeighbors _ _ _ _ ns _) as [[v q]|]; [|done].
  destruct IH as (-> & Hnd & Hq & Hns). split_and!.
  - set_solver.
  - constructor; [|done]. intros Hin. apply Hq in Hin. set_solver.
  - intros x [->|Hx]%elem_of_cons; [done|]. apply Hq in Hx. set_solver.
  - intros x [->|Hx]%elem_of_cons Hs; [set_solver|auto].
Qed.

Record searching (queue : list string) (visited : gset string) : Prop := {
  sr_reach x : x ∈ queue \/ x ∈ visited -> rtc step from x;
  sr_target : to ∉ visited;
  sr_bound : visited ⊆ targets (edges g);
  sr_closed x y : (x = from \/ x ∈ visited) -> x ∉ queue -> step x y ->
                  y ∈ visited /\ y <> to;
}.

(** An exhausted search has missed nothing. *)
Lemma searching_done visited :
  from <> to -> searching [] visited -> ~ rtc step from to.
Proof.
  intros Hne Hs Hr.
  assert (Hin : forall x y, rtc step x y -> x = from \/ x ∈ visited ->
                            y = from \/ y ∈ visited).
  { intros x y. induction 1 as [|x y z Hxy _ IH]; [done|]. intros Hx. apply IH. right.
    by apply (sr_closed _ _ Hs x y Hx (not_elem_of_nil x)). }
  destruct (Hin _ _ Hr (or_introl eq_refl)) as [|Hv]; [done|].
  by apply (sr_target _ _ Hs).
Qed.

Lemma reachLoop_spec fuel queue visited :
  from <> to ->
  searching queue visited ->
  (length queue + size (targets (edges g) ∖ visited) <= fuel)%nat ->
  exists b, reachLoop fuel g hardOnly to queue visited = Some b /\
            (b = true <-> rtc step from to).
Proof.
  intros Hne. revert queue visited.
  induction fuel as [|fuel IH]; intros [|current rest] visited Hs Hfuel; simpl in *;
    [|lia| |].
  1,2: exists false; split; [done|]; split; [done|];
    intros Hr; by destruct (searching_done visited).
  pose proof (scanNeighbors_spec current (edgesOf (edges g) current) visited
                ltac:(done)) as Hscan.
  assert (Hcur : rtc step from current) by (apply (sr_reach _ _ Hs); set_solver).
  destruct (scanNeighbors _ _ _ _ _ _) as [[visited' q]|].
  2: { exists true. split; [done|]. split; [intros _|done].
       by eapply rtc_r. }
  destruct Hscan as (-> & Hnd & Hq & Hns).
  assert (Hqt : list_to_set q ⊆ targets (edges g) ∖ visited).
  { intros x Hx%elem_of_list_to_set. apply Hq in Hx as (? & [Hx _] & _).
    apply elem_of_targets in Hx. set_solver. }
  apply IH.
  - split.
    + intros x [[Hx|Hx]%elem_of_app|[Hx|Hx%elem_of_list_to_set]%elem_of_union].
      1,3: apply (sr_reach _ _ Hs); set_solver.
      all: apply Hq in Hx as (_ & Hx & _); by eapply rtc_r.
    + intros [Hx|Hx%elem_of_list_to_set]%elem_of_union; [by apply (sr_target _ _ Hs)|].
      by apply Hq in Hx as (_ & _ & ?).
    + pose proof (sr_bound _ _ Hs). set_solver.
    + intros x y Hx Hxq Hxy. destruct (decide (x = current)) as [->|Hxc].
      * apply Hns; [by destruct Hxy|done].
      * destruct (sr_closed _ _ Hs x y) as [? ?]; [|set_solver|done|set_solver].
        destruct Hx as [|[?|?]%elem_of_union]; set_solver.
  - rewrite length_app.
    assert (Heq : targets (edges g) ∖ (visited ∪ list_to_set q) =
                  targets (edges g) ∖ visited ∖ list_to_set q) by set_solver.
    rewrite Heq, (size_difference _ _ Hqt), size_list_to_set by done.
    pose proof (subseteq_size _ _ Hqt) as Hsz. rewrite size_list_to_set in Hsz by done.
    lia.
Qed.

Lemma isReachable_total :
  exists b, isReachable g from to hardOnly = Some b /\ (b = true <-> rtc step from to).
Proof.
  unfold isReachable. case_decide as Hft.
  { exists true. subst. split; [done|]. split; [constructor|done]. }
  apply reachLoop_spec; [done| |].
  - split; set_solver.
  - pose proof (size_targets g). unfold walkFuel. simpl.
    rewrite difference_empty_L. lia.
Qed.
End Reach.

(** ** The depth-first collection *)

Section Collect.
Context {T : Type} (g : Graph T) (root : string).

Record collecting (stack : list string) (visited : gset string) (acc : list string)
  : Prop := {
    co_acc : list_to_set acc = visited;
  co_nodup : NoDup acc;
  co_reach x : x ∈ stack \/ x ∈ visited -> rtc (edge g) root x;
  co_root : root ∈ stack \/ root ∈ visited;
  co_closed x y : x ∈ visited -> edge g x y -> y ∈ visited \/ y ∈ stack;
}.

Lemma collecting_done visited acc :
  collecting [] visited acc ->
  NoDup acc /\ forall x, x ∈ acc <-> rtc (edge g) root x.
Proof.
  intros [Ha Hn Hr Ho Hcl]. split; [done|]. intros x.
  rewrite <- (elem_of_list_to_set (C := gset string)), Ha.
  split; [intros; apply Hr; tauto|]. intros Hx.
  assert (Hin : forall x y, rtc (edge g) x y -> x ∈ visited -> y ∈ visited).
  { clear -Hcl. induction 1 as [|x y z Hxy _ IH]; [done|].
    intros Hx. destruct (Hcl x y Hx Hxy) as [|Hy]; [auto|set_solver]. }
  apply (Hin root); [done|]. destruct Ho as [Ho|]; [set_solver|done].
Qed.

Lemma collectLoop_spec fuel stack visited acc :
  collecting stack visited acc ->
  (length stack + pending (edges g) visited <= fuel)%nat ->
  exists l, collectLoop fuel g stack visited acc = Some l /\ NoDup l /\
            forall x, x ∈ l <-> rtc (edge g) root x.
Proof.
  revert stack visited acc.
  induction fuel as [|fuel IH]; intros [|current rest] visited acc Hc Hfuel; simpl in *;
    [|lia| |].
  1,2: exists acc; split; [done|by eapply collecting_done].
  - case_decide as Hvis.
    + apply IH; [|lia]. destruct Hc as [Ha Hn Hr Ho Hcl]. split; [done|done| | |].
      * intros x Hx. apply Hr. set_solver.
      * destruct Ho; set_solver.
      * intros x y Hx Hxy. destruct (Hcl x y Hx Hxy); set_solver.
    + set (pushed := filter (fun c => c ∉ _) _).
      assert (Hpushed : forall c, c ∈ pushed <->
                edge g current c /\ c <> current /\ c ∉ visited).
      { intros c. unfold pushed. rewrite list_elem_of_filter. unfold edge. set_solver. }
      apply IH.
      * destruct Hc as [Ha Hn Hr Ho Hcl]. split.
        -- rewrite list_to_set_app_L, Ha. set_solver.
        -- apply NoDup_app. split; [done|]. split; [|apply NoDup_singleton].
           intros x Hx. rewrite <- Ha, elem_of_list_to_set in Hvis. set_solver.
        -- intros x [[Hx%elem_of_reverse%Hpushed|Hx]%elem_of_app|Hx].
           ++ apply (rtc_r _ current); [apply Hr; set_solver|tauto].
           ++ apply Hr. set_solver.
           ++ apply Hr. set_solver.
        -- destruct Ho; set_solver.
        -- intros x y Hx Hxy. rewrite elem_of_app, elem_of_reverse, Hpushed.
           destruct (decide (x = current)) as [->|]; [|destruct (Hcl x y); set_solver].
           destruct (decide (y ∈ {[current]} ∪ visited)); set_solver.
      * rewrite length_app, length_reverse.
        rewrite (pending_visit _ current) in Hfuel by done.
        pose proof (length_filter (fun c => c ∉ {[current]} ∪ visited)
                      (edgesOf (edges g) current)).
        unfold pushed. lia.
Qed.

Lemma collectChildren_spec :
  NoDup (collectChildren g root) /\
  forall x, x ∈ collectChildren g root <-> rtc (edge g) root x.
Proof.
  destruct (collectLoop_spec (walkFuel g) [root] ∅ []) as (l & Hl & Hnd & Hx).
  - split; try set_solver. constructor.
  - rewrite pending_empty. unfold walkFuel. simpl. lia.
  - unfold collectChildren. by rewrite Hl.
Qed.
End Collect.

(** ** Removing a subgraph *)

Section RemoveSubGraph.
Context {T : Type}.
Implicit Types (g : Graph T).

Lemma rtc_edge_nodes g root x :
  wf g -> root ∈ dom (nodes g) -> rtc (edge g) root x -> x ∈ dom (nodes g).
Proof. intros Hg Hroot. induction 1; eauto using wf_targets. Qed.

Lemma RemoveNode_nodes g id :
  id ∈ dom (nodes g) ->
  (RemoveNode g id).2 = None /\ nodes (RemoveNode g id).1 = delete id (nodes g).
Proof. intros Hid%HasNode_true. unfold RemoveNode. by rewrite Hid. Qed.

Lemma removeAll_spec g ids :
  NoDup ids -> (forall x, x ∈ ids -> x ∈ dom (nodes g)) ->
  (removeAll g ids).2 = None /\
  (forall x, nodes (removeAll g ids).1 !! x = if decide (x ∈ ids) then None else nodes g !! x) /\
  (forall u v, edge (removeAll g ids).1 u v <->
               edge g u v /\ u ∉ ids /\ v ∉ ids).
Proof.
  revert g. induction ids as [|id ids IH]; intros g Hnd Hin; cbn [removeAll].
  { split; [done|]. split; [|set_solver].
    intros x. by rewrite decide_False by set_solver. }
  apply NoDup_cons in Hnd as [Hid Hnd].
  destruct (RemoveNode_nodes g id ltac:(set_solver)) as [Herr Hnodes].
  pose proof (RemoveNode_edges g id) as Hedges.
  destruct (RemoveNode g id) as [g' [e|]]; simpl in *; [done|].
  destruct (IH g') as (IHe & IHn & IHed); [done| |].
  { intros x Hx. rewrite Hnodes, dom_delete_L. set_solver. }
  split; [done|]. split.
  - intros x. rewrite IHn, Hnodes. case_decide; [by rewrite decide_True by set_solver|].
    rewrite lookup_delete. repeat case_decide; set_solver.
  - intros u v. rewrite IHed. unfold edge. rewrite Hedges by set_solver. set_solver.
Qed.

(** Removing the subgraph of a node deletes exactly the nodes reachable
    from it, and every edge at a deleted node, without an error; a missing
    node leaves the graph unchanged. *)
Theorem RemoveSubGraph_removes_reachable g id :
  wf g ->
  (RemoveSubGraph g id).2 = None /\
  (id ∉ dom (nodes g) -> (RemoveSubGraph g id).1 = g) /\
  (id ∈ dom (nodes g) ->
     (forall x, x ∈ dom (nodes (RemoveSubGraph g id).1) <->
                x ∈ dom (nodes g) /\ ~ rtc (edge g) id x) /\
     (forall u v, edge (RemoveSubGraph g id).1 u v <->
                  edge g u v /\ ~ rtc (edge g) id u /\ ~ rtc (edge g) id v)).
Proof.
  intros Hg. unfold RemoveSubGraph. destruct (HasNode g id) eqn:Hid; simpl.
  2: { apply HasNode_false in Hid. naive_solver. }
  apply HasNode_true in Hid. destruct (collectChildren_spec g id) as [Hnd Hin].
  destruct (removeAll_spec g (collectChildren g id)) as (He & Hn & Hed); [done| |].
  { intros x Hx%Hin. by eapply rtc_edge_nodes. }
  split; [done|]. split; [done|]. intros _. split.
  - intros x. rewrite !elem_of_dom, Hn, <- Hin. case_decide; split.
    + intros [? ?]; done.
    + naive_solver.
    + naive_solver.
    + naive_solver.
  - intros u v. by rewrite Hed, !Hin.
Qed.

(** The breadth-first search terminates within its fuel and answers
    whether the target is reachable along the allowed edges (all edges, or the
    hard ones only), from any graph. *)
Theorem isReachable_correct g (from to : string) (hardOnly : bool) :
  exists b, isReachable g from to hardOnly = Some b /\
            (b = true <-> rtc (stepG g hardOnly) from to).
Proof. apply isReachable_total. Qed.

End RemoveSubGraph.

(** ** A concrete graph *)

Definition sampleOps : list (graphOp nat) :=
  [OpAddNodes {["a" := 1%nat; "b" := 2%nat; "c" := 3%nat]}; OpAddNode "d" 4%nat;
   OpAddEdge "a" "b"; OpAddEdge "b" "c"; OpAddEdge "d" "c"].
Definition sample : Graph nat := foldl runOp NewGraph sampleOps.

Lemma sample_wf : wf sample.
Proof. apply runOps_wf, NewGraph_wf. Qed.

Lemma RemoveSubGraph_removes_reachable_witness :
  elements (dom (nodes (RemoveSubGraph sample "b").1)) = ["a"; "d"] /\
  (RemoveSubGraph sample "b").2 = None.
Proof.
  split; [vm_compute; reflexivity|].
  exact (proj1 (RemoveSubGraph_removes_reachable sample "b" sample_wf)).
Defined.

(** Removing an edge does not forget that it was hard: added again, an edge
    nobody marked is followed as a hard one. *)
Example stale_hard_edge :
  let g0 := (AddEdge (AddNode (AddNode (NewGraph (T := nat)) "a" 0%nat).1 "b" 0%nat).1 "a" "b").1 in
  let soft := (AddEdge (RemoveEdge g0 "a" "b").1 "a" "b").1 in
  let stale := (AddEdge (RemoveEdge (MarkEdgeHard g0 "a" "b") "a" "b").1 "a" "b").1 in
  IsReachableViaHardEdges soft "a" "b" = Some false /\
  IsReachableViaHardEdges stale "a" "b" = Some true /\
  edges soft = edges stale.
Proof. vm_compute. done. Qed.

(** ** Edges and nodes of edited graphs *)

Section Edits.
Context {T : Type}.
Implicit Types (g : Graph T).

Lemma AddEdge_nodes g u v : nodes (AddEdge g u v).1 = nodes g.
Proof. unfold AddEdge. by repeat case_match. Qed.
Lemma AddEdge_edge g u v a b :
  edge (AddEdge g u v).1 a b <->
  edge g a b \/ (a = u /\ b = v /\ HasNode g u = true /\ HasNode g v = true).
Proof.
  unfold AddEdge. destruct (HasNode g u) eqn:Hu; cbn; [|naive_solver].
  destruct (HasNode g v) eqn:Hv; cbn; [|naive_solver].
  case_bool_decide as Hin; cbn [fst]; unfold edge in *; [naive_solver|].
  cbn [edges]. rewrite edgesOf_insert. case_decide as Ha; [subst a; rewrite elem_of_app|]; set_solver.
Qed.

Lemma SetNode_nodes g id data : nodes (SetNode g id data).1 = <[id := data]> (nodes g).
Proof. unfold SetNode, UpdateNode, AddNode. by destruct (HasNode g id) eqn:Hid. Qed.
Lemma SetNode_edge g id data a b : wf g -> edge (SetNode g id data).1 a b <-> edge g a b.
Proof.
  intros Hg. unfold SetNode, UpdateNode, AddNode, edge. destruct (HasNode g id) eqn:Hid; cbn; [done|].
  rewrite edgesOf_insert. case_decide as Ha; [|done]. subst a. apply HasNode_false in Hid.
  split; [set_solver|]. intros Hb%(wf_source _ _ _ Hg). done.
Qed.

(** A graph of new nodes. *)
Lemma insertNodes_spec (l : list (string * T)) : forall g,
  NoDup l.*1 ->
  nodes (foldl (fun g' p => insertNode g' p.1 p.2) g l) = list_to_map l ∪ nodes g /\
  ((forall a b, ~ edge g a b) -> forall a b, ~ edge (foldl (fun g' p => insertNode g' p.1 p.2) g l) a b).
Proof.
  induction l as [|[k v] l IH]; intros g Hnd; cbn [foldl]; [by rewrite list_to_map_nil, (left_id_L ∅ (∪))|].
  apply NoDup_cons in Hnd as [Hk Hnd]. destruct (IH (insertNode g (k, v).1 (k, v).2) Hnd) as [Hn He]. split.
  - rewrite Hn, list_to_map_cons. cbn [insertNode nodes fst snd].
    rewrite <- insert_union_l, <- insert_union_r; [done|]. by apply not_elem_of_list_to_map.
  - intros Hg. cbn [fst snd]. apply He. intros a b. unfold edge, insertNode. cbn [edges]. rewrite edgesOf_insert.
    case_decide; [set_solver|apply Hg].
Qed.
Lemma AddNodes_new (new : gmap string T) :
  (AddNodes NewGraph new).2 = None /\ nodes (AddNodes NewGraph new).1 = new /\
  (forall a b, ~ edge (AddNodes NewGraph new).1 a b).
Proof.
  unfold AddNodes.
  assert (Hf : filter (fun p : string * T => HasNode (NewGraph : Graph T) p.1) (map_to_list new) = []).
  { induction (map_to_list new) as [|p l IH]; [done|]. rewrite filter_cons_False; [exact IH|].
    unfold HasNode. cbn [NewGraph nodes]. rewrite lookup_empty. by intros [? ?]%bool_decide_unpack. }
  rewrite Hf. cbn [fst snd]. destruct (insertNodes_spec (map_to_list new) NewGraph) as [Hn He];
    [apply NoDup_fst_map_to_list|]. split; [done|]. split.
  - rewrite Hn, list_to_map_to_list. cbn. by rewrite (right_id_L ∅ (∪)).
  - apply He. intros a b. unfold edge, edgesOf. cbn. rewrite lookup_empty. cbn. set_solver.
Qed.

Lemma isHard_AddNodes (new : gmap string T) a b : isHard (AddNodes NewGraph new).1 a b = false.
Proof.
  unfold AddNodes. destruct (filter _ _) as [|[? ?] ?]; [|done]. cbn [fst]. unfold isHard.
  assert (H : forall (l : list (string * T)) g, hardEdges g = ∅ -> hardEdges (foldl (fun g' p => insertNode g' p.1 p.2) g l) = ∅).
  { induction l as [|p l IH]; intros g Hg; [done|]. cbn [foldl]. by apply IH. }
  by rewrite H.
Qed.

(** ** Edges that are added *)

(** [g'] is [g] with more edges, each satisfying [P]. *)
Record grown (P : string -> string -> Prop) (g g' : Graph T) : Prop := {
  gr_wf : wf g -> wf g';
  gr_nodes : nodes g' = nodes g;
  gr_new a b : edge g' a b -> edge g a b \/ P a b;
  gr_old a b : edge g a b -> edge g' a b;
}.
#[export] Instance grown_preorder P : PreOrder (grown P).
Proof.
  split; [intros g; by split; auto|]. intros g1 g2 g3 [Hw Hn Hnew Hold] [Hw' Hn' Hnew' Hold'].
  split; [auto|congruence| |auto]. intros a b [Hab|]%Hnew'; [by apply Hnew|by right].
Qed.

Lemma grown_AddEdge (P : string -> string -> Prop) g u v : P u v -> grown P g (AddEdge g u v).1.
Proof.
  intros HP. split; [by apply AddEdge_wf|by apply AddEdge_nodes| |].
  - intros a b [Hab|(-> & -> & _)]%AddEdge_edge; auto.
  - intros a b Hab. apply AddEdge_edge. by left.
Qed.

(** Hard edges. *)
Lemma isHard_AddEdge g u v a b : isHard (AddEdge g u v).1 a b = isHard g a b.
Proof. unfold AddEdge. by repeat case_match. Qed.
Lemma isHard_MarkEdgeHard g u v a b :
  isHard (MarkEdgeHard g u v) a b = bool_decide (a = u /\ b = v) || isHard g a b.
Proof.
  unfold MarkEdgeHard, isHard. cbn [hardEdges]. destruct (decide (a = u)) as [->|Ha].
  - rewrite lookup_insert_eq. cbn. destruct (decide (b = v)) as [->|Hb].
    + rewrite lookup_insert_eq. by rewrite bool_decide_true.
    + rewrite lookup_insert_ne by done. rewrite bool_decide_false by tauto. done.
  - rewrite lookup_insert_ne by done. by rewrite bool_decide_false by tauto.
Qed.
End Edits.
