(* ===== verification/GraphSort.v ===== *)
(** Kahn's algorithm on the feature graph: the two round-based sorts and the
    queue-based cycle test are correct and terminate within their fuel. *)
From S2P Require Import Prelude GoStd Graph GraphReach.

(** ** Specification *)

Definition cyclic {T} (g : Graph T) : Prop := exists x, tc (edge g) x x.

(** [ids] lists every node once, each after all its predecessors. *)
Definition topological {T} (g : Graph T) (ids : list string) : Prop :=
  NoDup ids /\ (forall x, x ∈ ids <-> x ∈ dom (nodes g)) /\
  (forall u v i j, edge g u v -> ids !! i = Some u -> ids !! j = Some v -> (i < j)%nat).

Section Kahn.
Context {T : Type} (g : Graph T).

(** A processed prefix: no duplicates, only nodes, closed under predecessors
    at every point. *)
Record prefix_ok (D : list string) : Prop := {
  po_nodup : NoDup D;
  po_nodes x : x ∈ D -> x ∈ dom (nodes g);
  po_closed i x u : D !! i = Some x -> edge g u x -> exists j, (j < i)%nat /\ D !! j = Some u;
}.

(** The predecessors of [v] not processed yet. *)
Definition todo (D : list string) (v : string) : gset string :=
  predsOf (edges g) v ∖ list_to_set D.

Lemma elem_of_todo D v u : u ∈ todo D v <-> edge g u v /\ u ∉ D.
Proof.
  unfold todo. by rewrite elem_of_difference, elem_of_predsOf, elem_of_list_to_set.
Qed.

Lemma todo_snoc D x v :
  x ∉ D ->
  Z.of_nat (size (todo (D ++ [x]) v)) =
    if decide (edge g x v) then Z.of_nat (size (todo D v)) - 1
    else Z.of_nat (size (todo D v)).
Proof.
  intros Hx. case_decide as He.
  - rewrite <- (size_singleton_difference _ x) by (by apply elem_of_todo).
    do 2 f_equal. apply set_eq. intros u.
    rewrite elem_of_difference, !elem_of_todo. set_solver.
  - do 2 f_equal. apply set_eq. intros u. rewrite !elem_of_todo, elem_of_app.
    set_solver.
Qed.

Lemma todo_empty D v : todo D v = ∅ <-> (forall u, edge g u v -> u ∈ D).
Proof.
  split.
  - intros Hemp u Hu. destruct (decide (u ∈ D)); [done|].
    assert (u ∈ todo D v) by (by apply elem_of_todo). set_solver.
  - intros Hall. apply set_eq. intros u. rewrite elem_of_todo. set_solver.
Qed.

Lemma size_zero (X : gset string) : Z.of_nat (size X) = 0 <-> X = ∅.
Proof.
  rewrite <- (leibniz_equiv_iff (A := gset string)), <- size_empty_iff. lia.
Qed.

(** [x] can be processed next when nothing it depends on is left. *)
Lemma prefix_ok_nil : prefix_ok [].
Proof. split; [constructor|set_solver|]. intros i x u Hi. by rewrite lookup_nil in Hi. Qed.

Lemma prefix_ok_snoc D x :
  prefix_ok D -> x ∈ dom (nodes g) -> x ∉ D -> todo D x = ∅ -> prefix_ok (D ++ [x]).
Proof.
  intros [Hnd Hn Hc] Hx HxD Htodo. split.
  - apply NoDup_app. split; [done|]. split; [set_solver|apply NoDup_singleton].
  - set_solver.
  - intros i y u [Hi|[Hi Hy]]%lookup_app_Some Hu.
    + destruct (Hc i y u Hi Hu) as (j & Hj & HD). exists j. split; [done|].
      by apply lookup_app_l_Some.
    + apply list_lookup_singleton_Some in Hy as [Hi0 ->].
      apply (proj1 (todo_empty _ _) Htodo), list_elem_of_lookup in Hu as [j Hj].
      exists j. pose proof (lookup_lt_Some _ _ _ Hj). split; [lia|].
      by apply lookup_app_l_Some.
Qed.

(** A node that depends on an unprocessed node is not processed. *)
Lemma prefix_ok_edge D u v : prefix_ok D -> edge g u v -> u ∉ D -> v ∉ D.
Proof.
  intros HD He Hu [i Hi]%list_elem_of_lookup. apply Hu.
  destruct (po_closed _ HD i v u Hi He) as (j & _ & Hj).
  by eapply list_elem_of_lookup_2.
Qed.

Lemma prefix_ok_length D : prefix_ok D -> (length D <= size (nodes g))%nat.
Proof.
  intros HD. rewrite <- size_dom.
  rewrite <- (size_list_to_set (C := gset string) D) by apply HD.
  apply subseteq_size. intros x Hx%elem_of_list_to_set. by apply (po_nodes _ HD).
Qed.

(** The whole graph processed: a topological order, so no cycle. *)
Lemma prefix_ok_full D :
  prefix_ok D -> length D = size (nodes g) -> topological g D.
Proof.
  intros HD Hlen. split; [apply HD|]. split.
  - intros x. split; [apply HD|]. intros Hx.
    rewrite <- (elem_of_list_to_set (C := gset string)).
    rewrite (set_subseteq_size_eq (C := gset string) (list_to_set D) (dom (nodes g)));
      [done| |].
    + intros y Hy%elem_of_list_to_set. by apply (po_nodes _ HD).
    + rewrite size_dom, size_list_to_set by apply HD. lia.
  - intros u v i j He Hi Hj. destruct (po_closed _ HD j v u Hj He) as (k & Hk & HDk).
    rewrite (NoDup_lookup D i k u); [done|apply HD|done|done].
Qed.

Lemma topological_acyclic ids : wf g -> topological g ids -> ~ cyclic g.
Proof.
  intros Hg (Hnd & Hin & Hord) [x Hx].
  assert (Hlt : forall u v, tc (edge g) u v -> forall i j,
            ids !! i = Some u -> ids !! j = Some v -> (i < j)%nat).
  { induction 1 as [u v Huv|u w v Huw Hwv IH]; [intros i j; by apply Hord|].
    intros i j Hi Hj. assert (Hw : w ∈ ids).
    { apply Hin, (wf_targets _ Hg u). done. }
    apply list_elem_of_lookup in Hw as [k Hk].
    pose proof (Hord u w i k Huw Hi Hk). pose proof (IH k j Hk Hj). lia. }
  assert (Hxin : x ∈ ids).
  { apply Hin. inversion Hx; subst; by eapply (wf_source g x). }
  apply list_elem_of_lookup in Hxin as [i Hi]. pose proof (Hlt x x Hx i i Hi Hi). lia.
Qed.

(** Every remaining node waits for a remaining node: there is a cycle. *)
Lemma stuck_cyclic (R : gset string) :
  R <> ∅ -> (forall v, v ∈ R -> exists u, u ∈ R /\ edge g u v) -> cyclic g.
Proof.
  intros HR Hpred.
  assert (Hwalk : forall n, cyclic g \/
    exists (S : gset string) (y : string), size S = n /\ (S ⊆ R) /\ y ∈ R /\ (forall z, z ∈ S -> tc (edge g) y z)).
  { induction n as [|n [Hc|(S & y & Hsz & HS & Hy & Hreach)]]; [|by left|].
    { apply set_choose_L in HR as [y Hy]. right. exists ∅, y.
      rewrite size_empty. set_solver. }
    destruct (Hpred y Hy) as (p & Hp & He).
    destruct (decide (y ∈ S)) as [HyS|HyS]; [left; exists y; auto|].
    right. exists ({[y]} ∪ S), p. split; [rewrite size_union, size_singleton by set_solver; lia|].
    split; [set_solver|]. split; [done|].
    intros z [->%elem_of_singleton|Hz]%elem_of_union; [by apply tc_once|].
    eapply tc_l; eauto. }
  destruct (Hwalk (Datatypes.S (size R))) as [|(S & y & Hsz & HS & _)]; [done|].
  apply subseteq_size in HS. lia.
Qed.

Lemma prefix_stuck_cyclic D :
  wf g -> prefix_ok D -> length D <> size (nodes g) ->
  (forall v, v ∈ dom (nodes g) -> v ∉ D -> todo D v <> ∅) -> cyclic g.
Proof.
  intros Hg HD Hlen Hstuck. apply (stuck_cyclic (dom (nodes g) ∖ list_to_set D)).
  - intros Hemp. apply Hlen. apply Nat.le_antisymm; [by apply prefix_ok_length|].
    rewrite <- size_dom, <- (size_list_to_set (C := gset string) D) by apply HD.
    apply subseteq_size. set_solver.
  - intros v [Hv HvD]%elem_of_difference. rewrite elem_of_list_to_set in HvD.
    destruct (set_choose_L (todo D v)) as [u [Hu HuD]%elem_of_todo]; [by apply Hstuck|].
    exists u. rewrite elem_of_difference, elem_of_list_to_set.
    split; [split; [by eapply wf_source|done]|done].
Qed.
End Kahn.

(** ** Degree maps *)

Section Degrees.
Implicit Types (m : gmap string Z).

Lemma foldl_decrement m l v :
  NoDup l ->
  foldl decrement m l !! v = if decide (v ∈ l) then Some (degreeOf m v - 1) else m !! v.
Proof.
  revert m. induction l as [|c l IH]; intros m Hnd; cbn [foldl].
  { by rewrite decide_False by set_solver. }
  apply NoDup_cons in Hnd as [Hc Hnd]. rewrite IH by done. unfold decrement.
  rewrite degreeOf_insert, lookup_insert.
  destruct (decide (c = v)) as [->|Hne].
  - rewrite (decide_False (P := v ∈ l)) by done. by rewrite decide_True by set_solver.
  - destruct (decide (v ∈ l)); [rewrite decide_True|rewrite decide_False]; set_solver.
Qed.

Lemma elem_of_collectZero m x : x ∈ collectZeroInDegree m <-> m !! x = Some 0.
Proof.
  unfold collectZeroInDegree. rewrite list_elem_of_fmap. split.
  - intros ([y z] & -> & [Hz Hy]%list_elem_of_filter). simpl in *. subst z.
    by apply elem_of_map_to_list.
  - intros Hx. exists (x, 0). split; [done|]. apply list_elem_of_filter.
    split; [done|]. by apply elem_of_map_to_list.
Qed.

Lemma NoDup_collectZero m : NoDup (collectZeroInDegree m).
Proof.
  unfold collectZeroInDegree. pose proof (NoDup_fst_map_to_list m) as Hnd. revert Hnd.
  induction (map_to_list m) as [|[y z] l IH]; intros Hnd; [constructor|].
  apply NoDup_cons in Hnd as [Hy Hnd]. rewrite filter_cons. case_decide; [|by apply IH].
  apply NoDup_cons. split; [|by apply IH]. intros Hin. apply Hy.
  apply list_elem_of_fmap in Hin as (p & Hp & [_ Hin]%list_elem_of_filter).
  apply list_elem_of_fmap. by exists p.
Qed.
End Degrees.

(** ** The round-based sort *)

Section Rounds.
Context {T : Type} (g : Graph T).

(** The working map holds exactly the unprocessed nodes, each with the number
    of its unprocessed predecessors. *)
Definition degs (D : list string) (W : gmap string Z) : Prop :=
  forall v, W !! v = if decide (v ∈ dom (nodes g) /\ v ∉ D)
                     then Some (Z.of_nat (size (todo g D v))) else None.

Definition ready (D : list string) (x : string) : Prop :=
  x ∈ dom (nodes g) /\ x ∉ D /\ todo g D x = ∅.

Lemma ready_degree D W x : degs D W -> W !! x = Some 0 <-> ready D x.
Proof.
  intros HW. rewrite HW. unfold ready. case_decide as Hx.
  - rewrite (inj_iff Some), size_zero. tauto.
  - naive_solver.
Qed.

Lemma ready_snoc D x y : y <> x -> ready D y -> ready (D ++ [x]) y.
Proof.
  intros Hne (Hy & HyD & Ht). split; [done|]. split; [set_solver|].
  apply todo_empty. intros u Hu. apply elem_of_app. left. by apply (todo_empty g D y).
Qed.

Hypothesis Hg : wf g.

Lemma degs_initial : degs [] (inDegree g).
Proof.
  intros v. case_decide as Hv.
  - rewrite (wf_count _ Hg) by tauto. do 3 f_equal. unfold todo. set_solver.
  - apply not_elem_of_dom. rewrite (wf_degrees _ Hg). set_solver.
Qed.

Lemma advanceNode_degs D W x :
  prefix_ok g D -> degs D W -> ready D x -> degs (D ++ [x]) (advanceNode (edges g) W x).
Proof.
  intros HD HW (Hx & HxD & Ht) v. unfold advanceNode.
  rewrite foldl_decrement by apply (wf_simple _ Hg).
  pose proof (todo_snoc g D x v HxD) as Hsz.
  destruct (decide (v ∈ edgesOf (edges g) x)) as [He|He].
  - assert (Hv : v ∈ dom (nodes g)) by (by eapply wf_targets).
    assert (HvD : v ∉ D) by (by eapply prefix_ok_edge).
    assert (Hvx : v <> x).
    { intros ->. apply HxD. by apply (proj1 (todo_empty g D x) Ht). }
    rewrite decide_True by set_solver. rewrite (decide_True (P := edge g x v)) in Hsz by done.
    unfold degreeOf. rewrite lookup_delete_ne by done.
    rewrite HW, decide_True by done. simpl. by rewrite Hsz.
  - rewrite (decide_False (P := edge g x v)) in Hsz by done.
    rewrite lookup_delete. destruct (decide (x = v)) as [->|Hxv].
    { by rewrite decide_False by set_solver. }
    rewrite HW. destruct (decide (v ∈ dom (nodes g) /\ v ∉ D)) as [Hv|Hv].
    + rewrite decide_True by set_solver. by rewrite Hsz.
    + by rewrite decide_False by set_solver.
Qed.

Lemma advanceRound_ok round : forall D W,
  prefix_ok g D -> degs D W -> NoDup round -> (forall x, x ∈ round -> ready D x) ->
  prefix_ok g (D ++ round) /\ degs (D ++ round) (advanceRound round (edges g) W).
Proof.
  unfold advanceRound.
  induction round as [|x round IH]; intros D W HD HW Hnd Hready; cbn [foldl].
  { by rewrite app_nil_r. }
  apply NoDup_cons in Hnd as [Hx Hnd].
  assert (Hrx : ready D x) by (apply Hready; set_solver).
  rewrite (cons_middle x D round), (assoc_L (++)).
  apply IH; [|by apply advanceNode_degs|done|].
  - destruct Hrx as (? & ? & ?). by apply prefix_ok_snoc.
  - intros y Hy. apply ready_snoc; [by intros ->|apply Hready; set_solver].
Qed.

Variable order : list string -> list string.
Hypothesis order_perm : forall l, order l ≡ₚ l.

Lemma sortRounds_ok fuel : forall D W,
  prefix_ok g D -> degs D W -> (size (nodes g) - length D < fuel)%nat ->
  exists D' W', sortRounds order fuel (edges g) W D = Some (D', W') /\
                prefix_ok g D' /\ degs D' W' /\ forall x, ~ ready D' x.
Proof.
  induction fuel as [|fuel IH]; intros D W HD HW Hfuel; [lia|]. simpl.
  assert (Hz : forall x, x ∈ collectZeroInDegree W <-> ready D x).
  { intros x. rewrite elem_of_collectZero. by apply ready_degree. }
  destruct (collectZeroInDegree W) as [|z zs] eqn:Hzs.
  { exists D, W. split_and!; [done..|]. intros x Hx%Hz. set_solver. }
  assert (Hr : forall x, x ∈ order (z :: zs) -> ready D x).
  { intros x. by rewrite (order_perm (z :: zs)), Hz. }
  assert (Hnd : NoDup (order (z :: zs))).
  { rewrite (order_perm (z :: zs)), <- Hzs. apply NoDup_collectZero. }
  destruct (advanceRound_ok (order (z :: zs)) D W HD HW Hnd Hr) as [HD' HW'].
  apply IH; [done|done|].
  pose proof (prefix_ok_length _ _ HD'). rewrite length_app in *.
  rewrite (Permutation_length (order_perm (z :: zs))) in *. simpl in *. lia.
Qed.

(** A finished loop has sorted the graph, or is stuck at a cycle. *)
Lemma sortRounds_result :
  exists D W, sortRounds order (sortFuel g) (edges g) (inDegree g) [] = Some (D, W) /\
    (length D = size (nodes g) -> topological g D /\ ~ cyclic g) /\
    (length D <> size (nodes g) -> cyclic g).
Proof.
  destruct (sortRounds_ok (sortFuel g) [] (inDegree g)) as (D & W & Hs & HD & HW & Hno).
  - apply prefix_ok_nil.
  - apply degs_initial.
  - unfold sortFuel. rewrite <- !size_dom, (wf_degrees _ Hg). simpl. lia.
  - exists D, W. split; [done|]. split.
    + intros Hlen. assert (Ht : topological g D) by (by apply prefix_ok_full).
      split; [done|]. by eapply topological_acyclic.
    + intros Hlen. apply (prefix_stuck_cyclic g D); [done|done|done|].
      intros v Hv HvD Hemp. by apply (Hno v).
Qed.
End Rounds.

(** ** The queue-based cycle test *)

Section Queue.
Context {T : Type} (g : Graph T) (Hg : wf g).

Lemma insertAt_perm i x l : insertAt i x l ≡ₚ x :: l.
Proof. unfold insertAt. by rewrite <- Permutation_middle, take_drop. Qed.

(** The degrees of all nodes, processed or not. *)
Definition allDegs (D : list string) (W : gmap string Z) : Prop :=
  forall v, v ∈ dom (nodes g) -> W !! v = Some (Z.of_nat (size (todo g D v))).

Lemma processNeighbor_fold ns : forall deg q,
  NoDup ns -> NoDup q -> (forall x, x ∈ ns -> x ∉ q) ->
  (foldl processNeighbor (deg, q) ns).1 = foldl decrement deg ns /\
  NoDup (foldl processNeighbor (deg, q) ns).2 /\
  (forall x, x ∈ (foldl processNeighbor (deg, q) ns).2 <->
             x ∈ q \/ (x ∈ ns /\ degreeOf deg x = 1)).
Proof.
  induction ns as [|n ns IH]; intros deg q Hns Hq Hdisj; cbn [foldl].
  { simpl. split; [done|]. split; [done|]. set_solver. }
  apply NoDup_cons in Hns as [Hn Hns].
  assert (Hrest : forall x, x ∈ ns -> degreeOf (decrement deg n) x = degreeOf deg x).
  { intros x Hx. unfold decrement. rewrite degreeOf_insert, decide_False by set_solver. done. }
  assert (Hself : degreeOf (decrement deg n) n = degreeOf deg n - 1).
  { unfold decrement. by rewrite degreeOf_insert, decide_True. }
  set (q' := if degreeOf (decrement deg n) n =? 0
             then insertAt (SearchStrings q n) n q else q).
  assert (Hq' : NoDup q' /\ forall x, x ∈ q' <-> x ∈ q \/ (x = n /\ degreeOf deg n = 1)).
  { unfold q'. rewrite Hself. destruct (Z.eqb_spec (degreeOf deg n - 1) 0).
    - split; [rewrite insertAt_perm; constructor; [set_solver|done]|].
      intros x. rewrite insertAt_perm, elem_of_cons.
      assert (degreeOf deg n = 1) by lia. tauto.
    - split; [done|]. intros x. split; [tauto|]. intros [|[_ ?]]; [done|lia]. }
  destruct Hq' as [Hnd' Hin'].
  destruct (IH (decrement deg n) q') as (H1 & H2 & H3); [done|done| |].
  { intros x Hx. rewrite Hin'. set_solver. }
  split; [done|]. split; [done|]. intros x.
  etrans; [apply H3|]. rewrite Hin', elem_of_cons. split.
  - intros [[|[-> ?]]|[Hx Hd]]; [tauto|tauto|]. rewrite Hrest in Hd by done. tauto.
  - intros [|[[->|Hx] Hd]]; [tauto|tauto|]. rewrite Hrest by done. tauto.
Qed.

Record queueing (D : list string) (W : gmap string Z) (q : list string) : Prop := {
  qu_prefix : prefix_ok g D;
  qu_degs : allDegs D W;
  qu_nodup : NoDup q;
  qu_ready x : x ∈ q <-> ready g D x;
}.

Lemma todo_size_one D x v :
  x ∉ D -> edge g x v -> Z.of_nat (size (todo g D v)) = 1 <-> todo g (D ++ [x]) v = ∅.
Proof.
  intros HxD He. rewrite <- size_zero, todo_snoc by done. rewrite decide_True by done. lia.
Qed.

Lemma queueing_step D W x q :
  queueing D W (x :: q) ->
  queueing (D ++ [x]) (processNeighbors (edges g) x W q).1
           (processNeighbors (edges g) x W q).2.
Proof.
  intros [HD HW Hnd Hready]. apply NoDup_cons in Hnd as [Hxq Hnd].
  assert (Hrx : ready g D x) by (apply Hready; set_solver).
  destruct Hrx as (Hx & HxD & Htodo).
  assert (Hnb : forall v, edge g x v -> v ∈ dom (nodes g) /\ v ∉ D /\ v <> x /\ v ∉ q).
  { intros v He. split; [by eapply wf_targets|]. split; [by eapply prefix_ok_edge|].
    split; [intros ->; by apply HxD, (proj1 (todo_empty g D x) Htodo)|].
    intros Hv. destruct (proj1 (Hready v) ltac:(set_solver)) as (_ & _ & Hemp).
    by apply HxD, (proj1 (todo_empty g D v) Hemp). }
  destruct (processNeighbor_fold (edgesOf (edges g) x) W q) as (H1 & H2 & H3);
    [apply (wf_simple _ Hg)|done|intros v Hv; by apply Hnb|].
  unfold processNeighbors. split.
  - by apply prefix_ok_snoc.
  - intros v Hv. rewrite H1, foldl_decrement by apply (wf_simple _ Hg).
    rewrite todo_snoc by done. unfold degreeOf. rewrite HW by done. simpl.
    destruct (decide (edge g x v)) as [He|He].
    + by rewrite (decide_True (P := v ∈ _)).
    + by rewrite (decide_False (P := v ∈ _)).
  - done.
  - intros v. rewrite H3. split.
    + intros [Hv|[He Hd]].
      * apply ready_snoc; [by intros ->|]. apply Hready. set_solver.
      * destruct (Hnb v He) as (Hvn & HvD & Hvx & _).
        split; [done|]. split; [set_solver|]. apply (todo_size_one D x v HxD He).
        unfold degreeOf in Hd. by rewrite HW in Hd.
    + intros (Hv & HvD & Hemp). destruct (decide (edge g x v)) as [He|He].
      * right. split; [done|]. unfold degreeOf. rewrite HW by done. simpl.
        by apply (todo_size_one D x v HxD He).
      * left. assert (Hvin : v ∈ x :: q); [|set_solver]. apply Hready.
        split; [done|]. split; [set_solver|]. apply todo_empty. intros u Hu.
        assert (u ∈ D ++ [x]) by (by apply (proj1 (todo_empty _ _ _) Hemp)). set_solver.
Qed.

Lemma processLoop_ok fuel : forall D W q,
  queueing D W q -> (size (nodes g) - length D < fuel)%nat ->
  exists D', processLoop fuel (edges g) W q (length D) = Some (length D') /\
             prefix_ok g D' /\ forall x, ~ ready g D' x.
Proof.
  induction fuel as [|fuel IH]; intros D W [|x q] HQ Hfuel; [lia|lia| |]; simpl.
  - exists D. split; [done|]. split; [apply HQ|]. intros x Hx%HQ. set_solver.
  - pose proof (queueing_step D W x q HQ) as HQ'.
    destruct (processNeighbors _ _ _ _) as [W' q']. simpl in HQ'.
    pose proof (prefix_ok_length _ _ (qu_prefix _ _ _ HQ')) as Hlen.
    rewrite length_app in Hlen. simpl in Hlen.
    replace (S (length D)) with (length (D ++ [x])) by (rewrite length_app; simpl; lia).
    apply IH; [done|]. rewrite length_app. simpl. lia.
Qed.

Lemma queueing_initial : queueing [] (inDegree g) (initializeQueue (inDegree g)).
Proof.
  pose proof (degs_initial g Hg) as Hd. split.
  - apply prefix_ok_nil.
  - intros v Hv. rewrite Hd, decide_True by set_solver. done.
  - unfold initializeQueue, sortStrings. rewrite merge_sort_Permutation.
    apply NoDup_collectZero.
  - intros x. unfold initializeQueue, sortStrings.
    rewrite merge_sort_Permutation, elem_of_collectZero. by apply ready_degree.
Qed.

Lemma HasCircularDependency_ok :
  exists b, HasCircularDependency g = Some b /\ (b = true <-> cyclic g).
Proof.
  unfold HasCircularDependency.
  destruct (processLoop_ok (S (size (nodes g))) [] (inDegree g)
              (initializeQueue (inDegree g))) as (D & Hloop & HD & Hno).
  { apply queueing_initial. }
  { simpl. lia. }
  cbn [length] in Hloop. rewrite Hloop. eexists. split; [done|].
  rewrite negb_true_iff, bool_decide_eq_false. split.
  - intros Hne. apply (prefix_stuck_cyclic g D Hg HD Hne).
    intros v Hv HvD Hemp. by apply (Hno v).
  - intros Hc Hlen. apply (topological_acyclic g D Hg); [by apply prefix_ok_full|done].
Qed.
End Queue.

(** ** Priorities *)

Lemma ltb_false_le a b : String.ltb b a = false <-> String.le a b.
Proof.
  unfold String.ltb, String.le, String.leb. rewrite String.compare_antisym.
  destruct (String.compare a b); simpl; split; done.
Qed.

Section Priority.
Context (priority : gmap string Z).

(** [notAfter] as an order on (in the table first, its value, the name). *)
Lemma notAfter_spec a b :
  notAfter priority a b <->
  match priority !! a, priority !! b with
  | Some pa, Some pb => pa < pb \/ (pa = pb /\ String.le a b)
  | Some _, None => True
  | None, Some _ => False
  | None, None => String.le a b
  end.
Proof.
  unfold notAfter, comparePriority.
  destruct (priority !! a) as [pa|], (priority !! b) as [pb|]; [|done..|apply ltb_false_le].
  destruct (Z.eqb_spec pb pa) as [->|Hne].
  - rewrite ltb_false_le. split; [by right|]. intros [?|[_ ?]]; [lia|done].
  - rewrite Z.ltb_ge. lia.
Qed.

#[export] Instance notAfter_trans : Transitive (notAfter priority).
Proof.
  intros a b c. rewrite !notAfter_spec.
  destruct (priority !! a), (priority !! b), (priority !! c); try done.
  - intros [?|[-> ?]] [?|[-> ?]]; [lia..|]. right. split; [done|by etrans].
  - by etrans.
Qed.

#[export] Instance notAfter_antisymm : AntiSymm (=) (notAfter priority).
Proof.
  intros a b. rewrite !notAfter_spec.
  destruct (priority !! a), (priority !! b); try done.
  - intros [?|[-> ?]] [?|[? ?]]; [lia..|]. by apply (anti_symm String.le).
  - by apply (anti_symm String.le).
Qed.

#[export] Instance notAfter_total : Total (notAfter priority).
Proof.
  intros a b. rewrite !notAfter_spec.
  destruct (priority !! a) as [pa|], (priority !! b) as [pb|]; try tauto.
  - destruct (Z.lt_trichotomy pa pb) as [|[->|]]; try lia.
    destruct (total String.le a b); tauto.
  - apply (total String.le).
Qed.
End Priority.

(** ** Properties *)

(** No element of the list compares below an earlier one. *)
Definition accepted (priority : gmap string Z) (l : list string) : Prop :=
  forall i j a b, (i < j)%nat -> l !! i = Some a -> l !! j = Some b ->
                  comparePriority priority b a = false.

Section Properties.
Context {T : Type}.
Implicit Types (g : Graph T).

(** C5: [sortNodeIDs] terminates; it returns every node once with each node
    after its dependencies when the graph has no cycle, and the
    circular-dependency error exactly when the graph has one. *)
Theorem sortNodeIDs_topological g :
  wf g ->
  (exists ids, sortNodeIDs g = Some (inr ids) /\ topological g ids /\ ~ cyclic g) \/
  (exists remaining, sortNodeIDs g = Some (inl (cycleError remaining)) /\ cyclic g).
Proof.
  intros Hg. unfold sortNodeIDs.
  destruct (sortRounds_result g Hg sortStrings) as (D & W & -> & Hok & Hstuck).
  { intros l. apply merge_sort_Permutation. }
  case_decide as Hlen; [left|right]; eauto.
Qed.

(** The same for the sort by install priority: any priority table gives a
    topological order or reports a real cycle. *)
Theorem sortNodeIDsWithPriority_topological g (priority : gmap string Z) :
  wf g ->
  (exists ids, sortNodeIDsWithPriority g priority = Some (inr ids) /\
               topological g ids /\ ~ cyclic g) \/
  (exists remaining, sortNodeIDsWithPriority g priority = Some (inl (cycleError remaining)) /\
                     cyclic g).
Proof.
  intros Hg. unfold sortNodeIDsWithPriority.
  destruct (sortRounds_result g Hg (sortByPriority priority)) as (D & W & -> & Hok & Hstuck).
  { intros l. apply merge_sort_Permutation. }
  case_decide as Hlen; [left|right]; [destruct (Hok Hlen); by eexists|].
  unfold circularDependencyError. eauto.
Qed.

(** The queue-based cycle test terminates, and agrees with the sort: it
    answers true exactly when the graph has a cycle, which is exactly when the
    sort returns an error. *)
Theorem HasCircularDependency_iff_sort_fails g :
  wf g ->
  exists b, HasCircularDependency g = Some b /\ (b = true <-> cyclic g) /\
            (b = true <-> exists e, sortNodeIDs g = Some (inl e)).
Proof.
  intros Hg. destruct (HasCircularDependency_ok g Hg) as (b & Hb & Hc).
  exists b. split; [done|]. split; [done|]. rewrite Hc. unfold sortNodeIDs.
  destruct (sortRounds_result g Hg sortStrings) as (D & W & -> & Hok & Hstuck).
  { intros l. apply merge_sort_Permutation. }
  case_decide as Hlen.
  - destruct (Hok Hlen). split; [done|]. by intros [e ?].
  - split; [by eauto|]. intros _. by apply Hstuck.
Qed.

(** Sorting one round by priority does not depend on the algorithm or on
    the order of the round: any arrangement of it that [comparePriority]
    accepts is the one computed. *)
Theorem sortByPriority_unique (priority : gmap string Z) (ids arranged : list string) :
  arranged ≡ₚ ids ->
  accepted priority arranged ->
  arranged = sortByPriority priority ids.
Proof.
  intros Hp Hs. apply (StronglySorted_unique (notAfter priority)).
  - clear Hp. induction arranged as [|a l IH]; constructor.
    + apply IH. intros i j x y Hij Hi Hj. apply (Hs (S i) (S j) x y); [lia|done|done].
    + apply Forall_forall. intros b [j Hj]%list_elem_of_lookup.
      apply (Hs 0%nat (S j) a b); [lia|done|done].
  - apply (StronglySorted_merge_sort (notAfter priority)).
  - unfold sortByPriority. by rewrite merge_sort_Permutation.
Qed.
End Properties.

(** *** Witnesses *)

Lemma sortNodeIDs_topological_witness :
  sortNodeIDs sample = Some (inr ["a"; "d"; "b"; "c"]) /\
  ((exists ids, sortNodeIDs sample = Some (inr ids) /\ topological sample ids /\ ~ cyclic sample) \/
   (exists remaining, sortNodeIDs sample = Some (inl (cycleError remaining)) /\ cyclic sample)).
Proof. split; [vm_compute; reflexivity|exact (sortNodeIDs_topological sample sample_wf)]. Defined.

Definition cycleSample : Graph nat := runOp sample (OpAddEdge "c" "b").

Lemma sortNodeIDsWithPriority_topological_witness :
  sortNodeIDsWithPriority sample {["d" := 1]} = Some (inr ["d"; "a"; "b"; "c"]) /\
  ((exists ids, sortNodeIDsWithPriority sample {["d" := 1]} = Some (inr ids) /\
                topological sample ids /\ ~ cyclic sample) \/
   (exists remaining, sortNodeIDsWithPriority sample {["d" := 1]} =
                        Some (inl (cycleError remaining)) /\ cyclic sample)).
Proof.
  split; [vm_compute; reflexivity|].
  exact (sortNodeIDsWithPriority_topological sample {["d" := 1]} sample_wf).
Defined.

Lemma HasCircularDependency_iff_sort_fails_witness :
  HasCircularDependency cycleSample = Some true /\
  exists b, HasCircularDependency cycleSample = Some b /\ (b = true <-> cyclic cycleSample) /\
            (b = true <-> exists e, sortNodeIDs cycleSample = Some (inl e)).
Proof.
  split; [vm_compute; reflexivity|].
  exact (HasCircularDependency_iff_sort_fails cycleSample
           (runOp_wf sample (OpAddEdge "c" "b") sample_wf)).
Defined.

Lemma sortByPriority_unique_witness : ["b"; "a"] = sortByPriority {["b" := 7]} ["a"; "b"].
Proof.
  apply (sortByPriority_unique {["b" := 7]} ["a"; "b"] ["b"; "a"]).
  - apply Permutation_swap.
  - intros [|[|i]] [|[|j]] a b Hij Hi Hj; simpl in *; try lia; simplify_eq; vm_compute; reflexivity.
Defined.
