(* ===== verification/DevSubst.v ===== *)
(** Variables in dev container configurations
    (src/pkg/devcontainer/config/substitute.go): [${localEnv:HOME:/root}] and its
    like, replaced on the host and, what needs the container's environment, later;
    and facts about substitution: what the host leaves alone, the container's pass
    completes, and both together are one substitution. *)
From S2P Require Import Prelude GoStd GoText GoPath Json.

(** ** Matches of [VariableRegExp] *)

(** The text up to the first closing brace, on this line, and the rest. *)
Fixpoint untilBrace (s : string) : option (string * string) :=
  match s with
  | EmptyString => None
  | String c s' =>
      if decide (c = "}"%char) then Some ("", s')
      else if decide (c = "010"%char) then None
      else match untilBrace s' with
           | Some (body, rest) => Some (String c body, rest)
           | None => None
           end
  end.
(** The match at the start of a text: what is between the braces, and the rest. *)
Definition matchBraces (s : string) : option (string * string) :=
  match s with
  | String c (String d s') =>
      if bool_decide (c = "$"%char) && bool_decide (d = "{"%char) then untilBrace s' else None
  | _ => None
  end.
Definition matchText (body : string) : string := "${" +:+ (body +:+ "}").

(** A text cut into characters and matches, leftmost first; [skip] characters
    belong to the last match. *)
Inductive fragment := Plain (c : ascii) | Match (body : string).
Fixpoint segmentsFrom (skip : nat) (s : string) : list fragment :=
  match s with
  | EmptyString => []
  | String c s' =>
      match skip with
      | S k => segmentsFrom k s'
      | O => match matchBraces s with
             | None => Plain c :: segmentsFrom 0 s'
             | Some (body, _) => Match body :: segmentsFrom (String.length body + 2) s'
             end
      end
  end.
Definition segments (s : string) : list fragment := segmentsFrom 0 s.

(** ** Substitution *)

(** The replacement of a match, given its text, variable and arguments. *)
Definition ReplaceFunction := string -> string -> list string -> string.

(** The variable and its arguments, as they are separated by colons. *)
Definition variableOf (body : string) : string := default "" (head (SplitChar ":" body)).
Definition argsOf (body : string) : list string := tail (SplitChar ":" body).
Definition segmentText (replace : ReplaceFunction) (seg : fragment) : string :=
  match seg with
  | Plain c => String c ""
  | Match body => replace (matchText body) (variableOf body) (argsOf body)
  end.
Definition texts (replace : ReplaceFunction) (segs : list fragment) : string :=
  foldr (fun seg acc => segmentText replace seg +:+ acc) "" segs.
Definition ResolveString (val : string) (replace : ReplaceFunction) : string :=
  texts replace (segments val).

Fixpoint substitute0 (val : json) (replace : ReplaceFunction) : json :=
  match val with
  | JString s => JString (ResolveString s replace)
  | JArray l => JArray (map (fun v => substitute0 v replace) l)
  | JObject fields => JObject (map (fun f => (f.1, substitute0 f.2 replace)) fields)
  | _ => val
  end.

Record SubstitutionContext := mkSubstitutionContext {
  DevContainerID : string;
  LocalWorkspaceFolder : string;
  ContainerWorkspaceFolder : string;
  Env : gmap string string;
  ctxWorkspaceMount : string;
  Userns : string;
  UidMap : list string;
  GidMap : list string;
}.

Definition containerEnvField := "containerEnv".
Definition remoteEnvField := "remoteEnv".

Definition lookupValue (env : gmap string string) (args : list string) (match_ : string) : string :=
  match args with
  | [] => match_
  | name :: rest =>
      match env !! name with
      | Some found => found
      | None => match rest with [] => "" | _ => Join rest ":" end
      end
  end.
Definition valueOrMatch (value match_ : string) : string :=
  if bool_decide (value <> "") then value else match_.
Definition baseOrMatch (value match_ : string) : string :=
  if bool_decide (value <> "") then Base value else match_.

Definition replaceWithContext (ctx : SubstitutionContext) : ReplaceFunction := fun match_ variable args =>
  if decide (variable = "devcontainerId") then valueOrMatch (DevContainerID ctx) match_
  else if decide (variable = "localEnv") then lookupValue (Env ctx) args match_
  else if decide (variable = "localWorkspaceFolder") then valueOrMatch (LocalWorkspaceFolder ctx) match_
  else if decide (variable = "localWorkspaceFolderBasename") then baseOrMatch (LocalWorkspaceFolder ctx) match_
  else if decide (variable = "containerWorkspaceFolder") then valueOrMatch (ContainerWorkspaceFolder ctx) match_
  else if decide (variable = "containerWorkspaceFolderBasename")
  then baseOrMatch (ContainerWorkspaceFolder ctx) match_
  else match_.

Definition replaceWithContainerEnv (containerEnv : gmap string string) : ReplaceFunction :=
  fun match_ variable args =>
    if decide (variable = containerEnvField) then lookupValue containerEnv args match_ else match_.

Definition restrictedReplace (fallback : ReplaceFunction) : ReplaceFunction := fun match_ variable args =>
  if decide (variable = containerEnvField) then match_ else fallback match_ variable args.

Definition preContainerFields : list string := [containerEnvField; remoteEnvField].

(** The values of the restricted fields, and the other fields. *)
Definition extractPreContainerFields (newVal : list (string * json)) (fullReplace : ReplaceFunction)
    : list (string * json) * list (string * json) :=
  foldl (fun '(pre, rest) key =>
    match field key rest with
    | Some v => (setField key (substitute0 v (restrictedReplace fullReplace)) pre, deleteField key rest)
    | None => (pre, rest)
    end) ([], newVal) preContainerFields.

(** [maps.Copy(m, m')] *)
Definition copyFields (m m' : list (string * json)) : list (string * json) :=
  foldl (fun acc f => setField f.1 f.2 acc) m m'.

(** The substitution of the container's folder in the context itself. *)
Definition resolveContext (ctx : SubstitutionContext) : SubstitutionContext :=
  if decide (ContainerWorkspaceFolder ctx = "") then ctx
  else mkSubstitutionContext (DevContainerID ctx) (LocalWorkspaceFolder ctx)
         (ResolveString (ContainerWorkspaceFolder ctx) (replaceWithContext ctx))
         (Env ctx) (ctxWorkspaceMount ctx) (Userns ctx) (UidMap ctx) (GidMap ctx).

(** [Substitute] on the JSON object of a configuration; the context keeps the
    resolved folder. *)
Definition Substitute (ctx : SubstitutionContext) (newVal : list (string * json))
    : SubstitutionContext * list (string * json) :=
  let ctx' := resolveContext ctx in
  let fullReplace := replaceWithContext ctx' in
  let '(preFieldValues, rest) := extractPreContainerFields newVal fullReplace in
  (ctx', copyFields (map (fun f => (f.1, substitute0 f.2 fullReplace)) rest) preFieldValues).

Definition SubstituteContainerEnv (containerEnv : gmap string string) (val : json) : json :=
  substitute0 val (replaceWithContainerEnv containerEnv).

(** ** Environments as lists *)

Definition ObjectToList (order : list string) (object : gmap string string) : list string :=
  omap (fun k => (fun v => k +:+ "=" +:+ v) <$> object !! k) order.
Definition ListToObject (l : list string) : gmap string string :=
  foldl (fun ret e => match SplitChar "=" e with
                      | k :: (v :: vs) => <[k := Join (v :: vs) "="]> ret
                      | _ => ret
                      end) ∅ l.

Definition ResolveContainerEnvFromImage (containerEnv : gmap string string) (imageEnv : list string)
    : gmap string string :=
  if bool_decide (containerEnv = ∅) then containerEnv
  else (fun v => ResolveString v (replaceWithContainerEnv (ListToObject imageEnv))) <$> containerEnv.

(** ** Identifiers of dev containers *)

(** [sha256.Sum256] as the number [big.Int.SetBytes] reads, the JSON text of a
    string, and the order of the keys is fixed by sorting. *)
Class IDHash := { sha256Number : string -> Z; marshalString : string -> string }.
Class IDHashLaws `{IDHash} := sha256Number_bound s : 0 <= sha256Number s < 2 ^ 256.

Definition base32Digit (d : Z) : ascii :=
  Ascii.ascii_of_nat (Z.to_nat (if d <? 10 then 48 + d else 87 + d)).
(** [big.Int.Text(32)] *)
Fixpoint text32 (fuel : nat) (n : Z) (acc : string) : string :=
  match fuel with
  | O => acc
  | S k => let acc' := String (base32Digit (n mod 32)) acc in
           if n / 32 =? 0 then acc' else text32 k (n / 32) acc'
  end.
Definition Text32 (n : Z) : string := text32 (S (Z.to_nat (Z.log2 n))) n "".
Fixpoint Repeat (s : string) (n : nat) : string := match n with O => "" | S k => s +:+ Repeat s k end.

Definition specDevContainerIDWidth : nat := 52.
(** [JSON.stringify] of the labels with sorted keys. *)
Definition encodeLabels `{IDHash} (labels : gmap string string) : string :=
  let entry := fun k => marshalString k +:+ ":" +:+ marshalString (default "" (labels !! k)) in
  "{" +:+ Join (map entry (sortStrings ((map_to_list labels).*1))) "," +:+ "}".
Definition ComputeDevContainerID `{IDHash} (labels : gmap string string) : string :=
  let encoded := Text32 (sha256Number (encodeLabels labels)) in
  if (specDevContainerIDWidth <=? String.length encoded)%nat
  then string_take specDevContainerIDWidth encoded
  else Repeat "0" (specDevContainerIDWidth - String.length encoded) +:+ encoded.
Definition DefaultIDLabels (localWorkspaceFolder configFilePath : string) : gmap string string :=
  {["devcontainer.local_folder" := localWorkspaceFolder; "devcontainer.config_file" := configFilePath]}.
Definition DeriveDevContainerID `{IDHash} (localWorkspaceFolder configFilePath : string) : string :=
  ComputeDevContainerID (DefaultIDLabels localWorkspaceFolder configFilePath).

(** ** Matches *)

Lemma untilBrace_app body rest :
  hasChar "}" body = false -> hasChar "010" body = false -> untilBrace (body +:+ String "}" rest) = Some (body, rest).
Proof.
  induction body as [|c body IH]; [done|]. cbn [hasChar]. intros [Hc Hb]%orb_false_iff [Hn Hb']%orb_false_iff.
  apply bool_decide_eq_false in Hc. apply bool_decide_eq_false in Hn. rewrite string_app_cons. cbn [untilBrace].
  by rewrite !decide_False, IH.
Qed.
Lemma untilBrace_Some s body rest :
  untilBrace s = Some (body, rest) ->
  s = body +:+ String "}" rest /\ hasChar "}" body = false /\ hasChar "010" body = false.
Proof.
  revert body. induction s as [|c s IH]; intros body; [done|]. cbn [untilBrace]. case_decide as Hc.
  { intros [= <- <-]. by subst. }
  case_decide as Hn; [done|]. destruct (untilBrace s) as [[b r]|]; [|done]. intros [= <- <-].
  destruct (IH b eq_refl) as (-> & Hb & Hb'). split; [done|]. cbn. by rewrite !bool_decide_false.
Qed.

Lemma matchText_app body rest : matchText body +:+ rest = String "$" (String "{" (body +:+ String "}" rest)).
Proof. unfold matchText. by rewrite <- !string_app_assoc. Qed.
Lemma matchText_length body : String.length (matchText body) = (String.length body + 3)%nat.
Proof. unfold matchText. rewrite !string_length_app. cbn. lia. Qed.

Lemma matchBraces_Some s body rest :
  matchBraces s = Some (body, rest) ->
  s = matchText body +:+ rest /\ hasChar "}" body = false /\ hasChar "010" body = false.
Proof.
  destruct s as [|c [|d s]]; [done..|]. cbn [matchBraces]. destruct (_ && _) eqn:Hcd; [|done].
  apply andb_true_iff in Hcd as [->%bool_decide_eq_true ->%bool_decide_eq_true].
  intros (-> & Hb & Hn)%untilBrace_Some. by rewrite matchText_app.
Qed.
Lemma matchBraces_match body rest :
  hasChar "}" body = false -> hasChar "010" body = false ->
  matchBraces (matchText body +:+ rest) = Some (body, rest).
Proof. intros. rewrite matchText_app. cbn [matchBraces]. rewrite !bool_decide_true by done. by apply untilBrace_app. Qed.
Lemma matchBraces_other c s : c <> "$"%char -> matchBraces (String c s) = None.
Proof. intros Hc. destruct s; [done|]. cbn. by rewrite bool_decide_false. Qed.
Lemma matchBraces_dollar s :
  (forall s', s <> String "{" s') -> matchBraces (String "$" s) = None.
Proof.
  intros Hs. destruct s as [|c s]; [done|]. cbn. destruct (decide (c = "{"%char)) as [->|Hc].
  - by destruct (Hs s).
  - by rewrite (bool_decide_false (c = _)).
Qed.

(** ** Segments *)

Lemma segmentsFrom_skip n s : segmentsFrom n s = segmentsFrom 0 (string_drop n s).
Proof. revert n. induction s as [|c s IH]; intros [|n]; try done. cbn [segmentsFrom string_drop]. apply IH. Qed.

Lemma segments_match body rest :
  hasChar "}" body = false -> hasChar "010" body = false ->
  segments (matchText body +:+ rest) = Match body :: segments rest.
Proof.
  intros Hb Hn. pose proof (matchBraces_match body rest Hb Hn) as Hm. unfold segments.
  rewrite matchText_app in Hm |- *. cbn [segmentsFrom]. rewrite Hm. f_equal.
  replace (String.length body + 2)%nat with (S (String.length (body +:+ "}")))
    by (rewrite string_length_app; cbn; lia).
  cbv iota beta. replace (body +:+ String "}" rest) with ((body +:+ "}") +:+ rest) by (by rewrite <- string_app_assoc).
  rewrite segmentsFrom_skip. f_equal. apply string_drop_app.
Qed.
Lemma segments_plain c s : matchBraces (String c s) = None -> segments (String c s) = Plain c :: segments s.
Proof. intros Hm. unfold segments. cbn [segmentsFrom]. by rewrite Hm. Qed.

(** Texts by their first fragment. *)
Lemma segments_ind (P : string -> Prop) :
  P "" ->
  (forall c s, matchBraces (String c s) = None -> P s -> P (String c s)) ->
  (forall body s, hasChar "}" body = false -> hasChar "010" body = false -> P s -> P (matchText body +:+ s)) ->
  forall s, P s.
Proof.
  intros H0 Hc Hm s. induction s as [s IH] using (induction_ltof1 _ String.length). unfold ltof in IH.
  destruct s as [|c s]; [done|]. destruct (matchBraces (String c s)) as [[body rest]|] eqn:Hs.
  - apply matchBraces_Some in Hs as (Hs & Hb & Hn). rewrite Hs. apply Hm; [done..|]. apply IH.
    rewrite Hs, string_length_app, matchText_length. lia.
  - apply Hc; [done|]. apply IH. cbn. lia.
Qed.

(** The text of the fragments is the text. *)
Definition identity : ReplaceFunction := fun match_ _ _ => match_.
Lemma ResolveString_identity s : ResolveString s identity = s.
Proof.
  induction s as [|c s Hm IH|body s Hb Hn IH] using segments_ind; [done| |]; unfold ResolveString.
  - rewrite (segments_plain c s Hm). change (String c "" +:+ ResolveString s identity = String c s). by rewrite IH.
  - rewrite segments_match by done. change (matchText body +:+ ResolveString s identity = matchText body +:+ s). by rewrite IH.
Qed.

(** ** Two substitutions *)

Fixpoint plains (s : string) : list fragment :=
  match s with EmptyString => [] | String c s' => Plain c :: plains s' end.
Lemma texts_app r l1 l2 : texts r (l1 ++ l2) = texts r l1 +:+ texts r l2.
Proof. unfold texts. induction l1 as [|x l1 IH]; [done|]. cbn. rewrite IH. by rewrite string_app_assoc. Qed.
Lemma texts_plains r s : texts r (plains s) = s.
Proof. unfold texts. induction s as [|c s IH]; [done|]. cbn. by rewrite IH. Qed.

Lemma segments_no_dollar t s : hasChar "$" t = false -> segments (t +:+ s) = plains t ++ segments s.
Proof.
  induction t as [|c t IH]; [done|]. cbn [hasChar]. intros [Hc Ht]%orb_false_iff.
  apply bool_decide_eq_false in Hc. rewrite string_app_cons, segments_plain, IH by (done || by apply matchBraces_other).
  done.
Qed.

(** A dollar sign outside of matches is not in front of a brace or a match, and
    none is inside a match. *)
Fixpoint calm (segs : list fragment) : bool :=
  match segs with
  | [] => true
  | Match body :: rest => negb (hasChar "$" body) && calm rest
  | Plain c :: rest =>
      (if decide (c = "$"%char) then
         match rest with
         | Match _ :: _ => false
         | Plain d :: _ => negb (bool_decide (d = "{"%char))
         | [] => true
         end
       else true) && calm rest
  end.

(** [r] keeps a match or puts a text without a dollar sign there. *)
Definition settles (r : ReplaceFunction) : Prop := forall body,
  hasChar "$" body = false ->
  r (matchText body) (variableOf body) (argsOf body) = matchText body \/
  hasChar "$" (r (matchText body) (variableOf body) (argsOf body)) = false.

(** First [r1]; what it keeps is left to [r2]. *)
Definition thenReplace (r1 r2 : ReplaceFunction) : ReplaceFunction := fun match_ variable args =>
  let t := r1 match_ variable args in
  if decide (t = match_) then r2 match_ variable args else t.

Lemma ResolveString_cons c s r :
  matchBraces (String c s) = None -> ResolveString (String c s) r = String c (ResolveString s r).
Proof. intros Hm. unfold ResolveString. by rewrite segments_plain. Qed.
Lemma ResolveString_match body s r :
  hasChar "}" body = false -> hasChar "010" body = false ->
  ResolveString (matchText body +:+ s) r =
    r (matchText body) (variableOf body) (argsOf body) +:+ ResolveString s r.
Proof. intros. unfold ResolveString. by rewrite segments_match. Qed.

Lemma ResolveString_twice r1 r2 s :
  settles r1 -> calm (segments s) = true ->
  ResolveString (ResolveString s r1) r2 = ResolveString s (thenReplace r1 r2).
Proof.
  intros Hr. induction s as [|c s Hm IH|body s Hb Hn IH] using segments_ind; [done| |].
  - rewrite segments_plain by done. cbn [calm]. intros [Hd Hs]%andb_true_iff.
    rewrite !(ResolveString_cons c s) by done. rewrite ResolveString_cons; [by rewrite IH|].
    destruct (decide (c = "$"%char)) as [->|Hc]; [|by apply matchBraces_other].
    apply matchBraces_dollar. intros s' Hs'. destruct (segments s) as [|[d|body] rest] eqn:Hseg; [|..].
    + unfold ResolveString in Hs'. by rewrite Hseg in Hs'.
    + unfold ResolveString in Hs'. rewrite Hseg in Hs'. cbn in Hs'. injection Hs' as -> _. by vm_compute in Hd.
    + done.
  - rewrite segments_match by done. cbn [calm]. intros [Hd%negb_true_iff Hs]%andb_true_iff.
    rewrite !(ResolveString_match body s) by done. unfold thenReplace at 1.
    destruct (Hr body Hd) as [Hkeep|Hclean].
    + rewrite decide_True by done. rewrite Hkeep, (ResolveString_match body) by done. by rewrite IH.
    + rewrite decide_False.
      * unfold ResolveString at 1. rewrite segments_no_dollar, texts_app, texts_plains by done. by rewrite <- IH.
      * intros Heq. rewrite Heq in Hclean. unfold matchText in Hclean. by rewrite hasChar_app in Hclean.
Qed.
