(* ===== verification/DevSubstitution.v ===== *)
(** What substitution in dev container configurations promises: the host's pass
    and the container's pass are one substitution, environments survive as
    lists, and identifiers have their fixed width and lose nothing of the hash. *)
From S2P Require Import Prelude GoStd GoText GoPath Json DevSubst.

(** ** Values *)

(** Every string in a value satisfies [p]. *)
Fixpoint allStrings (p : string -> bool) (v : json) : bool :=
  match v with
  | JString s => p s
  | JArray l => forallb (allStrings p) l
  | JObject fields => forallb (fun f => allStrings p f.2) fields
  | _ => true
  end.

Lemma substitute0_ext r r' v :
  (forall m x a, r m x a = r' m x a) -> substitute0 v r = substitute0 v r'.
Proof.
  intros Hr. assert (Hs : forall s, ResolveString s r = ResolveString s r').
  { intros s. unfold ResolveString, texts. induction (segments s) as [|[c|b] l IH]; [done|..]; cbn; by rewrite ?Hr, IH. }
  induction v as [| | | |l IH|fields IH] using json_nested_ind; cbn; f_equal; [by apply Hs|..].
  - apply map_ext_Forall. exact IH.
  - apply map_ext_Forall. eapply Forall_impl; [exact IH|]. by intros [k v] ->.
Qed.

Lemma substitute0_twice r1 r2 v :
  settles r1 -> allStrings (fun s => calm (segments s)) v = true ->
  substitute0 (substitute0 v r1) r2 = substitute0 v (thenReplace r1 r2).
Proof.
  intros Hr. induction v as [| | |s|l IH|fields IH] using json_nested_ind; cbn; try done.
  - intros Hs. f_equal. by apply ResolveString_twice.
  - intros Hl. f_equal. rewrite map_map. apply map_ext_Forall.
    induction IH as [|v l Hv _ IH']; constructor; cbn in Hl; apply andb_true_iff in Hl as [H1 H2]; auto.
  - intros Hl. f_equal. rewrite map_map. apply map_ext_Forall.
    induction IH as [|[k v] fields Hv _ IH']; constructor; cbn in Hl; apply andb_true_iff in Hl as [H1 H2]; auto.
    cbn in *. by rewrite Hv.
Qed.

(** ** The host's replacement *)

Definition noDollar (s : string) : Prop := hasChar "$" s = false.
Record quiet (ctx : SubstitutionContext) : Prop := {
  qu_id : noDollar (DevContainerID ctx);
  qu_local : noDollar (LocalWorkspaceFolder ctx);
  qu_container : noDollar (ContainerWorkspaceFolder ctx);
  qu_env k v : Env ctx !! k = Some v -> noDollar v;
}.

Lemma hasChar_take c n s : hasChar c s = false -> hasChar c (string_take n s) = false.
Proof.
  revert n. induction s as [|d s IH]; intros [|n]; try done. cbn. intros [Hd Hs]%orb_false_iff.
  by rewrite Hd, (IH n Hs).
Qed.
Lemma hasChar_SplitChar c sep s : hasChar c s = false -> Forall (fun p => hasChar c p = false) (SplitChar sep s).
Proof.
  induction s as [|d s IH]; [by repeat constructor|]. cbn [hasChar]. intros [Hd Hs]%orb_false_iff.
  cbn [SplitChar]. specialize (IH Hs). destruct (SplitChar_cons sep s) as (x & l & Hl). rewrite Hl in IH |- *.
  apply Forall_cons in IH as [Hx Hl']. destruct (decide (d = sep)); repeat (apply Forall_cons; split); try done.
  cbn [hasChar]. by rewrite Hd, Hx.
Qed.
Lemma hasChar_Join c sep l :
  hasChar c sep = false -> Forall (fun p => hasChar c p = false) l -> hasChar c (Join l sep) = false.
Proof.
  intros Hsep. induction 1 as [|x l Hx Hl IH]; [done|]. destruct l as [|y l]; [done|].
  rewrite Join_cons, !hasChar_app. by rewrite Hx, Hsep, IH.
Qed.
Lemma hasChar_TrimSuffix c s t : hasChar c s = false -> hasChar c (TrimSuffix s t) = false.
Proof. intros Hs. unfold TrimSuffix. case_match; [by apply hasChar_take|done]. Qed.
Lemma noDollar_Base s : noDollar s -> noDollar (Base s).
Proof.
  unfold Base. intros Hs. case_bool_decide; [done|].
  assert (Hq : forall n q, noDollar q -> noDollar (trimSlashes n q)).
  { induction n as [|n IH]; intros q Hq; [done|]. cbn. case_match; [|done]. apply IH. by apply hasChar_TrimSuffix. }
  specialize (Hq (String.length s) s Hs). case_bool_decide; [done|]. unfold noDollar, lastElem.
  apply (hasChar_SplitChar _ slash) in Hq. destruct (last _) as [e|] eqn:He; [|done]. cbn.
  apply last_Some_elem_of in He. by rewrite Forall_forall in Hq; apply Hq.
Qed.

Lemma settles_context ctx : quiet ctx -> settles (replaceWithContext ctx).
Proof.
  intros [Hid Hl Hc He] body Hb. unfold replaceWithContext, valueOrMatch, baseOrMatch.
  assert (Hbase : forall s, noDollar s -> hasChar "$" (Base s) = false) by (intros; by apply noDollar_Base).
  repeat (case_decide; [try (case_bool_decide; [right; auto|by left])|]); [|by left].
  unfold lookupValue, argsOf. pose proof (hasChar_SplitChar "$" ":" body Hb) as Hp.
  destruct (SplitChar ":" body) as [|x [|name rest]]; [by left..|]. cbn [tail]. right.
  destruct (Env ctx !! name) as [v|] eqn:Hv; [by eapply He|]. destruct rest as [|y rest]; [done|].
  apply hasChar_Join; [done|]. by do 2 (apply Forall_cons in Hp as [_ Hp]).
Qed.

(** ** Both passes *)

Lemma restricted_is_full ctx m x a :
  restrictedReplace (replaceWithContext ctx) m x a = replaceWithContext ctx m x a.
Proof. unfold restrictedReplace. case_decide; [|done]. by subst. Qed.

Lemma Substitute_field ctx cfg k :
  field k (Substitute ctx cfg).2 = (fun v => substitute0 v (replaceWithContext (resolveContext ctx))) <$> field k cfg.
Proof.
  unfold Substitute, extractPreContainerFields, preContainerFields. cbn [foldl].
  set (full := replaceWithContext (resolveContext ctx)).
  assert (Hpre : forall v, substitute0 v (restrictedReplace full) = substitute0 v full)
    by (intros v; apply substitute0_ext; intros; apply restricted_is_full).
  assert (E1 : forall v, setField containerEnvField v [] = [(containerEnvField, v)]) by done.
  assert (E2 : forall v, setField remoteEnvField v [] = [(remoteEnvField, v)]) by done.
  assert (E12 : forall v w, setField remoteEnvField w [(containerEnvField, v)] =
    [(containerEnvField, v); (remoteEnvField, w)]) by done.
  destruct (field containerEnvField cfg) as [v1|] eqn:H1; rewrite ?field_deleteField;
    [rewrite decide_False by done|]; destruct (field remoteEnvField cfg) as [v2|] eqn:H2;
    cbn [snd]; unfold copyFields; rewrite ?Hpre, ?E1, ?E12, ?E2; cbn [foldl fst snd];
    repeat (rewrite ?field_setField, ?(field_map (fun v => substitute0 v full)), ?field_deleteField);
    repeat case_decide; subst; try done; by rewrite ?H1, ?H2.
Qed.

(** Every variable at once, where the container's environment is known. *)
Definition wholeReplace (ctx : SubstitutionContext) (containerEnv : gmap string string) : ReplaceFunction :=
  fun match_ variable args =>
    if decide (variable = containerEnvField) then lookupValue containerEnv args match_
    else replaceWithContext ctx match_ variable args.

Lemma thenReplace_whole ctx containerEnv m x a :
  thenReplace (replaceWithContext ctx) (replaceWithContainerEnv containerEnv) m x a = wholeReplace ctx containerEnv m x a.
Proof.
  unfold thenReplace, wholeReplace, replaceWithContainerEnv. destruct (decide (x = containerEnvField)) as [->|Hx].
  - change (replaceWithContext ctx m containerEnvField a) with m. by rewrite decide_True.
  - by case_decide.
Qed.

(** C24: substituting a configuration on the host and completing it in the
    container is one substitution that knows both: every field comes out with the
    variables of the host and of the container's environment replaced, the
    fields that are handed to the container early included.  (The
    values of the host must not bring new dollar signs, which the second pass could
    read as variables, and a dollar sign of the configuration that begins no
    variable must not stand in front of a brace or a variable, or inside one.) *)
Theorem Substitute_then_container ctx containerEnv (cfg : list (string * json)) :
  quiet (resolveContext ctx) ->
  (forall k v, field k cfg = Some v -> allStrings (fun s => calm (segments s)) v = true) ->
  forall k,
    (SubstituteContainerEnv containerEnv <$> field k (Substitute ctx cfg).2) =
    (fun v => substitute0 v (wholeReplace (resolveContext ctx) containerEnv)) <$> field k cfg.
Proof.
  intros Hq Hcalm k. rewrite Substitute_field, <- option_fmap_compose. unfold compose, SubstituteContainerEnv.
  destruct (field k cfg) as [v|] eqn:Hk; [|done]. cbn. f_equal.
  rewrite (substitute0_twice _ _ v (settles_context _ Hq) (Hcalm k v Hk)).
  apply substitute0_ext. intros. apply thenReplace_whole.
Qed.

(** ** Environments as lists *)

Definition encodeEntry (p : string * string) : string := p.1 +:+ "=" +:+ p.2.
Lemma ListToObject_entries (ps : list (string * string)) :
  NoDup ps.*1 -> Forall (fun p => hasChar "=" p.1 = false) ps ->
  ListToObject (map encodeEntry ps) = (list_to_map ps : gmap string string).
Proof.
  intros Hnd Hk. unfold ListToObject.
  assert (Hgen : forall acc, (forall k, k ∈ ps.*1 -> acc !! k = None) ->
    foldl (fun ret e => match SplitChar "=" e with
                        | k :: (v :: vs) => <[k := Join (v :: vs) "="]> ret
                        | _ => ret
                        end) acc (map encodeEntry ps) = (list_to_map ps : gmap string string) ∪ acc).
  { induction ps as [|[k v] ps IH]; intros acc Hacc; [cbn; by rewrite map_empty_union|].
    apply Forall_cons in Hk as [Hk Hks]. apply NoDup_cons in Hnd as [Hn Hnd]. cbn [map foldl].
    assert (Hsplit : SplitChar "=" (encodeEntry (k, v)) = k :: SplitChar "=" v) by (by apply SplitChar_app).
    destruct (SplitChar_cons "=" v) as (x & l & Hv). pose proof (Join_SplitChar "=" v) as Hj.
    rewrite Hv in Hsplit, Hj. rewrite Hsplit. rewrite Hj, IH; [|done|done|].
    - cbn. rewrite <- insert_union_l, <- insert_union_r; [done|].
      apply not_elem_of_list_to_map_1. done.
    - intros k' Hk'. rewrite lookup_insert_ne by (intros ->; done). apply Hacc. cbn. set_solver. }
  rewrite Hgen by (intros; apply lookup_empty). by rewrite map_union_empty.
Qed.

(** An environment turned into KEY=VALUE entries, in whatever order Go walks
    the map, is read back as it was; values may contain equals signs. *)
Theorem environment_roundtrip (env : gmap string string) (order : list string) :
  order ≡ₚ (map_to_list env).*1 ->
  (forall k v, env !! k = Some v -> hasChar "=" k = false) ->
  ListToObject (ObjectToList order env) = env.
Proof.
  intros Hp Hk. set (ps := omap (fun k => (fun v => (k, v)) <$> env !! k) order).
  assert (Hin : forall k, k ∈ order -> is_Some (env !! k)).
  { intros k. rewrite Hp. intros ([k' v] & -> & Hv)%list_elem_of_fmap. apply elem_of_map_to_list in Hv. by exists v. }
  assert (Hkeys : ps.*1 = order).
  { unfold ps. clear Hp. induction order as [|k order IH]; [done|]. cbn.
    destruct (Hin k) as [v ->]; [set_solver|]. cbn. f_equal. apply IH. intros; apply Hin; set_solver. }
  assert (Hlist : ObjectToList order env = map encodeEntry ps).
  { unfold ObjectToList, ps. clear. induction order as [|k order IH]; [done|]. cbn.
    destruct (env !! k); cbn; by rewrite IH. }
  assert (Hps : forall k v, (k, v) ∈ ps -> env !! k = Some v).
  { intros k v. unfold ps. rewrite list_elem_of_omap. intros (k' & _ & Hv). destruct (env !! k') eqn:He; [|done].
    injection Hv as -> ->. done. }
  assert (Hnd : NoDup ps.*1) by (rewrite Hkeys, Hp; apply NoDup_fst_map_to_list).
  rewrite Hlist, ListToObject_entries; [|done|].
  - apply map_eq. intros k. destruct (env !! k) as [v|] eqn:Hv.
    + apply elem_of_list_to_map_1; [done|]. assert (Hkp : k ∈ ps.*1).
      { rewrite Hkeys, Hp. apply list_elem_of_fmap. exists (k, v). split; [done|]. by apply elem_of_map_to_list. }
      apply list_elem_of_fmap in Hkp as ([k' v'] & -> & Hkv). pose proof (Hps _ _ Hkv). cbn in *. congruence.
    + apply not_elem_of_list_to_map_1. rewrite Hkeys. intros Hin'. apply Hin in Hin' as [v' Hv']. congruence.
  - apply Forall_forall. intros [k v] Hkv. by apply Hps, Hk in Hkv.
Qed.

(** ** Identifiers *)

Definition digitValue (c : ascii) : Z := if in_range 48 57 c then byte c - 48 else byte c - 87.
(** The number a text of digits stands for, behind the digits of [a]. *)
Fixpoint value32 (a : Z) (s : string) : Z :=
  match s with EmptyString => a | String c s' => value32 (a * 32 + digitValue c) s' end.

Lemma digitValue_digit d : 0 <= d < 32 -> digitValue (base32Digit d) = d.
Proof.
  intros Hd. assert (Hall : forallb (fun d => digitValue (base32Digit d) =? d) (seqZ 0 32) = true) by (by vm_compute).
  rewrite forallb_forall in Hall. apply Z.eqb_eq, Hall, list_elem_of_In, elem_of_seqZ. lia.
Qed.

Lemma text32_value fuel : forall n acc,
  0 <= n < 32 ^ Z.of_nat fuel -> (0 < fuel)%nat -> value32 0 (text32 fuel n acc) = value32 n acc.
Proof.
  induction fuel as [|fuel IH]; intros n acc Hn Hf; [lia|]. cbn [text32].
  pose proof (Z.div_mod n 32). pose proof (Z.mod_pos_bound n 32).
  assert (Hdig : forall a, value32 a (String (base32Digit (n mod 32)) acc) = value32 (a * 32 + n mod 32) acc)
    by (intros a; cbn [value32]; rewrite digitValue_digit by lia; done).
  destruct (Z.eqb_spec (n / 32) 0) as [Hz|Hz].
  - rewrite Hdig. f_equal. lia.
  - rewrite Nat2Z.inj_succ, Z.pow_succ_r in Hn by lia.
    assert (Hdiv : 0 <= n / 32 < 32 ^ Z.of_nat fuel)
      by (split; [apply Z.div_pos; lia|apply Z.div_lt_upper_bound; lia]).
    rewrite IH, Hdig; [f_equal; lia|done|]. destruct fuel; [cbn in Hdiv; lia|lia].
Qed.
Lemma text32_length k : forall fuel n acc,
  0 <= n < 32 ^ Z.of_nat k -> (0 < k)%nat ->
  (String.length (text32 fuel n acc) <= String.length acc + k)%nat.
Proof.
  induction k as [|k IH]; intros fuel n acc Hn Hk; [lia|]. destruct fuel as [|fuel]; cbn [text32]; [lia|].
  destruct (Z.eqb_spec (n / 32) 0) as [Hz|Hz]; [cbn; lia|].
  rewrite Nat2Z.inj_succ, Z.pow_succ_r in Hn by lia.
  assert (Hdiv : 0 <= n / 32 < 32 ^ Z.of_nat k)
    by (split; [apply Z.div_pos; lia|apply Z.div_lt_upper_bound; lia]).
  etrans; [apply IH; [done|destruct k; [cbn in Hdiv; lia|lia]]|]. cbn. lia.
Qed.

Lemma Text32_spec n : 0 <= n < 2 ^ 256 -> value32 0 (Text32 n) = n /\ (String.length (Text32 n) <= 52)%nat.
Proof.
  intros Hn. unfold Text32. split.
  - rewrite text32_value; [done| |lia]. split; [lia|].
    assert (n < 2 ^ Z.succ (Z.log2 n)).
    { destruct (decide (n = 0)) as [->|]; [done|]. apply Z.log2_spec. lia. }
    etrans; [exact H|]. replace 32 with (2 ^ 5) by done. rewrite <- Z.pow_mul_r by lia.
    pose proof (Z.log2_nonneg n). apply Z.pow_lt_mono_r; lia.
  - apply (text32_length 52); [|lia]. split; [lia|]. eapply Z.lt_trans; [apply Hn|]. by vm_compute.
Qed.

Lemma Repeat_length s n : String.length (Repeat s n) = (n * String.length s)%nat.
Proof. induction n as [|n IH]; [done|]. cbn [Repeat]. rewrite string_length_app, IH. lia. Qed.
Lemma value32_zeros n s : value32 0 (Repeat "0" n +:+ s) = value32 0 s.
Proof.
  induction n as [|n IH]; [done|]. cbn [Repeat]. rewrite <- string_app_assoc. exact IH.
Qed.

(** A dev container identifier has its 52 characters, and they stand for the
    whole hash of the labels: nothing is cut off, so different hashes give
    different identifiers. *)
Theorem ComputeDevContainerID_exact `{HH : IDHash} `{HL : !IDHashLaws} (labels : gmap string string) :
  String.length (ComputeDevContainerID labels) = specDevContainerIDWidth /\
  value32 0 (ComputeDevContainerID labels) = sha256Number (encodeLabels labels).
Proof.
  unfold ComputeDevContainerID, specDevContainerIDWidth.
  destruct (Text32_spec (sha256Number (encodeLabels labels)) (sha256Number_bound _)) as [Hv Hl].
  set (encoded := Text32 _) in *. destruct (Nat.leb_spec 52 (String.length encoded)) as [Hge|Hlt].
  - rewrite string_take_all by lia. split; [lia|done].
  - rewrite string_length_app, Repeat_length, value32_zeros. change (String.length "0") with 1%nat. split; [lia|done].
Qed.
