(* ===== verification/DevTypes.v ===== *)
(** The configuration of a dev container (src/pkg/devcontainer/config/config.go
    and metadata.go) as it is decoded from devcontainer.json and from the label
    of an image.  A nil map is an empty one, which reads and serializes alike; a
    slice is [None] when it is nil, because merging asks for that. *)
From S2P Require Import Prelude GoStd GoText GoConv Json.

Abbreviation slice A := (option (list A)).
Definition elems {A} (s : slice A) : list A := default [] s.
(** [append(s, xs...)]: appending nothing leaves nil. *)
Definition appendTo {A} (s : slice A) (xs : list A) : slice A :=
  match xs with [] => s | _ => Some (elems s ++ xs) end.

(** src/pkg/types: commands of a lifecycle event by name; "" is the anonymous one. *)
Abbreviation LifecycleHook := (gmap string (list string)).

Record PortAttribute := mkPortAttribute {
  OnAutoForward : string;
  ElevateIfNeeded : bool;
  PortLabel : string;
  RequireLocalPort : bool;
  Protocol : string;
}.
Record GPURequirement := mkGPU { GPUValue : string; Cores : Z; GPUMemory : string }.
Record HostRequirements := mkHostRequirements {
  CPUs : Z;
  Memory : string;
  Storage : string;
  GPU : option GPURequirement;
}.
Record SecretConfig := mkSecretConfig { SecretDescription : string; DocumentationUrl : string }.
Record Mount := mkMount {
  MountType : string;
  Source : string;
  Target : string;
  External : bool;
  Other : slice string;
}.

Record DevContainerConfigBase := mkBase {
  Extends : slice string;
  Name : string;
  Features : gmap string json;
  OverrideFeatureInstallOrder : slice string;
  ForwardPorts : slice string;
  PortsAttributes : gmap string PortAttribute;
  OtherPortsAttributes : option PortAttribute;
  UpdateRemoteUserUID : option bool;
  RemoteEnv : gmap string (option string);
  RemoteUser : string;
  InitializeCommand : LifecycleHook;
  ShutdownAction : string;
  WaitFor : string;
  UserEnvProbe : string;
  HostReqs : option HostRequirements;
  OverrideCommand : option bool;
  WorkspaceFolder : string;
  Settings : gmap string json;
  Extensions : slice string;
  DevPort : Z;
  Secrets : gmap string SecretConfig;
}.
Record DevContainerActions := mkActions {
  OnCreateCommand : LifecycleHook;
  UpdateContentCommand : LifecycleHook;
  PostCreateCommand : LifecycleHook;
  PostStartCommand : LifecycleHook;
  PostAttachCommand : LifecycleHook;
  Customizations : gmap string json;
}.
Record NonComposeBase := mkNonCompose {
  AppPort : slice string;
  ContainerEnv : gmap string string;
  ContainerUser : string;
  Mounts : slice Mount;
  Init : option bool;
  Privileged : option bool;
  CapAdd : slice string;
  SecurityOpt : slice string;
  RunArgs : slice string;
  WorkspaceMount : option string;
}.
Record UpdatedConfigProperties := mkUpdated {
  Entrypoints : slice string;
  OnCreateCommands : slice LifecycleHook;
  UpdateContentCommands : slice LifecycleHook;
  PostCreateCommands : slice LifecycleHook;
  PostStartCommands : slice LifecycleHook;
  PostAttachCommands : slice LifecycleHook;
  CustomizationLists : gmap string (list json);
}.
Record ComposeContainer := mkCompose {
  DockerComposeFile : slice string;
  Service : string;
  RunServices : slice string;
}.
Record ImageContainer := mkImage { Image : string }.
Record ConfigBuildOptions := mkBuildOptions {
  BuildDockerfile : string;
  BuildContext : string;
  BuildTarget : string;
  BuildArgs : gmap string string;
  CacheFrom : slice string;
  BuildOptions : slice string;
}.
Record DockerfileContainer := mkDockerfile {
  Dockerfile : string;
  Context_ : string;
  Build : option ConfigBuildOptions;
}.
Record RunningContainer := mkRunning { ContainerID : string }.

(** src/pkg/devcontainer/config/source.go: what a declaring file said. *)
Record ConfigSource := mkSource { SourceOrigin : string; Fields : list (string * json) }.

Record DevContainerConfig := mkConfig {
  cBase : DevContainerConfigBase;
  cActions : DevContainerActions;
  cNonCompose : NonComposeBase;
  cImage : ImageContainer;
  cCompose : ComposeContainer;
  cDockerfile : DockerfileContainer;
  cRunning : RunningContainer;
  Sources : slice ConfigSource;
  Origin : string;
}.
Record MergedDevContainerConfig := mkMerged {
  mgBase : DevContainerConfigBase;
  mgUpdated : UpdatedConfigProperties;
  mgNonCompose : NonComposeBase;
  mgImage : ImageContainer;
  mgCompose : ComposeContainer;
  mgDockerfile : DockerfileContainer;
  mgRunning : RunningContainer;
  mgOrigin : string;
}.
Record ImageMetadata := mkMetadata {
  mdID : string;
  Entrypoint : string;
  mdBase : DevContainerConfigBase;
  mdActions : DevContainerActions;
  mdNonCompose : NonComposeBase;
}.

(** Zero values. *)
Definition noBase : DevContainerConfigBase :=
  mkBase None "" ∅ None None ∅ None None ∅ "" ∅ "" "" "" None None "" ∅ None 0 ∅.
Definition noActions : DevContainerActions := mkActions ∅ ∅ ∅ ∅ ∅ ∅.
Definition noNonCompose : NonComposeBase := mkNonCompose None ∅ "" None None None None None None None.
Definition noMetadata : ImageMetadata := mkMetadata "" "" noBase noActions noNonCompose.
Definition noConfig : DevContainerConfig :=
  mkConfig noBase noActions noNonCompose (mkImage "") (mkCompose None "" None) (mkDockerfile "" "" None)
    (mkRunning "") None "".

(** ** Copies *)

(** A copy goes through JSON ([convert]): what [omitempty] leaves out comes back
    as nil, and a GPU value that reads as a truth value comes back as one.  Texts
    are valid UTF-8, since they were decoded from JSON. *)
Definition omitEmpty {A} (s : slice A) : slice A := match s with Some [] => None | _ => s end.
Definition copyGPU (g : GPURequirement) : GPURequirement :=
  if (0 <? Cores g) || bool_decide (GPUMemory g <> "")
  then mkGPU "true" (if 0 <? Cores g then Cores g else 0) (GPUMemory g)
  else match ParseBool (GPUValue g) with
       | Some b => mkGPU (if b then "true" else "false") 0 ""
       | None => mkGPU (GPUValue g) 0 ""
       end.
Definition copyHostRequirements (h : HostRequirements) : HostRequirements :=
  mkHostRequirements (CPUs h) (Memory h) (Storage h) (copyGPU <$> GPU h).
Definition copyMount (m : Mount) : Mount :=
  mkMount (MountType m) (Source m) (Target m) (External m) (omitEmpty (Other m)).
Definition copyBuild (b : ConfigBuildOptions) : ConfigBuildOptions :=
  mkBuildOptions (BuildDockerfile b) (BuildContext b) (BuildTarget b) (BuildArgs b)
    (omitEmpty (CacheFrom b)) (omitEmpty (BuildOptions b)).
Definition copyBase (b : DevContainerConfigBase) : DevContainerConfigBase :=
  mkBase (omitEmpty (Extends b)) (Name b) (Features b) (omitEmpty (OverrideFeatureInstallOrder b))
    (omitEmpty (ForwardPorts b)) (PortsAttributes b) (OtherPortsAttributes b) (UpdateRemoteUserUID b)
    (RemoteEnv b) (RemoteUser b) (InitializeCommand b) (ShutdownAction b) (WaitFor b) (UserEnvProbe b)
    (copyHostRequirements <$> HostReqs b) (OverrideCommand b) (WorkspaceFolder b) (Settings b)
    (omitEmpty (Extensions b)) (DevPort b) (Secrets b).
Definition copyNonCompose (n : NonComposeBase) : NonComposeBase :=
  mkNonCompose (omitEmpty (AppPort n)) (ContainerEnv n) (ContainerUser n) (option_map (map copyMount) (omitEmpty (Mounts n)))
    (Init n) (Privileged n) (omitEmpty (CapAdd n)) (omitEmpty (SecurityOpt n)) (omitEmpty (RunArgs n))
    (WorkspaceMount n).
Definition copyCompose (c : ComposeContainer) : ComposeContainer :=
  mkCompose (omitEmpty (DockerComposeFile c)) (Service c) (omitEmpty (RunServices c)).
Definition CloneDevContainerConfig (config : DevContainerConfig) : DevContainerConfig :=
  mkConfig (copyBase (cBase config)) (cActions config) (copyNonCompose (cNonCompose config)) (cImage config)
    (copyCompose (cCompose config))
    (mkDockerfile (Dockerfile (cDockerfile config)) (Context_ (cDockerfile config))
       (copyBuild <$> Build (cDockerfile config)))
    (cRunning config) (omitEmpty (Sources config)) (Origin config).
