(* ===== verification/DevMerge.v ===== *)
(** Merging the configuration of a dev container with the metadata of its image
    and features (src/pkg/devcontainer/config/merge.go, metadata.go, and the
    entries of src/pkg/devcontainer/metadata). *)
From S2P Require Import Prelude GoStd GoText GoConv GoPath Json DevTypes.

(** ** Picking from entries *)

Definition ReverseSlice {A} (s : list A) : list A := reverse s.
Fixpoint some {A} (entries : list A) (m : A -> option bool) : option bool :=
  match entries with
  | [] => None
  | e :: rest => match m e with Some b => Some b | None => some rest m end
  end.
Fixpoint firstString {A} (entries : list A) (m : A -> string) : string :=
  match entries with
  | [] => ""
  | e :: rest => if bool_decide (m e <> "") then m e else firstString rest m
  end.
Fixpoint unionOrNil {A B} (entries : list A) (m : A -> slice B) : slice B :=
  match entries with
  | [] => None
  | e :: rest =>
      match elems (m e) ++ elems (unionOrNil rest m) with [] => None | l => Some l end
  end.
Fixpoint collectOrNil {A} (entries : list A) (m : A -> string) : slice string :=
  match entries with
  | [] => None
  | e :: rest =>
      if bool_decide (m e <> "") then Some (m e :: elems (collectOrNil rest m)) else collectOrNil rest m
  end.
(** The first of each, in the order they are seen. *)
Fixpoint uniqueFrom (inResult : gset string) (s : list string) : list string :=
  match s with
  | [] => []
  | x :: rest =>
      if bool_decide (x ∈ inResult) then uniqueFrom inResult rest
      else x :: uniqueFrom ({[x]} ∪ inResult) rest
  end.
Definition unique (s : slice string) : slice string :=
  match uniqueFrom ∅ (elems s) with [] => None | l => Some l end.
(** Later entries of the list win. *)
Definition mergeMaps {A B} (entries : list A) (m : A -> gmap string B) : gmap string B :=
  foldl (fun retMap e => m e ∪ retMap) ∅ entries.
Fixpoint mergeOtherPortsAttributes (entries : list ImageMetadata) : option PortAttribute :=
  match entries with
  | [] => None
  | e :: rest =>
      match OtherPortsAttributes (mdBase e) with
      | Some p => Some p
      | None => mergeOtherPortsAttributes rest
      end
  end.

(** ** Host requirements *)

(** [strings.ToLower] as far as ASCII letters come out of it: besides A to Z the
    Kelvin sign and the capital I with a dot. *)
Fixpoint lowerASCII (s : string) : string :=
  match s with
  | EmptyString => s
  | String a s1 =>
      match s1 with
      | String b s2 =>
          if bool_decide (a = "196"%char) && bool_decide (b = "176"%char) then String "i" (lowerASCII s2)
          else match s2 with
               | String c s3 =>
                   if bool_decide (a = "226"%char) && bool_decide (b = "132"%char) && bool_decide (c = "170"%char)
                   then String "k" (lowerASCII s3)
                   else String (if in_range 65 90 a then Ascii.ascii_of_nat (Ascii.nat_of_ascii a + 32) else a)
                          (lowerASCII s1)
               | EmptyString =>
                   String (if in_range 65 90 a then Ascii.ascii_of_nat (Ascii.nat_of_ascii a + 32) else a)
                     (lowerASCII s1)
               end
      | EmptyString =>
          String (if in_range 65 90 a then Ascii.ascii_of_nat (Ascii.nat_of_ascii a + 32) else a) EmptyString
      end
  end.

(** [strconv.ParseFloat(s, 64)] of a text of digits and points: the [float64]
    next to the exact quotient; an infinite one is an error. *)
Definition floatOfRatio (num : Z) (den : positive) : SpecFloat.spec_float :=
  match num with
  | Zpos n => SpecFloat.SFdiv 53 1024 (SpecFloat.S754_finite false n 0) (SpecFloat.S754_finite false den 0)
  | _ => SpecFloat.S754_zero false
  end.
Definition decimalValue (s : string) : Z := default 0 (parse_digits 0 s).
Definition ParseFloat (s : string) : option SpecFloat.spec_float :=
  let parsed :=
    match SplitChar "." s with
    | [whole] => if bool_decide (whole = "") then None else Some (decimalValue whole, 1%positive)
    | [whole; ""] => if bool_decide (whole = "") then None else Some (decimalValue whole, 1%positive)
    | [whole; frac] => Some (decimalValue (whole +:+ frac), Pos.pow 10 (Pos.of_nat (String.length frac)))
    | _ => None
    end in
  match parsed with
  | None => None
  | Some (num, den) => match floatOfRatio num den with SpecFloat.S754_infinity _ => None | x => Some x end
  end.

(** [uint64(x)]; out of range it is what amd64 computes. *)
Definition uint64OfFloat (x : SpecFloat.spec_float) : Z :=
  let z := truncFloat x in if (0 <=? z) && (z <? 2 ^ 64) then z else 2 ^ 63.

Definition byteSizeMultipliers (unit : string) : option Z :=
  if bool_decide (unit = "kb") then Some 1024
  else if bool_decide (unit = "mb") then Some (1024 * 1024)
  else if bool_decide (unit = "gb") then Some (1024 * 1024 * 1024)
  else if bool_decide (unit = "tb") then Some (1024 * 1024 * 1024 * 1024)
  else None.
Definition parseByteSize (s : string) : Z :=
  let t := TrimSpace s in
  if bool_decide (t = "") then 0
  else
    let '(numStr, rest) := span numberPart t in
    match ParseFloat numStr with
    | None => 0
    | Some val =>
        match byteSizeMultipliers (lowerASCII (TrimSpace rest)) with
        | Some mult => uint64OfFloat (SpecFloat.SFmul 53 1024 val (toFloat mult))
        | None => uint64OfFloat val
        end
    end.
Example byte_sizes :
  parseByteSize "1.5gb" = 1610612736 /\ parseByteSize " 8 GB " = 8589934592 /\ parseByteSize "100" = 100 /\
  parseByteSize "1.2.3mb" = 0 /\ parseByteSize "0.1kb" = 102 /\ parseByteSize "4.mb" = 4194304.
Proof. vm_compute. done. Qed.
Definition maxByteString (a b : string) : string :=
  if parseByteSize a <? parseByteSize b then b else if bool_decide (a = "") then b else a.

Definition gpuPriority (g : option GPURequirement) : Z :=
  match g with
  | None => 0
  | Some g =>
      let v := lowerASCII (GPUValue g) in
      if bool_decide (v = "false") then 1 else if bool_decide (v = "optional") then 2 else 3
  end.
Definition mergeGPU (a b : option GPURequirement) : option GPURequirement :=
  if gpuPriority a <? gpuPriority b then b else a.
Definition mergeHostRequirement (merged : option HostRequirements) (h : option HostRequirements)
    : option HostRequirements :=
  match h with
  | None => merged
  | Some h =>
      let m := default (mkHostRequirements 0 "" "" None) merged in
      Some (mkHostRequirements (if CPUs m <? CPUs h then CPUs h else CPUs m)
              (maxByteString (Memory m) (Memory h)) (maxByteString (Storage m) (Storage h))
              (mergeGPU (GPU m) (GPU h)))
  end.
Definition mergeHostRequirements (entries : list ImageMetadata) : option HostRequirements :=
  foldl (fun merged e => mergeHostRequirement merged (HostReqs (mdBase e))) None entries.

(** ** Ports *)

(** [strconv.Atoi] and the error of a text that is no number. *)
Definition Atoi := ParseInt.
Definition notANumber : goerr := Sentinel "strconv.NumError" "invalid syntax".
Definition parsePortRange (port : string) : goerr + (Z * Z) :=
  let '(startStr, endStr) := default (port, "") (Cut port "-") in
  match Atoi startStr with
  | None => inl (Errorf "invalid range start in %q: %w" [AStr port; AErr notANumber])
  | Some start =>
      match Atoi endStr with
      | None => inl (Errorf "invalid range end in %q: %w" [AStr port; AErr notANumber])
      | Some stop =>
          if (start <? 0) || (stop <? 0) then inl (Errorf "negative port in range %q" [AStr port])
          else if stop <? start
          then inl (Errorf "invalid port range %q: start (%d) > end (%d)" [AStr port; AStr (Itoa start); AStr (Itoa stop)])
          else inr (start, stop)
      end
  end.
Definition expandPortRange (port : string) : goerr + list string :=
  if hasChar ":" port then inr [port]
  else if negb (hasChar "-" port) then
    match Atoi port with
    | None => inl (Errorf "invalid port %q: %w" [AStr port; AErr notANumber])
    | Some _ => inr [port]
    end
  else match parsePortRange port with
       | inl e => inl e
       | inr (start, stop) => inr (map Itoa (seqZ start (stop - start + 1)))
       end.
(** The name under which ports are the same. *)
Definition portString (p : string) : string :=
  if Atoi p is Some _ then "localhost:" +:+ p else p.
Definition addPort (st : gset string * list string) (p : string) : gset string * list string :=
  let '(portMap, retPorts) := st in
  if bool_decide (portString p ∈ portMap) then st
  else ({[portString p]} ∪ portMap, retPorts ++ [p]).
Definition expanded (port : string) : list string := match expandPortRange port with inl _ => [] | inr ps => ps end.
Definition mergeForwardPorts (entries : list ImageMetadata) : slice string :=
  let ports := flat_map (fun e => flat_map expanded (elems (ForwardPorts (mdBase e)))) entries in
  match (foldl addPort (∅, []) ports).2 with [] => None | l => Some l end.

(** ** Mounts and lifecycle hooks *)

Definition addMount (st : gset string * list Mount) (m : Mount) : gset string * list Mount :=
  let '(targetMap, ret) := st in
  if bool_decide (Target m ∈ targetMap) then st else ({[Target m]} ∪ targetMap, ret ++ [m]).
Definition mergeMounts (entries : list ImageMetadata) : slice Mount :=
  let mounts := flat_map (fun e => elems (Mounts (mdNonCompose e))) (ReverseSlice entries) in
  match ReverseSlice (foldl addMount (∅, []) mounts).2 with [] => None | l => Some l end.

Definition mergeLifestyleHooks (entries : list ImageMetadata) (m : ImageMetadata -> LifecycleHook)
    : slice LifecycleHook :=
  match entries with
  | [] => None
  | first :: others =>
      match filter (fun h => h <> ∅) (map m (reverse others)) ++ filter (fun h => h <> ∅) [m first] with
      | [] => None
      | l => Some l
      end
  end.

Definition collectCustomizations (entries : list ImageMetadata) : gmap string (list json) :=
  foldl (fun acc e =>
    map_fold (fun k v acc' => <[k := default [] (acc' !! k) ++ [v]]> acc') acc (Customizations (mdActions e)))
    ∅ entries.

(** ** The whole *)

Definition ensureImageMetadataEntries (config : DevContainerConfig) (entries : list ImageMetadata)
    : list ImageMetadata :=
  match entries with
  | [] => [mkMetadata "" "" (cBase config) (cActions config) (cNonCompose config)]
  | _ => entries
  end.

Definition newMergedDevContainerConfig (copied : DevContainerConfig) (customizations : gmap string (list json))
    : MergedDevContainerConfig :=
  mkMerged (cBase copied) (mkUpdated None None None None None None customizations) (cNonCompose copied)
    (cImage copied) (cCompose copied) (cDockerfile copied) (mkRunning "") (Origin copied).

(** Records with some of their fields replaced. *)
Definition onUpdated (f : UpdatedConfigProperties -> UpdatedConfigProperties) (m : MergedDevContainerConfig) :=
  mkMerged (mgBase m) (f (mgUpdated m)) (mgNonCompose m) (mgImage m) (mgCompose m) (mgDockerfile m)
    (mgRunning m) (mgOrigin m).
Definition onNonCompose (f : NonComposeBase -> NonComposeBase) (m : MergedDevContainerConfig) :=
  mkMerged (mgBase m) (mgUpdated m) (f (mgNonCompose m)) (mgImage m) (mgCompose m) (mgDockerfile m)
    (mgRunning m) (mgOrigin m).
Definition onBase (f : DevContainerConfigBase -> DevContainerConfigBase) (m : MergedDevContainerConfig) :=
  mkMerged (f (mgBase m)) (mgUpdated m) (mgNonCompose m) (mgImage m) (mgCompose m) (mgDockerfile m)
    (mgRunning m) (mgOrigin m).

Definition mergeRuntimeFields (reversed : list ImageMetadata) (m : MergedDevContainerConfig) :=
  onUpdated (fun u =>
    mkUpdated (collectOrNil reversed Entrypoint) (OnCreateCommands u) (UpdateContentCommands u)
      (PostCreateCommands u) (PostStartCommands u) (PostAttachCommands u) (CustomizationLists u))
  (onNonCompose (fun n =>
    mkNonCompose (AppPort n) (ContainerEnv n) (ContainerUser n) (Mounts n)
      (some reversed (fun e => Init (mdNonCompose e)))
      (some reversed (fun e => Privileged (mdNonCompose e)))
      (unique (unionOrNil reversed (fun e => CapAdd (mdNonCompose e))))
      (unique (unionOrNil reversed (fun e => SecurityOpt (mdNonCompose e))))
      (RunArgs n) (WorkspaceMount n)) m).

Definition setMounts (mounts : slice Mount) (m : MergedDevContainerConfig) :=
  onNonCompose (fun n =>
    mkNonCompose (AppPort n) (ContainerEnv n) (ContainerUser n) mounts (Init n) (Privileged n) (CapAdd n)
      (SecurityOpt n) (RunArgs n) (WorkspaceMount n)) m.

Definition mergeLifecycleHookFields (reversed : list ImageMetadata) (m : MergedDevContainerConfig) :=
  onUpdated (fun u =>
    mkUpdated (Entrypoints u)
      (mergeLifestyleHooks reversed (fun e => OnCreateCommand (mdActions e)))
      (mergeLifestyleHooks reversed (fun e => UpdateContentCommand (mdActions e)))
      (mergeLifestyleHooks reversed (fun e => PostCreateCommand (mdActions e)))
      (mergeLifestyleHooks reversed (fun e => PostStartCommand (mdActions e)))
      (mergeLifestyleHooks reversed (fun e => PostAttachCommand (mdActions e)))
      (CustomizationLists u)) m.

Definition mergeUserAndEnvFields (reversed : list ImageMetadata) (copied : DevContainerConfig)
    (m : MergedDevContainerConfig) :=
  onNonCompose (fun n =>
    mkNonCompose (AppPort n) (mergeMaps reversed (fun e => ContainerEnv (mdNonCompose e)))
      (firstString reversed (fun e => ContainerUser (mdNonCompose e)))
      (Mounts n) (Init n) (Privileged n) (CapAdd n) (SecurityOpt n) (RunArgs n) (WorkspaceMount n))
  (onBase (fun b =>
    mkBase (Extends b) (Name b) (Features b) (OverrideFeatureInstallOrder b) (ForwardPorts b)
      (PortsAttributes b) (OtherPortsAttributes b) (UpdateRemoteUserUID b)
      (RemoteEnv (cBase copied) ∪ mergeMaps reversed (fun e => RemoteEnv (mdBase e)))
      (firstString reversed (fun e => RemoteUser (mdBase e)))
      (InitializeCommand b) (ShutdownAction b)
      (firstString reversed (fun e => WaitFor (mdBase e)))
      (firstString reversed (fun e => UserEnvProbe (mdBase e)))
      (HostReqs b) (OverrideCommand b) (WorkspaceFolder b) (Settings b) (Extensions b) (DevPort b) (Secrets b)) m).

Definition defaultShutdownAction (copied : DevContainerConfig) : string :=
  if bool_decide (ShutdownAction (cBase copied) <> "") then ShutdownAction (cBase copied)
  else if bool_decide (elems (DockerComposeFile (cCompose copied)) <> []) then "stopCompose"
  else "stopContainer".
Definition mergePortsAndShutdownFields (reversed : list ImageMetadata) (copied : DevContainerConfig)
    (m : MergedDevContainerConfig) :=
  let action := firstString reversed (fun e => ShutdownAction (mdBase e)) in
  onBase (fun b =>
    mkBase (Extends b) (Name b) (Features b) (OverrideFeatureInstallOrder b) (mergeForwardPorts reversed)
      (mergeMaps reversed (fun e => PortsAttributes (mdBase e)))
      (mergeOtherPortsAttributes reversed)
      (some reversed (fun e => UpdateRemoteUserUID (mdBase e)))
      (RemoteEnv b) (RemoteUser b) (InitializeCommand b)
      (if bool_decide (action = "") then defaultShutdownAction copied else action)
      (WaitFor b) (UserEnvProbe b) (mergeHostRequirements reversed)
      (some reversed (fun e => OverrideCommand (mdBase e)))
      (WorkspaceFolder b) (Settings b) (Extensions b) (DevPort b) (Secrets b)) m.

Definition MergeConfiguration (config : DevContainerConfig) (entries0 : list ImageMetadata)
    : MergedDevContainerConfig :=
  let entries := ensureImageMetadataEntries config entries0 in
  let copied := CloneDevContainerConfig config in
  let reversed := ReverseSlice entries in
  mergePortsAndShutdownFields reversed copied
    (mergeUserAndEnvFields reversed copied
       (mergeLifecycleHookFields reversed
          (setMounts (mergeMounts reversed)
             (mergeRuntimeFields reversed
                (newMergedDevContainerConfig copied (collectCustomizations entries)))))).

(** [AddConfigToImageMetadata] *)
Definition AddConfigToImageMetadata (config : DevContainerConfig) (entries : list ImageMetadata)
    : list ImageMetadata :=
  mkMetadata "" "" (cBase config) (cActions config) (cNonCompose config) :: entries.

(** [MergeExtraRemoteEnvConfig] *)
Definition MergeExtraRemoteEnvConfig (m : MergedDevContainerConfig) (extra : option DevContainerConfig)
    : MergedDevContainerConfig :=
  match extra with
  | None => m
  | Some c =>
      onBase (fun b =>
        mkBase (Extends b) (Name b) (Features b) (OverrideFeatureInstallOrder b) (ForwardPorts b)
          (PortsAttributes b) (OtherPortsAttributes b) (UpdateRemoteUserUID b)
          (RemoteEnv (cBase c) ∪ RemoteEnv b)
          (RemoteUser b) (InitializeCommand b) (ShutdownAction b) (WaitFor b) (UserEnvProbe b) (HostReqs b)
          (OverrideCommand b) (WorkspaceFolder b) (Settings b) (Extensions b) (DevPort b) (Secrets b)) m
  end.

Definition DevContainerConfigToImageMetadata (c : DevContainerConfig) : ImageMetadata :=
  let b := cBase c in
  let n := cNonCompose c in
  mkMetadata "" ""
    (mkBase None "" ∅ None (ForwardPorts b) (PortsAttributes b) (OtherPortsAttributes b) (UpdateRemoteUserUID b)
       (RemoteEnv b) (RemoteUser b) ∅ (ShutdownAction b) (WaitFor b) (UserEnvProbe b) (HostReqs b)
       (OverrideCommand b) "" ∅ None 0 ∅)
    (cActions c)
    (mkNonCompose None (ContainerEnv n) (ContainerUser n) (Mounts n) (Init n) (Privileged n) (CapAdd n)
       (SecurityOpt n) None None).
