(* ===== verification/DevMerging.v ===== *)
(** What merging promises: the configuration that comes out is what its layers
    say, each kind of property by its own rule. *)
From S2P Require Import Prelude GoStd GoText GoConv GoPath Json DevTypes DevMerge.

(** ** Reference rules *)

(** The last layer that says something, and the first. *)
Definition lastSet {A B} (m : A -> option B) (layers : list A) : option B := last (omap m layers).
Definition firstSet {A B} (m : A -> option B) (layers : list A) : option B := head (omap m layers).
Definition nonEmpty (s : string) : option string := if decide (s = "") then None else Some s.

Lemma some_app {A} (l1 l2 : list A) m :
  some (l1 ++ l2) m = match some l1 m with Some b => Some b | None => some l2 m end.
Proof. induction l1 as [|e l1 IH]; [done|]. cbn. by destruct (m e). Qed.
Lemma some_reverse {A} (l : list A) m : some (ReverseSlice l) m = lastSet m l.
Proof.
  unfold ReverseSlice, lastSet. induction l as [|e l IH] using rev_ind; [done|].
  rewrite reverse_snoc, omap_app. cbn. destruct (m e); [by rewrite last_snoc|]. by rewrite app_nil_r.
Qed.
Lemma firstString_reverse {A} (l : list A) m :
  firstString (ReverseSlice l) m = default "" (lastSet (fun e => nonEmpty (m e)) l).
Proof.
  unfold ReverseSlice, lastSet, nonEmpty. induction l as [|e l IH] using rev_ind; [done|].
  rewrite reverse_snoc, omap_app. cbn. destruct (decide (m e = "")) as [He|He].
  - rewrite bool_decide_false by auto. by rewrite app_nil_r.
  - rewrite bool_decide_true by done. by rewrite last_snoc.
Qed.
Lemma mergeOtherPortsAttributes_reverse l :
  mergeOtherPortsAttributes (ReverseSlice l) = lastSet (fun e => OtherPortsAttributes (mdBase e)) l.
Proof.
  unfold ReverseSlice, lastSet. induction l as [|e l IH] using rev_ind; [done|].
  rewrite reverse_snoc, omap_app. cbn. case_match; [by rewrite last_snoc|]. by rewrite app_nil_r.
Qed.

Lemma mergeMaps_snoc {A B} (l : list A) e (m : A -> gmap string B) :
  mergeMaps (l ++ [e]) m = m e ∪ mergeMaps l m.
Proof. unfold mergeMaps. by rewrite foldl_app. Qed.
Lemma mergeMaps_reverse {A B} (l : list A) (m : A -> gmap string B) k :
  mergeMaps (ReverseSlice l) m !! k = firstSet (fun e => m e !! k) l.
Proof.
  unfold ReverseSlice, firstSet. induction l as [|e l IH]; [done|].
  rewrite reverse_cons, mergeMaps_snoc, lookup_union, IH. cbn. by destruct (m e !! k), (head _).
Qed.

(** ** Lists *)

Lemma elems_unionOrNil {A B} (l : list A) (m : A -> slice B) : elems (unionOrNil l m) = flat_map (fun e => elems (m e)) l.
Proof.
  induction l as [|e l IH]; [done|]. cbn [unionOrNil flat_map]. rewrite <- IH.
  by destruct (elems (m e) ++ elems (unionOrNil l m)).
Qed.
Lemma uniqueFrom_spec (s : list string) : forall seen,
  NoDup (uniqueFrom seen s) /\ (forall x, x ∈ uniqueFrom seen s <-> x ∈ s /\ x ∉ seen).
Proof.
  induction s as [|x s IH]; intros seen; cbn [uniqueFrom]; [split; [constructor|set_solver]|].
  case_bool_decide as Hx; [destruct (IH seen) as [Hn Hi]|destruct (IH ({[x]} ∪ seen)) as [Hn Hi]].
  - split; [done|]. intros y. rewrite Hi, elem_of_cons. naive_solver.
  - split; [constructor; [rewrite Hi; set_solver|done]|]. intros y. rewrite !elem_of_cons, Hi.
    destruct (decide (y = x)) as [->|]; set_solver.
Qed.
Lemma unique_union_spec (l : list ImageMetadata) (m : ImageMetadata -> slice string) :
  let r := elems (unique (unionOrNil (ReverseSlice l) m)) in
  NoDup r /\ (forall x, x ∈ r <-> exists e, e ∈ l /\ x ∈ elems (m e)).
Proof.
  intros r. destruct (uniqueFrom_spec (elems (unionOrNil (ReverseSlice l) m)) ∅) as [Hn Hi].
  assert (Hr : r = uniqueFrom ∅ (elems (unionOrNil (ReverseSlice l) m)))
    by (subst r; unfold unique; by destruct (uniqueFrom _ _)).
  rewrite Hr. split; [done|]. intros x. rewrite Hi, elems_unionOrNil, list_elem_of_In, in_flat_map.
  split.
  - intros [(e & He & Hx) _]. exists e. by rewrite <- !list_elem_of_In, elem_of_reverse in *.
  - intros (e & He & Hx). split; [|set_solver]. exists e. by rewrite <- !list_elem_of_In, elem_of_reverse.
Qed.

Lemma mergeLifestyleHooks_reverse l m :
  elems (mergeLifestyleHooks (ReverseSlice l) m) = filter (fun h => h <> ∅) (map m l).
Proof.
  unfold ReverseSlice. destruct l as [|e l _] using rev_ind; [done|]. rewrite reverse_snoc. cbn [mergeLifestyleHooks].
  rewrite reverse_involutive, map_app, filter_app. cbn [map].
  by destruct (filter _ (map m l) ++ filter _ [m e]).
Qed.

(** ** Ports and mounts *)

Section Distinct.
Context {A : Type} (name : A -> string).
(** Keep the first of each name. *)
Definition keepStep (st : gset string * list A) (a : A) : gset string * list A :=
  if bool_decide (name a ∈ st.1) then st else ({[name a]} ∪ st.1, st.2 ++ [a]).
Lemma keepStep_spec (l : list A) :
  let r := foldl keepStep (∅, []) l in
  r.1 = list_to_set (map name l) /\
  NoDup (map name r.2) /\
  (forall a, a ∈ r.2 <-> exists i, l !! i = Some a /\ forall j b, (j < i)%nat -> l !! j = Some b -> name b <> name a).
Proof.
  induction l as [|a l (H1 & H2 & H3)] using rev_ind; intros r; subst r.
  { cbn. split_and!; [done|constructor|]. intros a. split; [set_solver|]. intros (i & Hi & _). by rewrite lookup_nil in Hi. }
  rewrite foldl_app, map_app, list_to_set_app_L. cbn [foldl map list_to_set]. set (r := foldl keepStep (∅, []) l) in *.
  assert (Hsnoc : forall x, (exists i, (l ++ [a]) !! i = Some x /\
      forall j b, (j < i)%nat -> (l ++ [a]) !! j = Some b -> name b <> name x) <->
    x ∈ r.2 \/ (x = a /\ name a ∉ r.1)).
  { intros x. rewrite H3, H1, elem_of_list_to_set. split.
    - intros (i & Hi & Hfirst). apply lookup_app_Some in Hi as [Hi|[Hlen Hi]].
      + left. exists i. split; [done|]. intros j b Hj Hb. apply (Hfirst j b Hj). by apply lookup_app_l_Some.
      + apply list_lookup_singleton_Some in Hi as [Hi0 ->]. right. split; [done|]. intros Hin.
        apply list_elem_of_fmap in Hin as (b & Hb & [j Hj]%list_elem_of_lookup).
        pose proof (lookup_lt_Some _ _ _ Hj). apply (Hfirst j b); [lia|by apply lookup_app_l_Some|done].
    - intros [(i & Hi & Hfirst)|[-> Hnot]].
      + exists i. pose proof (lookup_lt_Some _ _ _ Hi). split; [by apply lookup_app_l_Some|]. intros j b Hj Hb.
        apply (Hfirst j b Hj). by rewrite lookup_app_l in Hb by lia.
      + exists (length l). split; [by rewrite lookup_app_r, Nat.sub_diag by lia|]. intros j b Hj Hb Heq.
        rewrite lookup_app_l in Hb by lia. apply Hnot. rewrite <- Heq. apply list_elem_of_fmap. exists b.
        split; [done|]. by eapply list_elem_of_lookup_2. }
  unfold keepStep. case_bool_decide as Hin; cbn [fst snd].
  - split_and!; [|done|].
    + rewrite <- H1. set_solver.
    + intros x. rewrite Hsnoc. naive_solver.
  - split_and!.
    + rewrite <- H1. set_solver.
    + rewrite map_app. apply NoDup_app. split; [done|]. split; [|apply NoDup_singleton].
      intros n Hn Hn'. apply list_elem_of_singleton in Hn' as ->. apply Hin. rewrite H1. apply elem_of_list_to_set.
      apply list_elem_of_fmap in Hn as (b & Hb & Hbr). rewrite Hb. apply H3 in Hbr as (i & Hi & _).
      apply list_elem_of_fmap. exists b. split; [done|]. by eapply list_elem_of_lookup_2.
    + intros x. rewrite Hsnoc, elem_of_app, list_elem_of_singleton. naive_solver.
Qed.
End Distinct.

Lemma foldl_addPort l st : foldl addPort st l = foldl (keepStep portString) st l.
Proof. revert st. induction l as [|p l IH]; intros [seen ps]; [done|]. cbn. by rewrite IH. Qed.
Lemma foldl_addMount l st : foldl addMount st l = foldl (keepStep Target) st l.
Proof. revert st. induction l as [|p l IH]; intros [seen ps]; [done|]. cbn. by rewrite IH. Qed.

(** The ports of the layers, the last layer first. *)
Definition portsOf (layers : list ImageMetadata) : list string :=
  flat_map (fun e => flat_map expanded (elems (ForwardPorts (mdBase e)))) (reverse layers).
(** The mounts of the layers, the first layer first. *)
Definition mountsOf (layers : list ImageMetadata) : list Mount :=
  flat_map (fun e => elems (Mounts (mdNonCompose e))) layers.

(** [r] has one of each name of [l], the first one. *)
Definition firstOfEach {A} (name : A -> string) (l r : list A) : Prop :=
  NoDup (map name r) /\
  (forall a, a ∈ r <-> exists i, l !! i = Some a /\ forall j b, (j < i)%nat -> l !! j = Some b -> name b <> name a).

Lemma mergeForwardPorts_spec layers :
  firstOfEach portString (portsOf layers) (elems (mergeForwardPorts (ReverseSlice layers))).
Proof.
  destruct (keepStep_spec portString (portsOf layers)) as (_ & Hr). rewrite <- foldl_addPort in Hr.
  unfold mergeForwardPorts, ReverseSlice, portsOf in *. cbv zeta.
  by destruct (foldl addPort _ _).2.
Qed.
Lemma mergeMounts_spec layers :
  firstOfEach Target (mountsOf layers) (elems (mergeMounts (ReverseSlice layers))).
Proof.
  destruct (keepStep_spec Target (mountsOf layers)) as (_ & Hn & Hi). rewrite <- foldl_addMount in Hn, Hi.
  unfold mergeMounts, ReverseSlice, mountsOf in *. rewrite reverse_involutive.
  set (r := (foldl addMount _ _).2) in *.
  assert (He : elems (match reverse r with [] => None | l => Some l end) = reverse r) by (by destruct (reverse r)).
  rewrite He. split.
  - change (map Target (reverse r)) with (Target <$> reverse r). by rewrite fmap_reverse, reverse_Permutation.
  - intros a. by rewrite elem_of_reverse.
Qed.

(** ** Host requirements *)

Lemma parseByteSize_nonneg s : 0 <= parseByteSize s.
Proof.
  assert (Hu : forall x, 0 <= uint64OfFloat x).
  { intros x. unfold uint64OfFloat. destruct (_ && _) eqn:H; [|done].
    apply andb_true_iff in H as [H _]. lia. }
  unfold parseByteSize. case_bool_decide; [done|]. repeat case_match; auto; done.
Qed.
Lemma maxByteString_spec a b : parseByteSize (maxByteString a b) = Z.max (parseByteSize a) (parseByteSize b).
Proof.
  unfold maxByteString. destruct (Z.ltb_spec (parseByteSize a) (parseByteSize b)); [lia|].
  case_bool_decide as Ha; [|lia]. subst a. change (parseByteSize "") with 0 in *. pose proof (parseByteSize_nonneg b). lia.
Qed.
Lemma mergeGPU_spec a b : gpuPriority (mergeGPU a b) = Z.max (gpuPriority a) (gpuPriority b).
Proof. unfold mergeGPU. destruct (Z.ltb_spec (gpuPriority a) (gpuPriority b)); lia. Qed.

(** The amounts a requirement asks for: processors, memory, storage, and how
    much a GPU is wanted. *)
Definition amounts (h : option HostRequirements) : Z * Z * Z * Z :=
  match h with
  | None => (0, 0, 0, 0)
  | Some h => (CPUs h, parseByteSize (Memory h), parseByteSize (Storage h), gpuPriority (GPU h))
  end.
Definition maxAmounts (a b : Z * Z * Z * Z) : Z * Z * Z * Z :=
  let '(c1, m1, s1, g1) := a in let '(c2, m2, s2, g2) := b in
  (Z.max c1 c2, Z.max m1 m2, Z.max s1 s2, Z.max g1 g2).

Lemma amounts_nonneg h : let '(_, m, s, g) := amounts h in 0 <= m /\ 0 <= s /\ 0 <= g.
Proof.
  destruct h as [h|]; [|done]. cbn. split_and!; [apply parseByteSize_nonneg..|].
  unfold gpuPriority. destruct (GPU h); [|done]. by repeat case_bool_decide.
Qed.
Definition noAmounts : Z * Z * Z * Z := (0, 0, 0, 0).
(** What the layers ask for together. *)
Definition demanded (layers : list ImageMetadata) : Z * Z * Z * Z :=
  foldr (fun e acc => maxAmounts acc (amounts (HostReqs (mdBase e)))) noAmounts layers.

Lemma mergeHostRequirement_spec merged h :
  (let '(c, _, _, _) := amounts merged in 0 <= c) ->
  amounts (mergeHostRequirement merged h) = maxAmounts (amounts merged) (amounts h) /\
  (let '(c, _, _, _) := amounts (mergeHostRequirement merged h) in 0 <= c).
Proof.
  intros Hc. destruct h as [h|].
  - set (m := default (mkHostRequirements 0 "" "" None) merged).
    assert (Ha : amounts merged = (CPUs m, parseByteSize (Memory m), parseByteSize (Storage m), gpuPriority (GPU m)))
      by (by destruct merged).
    rewrite Ha in Hc |- *. unfold mergeHostRequirement. fold m. cbn.
    rewrite !maxByteString_spec, mergeGPU_spec.
    assert (Hcpu : (if CPUs m <? CPUs h then CPUs h else CPUs m) = Z.max (CPUs m) (CPUs h))
      by (destruct (Z.ltb_spec (CPUs m) (CPUs h)); lia).
    rewrite Hcpu. split; [done|lia].
  - cbn. split; [|done]. pose proof (amounts_nonneg merged) as Hn.
    destruct (amounts merged) as [[[c m] s] g]. cbn. destruct Hn as (? & ? & ?). by rewrite !Z.max_l by lia.
Qed.
Lemma mergeHostRequirements_spec layers :
  amounts (mergeHostRequirements (ReverseSlice layers)) = demanded layers /\
  (let '(c, _, _, _) := amounts (mergeHostRequirements (ReverseSlice layers)) in 0 <= c).
Proof.
  unfold mergeHostRequirements, ReverseSlice. induction layers as [|e l [IH Hc]]; [done|].
  rewrite reverse_cons, foldl_app. cbn [foldl demanded foldr].
  destruct (mergeHostRequirement_spec _ (HostReqs (mdBase e)) Hc) as [Hm Hc']. split; [|exact Hc'].
  rewrite Hm. by f_equal.
Qed.

(** ** Customizations *)

Lemma collectCustomizations_step (c : gmap string json) (acc : gmap string (list json)) k :
  map_fold (fun k v acc' => <[k := default [] (acc' !! k) ++ [v]]> acc') acc c !! k =
  match c !! k with Some v => Some (default [] (acc !! k) ++ [v]) | None => acc !! k end.
Proof.
  revert k. refine (map_fold_weak_ind (fun r c => forall k, r !! k = _) _ _ _ _ c); clear c.
  - intros k. by rewrite lookup_empty.
  - intros k v c r Hk IH k'. destruct (decide (k' = k)) as [->|Hne].
    + rewrite !lookup_insert_eq, IH, Hk. done.
    + by rewrite !lookup_insert_ne, IH by done.
Qed.
Lemma collectCustomizations_spec layers k :
  default [] (collectCustomizations layers !! k) = omap (fun e => Customizations (mdActions e) !! k) layers.
Proof.
  unfold collectCustomizations. induction layers as [|e l IH] using rev_ind; [cbn [foldl]; by rewrite lookup_empty|].
  rewrite foldl_app, omap_app. cbn [foldl]. rewrite collectCustomizations_step, IH. cbn.
  destruct (Customizations (mdActions e) !! k); [done|]. by rewrite IH, app_nil_r.
Qed.

(** ** The contract *)

(** The layers of a configuration: the metadata, or the configuration alone. *)
Definition layersOf (config : DevContainerConfig) (entries : list ImageMetadata) : list ImageMetadata :=
  ensureImageMetadataEntries config entries.

Lemma collectOrNil_spec {A} (l : list A) (f : A -> string) : elems (collectOrNil l f) = omap (fun e => nonEmpty (f e)) l.
Proof.
  induction l as [|x l IH]; [done|]. cbn. unfold nonEmpty at 1. case_bool_decide as Hx; case_decide; try done. cbn. by rewrite IH.
Qed.
(** The properties no image can set. *)
Definition ownProperties (b : DevContainerConfigBase) (n : NonComposeBase) :=
  (Extends b, Name b, Features b, OverrideFeatureInstallOrder b, InitializeCommand b, WorkspaceFolder b,
   (Settings b, Extensions b, DevPort b, Secrets b), (AppPort n, RunArgs n, WorkspaceMount n)).
Section Layered.
Variable config : DevContainerConfig.
Let copy : DevContainerConfig := CloneDevContainerConfig config.
Record layered (layers : list ImageMetadata) (m : MergedDevContainerConfig) : Prop := {
  (** the last layer decides *)
  la_init : Init (mgNonCompose m) = lastSet (fun e => Init (mdNonCompose e)) layers;
  la_privileged : Privileged (mgNonCompose m) = lastSet (fun e => Privileged (mdNonCompose e)) layers;
  la_override : OverrideCommand (mgBase m) = lastSet (fun e => OverrideCommand (mdBase e)) layers;
  la_uid : UpdateRemoteUserUID (mgBase m) = lastSet (fun e => UpdateRemoteUserUID (mdBase e)) layers;
  la_ports : OtherPortsAttributes (mgBase m) = lastSet (fun e => OtherPortsAttributes (mdBase e)) layers;
  la_user : RemoteUser (mgBase m) = default "" (lastSet (fun e => nonEmpty (RemoteUser (mdBase e))) layers);
  la_containerUser :
    ContainerUser (mgNonCompose m) = default "" (lastSet (fun e => nonEmpty (ContainerUser (mdNonCompose e))) layers);
  la_waitFor : WaitFor (mgBase m) = default "" (lastSet (fun e => nonEmpty (WaitFor (mdBase e))) layers);
  la_probe : UserEnvProbe (mgBase m) = default "" (lastSet (fun e => nonEmpty (UserEnvProbe (mdBase e))) layers);
  la_shutdown : ShutdownAction (mgBase m) =
    default (defaultShutdownAction (CloneDevContainerConfig config))
      (lastSet (fun e => nonEmpty (ShutdownAction (mdBase e))) layers);
  (** the first layer decides, except for the configuration's own environment *)
  la_containerEnv k : ContainerEnv (mgNonCompose m) !! k = firstSet (fun e => ContainerEnv (mdNonCompose e) !! k) layers;
  la_remoteEnv k : RemoteEnv (mgBase m) !! k =
    match RemoteEnv (cBase config) !! k with
    | Some v => Some v
    | None => firstSet (fun e => RemoteEnv (mdBase e) !! k) layers
    end;
  la_portAttributes k :
    PortsAttributes (mgBase m) !! k = firstSet (fun e => PortsAttributes (mdBase e) !! k) layers;
  la_mounts : firstOfEach Target (mountsOf layers) (elems (Mounts (mgNonCompose m)));
  (** everything is kept, once *)
  la_forwarded : firstOfEach portString (portsOf layers) (elems (ForwardPorts (mgBase m)));
  la_capAdd : NoDup (elems (CapAdd (mgNonCompose m))) /\
    (forall x, x ∈ elems (CapAdd (mgNonCompose m)) <-> exists e, e ∈ layers /\ x ∈ elems (CapAdd (mdNonCompose e)));
  la_securityOpt : NoDup (elems (SecurityOpt (mgNonCompose m))) /\
    (forall x, x ∈ elems (SecurityOpt (mgNonCompose m)) <-> exists e, e ∈ layers /\ x ∈ elems (SecurityOpt (mdNonCompose e)));
  (** everything is kept, in the order of the layers *)
  la_onCreate : elems (OnCreateCommands (mgUpdated m)) =
    filter (fun h => h <> ∅) (map (fun e => OnCreateCommand (mdActions e)) layers);
  la_updateContent : elems (UpdateContentCommands (mgUpdated m)) =
    filter (fun h => h <> ∅) (map (fun e => UpdateContentCommand (mdActions e)) layers);
  la_postCreate : elems (PostCreateCommands (mgUpdated m)) =
    filter (fun h => h <> ∅) (map (fun e => PostCreateCommand (mdActions e)) layers);
  la_postStart : elems (PostStartCommands (mgUpdated m)) =
    filter (fun h => h <> ∅) (map (fun e => PostStartCommand (mdActions e)) layers);
  la_postAttach : elems (PostAttachCommands (mgUpdated m)) =
    filter (fun h => h <> ∅) (map (fun e => PostAttachCommand (mdActions e)) layers);
  la_customizations k : default [] (CustomizationLists (mgUpdated m) !! k) =
    omap (fun e => Customizations (mdActions e) !! k) layers;
  (** the entrypoints, those of the last layer first *)
  la_entrypoints : elems (Entrypoints (mgUpdated m)) = omap (fun e => nonEmpty (Entrypoint e)) (reverse layers);
  (** the strongest requirement decides *)
  la_host : amounts (HostReqs (mgBase m)) = demanded layers;
  (** the rest is the configuration's own *)
  la_own : ownProperties (mgBase m) (mgNonCompose m) = ownProperties (cBase copy) (cNonCompose copy);
  la_container : (mgImage m, mgCompose m, mgDockerfile m) = (cImage copy, cCompose copy, cDockerfile copy);
  la_origin : mgOrigin m = Origin config;
  la_running : mgRunning m = mkRunning "";
}.
End Layered.

(** C23: every property of the merged configuration is pinned by the layers, the
    configuration being a layer only when there is no other: single values are
    those of the last layer that sets them; variables, port attributes and mounts
    those of the first layer that has them, after the configuration's own remote
    environment; capabilities, security options and ports are collected, each once;
    lifecycle commands and customizations are kept in the order of the layers and
    the entrypoints in the opposite order; the host has to meet the strongest of
    each requirement; and what no layer can set is the configuration's own, as a
    copy through JSON keeps it. *)
Theorem MergeConfiguration_layered (config : DevContainerConfig) (entries : list ImageMetadata) :
  layered config (layersOf config entries) (MergeConfiguration config entries).
Proof.
  unfold layersOf, MergeConfiguration. set (layers := ensureImageMetadataEntries config entries).
  split; cbn -[ReverseSlice]; intros;
    first [ apply some_reverse | apply firstString_reverse | apply mergeOtherPortsAttributes_reverse
          | apply mergeMaps_reverse | apply mergeMounts_spec | apply mergeForwardPorts_spec
          | apply unique_union_spec | apply mergeLifestyleHooks_reverse | apply collectCustomizations_spec
          | apply mergeHostRequirements_spec | apply collectOrNil_spec | idtac ].
  - rewrite firstString_reverse. unfold lastSet. destruct (last _) as [a|] eqn:Ha; cbn.
    + assert (a <> ""); [|by rewrite bool_decide_false]. apply last_Some_elem_of, list_elem_of_omap in Ha as (e & _ & He).
      unfold nonEmpty in He. by case_decide; [|injection He as <-].
    + by rewrite bool_decide_true.
  - rewrite lookup_union, mergeMaps_reverse. by destruct (RemoteEnv (cBase config) !! k), (firstSet _ _).
  - done.
  - done.
  - done.
  - done.
Qed.
