(* ===== verification/DevExtends.v ===== *)
(** Inheritance between configurations (src/pkg/devcontainer/config/extends.go,
    extends_oci.go, parse.go, legacy.go): [extends] names files and OCI artifacts,
    which are read, resolved in turn and merged, the later over the earlier. *)
From S2P Require Import Prelude GoStd GoText GoConv GoPath GoState Json DevTypes DevSubst.

Record VSCodeCustomizations := mkVSCode {
  VSettings : gmap string json;
  VExtensions : list string;
  VDevPort : Z;
}.

(** The files, registries, environment and working directory a resolution sees,
    and the decoders of JSON with comments and of JSON into the configuration's
    types.  Nothing of it changes while a configuration is resolved. *)
Class ConfigWorld := {
  ReadFile : string -> goerr + string;
  pullOCIExtendsJSON : string -> goerr + string;
  Standardize : string -> goerr + string;
  decodeConfig : string -> goerr + DevContainerConfig;
  decodeFields : string -> goerr + list (string * json);
  LookupEnv : string -> option string;
  Getwd : goerr + string;
  decodeVSCode : json -> goerr + VSCodeCustomizations;
  encodeVSCode : VSCodeCustomizations -> json;
}.

(** ** Merging a child over its parent *)

Definition orElse (child parent : string) : string := if decide (child = "") then parent else child.
Definition orSet {A} (child parent : option A) : option A := match child with Some _ => child | None => parent end.
Definition orHook (child parent : LifecycleHook) : LifecycleHook := if decide (child = ∅) then parent else child.
(** [deepMergeMap] *)
Definition deepMergeMap {A} (parent child : gmap string A) : gmap string A := child ∪ parent.

Definition mergeBuild (parent child : option ConfigBuildOptions) : option ConfigBuildOptions :=
  match child, parent with
  | None, _ => parent
  | Some c, None => Some c
  | Some c, Some p =>
      Some (mkBuildOptions (BuildDockerfile c) (BuildContext c) (BuildTarget c)
              (deepMergeMap (BuildArgs p) (BuildArgs c)) (CacheFrom c) (BuildOptions c))
  end.

Definition mergeExtendsBase (p c : DevContainerConfigBase) : DevContainerConfigBase :=
  mkBase None (orElse (Name c) (Name p)) (deepMergeMap (Features p) (Features c))
    (orSet (OverrideFeatureInstallOrder c) (OverrideFeatureInstallOrder p))
    (orSet (ForwardPorts c) (ForwardPorts p))
    (deepMergeMap (PortsAttributes p) (PortsAttributes c))
    (orSet (OtherPortsAttributes c) (OtherPortsAttributes p))
    (orSet (UpdateRemoteUserUID c) (UpdateRemoteUserUID p))
    (deepMergeMap (RemoteEnv p) (RemoteEnv c))
    (orElse (RemoteUser c) (RemoteUser p))
    (orHook (InitializeCommand c) (InitializeCommand p))
    (orElse (ShutdownAction c) (ShutdownAction p))
    (orElse (WaitFor c) (WaitFor p))
    (orElse (UserEnvProbe c) (UserEnvProbe p))
    (orSet (HostReqs c) (HostReqs p))
    (orSet (OverrideCommand c) (OverrideCommand p))
    (orElse (WorkspaceFolder c) (WorkspaceFolder p))
    (Settings p) (Extensions p) (DevPort p)
    (deepMergeMap (Secrets p) (Secrets c)).
Definition mergeExtendsActions (p c : DevContainerActions) : DevContainerActions :=
  mkActions (orHook (OnCreateCommand c) (OnCreateCommand p))
    (orHook (UpdateContentCommand c) (UpdateContentCommand p))
    (orHook (PostCreateCommand c) (PostCreateCommand p))
    (orHook (PostStartCommand c) (PostStartCommand p))
    (orHook (PostAttachCommand c) (PostAttachCommand p))
    (deepMergeMap (Customizations p) (Customizations c)).
Definition mergeExtendsNonCompose (p c : NonComposeBase) : NonComposeBase :=
  mkNonCompose (orSet (AppPort c) (AppPort p)) (deepMergeMap (ContainerEnv p) (ContainerEnv c))
    (orElse (ContainerUser c) (ContainerUser p)) (orSet (Mounts c) (Mounts p))
    (orSet (Init c) (Init p)) (orSet (Privileged c) (Privileged p)) (orSet (CapAdd c) (CapAdd p))
    (orSet (SecurityOpt c) (SecurityOpt p)) (orSet (RunArgs c) (RunArgs p))
    (orSet (WorkspaceMount c) (WorkspaceMount p)).
Definition mergeExtendsConfigs (parent child : DevContainerConfig) : DevContainerConfig :=
  let result := CloneDevContainerConfig parent in
  mkConfig (mergeExtendsBase (cBase result) (cBase child))
    (mergeExtendsActions (cActions result) (cActions child))
    (mergeExtendsNonCompose (cNonCompose result) (cNonCompose child))
    (mkImage (orElse (Image (cImage child)) (Image (cImage result))))
    (mkCompose (orSet (DockerComposeFile (cCompose child)) (DockerComposeFile (cCompose result)))
       (orElse (Service (cCompose child)) (Service (cCompose result)))
       (orSet (RunServices (cCompose child)) (RunServices (cCompose result))))
    (mkDockerfile (orElse (Dockerfile (cDockerfile child)) (Dockerfile (cDockerfile result)))
       (orElse (Context_ (cDockerfile child)) (Context_ (cDockerfile result)))
       (mergeBuild (Build (cDockerfile result)) (Build (cDockerfile child))))
    (mkRunning (orElse (ContainerID (cRunning child)) (ContainerID (cRunning result))))
    (appendTo (Sources result) (elems (Sources child)))
    (Origin child).

(** ** References *)

Definition isOCIRef (ref : string) : bool :=
  if HasPrefix ref "oci://" then true
  else if HasPrefix ref "." || HasPrefix ref "/" then false
  else if HasSuffix ref ".json" || HasSuffix ref ".jsonc" then false
  else hasChar "/" ref.
Definition stripOCIPrefix (ref : string) : string := TrimPrefix ref "oci://".

(** The state is the files and artifacts seen so far. *)
Abbreviation Resolving A := (Go (gset string) A).

Section Extends.
Context `{ConfigWorld}.

(** [filepath.Abs] *)
Definition Abs (p : string) : goerr + string :=
  if IsAbs p then inr (Clean p) else match Getwd with inl e => inl e | inr wd => inr (JoinPath [wd; p]) end.

Definition withSource (origin : string) (fields : list (string * json)) (c : DevContainerConfig) : DevContainerConfig :=
  mkConfig (cBase c) (cActions c) (cNonCompose c) (cImage c) (cCompose c) (cDockerfile c) (cRunning c)
    (Some [mkSource origin fields]) origin.

(** What is declared: a file, by its absolute path, or an artifact. *)
Inductive declared := OfFile (absPath : string) | OfOCI (bare : string).
Definition nameOf (d : declared) : string := match d with OfFile p => p | OfOCI b => b end.

(** Read and decode one of them, without what it extends. *)
Definition readDeclared (d : declared) : Resolving DevContainerConfig :=
  match d with
  | OfFile absPath =>
      go! bytes := orRefuse "extends: read %q: %w" [absPath] (ReadFile absPath) in
      go! normalized := orRefuse "extends: parse jsonc %q: %w" [absPath] (Standardize bytes) in
      go! c := orRefuse "extends: unmarshal %q: %w" [absPath] (decodeConfig normalized) in
      go! fields := orErr (decodeFields normalized) in
      yield (withSource absPath fields c)
  | OfOCI bare =>
      go! data := orRefuse "extends: fetch OCI %q: %w" [bare] (pullOCIExtendsJSON bare) in
      go! normalized := orRefuse "extends: parse jsonc from OCI %q: %w" [bare] (Standardize data) in
      go! c := orRefuse "extends: unmarshal OCI %q: %w" [bare] (decodeConfig normalized) in
      go! fields := orErr (decodeFields normalized) in
      yield (withSource ("oci://" +:+ bare) fields c)
  end.

(** The directory relative references of a declaration start from. *)
Definition declaringDir (d : declared) : string := match d with OfFile p => Dir p | OfOCI _ => "" end.

(** [resolveExtendsArray]: each reference over the ones before it. *)
Fixpoint resolveExtendsArray (single : string -> Resolving DevContainerConfig) (refs : list string)
    (merged : option DevContainerConfig) : Resolving (option DevContainerConfig) :=
  match refs with
  | [] => yield merged
  | ref :: rest =>
      go! resolved := single ref in
      resolveExtendsArray single rest
        (Some (match merged with None => resolved | Some m => mergeExtendsConfigs m resolved end))
  end.

(** A configuration over the ones it extends. *)
Definition overParents (single : string -> Resolving DevContainerConfig) (c : DevContainerConfig)
    : Resolving DevContainerConfig :=
  match elems (Extends (cBase c)) with
  | [] => yield c
  | refs =>
      go! parent := resolveExtendsArray single refs None in
      yield (match parent with Some p => mergeExtendsConfigs p c | None => c end)
  end.

(** [resolveExtendsSingle], with [parseDevContainerJSONFileWithVisited] and
    [resolveOCIExtends]: the reference is looked up, marked as visited, read and
    resolved. *)
Fixpoint resolveExtendsSingle (fuel : nat) (dir extendsRef : string) : Resolving DevContainerConfig :=
  match fuel with
  | O => exhausted
  | S fuel' => fun visited =>
      let load := fun d =>
        (go! c := readDeclared d in overParents (resolveExtendsSingle fuel' (declaringDir d)) c)
          ({[nameOf d]} ∪ visited) in
      if isOCIRef extendsRef then
        let bare := stripOCIPrefix extendsRef in
        if decide (bare ∈ visited)
        then refuse (Errorf "extends: cycle detected, OCI ref %q already in chain" [AStr bare]) visited
        else load (OfOCI bare)
      else
        let refPath := if IsAbs extendsRef then extendsRef else JoinPath [dir; extendsRef] in
        match Abs refPath with
        | inl e => refuse (Errorf "extends: resolve path %q: %w" [AStr extendsRef; AErr e]) visited
        | inr absPath =>
            if decide (absPath ∈ visited)
            then refuse (Errorf "extends: cycle detected, %q already in chain" [AStr absPath]) visited
            else match Abs absPath with
                 | inl e => refuse (Errorf "make path absolute: %w" [AErr e]) visited
                 | inr absPath' => load (OfFile absPath')
                 end
        end
  end.

Definition extendsVarReplacer (localWorkspaceFolder : string) : ReplaceFunction := fun match_ variable args =>
  if decide (variable = "localEnv") then
    match args with
    | [] => match_
    | name :: rest =>
        match LookupEnv name with
        | Some val => val
        | None => match rest with [] => "" | _ => Join rest ":" end
        end
    end
  else if decide (variable = "localWorkspaceFolder") then localWorkspaceFolder
  else if decide (variable = "localWorkspaceFolderBasename") then Base localWorkspaceFolder
  else match_.

Definition setExtends (refs : list string) (c : DevContainerConfig) : DevContainerConfig :=
  let b := cBase c in
  mkConfig (mkBase (Some refs) (Name b) (Features b) (OverrideFeatureInstallOrder b) (ForwardPorts b)
      (PortsAttributes b) (OtherPortsAttributes b) (UpdateRemoteUserUID b) (RemoteEnv b) (RemoteUser b)
      (InitializeCommand b) (ShutdownAction b) (WaitFor b) (UserEnvProbe b) (HostReqs b) (OverrideCommand b)
      (WorkspaceFolder b) (Settings b) (Extensions b) (DevPort b) (Secrets b))
    (cActions c) (cNonCompose c) (cImage c) (cCompose c) (cDockerfile c) (cRunning c) (Sources c) (Origin c).

(** [resolveExtends]: the references of the file itself may hold variables. *)
Definition resolveExtends (fuel : nat) (c : DevContainerConfig) (path : string) : failure + DevContainerConfig :=
  match elems (Extends (cBase c)) with
  | [] => inr c
  | refs =>
      let dir := Dir path in
      let c' := setExtends (map (fun ref => ResolveString ref (extendsVarReplacer dir)) refs) c in
      (overParents (resolveExtendsSingle fuel dir) c' {[path]}).2
  end.

(** ** Deprecated fields *)

(** Append what is not there yet. *)
Fixpoint addNew (have extensions : list string) : list string :=
  match extensions with
  | [] => have
  | x :: rest => addNew (if decide (x ∈ have) then have else have ++ [x]) rest
  end.
Definition replaceLegacy (c : DevContainerConfig) : goerr + DevContainerConfig :=
  let b := cBase c in
  if bool_decide (elems (Extensions b) = []) && bool_decide (Settings b = ∅) && (DevPort b =? 0) then inr c
  else
    let old := match Customizations (cActions c) !! "vscode" with
               | None => inr (mkVSCode ∅ [] 0)
               | Some v => decodeVSCode v
               end in
    match old with
    | inl e => inl e
    | inr v =>
        let v' := mkVSCode (VSettings v ∪ Settings b)
                    (addNew (VExtensions v) (elems (Extensions b)))
                    (if VDevPort v =? 0 then DevPort b else VDevPort v) in
        let a := cActions c in
        inr (mkConfig
          (mkBase (Extends b) (Name b) (Features b) (OverrideFeatureInstallOrder b) (ForwardPorts b)
             (PortsAttributes b) (OtherPortsAttributes b) (UpdateRemoteUserUID b) (RemoteEnv b) (RemoteUser b)
             (InitializeCommand b) (ShutdownAction b) (WaitFor b) (UserEnvProbe b) (HostReqs b)
             (OverrideCommand b) (WorkspaceFolder b) ∅
             (if bool_decide (elems (Extensions b) = []) then Extensions b else None) 0 (Secrets b))
          (mkActions (OnCreateCommand a) (UpdateContentCommand a) (PostCreateCommand a) (PostStartCommand a)
             (PostAttachCommand a) (<["vscode" := encodeVSCode v']> (Customizations a)))
          (cNonCompose c) (cImage c) (cCompose c) (cDockerfile c) (cRunning c) (Sources c) (Origin c))
    end.

(** [ParseDevContainerJSONFile]: the file itself, *)
Definition readRoot (path : string) : Resolving DevContainerConfig :=
  go! bytes := orErr (ReadFile path) in
  go! normalized := orRefuse "parse jsonc: %w" [] (Standardize bytes) in
  go! c := orErr (decodeConfig normalized) in
  go! fields := orErr (decodeFields normalized) in
  yield (withSource path fields c).
(** and then what it extends and its deprecated fields. *)
Definition ParseDevContainerJSONFile (fuel : nat) (jsonFilePath : string) : failure + DevContainerConfig :=
  match Abs jsonFilePath with
  | inl e => inl (Failed (Errorf "make path absolute: %w" [AErr e]))
  | inr path =>
      match (readRoot path ∅).2 with
      | inl f => inl f
      | inr c =>
          match resolveExtends fuel c path with
          | inl f => inl f
          | inr c' => match replaceLegacy c' with inl e => inl (Failed e) | inr c'' => inr c'' end
          end
      end
  end.
End Extends.
