(* ===== verification/DevLineage.v ===== *)
(** What inheritance promises: it ends, and every value of the result is the one
    of the last source that gives it.  The specification is the lineage: the
    configurations a file inherits from, in the order they count. *)
From S2P Require Import Prelude GoStd GoText GoConv GoPath GoState Json DevSubst DevTypes DevMerge DevMerging DevExtends.

(** ** The order of sources *)

Lemma lastSet_app {A B} (m : A -> option B) l1 l2 :
  lastSet m (l1 ++ l2) = match lastSet m l2 with Some v => Some v | None => lastSet m l1 end.
Proof. unfold lastSet. rewrite omap_app, last_app. by destruct (last (omap m l2)). Qed.
Lemma lastSet_single {A B} (m : A -> option B) x : lastSet m [x] = m x.
Proof. unfold lastSet. cbn. by destruct (m x). Qed.

(** The child's value of [f] if it has one, and the parent's otherwise. *)
Definition inherited {B} (f : DevContainerConfig -> option B) : Prop := forall p c,
  f (mergeExtendsConfigs p c) = match f c with Some v => Some v | None => f p end.

Definition hookOf (h : LifecycleHook) : option LifecycleHook := if decide (h = ∅) then None else Some h.

(** The properties of a configuration, by the way they are inherited. *)
Definition textFields : list (DevContainerConfig -> string) :=
  [fun c => Name (cBase c); fun c => Image (cImage c); fun c => Dockerfile (cDockerfile c);
   fun c => Context_ (cDockerfile c); fun c => Service (cCompose c); fun c => ContainerUser (cNonCompose c);
   fun c => RemoteUser (cBase c); fun c => WorkspaceFolder (cBase c); fun c => ShutdownAction (cBase c);
   fun c => WaitFor (cBase c); fun c => UserEnvProbe (cBase c); fun c => ContainerID (cRunning c)].
Definition flagFields : list (DevContainerConfig -> option bool) :=
  [fun c => UpdateRemoteUserUID (cBase c); fun c => OverrideCommand (cBase c);
   fun c => Init (cNonCompose c); fun c => Privileged (cNonCompose c)].
Definition hookFields : list (DevContainerConfig -> LifecycleHook) :=
  [fun c => InitializeCommand (cBase c); fun c => OnCreateCommand (cActions c);
   fun c => UpdateContentCommand (cActions c); fun c => PostCreateCommand (cActions c);
   fun c => PostStartCommand (cActions c); fun c => PostAttachCommand (cActions c)].
Definition listFields : list (DevContainerConfig -> slice string) :=
  [fun c => ForwardPorts (cBase c); fun c => RunArgs (cNonCompose c); fun c => CapAdd (cNonCompose c);
   fun c => SecurityOpt (cNonCompose c); fun c => AppPort (cNonCompose c); fun c => RunServices (cCompose c);
   fun c => OverrideFeatureInstallOrder (cBase c); fun c => DockerComposeFile (cCompose c)].

(** Of a build: the file, the directory, the stage and the lists. *)
Definition buildOf (c : DevContainerConfig) : option (string * string * string * list string * list string) :=
  (fun b => (BuildDockerfile b, BuildContext b, BuildTarget b, elems (CacheFrom b), elems (BuildOptions b))) <$> Build (cDockerfile c).
Definition buildArg (k : string) (c : DevContainerConfig) : option string :=
  Build (cDockerfile c) ≫= fun b => BuildArgs b !! k.
(** Requirements and mounts as a copy keeps them. *)
Definition hostOf (c : DevContainerConfig) : option HostRequirements := copyHostRequirements <$> HostReqs (cBase c).
Definition mountsKept (c : DevContainerConfig) : slice Mount := option_map (map copyMount) (Mounts (cNonCompose c)).

(** [r] is what the configurations [sources] say, the later before the earlier.
    Every property is here: an array counts as a whole and is only pinned where
    no array is empty, and the deprecated ones are those of the first. *)
Record inherits (sources : list DevContainerConfig) (r : DevContainerConfig) : Prop := {
  in_sources : elems (Sources r) = flat_map (fun c => elems (Sources c)) sources;
  in_texts : Forall (fun f => nonEmpty (f r) = lastSet (fun c => nonEmpty (f c)) sources) textFields;
  in_flags : Forall (fun f => f r = lastSet f sources) flagFields;
  in_mount : WorkspaceMount (cNonCompose r) = lastSet (fun c => WorkspaceMount (cNonCompose c)) sources;
  in_ports : OtherPortsAttributes (cBase r) = lastSet (fun c => OtherPortsAttributes (cBase c)) sources;
  in_hooks : Forall (fun f => hookOf (f r) = lastSet (fun c => hookOf (f c)) sources) hookFields;
  in_features k : Features (cBase r) !! k = lastSet (fun c => Features (cBase c) !! k) sources;
  in_remoteEnv k : RemoteEnv (cBase r) !! k = lastSet (fun c => RemoteEnv (cBase c) !! k) sources;
  in_containerEnv k : ContainerEnv (cNonCompose r) !! k = lastSet (fun c => ContainerEnv (cNonCompose c) !! k) sources;
  in_portAttributes k : PortsAttributes (cBase r) !! k = lastSet (fun c => PortsAttributes (cBase c) !! k) sources;
  in_customizations k : Customizations (cActions r) !! k = lastSet (fun c => Customizations (cActions c) !! k) sources;
  in_secrets k : Secrets (cBase r) !! k = lastSet (fun c => Secrets (cBase c) !! k) sources;
  in_lists : Forall (fun f => (forall c, c ∈ sources -> f c <> Some []) -> f r = lastSet f sources) listFields;
  in_mounts : (forall c, c ∈ sources -> Mounts (cNonCompose c) <> Some []) -> mountsKept r = lastSet mountsKept sources;
  in_host : hostOf r = lastSet hostOf sources;
  in_build : buildOf r = lastSet buildOf sources;
  in_buildArgs k : buildArg k r = lastSet (buildArg k) sources;
  in_origin : Some (Origin r) = Origin <$> last sources;
  in_settings : Some (Settings (cBase r)) = (fun c => Settings (cBase c)) <$> head sources;
  in_extensions : Some (elems (Extensions (cBase r))) = (fun c => elems (Extensions (cBase c))) <$> head sources;
  in_devPort : Some (DevPort (cBase r)) = (fun c => DevPort (cBase c)) <$> head sources;
  in_extends : (2 <= length sources)%nat -> Extends (cBase r) = None;
}.

(** A list of fields, one by one. *)
Ltac each_field := repeat (apply Forall_cons; split); try apply Forall_nil_2.

(** The same but for the references is the same. *)
Ltac alone := split; intros; rewrite ?lastSet_single; try done; try (cbn in *; lia); [cbn; by rewrite app_nil_r|..];
  each_field; intros; by rewrite lastSet_single.
Lemma inherits_single c : inherits [c] c.
Proof. alone. Qed.

Lemma nonEmpty_orElse c p : nonEmpty (orElse c p) = match nonEmpty c with Some v => Some v | None => nonEmpty p end.
Proof. unfold nonEmpty, orElse. repeat case_decide; congruence. Qed.
Lemma hookOf_orHook c p : hookOf (orHook c p) = match hookOf c with Some v => Some v | None => hookOf p end.
Proof. unfold hookOf, orHook. repeat case_decide; congruence. Qed.
Lemma orSet_spec {A} (c p : option A) : orSet c p = match c with Some v => Some v | None => p end.
Proof. by destruct c. Qed.
Lemma lookup_deepMergeMap {A} (p c : gmap string A) k :
  deepMergeMap p c !! k = match c !! k with Some v => Some v | None => p !! k end.
Proof. unfold deepMergeMap. rewrite lookup_union. by destruct (c !! k), (p !! k). Qed.

Lemma text_inherited : Forall (fun f => inherited (fun c => nonEmpty (f c))) textFields.
Proof. each_field; intros p c; apply nonEmpty_orElse. Qed.
Lemma flag_inherited : Forall (fun f => inherited f) flagFields.
Proof. each_field; intros p c; apply orSet_spec. Qed.
Lemma hook_inherited : Forall (fun f => inherited (fun c => hookOf (f c))) hookFields.
Proof. each_field; intros p c; apply hookOf_orHook. Qed.
Lemma list_inherited : Forall (fun f => forall p c, f (mergeExtendsConfigs p c) = orSet (f c) (omitEmpty (f p))) listFields.
Proof. each_field; intros p c; done. Qed.

Lemma elems_omitEmpty {A} (s : slice A) : elems (omitEmpty s) = elems s.
Proof. by destruct s as [[|]|]. Qed.
Lemma elems_appendTo {A} (s : slice A) xs : elems (appendTo s xs) = elems s ++ xs.
Proof. destruct xs; [by rewrite app_nil_r|]. done. Qed.

(** A copy of a copy is the copy. *)
Lemma copyGPU_idem g : copyGPU (copyGPU g) = copyGPU g.
Proof.
  unfold copyGPU at 2 3. destruct ((0 <? Cores g) || bool_decide (GPUMemory g <> "")) eqn:Hc.
  - unfold copyGPU. cbn [Cores GPUMemory]. destruct (0 <? Cores g) eqn:Hz; cbn [orb] in *; [by rewrite Hz|].
    change (0 <? 0) with false. cbn [orb]. by rewrite Hc.
  - destruct (ParseBool (GPUValue g)) as [[]|] eqn:Hp; [done..|]. unfold copyGPU. cbn [Cores GPUMemory GPUValue].
    by rewrite Hp.
Qed.
Lemma copyHost_idem h : copyHostRequirements (copyHostRequirements h) = copyHostRequirements h.
Proof. destruct h as [? ? ? [g|]]; unfold copyHostRequirements; cbn; by rewrite ?copyGPU_idem. Qed.
Lemma copyMount_idem m : copyMount (copyMount m) = copyMount m.
Proof. by destruct m as [? ? ? ? [[|]|]]. Qed.

Lemma host_inherited : inherited hostOf.
Proof.
  intros p c. unfold hostOf. cbn. destruct (HostReqs (cBase c)); cbn; [done|].
  destruct (HostReqs (cBase p)); cbn; by rewrite ?copyHost_idem.
Qed.
Lemma build_inherited : inherited buildOf.
Proof.
  intros p c. unfold buildOf. cbn -[elems omitEmpty]. destruct (Build (cDockerfile c)), (Build (cDockerfile p)); cbn -[elems omitEmpty]; try done.
  by rewrite !elems_omitEmpty.
Qed.
Lemma buildArg_inherited k : inherited (buildArg k).
Proof.
  intros p c. unfold buildArg. cbn. destruct (Build (cDockerfile c)), (Build (cDockerfile p)); cbn; try done;
    [apply lookup_deepMergeMap|by destruct (BuildArgs _ !! k)].
Qed.
Lemma mounts_inherited p c : mountsKept (mergeExtendsConfigs p c) =
  match mountsKept c with Some v => Some v | None => omitEmpty (mountsKept p) end.
Proof.
  unfold mountsKept. cbn. destruct (Mounts (cNonCompose c)); cbn; [done|].
  destruct (Mounts (cNonCompose p)) as [[|m l]|]; cbn; [done| |done]. do 2 f_equal; [apply copyMount_idem|].
  rewrite map_map. apply map_ext. intros. apply copyMount_idem.
Qed.
(** An array over one of the parent that is not empty. *)
Lemma whole_array {A} (f : DevContainerConfig -> slice A) lp p lc c m :
  (forall x, x ∈ lp ++ lc -> f x <> Some []) ->
  f p = lastSet f lp -> f c = lastSet f lc -> m = match f c with Some v => Some v | None => omitEmpty (f p) end ->
  m = lastSet f (lp ++ lc).
Proof.
  intros Hne Ep Ec ->. rewrite lastSet_app, <- Ec, <- Ep. destruct (f c); [done|]. cbn. destruct (f p) as [[|]|] eqn:Hfp; [|done..].
  exfalso. unfold lastSet in Ep. symmetry in Ep. apply last_Some_elem_of, list_elem_of_omap in Ep as (x & Hx & Hfx).
  apply (Hne x); [set_solver|done].
Qed.
Lemma mountsOf_empty c : Mounts (cNonCompose c) <> Some [] -> mountsKept c <> Some [].
Proof. unfold mountsKept. by destruct (Mounts (cNonCompose c)) as [[|]|]. Qed.
Lemma sources_some {A} (x : A) (f : DevContainerConfig -> A) l : Some x = f <$> l -> is_Some l.
Proof. by destruct l. Qed.

(** A child over its parent has the parent's sources and then its own. *)
Lemma inherits_merge lp p lc c :
  inherits lp p -> inherits lc c -> inherits (lp ++ lc) (mergeExtendsConfigs p c).
Proof.
  intros Hp Hc.
  assert (Hin : forall B (f : DevContainerConfig -> option B), inherited f ->
            f p = lastSet f lp -> f c = lastSet f lc -> f (mergeExtendsConfigs p c) = lastSet f (lp ++ lc)).
  { intros B f Hf Ep Ec. rewrite Hf, lastSet_app. by rewrite Ep, Ec. }
  pose proof (proj1 (Forall_forall _ _) text_inherited) as Ht.
  pose proof (proj1 (Forall_forall _ _) flag_inherited) as Hfl.
  pose proof (proj1 (Forall_forall _ _) hook_inherited) as Hh.
  pose proof (proj1 (Forall_forall _ _) list_inherited) as Hl.
  destruct Hp as [ps pt pf pm po ph pfe pr pc pp pcu pse pl pmo pho pb pba por pset pex pdp pe],
    Hc as [cs ct cf cm co ch cfe cr cc cp ccu cse cl cmo cho cb cba cor cset cex cdp ce].
  destruct (sources_some _ _ _ pset) as [p0 Hp0], (sources_some _ _ _ cor) as [c0 Hc0].
  assert (Hhead : head (lp ++ lc) = Some p0) by (by destruct lp; [|injection Hp0 as <-]).
  assert (Hlast : last (lp ++ lc) = Some c0) by (by rewrite last_app, Hc0).
  rewrite Hp0 in pset, pex, pdp. rewrite Hc0 in cor. cbn in pset, pex, pdp, cor.
  split.
  - cbn [mergeExtendsConfigs Sources]. rewrite elems_appendTo. cbn [CloneDevContainerConfig Sources].
    by rewrite elems_omitEmpty, flat_map_app, ps, cs.
  - rewrite Forall_forall in *. intros f Hf.
    apply (Hin _ (fun c => nonEmpty (f c))); [by apply Ht|by apply pt|by apply ct].
  - rewrite Forall_forall in *. intros f Hf. apply (Hin _ f); [by apply Hfl|by apply pf|by apply cf].
  - apply (Hin _ (fun c => WorkspaceMount (cNonCompose c))); [intros ??; apply orSet_spec|done..].
  - apply (Hin _ (fun c => OtherPortsAttributes (cBase c))); [intros ??; apply orSet_spec|done..].
  - rewrite Forall_forall in *. intros f Hf.
    apply (Hin _ (fun c => hookOf (f c))); [by apply Hh|by apply ph|by apply ch].
  - intros k. apply (Hin _ (fun c => Features (cBase c) !! k)); [intros ??; apply lookup_deepMergeMap|done..].
  - intros k. apply (Hin _ (fun c => RemoteEnv (cBase c) !! k)); [intros ??; apply lookup_deepMergeMap|done..].
  - intros k. apply (Hin _ (fun c => ContainerEnv (cNonCompose c) !! k)); [intros ??; apply lookup_deepMergeMap|done..].
  - intros k. apply (Hin _ (fun c => PortsAttributes (cBase c) !! k)); [intros ??; apply lookup_deepMergeMap|done..].
  - intros k. apply (Hin _ (fun c => Customizations (cActions c) !! k)); [intros ??; apply lookup_deepMergeMap|done..].
  - intros k. apply (Hin _ (fun c => Secrets (cBase c) !! k)); [intros ??; apply lookup_deepMergeMap|done..].
  - rewrite Forall_forall in *. intros f Hf Hne. apply (whole_array f _ p _ c); [done|apply pl; [done|]; set_solver|apply cl; [done|]; set_solver|].
    rewrite Hl by done. apply orSet_spec.
  - intros Hne. apply (whole_array mountsKept _ p _ c); [by intros x Hx; apply mountsOf_empty, Hne|apply pmo; set_solver|apply cmo; set_solver|].
    apply mounts_inherited.
  - apply (Hin _ hostOf); [apply host_inherited|done..].
  - apply (Hin _ buildOf); [apply build_inherited|done..].
  - intros k. apply (Hin _ (buildArg k)); [apply buildArg_inherited|done..].
  - by rewrite Hlast.
  - by rewrite Hhead.
  - rewrite Hhead. cbn -[elems omitEmpty]. by rewrite elems_omitEmpty.
  - by rewrite Hhead.
  - done.
Qed.

Section Lineage.
Context `{CW : ConfigWorld}.

(** The content of a declaration, whatever was seen before it. *)
Definition readConfig (d : declared) : failure + DevContainerConfig := (readDeclared d ∅).2.
Lemma readDeclared_eq d visited : readDeclared d visited = (visited, readConfig d).
Proof.
  unfold readConfig. destruct d as [p|b]; cbn;
    unfold bindGo, orRefuse, orErr, refuse, yield; repeat (case_match; simplify_eq; try done).
Qed.

Lemma readConfig_fuel d : readConfig d <> inl OutOfFuel.
Proof.
  unfold readConfig. destruct d as [p|b]; cbn;
    unfold bindGo, orRefuse, orErr, refuse, yield; repeat (case_match; simplify_eq; try done).
Qed.

(** What a reference in directory [dir] denotes. *)
Definition refersTo (dir ref : string) : goerr + declared :=
  if isOCIRef ref then inr (OfOCI (stripOCIPrefix ref))
  else match Abs (if IsAbs ref then ref else JoinPath [dir; ref]) with
       | inl e => inl e
       | inr absPath => inr (OfFile absPath)
       end.

(** The configurations behind references: of each reference what it inherits
    from and then itself, the references from left to right. *)
Inductive lineage (dir : string) : list string -> list DevContainerConfig -> Prop :=
  | LineageNone : lineage dir [] []
  | LineageRef ref rest d c ancestors others :
      refersTo dir ref = inr d -> readConfig d = inr c ->
      lineage (declaringDir d) (elems (Extends (cBase c))) ancestors ->
      lineage dir rest others ->
      lineage dir (ref :: rest) ((ancestors ++ [c]) ++ others).

(** ** Every result has a lineage *)

Definition inheritsFrom (dir : string) (refs : list string) (c : DevContainerConfig) : Prop :=
  exists sources, lineage dir refs sources /\ inherits sources c.

Lemma lineage_app dir refs1 refs2 l1 l2 :
  lineage dir refs1 l1 -> lineage dir refs2 l2 -> lineage dir (refs1 ++ refs2) (l1 ++ l2).
Proof.
  intros H1. revert refs2 l2. induction H1 as [|dir ref rest d c anc others Hd Hc Ha _ _ IH]; [done|].
  intros refs2 l2 H2. cbn [app]. rewrite <- app_assoc. eapply LineageRef; eauto.
Qed.
Lemma inherits_setExtends refs c : inherits [c] (setExtends refs c).
Proof. alone. Qed.

(** A resolution of single references that keeps to the lineage. *)
Definition keepsLineage (single : string -> Resolving DevContainerConfig) (dir : string) : Prop :=
  forall ref V c, (single ref V).2 = inr c -> inheritsFrom dir [ref] c.

Lemma array_lineage single dir (Hs : keepsLineage single dir) refs : forall done_ merged V c,
  match merged with None => done_ = [] | Some m => inheritsFrom dir done_ m end ->
  (resolveExtendsArray single refs merged V).2 = inr (Some c) -> inheritsFrom dir (done_ ++ refs) c.
Proof.
  induction refs as [|ref refs IH]; intros done_ merged V c Hm.
  - intros [= ->]. by rewrite app_nil_r.
  - intros (r & V' & Hr & Hrest)%bindGo_inr. assert (Hi : inheritsFrom dir [ref] r) by (apply (Hs ref V); by rewrite Hr).
    rewrite (cons_middle ref). rewrite app_assoc. refine (IH _ _ _ _ _ Hrest). cbn.
    destruct merged as [m|]; [|by subst]. destruct Hm as (l1 & Hl1 & Hi1), Hi as (l2 & Hl2 & Hi2).
    exists (l1 ++ l2). split; [by apply lineage_app|by apply inherits_merge].
Qed.
Lemma array_some single refs : forall merged V x,
  refs <> [] \/ is_Some merged -> (resolveExtendsArray single refs merged V).2 = inr x -> is_Some x.
Proof.
  induction refs as [|ref refs IH]; intros merged V x Hne.
  - intros [= <-]. by destruct Hne.
  - intros (r & V' & _ & Hrest)%bindGo_inr. eapply IH; [|exact Hrest]. by right.
Qed.

(** A configuration over its parents: the parents' lineage and then itself. *)
Lemma overParents_lineage single dir own c V c' :
  keepsLineage single dir -> inherits [own] c -> (overParents single c V).2 = inr c' ->
  exists ancestors, lineage dir (elems (Extends (cBase c))) ancestors /\ inherits (ancestors ++ [own]) c'.
Proof.
  intros Hs Hown. unfold overParents. destruct (elems (Extends (cBase c))) as [|r rs].
  - intros [= <-]. exists []. by split; [constructor|].
  - intros (p & V' & Hp%(f_equal snd) & Hc')%bindGo_inr.
    destruct (array_some single (r :: rs) None V p) as [p' ->]; [by left|done|]. injection Hc' as <-.
    destruct (array_lineage _ _ Hs (r :: rs) [] None V p' eq_refl Hp) as (anc & Hl & Hi).
    exists anc. split; [done|]. by apply inherits_merge.
Qed.

(** ** A working directory is absolute *)

Class WorkingDirectory := Getwd_abs wd : Getwd = inr wd -> IsAbs wd = true.
Context `{WD : !WorkingDirectory}.

Lemma Abs_twice p q : Abs p = inr q -> Abs q = inr q.
Proof.
  assert (Hclean : forall r, IsAbs r = true -> Abs (Clean r) = inr (Clean r)).
  { intros r Hr. unfold Abs. by rewrite IsAbs_Clean, Clean_idem. }
  unfold Abs at 1. destruct (IsAbs p) eqn:Hp; [intros [= <-]; by apply Hclean|].
  destruct Getwd as [e|wd] eqn:Hwd; [done|]. intros [= <-].
  destruct (JoinPath_abs wd [p] (Getwd_abs _ Hwd)) as (r & -> & Hr). by apply Hclean.
Qed.

Lemma load_lineage single d V c :
  keepsLineage single (declaringDir d) ->
  ((go! c := readDeclared d in overParents single c) V).2 = inr c ->
  exists own ancestors, readConfig d = inr own /\ lineage (declaringDir d) (elems (Extends (cBase own))) ancestors /\
    inherits (ancestors ++ [own]) c.
Proof.
  intros Hs (own & V' & Hr & Hc)%bindGo_inr. rewrite readDeclared_eq in Hr. simplify_eq.
  destruct (overParents_lineage _ _ _ _ _ _ Hs (inherits_single _) Hc) as (anc & ? & ?). by exists own, anc.
Qed.
Lemma single_lineage fuel : forall dir, keepsLineage (resolveExtendsSingle fuel dir) dir.
Proof.
  induction fuel as [|fuel IH]; intros dir ref V c; [done|]. cbn [resolveExtendsSingle].
  assert (Hload : forall d V', refersTo dir ref = inr d ->
    ((go! c := readDeclared d in overParents (resolveExtendsSingle fuel (declaringDir d)) c) V').2 = inr c ->
    inheritsFrom dir [ref] c).
  { intros d V' Hd (own & anc & Hown & Hl & Hi)%load_lineage; [|apply IH].
    exists (anc ++ [own]). split; [|done]. rewrite <- (app_nil_r (anc ++ [own])). by econstructor; [..|constructor]. }
  unfold refersTo in Hload. destruct (isOCIRef ref).
  - case_decide; [done|]. by apply Hload.
  - destruct (Abs _) as [e|absPath] eqn:Habs; [done|]. case_decide; [done|].
    rewrite (Abs_twice _ _ Habs). by apply Hload.
Qed.

(** C22: whatever [extends] names - files, artifacts, several of them, each with
    references of its own - when it can be resolved, every property of the result
    is pinned by the lineage, which lists what a file inherits from, reference by
    reference and depth first, and then the file itself.  A property has the value
    of the last configuration of the lineage that gives one, maps and the arguments
    of a build key by key, a build otherwise as a whole, requirements and mounts as
    a copy through JSON keeps them.  An array counts as a whole and is pinned when
    no configuration of the lineage has that array empty (the example
    [empty_array_dropped] is such a one); the deprecated settings, extensions and
    devPort, which are migrated afterwards, are those of the first configuration
    of the lineage only (the example [legacy_lost]). *)
Theorem resolveExtends_lineage fuel c path r :
  resolveExtends fuel c path = inr r ->
  exists ancestors,
    lineage (Dir path)
      (map (fun ref => ResolveString ref (extendsVarReplacer (Dir path))) (elems (Extends (cBase c)))) ancestors /\
    inherits (ancestors ++ [c]) r.
Proof.
  unfold resolveExtends. destruct (elems (Extends (cBase c))) as [|r0 rs].
  - intros [= <-]. exists []. split; [constructor|apply inherits_single].
  - intros Hr. destruct (overParents_lineage _ _ c _ _ _ (single_lineage fuel (Dir path)) (inherits_setExtends _ c) Hr)
      as (anc & Hl & Hi). by exists anc.
Qed.

(** ** Resolution ends *)

(** Files and artifacts that can be read all have a name in [names]. *)
Class FiniteWorld (names : gset string) := {
  file_named p x : ReadFile p = inr x -> p ∈ names;
  artifact_named b x : pullOCIExtendsJSON b = inr x -> b ∈ names;
}.
Context (names : gset string) `{FW : !FiniteWorld names}.

Lemma readConfig_named d c : readConfig d = inr c -> nameOf d ∈ names.
Proof.
  unfold readConfig. destruct d as [p|b]; cbn; unfold bindGo, orRefuse, refuse, yield.
  - destruct (ReadFile p) eqn:Hp; [done|]. intros _. by eapply file_named.
  - destruct (pullOCIExtendsJSON b) eqn:Hb; [done|]. intros _. by eapply artifact_named.
Qed.

(** Names are only added to what was seen; [unseen] ones are left. *)
Definition grows (V V' : gset string) : Prop := V ⊆ V'.
#[local] Instance grows_preorder : PreOrder grows.
Proof. split; unfold grows; [by intros V|by intros V1 V2 V3; set_solver]. Qed.
Definition unseen (visited : gset string) : nat := size (names ∖ visited).
Lemma unseen_grows V V' : grows V V' -> True -> True /\ (unseen V' <= unseen V)%nat.
Proof. unfold grows, unseen. intros Hsub _. split; [done|]. apply subseteq_size. set_solver. Qed.
(** Two resolutions agree and end when fewer than [n] names are unseen. *)
Abbreviation agree := (agreeWithin (fun _ => True) unseen grows).

Lemma agree_array n s1 s2 refs : (forall ref, agree n (s1 ref) (s2 ref)) ->
  forall merged, agree n (resolveExtendsArray s1 refs merged) (resolveExtendsArray s2 refs merged).
Proof.
  intros Hs. induction refs as [|ref refs IH]; intros merged; [apply agree_yield; apply _|].
  apply agree_bind; [apply _|apply unseen_grows|apply Hs|]. intros r. apply IH.
Qed.
Lemma agree_overParents n s1 s2 c :
  (forall ref, agree n (s1 ref) (s2 ref)) -> agree n (overParents s1 c) (overParents s2 c).
Proof.
  intros Hs. unfold overParents. destruct (elems _) as [|r rs]; [apply agree_yield; apply _|].
  apply agree_bind; [apply _|apply unseen_grows|by apply agree_array|]. intros p. apply agree_yield; apply _.
Qed.

(** What is loaded has a name not seen before, so that one name fewer is left. *)
Lemma agree_load n s1 s2 d V :
  (forall ref, agree n (s1 ref) (s2 ref)) -> nameOf d ∉ V ->
  let m1 := (go! c := readDeclared d in overParents s1 c) ({[nameOf d]} ∪ V) in
  let m2 := (go! c := readDeclared d in overParents s2 c) ({[nameOf d]} ∪ V) in
  grows V m1.1 /\ (unseen V < S n -> m1 = m2 /\ m1.2 <> inl OutOfFuel)%nat.
Proof.
  intros Hs HV. cbv zeta. unfold bindGo. rewrite readDeclared_eq. destruct (readConfig d) as [f|c] eqn:Hc.
  - split; [unfold grows; set_solver|]. intros _. split; [done|]. cbn. intros [= ->]. by eapply readConfig_fuel.
  - destruct (agree_overParents n s1 s2 c Hs ({[nameOf d]} ∪ V) I) as [Hsub Heq].
    unfold grows in *. split; [set_solver|]. intros Hn. apply Heq.
    enough (unseen ({[nameOf d]} ∪ V) < unseen V)%nat by lia.
    unfold unseen. apply subset_size. pose proof (readConfig_named _ _ Hc). set_solver.
Qed.
Lemma agree_step n n1 n2 dir ref :
  (forall d ref', agree n (resolveExtendsSingle n1 (declaringDir d) ref')
                    (resolveExtendsSingle n2 (declaringDir d) ref')) ->
  agree (S n) (resolveExtendsSingle (S n1) dir ref) (resolveExtendsSingle (S n2) dir ref).
Proof.
  intros Hs V _. cbn [resolveExtendsSingle]. destruct (isOCIRef ref).
  - case_decide; [split; [reflexivity|done]|]. by apply (agree_load n _ _ (OfOCI _)).
  - destruct (Abs _) as [e|absPath] eqn:Habs; [split; [reflexivity|done]|].
    case_decide; [split; [reflexivity|done]|].
    rewrite (Abs_twice _ _ Habs). by apply (agree_load n _ _ (OfFile _)).
Qed.
Lemma single_grows n1 : forall dir ref V, grows V (resolveExtendsSingle n1 dir ref V).1.
Proof.
  induction n1 as [|n1 IH]; intros dir ref V; [done|].
  apply (agree_step 0 n1 n1); [|done]. intros d ref' V' _. split; [apply IH|lia].
Qed.
Lemma agree_single n : forall n1 n2 dir ref, (n <= n1 -> n <= n2 ->
  agree n (resolveExtendsSingle n1 dir ref) (resolveExtendsSingle n2 dir ref))%nat.
Proof.
  induction n as [|n IH]; intros n1 n2 dir ref H1 H2; [intros V _; split; [apply single_grows|lia]|].
  destruct n1 as [|n1], n2 as [|n2]; try lia. apply agree_step. intros. apply IH; lia.
Qed.
Lemma agree_resolveExtends n1 n2 c path : (size names < n1 -> size names < n2 ->
  resolveExtends n1 c path = resolveExtends n2 c path /\ resolveExtends n1 c path <> inl OutOfFuel)%nat.
Proof.
  intros H1 H2. unfold resolveExtends. destruct (elems _) as [|r rs]; [done|].
  destruct (agree_overParents (S (size names)) _ _
    (setExtends (map (fun ref => ResolveString ref (extendsVarReplacer (Dir path))) (r :: rs)) c)
    (fun ref => agree_single _ n1 n2 (Dir path) ref H1 H2) {[path]} I) as [_ Heq].
  destruct Heq as [-> Hf]; [|done]. unfold unseen.
  assert (size (names ∖ {[path]}) <= size names)%nat by (apply subseteq_size; set_solver). lia.
Qed.

(** One call per name, and one that is refused. *)
Definition enoughFuel : nat := S (size names).

Lemma readRoot_fuel path V : (readRoot path V).2 <> inl OutOfFuel.
Proof. unfold readRoot, bindGo, orRefuse, orErr, refuse, yield. repeat (case_match; simplify_eq; try done). Qed.

(** when only finitely many files and artifacts can be read, resolving ends,
    however they refer to one another: with more fuel than there are names every
    amount of fuel gives the same outcome, which is a configuration or one of the
    errors of the code. *)
Theorem ParseDevContainerJSONFile_ends n1 n2 path :
  (enoughFuel <= n1)%nat -> (enoughFuel <= n2)%nat ->
  ParseDevContainerJSONFile n1 path = ParseDevContainerJSONFile n2 path /\
  ParseDevContainerJSONFile n1 path <> inl OutOfFuel.
Proof.
  intros H1 H2. unfold ParseDevContainerJSONFile. destruct (Abs path) as [e|p]; [done|].
  destruct (readRoot p ∅).2 as [f|c] eqn:Hread; [split; [done|]; intros [= ->]; by eapply readRoot_fuel|].
  destruct (agree_resolveExtends n1 n2 c p H1 H2) as [-> Hf].
  destruct (resolveExtends n2 c p) as [f|c']; [done|]. by destruct (replaceLegacy c').
Qed.
End Lineage.
