(* ===== verification/Dockerfile.v ===== *)
(** Dockerfiles (src/pkg/dockerfile/parse.go, and the questions build.go asks of
    them): the stages of a file, the image a target is built from, the user it
    runs as, the variables in both, and the edits of a file's text. *)
From S2P Require Import Prelude GoStd GoText Json GoPath DevSubst.

(** ** Data *)

(** [parser.Node]: a word of an instruction and the words behind it.  The first
    node of an instruction is its keyword. *)
Inductive Node := mkNode {
  nValue : string;
  nNext : option Node;
  nFlags : list string;
  nPrevComment : list string;
  nStartLine : Z;
  nEndLine : Z;
}.
Record KeyValuePair := mkKeyValuePair { kvKey : string; kvValue : string }.
Record KeyValuePairOptional := mkKeyValuePairOptional { koKey : string; koValue : option string }.

Record BaseStage := mkBaseStage {
  bsImage : string;
  bsTarget : string;
  bsEnvs : list KeyValuePair;
  bsArgs : list KeyValuePairOptional;
  bsInstructions : list Node;
}.
Record Stage := mkStage { stBase : BaseStage; stUsers : list KeyValuePair }.
Definition withBase (f : BaseStage -> BaseStage) (st : Stage) : Stage := mkStage (f (stBase st)) (stUsers st).

(** [dStagesByTarget] has indices into [dStages], where the code has pointers. *)
Record Dockerfile := mkDockerfile {
  dRaw : string;
  dDirectives : list (string * string);
  dPreamble : BaseStage;
  dSyntax : string;
  dStages : list Stage;
  dStagesByTarget : gmap string nat;
}.
Definition withPreamble (f : BaseStage -> BaseStage) (d : Dockerfile) : Dockerfile :=
  mkDockerfile (dRaw d) (dDirectives d) (f (dPreamble d)) (dSyntax d) (dStages d) (dStagesByTarget d).
Definition withStages (stages : list Stage) (d : Dockerfile) : Dockerfile :=
  mkDockerfile (dRaw d) (dDirectives d) (dPreamble d) (dSyntax d) stages (dStagesByTarget d).

(** ** The library *)

(** [shell.Lex.ProcessWord], which asks for the variables of a word one after the
    other and may fail. *)
Inductive Reading :=
| Result (r : option string)
| Ask (key : string) (k : option string -> Reading).
(** What [instructions.ParseCommand] makes of an instruction. *)
Inductive Command := AddCommand (sourcePaths : list string) | CopyCommand (sourcePaths : list string) | OtherCommand.
(** github.com/moby/buildkit/frontend/dockerfile *)
Class BuildKit := {
  parseNodes : string -> goerr + list Node;
  parseDirectives : string -> list (string * string);
  ParseCommand : Node -> goerr + Command;
  readWord : string -> Reading;
}.

(** ** Parsing *)

(** [strings.Trim] with both kinds of quotes. *)
Definition isQuoteChar (c : ascii) : bool := bool_decide (c = "034"%char) || bool_decide (c = "'"%char).
Fixpoint trimQuotesLeft (s : string) : string :=
  match s with String c s' => if isQuoteChar c then trimQuotesLeft s' else s | EmptyString => "" end.
Definition trimQuotes (s : string) : string := string_rev (trimQuotesLeft (string_rev (trimQuotesLeft s))).

Definition parseUser (instruction : Node) : KeyValuePair :=
  match nNext instruction with
  | None => mkKeyValuePair "" ""
  | Some next =>
      let value := nValue next in
      mkKeyValuePair
        (if hasChar ":" value && negb (HasPrefix value "${")
         then match CutChar ":" value with Some (name, _) => name | None => value end
         else value) ""
  end.
Definition parseArg (instruction : Node) : KeyValuePairOptional :=
  match nNext instruction with
  | None => mkKeyValuePairOptional "" None
  | Some node =>
      match nNext node with
      | Some next => mkKeyValuePairOptional (nValue node) (Some (nValue next))
      | None => match CutChar "=" (nValue node) with
                | Some (key, value) => mkKeyValuePairOptional key (Some value)
                | None => mkKeyValuePairOptional (nValue node) None
                end
      end
  end.
Definition envPair (key value : string) : KeyValuePair :=
  mkKeyValuePair (TrimSpace key) (trimQuotes (ReplaceChar "\" "" value)).
Fixpoint envPairs (node : Node) : list KeyValuePair :=
  match node with
  | mkNode key (Some (mkNode value rest _ _ _ _)) _ _ _ _ =>
      envPair key value :: match rest with Some node' => envPairs node' | None => [] end
  | _ => []
  end.
Definition parseEnv (instruction : Node) : list KeyValuePair :=
  match nNext instruction with Some node => envPairs node | None => [] end.
Definition stageNames (instruction : Node) : string * string :=
  match nNext instruction with
  | None => ("", "")
  | Some next =>
      (nValue next,
       match nNext next with
       | Some word => if EqualFold (nValue word) "as" then match nNext word with Some name => nValue name | None => "" end else ""
       | None => ""
       end)
  end.
Definition parseStage (instruction : Node) : Stage :=
  let '(image, target) := stageNames instruction in mkStage (mkBaseStage image target [] [] [instruction]) [].

Definition isCommand (name : string) (instruction : Node) : bool := bool_decide (ToLower (nValue instruction) = name).
Definition addEnvs (instruction : Node) (b : BaseStage) : BaseStage :=
  mkBaseStage (bsImage b) (bsTarget b)
    (if isCommand "env" instruction then bsEnvs b ++ parseEnv instruction else bsEnvs b)
    (if isCommand "arg" instruction then bsArgs b ++ [parseArg instruction] else bsArgs b)
    (bsInstructions b ++ [instruction]).
Definition appendPreambleInstruction (d : Dockerfile) (instruction : Node) : Dockerfile := withPreamble (addEnvs instruction) d.
Definition addStageInstruction (instruction : Node) (st : Stage) : Stage :=
  mkStage (addEnvs instruction (stBase st))
    (if isCommand "user" instruction then stUsers st ++ [parseUser instruction] else stUsers st).
(** The last stage; there is one when an instruction is not in the preamble. *)
Definition appendStageInstruction (d : Dockerfile) (instruction : Node) : Dockerfile :=
  withStages (alter (addStageInstruction instruction) (pred (length (dStages d))) (dStages d)) d.
Definition appendInstruction (st : Dockerfile * bool) (instruction : Node) : Dockerfile * bool :=
  let '(d, isPreamble) := st in
  if isCommand "from" instruction then (withStages (dStages d ++ [parseStage instruction]) d, false)
  else if isPreamble then (appendPreambleInstruction d instruction, true)
  else (appendStageInstruction d instruction, false).

Fixpoint indexFrom (i : nat) (stages : list Stage) (m : gmap string nat) : gmap string nat :=
  match stages with
  | [] => m
  | st :: rest =>
      let target := bsTarget (stBase st) in
      indexFrom (S i) rest (if bool_decide (target = "") then m else <[target := i]> m)
  end.
Definition indexStagesByTarget (d : Dockerfile) : Dockerfile :=
  mkDockerfile (dRaw d) (dDirectives d) (dPreamble d) (dSyntax d) (dStages d) (indexFrom 0 (dStages d) (dStagesByTarget d)).

Definition noStage : BaseStage := mkBaseStage "" "" [] [] [].
Definition syntaxOf (directives : list (string * string)) : string :=
  match List.find (fun directive => EqualFold directive.1 "syntax") directives with Some directive => directive.2 | None => "" end.

Section Parse.
Context `{BuildKit}.

Definition newDockerfile (content : string) : Dockerfile :=
  let directives := parseDirectives content in
  mkDockerfile content directives noStage (syntaxOf directives) [] ∅.
Definition Parse (content : string) : goerr + Dockerfile :=
  match parseNodes content with
  | inl e => inl e
  | inr [] => inl (Errorf "received empty Dockerfile" [])
  | inr nodes => inr (indexStagesByTarget (foldl appendInstruction (newDockerfile content, true) nodes).1)
  end.

Definition sourcePaths (instruction : Node) : list string :=
  match ParseCommand instruction with
  | inr (AddCommand paths) | inr (CopyCommand paths) => paths
  | _ => []
  end.
Definition BuildContextFiles (d : Dockerfile) : list string :=
  concat (map (fun st => concat (map sourcePaths (bsInstructions (stBase st)))) (dStages d)).
End Parse.

(** ** Variables *)

Definition Vars : Type := gmap string string.
(** A pointer to a stage or to the preamble. *)
Inductive StageRef := Preamble | StageAt (i : nat).
#[export] Instance StageRef_eq_dec : EqDecision StageRef.
Proof. solve_decision. Defined.
Definition baseOf (d : Dockerfile) (ref : StageRef) : BaseStage :=
  match ref with
  | Preamble => dPreamble d
  | StageAt i => match dStages d !! i with Some st => stBase st | None => noStage end
  end.
Definition getStageIdentifier (b : BaseStage) : string := bsImage b +:+ "-" +:+ bsTarget b.

(** The last entry with a key counts. *)
Definition lastArg (variable : string) (b : BaseStage) : option KeyValuePairOptional :=
  List.find (fun arg => bool_decide (koKey arg = variable)) (rev (bsArgs b)).
Definition lastEnv (variable : string) (b : BaseStage) : option KeyValuePair :=
  List.find (fun env => bool_decide (kvKey env = variable)) (rev (bsEnvs b)).
Definition resolveFromArgs (buildArgs : Vars) (variable : string) (b : BaseStage) : option string :=
  match lastArg variable b with
  | None => None
  | Some arg =>
      let val := default "" (buildArgs !! koKey arg) in
      if negb (bool_decide (val = "")) then Some (trimQuotes val)
      else match koValue arg with Some v => Some (trimQuotes v) | None => Some "" end
  end.
Definition resolveFromBaseImageEnv (baseImageEnv : Vars) (variable : string) : option string := baseImageEnv !! variable.

(** The answers of [env.Get]; without an answer there is no result. *)
Fixpoint answer (get : string -> option (option string)) (r : Reading) : option (option string) :=
  match r with
  | Result r => Some r
  | Ask key k => match get key with Some v => answer get (k v) | None => None end
  end.

(** Of the functions below a result [None] is a call that has not returned within
    its fuel. *)
Section Resolve.
Context `{BuildKit} (d : Dockerfile) (buildArgs baseImageEnv : Vars).

Section Variable_.
(** [expandVariables], for values of variables. *)
Context (expand : string -> StageRef -> option string).

Definition resolveFromEnvs (variable : string) (ref : StageRef) : option (option string) :=
  match lastEnv variable (baseOf d ref) with
  | None => Some None
  | Some env => if bool_decide (kvValue env = "") then Some (Some "") else Some <$> expand (kvValue env) ref
  end.
Definition getParentStage (ref : StageRef) : option StageRef :=
  (fun image => match dStagesByTarget d !! image with Some i => StageAt i | None => Preamble end)
    <$> expand (bsImage (baseOf d ref)) Preamble.
Fixpoint resolveLoop (loops : nat) (startedFromPreamble : bool) (seen : gset string) (variable : string) (ref : StageRef)
    : option (option string) :=
  match loops with
  | O => None
  | S loops' =>
      let key := getStageIdentifier (baseOf d ref) in
      if bool_decide (key ∈ seen) then Some None
      else match resolveFromArgs buildArgs variable (baseOf d ref) with
           | Some value => Some (Some value)
           | None =>
               match resolveFromEnvs variable ref with
               | None => None
               | Some (Some value) => Some (Some value)
               | Some None =>
                   if bool_decide (ref = Preamble) then Some (resolveFromBaseImageEnv baseImageEnv variable)
                   else if negb startedFromPreamble then Some (resolveFromBaseImageEnv baseImageEnv variable)
                   else match getParentStage ref with
                        | None => None
                        | Some parent => resolveLoop loops' startedFromPreamble ({[key]} ∪ seen) variable parent
                        end
               end
           end
  end.
Definition resolveVariable (variable : string) (ref : StageRef) : option (option string) :=
  resolveLoop (S (S (length (dStages d)))) (bool_decide (ref = Preamble)) ∅ variable ref.
End Variable_.

Fixpoint expandVariables (fuel : nat) (val : string) (ref : StageRef) : option string :=
  match fuel with
  | O => None
  | S fuel' =>
      default val <$> answer (fun key => resolveVariable (expandVariables fuel') key ref) (readWord val)
  end.
End Resolve.

(** ** Questions *)

(** A target that does not exist is the last stage. *)
Definition stageFor (d : Dockerfile) (target : string) : option nat :=
  match dStagesByTarget d !! target with
  | Some i => Some i
  | None => match dStages d with [] => None | _ => Some (pred (length (dStages d))) end
  end.

Section Find.
Context `{BuildKit} (fuel : nat) (d : Dockerfile) (buildArgs : Vars).

Fixpoint findBaseImage (loops : nat) (target : string) (seen : gset string) : option string :=
  match loops with
  | O => None
  | S loops' =>
      match stageFor d target with
      | None => Some ""
      | Some i =>
          if bool_decide (target ∈ seen) then Some ""
          else match expandVariables d buildArgs ∅ fuel (bsImage (baseOf d (StageAt i))) Preamble with
               | None => None
               | Some image =>
                   match dStagesByTarget d !! image with
                   | Some _ => findBaseImage loops' image ({[target]} ∪ seen)
                   | None => Some image
                   end
               end
      end
  end.
Definition FindBaseImage (target : string) : option string := findBaseImage (S (S (size (dStagesByTarget d)))) target ∅.

Fixpoint findUser (baseImageEnv : Vars) (loops : nat) (seen : gset string) (stage : option nat) : option string :=
  match loops, stage with
  | O, _ => None
  | _, None => Some ""
  | S loops', Some i =>
      let key := getStageIdentifier (baseOf d (StageAt i)) in
      if bool_decide (key ∈ seen) then Some ""
      else match last (match dStages d !! i with Some st => stUsers st | None => [] end) with
           | Some user => expandVariables d buildArgs baseImageEnv fuel (kvKey user) (StageAt i)
           | None =>
               if bool_decide (bsImage (baseOf d (StageAt i)) = "") then Some ""
               else match expandVariables d buildArgs baseImageEnv fuel (bsImage (baseOf d (StageAt i))) Preamble with
                    | None => None
                    | Some image => findUser baseImageEnv loops' ({[key]} ∪ seen) (dStagesByTarget d !! image)
                    end
           end
  end.
Definition FindUserStatement (baseImageEnv : Vars) (target : string) : option string :=
  findUser baseImageEnv (S (S (length (dStages d)))) ∅ (stageFor d target).

(** src/pkg/devcontainer/build.go *)
Definition validateDockerfileTarget (target : string) : err :=
  if bool_decide (target = "") then None
  else match dStagesByTarget d !! target with
       | Some _ => None
       | None => Some (Errorf "build target does not exist" [])
       end.
Definition resolveDockerfileUser (imageEnv : list string) (imageUser target : string) : option string :=
  (fun user =>
     let user := if bool_decide (user = "") then imageUser else user in
     if bool_decide (user = "") then "root" else user) <$> FindUserStatement (ListToObject imageEnv) target.
End Find.

(** ** Text *)

Fixpoint FormatNode (node : Node) : string :=
  match node with
  | mkNode value next flags prevComment _ _ =>
      (match prevComment with
       | [] => ""
       | _ => "# " +:+ Join prevComment (nl +:+ "# ") +:+ (if bool_decide (value = "") then "" else nl)
       end)
      +:+ value +:+ foldr (fun flag acc => " " +:+ flag +:+ acc) "" flags
      +:+ match next with Some node' => " " +:+ FormatNode node' | None => "" end
  end.
Definition FormatNodes (nodes : list Node) : string := Join (map FormatNode nodes) nl.
Definition Dump (d : Dockerfile) : string :=
  Join (List.filter (fun s => negb (bool_decide (s = ""))) (map (fun st => FormatNodes (bsInstructions (stBase st))) (dStages d))) nl.

(** The lines a scanner returns: it stops, unnoticed, before one that does not fit
    in its buffer. *)
Fixpoint fitting (lines : list string) : list string :=
  match lines with
  | [] => []
  | line :: rest => if 1024 * 1024 <=? len line then [] else line :: fitting rest
  end.
Definition contentLines (content : string) : list string :=
  let '(ls, rest) := splitLines content in fitting (ls ++ if bool_decide (rest = "") then [] else [rest]).
Fixpoint replaceLines (node : Node) (lineNumber : Z) (lines : list string) : list string :=
  match lines with
  | [] => []
  | line :: rest =>
      (if (nStartLine node <=? lineNumber) && (lineNumber <=? nEndLine node) then FormatNode node else line)
        :: replaceLines node (lineNumber + 1) rest
  end.
Definition ReplaceInDockerfile (content : string) (node : Node) : string :=
  Join (replaceLines node 1 (contentLines content)) nl.

Definition lastFromNode (children : list Node) : option Node := last (List.filter (isCommand "from") children).
Definition setNext (node : Node) (next : option Node) : Node :=
  mkNode (nValue node) next (nFlags node) (nPrevComment node) (nStartLine node) (nEndLine node).
Definition wordNode (value : string) (next : option Node) : Node := mkNode value next [] [] 0 0.
(** The third word behind FROM, when the second is AS. *)
Definition stageAlias (image : Node) : option string :=
  match nNext image with
  | Some word => match nNext word with
                 | Some name => if EqualFold (nValue word) "as" then Some (nValue name) else None
                 | None => None
                 end
  | None => None
  end.
Definition EnsureFinalStageName `{BuildKit} (content defaultLastStageName : string) : goerr + (string * string) :=
  match parseNodes content with
  | inl e => inl e
  | inr nodes =>
      match lastFromNode nodes with
      | None => inl (Errorf "no FROM statement in dockerfile" [])
      | Some lastChild =>
          match nNext lastChild with
          | None => inl (Errorf "cannot parse FROM statement in dockerfile" [])
          | Some image =>
              match stageAlias image with
              | Some name => inr (name, "")
              | None =>
                  let named := setNext lastChild (Some (setNext image
                                 (Some (wordNode "AS" (Some (wordNode defaultLastStageName None)))))) in
                  inr (defaultLastStageName, ReplaceInDockerfile content named)
              end
          end
      end
  end.

(** [(?m)^[\s\t]*#[\s\t]*syntax=.*$], replaced by nothing. *)
Definition isReSpace (c : ascii) : bool := in_range 9 10 c || in_range 12 13 c || bool_decide (c = " "%char).
Fixpoint skipSpaces (s : string) : string :=
  match s with String c s' => if isReSpace c then skipSpaces s' else s | EmptyString => "" end.
Fixpoint restOfLine (s : string) : string :=
  match s with String c s' => if decide (c = "010"%char) then s else restOfLine s' | EmptyString => "" end.
(** What follows a match. *)
Definition matchDirective (s : string) : option string :=
  match skipSpaces s with
  | String c s' =>
      if decide (c = "#"%char) then
        let s'' := skipSpaces s' in
        if HasPrefix s'' "syntax=" then Some (restOfLine (string_drop 7 s'')) else None
      else None
  | EmptyString => None
  end.
Fixpoint removeDirectives (fuel : nat) (lineStart : bool) (s : string) : string :=
  match fuel with
  | O => s
  | S fuel' =>
      match (if lineStart then matchDirective s else None) with
      | Some rest => removeDirectives fuel' false rest
      | None => match s with
                | EmptyString => ""
                | String c s' => String c (removeDirectives fuel' (bool_decide (c = "010"%char)) s')
                end
      end
  end.
Definition RemoveSyntaxVersion (content : string) : string := removeDirectives (S (String.length content)) true content.

(** ** The stages of a file *)

Definition isFrom : Node -> bool := isCommand "from".
(** An instruction FROM and the instructions up to the next one. *)
Definition group : Type := Node * list Node.
Definition groupNodes (g : group) : list Node := g.1 :: g.2.
Definition envsOf (nodes : list Node) : list KeyValuePair := concat (map parseEnv (List.filter (isCommand "env") nodes)).
Definition argsOf (nodes : list Node) : list KeyValuePairOptional := map parseArg (List.filter (isCommand "arg") nodes).
Definition usersOf (nodes : list Node) : list KeyValuePair := map parseUser (List.filter (isCommand "user") nodes).
Definition stageOf (g : group) : Stage :=
  mkStage (mkBaseStage (stageNames g.1).1 (stageNames g.1).2 (envsOf g.2) (argsOf g.2) (groupNodes g)) (usersOf g.2).
Definition isGroup (g : group) : Prop := isFrom g.1 = true /\ Forall (fun n => isFrom n = false) g.2.

Lemma filter_snoc {A} (f : A -> bool) l x : List.filter f (l ++ [x]) = List.filter f l ++ if f x then [x] else [].
Proof. rewrite List.filter_app. cbn. by destruct (f x). Qed.
Lemma addEnvs_snoc image target nodes0 nodes n :
  addEnvs n (mkBaseStage image target (envsOf nodes) (argsOf nodes) nodes0) =
    mkBaseStage image target (envsOf (nodes ++ [n])) (argsOf (nodes ++ [n])) (nodes0 ++ [n]).
Proof.
  unfold addEnvs, envsOf, argsOf. cbn. rewrite !filter_snoc, !map_app, concat_app.
  destruct (isCommand "env" n), (isCommand "arg" n); cbn; by rewrite ?app_nil_r.
Qed.
Lemma addStageInstruction_snoc g n : addStageInstruction n (stageOf g) = stageOf (g.1, g.2 ++ [n]).
Proof.
  destruct g as [from body]. unfold addStageInstruction, stageOf. cbn [stBase stUsers fst snd]. rewrite addEnvs_snoc. f_equal.
  unfold usersOf. rewrite filter_snoc, map_app. destruct (isCommand "user" n); cbn; by rewrite ?app_nil_r.
Qed.
Lemma alter_last {A} (f : A -> A) l x : alter f (pred (length (l ++ [x]))) (l ++ [x]) = l ++ [f x].
Proof.
  rewrite length_app. cbn [length]. replace (pred (length l + 1)) with (length l + 0)%nat by lia. by rewrite alter_app_r.
Qed.
Definition parsedAs (d0 d : Dockerfile) (isPreamble : bool) (pre : list Node) (groups : list group) : Prop :=
  d = withStages (map stageOf groups) (withPreamble (fun _ => mkBaseStage "" "" (envsOf pre) (argsOf pre) pre) d0) /\
  Forall (fun n => isFrom n = false) pre /\ Forall isGroup groups /\ isPreamble = bool_decide (groups = []).
Lemma appendInstruction_grows d0 d isPreamble pre groups n :
  parsedAs d0 d isPreamble pre groups ->
  let '(d', isPreamble') := appendInstruction (d, isPreamble) n in
  exists pre' groups', parsedAs d0 d' isPreamble' pre' groups' /\
    pre' ++ concat (map groupNodes groups') = (pre ++ concat (map groupNodes groups)) ++ [n].
Proof.
  intros (-> & Hpre & Hgroups & ->). unfold appendInstruction. change (isCommand "from" n) with (isFrom n).
  destruct (isFrom n) eqn:Hn.
  - exists pre, (groups ++ [(n, [])]). split.
    + split; [|split; [done|split; [by apply Forall_app; split; [|constructor]|]]].
      * cbn. rewrite map_app. cbn. unfold withStages, withPreamble. cbn. do 2 f_equal. unfold stageOf, parseStage. cbn. by destruct (stageNames n).
      * rewrite bool_decide_false; [done|]. by destruct groups.
    + rewrite map_app, concat_app. cbn. by rewrite app_assoc.
  - destruct groups as [|g groups _] using rev_ind.
    + rewrite bool_decide_true by done. exists (pre ++ [n]), []. split; [|by rewrite !app_nil_r].
      split; [|split; [by apply Forall_app; split; [|constructor]|split; [constructor|done]]].
      unfold appendPreambleInstruction, withPreamble, withStages. cbn. by rewrite addEnvs_snoc.
    + rewrite bool_decide_false by (by destruct groups). exists pre, (groups ++ [(g.1, g.2 ++ [n])]). split.
      * split; [|split; [done|split; [|by destruct groups]]].
        -- unfold appendStageInstruction, withStages. cbn [dStages]. rewrite !map_app. cbn [map].
           by rewrite alter_last, addStageInstruction_snoc.
        -- apply Forall_app in Hgroups as [Hgs [Hfrom Hbody]%Forall_singleton]. apply Forall_app. split; [done|].
           apply Forall_singleton. split; [done|]. apply Forall_app. split; [done|]. by constructor.
      * rewrite !map_app, !concat_app. destruct g. cbn. by rewrite !app_nil_r, <- !app_assoc.
Qed.
Lemma appendInstructions_grow d0 nodes : forall d isPreamble pre groups,
  parsedAs d0 d isPreamble pre groups ->
  let '(d', isPreamble') := foldl appendInstruction (d, isPreamble) nodes in
  exists pre' groups', parsedAs d0 d' isPreamble' pre' groups' /\
    pre' ++ concat (map groupNodes groups') = (pre ++ concat (map groupNodes groups)) ++ nodes.
Proof.
  induction nodes as [|n nodes IH]; intros d isPreamble pre groups Hp; cbn [foldl].
  - exists pre, groups. by rewrite app_nil_r.
  - pose proof (appendInstruction_grows _ _ _ _ _ n Hp) as H1. destruct (appendInstruction (d, isPreamble) n) as [d1 b1].
    destruct H1 as (pre1 & groups1 & Hp1 & Heq1). pose proof (IH _ _ _ _ Hp1) as H2.
    destruct (foldl appendInstruction (d1, b1) nodes) as [d2 b2]. destruct H2 as (pre2 & groups2 & Hp2 & Heq2).
    exists pre2, groups2. split; [done|]. rewrite Heq2, Heq1. by rewrite <- !app_assoc.
Qed.

(** The index has the last stage of a name. *)
Definition lastNamed (stages : list Stage) (target : string) (i : nat) : Prop :=
  (exists st, stages !! i = Some st /\ bsTarget (stBase st) = target) /\ target <> "" /\
  forall j st, stages !! j = Some st -> bsTarget (stBase st) = target -> (j <= i)%nat.
Lemma indexFrom_spec stages : forall k m target i,
  indexFrom k stages m !! target = Some i <->
    (exists j, i = (k + j)%nat /\ lastNamed stages target j) \/
    (m !! target = Some i /\ (target <> "" -> Forall (fun st => bsTarget (stBase st) <> target) stages)).
Proof.
  induction stages as [|st stages IH]; intros k m target i; cbn [indexFrom].
  - split; [intros Hm; right; done|]. intros [(j & _ & (st & Hst & _) & _)|[Hm _]]; done.
  - rewrite IH. clear IH. split.
    + intros [(j & -> & (st' & Hst' & Htgt) & Hne & Hlast)|[Hm Hno]].
      * left. exists (S j). split; [lia|]. split; [by exists st'|]. split; [done|]. intros [|j'] st'' Hst''; [lia|].
        intros Heq. apply le_n_S. by eapply Hlast.
      * case_bool_decide as He.
        -- right. split; [done|]. intros Hne. constructor; [congruence|by apply Hno].
        -- apply lookup_insert_Some in Hm as [[<- <-]|[Hne Hm]].
           ++ left. exists 0%nat. split; [lia|]. split; [by exists st|]. split; [done|]. intros [|j'] st'' Hst'' Heq; [lia|].
              specialize (Hno He). rewrite Forall_forall in Hno. exfalso. apply (Hno st''); [|done]. by eapply list_elem_of_lookup_2.
           ++ right. split; [done|]. intros Ht. constructor; [done|by apply Hno].
    + intros [(j & -> & (st' & Hst' & Htgt) & Hne & Hlast)|[Hm Hno]].
      * destruct j as [|j].
        -- injection Hst' as <-. right. rewrite bool_decide_false by congruence. split.
           ++ rewrite Htgt, lookup_insert_eq. f_equal. lia.
           ++ intros _. rewrite Forall_forall. intros st'' Hin Heq. apply list_elem_of_lookup in Hin as [j Hj].
              specialize (Hlast (S j) st'' Hj Heq). lia.
        -- left. exists j. split; [lia|]. split; [by exists st'|]. split; [done|]. intros j' st'' Hj' Heq.
           specialize (Hlast (S j') st'' Hj' Heq). lia.
      * right. case_bool_decide as He.
        -- split; [done|]. intros Ht. specialize (Hno Ht). by apply Forall_cons in Hno as [_ ?].
        -- destruct (decide (target = "")) as [->|Ht].
           ++ rewrite lookup_insert_ne by done. split; [done|]. done.
           ++ apply Forall_cons in Hno as [Hst Hno]; [|done]. rewrite lookup_insert_ne by done. done.
Qed.

Section Parsing.
Context `{BuildKit}.

(** Parsing loses nothing: the instructions of the preamble and of the stages
    are those of the file in order, a stage reaches from its FROM to the next, has
    the names FROM gives and the variables and users of its own instructions, and
    a name stands for the last stage that has it. *)
Theorem Parse_partitions content nodes :
  parseNodes content = inr nodes -> nodes <> [] ->
  exists d pre groups, Parse content = inr d /\ nodes = pre ++ concat (map groupNodes groups) /\
    Forall (fun n => isFrom n = false) pre /\ Forall isGroup groups /\
    dPreamble d = mkBaseStage "" "" (envsOf pre) (argsOf pre) pre /\ dStages d = map stageOf groups /\
    forall target i, dStagesByTarget d !! target = Some i <-> lastNamed (dStages d) target i.
Proof.
  intros Hp Hne. unfold Parse. rewrite Hp. destruct nodes as [|n nodes]; [done|]. set (all := n :: nodes).
  assert (H0 : parsedAs (newDockerfile content) (newDockerfile content) true [] []) by (split; [done|split; [done|by split]]).
  pose proof (appendInstructions_grow _ all _ _ _ _ H0) as Hgrow.
  destruct (foldl appendInstruction (newDockerfile content, true) all) as [d1 b1]. destruct Hgrow as (pre & groups & Hp1 & Heq).
  destruct Hp1 as (-> & Hpre & Hgroups & _). eexists _, pre, groups. split; [done|]. split; [by rewrite Heq|].
  split; [done|]. split; [done|]. split; [done|]. split; [done|]. intros target i. cbn. rewrite indexFrom_spec. split.
  - intros [(j & -> & Hj)|[Hm _]]; [done|]. by rewrite lookup_empty in Hm.
  - intros Hi. left. by exists i.
Qed.
End Parsing.

(** ** Variables of a stage *)

(** The questions a reading of a word may come to. *)
Inductive asks : Reading -> string -> Prop :=
| asks_now key k : asks (Ask key k) key
| asks_later key k v other : asks (k v) other -> asks (Ask key k) other.
#[local] Hint Constructors asks : core.

Lemma answer_ends get r : (forall key, asks r key -> get key <> None) -> answer get r <> None.
Proof.
  induction r as [r|key k IH]; intros Hget; [done|]. cbn. destruct (get key) as [v|] eqn:Hv; [|by destruct (Hget key)].
  apply IH. intros other Ho. by apply Hget, (asks_later _ _ v).
Qed.
Lemma answer_agrees get1 get2 r res :
  (forall key v, get1 key = Some v -> get2 key = Some v) -> answer get1 r = Some res -> answer get2 r = Some res.
Proof.
  intros Hget. induction r as [r|key k IH]; [done|]. cbn. destruct (get1 key) as [v|] eqn:Hv; [|done]. rewrite (Hget _ _ Hv). apply IH.
Qed.

Section Resolving.
Context `{BuildKit} (d : Dockerfile) (buildArgs baseImageEnv : Vars).

(** The loop over parent stages ends in its first round. *)
Lemma resolveVariable_once expand variable ref :
  resolveVariable d buildArgs baseImageEnv expand variable ref =
    match resolveFromArgs buildArgs variable (baseOf d ref) with
    | Some value => Some (Some value)
    | None => match resolveFromEnvs d expand variable ref with
              | None => None
              | Some (Some value) => Some (Some value)
              | Some None => Some (resolveFromBaseImageEnv baseImageEnv variable)
              end
    end.
Proof.
  unfold resolveVariable. generalize (S (length (dStages d))). intros loops. cbn [resolveLoop].
  rewrite bool_decide_false by (apply not_elem_of_empty). case_match; [done|]. case_match; [|done]. case_match; [done|].
  by destruct (bool_decide (ref = Preamble)).
Qed.
Lemma resolveVariable_agrees expand1 expand2 variable ref v :
  (forall val r, expand1 val ref = Some r -> expand2 val ref = Some r) ->
  resolveVariable d buildArgs baseImageEnv expand1 variable ref = Some v ->
  resolveVariable d buildArgs baseImageEnv expand2 variable ref = Some v.
Proof.
  intros He. rewrite !resolveVariable_once. destruct (resolveFromArgs _ _ _); [done|]. unfold resolveFromEnvs.
  destruct (lastEnv _ _) as [env|]; [|done]. case_bool_decide; [done|]. destruct (expand1 _ ref) as [r|] eqn:Hr; [|done]. by rewrite (He _ _ Hr).
Qed.
Lemma expandVariables_more fuel : forall fuel' val ref r,
  (fuel <= fuel')%nat -> expandVariables d buildArgs baseImageEnv fuel val ref = Some r ->
  expandVariables d buildArgs baseImageEnv fuel' val ref = Some r.
Proof.
  induction fuel as [|fuel IH]; intros [|fuel'] val ref r Hle; [done|done|lia|]. cbn [expandVariables].
  destruct (answer _ (readWord val)) as [res|] eqn:Hr; [|done]. intros Heq.
  assert (Hr' : answer (fun key => resolveVariable d buildArgs baseImageEnv (expandVariables d buildArgs baseImageEnv fuel') key ref)
                  (readWord val) = Some res).
  { eapply answer_agrees; [|exact Hr]. intros key v. apply resolveVariable_agrees. intros val' r'. apply IH. lia. }
  by rewrite Hr'.
Qed.

(** No value of a stage comes back to a variable it is asked for. *)
Definition refersDown (ref : StageRef) (rank : string -> nat) : Prop :=
  forall variable env key, lastEnv variable (baseOf d ref) = Some env -> asks (readWord (kvValue env)) key ->
    (rank key < rank variable)%nat.
(** Values of variables each of which begins with one of the variables. *)
Definition refersAround (ref : StageRef) (variables : gset string) : Prop :=
  forall variable, variable ∈ variables ->
    lastArg variable (baseOf d ref) = None /\
    exists env key k, lastEnv variable (baseOf d ref) = Some env /\ kvValue env <> "" /\
      readWord (kvValue env) = Ask key k /\ key ∈ variables.

Lemma expandVariables_S fuel val ref :
  expandVariables d buildArgs baseImageEnv (S fuel) val ref =
    default val <$> answer (fun key => resolveVariable d buildArgs baseImageEnv (expandVariables d buildArgs baseImageEnv fuel) key ref)
                      (readWord val).
Proof. done. Qed.
Lemma expandVariables_down ref rank : refersDown ref rank -> forall fuel val,
  (forall key, asks (readWord val) key -> rank key < fuel)%nat ->
  expandVariables d buildArgs baseImageEnv (S fuel) val ref <> None.
Proof.
  intros Hdown. induction fuel as [|fuel IH]; intros val Hval; cbn [expandVariables].
  - destruct (answer _ (readWord val)) eqn:Ha; [done|]. exfalso. revert Ha. apply answer_ends. intros key Hk. specialize (Hval key Hk). lia.
  - destruct (answer _ (readWord val)) eqn:Ha; [done|]. exfalso. revert Ha. apply answer_ends. intros key Hk. specialize (Hval key Hk).
    rewrite resolveVariable_once. case_match; [done|]. unfold resolveFromEnvs. destruct (lastEnv key (baseOf d ref)) as [env|] eqn:Henv; [|done].
    case_bool_decide; [done|].
    assert (He : expandVariables d buildArgs baseImageEnv (S fuel) (kvValue env) ref <> None).
    { apply IH. intros key' Hk'. specialize (Hdown _ _ _ Henv Hk'). lia. }
    revert He. rewrite !expandVariables_S. by destruct (answer _ (readWord (kvValue env))).
Qed.
Lemma expandVariables_around ref variables : refersAround ref variables -> forall fuel val key k,
  readWord val = Ask key k -> key ∈ variables -> expandVariables d buildArgs baseImageEnv fuel val ref = None.
Proof.
  intros Haround. induction fuel as [|fuel IH]; intros val key k Hval Hkey; [done|]. cbn [expandVariables]. rewrite Hval. cbn [answer].
  rewrite resolveVariable_once. destruct (Haround _ Hkey) as (Harg & env & key' & k' & Henv & Hv & Hread & Hkey').
  unfold resolveFromArgs. rewrite Harg. unfold resolveFromEnvs. rewrite Henv. rewrite bool_decide_false by done.
  by rewrite (IH _ _ _ Hread Hkey').
Qed.

(** C39: Replacing variables ends, with one result however much fuel is given, when
    the values of the stage's environment do not refer to one another in a circle,
    and does not end when a word begins with a variable of such a circle - one
    whose own value it is the beginning of, say. *)
Theorem expandVariables_ends ref bound :
  (forall rank, refersDown ref rank -> (forall key, rank key <= bound)%nat ->
     forall val, exists r, forall fuel, (bound + 2 <= fuel)%nat -> expandVariables d buildArgs baseImageEnv fuel val ref = Some r) /\
  (forall variables, refersAround ref variables -> forall val key k, readWord val = Ask key k -> key ∈ variables ->
     forall fuel, expandVariables d buildArgs baseImageEnv fuel val ref = None).
Proof.
  split.
  - intros rank Hdown Hbound val.
    destruct (expandVariables d buildArgs baseImageEnv (bound + 2) val ref) as [r|] eqn:Hr.
    + exists r. intros fuel Hf. by apply (expandVariables_more (bound + 2)).
    + exfalso. revert Hr. replace (bound + 2)%nat with (S (S bound)) by lia. apply (expandVariables_down _ rank Hdown).
      intros key _. specialize (Hbound key). lia.
  - intros variables Ha val key k Hv Hk fuel. by apply (expandVariables_around _ variables Ha fuel val key k).
Qed.
End Resolving.

(** ** The image a target is built from *)

Lemma stageFor_some d target : dStages d <> [] -> is_Some (stageFor d target).
Proof. intros Hne. unfold stageFor. destruct (dStagesByTarget d !! target); [by eexists|]. destruct (dStages d); [done|by eexists]. Qed.
(** An orbit that returns to a point stays where it has been. *)
Lemma iter_returns {A} (f : A -> A) x (P : A -> Prop) m n :
  (m < n)%nat -> Nat.iter n f x = Nat.iter m f x -> (forall k, 0 < k <= n -> P (Nat.iter k f x))%nat ->
  forall k, (0 < k)%nat -> P (Nat.iter k f x).
Proof.
  intros Hmn Heq HP k. induction k as [k IH] using lt_wf_ind. intros Hk. destruct (decide (k <= n)%nat) as [Hle|Hgt]; [by apply HP|].
  assert (Hk' : Nat.iter k f x = Nat.iter (k - n + m) f x).
  { trans (Nat.iter (k - n + n) f x); [f_equal; lia|]. by rewrite !Nat.iter_add, Heq. }
  rewrite Hk'. apply IH; lia.
Qed.

Section Finding.
Context `{BuildKit} (fuel : nat) (d : Dockerfile) (buildArgs : Vars).

(** The image in the FROM of a target, with its variables replaced. *)
Definition imageOf (target : string) : string :=
  match stageFor d target with
  | Some i => default "" (expandVariables d buildArgs ∅ fuel (bsImage (baseOf d (StageAt i))) Preamble)
  | None => ""
  end.
Definition isTarget (name : string) : Prop := is_Some (dStagesByTarget d !! name).
(** The image at the end of the targets that lead from one to the next, or nothing
    if there is no end. *)
Definition leadsTo (target image : string) : Prop :=
  (exists n, image = Nat.iter (S n) imageOf target /\ ~ isTarget image /\
    forall m, (0 < m <= n)%nat -> isTarget (Nat.iter m imageOf target)) \/
  (image = "" /\ forall m, (0 < m)%nat -> isTarget (Nat.iter m imageOf target)).

Lemma targets_bound target n :
  NoDup (map (fun m => Nat.iter m imageOf target) (seq 0 (S n))) ->
  (forall m, (0 < m <= n)%nat -> isTarget (Nat.iter m imageOf target)) -> (n <= size (dStagesByTarget d))%nat.
Proof.
  intros [_ Hnd]%NoDup_cons Hin. rewrite <- size_dom.
  set (l := map (fun m => Nat.iter m imageOf target) (seq 1 n)) in *.
  assert (Hl : length l = n) by (unfold l; by rewrite length_map, length_seq).
  rewrite <- Hl at 1. rewrite <- (size_list_to_set (C:=gset string) l) by done. apply subseteq_size. intros x Hx.
  apply elem_of_list_to_set in Hx. apply elem_of_dom. unfold l in Hx. apply list_elem_of_fmap in Hx as (m & -> & Hm%elem_of_seq).
  apply Hin. lia.
Qed.
Lemma findBaseImage_leads target loops : forall n seen,
  (forall t i, stageFor d t = Some i -> expandVariables d buildArgs ∅ fuel (bsImage (baseOf d (StageAt i))) Preamble <> None) ->
  dStages d <> [] -> (loops + n = S (S (size (dStagesByTarget d))))%nat ->
  (forall t, t ∈ seen <-> exists m, (m < n)%nat /\ t = Nat.iter m imageOf target) ->
  NoDup (map (fun m => Nat.iter m imageOf target) (seq 0 n)) ->
  (forall m, (0 < m <= n)%nat -> isTarget (Nat.iter m imageOf target)) ->
  exists r, findBaseImage fuel d buildArgs loops (Nat.iter n imageOf target) seen = Some r /\ leadsTo target r.
Proof.
  induction loops as [|loops IH]; intros n seen Hends Hne Hn Hseen Hnd Hin.
  - exfalso. assert (n - 1 <= size (dStagesByTarget d))%nat; [|lia]. apply (targets_bound target).
    + by replace (S (n - 1)) with n by lia.
    + intros m Hm. apply Hin. lia.
  - cbn [findBaseImage]. set (t := Nat.iter n imageOf target). destruct (stageFor_some d t Hne) as [i Hi]. rewrite Hi.
    case_bool_decide as Ht.
    + exists "". split; [done|]. right. split; [done|]. apply Hseen in Ht as (m & Hm & Ht). by eapply iter_returns.
    + destruct (expandVariables _ _ _ _ _ _) as [image|] eqn:He; [|by destruct (Hends _ _ Hi)].
      assert (Himage : image = Nat.iter (S n) imageOf target).
      { change (image = imageOf t). unfold imageOf. by rewrite Hi, He. }
      destruct (dStagesByTarget d !! image) eqn:Hm.
      * rewrite Himage. apply IH; [done|done|lia| | |].
        -- intros t'. rewrite elem_of_union, elem_of_singleton, Hseen. split.
           ++ intros [->|(m & Hlt & ->)]; [exists n; by split; [lia|]|exists m; by split; [lia|]].
           ++ intros (m & Hlt & ->). destruct (decide (m = n)) as [->|]; [by left|]. right. exists m. by split; [lia|].
        -- rewrite seq_S, map_app. apply NoDup_app. split; [done|]. split; [|apply NoDup_singleton].
           intros x Hx ->%list_elem_of_singleton. apply Ht, Hseen. apply list_elem_of_fmap in Hx as (m & Heq & Hm'%elem_of_seq).
           exists m. split; [lia|done].
        -- intros m Hm'. destruct (decide (m = S n)) as [->|]; [|apply Hin; lia]. rewrite <- Himage. by eexists.
      * exists image. split; [done|]. left. exists n. split; [done|]. split; [|done]. unfold isTarget. rewrite Hm. by intros [? ?].
Qed.

(** C38: Asking a file with stages for the base image of a target returns, when
    the variables of the preamble do not refer to one another in a circle (they
    could by ENV instructions only, which Docker allows in stages alone): the image
    is the one at the end of the stages that lead from one to the next, each by its
    FROM with variables replaced, and empty when they lead in a circle. *)
Theorem FindBaseImage_follows target rank bound :
  refersDown d Preamble rank -> (forall key, rank key <= bound)%nat -> (bound + 2 <= fuel)%nat -> dStages d <> [] ->
  exists image, FindBaseImage fuel d buildArgs target = Some image /\ leadsTo target image.
Proof.
  intros Hdown Hbound Hfuel Hne. unfold FindBaseImage. apply (findBaseImage_leads target _ 0); [|done|lia| |constructor|lia].
  - intros t i _ Hnone. replace fuel with (S (fuel - 1)) in Hnone by lia. revert Hnone.
    apply (expandVariables_down d buildArgs ∅ Preamble rank Hdown). intros key _. specialize (Hbound key). lia.
  - intros t. split; [intros Ht; by apply elem_of_empty in Ht|]. intros (m & Hm & _). lia.
Qed.
End Finding.

(** ** The user of a target *)

Section User.
Context `{BuildKit} (fuel : nat) (d : Dockerfile) (buildArgs baseImageEnv : Vars).

Definition stageKeys : gset string :=
  {[getStageIdentifier noStage]} ∪ list_to_set (map (fun st => getStageIdentifier (stBase st)) (dStages d)).
Lemma stageKeys_size : (size stageKeys <= S (length (dStages d)))%nat.
Proof.
  unfold stageKeys. etrans; [apply size_union_le|]. rewrite size_singleton. etrans; [apply Nat.add_le_mono_l, size_list_to_set_le|].
  by rewrite length_map.
Qed.
Lemma stageKeys_in i : getStageIdentifier (baseOf d (StageAt i)) ∈ stageKeys.
Proof.
  unfold stageKeys. cbn [baseOf]. destruct (dStages d !! i) as [st|] eqn:Hi; [|set_solver].
  apply elem_of_union_r, elem_of_list_to_set, list_elem_of_fmap. exists st. split; [done|]. by eapply list_elem_of_lookup_2.
Qed.

(** Asking for the user ends, circular stages included. *)
Lemma FindUserStatement_ends target bound :
  (forall ref, exists rank, refersDown d ref rank /\ (forall key, rank key <= bound)%nat) -> (bound + 2 <= fuel)%nat ->
  FindUserStatement fuel d buildArgs baseImageEnv target <> None.
Proof.
  intros Hdown Hfuel.
  assert (Hexpand : forall val ref, expandVariables d buildArgs baseImageEnv fuel val ref <> None).
  { intros val ref. destruct (Hdown ref) as (rank & Hd & Hb). replace fuel with (S (fuel - 1)) by lia.
    apply (expandVariables_down d buildArgs baseImageEnv ref rank Hd). intros key _. specialize (Hb key). lia. }
  unfold FindUserStatement.
  assert (Hloop : forall loops seen stage, seen ⊆ stageKeys -> (S (S (length (dStages d))) <= loops + size seen)%nat ->
            findUser fuel d buildArgs baseImageEnv loops seen stage <> None).
  { induction loops as [|loops IH]; intros seen stage Hsub Hn.
    - apply subseteq_size in Hsub. pose proof stageKeys_size. lia.
    - cbn [findUser]. destruct stage as [i|]; [|done]. case_bool_decide as Hin; [done|].
      destruct (last _); [apply Hexpand|]. case_bool_decide; [done|].
      destruct (expandVariables _ _ _ _ _ _) as [image|] eqn:He; [|by destruct (Hexpand (bsImage (baseOf d (StageAt i))) Preamble)].
      apply IH.
      + intros k Hk. apply elem_of_union in Hk as [->%elem_of_singleton|Hk]; [apply stageKeys_in|by apply Hsub].
      + rewrite size_union, size_singleton by set_solver. lia. }
  apply Hloop; [set_solver|]. rewrite size_empty. lia.
Qed.
End User.

(** ** The syntax directive *)

Lemma skipSpaces_length s : (String.length (skipSpaces s) <= String.length s)%nat.
Proof. induction s as [|c s IH]; [done|]. cbn [skipSpaces]. destruct (isReSpace c); cbn [String.length]; lia. Qed.
Lemma restOfLine_length s : (String.length (restOfLine s) <= String.length s)%nat.
Proof. induction s as [|c s IH]; [done|]. cbn [restOfLine]. case_decide; cbn [String.length]; lia. Qed.
Lemma matchDirective_length s rest : matchDirective s = Some rest -> (String.length rest < String.length s)%nat.
Proof.
  unfold matchDirective. pose proof (skipSpaces_length s). destruct (skipSpaces s) as [|c s1]; [done|]. case_decide; [|done].
  destruct (HasPrefix _ _); [|done]. intros Heq. assert (rest = restOfLine (string_drop 7 (skipSpaces s1))) as -> by congruence. pose proof (restOfLine_length (string_drop 7 (skipSpaces s1))) as Hr.
  rewrite string_length_drop in Hr. pose proof (skipSpaces_length s1). change (String.length (String c s1)) with (S (String.length s1)) in *. lia.
Qed.
Lemma restOfLine_start s : restOfLine s = "" \/ exists s', restOfLine s = String "010" s'.
Proof. induction s as [|c s IH]; [by left|]. cbn [restOfLine]. case_decide as Hc; [|done]. right. exists s. by rewrite Hc. Qed.

Definition allLines (s : string) : list string := (splitLines s).1 ++ [(splitLines s).2].
Definition firstLine (s : string) : string := default "" (head (allLines s)).
Lemma allLines_cons c s :
  allLines (String c s) = if decide (c = "010"%char) then "" :: allLines s else String c (firstLine s) :: tail (allLines s).
Proof.
  unfold firstLine, allLines. rewrite splitLines_cons. case_decide; [done|]. by destruct (splitLines s) as [[|l ls] rest].
Qed.
Lemma allLines_first s : allLines s = firstLine s :: tail (allLines s).
Proof. unfold firstLine, allLines. by destruct (splitLines s).1. Qed.
Lemma firstLine_cons c s : firstLine (String c s) = if decide (c = "010"%char) then "" else String c (firstLine s).
Proof. unfold firstLine at 1. rewrite allLines_cons. by case_decide. Qed.
Lemma firstLine_prefix s : exists t, s = firstLine s +:+ t.
Proof.
  induction s as [|c s [t Ht]]; [by exists ""|]. rewrite firstLine_cons. case_decide; [by exists (String c s)|].
  exists t. rewrite string_app_cons. by f_equal.
Qed.
Lemma skipSpaces_app a b : skipSpaces a <> "" -> skipSpaces (a +:+ b) = skipSpaces a +:+ b.
Proof. induction a as [|c a IH]; [done|]. rewrite string_app_cons. cbn [skipSpaces]. by destruct (isReSpace c). Qed.
Lemma HasPrefix_longer a b p : HasPrefix a p = true -> HasPrefix (a +:+ b) p = true.
Proof.
  unfold HasPrefix. revert a. induction p as [|x p IH]; intros [|y a]; [by destruct (_ +:+ _)|done|done|]. rewrite string_app_cons.
  cbn [String.prefix]. destruct (ascii_dec x y); [apply IH|done].
Qed.
Lemma matchDirective_longer a b : matchDirective (a +:+ b) = None -> matchDirective a = None.
Proof.
  unfold matchDirective. destruct (decide (skipSpaces a = "")) as [->|Ha]; [done|]. rewrite skipSpaces_app by done.
  destruct (skipSpaces a) as [|c s1]; [done|]. rewrite string_app_cons. case_decide; [|done].
  destruct (HasPrefix (skipSpaces s1) "syntax=") eqn:Hp; [|done].
  assert (Hne : skipSpaces s1 <> "") by (intros He; by rewrite He in Hp).
  rewrite skipSpaces_app by done. by rewrite HasPrefix_longer.
Qed.
Definition noDirective (line : string) : Prop := matchDirective line = None.
Lemma removeDirectives_lines fuel : forall s lineStart, (String.length s < fuel)%nat ->
  let lines := allLines (removeDirectives fuel lineStart s) in
  Forall noDirective (tail lines) /\ if lineStart then noDirective (default "" (head lines)) else head lines = Some (firstLine s).
Proof.
  induction fuel as [|fuel IH]; intros s lineStart Hlen; [lia|]. cbn [removeDirectives].
  destruct (if lineStart then matchDirective s else None) as [rest|] eqn:Hm.
  - destruct lineStart; [|done]. apply matchDirective_length in Hm as Hl. destruct (IH rest false) as [Htail Hhead]; [lia|].
    split; [done|]. rewrite Hhead. cbn [default]. unfold matchDirective in Hm. destruct (skipSpaces s); [done|]. case_decide; [|done].
    destruct (HasPrefix _ _); [|done]. assert (rest = restOfLine (string_drop 7 (skipSpaces s0))) as -> by congruence.
    destruct (restOfLine_start (string_drop 7 (skipSpaces s0))) as [->|[s' ->]]; [done|]. by rewrite firstLine_cons.
  - destruct s as [|c s]; [split; [constructor|by destruct lineStart]|]. cbn [String.length] in Hlen.
    destruct (IH s (bool_decide (c = "010"%char))) as [Htail Hhead]; [lia|].
    rewrite allLines_cons. destruct (decide (c = "010"%char)) as [Hc|Hc].
    + rewrite bool_decide_true in Hhead, Htail |- * by done. cbn [tail head]. split.
      * rewrite allLines_first. by constructor.
      * destruct lineStart; [done|]. rewrite firstLine_cons. by rewrite decide_True.
    + rewrite bool_decide_false in Hhead, Htail |- * by done. cbn [tail head]. split; [done|].
      assert (Hf : firstLine (removeDirectives fuel false s) = firstLine s) by (unfold firstLine at 1; by rewrite Hhead).
      rewrite Hf. assert (Hs : String c (firstLine s) = firstLine (String c s)) by (rewrite firstLine_cons; by rewrite decide_False).
      rewrite Hs. destruct lineStart; [|done]. cbn [default]. destruct (firstLine_prefix (String c s)) as [t Ht].
      rewrite Ht in Hm. exact (matchDirective_longer _ t Hm).
Qed.
(** No line of the result is a directive. *)
Lemma RemoveSyntaxVersion_none content : Forall noDirective (allLines (RemoveSyntaxVersion content)).
Proof.
  destruct (removeDirectives_lines (S (String.length content)) content true) as [Htail Hhead]; [lia|].
  rewrite allLines_first. by constructor.
Qed.

(** An instruction on one line is replaced there, and no other line changes. *)
Lemma replaceLines_one node k lines : forall n, nStartLine node = n + Z.of_nat k -> nEndLine node = n + Z.of_nat k ->
  replaceLines node n lines = <[k := FormatNode node]> lines.
Proof.
  assert (Hafter : forall ls m, nEndLine node < m -> replaceLines node m ls = ls).
  { induction ls as [|l ls IHl]; intros m Hm; [done|]. cbn [replaceLines]. rewrite IHl by lia.
    destruct (Z.leb_spec m (nEndLine node)); [lia|]. by rewrite andb_false_r. }
  revert k. induction lines as [|line lines IH]; intros k n Hs He; [by destruct k|]. cbn [replaceLines]. destruct k as [|k].
  - rewrite Hafter by lia. destruct (Z.leb_spec (nStartLine node) n); [|lia]. by destruct (Z.leb_spec n (nEndLine node)); [|lia].
  - rewrite (IH k) by lia. by destruct (Z.leb_spec (nStartLine node) n); [lia|].
Qed.

(** ** Concrete files *)

Module DockerSample.
(** A reader of words with one variable, [$NAME] to the end, and of instructions of
    one line with words between single blanks. *)
Definition sampleWord (word : string) : Reading :=
  match CutChar "$" word with
  | Some (before, name) => Ask name (fun v => Result (Some (before +:+ default "" v)))
  | None => Result (Some word)
  end.
Definition chain (words : list string) (line : Z) : option Node :=
  foldr (fun word rest => Some (mkNode word rest [] [] line line)) None words.
Fixpoint nodesFrom (line : Z) (lines : list string) : list Node :=
  match lines with
  | [] => []
  | l :: rest => match chain (SplitChar " " l) line with Some node => node :: nodesFrom (line + 1) rest | None => nodesFrom (line + 1) rest end
  end.
#[export] Instance sampleKit : BuildKit := {|
  parseNodes := fun content => inr (nodesFrom 1 (contentLines content));
  parseDirectives := fun _ => [];
  ParseCommand := fun node => if bool_decide (nValue node = "COPY")
                              then inr (CopyCommand match nNext node with Some n => [nValue n] | None => [] end) else inr OtherCommand;
  readWord := sampleWord;
|}.

Definition file (lines : list string) : string := Join lines nl.
Definition parsed (lines : list string) : Dockerfile :=
  match Parse (file lines) with inr d => d | inl _ => newDockerfile "" end.
Definition twoStages : list string :=
  ["ARG VERSION=22"; "FROM debian:$VERSION AS base"; "ARG NAME=dev"; "ENV OWNER $NAME"; "USER $OWNER:staff";
   "FROM base AS app"; "COPY src /src"].

Example twoStages_answers :
  let d := parsed twoStages in
  (FindBaseImage 3 d ∅ "", FindBaseImage 3 d {["VERSION" := "23"]} "base", BuildContextFiles d) =
    (Some "debian:22", Some "debian:23", ["src"]).
Proof. vm_compute. reflexivity. Qed.
Example twoStages_users :
  let d := parsed twoStages in
  (FindUserStatement 4 d ∅ ∅ "", FindUserStatement 4 d {["NAME" := "me"]} ∅ "app", resolveDockerfileUser 4 d ∅ [] "image" "app") =
    (Some "dev", Some "me", Some "dev").
Proof. vm_compute. reflexivity. Qed.
Example circular_stages :
  let d := parsed ["FROM stage2 AS stage1"; "FROM stage1 AS stage2"] in
  (FindBaseImage 2 d ∅ "stage1", FindUserStatement 2 d ∅ ∅ "stage1") = (Some "", Some "").
Proof. vm_compute. reflexivity. Qed.
(** Two stages are taken for one when their names run together alike, and the user
    of the second is not found. *)
Example confused_stages :
  let d := parsed ["FROM b-x AS b"; "USER me"; "FROM b AS x-b"] in
  (FindUserStatement 2 d ∅ ∅ "b", FindUserStatement 2 d ∅ ∅ "x-b") = (Some "me", Some "").
Proof. vm_compute. reflexivity. Qed.
Example named_final_stage :
  EnsureFinalStageName (file ["FROM debian"; "RUN make"]) "final" = inr ("final", file ["FROM debian AS final"; "RUN make"]) /\
  EnsureFinalStageName (file ["FROM debian AS last"]) "final" = inr ("last", "").
Proof. split; vm_compute; reflexivity. Qed.
(** FROM on two lines is written twice. *)
Example doubled_stage :
  ReplaceInDockerfile (file ["FROM \"; "debian"; "RUN make"])
      (mkNode "FROM" (chain ["debian"; "AS"; "final"] 0) [] [] 1 2) =
    file ["FROM debian AS final"; "FROM debian AS final"; "RUN make"].
Proof. vm_compute. reflexivity. Qed.
Example removed_syntax :
  RemoveSyntaxVersion (file ["# syntax=docker/dockerfile:1"; "FROM debian"]) = file [""; "FROM debian"] /\
  RemoveSyntaxVersion (file ["#"; "# syntax=a"; "syntax=b"]) = file ["#"; ""; "syntax=b"].
Proof. split; vm_compute; reflexivity. Qed.

(** [ENV NAME $NAME] and a user [$NAME]. *)
Definition selfish : Dockerfile := parsed ["FROM debian"; "ENV NAME $NAME"; "USER $NAME"].
Lemma selfish_around : refersAround selfish (StageAt 0) {["NAME"]}.
Proof.
  intros variable ->%elem_of_singleton. split; [vm_compute; reflexivity|].
  eexists (mkKeyValuePair "NAME" "$NAME"), "NAME", _. split; [vm_compute; reflexivity|]. split; [done|].
  split; [vm_compute; reflexivity|by apply elem_of_singleton].
Qed.
Lemma twoStages_down : refersDown (parsed twoStages) (StageAt 0) (fun key => if decide (key = "OWNER") then 1%nat else 0%nat).
Proof.
  intros variable env key Henv Hasks. unfold lastEnv in Henv. apply List.find_some in Henv as [Hin Hkey].
  apply bool_decide_eq_true in Hkey. vm_compute in Hin. destruct Hin as [<-|[]]. cbn in Hkey. subst variable.
  vm_compute in Hasks. inversion Hasks as [|? ? ? ? Hlater]; subst; [vm_compute; lia|]. inversion Hlater.
Qed.

Lemma Parse_partitions_witness :
  exists d, Parse (file twoStages) = inr d /\ dStagesByTarget d !! "app" = Some 1%nat.
Proof.
  assert (Hp : parseNodes (file twoStages) = inr (nodesFrom 1 (contentLines (file twoStages)))) by reflexivity.
  destruct (Parse_partitions (file twoStages) _ Hp) as (d & pre & groups & Hd & _ & _ & _ & _ & _ & Hi).
  { vm_compute. done. }
  exists d. split; [exact Hd|]. vm_compute in Hd. injection Hd as <-. vm_compute. reflexivity.
Defined.
Lemma expandVariables_ends_witness :
  (exists r, forall fuel, (1 + 2 <= fuel)%nat -> expandVariables (parsed twoStages) ∅ ∅ fuel "$OWNER" (StageAt 0) = Some r) /\
  forall fuel, expandVariables selfish ∅ ∅ fuel "$NAME" (StageAt 0) = None.
Proof.
  split.
  - refine (proj1 (expandVariables_ends (parsed twoStages) ∅ ∅ (StageAt 0) 1) _ twoStages_down _ "$OWNER").
    intros key. cbn. destruct (decide (key = "OWNER")); lia.
  - refine (proj2 (expandVariables_ends selfish ∅ ∅ (StageAt 0) 0) _ selfish_around "$NAME" "NAME" _ eq_refl _).
    by apply elem_of_singleton.
Defined.
Lemma FindBaseImage_follows_witness :
  exists image, FindBaseImage 2 (parsed twoStages) ∅ "app" = Some image /\ leadsTo 2 (parsed twoStages) ∅ "app" image.
Proof.
  apply (FindBaseImage_follows 2 (parsed twoStages) ∅ "app" (fun _ => O) 0); [|lia|lia|vm_compute; done].
  intros variable env key Henv. vm_compute in Henv. discriminate.
Defined.
End DockerSample.
