(* ===== verification/Features.v ===== *)
(** Dev container features (src/pkg/devcontainer/config/feature.go and
    src/pkg/devcontainer/feature/extend.go): what a feature is, how features are
    named, and the order they are installed in. *)
From S2P Require Import Prelude GoStd GoText GoConv Json DevTypes Graph.

(** ** Data *)

Record FeatureConfigOption := mkFeatureOption {
  Default : string;
  OptionDescription : string;
  OptionType : string;
  Enum : list string;
  Proposals : list string;
}.
Record FeatureConfig := mkFeatureConfig {
  FeatureID : string;
  FeatureName : string;
  FeatureVersion : string;
  FeatureDescription : string;
  FeatureEntrypoint : string;
  Deprecated : bool;
  LegacyIds : list string;
  FeatureOptions : gmap string FeatureConfigOption;
  FeatureDocumentation : string;
  FeatureLicense : string;
  FeatureCapAdd : slice string;
  FeatureInit : option bool;
  FeaturePrivileged : option bool;
  FeatureSecurityOpt : slice string;
  FeatureMounts : slice Mount;
  InstallsAfter : list string;
  DependsOn : gmap string json;
  FeatureContainerEnv : gmap string string;
  FeatureActions : DevContainerActions;
  Annotations : gmap string string;
  FeatureOrigin : string;
  dependsOnOrder : list string;
}.
Record FeatureSet := mkFeatureSet {
  ConfigID : string;
  Version : string;
  Folder : string;
  Config : FeatureConfig;
  Options : json;
}.
Definition noFeatureConfig : FeatureConfig :=
  mkFeatureConfig "" "" "" "" "" false [] ∅ "" "" None None None None None [] ∅ ∅ noActions ∅ "" [].
Definition noFeature : FeatureSet := mkFeatureSet "" "" "" noFeatureConfig JNull.

(** [DependsOnKeys]: the captured order when it fits, else the sorted names. *)
Definition capturedOrderMatchesDeps (c : FeatureConfig) : bool :=
  bool_decide (length (dependsOnOrder c) = size (DependsOn c)) &&
  forallb (fun k => bool_decide (is_Some (DependsOn c !! k))) (dependsOnOrder c).
Definition DependsOnKeys (c : FeatureConfig) : list string :=
  if capturedOrderMatchesDeps c then dependsOnOrder c else sortStrings ((map_to_list (DependsOn c)).*1).

(** References to images as go-containerregistry parses them: with a tag, or
    another kind with its text. *)
Inductive reference := TagReference (repository tag : string) | OtherReference (text : string).
Class References := ParseReference : string -> option reference.

(** The order of a walk over a Go map.  Every walk has a name of its own, so
    that two walks over the same map need not agree. *)
Class Walks := walk : forall {A}, list string -> gmap string A -> list (string * A).
Class WalkLaws `{Walks} := walk_perm : forall {A} (at_ : list string) (m : gmap string A), walk at_ m ≡ₚ map_to_list m.

Section Order.
Context `{References} `{Walks}.

Definition normalizeFeatureID (featureID : string) : string :=
  match ParseReference featureID with
  | None => featureID
  | Some (TagReference repository _) => repository
  | Some (OtherReference text) => text
  end.
Definition normalizeVersion (version : string) : string :=
  if one_of version ["latest"; ""] then "" else TrimPrefix version "v".
Definition extractVersionFromFeatureID (featureID : string) : string :=
  match ParseReference featureID with Some (TagReference _ tag) => normalizeVersion tag | _ => "" end.
Definition featureDeduplicationKey (configID version : string) : string :=
  if decide (version = "") then configID else configID +:+ ":" +:+ version.
Definition keyOf (f : FeatureSet) : string := featureDeduplicationKey (ConfigID f) (Version f).

(** ** The graph of dependencies *)

Definition buildFeatureLookupMap (features : list FeatureSet) : gmap string FeatureSet :=
  foldl (fun lookup f => <[keyOf f := f]> lookup) ∅ features.

(** "" when there is none. *)
Definition findKeyInLookupByConfigID (at_ : list string) (configID : string) (lookup : gmap string FeatureSet) : string :=
  match lookup !! configID with
  | Some _ => configID
  | None =>
      match filter (fun p : string * FeatureSet => ConfigID p.2 = configID) (walk at_ lookup) with
      | (key, _) :: _ => key
      | [] => ""
      end
  end.

Definition hasHardDependency (f : FeatureSet) (originalID normalizedID : string) : bool :=
  let deps := DependsOn (Config f) in
  bool_decide (is_Some (deps !! originalID)) || bool_decide (is_Some (deps !! normalizedID)) ||
  existsb (fun p : string * json => bool_decide (normalizeFeatureID p.1 = normalizedID)) (map_to_list deps).

Definition FeatureGraph := Graph FeatureSet.

(** [addHardDependencies] *)
Fixpoint addHardEdges (g : FeatureGraph) (f : FeatureSet) (lookup : gmap string FeatureSet) (ids : list string)
    : FeatureGraph * err :=
  match ids with
  | [] => (g, None)
  | id :: rest =>
      let depKey := findKeyInLookupByConfigID ["hard"; keyOf f; id] (normalizeFeatureID id) lookup in
      if decide (depKey = "") then addHardEdges g f lookup rest
      else match AddEdge g depKey (keyOf f) with
           | (g', Some e) => (g', Some e)
           | (g', None) => addHardEdges (MarkEdgeHard g' depKey (keyOf f)) f lookup rest
           end
  end.
Definition addHardDependencies (g : FeatureGraph) (f : FeatureSet) (lookup : gmap string FeatureSet)
    : FeatureGraph * err :=
  addHardEdges g f lookup ((walk ["dependsOn"; keyOf f] (DependsOn (Config f))).*1).

(** [addSoftDependencies]; a search that runs out of fuel counts as one that
    finds nothing, and none does. *)
Definition softCycleError (f : FeatureSet) (normalizedID : string) : goerr :=
  Errorf "circular dependency detected: feature %q has installsAfter dependency on %q which creates a cycle"
    [AStr (ConfigID f); AStr normalizedID].
Fixpoint addSoftEdges (g : FeatureGraph) (f : FeatureSet) (lookup : gmap string FeatureSet) (ids : list string)
    : FeatureGraph * err :=
  match ids with
  | [] => (g, None)
  | id :: rest =>
      let normalizedID := normalizeFeatureID id in
      let depKey := findKeyInLookupByConfigID ["soft"; keyOf f; id] normalizedID lookup in
      if decide (depKey = "") then addSoftEdges g f lookup rest
      else if decide (depKey = keyOf f) then addSoftEdges g f lookup rest
      else if hasHardDependency f id normalizedID then addSoftEdges g f lookup rest
      else if default false (IsReachableViaHardEdges g (keyOf f) depKey) then addSoftEdges g f lookup rest
      else if default false (IsReachable g (keyOf f) depKey) then (g, Some (softCycleError f normalizedID))
      else match AddEdge g depKey (keyOf f) with
           | (g', Some e) => (g', Some e)
           | (g', None) => addSoftEdges g' f lookup rest
           end
  end.
Definition addSoftDependencies (g : FeatureGraph) (f : FeatureSet) (lookup : gmap string FeatureSet)
    : FeatureGraph * err := addSoftEdges g f lookup (InstallsAfter (Config f)).

Fixpoint addDependencies (g : FeatureGraph) (lookup : gmap string FeatureSet) (features : list FeatureSet)
    : FeatureGraph * err :=
  match features with
  | [] => (g, None)
  | f :: rest =>
      match addHardDependencies g f lookup with
      | (g', Some e) => (g', Some e)
      | (g', None) =>
          match addSoftDependencies g' f lookup with
          | (g'', Some e) => (g'', Some e)
          | (g'', None) => addDependencies g'' lookup rest
          end
      end
  end.
Definition buildFeatureDependencyGraph (features : list FeatureSet) : goerr + FeatureGraph :=
  let lookup := buildFeatureLookupMap features in
  match AddNodes NewGraph lookup with
  | (_, Some e) => inl (Errorf "failed to add features: %w" [AErr e])
  | (g, None) => match addDependencies g lookup features with (_, Some e) => inl e | (g', None) => inr g' end
  end.

(** ** Sorting; [None] is out of fuel *)

Definition getOrderedFeatureSets (features : list FeatureSet) : option (goerr + list FeatureSet) :=
  match buildFeatureDependencyGraph features with
  | inl e => Some (inl e)
  | inr g => Sort noFeature g
  end.
Definition getOrderedFeatureSetsWithPriority (features : list FeatureSet) (priority : gmap string Z)
    : option (goerr + list FeatureSet) :=
  match buildFeatureDependencyGraph features with
  | inl e => Some (inl e)
  | inr g => SortWithPriority noFeature g priority
  end.

Definition resolveDepConfigID (at_ : list string) (depID : string) (lookup : gmap string FeatureSet) : string :=
  match lookup !! depID with
  | Some _ => depID
  | None => findKeyInLookupByConfigID at_ (normalizeFeatureID depID) lookup
  end.
Definition buildOverridePriority (overrideOrder : list string) (lookup : gmap string FeatureSet) : gmap string Z :=
  foldl (fun priority '(i, id) =>
    match lookup !! id with
    | Some _ => <[id := i]> priority
    | None =>
        let key := findKeyInLookupByConfigID ["override"; Itoa i] (normalizeFeatureID id) lookup in
        if decide (key = "") then priority else <[key := i]> priority
    end) ∅ (imap (fun i id => (Z.of_nat i, id)) overrideOrder).

Fixpoint firstError {A} (check : A -> err) (l : list A) : err :=
  match l with
  | [] => None
  | x :: rest => match check x with Some e => Some e | None => firstError check rest end
  end.
Definition validateDependency (priority : gmap string Z) (lookup : gmap string FeatureSet) (f : FeatureSet)
    (featurePriority : Z) (depID : string) : err :=
  let depKey := resolveDepConfigID ["validate"; keyOf f; depID] depID lookup in
  if decide (depKey = "") then None
  else match priority !! depKey with
       | None => None
       | Some depPriority =>
           if featurePriority <? depPriority
           then Some (Errorf "overrideFeatureInstallOrder places %q (position %d) before its dependency %q (position %d)"
                        [AStr (keyOf f); AInt featurePriority; AStr depKey; AInt depPriority])
           else None
       end.
Definition validateFeature (priority : gmap string Z) (lookup : gmap string FeatureSet) (f : FeatureSet) : err :=
  match priority !! keyOf f with
  | None => None
  | Some featurePriority =>
      firstError (validateDependency priority lookup f featurePriority)
        ((walk ["validateDependsOn"; keyOf f] (DependsOn (Config f))).*1)
  end.
Definition validateOverrideOrder (priority : gmap string Z) (features : list FeatureSet)
    (lookup : gmap string FeatureSet) : err := firstError (validateFeature priority lookup) features.

Definition getSortedFeatureSets (devContainer : DevContainerConfig) (features : list FeatureSet)
    : option (goerr + list FeatureSet) :=
  match elems (OverrideFeatureInstallOrder (cBase devContainer)) with
  | [] => getOrderedFeatureSets features
  | overrideOrder =>
      let lookup := buildFeatureLookupMap features in
      let priority := buildOverridePriority overrideOrder lookup in
      match validateOverrideOrder priority features lookup with
      | Some e => Some (inl e)
      | None => getOrderedFeatureSetsWithPriority features priority
      end
  end.

(** [extractFeatureByID] and [containsFeature]: looking a feature up in a list. *)
Definition isFeature (featureID : string) (f : FeatureSet) : bool :=
  one_of (ConfigID f) [featureID; normalizeFeatureID featureID] &&
  bool_decide (Version f = extractVersionFromFeatureID featureID).
Definition extractFeatureByID (features : list FeatureSet) (featureID : string) : option FeatureSet :=
  List.find (isFeature featureID) features.
Definition containsFeature (features : list FeatureSet) (featureID : string) : bool :=
  existsb (isFeature featureID) features.
End Order.
