(* ===== verification/FeatureOrder.v ===== *)
(** The order features are installed in: after what they depend on, and after
    what they ask for unless that depends on them. *)
From S2P Require Import Prelude GoStd GoText GoConv Json DevTypes Graph GraphReach GraphSort Features.

Section FeatureOrder.
Context `{R : References} `{W : Walks} `{WL : !WalkLaws}.

(** ** The lookup table *)

Lemma lookupMap_from l : forall m k,
  foldl (fun m f => <[keyOf f := f]> m) m l !! k =
  match last (filter (fun f => keyOf f = k) l) with Some f => Some f | None => (m : gmap string FeatureSet) !! k end.
Proof.
  induction l as [|f l IH]; intros m k; [done|]. cbn [foldl]. rewrite IH, filter_cons.
  destruct (decide (keyOf f = k)) as [Hf|Hf].
  - rewrite last_cons. destruct (last _); [done|]. by rewrite Hf, lookup_insert_eq.
  - destruct (last _); [done|]. by rewrite lookup_insert_ne.
Qed.
Lemma lookupMap_Some features k f :
  buildFeatureLookupMap features !! k = Some f -> f ∈ features /\ keyOf f = k.
Proof.
  unfold buildFeatureLookupMap. rewrite lookupMap_from. destruct (last _) as [g|] eqn:Hg; [|by rewrite lookup_empty].
  intros [= <-]. apply last_Some_elem_of, list_elem_of_filter in Hg. tauto.
Qed.
Lemma lookupMap_key features f : f ∈ features -> is_Some (buildFeatureLookupMap features !! keyOf f).
Proof.
  intros Hf. unfold buildFeatureLookupMap. rewrite lookupMap_from. destruct (last _) as [g|] eqn:Hg; [done|].
  apply last_None in Hg. assert (f ∈ filter (fun g => keyOf g = keyOf f) features) by (by apply list_elem_of_filter).
  rewrite Hg in *. set_solver.
Qed.
Lemma lookupMap_dom features k : k ∈ dom (buildFeatureLookupMap features) <-> k ∈ map keyOf features.
Proof.
  rewrite elem_of_dom, list_elem_of_fmap. split.
  - intros [f [Hf <-]%lookupMap_Some]. by exists f.
  - intros (f & -> & Hf). by apply lookupMap_key.
Qed.
Lemma lookupMap_unique features f :
  NoDup (map keyOf features) -> f ∈ features -> buildFeatureLookupMap features !! keyOf f = Some f.
Proof.
  intros Hnd Hf. destruct (lookupMap_key features f Hf) as [g Hg]. rewrite Hg. f_equal.
  apply lookupMap_Some in Hg as [Hg He]. apply list_elem_of_lookup in Hf as [i Hi], Hg as [j Hj].
  assert (i = j) as ->; [|congruence]. eapply NoDup_lookup; [done|rewrite list_lookup_fmap, Hi; done|].
  rewrite list_lookup_fmap, Hj. cbn. by rewrite He.
Qed.

(** Does [g] provide what [id] names? *)
Definition provides (id : string) (g : FeatureSet) : Prop :=
  keyOf g = normalizeFeatureID id \/ ConfigID g = normalizeFeatureID id.

Lemma findKey_some at_ id lookup key :
  findKeyInLookupByConfigID at_ id lookup = key -> key <> "" ->
  exists g, lookup !! key = Some g /\ (key = id \/ ConfigID g = id).
Proof.
  unfold findKeyInLookupByConfigID. destruct (lookup !! id) as [g|] eqn:Hg; [intros <- _; by exists g; auto|].
  destruct (filter _ _) as [|[k g] l] eqn:Hf; [by intros <-|]. intros <- _. exists g.
  assert (Hin : (k, g) ∈ filter (fun p : string * FeatureSet => ConfigID p.2 = id) (walk at_ lookup)) by (rewrite Hf; left).
  apply list_elem_of_filter in Hin as [Hc Hin]. rewrite walk_perm, elem_of_map_to_list in Hin. auto.
Qed.
Lemma findKey_none at_ id lookup key g :
  (forall k, k ∈ dom lookup -> k <> "") -> lookup !! key = Some g -> key = id \/ ConfigID g = id ->
  findKeyInLookupByConfigID at_ id lookup <> "".
Proof.
  intros Hne Hg Hid. unfold findKeyInLookupByConfigID. destruct (lookup !! id) as [g'|] eqn:Hg'.
  { apply Hne. by eapply elem_of_dom_2. }
  destruct Hid as [->|Hid]; [congruence|].
  destruct (filter _ _) as [|[k h] l] eqn:Hf.
  - assert (Hin : (key, g) ∈ filter (fun p : string * FeatureSet => ConfigID p.2 = id) (walk at_ lookup)).
    { apply list_elem_of_filter. split; [done|]. by rewrite walk_perm, elem_of_map_to_list. }
    rewrite Hf in Hin. set_solver.
  - apply Hne. assert (Hin : (k, h) ∈ filter (fun p : string * FeatureSet => ConfigID p.2 = id) (walk at_ lookup)) by (rewrite Hf; left).
    apply list_elem_of_filter in Hin as [_ Hin]. rewrite walk_perm, elem_of_map_to_list in Hin. by eapply elem_of_dom_2.
Qed.

(** ** The edges *)

Context (features : list FeatureSet).
Abbreviation lookup := (buildFeatureLookupMap features).

(** An edge the dependencies of a feature give. *)
Definition hardEdge (u v : string) : Prop := exists f id,
  f ∈ features /\ keyOf f = v /\ is_Some (DependsOn (Config f) !! id) /\
  findKeyInLookupByConfigID ["hard"; keyOf f; id] (normalizeFeatureID id) lookup = u /\ u <> "".
(** An edge it asks for. *)
Definition softEdge (u v : string) : Prop := exists f id,
  f ∈ features /\ keyOf f = v /\ id ∈ InstallsAfter (Config f) /\
  findKeyInLookupByConfigID ["soft"; keyOf f; id] (normalizeFeatureID id) lookup = u /\ u <> "" /\ u <> v /\
  hasHardDependency f id (normalizeFeatureID id) = false.
Definition anyEdge (u v : string) : Prop := hardEdge u v \/ softEdge u v.

(** A graph being built: its edges are among these, its hard edges among the
    hard ones. *)
Record building (g : FeatureGraph) : Prop := {
  bu_wf : wf g;
  bu_nodes : nodes g = lookup;
  bu_edges u v : edge g u v -> anyEdge u v;
  bu_hard u v : isHard g u v = true -> hardEdge u v;
}.
(** [g'] has the edges of [g], hard ones as hard ones. *)
Record extends (g g' : FeatureGraph) : Prop := {
  ex_edges u v : edge g u v -> edge g' u v;
  ex_hard u v : isHard g u v = true -> isHard g' u v = true;
}.
#[local] Instance extends_preorder : PreOrder extends.
Proof. split; [by intros g|]. intros g1 g2 g3 [] []. split; auto. Qed.

Lemma building_AddEdge g u v :
  building g -> u ∈ dom lookup -> v ∈ dom lookup -> anyEdge u v ->
  (AddEdge g u v).2 = None /\ building (AddEdge g u v).1 /\ extends g (AddEdge g u v).1 /\ edge (AddEdge g u v).1 u v.
Proof.
  intros Hb Hu Hv Hany. destruct Hb as [Hwf Hn He Hh].
  assert (HU : HasNode g u = true) by (by apply HasNode_true; rewrite Hn).
  assert (HV : HasNode g v = true) by (by apply HasNode_true; rewrite Hn).
  split_and!.
  - unfold AddEdge. rewrite HU, HV. by case_bool_decide.
  - split; [by apply AddEdge_wf|by rewrite AddEdge_nodes| |].
    + intros a b [?|(-> & -> & _)]%AddEdge_edge; auto.
    + intros a b. rewrite isHard_AddEdge. apply Hh.
  - split; intros a b; [rewrite AddEdge_edge; auto|by rewrite isHard_AddEdge].
  - apply AddEdge_edge. by right.
Qed.
Lemma building_MarkEdgeHard g u v :
  building g -> hardEdge u v -> building (MarkEdgeHard g u v) /\ extends g (MarkEdgeHard g u v).
Proof.
  intros [Hwf Hn He Hh] Huv. split.
  - split; [by apply MarkEdgeHard_wf|done|done|]. intros a b. rewrite isHard_MarkEdgeHard.
    case_bool_decide as Hab; [destruct Hab as [-> ->]; done|]. apply Hh.
  - split; [done|]. intros a b Hab. by rewrite isHard_MarkEdgeHard, Hab, orb_true_r.
Qed.

Lemma findKey_dom at_ id : findKeyInLookupByConfigID at_ id lookup <> "" -> findKeyInLookupByConfigID at_ id lookup ∈ dom lookup.
Proof. intros Hne. destruct (findKey_some at_ id lookup _ eq_refl Hne) as (g & Hg & _). by eapply elem_of_dom_2. Qed.

(** What [f] depends on and asks for by the name [id] is settled by an edge, or
    because [f] is needed for it. *)
Definition required (g : FeatureGraph) (f : FeatureSet) (id : string) : Prop :=
  let u := findKeyInLookupByConfigID ["hard"; keyOf f; id] (normalizeFeatureID id) lookup in
  u <> "" -> edge g u (keyOf f).
Definition respected (g : FeatureGraph) (f : FeatureSet) (id : string) : Prop :=
  let u := findKeyInLookupByConfigID ["soft"; keyOf f; id] (normalizeFeatureID id) lookup in
  u <> "" -> u <> keyOf f -> hasHardDependency f id (normalizeFeatureID id) = false ->
  edge g u (keyOf f) \/ tc hardEdge (keyOf f) u.
Lemma required_extends g g' f id : extends g g' -> required g f id -> required g' f id.
Proof. intros Hx Hr Hu. by apply (ex_edges _ _ Hx), Hr. Qed.
Lemma respected_extends g g' f id : extends g g' -> respected g f id -> respected g' f id.
Proof. intros Hx Hr H1 H2 H3. destruct (Hr H1 H2 H3); [left; by apply (ex_edges _ _ Hx)|by right]. Qed.

(** The hard dependencies of one feature. *)
Lemma addHardEdges_spec f ids : f ∈ features -> (forall id, id ∈ ids -> is_Some (DependsOn (Config f) !! id)) ->
  forall g, building g ->
  exists g', addHardEdges g f lookup ids = (g', None) /\ building g' /\ extends g g' /\
    forall id, id ∈ ids -> required g' f id.
Proof.
  intros Hf Hids. induction ids as [|id ids IH]; intros g Hg.
  { exists g. split_and!; [done..|]. set_solver. }
  cbn [addHardEdges]. remember (findKeyInLookupByConfigID _ _ _) as u eqn:Eu.
  destruct (decide (u = "")) as [Hu|Hu].
  - destruct (IH ltac:(set_solver) g Hg) as (g' & Hr & Hb & Hx & He). exists g'. split_and!; [done..|].
    intros id' [->|Hid]%elem_of_cons; [intros Hu2; by rewrite <- Eu in Hu2|]. by apply He.
  - assert (Hhard : hardEdge u (keyOf f)).
    { exists f, id. split_and!; [done|done| |done|done]. apply Hids. left. }
    destruct (building_AddEdge g u (keyOf f) Hg) as (Hnone & Hb1 & Hx1 & He1);
      [subst u; by apply findKey_dom|by apply lookupMap_dom, list_elem_of_fmap_2|by left|].
    destruct (AddEdge g u (keyOf f)) as [g1 e1]. cbn in *. subst e1.
    destruct (building_MarkEdgeHard g1 u (keyOf f) Hb1 Hhard) as [Hb2 Hx2].
    destruct (IH ltac:(set_solver) _ Hb2) as (g' & Hr & Hb & Hx & He). exists g'. split_and!; [done|done| |].
    + by rewrite Hx1, Hx2.
    + intros id' [->|Hid]%elem_of_cons; [|by apply He]. intros _.
      rewrite <- Eu. apply (ex_edges _ _ Hx), (ex_edges _ _ Hx2), He1.
Qed.

Lemma stepG_anyEdge (g : FeatureGraph) u v : building g -> rtc (stepG g false) u v -> rtc anyEdge u v.
Proof. intros Hg. apply rtc_subrel. intros a b [Hab _]. by apply (bu_edges _ Hg). Qed.
Lemma stepG_hardEdge (g : FeatureGraph) u v : building g -> rtc (stepG g true) u v -> rtc hardEdge u v.
Proof. intros Hg. apply rtc_subrel. intros a b [_ Hab]. by apply (bu_hard _ Hg), Hab. Qed.

Lemma addSoftEdges_spec f ids : f ∈ features -> (forall id, id ∈ ids -> id ∈ InstallsAfter (Config f)) ->
  forall g, building g ->
  exists g' e, addSoftEdges g f lookup ids = (g', e) /\ building g' /\ extends g g' /\
    match e with Some _ => exists x, tc anyEdge x x | None => forall id, id ∈ ids -> respected g' f id end.
Proof.
  intros Hf Hids. induction ids as [|id ids IH]; intros g Hg.
  { exists g, None. split_and!; [done..|]. set_solver. }
  specialize (IH ltac:(set_solver)).
  (* the rest, once this one is respected *)
  assert (Hrest : forall g1, building g1 -> extends g g1 -> respected g1 f id ->
    exists g' e, addSoftEdges g1 f lookup ids = (g', e) /\ building g' /\ extends g g' /\
      match e with Some _ => exists x, tc anyEdge x x | None => forall id', id' ∈ id :: ids -> respected g' f id' end).
  { intros g1 Hg1 Hx1 Hid. destruct (IH g1 Hg1) as (g' & e & Hr & Hb & Hx & He). exists g', e.
    split_and!; [done|done|by rewrite Hx1|]. destruct e; [done|].
    intros id' [->|?]%elem_of_cons; [by eapply respected_extends|auto]. }
  clear IH. cbn [addSoftEdges]. unfold respected in Hrest at 1. revert Hrest.
  set (u := findKeyInLookupByConfigID _ _ _). intros Hrest.
  destruct (decide (u = "")); [by apply Hrest|].
  destruct (decide (u = keyOf f)) as [|Hne]; [by apply Hrest|].
  destruct (hasHardDependency _ _ _) eqn:Hhas; [by apply Hrest|].
  unfold IsReachableViaHardEdges, IsReachable.
  destruct (isReachable_total g true (keyOf f) u) as (b & -> & Hbr). cbn [default]. destruct b.
  { apply Hrest; [done..|]. intros _ _ _. right. assert (Hr : rtc hardEdge (keyOf f) u).
    { apply (stepG_hardEdge g); [done|by apply Hbr]. }
    apply rtc_tc in Hr as [Heq|]; [by subst u|done]. }
  assert (Hsoft : softEdge u (keyOf f)).
  { exists f, id. split_and!; try done. apply Hids. left. }
  destruct (isReachable_total g false (keyOf f) u) as (b & -> & Hbr'). cbn [default]. destruct b.
  { exists g, (Some (softCycleError f (normalizeFeatureID id))). split_and!; [done..|]. exists u.
    eapply tc_rtc_r; [apply tc_once; right; exact Hsoft|]. apply (stepG_anyEdge g); [done|by apply Hbr']. }
  destruct (building_AddEdge g u (keyOf f) Hg) as (Hnone & Hb1 & Hx1 & He1);
    [by apply findKey_dom|by apply lookupMap_dom, list_elem_of_fmap_2|by right|].
  destruct (AddEdge g u (keyOf f)) as [g1 e1]. cbn in *. subst e1. apply Hrest; [done..|]. by left.
Qed.

(** Every feature's dependencies are settled. *)
Definition settled (g : FeatureGraph) (f : FeatureSet) : Prop :=
  (forall id, is_Some (DependsOn (Config f) !! id) -> required g f id) /\
  (forall id, id ∈ InstallsAfter (Config f) -> respected g f id).

Lemma addDependencies_spec fs : (forall f, f ∈ fs -> f ∈ features) -> forall g, building g ->
  exists g' e, addDependencies g lookup fs = (g', e) /\ building g' /\ extends g g' /\
    match e with Some _ => exists x, tc anyEdge x x | None => forall f, f ∈ fs -> settled g' f end.
Proof.
  induction fs as [|f fs IH]; intros Hfs g Hg.
  { exists g, None. split_and!; [done..|]. set_solver. }
  cbn [addDependencies]. unfold addHardDependencies, addSoftDependencies. assert (Hf : f ∈ features) by (apply Hfs; left).
  assert (Hdeps : forall id, id ∈ (walk ["dependsOn"; keyOf f] (DependsOn (Config f))).*1 <-> is_Some (DependsOn (Config f) !! id)).
  { intros id. rewrite walk_perm, list_elem_of_fmap. split.
    - intros ([k v] & -> & Hv%elem_of_map_to_list). by eexists.
    - intros [v Hv]. exists (id, v). by rewrite elem_of_map_to_list. }
  destruct (addHardEdges_spec f _ Hf (fun id => proj1 (Hdeps id)) g Hg) as (g1 & -> & Hb1 & Hx1 & He1).
  destruct (addSoftEdges_spec f (InstallsAfter (Config f)) Hf ltac:(done) g1 Hb1) as (g2 & e2 & Hr2 & Hb2 & Hx2 & He2).
  rewrite Hr2. destruct e2 as [e2|].
  { exists g2, (Some e2). split_and!; [done|done|by rewrite Hx1|done]. }
  destruct (IH ltac:(set_solver) g2 Hb2) as (g3 & e3 & Hr3 & Hb3 & Hx3 & He3). exists g3, e3.
  split_and!; [done|done|by rewrite Hx1, Hx2|]. destruct e3; [done|].
  intros f' [->|?]%elem_of_cons; [|auto]. split; intros id Hid.
  - apply (required_extends g2), (required_extends g1); [done..|]. by apply He1, Hdeps.
  - apply (respected_extends g2); auto.
Qed.

Lemma buildGraph_spec :
  match buildFeatureDependencyGraph features with
  | inl _ => exists x, tc anyEdge x x
  | inr g => building g /\ forall f, f ∈ features -> settled g f
  end.
Proof.
  unfold buildFeatureDependencyGraph. destruct (AddNodes_new lookup) as (Hnone & Hn & He).
  pose proof (AddNodes_wf NewGraph lookup NewGraph_wf) as Hwf. pose proof (isHard_AddNodes lookup) as Hh.
  destruct (AddNodes NewGraph lookup) as [g0 e0] eqn:Hg0. cbn in *. subst e0.
  assert (Hb : building g0).
  { split; [done|done|intros u v Huv; by apply He in Huv|]. intros u v. by rewrite Hh. }
  destruct (addDependencies_spec features ltac:(done) g0 Hb) as (g & e & -> & Hbg & _ & Hs). by destruct e.
Qed.

(** Sorting has fuel enough. *)
Lemma getSortedFeatureSets_total devContainer : getSortedFeatureSets devContainer features <> None.
Proof.
  assert (Hsort : forall g order, building g -> (forall l, order l ≡ₚ l) ->
    sortRounds order (sortFuel g) (edges g) (inDegree g) [] <> None).
  { intros g order Hg Ho. by destruct (sortRounds_result g (bu_wf _ Hg) order Ho) as (D & W' & -> & _). }
  pose proof buildGraph_spec as Hg.
  unfold getSortedFeatureSets, getOrderedFeatureSets, getOrderedFeatureSetsWithPriority, Sort, SortWithPriority,
    mapSorted, sortNodeIDs, sortNodeIDsWithPriority.
  destruct (buildFeatureDependencyGraph features) as [e|g]; [by repeat case_match|]. destruct Hg as [Hg _].
  destruct (elems _) as [|o os]; [|case_match; [done|]].
  - specialize (Hsort g sortStrings Hg (fun l => merge_sort_Permutation _ l)). by repeat case_match.
  - specialize (Hsort g (sortByPriority (buildOverridePriority (o :: os) lookup)) Hg (fun l => merge_sort_Permutation _ l)).
    by repeat case_match.
Qed.

(** ** From keys to features *)

Definition before (l : list FeatureSet) (g f : FeatureSet) : Prop :=
  exists i j, (i < j)%nat /\ l !! i = Some g /\ l !! j = Some f.
(** [f] depends on [g], and asks for [g]. *)
Definition needs (f g : FeatureSet) : Prop :=
  f ∈ features /\ g ∈ features /\ exists id, is_Some (DependsOn (Config f) !! id) /\ provides id g.
Definition asksFor (f g : FeatureSet) : Prop :=
  f ∈ features /\ g ∈ features /\ exists id, id ∈ InstallsAfter (Config f) /\ provides id g.

Context (Hnd : NoDup (map keyOf features)) (Hne : forall f, f ∈ features -> keyOf f <> "").

Lemma key_inj f g : f ∈ features -> g ∈ features -> keyOf f = keyOf g -> f = g.
Proof.
  intros Hf%(lookupMap_unique _ _ Hnd) Hg%(lookupMap_unique _ _ Hnd) He. congruence.
Qed.
Lemma findKey_feature at_ id u :
  findKeyInLookupByConfigID at_ (normalizeFeatureID id) lookup = u -> u <> "" ->
  exists g, g ∈ features /\ keyOf g = u /\ provides id g.
Proof.
  intros Hu Hu0. destruct (findKey_some _ _ _ _ Hu Hu0) as (g & Hg & Hid).
  apply lookupMap_Some in Hg as [Hg Hk]. exists g. split_and!; [done..|]. unfold provides. by rewrite Hk.
Qed.
Lemma findKey_provided at_ id g :
  g ∈ features -> provides id g -> findKeyInLookupByConfigID at_ (normalizeFeatureID id) lookup <> "".
Proof.
  intros Hg Hp. apply (findKey_none _ _ _ (keyOf g) g); [|by apply lookupMap_unique|done].
  intros k (f & -> & Hf)%lookupMap_dom%list_elem_of_fmap. by apply Hne.
Qed.

Lemma hardEdge_needs u v : hardEdge u v -> exists f g, keyOf f = v /\ keyOf g = u /\ needs f g.
Proof.
  intros (f & id & Hf & Hv & Hid & Hu & Hu0). destruct (findKey_feature _ _ _ Hu Hu0) as (g & Hg & Hk & Hp).
  exists f, g. split_and!; [done..|]. split; [done|]. split; [done|]. by exists id.
Qed.
Lemma softEdge_asks u v : softEdge u v -> exists f g, keyOf f = v /\ keyOf g = u /\ asksFor f g.
Proof.
  intros (f & id & Hf & Hv & Hid & Hu & Hu0 & _). destruct (findKey_feature _ _ _ Hu Hu0) as (g & Hg & Hk & Hp).
  exists f, g. split_and!; [done..|]. split; [done|]. split; [done|]. by exists id.
Qed.
(** A path of edges is a path of features, the other way round. *)
Lemma edges_path (E : string -> string -> Prop) (P : FeatureSet -> FeatureSet -> Prop) u v :
  (forall a b, E a b -> exists f g, keyOf f = b /\ keyOf g = a /\ P f g) ->
  (forall f g, P f g -> f ∈ features /\ g ∈ features) ->
  tc E u v -> exists f g, keyOf f = v /\ keyOf g = u /\ f ∈ features /\ g ∈ features /\ tc P f g.
Proof.
  intros HE HP. induction 1 as [a b Hab|a b c Hab _ (f & g & Hf & Hg & Hfin & Hin & Hp)].
  - destruct (HE _ _ Hab) as (f & g & ? & ? & HP'). exists f, g. destruct (HP _ _ HP').
    split_and!; [done..|]. by apply tc_once.
  - destruct (HE _ _ Hab) as (f' & g' & Hf' & Hg' & Hp'). destruct (HP _ _ Hp'). exists f, g'.
    split_and!; [done..|]. assert (g = f') as -> by (apply key_inj; [done|done|congruence]). by eapply tc_r.
Qed.

(** Positions in a sorted list of keys are positions in the list of features. *)
Lemma before_keys g ids u v : building g -> topological g ids -> edge g u v ->
  exists a b, keyOf a = u /\ keyOf b = v /\ before (nodeData noFeature g ids) a b.
Proof.
  intros Hg (Hnd' & Hin & Hord) Huv.
  assert (Hu : u ∈ ids) by (apply Hin; by apply (wf_source _ _ v (bu_wf _ Hg))).
  assert (Hv : v ∈ ids) by (apply Hin; by apply (wf_targets _ (bu_wf _ Hg) u)).
  apply list_elem_of_lookup in Hu as [i Hi], Hv as [j Hj].
  assert (Hnode : forall k x, ids !! k = Some x -> exists a, keyOf a = x /\ nodeData noFeature g ids !! k = Some a).
  { intros k x Hk. unfold nodeData. rewrite list_lookup_fmap, Hk. cbn.
    assert (Hx : x ∈ dom (nodes g)) by (apply Hin; by eapply list_elem_of_lookup_2).
    rewrite (bu_nodes _ Hg) in *. apply elem_of_dom in Hx as [a Ha]. exists a. rewrite Ha.
    split; [by apply lookupMap_Some in Ha as [_ ?]|done]. }
  destruct (Hnode i u Hi) as (a & Ha & Hia), (Hnode j v Hj) as (b & Hb & Hjb).
  exists a, b. split_and!; [done..|]. exists i, j. split_and!; [by eapply Hord|done|done].
Qed.
Lemma nodeData_perm g ids : building g -> topological g ids -> nodeData noFeature g ids ≡ₚ features.
Proof.
  intros Hg (Hnd' & Hin & _). rewrite (bu_nodes _ Hg) in Hin.
  assert (Hp : ids ≡ₚ map keyOf features).
  { apply NoDup_Permutation; [done|done|]. intros x. by rewrite Hin, lookupMap_dom. }
  unfold nodeData. rewrite Hp, map_map, (bu_nodes _ Hg).
  assert (E : forall l, (forall f, f ∈ l -> f ∈ features) -> map (fun f => default noFeature (lookup !! keyOf f)) l = l).
  { induction l as [|f l IH]; intros Hl; [done|]. cbn [map].
    rewrite (lookupMap_unique features f) by (done || apply Hl; left). cbn. f_equal. apply IH. intros; apply Hl; by right. }
  by rewrite (E features).
Qed.

(** The graph and its sort, whatever orders the rounds. *)
Lemma sorted_spec order g : (forall l, order l ≡ₚ l) -> building g -> (forall f, f ∈ features -> settled g f) ->
  match sortRounds order (sortFuel g) (edges g) (inDegree g) [] with
  | None => False
  | Some (ids, _) =>
      if decide (length ids = size (nodes g)) then topological g ids else exists x, tc anyEdge x x
  end.
Proof.
  intros Ho Hg Hs. destruct (sortRounds_result g (bu_wf _ Hg) order Ho) as (ids & W' & -> & Hok & Hstuck).
  case_decide as Hlen; [by apply Hok|]. destruct (Hstuck Hlen) as [x Hx]. exists x. revert Hx.
  apply (tc_congruence id). intros a b. apply (bu_edges _ Hg).
Qed.

Lemma before_trans l a b c : NoDup l -> before l a b -> before l b c -> before l a c.
Proof.
  intros Hl (i & j & Hij & Hi & Hj) (j' & k & Hjk & Hj' & Hk). exists i, k.
  assert (j = j') as -> by (by eapply NoDup_lookup). split_and!; [lia|done|done].
Qed.

Lemma path_before g ids a b : building g -> topological g ids ->
  a ∈ features -> b ∈ features -> tc (edge g) (keyOf a) (keyOf b) -> before (nodeData noFeature g ids) a b.
Proof.
  intros Hg Ht. set (sorted := nodeData noFeature g ids). pose proof (nodeData_perm g ids Hg Ht) as Hperm. fold sorted in Hperm.
  assert (Hin : forall a b, before sorted a b -> a ∈ features /\ b ∈ features).
  { intros c d (i & j & _ & Hc & Hd). rewrite <- Hperm. split; by eapply list_elem_of_lookup_2. }
  assert (Hsn : NoDup sorted) by (rewrite Hperm; by eapply NoDup_fmap_1).
  assert (Hpaths : forall u v, tc (edge g) u v -> exists a b, keyOf a = u /\ keyOf b = v /\ before sorted a b).
  { induction 1 as [u v Huv|u v w Huv _ (b' & c & <- & <- & Hbc)]; [by apply (before_keys g ids)|].
    destruct (before_keys g ids u _ Hg Ht Huv) as (a1 & b1 & <- & Eb & Hab). destruct (Hin _ _ Hab), (Hin _ _ Hbc).
    exists a1, c. split_and!; [done..|]. eapply before_trans; [done|exact Hab|]. by rewrite (key_inj b1 b'). }
  intros Ha Hb (a' & b' & Ea & Eb & Hab)%Hpaths. destruct (Hin _ _ Hab).
  by rewrite <- (key_inj a' a), <- (key_inj b' b).
Qed.

(** What an order owes to the dependencies of the features. *)
Record installable (sorted : list FeatureSet) : Prop := {
  is_all : sorted ≡ₚ features;
  is_hard f id g : f ∈ features -> is_Some (DependsOn (Config f) !! id) -> g ∈ features -> provides id g ->
    exists g', g' ∈ features /\ provides id g' /\ before sorted g' f;
  is_soft f id g : f ∈ features -> id ∈ InstallsAfter (Config f) ->
    hasHardDependency f id (normalizeFeatureID id) = false -> g ∈ features -> provides id g ->
    exists g', g' ∈ features /\ provides id g' /\
      (g' = f \/ before sorted g' f \/ (before sorted f g' /\ tc needs g' f));
}.

Lemma installable_sorted g ids : building g -> (forall f, f ∈ features -> settled g f) -> topological g ids ->
  installable (nodeData noFeature g ids).
Proof.
  intros Hg Hs Ht. set (sorted := nodeData noFeature g ids).
  pose proof (fun a b => path_before g ids a b Hg Ht) as Hpath_before. fold sorted in Hpath_before.
  split; [by apply nodeData_perm| |].
  - intros f id a Hf Hid Ha Hp.
    pose proof (findKey_provided ["hard"; keyOf f; id] id a Ha Hp) as Hu.
    destruct (findKey_feature _ id _ eq_refl Hu) as (g' & Hg' & Hk & Hp'). exists g'. split_and!; [done..|].
    apply Hpath_before; [done..|]. apply tc_once. rewrite Hk. by apply (proj1 (Hs f Hf)).
  - intros f id a Hf Hid Hhas Ha Hp.
    pose proof (findKey_provided ["soft"; keyOf f; id] id a Ha Hp) as Hu.
    destruct (findKey_feature _ id _ eq_refl Hu) as (g' & Hg' & Hk & Hp'). exists g'. split_and!; [done..|].
    destruct (decide (keyOf g' = keyOf f)) as [He|He]; [left; by apply key_inj|right].
    pose proof (proj2 (Hs f Hf) id Hid Hu) as Hr. rewrite <- Hk in Hr.
    destruct (Hr He Hhas) as [Hedge'|Hpath]; [left; apply Hpath_before; [done..|by apply tc_once]|right].
    assert (Hpath' : tc (edge g) (keyOf f) (keyOf g')).
    { revert Hpath. apply (tc_congruence (fun x => x)). intros u v (h & id' & Hh & <- & Hid' & <- & Hu'). by apply (proj1 (Hs h Hh)). }
    split.
    + by apply Hpath_before.
    + destruct (edges_path hardEdge needs _ _ hardEdge_needs ltac:(by intros ?? (? & ? & _)) Hpath) as (f1 & g1 & E1 & E2 & H1 & H2 & Hn).
      by rewrite <- (key_inj f1 g'), <- (key_inj g1 f).
Qed.

(** What is sorted respects the dependencies, whatever order Go walks its maps in
    and whatever install order the user asks for. *)
Lemma getSortedFeatureSets_installable devContainer sorted :
  getSortedFeatureSets devContainer features = Some (inr sorted) -> installable sorted.
Proof.
  intros Hr. pose proof buildGraph_spec as Hg.
  assert (Hcase : exists order g, (forall l, order l ≡ₚ l) /\ buildFeatureDependencyGraph features = inr g /\
            exists ids deg, sortRounds order (sortFuel g) (edges g) (inDegree g) [] = Some (ids, deg) /\
              length ids = size (nodes g) /\ sorted = nodeData noFeature g ids).
  { unfold getSortedFeatureSets, getOrderedFeatureSets, getOrderedFeatureSetsWithPriority, Sort, SortWithPriority,
      mapSorted, sortNodeIDs, sortNodeIDsWithPriority in Hr.
    destruct (buildFeatureDependencyGraph features) as [e|g]; [by repeat case_match|].
    destruct (elems _) as [|o os]; [exists sortStrings, g|exists (sortByPriority (buildOverridePriority (o :: os) lookup)), g];
      (split; [intros l; apply merge_sort_Permutation|]); (split; [done|]);
      repeat (case_match; simplify_eq); eauto. }
  destruct Hcase as (order & g & Ho & Eg & ids & deg & Es & Hlen & ->). rewrite Eg in Hg. destruct Hg as [Hg Hs].
  pose proof (sorted_spec order g Ho Hg Hs) as Ht. rewrite Es, decide_True in Ht by done. by apply installable_sorted.
Qed.

(** C33: features are always sorted or refused; they are refused only when the
    install order of the user puts a feature before one it depends on, or when
    features need or ask for each other in a circle. *)
Theorem getSortedFeatureSets_refuses devContainer :
  (exists sorted, getSortedFeatureSets devContainer features = Some (inr sorted)) \/
  exists e, getSortedFeatureSets devContainer features = Some (inl e) /\
    ((let overrideOrder := elems (OverrideFeatureInstallOrder (cBase devContainer)) in
      validateOverrideOrder (buildOverridePriority overrideOrder lookup) features lookup = Some e) \/
     exists f, tc (fun a b => needs a b \/ asksFor a b) f f).
Proof.
  assert (Hcycle : (exists x, tc anyEdge x x) -> exists f, tc (fun a b => needs a b \/ asksFor a b) f f).
  { intros [x Hx]. apply (edges_path anyEdge (fun a b => needs a b \/ asksFor a b)) in Hx as (f & g & Ef & Eg & Hf & Hg & Hp).
    - rewrite <- (key_inj f g) in Hp by (done || congruence). by exists f.
    - intros a b [(f & g & ? & ? & ?)%hardEdge_needs|(f & g & ? & ? & ?)%softEdge_asks]; exists f, g; auto.
    - intros f g [(? & ? & _)|(? & ? & _)]; done. }
  pose proof buildGraph_spec as Hg.
  assert (Hsort : forall g order toError, building g /\ (forall f, f ∈ features -> settled g f) -> (forall l, order l ≡ₚ l) ->
    let r := mapSorted noFeature g (match sortRounds order (sortFuel g) (edges g) (inDegree g) [] with
             | None => None
             | Some (ids, deg) => if decide (length ids = size (nodes g)) then Some (inr ids) else Some (inl (toError deg))
             end) in
    (exists sorted, r = Some (inr sorted)) \/ exists e, r = Some (inl e) /\ exists x, tc anyEdge x x).
  { intros g order toError [Hb Hs] Ho. pose proof (sorted_spec order g Ho Hb Hs) as Ht. cbv zeta.
    destruct (sortRounds _ _ _ _ _) as [[ids deg]|]; [|done]. case_decide; cbn; [left|right]; eauto. }
  unfold getSortedFeatureSets, getOrderedFeatureSets, getOrderedFeatureSetsWithPriority.
  destruct (elems (OverrideFeatureInstallOrder (cBase devContainer))) as [|o os] eqn:Ho;
    [|destruct (validateOverrideOrder _ _ _) as [e|] eqn:Hv; [right; eauto 10|]];
    (destruct (buildFeatureDependencyGraph features) as [e|g]; [right; exists e; auto|]).
  - destruct (Hsort g sortStrings (fun deg => cycleError ((map_to_list deg).*1)) Hg) as [?|(e & He & Hx)];
      [intros l; apply merge_sort_Permutation|by left|right; eauto].
  - destruct (Hsort g (sortByPriority (buildOverridePriority (o :: os) lookup)) circularDependencyError Hg) as [?|(e & He & Hx)];
      [intros l; apply merge_sort_Permutation|by left|right; eauto].
Qed.
End FeatureOrder.
