(* ===== verification/FeatureOptions.v ===== *)
(** Options of features (src/pkg/devcontainer/feature/options.go), the variables and
    the script a feature is installed with (features.go), and what that script
    promises: no secret reaches it, and the shell prints the texts in it as they
    are. *)
From S2P Require Import Prelude GoStd GoText GoConv GoPath Json DevTypes Features.

Definition optionTypeBoolean := "boolean".
Definition optionTypeSecret := "secret".

(** The environment, the user and the secrets file secrets come from. *)
Record SecretOptions := mkSecretOptions {
  SecretsFile : string;
  Prompter : option (string -> string -> goerr + string);
}.
Class SecretWorld := {
  Getenv : string -> string;
  parseFeatureSecretsFile : string -> goerr + gmap string (gmap string string);
}.

(** ** Identifiers *)

Definition isWord (r : string) : bool :=
  match r with
  | String c EmptyString => is_digit c || in_range 65 90 c || in_range 97 122 c || bool_decide (c = "_"%char)
  | _ => false
  end.
(** [featureSafeIDRegex1]: every character that is not a word character; bytes
    that are no character count as one each. *)
Definition wordsOnly (s : string) : string := mapRunes (fun r => if isWord r then r else "_") (mapRunes id s).
(** [featureSafeIDRegex2]: digits and underscores at the start. *)
Definition leadingUnderscore (s : string) : string :=
  let '(lead, rest) := span (fun c => is_digit c || bool_decide (c = "_"%char)) s in
  if bool_decide (lead = "") then rest else "_" +:+ rest.
Definition getFeatureSafeID (featureID : string) : string := ToUpper (leadingUnderscore (wordsOnly featureID)).
Example safe_ids : getFeatureSafeID "ghcr.io/a-b/c:1" = "GHCR_IO_A_B_C_1" /\ getFeatureSafeID "12_x" = "_X".
Proof. vm_compute. done. Qed.

(** ** Values *)

Definition toOptionsMap (userOptions : json) (cfg : FeatureConfig) : option (gmap string json) :=
  match userOptions with
  | JObject fields => Some (list_to_map fields)
  | JString t =>
      match FeatureOptions cfg !! "version" with
      | Some _ => Some {["version" := JString t]}
      | None => None
      end
  | _ => None
  end.

Definition validateOptionValue (featureID name : string) (o : FeatureConfigOption) (value : json) : err :=
  let strVal := sprintV value in
  if bool_decide (OptionType o = optionTypeBoolean) && negb (EqualFold strVal "true") && negb (EqualFold strVal "false")
  then Some (Errorf "feature %q option %q: must be true or false, got %q" [AStr featureID; AStr name; AStr strVal])
  else if negb (bool_decide (Enum o = [])) && negb (bool_decide (strVal ∈ Enum o))
  then Some (Errorf "feature %q option %q: must be one of %v, got %q"
               [AStr featureID; AStr name; AStr ("[" +:+ Join (Enum o) " " +:+ "]"); AStr strVal])
  else None.
Definition validateOption (featureID : string) (cfg : FeatureConfig) (option : string * json) : err :=
  match FeatureOptions cfg !! option.1 with
  | None => None
  | Some o => validateOptionValue featureID option.1 o option.2
  end.
Definition ValidateFeatureOptions `{Walks} (featureID : string) (cfg : FeatureConfig) (userOptions : json) : err :=
  if bool_decide (FeatureOptions cfg = ∅) then None
  else firstError (validateOption featureID cfg)
         (walk ["userOptions"; featureID] (default ∅ (toOptionsMap userOptions cfg))).

(** ** Secrets *)

Section Secrets.
Context `{Walks} `{SecretWorld}.

Record secretResolver := mkSecretResolver {
  rFeatureID : string;
  rSafeID : string;
  rFileData : gmap string (gmap string string);
  rPrompter : option (string -> string -> goerr + string);
}.
Definition newSecretResolver (featureID : string) (opts : option SecretOptions) : goerr + secretResolver :=
  match opts with
  | None => inr (mkSecretResolver featureID (getFeatureSafeID featureID) ∅ None)
  | Some o =>
      let data := if decide (SecretsFile o = "") then inr ∅ else parseFeatureSecretsFile (SecretsFile o) in
      match data with
      | inl e => inl e
      | inr d => inr (mkSecretResolver featureID (getFeatureSafeID featureID) d (Prompter o))
      end
  end.
Definition lookupFileSecret (r : secretResolver) (name : string) : option string :=
  match rFileData r !! rFeatureID r with Some secrets => secrets !! name | None => None end.

Definition envVarName (r : secretResolver) (name : string) : string :=
  "DEVCONTAINER_FEATURE_SECRET_" +:+ rSafeID r +:+ "_" +:+ getFeatureSafeID name.
Definition missingSecret (r : secretResolver) (name : string) : goerr :=
  Errorf "feature %q: secret option %q is required but no value was provided. Set via devcontainer.json options, environment variable %s, --feature-secrets-file, or run in an interactive terminal to be prompted"
    [AStr (rFeatureID r); AStr name; AStr (envVarName r name)].
Definition resolveSecret (r : secretResolver) (name : string) (o : FeatureConfigOption) : goerr + string :=
  let envVal := Getenv (envVarName r name) in
  if bool_decide (envVal <> "") then inr envVal
  else match lookupFileSecret r name with
       | Some val => inr val
       | None =>
           if bool_decide (Default o <> "") then inr (Default o)
           else match rPrompter r with
                | None => inl (missingSecret r name)
                | Some prompt =>
                    match prompt (rFeatureID r) name with
                    | inl e => inl (Errorf "feature %q: prompt for secret option %q: %w"
                                      [AStr (rFeatureID r); AStr name; AErr e])
                    | inr val => if bool_decide (val <> "") then inr val else inl (missingSecret r name)
                    end
                end
       end.

Fixpoint resolveEachSecret (r : secretResolver) (options : list (string * FeatureConfigOption))
    (result : gmap string json) : goerr + gmap string json :=
  match options with
  | [] => inr result
  | (name, o) :: rest =>
      if bool_decide (OptionType o <> optionTypeSecret) then resolveEachSecret r rest result
      else match result !! name with
           | Some _ => resolveEachSecret r rest result
           | None =>
               match resolveSecret r name o with
               | inl e => inl e
               | inr val => resolveEachSecret r rest (<[name := JString val]> result)
               end
           end
  end.
Definition ResolveSecretOptions (featureID : string) (cfg : FeatureConfig) (userOptions : gmap string json)
    (opts : option SecretOptions) : goerr + gmap string json :=
  if bool_decide (FeatureOptions cfg = ∅) then inr userOptions
  else match newSecretResolver featureID opts with
       | inl e => inl e
       | inr r => resolveEachSecret r (walk ["options"; featureID] (FeatureOptions cfg)) userOptions
       end.

(** [IsSecretOption] *)
Definition IsSecretOption (o : FeatureConfigOption) : bool := bool_decide (OptionType o = optionTypeSecret).
(** [resolveSecretsForFeature] *)
Definition resolveSecretsForFeature (featureID : string) (cfg : FeatureConfig) (featureOptions : json)
    (opts : option SecretOptions) : goerr + json :=
  if negb (existsb (fun p : string * FeatureConfigOption => IsSecretOption p.2) (map_to_list (FeatureOptions cfg)))
  then inr featureOptions
  else match ResolveSecretOptions featureID cfg (default ∅ (toOptionsMap featureOptions cfg)) opts with
       | inl e => inl e
       | inr resolved => inr (JObject (map_to_list resolved))
       end.
End Secrets.

(** ** Variables *)

Definition getFeatureDefaults (cfg : FeatureConfig) : gmap string json :=
  (fun o => JString (Default o)) <$> FeatureOptions cfg.
Definition getFeatureValueObject (cfg : FeatureConfig) (featureOptions : json) : gmap string json :=
  match featureOptions with
  | JObject fields => list_to_map fields ∪ getFeatureDefaults cfg
  | JString t =>
      match FeatureOptions cfg !! "version" with
      | Some _ => <["version" := JString t]> (getFeatureDefaults cfg)
      | None => getFeatureDefaults cfg
      end
  | _ => getFeatureDefaults cfg
  end.
Definition dquote : string := String "034"%char "".
Definition variableLine (p : string * json) : string :=
  getFeatureSafeID p.1 +:+ "=" +:+ dquote +:+ sprintV p.2 +:+ dquote.
Definition GetFeatureEnvVariables (cfg : FeatureConfig) (featureOptions : json) : list string :=
  sortStrings (map variableLine (map_to_list (getFeatureValueObject cfg featureOptions))).

(** ** The install script *)

Definition escapeQuotesForShell (s : string) : string := ReplaceChar "'" "'\''" s.

Definition secretKeys (cfg : FeatureConfig) : list string :=
  map (fun p => getFeatureSafeID p.1)
    (filter (fun p : string * FeatureConfigOption => OptionType p.2 = optionTypeSecret) (map_to_list (FeatureOptions cfg))).
Definition maskOption (secrets : list string) (opt : string) : string :=
  match CutChar "=" opt with
  | Some (key, _) => if bool_decide (key ∈ secrets) then key +:+ "=" +:+ dquote +:+ "****" +:+ dquote else opt
  | None => opt
  end.
Definition maskSecretOptions (cfg : FeatureConfig) (options : list string) : list string :=
  map (maskOption (secretKeys cfg)) options.

Definition lines (l : list string) : string := Join l nl +:+ nl.
Definition GetFeatureInstallWrapperScript (idWithoutVersion : string) (cfg : FeatureConfig) (options : list string)
    : string :=
  let id := escapeQuotesForShell idWithoutVersion in
  let name := escapeQuotesForShell (FeatureName cfg) in
  let description := escapeQuotesForShell (FeatureDescription cfg) in
  let version := escapeQuotesForShell (FeatureVersion cfg) in
  let documentation := escapeQuotesForShell (FeatureDocumentation cfg) in
  let optionsIndented := escapeQuotesForShell ("    " +:+ Join (maskSecretOptions cfg options) (nl +:+ "    ")) in
  let echoWarning :=
    if Deprecated cfg
    then "echo '(!) WARNING: Using the deprecated Feature " +:+ dquote +:+ id +:+ dquote +:+
         ". This Feature will no longer receive any further updates/support.\n'"
    else "" in
  let errorMessage := "ERROR: Feature " +:+ dquote +:+ name +:+ dquote +:+ " (" +:+ id +:+ ") failed to install!" in
  let troubleshootingMessage :=
    if bool_decide (documentation = "") then ""
    else " Look at the documentation at " +:+ documentation +:+ " for help troubleshooting this error." in
  let tab := String "009"%char "" in
  lines
    ["#!/bin/sh"; "set -e"; "";
     "on_exit () {";
     tab +:+ "[ $? -eq 0 ] && exit";
     tab +:+ "echo '" +:+ errorMessage +:+ troubleshootingMessage +:+ "'";
     "}"; "";
     "trap on_exit EXIT"; "";
     "set -a";
     ". ../devcontainer-features.builtin.env";
     ". ./devcontainer-features.env";
     "set +a"; "";
     "echo ===========================================================================";
     echoWarning;
     "echo 'Feature       : " +:+ name +:+ "'";
     "echo 'Description   : " +:+ description +:+ "'";
     "echo 'Id            : " +:+ id +:+ "'";
     "echo 'Version       : " +:+ version +:+ "'";
     "echo 'Documentation : " +:+ documentation +:+ "'";
     "echo 'Options       :'";
     "echo '" +:+ optionsIndented +:+ "'";
     "echo ==========================================================================="; "";
     "chmod +x ./install.sh";
     "./install.sh"].

(** ** Comparing variable lines *)

Lemma ascii_compare_refl c : Ascii.compare c c = Eq.
Proof. apply N.compare_refl. Qed.
Lemma compare_app p a b : String.compare (p +:+ a) (p +:+ b) = String.compare a b.
Proof.
  induction p as [|c p IH]; [done|]. rewrite !string_app_cons. cbn.
  rewrite ascii_compare_refl. exact IH.
Qed.

(** Two different keys decide before their values do. *)
Lemma compare_keys c k1 : forall k2 x y x' y',
  hasChar c k1 = false -> hasChar c k2 = false -> k1 <> k2 ->
  String.compare (k1 +:+ String c x) (k2 +:+ String c y) = String.compare (k1 +:+ String c x') (k2 +:+ String c y').
Proof.
  induction k1 as [|a k1 IH]; intros [|b k2] x y x' y' H1 H2 Hne; [done|..]; rewrite ?string_app_cons;
    change ("" +:+ ?z) with z; cbn [hasChar] in *.
  - apply orb_false_iff in H2 as [Hb _]. apply bool_decide_eq_false in Hb. cbn.
    destruct (Ascii.compare c b) eqn:Hc; [|done..]. by apply Ascii.compare_eq_iff in Hc.
  - apply orb_false_iff in H1 as [Ha _]. apply bool_decide_eq_false in Ha. cbn.
    destruct (Ascii.compare a c) eqn:Hc; [|done..]. by apply Ascii.compare_eq_iff in Hc.
  - apply orb_false_iff in H1 as [_ H1]. apply orb_false_iff in H2 as [_ H2]. cbn.
    destruct (Ascii.compare a b) eqn:Hc; [|done..]. apply Ascii.compare_eq_iff in Hc. subst b.
    apply IH; [done|done|congruence].
Qed.
Lemma CutChar_app c a b : hasChar c a = false -> CutChar c (a +:+ String c b) = Some (a, b).
Proof.
  induction a as [|d a IH]; cbn [hasChar]; [intros _; change ("" +:+ ?z) with z; cbn; by rewrite decide_True|].
  intros [Hd Ha]%orb_false_iff. apply bool_decide_eq_false in Hd. rewrite string_app_cons. cbn [CutChar].
  by rewrite decide_False, IH.
Qed.

(** ** Safe identifiers *)

Lemma mapRunes_hasChar c f : hasChar c replacement = false -> forall s,
  (forall r, (hasChar c s = false -> hasChar c r = false) -> hasChar c (f r) = false) -> hasChar c (mapRunes f s) = false.
Proof.
  intros Hrep s. induction s as [s IH] using (induction_ltof1 _ String.length). unfold ltof in IH. intros Hf.
  destruct s as [|b0 s1]; [done|]. cbn [mapRunes].
  assert (Hpart : forall r rest, String b0 s1 = r +:+ rest -> r <> "" -> hasChar c (f r +:+ mapRunes f rest) = false).
  { intros r rest E Hr. rewrite hasChar_app, Hf, IH; [done| | |].
    - rewrite E, string_length_app. destruct r; [done|]. cbn. lia.
    - intros r' Hr'. apply Hf. rewrite E, hasChar_app. intros [_ Hrest]%orb_false_iff. by apply Hr'.
    - rewrite E, hasChar_app. by intros [? _]%orb_false_iff. }
  assert (Hbad : hasChar c (replacement +:+ mapRunes f s1) = false).
  { rewrite hasChar_app, Hrep, IH; [done|cbn; lia|]. intros r' Hr'. apply Hf. cbn [hasChar].
    intros [_ Hrest]%orb_false_iff. by apply Hr'. }
  destruct (rune_len (String b0 s1)) as [|[|[|[|[|n]]]]]; [done| | | | |done].
  - by apply Hpart.
  - destruct s1 as [|b1 s2]; [done|]. by apply Hpart.
  - destruct s1 as [|b1 [|b2 s3]]; [done..|]. by apply Hpart.
  - destruct s1 as [|b1 [|b2 [|b3 s4]]]; [done..|]. by apply Hpart.
Qed.
Lemma hasChar_span c p s : hasChar c s = false -> hasChar c (span p s).2 = false.
Proof. rewrite <- (span_join p s) at 1. rewrite hasChar_app. by intros [_ ?]%orb_false_iff. Qed.

Lemma safeID_key name : hasChar "=" (getFeatureSafeID name) = false.
Proof.
  unfold getFeatureSafeID, ToUpper. apply mapRunes_hasChar; [done|].
  assert (Hw : hasChar "=" (leadingUnderscore (wordsOnly name)) = false).
  { assert (Hw : hasChar "=" (wordsOnly name) = false).
    { apply mapRunes_hasChar; [done|]. intros r _. destruct (isWord r) eqn:Hr; [|done].
      destruct r as [|a [|]]; [done| |done]. cbn in *. rewrite orb_false_r. apply bool_decide_eq_false. by intros ->. }
    unfold leadingUnderscore. pose proof (hasChar_span "=" (fun c => is_digit c || bool_decide (c = "_"%char)) _ Hw) as Hs.
    destruct (span _ _) as [lead rest]. cbn in Hs. case_bool_decide; [done|]. rewrite hasChar_app. by rewrite Hs. }
  intros r Hr. specialize (Hr Hw). unfold foldCase. destruct r as [|a [|b r]]; [done| |].
  - cbn in *. rewrite orb_false_r in *. apply bool_decide_eq_false in Hr. apply bool_decide_eq_false.
    unfold to_upper. destruct (in_range 97 122 a) eqn:Hin; [|done].
    revert Hin. clear. destruct a as [[] [] [] [] [] [] [] []]; vm_compute; by intros.
  - repeat case_decide; done.
Qed.

(** ** Masked lines *)

Section Masked.
Context (secrets : list string).
Abbreviation masked := (fun p : string * json => maskOption secrets (variableLine p)).

Lemma variableLine_key p : exists rest, variableLine p = getFeatureSafeID p.1 +:+ String "=" rest.
Proof. by eexists. Qed.
Lemma maskOption_line p :
  maskOption secrets (variableLine p) =
  if bool_decide (getFeatureSafeID p.1 ∈ secrets)
  then getFeatureSafeID p.1 +:+ "=" +:+ dquote +:+ "****" +:+ dquote else variableLine p.
Proof.
  unfold maskOption. destruct (variableLine_key p) as [rest Hr]. rewrite Hr at 1.
  by rewrite (CutChar_app _ _ _ (safeID_key p.1)).
Qed.
(** Masking keeps the order of lines. *)
Lemma masked_le p q : String.le (variableLine p) (variableLine q) -> String.le (masked p) (masked q).
Proof.
  cbv beta. rewrite !maskOption_line. intros Hle.
  destruct (decide (getFeatureSafeID p.1 = getFeatureSafeID q.1)) as [He|He].
  - rewrite <- He. case_bool_decide; [reflexivity|done].
  - assert (Hkeys : forall x y x' y', String.le (getFeatureSafeID p.1 +:+ String "=" x) (getFeatureSafeID q.1 +:+ String "=" y) ->
      String.le (getFeatureSafeID p.1 +:+ String "=" x') (getFeatureSafeID q.1 +:+ String "=" y')).
    { intros x y x' y'. unfold String.le, String.leb.
      by rewrite (compare_keys _ _ _ x y x' y' (safeID_key p.1) (safeID_key q.1) He). }
    do 2 case_bool_decide; revert Hle; apply Hkeys.
Qed.

Lemma sorted_masked (ps : list (string * json)) :
  StronglySorted String.le (map (maskOption secrets) (sortStrings (map variableLine ps))).
Proof.
  assert (Hs : StronglySorted String.le (sortStrings (map variableLine ps))) by apply (StronglySorted_merge_sort String.le).
  assert (Hin : forall l, l ∈ sortStrings (map variableLine ps) -> exists p, l = variableLine p).
  { intros l. unfold sortStrings. rewrite merge_sort_Permutation. intros (p & -> & _)%list_elem_of_fmap. by exists p. }
  revert Hs Hin. induction (sortStrings _) as [|l ls IH]; intros Hs Hin; [constructor|].
  inversion Hs as [|? ? Hs' Hall]; subst. cbn [map]. constructor; [apply IH; [done|]; intros; apply Hin; by right|].
  rewrite Forall_forall in *. intros y (x & -> & Hx)%list_elem_of_fmap.
  destruct (Hin l) as [p ->]; [left|]. destruct (Hin x) as [q ->]; [by right|]. by apply (masked_le p q), Hall.
Qed.

(** Two assignments of values that agree but for the secrets. *)
Definition sameButSecrets (m1 m2 : gmap string json) : Prop := forall name,
  (getFeatureSafeID name ∉ secrets -> m1 !! name = m2 !! name) /\ (is_Some (m1 !! name) <-> is_Some (m2 !! name)).

Lemma masked_keys (m : gmap string json) :
  map masked (map_to_list m) = map (fun k => masked (k, default JNull (m !! k))) (map_to_list m).*1.
Proof.
  change (map_to_list m).*1 with (map fst (map_to_list m)). rewrite map_map. apply list_fmap_ext. intros i [k v] Hi.
  assert (Hv : m !! k = Some v) by (apply elem_of_map_to_list; by eapply list_elem_of_lookup_2). cbn. by rewrite Hv.
Qed.
Lemma masked_same m1 m2 : sameButSecrets m1 m2 -> map masked (map_to_list m1) ≡ₚ map masked (map_to_list m2).
Proof.
  intros Hs. rewrite !masked_keys. assert (Hk : (map_to_list m1).*1 ≡ₚ (map_to_list m2).*1).
  { apply NoDup_Permutation; [apply NoDup_fst_map_to_list..|]. intros k.
    assert (Hin : forall m : gmap string json, k ∈ (map_to_list m).*1 <-> is_Some (m !! k)).
    { intros m. rewrite list_elem_of_fmap. split; [intros ([k' v] & -> & Hv%elem_of_map_to_list); by eexists|].
      intros [v Hv]. exists (k, v). by rewrite elem_of_map_to_list. }
    rewrite !Hin. apply Hs. }
  rewrite <- Hk. apply reflexive_eq, list_fmap_ext. intros i k _. cbv beta. rewrite !maskOption_line.
  cbn [fst]. case_bool_decide as Hsec; [done|]. by rewrite (proj1 (Hs k) Hsec).
Qed.
Lemma masked_lines_same m1 m2 : sameButSecrets m1 m2 ->
  map (maskOption secrets) (sortStrings (map variableLine (map_to_list m1))) =
  map (maskOption secrets) (sortStrings (map variableLine (map_to_list m2))).
Proof.
  intros Hs. apply (StronglySorted_unique String.le); [apply sorted_masked..|].
  unfold sortStrings. rewrite !merge_sort_Permutation, !map_map. by apply masked_same.
Qed.
End Masked.

(** C26: the script a feature is installed with does not depend on the values of
    its secrets: two sets of options that differ in nothing else give the same
    script, so it can be shown and kept where the secrets must not. *)
Theorem script_hides_secrets id cfg options1 options2 :
  sameButSecrets (secretKeys cfg) (getFeatureValueObject cfg options1) (getFeatureValueObject cfg options2) ->
  GetFeatureInstallWrapperScript id cfg (GetFeatureEnvVariables cfg options1) =
  GetFeatureInstallWrapperScript id cfg (GetFeatureEnvVariables cfg options2).
Proof.
  intros Hs. unfold GetFeatureInstallWrapperScript, maskSecretOptions, GetFeatureEnvVariables.
  by rewrite (masked_lines_same _ _ _ Hs).
Qed.

(** ** Quoting *)

(** The word the shell makes of quoted text: nothing is special between single
    quotes, and a backslash outside of them quotes one character. *)
Fixpoint shellWord (quoted : bool) (s : string) : option string :=
  match s with
  | EmptyString => if quoted then None else Some ""
  | String c s' =>
      if quoted then if decide (c = "'"%char) then shellWord false s' else String c <$> shellWord true s'
      else if decide (c = "'"%char) then shellWord true s'
      else if decide (c = "\"%char) then match s' with String d s'' => String d <$> shellWord false s'' | _ => None end
      else None
  end.

(** between single quotes, what is escaped is printed by the shell as it is;
    no text of a feature can leave the quotes. *)
Theorem escape_roundtrip s rest : shellWord true (escapeQuotesForShell s +:+ "'" +:+ rest) = String.append s <$> shellWord false rest.
Proof.
  unfold escapeQuotesForShell. induction s as [|c s IH].
  - change ("" +:+ ?z) with z. change ("'" +:+ rest) with (String "'" rest). cbn [ReplaceChar].
    change ("" +:+ ?z) with z. cbn [shellWord]. rewrite decide_True by done. by destruct (shellWord false rest).
  - cbn [ReplaceChar]. rewrite <- string_app_assoc. case_decide as Hc.
    + subst c. change ("'\''" +:+ ?z) with (String "'" (String "\" (String "'" (String "'" z)))).
      cbn [shellWord]. rewrite !decide_True by done. rewrite decide_False by done. rewrite IH.
      by destruct (shellWord false rest).
    + change (String c "" +:+ ?z) with (String c z). cbn [shellWord]. rewrite decide_False by done. rewrite IH.
      by destruct (shellWord false rest).
Qed.
