(* ===== verification/FeatureLock.v ===== *)
(** The lockfile of features (src/pkg/devcontainer/feature/lockfile.go): what was
    resolved is written down, pins the next resolution, and may be frozen. *)
From S2P Require Import Prelude GoStd GoText GoConv GoPath Json DevTypes.

Record LockedFeature := mkLocked {
  LockedVersion : string;
  Resolved : string;
  Integrity : string;
  LockedDependsOn : list string;
}.
Abbreviation Lockfile := (gmap string LockedFeature).

Definition errLockfileMissing : goerr := Sentinel "feature.errLockfileMissing" "lockfile does not exist".
Definition errLockfileMismatch : goerr := Sentinel "feature.errLockfileMismatch" "lockfile does not match".

Definition LockfilePath (configOrigin : string) : string :=
  if bool_decide (configOrigin = "") || Contains configOrigin "://" then ""
  else JoinPath [Dir configOrigin;
                 if HasPrefix (Base configOrigin) "." then ".devcontainer-lock.json" else "devcontainer-lock.json"].

Record lockfileMode := mkMode { mWrite : bool; mFrozen : bool; mDisabled : bool }.
(** [lockfileState]; the mutex makes each operation atomic. *)
Record lockfileState := mkLockState { loaded : option Lockfile; entries : Lockfile }.

(** JSON of lockfiles, reads that fail for another reason than a missing file,
    and what a write leaves behind. *)
Class LockWorld := {
  readError : string -> option goerr;
  writeOutcome : string -> string -> option (goerr * option string);
  decodeLockfile : string -> goerr + Lockfile;
  encodeLockfile : Lockfile -> goerr + string;
  compactJSON : string -> option string;
}.
(** What is encoded is decoded; equal compact forms are decoded alike; encoded
    lockfiles are not blank and have a compact form. *)
Class LockLaws `{LockWorld} := {
  decode_encode m text : encodeLockfile m = inr text -> decodeLockfile (text +:+ nl) = inr m;
  decode_compact t1 t2 c : compactJSON t1 = Some c -> compactJSON t2 = Some c -> decodeLockfile t1 = decodeLockfile t2;
  compact_nonempty t c : compactJSON t = Some c -> c <> "" /\ TrimSpace t <> "";
  encode_compact m text : encodeLockfile m = inr text -> is_Some (compactJSON (text +:+ nl));
}.

Section Lockfile.
Context `{LockWorld}.
(** The files of the host, by path. *)
Abbreviation Files := (gmap string string).

Inductive readResult := Content (s : string) | NotExist | ReadFailed (e : goerr).
Definition readFile (files : Files) (path : string) : readResult :=
  match files !! path with
  | None => NotExist
  | Some s => match readError path with Some e => ReadFailed e | None => Content s end
  end.
Definition fileExists (files : Files) (path : string) : bool := bool_decide (is_Some (files !! path)).

Definition ReadLockfile (files : Files) (path : string) : goerr + Lockfile :=
  if decide (path = "") then inr ∅
  else match readFile files (Clean path) with
       | NotExist => inr ∅
       | ReadFailed e => inl (Errorf "read lockfile %s: %w" [AStr path; AErr e])
       | Content data =>
           if bool_decide (TrimSpace data = "") then inr ∅
           else match decodeLockfile data with
                | inl e => inl (Errorf "parse lockfile %s: %w" [AStr path; AErr e])
                | inr m => inr m
                end
       end.

(** Text that is no JSON has no normal form: nil. *)
Definition normalizeLockfileJSON (data : string) : string := default "" (compactJSON data).
Definition marshalLockfile (lf : Lockfile) : goerr + string :=
  match encodeLockfile lf with
  | inl e => inl (Errorf "marshal lockfile: %w" [AErr e])
  | inr data => inr (data +:+ nl)
  end.
Definition lockfileNeedsWrite (files : Files) (path newContent : string) (frozen : bool) : goerr + bool :=
  match readFile files (Clean path) with
  | Content existing =>
      if decide (normalizeLockfileJSON existing = normalizeLockfileJSON newContent) then inr false
      else if frozen then inl errLockfileMismatch else inr true
  | NotExist => if frozen then inl errLockfileMissing else inr true
  | ReadFailed e => inl (Errorf "read lockfile %s: %w" [AStr path; AErr e])
  end.
Definition WriteLockfile (files : Files) (path : string) (lf : Lockfile) (frozen : bool) : Files * err :=
  if decide (path = "") then (files, None)
  else match marshalLockfile lf with
       | inl e => (files, Some e)
       | inr newContent =>
           match lockfileNeedsWrite files path newContent frozen with
           | inl e => (files, Some e)
           | inr false => (files, None)
           | inr true =>
               match writeOutcome path newContent with
               | None => (<[path := newContent]> files, None)
               | Some (e, left_) =>
                   (match left_ with Some s => <[path := s]> files | None => delete path files end,
                    Some (Errorf "write lockfile %s: %w" [AStr path; AErr e]))
               end
           end
       end.

(** A nil state is [None]: the lockfile is turned off. *)
Definition pin (l : option lockfileState) (featureID : string) : option (string * string) :=
  match l with
  | Some (mkLockState (Some m) _) => match m !! featureID with Some e => Some (Resolved e, Integrity e) | None => None end
  | _ => None
  end.
Definition record (l : option lockfileState) (featureID : string) (entry : LockedFeature) : option lockfileState :=
  match l with
  | None => None
  | Some s => Some (mkLockState (loaded s) (<[featureID := entry]> (entries s)))
  end.
Definition newLockfileState (files : Files) (cfg : DevContainerConfig) : lockfileState :=
  match ReadLockfile files (LockfilePath (Origin cfg)) with
  | inl _ => mkLockState None ∅
  | inr m => mkLockState (Some m) ∅
  end.
Definition checkFrozenPrecondition (files : Files) (l : option lockfileState) (cfg : DevContainerConfig) : err :=
  match l with
  | None => None
  | Some _ =>
      if bool_decide (DevTypes.Features (cBase cfg) = ∅) then None
      else
        let path := LockfilePath (Origin cfg) in
        if bool_decide (path = "") || fileExists files path then None else Some errLockfileMissing
  end.
Definition prepareLock (files : Files) (cfg : DevContainerConfig) (mode : lockfileMode) : goerr + option lockfileState :=
  let lock := if mDisabled mode then None else Some (newLockfileState files cfg) in
  if mWrite mode && mFrozen mode then
    match checkFrozenPrecondition files lock cfg with Some e => inl e | None => inr lock end
  else inr lock.
Definition commit (files : Files) (l : option lockfileState) (cfg : DevContainerConfig) (mode : lockfileMode) : Files * err :=
  match l with
  | None => (files, None)
  | Some s =>
      if negb (mWrite mode) then (files, None)
      else
        let path := LockfilePath (Origin cfg) in
        if bool_decide (path = "") then (files, None)
        else if bool_decide (entries s = ∅) && negb (fileExists files path) then (files, None)
        else WriteLockfile files path (entries s) (mFrozen mode)
  end.

(** ** What a commit promises *)

Lemma Clean_LockfilePath origin :
  IsAbs origin = true -> LockfilePath origin <> "" -> Clean (LockfilePath origin) = LockfilePath origin.
Proof.
  unfold LockfilePath. intros Ho. destruct (_ || _); [done|]. intros _.
  set (name := if HasPrefix _ _ then _ else _).
  destruct (JoinPath_abs (Dir origin) [name] (IsAbs_Dir _ Ho)) as (q & -> & Hq). by apply Clean_idem.
Qed.

Context `{HL : !LockLaws}.

(** Writing a lockfile: frozen ones stay, and a success leaves a file that reads
    as what was to be written. *)
Lemma WriteLockfile_spec files path lf frozen files' e :
  path <> "" -> Clean path = path -> WriteLockfile files path lf frozen = (files', e) ->
  (frozen = true -> files' = files) /\ (e = None -> readError path = None -> ReadLockfile files' path = inr lf).
Proof.
  intros Hp Hc. unfold WriteLockfile, marshalLockfile. rewrite decide_False by done.
  destruct (encodeLockfile lf) as [e0|text] eqn:Henc; [by intros [= <- <-]|].
  destruct (encode_compact _ _ Henc) as [c Hcomp]. destruct (compact_nonempty _ _ Hcomp) as [Hne Hblank].
  unfold lockfileNeedsWrite, ReadLockfile, readFile. rewrite Hc.
  destruct (files !! path) as [existing|] eqn:Hfile.
  - destruct (readError path) as [e1|] eqn:Hread; [by intros [= <- <-]|].
    unfold normalizeLockfileJSON. rewrite Hcomp. case_decide as Hsame.
    + intros [= <- <-]. split; [done|]. intros _ _. rewrite decide_False, Hfile by done.
      destruct (compactJSON existing) as [c'|] eqn:Hce; cbn in Hsame; [subst c'|by subst c].
      destruct (compact_nonempty _ _ Hce) as [_ Hb]. rewrite bool_decide_false by done.
      by rewrite (decode_compact _ _ _ Hce Hcomp), (decode_encode _ _ Henc).
    + destruct frozen; [by intros [= <- <-]|]. destruct (writeOutcome _ _) as [[e1 left_]|]; intros [= <- <-]; [done|].
      split; [done|]. intros _ _. rewrite decide_False, lookup_insert_eq, bool_decide_false by done.
      by rewrite (decode_encode _ _ Henc).
  - destruct frozen; [by intros [= <- <-]|]. destruct (writeOutcome _ _) as [[e1 left_]|]; intros [= <- <-]; [done|].
    split; [done|]. intros _ Hread. rewrite decide_False, lookup_insert_eq, Hread, bool_decide_false by done.
    by rewrite (decode_encode _ _ Henc).
Qed.

(** C36: a frozen lockfile is never changed, and when a commit succeeds - frozen
    or not - the next run finds in the lockfile exactly what this one resolved,
    so that it is pinned to it. *)
Theorem commit_locks files s cfg mode files' e :
  IsAbs (Origin cfg) = true ->
  commit files (Some s) cfg mode = (files', e) ->
  (mFrozen mode = true -> files' = files) /\
  (e = None -> mWrite mode = true -> LockfilePath (Origin cfg) <> "" -> readError (LockfilePath (Origin cfg)) = None ->
   newLockfileState files' cfg = mkLockState (Some (entries s)) ∅).
Proof.
  intros Ho. unfold commit, newLockfileState. destruct (mWrite mode); cbn [negb]; [|by intros [= <- <-]].
  case_bool_decide as Hp; [intros [= <- <-]; done|].
  destruct (_ && _) eqn:Hnone.
  - intros [= <- <-]. split; [done|]. intros _ _ _ _. unfold ReadLockfile, readFile. rewrite decide_False by done.
    rewrite Clean_LockfilePath by done. apply andb_true_iff in Hnone as [->%bool_decide_eq_true Hex].
    unfold fileExists in Hex. destruct (files !! _); [done|]. done.
  - intros Hw. destruct (WriteLockfile_spec _ _ _ _ _ _ Hp (Clean_LockfilePath _ Ho Hp) Hw) as [Hf Hr].
    split; [done|]. intros He _ _ Hre. by rewrite Hr.
Qed.
End Lockfile.
