(* ===== verification/FeatureDeps.v ===== *)
(** Fetching the features of a configuration (src/pkg/devcontainer/feature/extend.go):
    each is resolved and parsed, what they depend on is installed with them, and
    all are put in order. *)
From S2P Require Import Prelude GoStd GoText GoConv GoPath GoState Json DevTypes DevExtends Graph Features FeatureOptions FeatureLock.

(** Where features come from: registries, downloads and files. *)
Class FeatureSources := {
  fetchOCI : string -> goerr + (string * string * string);
  processDirectTarFeature : string -> gmap string string -> bool -> string -> goerr + (string * string);
  downloadHeaders : json -> gmap string string;
  FileExists : string -> bool;
  decodeFeatureConfig : string -> goerr + FeatureConfig;
  LoadOCIAnnotations : string -> option (gmap string string);
}.

(** What a fetch changes: the features and what was found out about them, and
    the lockfile's state. *)
Record Fetching := mkFetching {
  features : gmap string FeatureSet;
  resolved : gmap string FeatureSet;
  visiting : gset string;
  legacyMap : gmap string string;
  lock : option lockfileState;
}.
Definition setFeatures (fs : gmap string FeatureSet) (legacy : gmap string string) (s : Fetching) : Fetching :=
  mkFetching fs (resolved s) (visiting s) legacy (lock s).
Definition setVisiting (v : gset string) (s : Fetching) : Fetching :=
  mkFetching (features s) (resolved s) v (legacyMap s) (lock s).
Definition addResolved (key : string) (f : FeatureSet) (s : Fetching) : Fetching :=
  mkFetching (features s) (<[key := f]> (resolved s)) (visiting s) (legacyMap s) (lock s).
Definition setLock (l : option lockfileState) (s : Fetching) : Fetching :=
  mkFetching (features s) (resolved s) (visiting s) (legacyMap s) l.

(** The error of a call with more said about it. *)
Definition wrapGo {S A} (format : string) (args : list string) (m : Go S A) : Go S A := fun s =>
  match m s with
  | (s', inl (Failed e)) => (s', inl (Failed (Errorf format (map AStr args ++ [AErr e]))))
  | r => r
  end.

Section Fetch.
Context `{References} `{Walks} `{ConfigWorld} `{SecretWorld} `{LockWorld} `{FeatureSources}.
Context (devContainerConfig : DevContainerConfig) (forceBuild : bool) (secretOpts : option SecretOptions).

(** ** One feature *)

Inductive featureKind := featureKindLocal | featureKindOCI | featureKindTarball.
Record featureResolution := mkResolution { resFolder : string; resKind : featureKind; resResolved : string; resIntegrity : string }.

Definition devsyCustomization (c : DevContainerConfig) : option json :=
  match Customizations (cActions c) !! "devsy" with Some JNull => None | v => v end.
Definition resolveTarballFeature (id : string) : Go Fetching featureResolution :=
  go! l := read lock in
  let pinnedIntegrity := match pin l id with Some (_, i) => i | None => "" end in
  let headers := match devsyCustomization devContainerConfig with Some v => downloadHeaders v | None => ∅ end in
  go! (folder, integrity) := orErr (processDirectTarFeature id headers forceBuild pinnedIntegrity) in
  yield (mkResolution folder featureKindTarball id integrity).
Definition resolveLocalFeature (id : string) : Go Fetching featureResolution :=
  go! folder := orErr (Abs (JoinPath [Dir (Origin devContainerConfig); id])) in
  yield (mkResolution folder featureKindLocal "" "").
Definition verifyPinnedDigest (id actual pinned : string) : err :=
  if bool_decide (pinned = "") || bool_decide (actual = pinned) then None
  else Some (Errorf "integrity mismatch for feature %s: lockfile has %s but resolved %s"
               [AStr id; AStr pinned; AStr actual]).
(** [processOCIFeature] *)
Definition processOCIFeature (id pinnedResolved pinnedIntegrity : string) : goerr + (string * string * string) :=
  match fetchOCI (if bool_decide (pinnedResolved <> "") then pinnedResolved else id) with
  | inl e => inl e
  | inr (folder, res, integrity) =>
      match verifyPinnedDigest id integrity pinnedIntegrity with Some e => inl e | None => inr (folder, res, integrity) end
  end.
Definition resolveOCIFeature (id : string) : Go Fetching featureResolution :=
  go! l := read lock in
  let '(pinnedResolved, pinnedIntegrity) := default ("", "") (pin l id) in
  go! (folder, res, integrity) := orErr (processOCIFeature id pinnedResolved pinnedIntegrity) in
  yield (mkResolution folder featureKindOCI res integrity).
Definition resolveFeatureSource (id : string) : Go Fetching featureResolution :=
  if HasPrefix id "https://" || HasPrefix id "http://" then resolveTarballFeature id
  else if HasPrefix id "./" || HasPrefix id "../" then resolveLocalFeature id
  else resolveOCIFeature id.

Definition DevContainerFeatureFileName := "devcontainer-feature.json".
Definition ParseDevContainerFeature (folder : string) : goerr + FeatureConfig :=
  match Abs (JoinPath [folder; DevContainerFeatureFileName]) with
  | inl e => inl (Errorf "make path absolute: %w" [AErr e])
  | inr path =>
      if negb (FileExists path) then inl (Errorf "%s is missing in feature folder" [AStr DevContainerFeatureFileName])
      else match ReadFile path with
           | inl e => inl e
           | inr data =>
               match Standardize data with
               | inl e => inl (Errorf "parse jsonc: %w" [AErr e])
               | inr normalized =>
                   match decodeFeatureConfig normalized with
                   | inl e => inl e
                   | inr c =>
                       if bool_decide (FeatureID c = "")
                       then inl (Errorf ("%s is missing required property " +:+ dquote +:+ "id" +:+ dquote) [AStr DevContainerFeatureFileName])
                       else inr (mkFeatureConfig (FeatureID c) (FeatureName c) (FeatureVersion c) (FeatureDescription c)
                              (FeatureEntrypoint c) (Deprecated c) (LegacyIds c) (FeatureOptions c) (FeatureDocumentation c)
                              (FeatureLicense c) (FeatureCapAdd c) (FeatureInit c) (FeaturePrivileged c)
                              (FeatureSecurityOpt c) (FeatureMounts c) (InstallsAfter c) (DependsOn c)
                              (FeatureContainerEnv c) (FeatureActions c) (Annotations c) path (dependsOnOrder c))
                   end
               end
           end
  end.

(** [LoadOCIAnnotations] found some? *)
Definition withAnnotations (a : option (gmap string string)) (c : FeatureConfig) : FeatureConfig :=
  match a with
  | None => c
  | Some m =>
      mkFeatureConfig (FeatureID c) (FeatureName c) (FeatureVersion c) (FeatureDescription c)
        (FeatureEntrypoint c) (Deprecated c) (LegacyIds c) (FeatureOptions c) (FeatureDocumentation c)
        (FeatureLicense c) (FeatureCapAdd c) (FeatureInit c) (FeaturePrivileged c)
        (FeatureSecurityOpt c) (FeatureMounts c) (InstallsAfter c) (DependsOn c)
        (FeatureContainerEnv c) (FeatureActions c) m (FeatureOrigin c) (dependsOnOrder c)
  end.

Definition recordLockEntry (featureID : string) (res : featureResolution) (c : FeatureConfig) : Go Fetching () :=
  match resKind res with
  | featureKindLocal => yield ()
  | _ =>
      update (fun s => setLock (record (lock s) featureID
        (mkLocked (FeatureVersion c) (resResolved res) (resIntegrity res)
           (if bool_decide (DependsOn c = ∅) then [] else DependsOnKeys c))) s)
  end.

Definition processFeature (featureID : string) (featureOptions : json) : Go Fetching FeatureSet :=
    go! res := wrapGo "process feature ID %s: %w" [featureID] (resolveFeatureSource featureID) in
    go! parsed := orRefuse "parse feature: %w" [] (ParseDevContainerFeature (resFolder res)) in
    let c := withAnnotations (LoadOCIAnnotations (resFolder res)) parsed in
    go! _ := (match ValidateFeatureOptions featureID c featureOptions with Some e => refuse e | None => yield () end) in
    go! resolvedOptions := orErr (resolveSecretsForFeature featureID c featureOptions secretOpts) in
    go! _ := recordLockEntry featureID res c in
    yield (mkFeatureSet (normalizeFeatureID featureID) (extractVersionFromFeatureID featureID) (resFolder res) c
             resolvedOptions).

(** ** Features of the configuration; Go resolves them at the same time, and the
    first error in the walk stands for any of theirs. *)
Fixpoint getFeatures (ids : list (string * json)) (acc : gmap string FeatureSet) : Go Fetching (gmap string FeatureSet) :=
  match ids with
  | [] => yield acc
  | (featureID, featureOptions) :: rest =>
      go! f := wrapGo "process feature %s: %w" [featureID] (processFeature featureID featureOptions) in
      getFeatures rest (<[keyOf f := f]> acc)
  end.
Definition getUserFeatures : Go Fetching (gmap string FeatureSet) :=
  getFeatures (walk ["features"] (DevTypes.Features (cBase devContainerConfig))) ∅.

(** ** Features the others depend on *)

(** Later entries of the walk win. *)
Definition buildLegacyIDMap (at_ : list string) (fs : gmap string FeatureSet) : gmap string string :=
  foldl (fun m '(key, f) => foldl (fun m legacyID => <[normalizeFeatureID legacyID := key]> m) m (LegacyIds (Config f)))
    ∅ (walk at_ fs).
Definition findByConfigID (at_ : list string) (configID : string) (fs : gmap string FeatureSet)
    : option (string * FeatureSet) :=
  match fs !! configID with
  | Some f => Some (configID, f)
  | None => head (filter (fun p : string * FeatureSet => ConfigID p.2 = configID) (walk at_ fs))
  end.

Definition lookupDependency (parent depID : string) (s : Fetching) : option (string * FeatureSet) :=
  let normalizedDepID := normalizeFeatureID depID in
  match findByConfigID ["find"; parent; depID] normalizedDepID (features s) with
  | Some p => Some p
  | None =>
      match legacyMap s !! normalizedDepID with
      | Some currentID => findByConfigID ["findLegacy"; parent; depID] currentID (features s)
      | None => None
      end
  end.
Definition findOrInstallDependency (parent depID : string) (depOptions : json) : Go Fetching (string * FeatureSet) :=
  go! found := read (lookupDependency parent depID) in
  match found with
  | Some p => yield p
  | None =>
      go! f := wrapGo "failed to resolve dependency %s: %w" [depID] (processFeature depID depOptions) in
      go! _ := update (fun s => let fs := <[keyOf f := f]> (features s) in
                                setFeatures fs (buildLegacyIDMap ["legacy"; keyOf f] fs) s) in
      yield (keyOf f, f)
  end.

(** What a feature depends on, one after the other, and then the feature. *)
Definition resolveEach (single : string -> FeatureSet -> Go Fetching ()) (featureID : string) (f : FeatureSet)
    : Go Fetching () :=
  go! _ := eachGo (fun '(depID, depOptions) =>
             go! (key, dep) := findOrInstallDependency featureID depID depOptions in
             single key dep)
           (walk ["deps"; featureID] (DependsOn (Config f))) in
  update (addResolved featureID f).
(** [resolveFeatureDependency]; the mark of a visit is taken back on every way out. *)
Fixpoint resolveFeatureDependency (fuel : nat) (featureID : string) (f : FeatureSet) : Go Fetching () :=
  match fuel with
  | O => exhausted
  | S fuel' => fun s =>
      match resolved s !! featureID with
      | Some _ => (s, inr ())
      | None =>
          if decide (featureID ∈ visiting s)
          then refuse (Errorf "circular dependency detected involving feature %s" [AStr featureID]) s
          else
            let '(s', r) := resolveEach (resolveFeatureDependency fuel') featureID f
                              (setVisiting ({[featureID]} ∪ visiting s) s) in
            (setVisiting (visiting s' ∖ {[featureID]}) s', r)
      end
  end.

(** What is added while Go walks the features is resolved at once, so that it
    does not matter whether the walk meets it. *)
Definition resolveDependencies (fuel : nat) (fs : gmap string FeatureSet) : Go Fetching (gmap string FeatureSet) :=
  go! _ := update (fun s => mkFetching fs ∅ ∅ (buildLegacyIDMap ["legacy"] fs) (lock s)) in
  go! _ := eachGo (fun '(featureID, f) => resolveFeatureDependency fuel featureID f) (walk ["resolve"] fs) in
  read resolved.

Definition fetchOrder (fuel : nat) : Go Fetching (list FeatureSet) :=
  go! userFeatures := getUserFeatures in
  go! all := wrapGo "resolve dependencies: %w" [] (resolveDependencies fuel userFeatures) in
  match getSortedFeatureSets devContainerConfig ((walk ["featureSets"] all).*2) with
  | None => exhausted
  | Some (inl e) => refuse (Errorf "failed to get sorted feature sets: %w" [AErr e])
  | Some (inr sorted) => yield sorted
  end.

(** [fetchFeatures], on the files of the host. *)
Definition fetchFeatures (fuel : nat) (files : gmap string string) (mode : lockfileMode)
    : gmap string string * (failure + list FeatureSet) :=
  match prepareLock files devContainerConfig mode with
  | inl e => (files, inl (Failed e))
  | inr l =>
      match fetchOrder fuel (mkFetching ∅ ∅ ∅ ∅ l) with
      | (_, inl e) => (files, inl e)
      | (s, inr sorted) =>
          match commit files (lock s) devContainerConfig mode with
          | (files', Some e) => (files', inl (Failed e))
          | (files', None) => (files', inr sorted)
          end
      end
  end.
End Fetch.
