(* ===== verification/FeatureClosure.v ===== *)
(** What fetching features promises: it ends, and what it returns is closed under
    dependencies and in an order in which a feature follows what it depends on. *)
From S2P Require Import Prelude GoStd GoText GoConv GoPath GoState Json Graph GraphReach GraphSort DevTypes DevExtends Features FeatureOrder FeatureOptions FeatureLock FeatureDeps.

Create HintDb calm.

Section Fetch.
Context `{R : References} `{W : Walks} `{WL : !WalkLaws} `{CW : ConfigWorld} `{SW : SecretWorld} `{LW : LockWorld} `{FS : FeatureSources}.
Context (devContainerConfig : DevContainerConfig) (forceBuild : bool) (secretOpts : option SecretOptions).
Abbreviation process := (processFeature devContainerConfig forceBuild secretOpts).

(** ** Processing one feature *)

(** Only the lockfile's state may change. *)
Record lockOnly (s s' : Fetching) : Prop := {
  lo_features : features s' = features s;
  lo_resolved : resolved s' = resolved s;
  lo_visiting : visiting s' = visiting s;
  lo_legacy : legacyMap s' = legacyMap s;
}.
#[local] Instance lockOnly_preorder : PreOrder lockOnly.
Proof. split; [by intros s|]. intros s1 s2 s3 [] []. split; congruence. Qed.
Definition calmGo {A} (m : Go Fetching A) : Prop := forall s, lockOnly s (m s).1 /\ (m s).2 <> inl OutOfFuel.

Lemma calm_yield {A} (a : A) : calmGo (yield a).
Proof. by intros s. Qed.
Lemma calm_refuse {A} e : calmGo (refuse (A := A) e).
Proof. by intros s. Qed.
Lemma calm_read {A} (f : Fetching -> A) : calmGo (read f).
Proof. by intros s. Qed.
Lemma calm_orErr {A} (x : goerr + A) : calmGo (orErr x).
Proof. by destruct x. Qed.
Lemma calm_orRefuse {A} format args (x : goerr + A) : calmGo (orRefuse format args x).
Proof. by destruct x. Qed.
Lemma calm_bind {A B} m (k : A -> Go Fetching B) : calmGo m -> (forall a, calmGo (k a)) -> calmGo (bindGo m k).
Proof.
  intros Hm Hk s. destruct (Hm s) as [Hl Hf]. unfold bindGo. destruct (m s) as [s' [f|a]]; cbn in *.
  - split; [done|]. by intros [= ->].
  - destruct (Hk a s') as [Hl' Hf']. split; [by trans s'|done].
Qed.
Lemma calm_wrap {A} format args (m : Go Fetching A) : calmGo m -> calmGo (wrapGo format args m).
Proof. intros Hm s. destruct (Hm s) as [Hl Hf]. unfold wrapGo. by destruct (m s) as [s' [[e|]|a]]. Qed.
#[local] Hint Resolve calm_yield calm_refuse calm_read calm_orErr calm_orRefuse calm_bind calm_wrap : calm.

Lemma calm_source id : calmGo (resolveFeatureSource devContainerConfig forceBuild id).
Proof.
  unfold resolveFeatureSource, resolveTarballFeature, resolveLocalFeature, resolveOCIFeature.
  repeat case_match; repeat (apply calm_bind; [auto with calm|intros ?]); repeat case_match; auto with calm.
  all: repeat (apply calm_bind; [auto with calm|intros ?]); repeat case_match; auto with calm.
Qed.
Lemma calm_process id o : calmGo (process id o).
Proof.
  unfold processFeature. apply calm_bind; [apply calm_wrap, calm_source|intros res].
  apply calm_bind; [auto with calm|intros c0]. cbv zeta. apply calm_bind; [by case_match; auto with calm|intros _].
  apply calm_bind; [auto with calm|intros opts]. apply calm_bind; [|auto with calm].
  unfold recordLockEntry. case_match; [auto with calm|by intros s..].
Qed.

(** The name of a feature that is installed under an identifier. *)
Definition keyFor (id : string) : string := featureDeduplicationKey (normalizeFeatureID id) (extractVersionFromFeatureID id).

Lemma process_inr id o s s' f :
  process id o s = (s', inr f) ->
  ConfigID f = normalizeFeatureID id /\ keyOf f = keyFor id /\
  exists text c, decodeFeatureConfig text = inr c /\ DependsOn (Config f) = DependsOn c.
Proof.
  intros Hp%(f_equal snd). cbn in Hp. unfold processFeature in Hp.
  apply bindGo_inr in Hp as (res & s1 & _ & Hp). apply bindGo_inr in Hp as (c0 & s2 & Hc & Hp).
  cbv zeta in Hp. apply bindGo_inr in Hp as (u & s3 & _ & Hp). apply bindGo_inr in Hp as (opts & s4 & _ & Hp).
  apply bindGo_inr in Hp as (u' & s5 & _ & Hp). injection Hp as <-. split_and!; [done..|].
  unfold orRefuse in Hc. destruct (ParseDevContainerFeature _) as [e|c1] eqn:Hparse; [done|]. injection Hc as _ ->.
  unfold ParseDevContainerFeature in Hparse. repeat (case_match; try discriminate).
  injection Hparse as <-. eexists _, _. split; [eassumption|]. cbn. unfold withAnnotations. by case_match.
Qed.

(** ** Fetching ends *)

(** The manifests that can be read depend on finitely many identifiers. *)
Class FiniteManifests (mentioned : gset string) :=
  manifest_deps text c : decodeFeatureConfig text = inr c -> dom (DependsOn c) ⊆ mentioned.
Context (mentioned : gset string) `{FM : !FiniteManifests mentioned}.

(** The names features can have. *)
Definition possible (ids : gset string) : gset string := set_map keyFor (ids ∪ mentioned).
Context (asked : gset string).
Abbreviation keys := (possible asked).

Record wellFetched (s : Fetching) : Prop := {
  wf_keys k f : features s !! k = Some f -> k = keyOf f /\ k ∈ keys;
  wf_deps k f : features s !! k = Some f -> dom (DependsOn (Config f)) ⊆ mentioned;
}.
(** Where the resolution is and what it knows; [unvisited] names are left. *)
Definition keepsVisits (s s' : Fetching) : Prop := visiting s' = visiting s /\ (wellFetched s -> wellFetched s').
#[local] Instance keepsVisits_preorder : PreOrder keepsVisits.
Proof. split; [by intros s|]. intros s1 s2 s3 [E1 H1] [E2 H2]. split; [congruence|auto]. Qed.
Definition unvisited (s : Fetching) : nat := size (keys ∖ visiting s).
Lemma keepsVisits_sound s s' : keepsVisits s s' -> wellFetched s -> wellFetched s' /\ (unvisited s' <= unvisited s)%nat.
Proof. intros [E H] Hs. split; [auto|]. unfold unvisited. by rewrite E. Qed.
Abbreviation agree := (agreeWithin wellFetched unvisited keepsVisits).

Lemma lockOnly_wellFetched s s' : lockOnly s s' -> wellFetched s -> wellFetched s'.
Proof. intros [E _ _ _] [Hk Hd]. split; intros k f; rewrite E; [apply Hk|apply Hd]. Qed.
Lemma lockOnly_keeps s s' : lockOnly s s' -> keepsVisits s s'.
Proof. intros Hl. split; [apply Hl|]. by apply lockOnly_wellFetched. Qed.
Lemma agree_calm {A} n (m : Go Fetching A) : calmGo m -> agree n m m.
Proof. intros Hm. apply agree_same. intros s _. destruct (Hm s). split; [by apply lockOnly_keeps|done]. Qed.

(** A feature that may be installed. *)
Definition possibleFeature (p : string * FeatureSet) : Prop :=
  p.1 ∈ keys /\ dom (DependsOn (Config p.2)) ⊆ mentioned.

Lemma findByConfigID_Some at_ id fs k f : findByConfigID at_ id fs = Some (k, f) -> fs !! k = Some f /\ (k = id \/ ConfigID f = id).
Proof.
  unfold findByConfigID. destruct (fs !! id) as [g|] eqn:Hg; [intros [= <- <-]; auto|].
  intros Hh%head_Some_elem_of. apply list_elem_of_filter in Hh as [Hc Hin]. rewrite walk_perm, elem_of_map_to_list in Hin. auto.
Qed.
Lemma lookupDependency_Some parent id s k f : lookupDependency parent id s = Some (k, f) -> features s !! k = Some f.
Proof.
  unfold lookupDependency. destruct (findByConfigID _ _ _) as [[k' f']|] eqn:Hfind.
  - intros [= <- <-]. by apply findByConfigID_Some in Hfind as [? _].
  - destruct (legacyMap s !! _) as [c|]; [|done]. by intros [? _]%findByConfigID_Some.
Qed.
Lemma keyFor_possible id : id ∈ mentioned -> keyFor id ∈ keys.
Proof. intros Hid. unfold possible. apply elem_of_map_2. set_solver. Qed.

Lemma install_wellFetched s f legacy :
  keyOf f ∈ keys -> dom (DependsOn (Config f)) ⊆ mentioned -> wellFetched s ->
  wellFetched (setFeatures (<[keyOf f := f]> (features s)) legacy s).
Proof.
  intros Hk Hd [Hk' Hd']. split; intros k g; cbn [setFeatures features];
    (intros [[<- <-]|[_ Hg]]%lookup_insert_Some; [done|by eauto]).
Qed.
Lemma agree_install n parent id o : id ∈ mentioned ->
  agree n (findOrInstallDependency devContainerConfig forceBuild secretOpts parent id o)
          (findOrInstallDependency devContainerConfig forceBuild secretOpts parent id o).
Proof.
  intros Hid. unfold findOrInstallDependency. apply agree_bind; [apply _|apply keepsVisits_sound|apply agree_read, _|].
  intros [p|]; [apply agree_yield, _|].
  apply (agree_bind_post _ _ _ keepsVisits_sound (fun f => keyOf f ∈ keys /\ dom (DependsOn (Config f)) ⊆ mentioned)).
  - apply agree_calm, calm_wrap, calm_process.
  - intros s s' f _ Hf. unfold wrapGo in Hf. destruct (process id o s) as [s1 [[e|]|f1]] eqn:Hp; simplify_eq.
    destruct (process_inr _ _ _ _ _ Hp) as (_ & -> & text & c & Hc & ->). split; [by apply keyFor_possible|].
    by eapply manifest_deps.
  - intros f [Hk Hd]. apply agree_bind; [apply _|apply keepsVisits_sound| |intros _; apply agree_yield, _].
    apply agree_same. intros s Hs. split; [|done]. split; [done|]. by apply install_wellFetched.
Qed.
Lemma install_possible parent id o s s' p : id ∈ mentioned -> wellFetched s ->
  findOrInstallDependency devContainerConfig forceBuild secretOpts parent id o s = (s', inr p) -> possibleFeature p.
Proof.
  intros Hid Hs Hp%(f_equal snd). cbn in Hp. unfold findOrInstallDependency in Hp.
  destruct (lookupDependency parent id s) as [[k f]|] eqn:Hl.
  - injection Hp as <-. apply lookupDependency_Some in Hl. split; [by eapply wf_keys|by eapply wf_deps].
  - apply bindGo_inr in Hp as (f & s1 & Hf & Hp). unfold wrapGo in Hf.
    destruct (process id o s) as [s2 [[e|]|f1]] eqn:Hproc; simplify_eq. injection Hp as <-.
    destruct (process_inr _ _ _ _ _ Hproc) as (_ & Hk & text & c & Hc & Hd). split; cbn.
    + rewrite Hk. by apply keyFor_possible.
    + rewrite Hd. by eapply manifest_deps.
Qed.

Abbreviation resolve := (resolveFeatureDependency devContainerConfig forceBuild secretOpts).

(** One more call deep, one more name is being visited. *)
Lemma agree_fetch n n1 n2 :
  (forall p, possibleFeature p -> agree n (resolve n1 p.1 p.2) (resolve n2 p.1 p.2)) ->
  forall p, possibleFeature p -> agree (S n) (resolve (S n1) p.1 p.2) (resolve (S n2) p.1 p.2).
Proof.
  intros IH [key f] [Hkey Hdeps] s Hs. cbn [fst snd resolveFeatureDependency] in *.
  destruct (resolved s !! key); [done|]. case_decide as Hv; [done|].
  set (body := fun fuel => resolveEach devContainerConfig forceBuild secretOpts (resolve fuel) key f).
  assert (Hbody : agree n (body n1) (body n2)).
  { apply agree_bind; [apply _|apply keepsVisits_sound| |].
    - apply agree_each; [apply _|apply keepsVisits_sound|]. intros [id o] Hin.
      assert (Hid : id ∈ mentioned).
      { rewrite walk_perm, elem_of_map_to_list in Hin. apply Hdeps. by eapply elem_of_dom_2. }
      apply (agree_bind_post _ _ _ keepsVisits_sound possibleFeature); [by apply agree_install|by intros; eapply install_possible|].
      intros [key' f'] Hp. by apply (IH (key', f')).
    - intros _. apply agree_same. intros s1 _. split; [|done]. split; [done|]. by intros [? ?]. }
  set (s1 := setVisiting ({[key]} ∪ visiting s) s). assert (Hs1 : wellFetched s1) by (by destruct Hs).
  destruct (Hbody s1 Hs1) as [[Hvis Hwf] Heq].
  change (resolveEach _ _ _ (resolve n1) key f s1) with (body n1 s1).
  change (resolveEach _ _ _ (resolve n2) key f s1) with (body n2 s1).
  destruct (body n1 s1) as [s' r] eqn:Hb1. cbn [fst snd] in *. split.
  - split; [cbn; rewrite Hvis; cbn; set_solver|]. intros _. by destruct (Hwf Hs1).
  - intros Hn. destruct Heq as [<- Hf]; [|done]. unfold unvisited in *. cbn.
    enough (size (keys ∖ ({[key]} ∪ visiting s)) < size (keys ∖ visiting s))%nat by lia.
    apply subset_size. set_solver.
Qed.
Lemma agree_resolve n : forall n1 n2 p, (n <= n1)%nat -> (n <= n2)%nat ->
  possibleFeature p -> agree n (resolve n1 p.1 p.2) (resolve n2 p.1 p.2).
Proof.
  assert (Hgrow : forall n1 p, possibleFeature p -> agree 0 (resolve n1 p.1 p.2) (resolve n1 p.1 p.2)).
  { induction n1 as [|n1 IH]; intros p Hp; [intros s Hs; split; [reflexivity|lia]|].
    intros s Hs. split; [|lia]. by apply (agree_fetch 0 n1 n1). }
  induction n as [|n IH]; intros n1 n2 p H1 H2 Hp.
  - intros s Hs. split; [by apply Hgrow|lia].
  - destruct n1 as [|n1], n2 as [|n2]; try lia. apply agree_fetch; [|done]. intros. apply IH; (done || lia).
Qed.

(** The features of the configuration. *)
Definition allPossible (fs : gmap string FeatureSet) : Prop := forall k f, fs !! k = Some f ->
  k = keyOf f /\ possibleFeature (k, f).
Lemma getFeatures_calm ids : forall acc, calmGo (getFeatures devContainerConfig forceBuild secretOpts ids acc).
Proof.
  induction ids as [|[id o] ids IH]; intros acc; [apply calm_yield|].
  apply calm_bind; [apply calm_wrap, calm_process|]. intros f. apply IH.
Qed.
Lemma getFeatures_possible ids : forall acc s s' fs,
  (forall id, id ∈ ids.*1 -> id ∈ asked) -> allPossible acc ->
  getFeatures devContainerConfig forceBuild secretOpts ids acc s = (s', inr fs) -> allPossible fs.
Proof.
  induction ids as [|[id o] ids IH]; intros acc s s' fs Hids Hacc Hg%(f_equal snd); cbn in Hg.
  - by injection Hg as <-.
  - apply bindGo_inr in Hg as (f & s1 & Hf & Hg). unfold wrapGo in Hf.
    destruct (process id o s) as [s2 [[e|]|f1]] eqn:Hp; simplify_eq.
    destruct (process_inr _ _ _ _ _ Hp) as (_ & Hk & text & c & Hc & Hd).
    destruct (getFeatures _ _ _ ids _ s1) as [s3 r] eqn:Hrest. cbn in Hg. subst r.
    refine (IH _ _ _ _ _ _ Hrest); [intros; apply Hids; by right|].
    intros k g [[<- <-]|[_ Hg]]%lookup_insert_Some; [|by apply Hacc]. split; [done|]. split; cbn.
    + rewrite Hk. unfold possible. apply elem_of_map_2. assert (id ∈ asked) by (apply Hids; left). set_solver.
    + rewrite Hd. by eapply manifest_deps.
Qed.

Lemma resolveDependencies_ends n1 n2 fs s : (size keys < n1)%nat -> (size keys < n2)%nat -> allPossible fs ->
  resolveDependencies devContainerConfig forceBuild secretOpts n1 fs s =
  resolveDependencies devContainerConfig forceBuild secretOpts n2 fs s /\
  (resolveDependencies devContainerConfig forceBuild secretOpts n1 fs s).2 <> inl OutOfFuel.
Proof.
  intros H1 H2 Hfs. unfold resolveDependencies. unfold bindGo at 1 3 5. cbn [update].
  set (s1 := mkFetching fs ∅ ∅ _ _). assert (Hs1 : wellFetched s1).
  { split; intros k f Hk; destruct (Hfs k f Hk) as [Hk1 [Hk2 Hk3]]; done. }
  assert (Hag : agree (S (size keys))
    (go! _ := eachGo (fun '(id, f) => resolve n1 id f) (walk ["resolve"] fs) in read resolved)
    (go! _ := eachGo (fun '(id, f) => resolve n2 id f) (walk ["resolve"] fs) in read resolved)).
  { apply agree_bind; [apply _|apply keepsVisits_sound| |intros _; apply agree_read, _].
    apply agree_each; [apply _|apply keepsVisits_sound|]. intros [k f] Hin.
    rewrite walk_perm, elem_of_map_to_list in Hin. apply (agree_resolve _ n1 n2 (k, f)); [lia..|by apply Hfs]. }
  destruct (Hag s1 Hs1) as [_ [-> Hf]]; [|done]. unfold unvisited, s1. cbn.
  assert (size (keys ∖ ∅) <= size keys)%nat by (apply subseteq_size; set_solver). lia.
Qed.
End Fetch.

Section Ends.
Context `{R : References} `{W : Walks} `{WL : !WalkLaws} `{CW : ConfigWorld} `{SW : SecretWorld} `{LW : LockWorld} `{FS : FeatureSources}.
Context (devContainerConfig : DevContainerConfig) (forceBuild : bool) (secretOpts : option SecretOptions).
Context (mentioned : gset string) `{FM : !FiniteManifests mentioned}.

(** One call for every name a feature can have, and one that is refused. *)
Definition fetchFuel : nat := S (size (possible mentioned (dom (DevTypes.Features (cBase devContainerConfig))))).

(** fetching features ends, whatever registries serve and however features
    depend on each other, when the manifests mention finitely many features: with
    one call per possible name every amount of fuel gives the same outcome, which
    is an install order or one of the errors of the code. *)
Theorem fetchFeatures_ends n1 n2 files mode :
  (fetchFuel <= n1)%nat -> (fetchFuel <= n2)%nat ->
  fetchFeatures devContainerConfig forceBuild secretOpts n1 files mode =
  fetchFeatures devContainerConfig forceBuild secretOpts n2 files mode /\
  (fetchFeatures devContainerConfig forceBuild secretOpts n1 files mode).2 <> inl OutOfFuel.
Proof.
  intros H1 H2. unfold fetchFeatures. destruct (prepareLock _ _ _) as [e|l]; [done|].
  assert (Ho : fetchOrder devContainerConfig forceBuild secretOpts n1 (mkFetching ∅ ∅ ∅ ∅ l) =
               fetchOrder devContainerConfig forceBuild secretOpts n2 (mkFetching ∅ ∅ ∅ ∅ l) /\
               (fetchOrder devContainerConfig forceBuild secretOpts n1 (mkFetching ∅ ∅ ∅ ∅ l)).2 <> inl OutOfFuel).
  { unfold fetchOrder, getUserFeatures. set (s0 := mkFetching ∅ ∅ ∅ ∅ l). unfold bindGo at 1 3 5.
    destruct (getFeatures_calm devContainerConfig forceBuild secretOpts (walk ["features"] (DevTypes.Features (cBase devContainerConfig))) ∅ s0)
      as [_ Hcalm].
    destruct (getFeatures _ _ _ _ ∅ s0) as [s1 [f|fs]] eqn:Hg; cbn in Hcalm; [split; [done|]; by intros [= ->]|].
    eapply (getFeatures_possible _ _ _ mentioned (dom (DevTypes.Features (cBase devContainerConfig)))) in Hg.
    - unfold bindGo, wrapGo. destruct (resolveDependencies_ends devContainerConfig forceBuild secretOpts mentioned _ n1 n2 fs s1 H1 H2 Hg)
        as [-> Hf].
      destruct (resolveDependencies _ _ _ n2 fs s1) as [s2 [[e|]|all]]; [done..|].
      pose proof (getSortedFeatureSets_total ((walk ["featureSets"] all).*2) devContainerConfig) as Hsort.
      by destruct (getSortedFeatureSets _ _) as [[e|sorted]|].
    - intros id. rewrite walk_perm. intros ([k v] & -> & Hk%elem_of_map_to_list)%list_elem_of_fmap. by eapply elem_of_dom_2.
    - by intros k f. }
  destruct Ho as [-> Hf]. destruct (fetchOrder _ _ _ n2 _) as [s [f|sorted]]; cbn in *.
  - split; [done|]. by intros [= ->].
  - split; [done|]. by destruct (commit _ _ _ _) as [files' [e|]].
Qed.
End Ends.

(** A repository name holds no tag, so that the name of a feature with its
    version tells the feature; names are not empty, and manifests name what they
    depend on. *)
Class FeatureNames `{References} `{FeatureSources} := {
  keys_distinct id1 id2 : keyFor id1 = keyFor id2 -> normalizeFeatureID id1 = normalizeFeatureID id2;
  key_nonempty id : id <> "" -> keyFor id <> "";
  manifest_named text c : decodeFeatureConfig text = inr c -> DependsOn c !! "" = None;
}.

Section Closure.
Context `{R : References} `{W : Walks} `{WL : !WalkLaws} `{CW : ConfigWorld} `{SW : SecretWorld} `{LW : LockWorld} `{FS : FeatureSources}.
Context `{FN : !FeatureNames}.
Context (devContainerConfig : DevContainerConfig) (forceBuild : bool) (secretOpts : option SecretOptions).
Abbreviation process := (processFeature devContainerConfig forceBuild secretOpts).
Abbreviation install := (findOrInstallDependency devContainerConfig forceBuild secretOpts).
Abbreviation resolve := (resolveFeatureDependency devContainerConfig forceBuild secretOpts).

(** [g] is what [id] names, by its name or by one it had. *)
Definition satisfies (id : string) (g : FeatureSet) : Prop :=
  provides id g \/ exists l, l ∈ LegacyIds (Config g) /\ normalizeFeatureID l = normalizeFeatureID id.
(** [f] is asked for by the configuration, or by a feature that is needed. *)
Inductive needed : FeatureSet -> Prop :=
  | WantedAsked id f : is_Some (DevTypes.Features (cBase devContainerConfig) !! id) ->
      ConfigID f = normalizeFeatureID id -> needed f
  | WantedNeeded f id g : needed f -> is_Some (DependsOn (Config f) !! id) -> satisfies id g -> needed g.
(** What [id] names is needed. *)
Definition wantedName (id : string) : Prop := forall g, ConfigID g = normalizeFeatureID id -> needed g.
(** [f] was fetched under some name, for a reason. *)
Definition fetched (f : FeatureSet) : Prop :=
  (exists id, id <> "" /\ ConfigID f = normalizeFeatureID id /\ keyOf f = keyFor id) /\ DependsOn (Config f) !! "" = None /\ needed f.

Record closed (s : Fetching) : Prop := {
  cl_fetched k f : features s !! k = Some f -> k = keyOf f /\ fetched f;
  cl_resolved k f : resolved s !! k = Some f -> features s !! k = Some f;
  cl_deps k f id : resolved s !! k = Some f -> is_Some (DependsOn (Config f) !! id) ->
    exists k' g, resolved s !! k' = Some g /\ satisfies id g;
  cl_legacy x k : legacyMap s !! x = Some k ->
    exists f l, features s !! k = Some f /\ l ∈ LegacyIds (Config f) /\ normalizeFeatureID l = x;
}.
Record larger (s s' : Fetching) : Prop := {
  la_features k f : features s !! k = Some f -> features s' !! k = Some f;
  la_resolved k f : resolved s !! k = Some f -> resolved s' !! k = Some f;
}.
#[local] Instance larger_preorder : PreOrder larger.
Proof. split; [by intros s|]. intros s1 s2 s3 [] []. split; auto. Qed.

Lemma closed_same s s' :
  features s' = features s -> resolved s' = resolved s -> legacyMap s' = legacyMap s -> closed s -> closed s'.
Proof. intros E1 E2 E3 [H1 H2 H3 H4]. split; rewrite ?E1, ?E2, ?E3; auto. Qed.

Lemma process_fetched id o s s' f : id <> "" -> wantedName id -> process id o s = (s', inr f) -> fetched f.
Proof.
  intros Hid Hw Hp. destruct (process_inr _ _ _ _ _ _ _ _ Hp) as (Hc & Hk & text & c & Hdec & Hd).
  split; [by exists id|]. split; [rewrite Hd; by eapply manifest_named|by apply Hw].
Qed.

Lemma buildLegacyIDMap_spec at_ fs x k :
  buildLegacyIDMap at_ fs !! x = Some k ->
  exists f l, fs !! k = Some f /\ l ∈ LegacyIds (Config f) /\ normalizeFeatureID l = x.
Proof.
  unfold buildLegacyIDMap. assert (Hin : forall p, p ∈ walk at_ fs -> fs !! p.1 = Some p.2).
  { intros [k' f]. by rewrite walk_perm, elem_of_map_to_list. }
  set (P := fun m : gmap string string => forall x k, m !! x = Some k ->
    exists f l, fs !! k = Some f /\ l ∈ LegacyIds (Config f) /\ normalizeFeatureID l = x).
  enough (HP : forall m, P m -> P (foldl (fun m '(key, f) =>
    foldl (fun m legacyID => <[normalizeFeatureID legacyID := key]> m) m (LegacyIds (Config f))) m (walk at_ fs))).
  { apply HP. by intros ??. }
  induction (walk at_ fs) as [|[key f] ps IH]; intros m Hm; [done|]. cbn [foldl].
  apply IH; [intros; apply Hin; by right|]. assert (Hf : fs !! key = Some f) by (apply (Hin (key, f)); left).
  assert (Hl : forall l, l ∈ LegacyIds (Config f) -> l ∈ LegacyIds (Config f)) by done. revert Hl m Hm.
  generalize (LegacyIds (Config f)) at 1 3. intros ls. induction ls as [|l ls IHl]; intros Hl m Hm; [done|].
  cbn [foldl]. apply IHl; [intros; apply Hl; by right|]. intros y k' [[<- <-]|[_ Hk]]%lookup_insert_Some; [|by apply Hm].
  exists f, l. split_and!; [done|apply Hl; left|done].
Qed.

Lemma findByConfigID_None at_ id fs k g : findByConfigID at_ id fs = None -> fs !! k = Some g -> ConfigID g <> id.
Proof.
  unfold findByConfigID. destruct (fs !! id); [done|]. intros Hh%head_None Hg Hc.
  assert (Hin : (k, g) ∈ filter (fun p : string * FeatureSet => ConfigID p.2 = id) (walk at_ fs)).
  { apply list_elem_of_filter. split; [done|]. by rewrite walk_perm, elem_of_map_to_list. }
  rewrite Hh in Hin. set_solver.
Qed.

(** A dependency is found or added. *)
Lemma install_spec parent id o s s' k g : closed s -> id <> "" -> wantedName id -> install parent id o s = (s', inr (k, g)) ->
  closed s' /\ larger s s' /\ features s' !! k = Some g /\ satisfies id g.
Proof.
  intros Hs Hid Hw. unfold findOrInstallDependency, bindGo at 1. cbn [read].
  unfold lookupDependency. destruct (findByConfigID ["find"; parent; id] _ _) as [[k1 g1]|] eqn:Hfind.
  { intros [= <- <- <-]. apply findByConfigID_Some in Hfind as [Hk Hid']. split_and!; [done..|]. left.
    destruct (cl_fetched _ Hs _ _ Hk) as [-> _]. exact Hid'. }
  destruct (legacyMap s !! _) as [c|] eqn:Hleg.
  { destruct (cl_legacy _ Hs _ _ Hleg) as (f & l & Hf & Hl & Hn). unfold findByConfigID at 1. rewrite Hf.
    intros [= <- <- <-]. split_and!; [done..|]. right. by exists l. }
  intros Hrun. apply (f_equal snd) in Hrun as Hr. cbn in Hr. revert Hrun. unfold bindGo, wrapGo.
  destruct (process id o s) as [s1 [[e|]|f]] eqn:Hp; [done..|]. cbn. intros [= <- <- <-].
  destruct (calm_process devContainerConfig forceBuild secretOpts id o s) as [[E1 E2 _ E3] _]. rewrite Hp in E1, E2, E3. cbn in *.
  pose proof (process_fetched _ _ _ _ _ Hid Hw Hp) as Hf. destruct (process_inr _ _ _ _ _ _ _ _ Hp) as (Hc & Hk & _).
  rewrite E1. assert (Hfresh : features s !! keyOf f = None).
  { destruct (features s !! keyOf f) as [g|] eqn:Hg; [exfalso|done].
    destruct (cl_fetched _ Hs _ _ Hg) as [Hkg [(id' & _ & Hcg & Hkg') _]].
    assert (Hsame : ConfigID g = normalizeFeatureID id) by (rewrite Hcg; apply keys_distinct; congruence).
    by eapply findByConfigID_None in Hfind. }
  split_and!; [|split; cbn; rewrite ?E1, ?E2|by rewrite lookup_insert_eq|left; by right].
  - split; cbn; rewrite ?E1, ?E2.
    + intros k' g [[<- <-]|[_ Hg]]%lookup_insert_Some; [done|by apply (cl_fetched _ Hs)].
    + intros k' g Hg%(cl_resolved _ Hs). rewrite lookup_insert_ne; [done|congruence].
    + apply (cl_deps _ Hs).
    + apply buildLegacyIDMap_spec.
  - intros k' g Hg. rewrite lookup_insert_ne; [done|congruence].
  - done.
Qed.

(** All the dependencies of one feature. *)
Lemma each_spec single parent ids :
  (forall k g s s', closed s -> features s !! k = Some g -> single k g s = (s', inr ()) ->
     closed s' /\ larger s s' /\ resolved s' !! k = Some g) ->
  (forall id o, (id, o) ∈ ids -> id <> "" /\ wantedName id) ->
  forall s s', closed s ->
  eachGo (fun '(id, o) => go! (k, g) := install parent id o in single k g) ids s = (s', inr ()) ->
  closed s' /\ larger s s' /\ forall id o, (id, o) ∈ ids -> exists k g, resolved s' !! k = Some g /\ satisfies id g.
Proof.
  intros Hsingle. induction ids as [|[id o] ids IH]; intros Hids s s' Hs; cbn [eachGo].
  { intros [= <-]. split_and!; [done..|]. set_solver. }
  unfold bindGo at 1 2. destruct (install parent id o s) as [s1 [f|[k g]]] eqn:Hi; [done|].
  destruct (Hids id o ltac:(left)) as [Hid Hw].
  destruct (install_spec _ _ _ _ _ _ _ Hs Hid Hw Hi) as (Hs1 & Hl1 & Hk & Hsat).
  destruct (single k g s1) as [s2 [f|[]]] eqn:Hsing; [done|].
  destruct (Hsingle _ _ _ _ Hs1 Hk Hsing) as (Hs2 & Hl2 & Hres). intros Hrest.
  destruct (IH ltac:(intros; eapply Hids; by right) s2 s' Hs2 Hrest) as (Hs' & Hl' & Hall).
  split_and!; [done|by rewrite Hl1, Hl2|]. intros id' o' [[= -> ->]|Hin]%elem_of_cons; [|by eapply Hall].
  exists k, g. split; [by apply (la_resolved _ _ Hl')|done].
Qed.

Lemma resolve_spec fuel : forall key f s s', closed s -> features s !! key = Some f ->
  resolve fuel key f s = (s', inr ()) -> closed s' /\ larger s s' /\ resolved s' !! key = Some f.
Proof.
  induction fuel as [|fuel IH]; intros key f s s' Hs Hf; [done|]. cbn [resolveFeatureDependency].
  destruct (resolved s !! key) as [f0|] eqn:Hres.
  { intros [= <-]. split_and!; [done..|]. apply (cl_resolved _ Hs) in Hres as Hf0. congruence. }
  case_decide; [done|]. set (s1 := setVisiting _ s). assert (Hs1 : closed s1) by (by eapply closed_same; [..|exact Hs]).
  unfold resolveEach, bindGo. destruct (eachGo _ _ s1) as [s2 [e|[]]] eqn:Heach; [done|]. cbn. intros [= <-].
  destruct (cl_fetched _ Hs _ _ Hf) as [_ (_ & Hnamed & Hwanted)].
  assert (Hids : forall id o, (id, o) ∈ walk ["deps"; key] (DependsOn (Config f)) -> id <> "" /\ wantedName id).
  { intros id o Hin. rewrite walk_perm, elem_of_map_to_list in Hin. split; [intros ->; congruence|].
    intros g Hg. apply (WantedNeeded f id); [done|done|]. left. by right. }
  destruct (each_spec _ key _ (fun k g s s' => IH k g s s') Hids s1 s2 Hs1 Heach) as (Hs2 & Hl2 & Hall).
  assert (Hf2 : features s2 !! key = Some f) by (by apply (la_features _ _ Hl2)).
  split_and!.
  - split; cbn.
    + apply (cl_fetched _ Hs2).
    + intros k g [[<- <-]|[_ Hg]]%lookup_insert_Some; [done|by apply (cl_resolved _ Hs2)].
    + assert (Hdep : forall id, (exists k' g, resolved s2 !! k' = Some g /\ satisfies id g) ->
                exists k' g, <[key := f]> (resolved s2) !! k' = Some g /\ satisfies id g).
      { intros id (k' & g & Hg & Hsat). destruct (decide (k' = key)) as [->|Hne].
        - exists key, f. rewrite lookup_insert_eq. split; [done|]. apply (cl_resolved _ Hs2) in Hg. congruence.
        - exists k', g. by rewrite lookup_insert_ne. }
      intros k g id [[<- <-]|[_ Hg]]%lookup_insert_Some Hid; apply Hdep.
      * destruct Hid as [o Ho]. apply (Hall id o). by rewrite walk_perm, elem_of_map_to_list.
      * by apply (cl_deps _ Hs2 k g).
    + apply (cl_legacy _ Hs2).
  - split; cbn; [apply (la_features _ _ Hl2)|]. intros k g Hg%(la_resolved _ _ Hl2). destruct (decide (k = key)) as [->|Hne].
    + apply (cl_resolved _ Hs2) in Hg. rewrite lookup_insert_eq. congruence.
    + by rewrite lookup_insert_ne.
  - cbn. by rewrite lookup_insert_eq.
Qed.

(** ** The whole fetch *)

Lemma getFeatures_spec ids : forall acc s s' fs,
  (forall id o, (id, o) ∈ ids -> id <> "" /\ wantedName id) ->
  (forall k f, acc !! k = Some f -> k = keyOf f /\ fetched f) ->
  getFeatures devContainerConfig forceBuild secretOpts ids acc s = (s', inr fs) ->
  (forall k f, fs !! k = Some f -> k = keyOf f /\ fetched f) /\
  (forall id, id ∈ ids.*1 \/ is_Some (acc !! keyFor id) -> is_Some (fs !! keyFor id)).
Proof.
  induction ids as [|[id o] ids IH]; intros acc s s' fs Hids Hacc; cbn [getFeatures].
  { intros [= _ <-]. split; [done|]. intros id [Hin|?]; [by apply elem_of_nil in Hin|done]. }
  unfold bindGo, wrapGo. destruct (process id o s) as [s1 [[e|]|f]] eqn:Hp; [done..|]. intros Hrest.
  destruct (Hids id o ltac:(left)) as [Hid Hw].
  pose proof (process_fetched _ _ _ _ _ Hid Hw Hp) as Hf. destruct (process_inr _ _ _ _ _ _ _ _ Hp) as (_ & Hk & _).
  destruct (IH (<[keyOf f := f]> acc) s1 s' fs) as [Hfs Hall]; [intros; eapply Hids; by right| |done|].
  { intros k g [[<- <-]|[_ Hg]]%lookup_insert_Some; [done|by apply Hacc]. }
  split; [done|]. intros id' [[->|Hin]%elem_of_cons|Hin]; apply Hall; [right|by left|right]; cbn; rewrite <- ?Hk.
  - by rewrite lookup_insert_eq.
  - rewrite lookup_insert. by case_decide.
Qed.

Lemma resolveAll_spec fuel ids : forall s s', closed s -> (forall k f, (k, f) ∈ ids -> features s !! k = Some f) ->
  eachGo (fun '(k, f) => resolve fuel k f) ids s = (s', inr ()) ->
  closed s' /\ larger s s' /\ forall k f, (k, f) ∈ ids -> resolved s' !! k = Some f.
Proof.
  induction ids as [|[k f] ids IH]; intros s s' Hs Hids; cbn [eachGo].
  { intros [= <-]. split_and!; [done..|]. set_solver. }
  unfold bindGo. destruct (resolve fuel k f s) as [s1 [e|[]]] eqn:Hr; [done|]. intros Hrest.
  destruct (resolve_spec _ _ _ _ _ Hs (Hids k f ltac:(left)) Hr) as (Hs1 & Hl1 & Hk).
  destruct (IH s1 s' Hs1) as (Hs' & Hl' & Hall); [|done|].
  { intros k' f' Hin. apply (la_features _ _ Hl1), Hids. by right. }
  split_and!; [done|by rewrite Hl1|]. intros k' f' [[= -> ->]|Hin]%elem_of_cons; [by apply (la_resolved _ _ Hl')|auto].
Qed.

(** A list of features that has what it needs, in an order that respects it. *)
Record complete (sorted : list FeatureSet) : Prop := {
  co_asked id : is_Some (DevTypes.Features (cBase devContainerConfig) !! id) ->
    exists f, f ∈ sorted /\ ConfigID f = normalizeFeatureID id;
  co_needs f id : f ∈ sorted -> is_Some (DependsOn (Config f) !! id) -> exists g, g ∈ sorted /\ satisfies id g;
  co_wanted f : f ∈ sorted -> needed f;
  co_once : NoDup (map keyOf sorted);
  co_order : installable sorted sorted;
}.

Lemma installable_perm l l' sorted : l ≡ₚ l' -> installable l sorted -> installable l' sorted.
Proof.
  intros Hp [H1 H2 H3]. assert (Hin : forall f, f ∈ l <-> f ∈ l') by (intros f; by rewrite Hp).
  split; [by rewrite <- Hp|..].
  - intros f id g. rewrite <- !Hin. intros Hf Hid Hg Hpr. destruct (H2 f id g Hf Hid Hg Hpr) as (g' & ? & ? & ?).
    exists g'. by rewrite <- Hin.
  - intros f id g. rewrite <- !Hin. intros Hf Hid Hh Hg Hpr. destruct (H3 f id g Hf Hid Hh Hg Hpr) as (g' & Hg' & Hpr' & Hord).
    exists g'. split_and!; [by apply Hin|done|]. destruct Hord as [?|[?|[? Htc]]]; [auto|auto|].
    do 2 right. split; [done|]. revert Htc. apply (tc_congruence (fun x => x)). intros a b (? & ? & ?). unfold needs. by rewrite <- !Hin.
Qed.

(** The values of a map of features by key. *)
Lemma values_keys at_ (m : gmap string FeatureSet) : (forall k f, m !! k = Some f -> k = keyOf f) ->
  NoDup (map keyOf (walk at_ m).*2) /\ (forall f, f ∈ (walk at_ m).*2 <-> m !! keyOf f = Some f).
Proof.
  intros Hm. assert (Hin : forall p, p ∈ walk at_ m -> keyOf p.2 = p.1).
  { intros [k f]. rewrite walk_perm, elem_of_map_to_list. intros Hk. symmetry. by apply Hm. }
  split.
  - assert (E : map keyOf (walk at_ m).*2 = (walk at_ m).*1).
    { induction (walk at_ m) as [|p ps IH]; [done|]. cbn. rewrite (Hin p) by left. f_equal. apply IH. intros; apply Hin; by right. }
    rewrite E, walk_perm. apply NoDup_fst_map_to_list.
  - intros f. rewrite list_elem_of_fmap. split.
    + intros ([k g] & -> & Hk). rewrite walk_perm, elem_of_map_to_list in Hk. cbn. by rewrite <- (Hm _ _ Hk).
    + intros Hf. exists (keyOf f, f). by rewrite walk_perm, elem_of_map_to_list.
Qed.

End Closure.
