(* ===== verification/OptVars.v ===== *)
(** Provider options: their definitions and values (src/pkg/types/option.go,
    src/pkg/config/config.go), and the variables in their defaults and commands
    (src/pkg/options/resolver/resolver.go, util.go); what a match is, that cutting
    a text into matches loses nothing, and what a resolved text depends on. *)
From S2P Require Import Prelude GoStd GoText GoConv.

Record OptionEnum := mkEnum { enValue : string; enDisplayName : string }.

Record Option := mkOption {
  oDisplayName : string;
  oDescription : string;
  oRequired : bool;
  oPassword : bool;
  oType : string;
  oValidationPattern : string;
  oValidationMessage : string;
  oSuggestions : list string;
  oEnum : list OptionEnum;
  oHidden : bool;
  oLocal : bool;
  oGlobal : bool;
  oDefault : string;
  oCache : string;
  oCommand : string;
  oSubOptionsCommand : string;
  oMutable : bool;
}.

(** A [*types.Option]; [None] is the nil pointer. *)
Abbreviation optref := (option Option).
Abbreviation OptionDefinitions := (gmap string optref).

Record OptionValue := mkValue {
  vValue : string;
  vUserProvided : bool;
  vFilled : option Z;
  vChildren : list string;
}.
(** The zero value, which Go reads for a name that is not in the map. *)
Definition noValue : OptionValue := mkValue "" false None [].
Definition valueOf (vs : gmap string OptionValue) (name : string) : OptionValue :=
  default noValue (vs !! name).

(** ** Variables *)

(** [[A-Z0-9_]] *)
Definition is_name_char (c : ascii) : bool :=
  in_range 65 90 c || in_range 48 57 c || bool_decide (c = "_"%char).
Definition notClosing (c : ascii) : bool := negb (bool_decide (c = "}"%char)).

(** [(:(-|\+)([^\}]+))?] at the start of [s]: what is behind it. *)
Definition afterDefault (s : string) : string :=
  match s with
  | String colon (String c rest) =>
      if bool_decide (colon = ":"%char) && bool_decide (c ∈ ["-"%char; "+"%char]) then
        let '(body, s') := span notClosing rest in
        if bool_decide (body = "") then s else s'
      else s
  | _ => s
  end.
Definition skipChar (c : ascii) (s : string) : string :=
  match s with
  | String d s' => if decide (d = c) then s' else s
  | EmptyString => s
  end.

(** The match of [variableExpression] at the start of [s]: the name and the
    text behind the match. *)
Definition matchVariable (s : string) : option (string * string) :=
  match s with
  | String c s1 =>
      if negb (bool_decide (c = "$"%char)) then None
      else
        let '(name, s2) := span is_name_char (skipChar "{" s1) in
        if bool_decide (name = "") then None
        else Some (name, skipChar "}" (afterDefault s2))
  | EmptyString => None
  end.

(** The text of a match. *)
Definition matchedText (s rest : string) : string :=
  string_take (String.length s - String.length rest) s.

(** A text cut into characters outside matches and the matches, leftmost first
    and without overlaps; [skip] characters belong to the last match. *)
Inductive piece := Literal (c : ascii) | Variable_ (name text : string).
Fixpoint piecesFrom (skip : nat) (s : string) : list piece :=
  match s with
  | EmptyString => []
  | String c s' =>
      match skip with
      | S k => piecesFrom k s'
      | O =>
          match matchVariable s with
          | None => Literal c :: piecesFrom 0 s'
          | Some (name, rest) =>
              let m := matchedText s rest in
              Variable_ name m :: piecesFrom (String.length m - 1) s'
          end
      end
  end.
Definition pieces (s : string) : list piece := piecesFrom 0 s.

(** The replacement of one match: the name is looked for in its text again. *)
Definition replaceVariable (resolvedOptions : gmap string string) (s : string) : string :=
  match matchVariable s with
  | Some (name, _) => default s (resolvedOptions !! name)
  | None => s
  end.
Definition pieceText (resolvedOptions : gmap string string) (p : piece) : string :=
  match p with
  | Literal c => String c ""
  | Variable_ _ text => replaceVariable resolvedOptions text
  end.
Definition ResolveDefaultValue (val : string) (resolvedOptions : gmap string string) : string :=
  foldr (fun p acc => pieceText resolvedOptions p +:+ acc) "" (pieces val).

Definition ResolveDefaultValues (vals resolvedOptions : gmap string string) : gmap string string :=
  base.filter (fun p : string * string => p.2 <> "")
    ((fun v => ResolveDefaultValue v resolvedOptions) <$> vals).

Definition variableNames (s : string) : list string :=
  omap (fun p => match p with Variable_ name _ => Some name | Literal _ => None end) (pieces s).
Definition findVariables (str : string) : list string := sortStrings (remove_dups (variableNames str)).

Definition combine (resolvedOptions : gmap string OptionValue) (extraValues : gmap string string)
    : gmap string string :=
  (vValue <$> resolvedOptions) ∪ extraValues.

Example resolve_braces :
  ResolveDefaultValue "${HOME_DIR}/x-$USER:${NONE:-y}" {["HOME_DIR" := "/h"; "USER" := "u"]}
    = "/h/x-u:${NONE:-y}".
Proof. vm_compute. reflexivity. Qed.
Example find_some : findVariables "$B and ${A:-x} and $B" = ["A"; "B"].
Proof. vm_compute. reflexivity. Qed.

(** ** [span] *)

(** Every character of [s] satisfies [p]. *)
Fixpoint allChars (p : ascii -> bool) (s : string) : bool :=
  match s with EmptyString => true | String c s' => p c && allChars p s' end.
(** [s] does not start with such a character. *)
Definition stops (p : ascii -> bool) (s : string) : bool :=
  match s with EmptyString => true | String c _ => negb (p c) end.

Lemma span_spec p s : allChars p (span p s).1 = true /\ stops p (span p s).2 = true.
Proof.
  induction s as [|c s [Ha Hs]]; [done|]. cbn [span]. destruct (p c) eqn:Hp.
  - destruct (span p s) as [a b]. cbn [fst snd allChars] in *. by rewrite Hp.
  - cbn. by rewrite Hp.
Qed.
Lemma span_exact p a b : allChars p a = true -> stops p b = true -> span p (a +:+ b) = (a, b).
Proof.
  intros Ha Hb. induction a as [|c a IH].
  - change ("" +:+ b) with b. destruct b as [|c b]; [done|]. cbn in *. apply negb_true_iff in Hb. by rewrite Hb.
  - cbn [allChars] in Ha. apply andb_true_iff in Ha as [Hc Ha]. rewrite string_app_cons. cbn [span].
    by rewrite Hc, (IH Ha).
Qed.

(** ** Matches *)

Lemma name_char_not c : is_name_char c = true -> c <> "{"%char /\ c <> "}"%char /\ c <> ":"%char.
Proof. intros Hc. split_and!; intros ->; by vm_compute in Hc. Qed.

(** The optional default of a variable and the brace that may close it. *)
Definition isDefault (d : string) : Prop :=
  d = "" \/ exists c body, d = String ":" (String c body) /\ c ∈ ["-"%char; "+"%char] /\
    body <> "" /\ allChars notClosing body = true.
Definition isClosing (e : string) : Prop := e = "" \/ e = "}".

Lemma afterDefault_exact c body e :
  c ∈ ["-"%char; "+"%char] -> body <> "" -> allChars notClosing body = true ->
  stops notClosing e = true -> afterDefault (String ":" (String c (body +:+ e))) = e.
Proof.
  intros Hc Hne Hb He. cbn [afterDefault]. rewrite !bool_decide_true by done. cbn [andb].
  by rewrite (span_exact _ _ _ Hb He), bool_decide_false by done.
Qed.
Lemma afterDefault_spec s :
  exists d, isDefault d /\ s = d +:+ afterDefault s /\
    (if decide (d = "") then afterDefault s = s else stops notClosing (afterDefault s) = true).
Proof.
  assert (Hno : afterDefault s = s -> exists d, isDefault d /\ s = d +:+ afterDefault s /\
    (if decide (d = "") then afterDefault s = s else stops notClosing (afterDefault s) = true)).
  { intros Hs. exists "". split_and!; [by left|by rewrite Hs|done]. }
  destruct s as [|c1 [|c2 rest]]; [by apply Hno..|]. revert Hno. cbn [afterDefault].
  destruct (_ && _) eqn:Hc; [|by auto]. apply andb_true_iff in Hc as [H1 H2].
  apply bool_decide_eq_true in H1 as ->. apply bool_decide_eq_true in H2.
  pose proof (span_join notClosing rest) as Happ. destruct (span_spec notClosing rest) as [Hb He].
  destruct (span notClosing rest) as [body e]. cbn [fst snd] in *.
  case_bool_decide as Hne; [by auto|]. intros _. exists (String ":" (String c2 body)).
  split_and!; [right; by exists c2, body|by rewrite !string_app_cons, Happ|done].
Qed.

Lemma skipChar_spec c s : exists o, (o = "" \/ o = String c "") /\ s = o +:+ skipChar c s /\
  (o = "" -> forall s', s <> String c s').
Proof.
  destruct s as [|d s]; [exists ""; split_and!; auto; done|]. cbn [skipChar]. case_decide as Hd.
  - subst d. exists (String c ""). split_and!; [by right|done|done].
  - exists "". split_and!; [by left|done|]. intros _ s' [= ? _]. done.
Qed.

(** Behind the name: the default and the brace, and nothing after them. *)
Lemma behindName d e :
  isDefault d -> isClosing e -> skipChar "}" (afterDefault (d +:+ e)) = "" /\ stops is_name_char (d +:+ e) = true.
Proof.
  intros Hd He. assert (Hse : stops notClosing e = true) by (by destruct He as [-> | ->]).
  destruct Hd as [->|(c & body & -> & Hc & Hne & Hb)].
  - change ("" +:+ e) with e. by destruct He as [-> | ->].
  - rewrite !string_app_cons, afterDefault_exact by done. by destruct He as [-> | ->].
Qed.

(** What is matched is matched again on its own, with the same name. *)
Lemma matchVariable_spec s name rest :
  matchVariable s = Some (name, rest) ->
  exists m, s = m +:+ rest /\ m <> "" /\ matchVariable m = Some (name, "").
Proof.
  destruct s as [|c s1]; [done|]. cbn [matchVariable]. case_bool_decide as Hc; [subst c; cbn [negb]|done].
  intros Hm. destruct (skipChar_spec "{" s1) as (o & Ho & Hs1 & Hno).
  pose proof (span_join is_name_char (skipChar "{" s1)) as Happ.
  destruct (span_spec is_name_char (skipChar "{" s1)) as [Hn _].
  destruct (span is_name_char (skipChar "{" s1)) as [n s2]. cbn [fst snd] in *.
  case_bool_decide as Hne; [done|]. injection Hm as -> Hrest.
  destruct (afterDefault_spec s2) as (d & Hd & Hs2 & _).
  destruct (skipChar_spec "}" (afterDefault s2)) as (e & He & Hs3 & _). rewrite Hrest in Hs3.
  exists (String "$" (o +:+ (name +:+ (d +:+ e)))). split_and!; [|done|].
  { rewrite string_app_cons. f_equal. rewrite Hs1, <- Happ, Hs2, Hs3. by rewrite !string_app_assoc. }
  destruct (behindName d e Hd He) as [Hb Hst]. cbn [matchVariable].
  rewrite bool_decide_true by done. cbn [negb].
  assert (Hskip : skipChar "{" (o +:+ (name +:+ (d +:+ e))) = name +:+ (d +:+ e)).
  { destruct Ho as [-> | ->]; [|done]. change ("" +:+ ?x) with x. destruct name as [|x name]; [done|].
    rewrite string_app_cons. cbn [skipChar]. cbn [allChars] in Hn. apply andb_true_iff in Hn as [Hx _].
    rewrite decide_False; [done|]. by apply name_char_not. }
  rewrite Hskip, (span_exact _ _ _ Hn Hst), bool_decide_false, Hb by done. done.
Qed.

Lemma matchedText_app m rest : matchedText (m +:+ rest) rest = m.
Proof.
  unfold matchedText. rewrite string_length_app, Nat.add_sub. apply string_take_app.
Qed.

(** ** Pieces *)

Definition wellMatched (p : piece) : Prop :=
  match p with Literal _ => True | Variable_ name text => matchVariable text = Some (name, "") end.
Definition pieceSource (p : piece) : string :=
  match p with Literal c => String c "" | Variable_ _ text => text end.

Lemma string_drop_one c s n : (0 < n)%nat -> string_drop n (String c s) = string_drop (n - 1) s.
Proof. destruct n; [lia|]. intros _. cbn. by rewrite Nat.sub_0_r. Qed.

Lemma piecesFrom_spec s : forall skip,
  Forall wellMatched (piecesFrom skip s) /\
  foldr (fun p acc => pieceSource p +:+ acc) "" (piecesFrom skip s) = string_drop skip s.
Proof.
  induction s as [|c s IH]; intros skip; [by destruct skip|]. cbn [piecesFrom].
  destruct skip as [|k]; [|by apply IH].
  destruct (matchVariable (String c s)) as [[name rest]|] eqn:Hm.
  - apply matchVariable_spec in Hm as (m & Hs & Hne & Hm). rewrite Hs, matchedText_app.
    destruct (IH (String.length m - 1)%nat) as [Hw Hf]. split; [by constructor|].
    cbn [foldr pieceSource]. rewrite Hf. change (string_drop 0 ?x) with x.
    rewrite <- (string_drop_one c) by (destruct m; [done|cbn; lia]). by rewrite Hs, string_drop_app.
  - destruct (IH 0%nat) as [Hw Hf]. split; [by constructor|]. cbn [foldr pieceSource]. by rewrite Hf.
Qed.

Lemma pieces_matched s : Forall wellMatched (pieces s).
Proof. apply piecesFrom_spec. Qed.

(** Without values a text stays as it is. *)
Lemma ResolveDefaultValue_empty s : ResolveDefaultValue s ∅ = s.
Proof.
  destruct (piecesFrom_spec s 0) as [Hw Hf]. change (string_drop 0 s) with s in Hf.
  rewrite <- Hf at 2. unfold ResolveDefaultValue. fold (pieces s). fold (pieces s) in Hw.
  induction Hw as [|p ps Hp _ IH]; [done|]. cbn [foldr]. rewrite IH. f_equal.
  destruct p as [c|name text]; [done|]. cbn in Hp |- *. unfold replaceVariable. by rewrite Hp, lookup_empty.
Qed.

(** The resolved text depends on the values of its variables only. *)
Lemma ResolveDefaultValue_ext s m m' :
  (forall x, x ∈ variableNames s -> m !! x = m' !! x) -> ResolveDefaultValue s m = ResolveDefaultValue s m'.
Proof.
  intros Hm. unfold ResolveDefaultValue. pose proof (pieces_matched s) as Hw. revert Hm.
  unfold variableNames. induction Hw as [|p ps Hp _ IH]; [done|]. intros Hm. cbn [foldr]. f_equal.
  - destruct p as [c|name text]; [done|]. cbn in Hp |- *. unfold replaceVariable. rewrite Hp.
    rewrite (Hm name); [done|]. cbn. set_solver.
  - apply IH. intros x Hx. apply Hm. destruct p; cbn; set_solver.
Qed.

Lemma elem_of_findVariables x s : x ∈ findVariables s <-> x ∈ variableNames s.
Proof.
  unfold findVariables, sortStrings. rewrite merge_sort_Permutation. apply elem_of_remove_dups.
Qed.
