(* ===== verification/OptResolver.v ===== *)
(** The resolver of provider options (src/pkg/options/resolver): validation of
    values, the dependency graph of the options, and their resolution, with sub
    options that commands add while it runs. *)
From S2P Require Import Prelude GoStd GoText GoConv OptVars Graph.

(** What the resolver calls outside of the program: commands of the provider,
    the reading of their output as YAML, the clock, a question to the user, and
    the order in which Go walks a map.  A command that fails gives its two outputs
    with the error.  The number says how often the outside
    was asked before, so that equal calls may answer differently. *)
Class Outside := {
  runShell : nat -> string -> gmap string string -> (string * string) * goerr + string;
  unmarshalSubOptions : string -> goerr + OptionDefinitions;
  timeNow : nat -> Z;
  IsTerminalIn : bool;
  askUser : nat -> string -> Option -> goerr + string;
  mapOrder : nat -> list string -> list string;
}.
(** [regexp.Compile] and [MatchString]: [None] is a pattern that does not compile. *)
Class Regexp := regexpMatch : string -> string -> option bool.

(** Go walks every entry of a map once. *)
Class OutsideLaws `{Outside} := mapOrder_perm n l : mapOrder n l ≡ₚ l.

Definition rootID := "root".

(** A result that may be absent; [option] is a name of the sources here. *)
Abbreviation maybe := option.

(** ** Validation *)

Section Validation.
Context `{Regexp}.
Implicit Types (option : Option).

Definition invalid (format optionName userValue : string) (more : list string) : goerr :=
  Errorf format (AStr userValue :: AStr optionName :: map AStr more).
(** [%v] of a list of enum values. *)
Definition enumText (es : list OptionEnum) : string :=
  "[" +:+ String.concat " " (map (fun e => "{" +:+ enValue e +:+ " " +:+ enDisplayName e +:+ "}") es) +:+ "]".

Definition validateUserValuePattern (optionName userValue : string) option : err :=
  if bool_decide (oValidationPattern option = "") then None
  else match regexpMatch (oValidationPattern option) userValue with
       | None => Some (Sentinel "regexp/syntax.Error" "error parsing regexp")
       | Some true => None
       | Some false =>
           if bool_decide (oValidationMessage option = "")
           then Some (invalid "invalid value %q for option %q, has to match the following regEx: %s"
                          optionName userValue [oValidationPattern option])
           else Some (Errorf "%s" [AStr (oValidationMessage option)])
       end.

Definition validateUserValueEnum (optionName userValue : string) option : err :=
  if bool_decide (oEnum option = []) then None
  else if bool_decide (userValue ∈ map enValue (oEnum option)) then None
  else Some (invalid "invalid value %q for option %q, has to match one of the following values: %v"
                optionName userValue [enumText (oEnum option)]).

Definition validateUserValueType (optionName userValue : string) option : err :=
  if bool_decide (oType option = "number") then
    if ParseInt userValue is Some _ then None else Some (invalid "invalid value %q for option %q, must be a number" optionName userValue [])
  else if bool_decide (oType option = "boolean") then
    if ParseBool userValue is Some _ then None else Some (invalid "invalid value %q for option %q, must be a boolean" optionName userValue [])
  else if bool_decide (oType option = "duration") then
    if ParseDuration userValue is Some _ then None
    else Some (invalid "invalid value %q for option %q, must be a duration like 10s, 5m or 24h" optionName userValue [])
  else None.

Definition validateUserValue (optionName userValue : string) option : err :=
  andThen (validateUserValuePattern optionName userValue option)
    (andThen (validateUserValueEnum optionName userValue option)
       (validateUserValueType optionName userValue option)).
End Validation.

(** ** The dependency graph *)

Abbreviation OptGraph := (Graph optref).

(** The errors of [validateChildDependency] and [validateVariableDependency]. *)
Definition childScopeError (format childName optionName : string) : goerr :=
  Errorf format [AStr childName; AStr optionName].
Definition variableScopeError (format dep kind optionName : string) : goerr :=
  Errorf format [AStr dep; AStr kind; AStr optionName].

Definition validateChildDependency (g : OptGraph) (option : Option) (optionName childName : string) : err :=
  match GetNode g childName with
  | None | Some None => None
  | Some (Some child) =>
      if negb (oGlobal option) && oGlobal child
      then Some (childScopeError
        "cannot use a global option as a dependency of a non-global option. Option %q used in children of option %q"
        childName optionName)
      else if oLocal option && negb (oLocal child)
      then Some (childScopeError
        "cannot use a non-local option as a dependency of a local option. Option %q used in children of option %q"
        childName optionName)
      else None
  end.

Definition validateVariableDependency (g : OptGraph) (option : Option) (optionName kind dep : string) : err :=
  match GetNode g dep with
  | None | Some None => None
  | Some (Some d) =>
      if oGlobal option && negb (oGlobal d)
      then Some (variableScopeError
        "cannot use a non-global option as a dependency of a global option. Option %q used in %s of option %q"
        dep kind optionName)
      else if negb (oLocal option) && oLocal d
      then Some (variableScopeError
        "cannot use a local option as a dependency of a non-local option. Option %q used in %s of option %q"
        dep kind optionName)
      else None
  end.

Fixpoint addChildDependencies (g : OptGraph) (option : Option) (optionName : string)
    (children : list string) : OptGraph * err :=
  match children with
  | [] => (g, None)
  | childName :: rest =>
      if negb (HasNode g childName) || bool_decide (childName = optionName)
      then addChildDependencies g option optionName rest
      else match validateChildDependency g option optionName childName with
           | Some e => (g, Some e)
           | None => addChildDependencies (AddEdge g optionName childName).1 option optionName rest
           end
  end.

Fixpoint addVariableDependencies (g : OptGraph) (option : Option) (optionName kind : string)
    (deps : list string) : OptGraph * err :=
  match deps with
  | [] => (g, None)
  | dep :: rest =>
      if negb (HasNode g dep) || bool_decide (dep = optionName)
      then addVariableDependencies g option optionName kind rest
      else match validateVariableDependency g option optionName kind dep with
           | Some e => (g, Some e)
           | None => addVariableDependencies (AddEdge g dep optionName).1 option optionName kind rest
           end
  end.

Definition addDependency (g : OptGraph) (optionValues : gmap string OptionValue) (optionName : string)
    : OptGraph * err :=
  match GetNode g optionName with
  | None | Some None => (g, None)
  | Some (Some option) =>
      match addChildDependencies g option optionName (vChildren (valueOf optionValues optionName)) with
      | (g1, Some e) => (g1, Some e)
      | (g1, None) =>
          match addVariableDependencies g1 option optionName "default" (findVariables (oDefault option)) with
          | (g2, Some e) => (g2, Some e)
          | (g2, None) =>
              addVariableDependencies g2 option optionName "command" (findVariables (oCommand option))
          end
      end
  end.

Fixpoint addDependencies (g : OptGraph) (optionValues : gmap string OptionValue) (names : list string)
    : OptGraph * err :=
  match names with
  | [] => (g, None)
  | name :: rest =>
      match addDependency g optionValues name with
      | (g', Some e) => (g', Some e)
      | (g', None) => addDependencies g' optionValues rest
      end
  end.

Definition withRoot (g : OptGraph) : OptGraph :=
  if HasNode g rootID then g else (AddNode g rootID None).1.
(** [SetNode] and the edge from the root, for one definition. *)
Definition addOption (defs : OptionDefinitions) (g : OptGraph) (name : string) : OptGraph :=
  (AddEdge (SetNode g name (default None (defs !! name))).1 rootID name).1.
(** [order1] and [order2] are the names of the definitions, as the two loops
    walk them. *)
Definition addOptionsToGraph (order1 order2 : list string) (g : OptGraph) (defs : OptionDefinitions)
    (optionValues : gmap string OptionValue) : OptGraph * err :=
  addDependencies (foldl (addOption defs) (withRoot g) order1) optionValues order2.

(** ** Resolving *)

Record Resolver := mkResolver {
  extraValues : gmap string string;
  resolveLocal : bool;
  resolveGlobal : bool;
  resolveSubOptions : bool;
  skipRequired : bool;
}.
(** What a run of the resolver changes: the graph, the options of the user, the
    values, and how often the outside was asked. *)
Record RState := mkState {
  rsGraph : OptGraph;
  rsUser : gmap string string;
  rsValues : gmap string OptionValue;
  rsAsked : nat;
}.
Definition withGraph (g : OptGraph) (s : RState) : RState := mkState g (rsUser s) (rsValues s) (rsAsked s).
Definition withUser (u : gmap string string) (s : RState) : RState :=
  mkState (rsGraph s) u (rsValues s) (rsAsked s).
Definition withValues (vs : gmap string OptionValue) (s : RState) : RState :=
  mkState (rsGraph s) (rsUser s) vs (rsAsked s).

(** A run fails with an error, panics at a nil option, or is out of fuel. *)
Inductive failure := Failed (e : goerr) | Panicked | OutOfFuel.

Definition R (A : Type) : Type := RState -> RState * (failure + A).
Definition rret {A} (a : A) : R A := fun s => (s, inr a).
Definition fail {A} (e : goerr) : R A := fun s => (s, inl (Failed e)).
Definition panic {A} : R A := fun s => (s, inl Panicked).
Definition rbind {A B} (m : R A) (k : A -> R B) : R B := fun s =>
  let '(s', r) := m s in
  match r with inl f => (s', inl f) | inr a => k a s' end.
Notation "'res!' x ':=' m 'in' k" := (rbind m (fun x => k))
  (at level 10, x pattern, m at level 100, k at level 200) : devsy_scope.

Definition gets {A} (f : RState -> A) : R A := fun s => (s, inr (f s)).
Definition modifyR (f : RState -> RState) : R unit := fun s => (f s, inr tt).
Definition values : R (gmap string OptionValue) := gets rsValues.
Definition setValue (name : string) (v : OptionValue) : R unit :=
  modifyR (fun s => withValues (<[name := v]> (rsValues s)) s).
Definition deleteValue (name : string) : R unit :=
  modifyR (fun s => withValues (delete name (rsValues s)) s).
(** Ask the outside. *)
Definition asking {A} (f : nat -> A) : R A := fun s =>
  (mkState (rsGraph s) (rsUser s) (rsValues s) (S (rsAsked s)), inr (f (rsAsked s))).
Definition orFail {A} (r : goerr + A) : R A := match r with inl e => fail e | inr a => rret a end.
Definition deref (o : optref) : R Option := match o with Some opt => rret opt | None => panic end.

(** [fmt.Errorf(format, args..., err)] around the error of [m]. *)
Definition wrapping {A} (format : string) (args : list string) (m : R A) : R A := fun s =>
  let '(s', x) := m s in
  (s', match x with
       | inl (Failed e) => inl (Failed (Errorf format (map AStr args ++ [AErr e])))
       | _ => x
       end).
(** A nil pointer is used. *)
Definition panicIf (isNil : bool) : R unit := if isNil then panic else rret tt.

Section Resolve.
Context `{Outside} `{Regexp}.
Variable r : Resolver.

(** The names of a map in the order Go walks it. *)
Definition walk {A} (m : gmap string A) : R (list string) :=
  asking (fun n => mapOrder n ((map_to_list m).*1)).

Definition execOptionCommand (command : string) : R string :=
  res! vs := values in
  res! out := asking (fun n => runShell n command (combine vs (extraValues r))) in
  match out with
  | inl (written, e) => fail (Errorf "exec command: %s%s: %w" [AStr written.1; AStr written.2; AErr e])
  | inr stdout => rret stdout
  end.

Definition resolveFromCommand (option : Option) : R OptionValue :=
  res! out := wrapping "run command: %w" [] (execOptionCommand (oCommand option)) in
  res! t := asking timeNow in
  rret (mkValue (TrimSpace out) false (Some t) []).

(** The values [getValue] looks up; a stored value that is no longer valid is
    stripped. *)
Definition getValue (optionName : string) (option : Option)
    : R (maybe string * maybe OptionValue) :=
  res! userValue := gets (fun s => rsUser s !! optionName) in
  res! before := gets (fun s => rsValues s !! optionName) in
  match userValue ≫= fun v => validateUserValue optionName v option with
  | Some e => fail e
  | None =>
      match before ≫= fun b => validateUserValue optionName (vValue b) option with
      | Some _ =>
          res! _ := deleteValue optionName in rret (userValue, None)
      | None => rret (userValue, before)
      end
  end.

(** The error of [time.ParseDuration]. *)
Definition invalidDuration : goerr := Sentinel "time.ParseDuration" "time: invalid duration".
Definition beforeValueStillValid (optionName : string) (option : Option) (before : OptionValue) : R bool :=
  if vUserProvided before || bool_decide (oCache option = "") then rret true
  else match ParseDuration (oCache option) with
       | None => fail (Errorf "parse cache duration of option %s: %w" [AStr optionName; AErr invalidDuration])
       | Some d =>
           match vFilled before with
           | None => rret false
           | Some t => res! now := asking timeNow in rret (now <? t + d)
           end
       end.

Definition skipForScope (option : Option) : bool :=
  if oRequired option then false
  else if negb (resolveGlobal r) && oGlobal option then true
  else negb (resolveLocal r) && oLocal option.

Definition shouldSkipResolve (optionName : string) (option : Option) (userValue : maybe string)
    (before : maybe OptionValue) : R bool :=
  match userValue with
  | Some _ => rret false
  | None =>
      match before with
      | None => rret (skipForScope option)
      | Some b =>
          res! still := beforeValueStillValid optionName option b in
          if (still : bool) then rret true else rret (skipForScope option)
      end
  end.

Definition withChildren (children : list string) (v : OptionValue) : OptionValue :=
  mkValue (vValue v) (vUserProvided v) (vFilled v) children.

Definition computeOptionValue (optionName : string) (option : Option) (userValue : maybe string)
    (children : list string) : R unit :=
  match userValue with
  | Some v => setValue optionName (mkValue v true None children)
  | None =>
      if negb (bool_decide (oDefault option = "")) then
        res! vs := values in
        setValue optionName
          (mkValue (ResolveDefaultValue (oDefault option) (combine vs (extraValues r))) false None children)
      else if negb (bool_decide (oCommand option = "")) then
        res! v := resolveFromCommand option in
        setValue optionName (withChildren children v)
      else match oEnum option with
           | [only] => setValue optionName (mkValue (enValue only) false None children)
           | _ => setValue optionName (mkValue "" false None children)
           end
  end.

Definition askRequired (optionName : string) (option : Option) : R unit :=
  if negb IsTerminalIn
  then fail (Errorf "option %s is required, but no value provided" [AStr optionName])
  else
    res! answer := asking (fun n => askUser n optionName option) in
    res! v := orFail answer in
    setValue optionName (mkValue v true None []).

(** Change the graph; its error, if any, is the result. *)
Definition editGraph (f : OptGraph -> OptGraph * err) : R unit := fun s =>
  let '(g, e) := f (rsGraph s) in
  (withGraph g s, match e with Some e' => inl (Failed e') | None => inr tt end).

Definition resolveRequired (optionName : string) (option : Option) (userValueOk : bool) : R unit :=
  if userValueOk || negb (oRequired option) then rret tt
  else
    res! vs := values in
    let current := valueOf vs optionName in
    if negb (bool_decide (vValue current = "")) || vUserProvided current then rret tt
    else if skipRequired r then
      res! _ := deleteValue optionName in
      editGraph (fun g => RemoveChildren g optionName)
    else askRequired optionName option.

(** Values of children that the user did not give are dropped. *)
Definition dropChild (vs : gmap string OptionValue) (childID : string) : gmap string OptionValue :=
  match vs !! childID with
  | Some v => if vUserProvided v then vs else delete childID vs
  | None => vs
  end.
Definition invalidateChangedChildren (optionName beforeValue : string) : R unit :=
  modifyR (fun s =>
    if bool_decide (beforeValue = vValue (valueOf (rsValues s) optionName)) then s
    else withValues (foldl dropChild (rsValues s) (GetChildren (rsGraph s) optionName)) s).

Definition resolveOption (optionName : string) : R unit :=
  res! node := gets (fun s => GetNode (rsGraph s) optionName) in
  match node with
  | None => fail (Errorf "option %s not found in graph" [AStr optionName])
  | Some ref =>
      res! option := deref ref in
      res! existing := getValue optionName option in
      let '(userValue, before) := existing in
      res! skip := shouldSkipResolve optionName option userValue before in
      if (skip : bool) then rret tt
      else
        res! _ := computeOptionValue optionName option userValue (vChildren (default noValue before)) in
        res! _ := resolveRequired optionName option (bool_decide (is_Some userValue)) in
        invalidateChangedChildren optionName (vValue (default noValue before))
  end.

(** ** Sub options *)

Definition dynamicOptionsForNode (g : OptGraph) (children : list string) : OptionDefinitions :=
  list_to_map (omap (fun c => (fun o => (c, o)) <$> GetNode g c) children).

(** [None] is a panic at a nil option. *)
Definition optionChanged (old : OptionDefinitions) (name : string) (new : optref)
    (vs : gmap string OptionValue) : maybe bool :=
  match old !! name, vs !! name with
  | None, _ | _, None => Some true
  | Some oldRef, Some oldValue =>
      newV ← new;
      if negb (bool_decide (oEnum newV = [])) &&
         negb (bool_decide (vValue oldValue ∈ map enValue (oEnum newV))) then Some true
      else if vUserProvided oldValue then Some false
      else oldV ← oldRef; Some (negb (bool_decide (oDefault oldV = oDefault newV)))
  end.
Definition getChangedOptions (old new : OptionDefinitions) (vs : gmap string OptionValue)
    : maybe (list string) :=
  let gone := filter (fun k => new !! k = None) ((map_to_list old).*1) in
  changed ← mapM (fun p : string * optref => c ← optionChanged old p.1 p.2 vs; Some (p.1, c)) (map_to_list new);
  Some (gone ++ (filter (fun q : string * bool => q.2 = true) changed).*1).

Definition pruneChangedChildren (optionName : string) (new : OptionDefinitions) : R unit :=
  res! changed := gets (fun s =>
    getChangedOptions (dynamicOptionsForNode (rsGraph s) (vChildren (valueOf (rsValues s) optionName)))
      new (rsValues s)) in
  match changed with
  | None => panic
  | Some ids =>
      modifyR (fun s =>
        mkState (foldl (fun g c => (RemoveNode g c).1) (rsGraph s) ids) (rsUser s)
          (foldl (fun vs c => delete c vs) (rsValues s) ids) (rsAsked s))
  end.

Definition keepsUserValue (new : OptionDefinitions) (name userValue : string) : bool :=
  match new !! name with
  | Some (Some option) => bool_decide (validateUserValue name userValue option = None)
  | _ => true
  end.
(** A user value for a nil option. *)
Definition userOfNil (new : OptionDefinitions) (user : gmap string string) : bool :=
  existsb (fun p : string * optref => bool_decide (p.2 = None /\ is_Some (user !! p.1))) (map_to_list new).
Definition dropInvalidUserValues (new : OptionDefinitions) : R unit :=
  res! isNil := gets (fun s => userOfNil new (rsUser s)) in
  res! _ := panicIf isNil in
  modifyR (fun s => withUser
    (base.filter (fun p : string * string => keepsUserValue new p.1 p.2 = true) (rsUser s)) s).

Definition setChildren (optionName : string) (new : OptionDefinitions) : R unit :=
  res! names := walk new in
  modifyR (fun s => withValues
    (<[optionName := withChildren names (valueOf (rsValues s) optionName)]> (rsValues s)) s).

Definition resolveSubOptionsOf (option : Option) : R OptionDefinitions :=
  res! out := wrapping "run subOptionsCommand: %w" [] (execOptionCommand (oSubOptionsCommand option)) in
  match unmarshalSubOptions out with
  | inl e => fail (Errorf "parse subOptionsCommand: %s: %w" [AStr out; AErr e])
  | inr defs => rret defs
  end.

Definition addToGraph (defs : OptionDefinitions) (vs : gmap string OptionValue) : R unit :=
  res! order1 := walk defs in
  res! order2 := walk defs in
  editGraph (fun g => addOptionsToGraph order1 order2 g defs vs).

Definition retrieveSubOptions (optionName : string) : R (option OptionDefinitions) :=
  res! node := gets (fun s => GetNode (rsGraph s) optionName) in
  match node with
  | None => rret None
  | Some ref =>
      if negb (resolveSubOptions r) then rret None
      else
        res! option := deref ref in
        res! vs := values in
        if bool_decide (oSubOptionsCommand option = "") || bool_decide (vs !! optionName = None) then rret None
        else
          res! defs := resolveSubOptionsOf option in
          res! _ := pruneChangedChildren optionName defs in
          res! _ := dropInvalidUserValues defs in
          res! _ := setChildren optionName defs in
          res! vs' := values in
          res! _ := wrapping "add sub options: %w" [] (addToGraph defs vs') in
          rret (Some defs)
  end.

(** The queue of [resolveDynamicOptions]. *)
Fixpoint dynamicLoop (fuel : nat) (queue : list string) (processed : gset string) : R unit :=
  match queue with
  | [] => rret tt
  | opt :: rest =>
      match fuel with
      | O => fun s => (s, inl OutOfFuel)
      | S fuel' =>
          res! has := gets (fun s => HasNode (rsGraph s) opt) in
          if bool_decide (opt ∈ processed) || negb has then dynamicLoop fuel' rest processed
          else
            res! _ := wrapping "resolve dynamic option %s: %w" [opt] (resolveOption opt) in
            res! subOptions := wrapping "get sub options for %s: %w" [opt] (retrieveSubOptions opt) in
            let processed' := {[opt]} ∪ processed in
            res! names := walk (default ∅ subOptions) in
            dynamicLoop fuel' (rest ++ filter (fun n => n ∉ processed') names) processed'
      end
  end.
Definition resolveDynamicOptions (fuel : nat) (options : OptionDefinitions) : R unit :=
  res! names := walk options in dynamicLoop fuel names ∅.

Definition refreshSubOptions (fuel : nat) (optionName : string) : R unit :=
  res! subOptions := retrieveSubOptions optionName in
  match subOptions with
  | None => rret tt
  | Some defs => wrapping "resolve dynamic sub options: %w" [] (resolveDynamicOptions fuel defs)
  end.

(** ** The whole *)

Fixpoint resolveEach (fuel : nat) (names : list string) : R unit :=
  match names with
  | [] => rret tt
  | name :: rest =>
      res! has := gets (fun s => HasNode (rsGraph s) name) in
      if bool_decide (name = rootID) || negb has then resolveEach fuel rest
      else
        res! _ := wrapping "resolve option %s: %w" [name] (resolveOption name) in
        res! _ := wrapping "refresh sub options for %s: %w" [name] (refreshSubOptions fuel name) in
        resolveEach fuel rest
  end.

Definition resolveOptions (fuel : nat) : R unit :=
  res! sorted := gets (fun s => SortNodeIDs (rsGraph s)) in
  match sorted with
  | None => fun s => (s, inl OutOfFuel)
  | Some (inl e) => fail (Errorf "failed to sort options: %w" [AErr e])
  | Some (inr names) => resolveEach fuel names
  end.

Definition notNil (defs : OptionDefinitions) (k : string) : bool :=
  match defs !! k with Some (Some _) => true | _ => false end.

Definition findNewDynamicDefinitions (optionDefinitions : OptionDefinitions) (s : RState) : OptionDefinitions :=
  base.filter (fun p : string * optref =>
    p.1 <> rootID /\ notNil optionDefinitions p.1 = false /\
    existsb (fun q : string * OptionValue => bool_decide (p.1 ∈ vChildren q.2)) (map_to_list (rsValues s)) = true)
    (GetNodes (rsGraph s)).

Definition removeStaleOptions (vs : gmap string OptionValue) (dynamic defs : OptionDefinitions)
    : gmap string OptionValue :=
  base.filter (fun p : string * OptionValue => notNil dynamic p.1 || notNil defs p.1 = true) vs.

Definition mergeMaps {A} (existing new : gmap string A) : gmap string A := new ∪ existing.

Definition Resolve (fuel : nat) (userOptions : gmap string string)
    (dynamicDefinitions optionDefinitions : OptionDefinitions) (optionValues : gmap string OptionValue)
    : RState * (failure + (gmap string OptionValue * OptionDefinitions)) :=
  (res! _ := addToGraph (mergeMaps dynamicDefinitions optionDefinitions) optionValues in
   res! _ := resolveOptions fuel in
   gets (fun s =>
     let new := findNewDynamicDefinitions optionDefinitions s in
     (removeStaleOptions (rsValues s) new optionDefinitions, new)))
  (mkState NewGraph userOptions optionValues 0).
End Resolve.
