(* ===== verification/OptConsistent.v ===== *)
(** The dependency graph of options: its edges respect the scopes of options,
    and every variable of a default or a command has its edge.  Resolving options
    from nothing: the values that come out fit together. *)
From S2P Require Import Prelude GoStd GoText GoConv Graph GraphReach GraphSort OptVars OptResolver.

(** ** Scopes *)

(** A global option only depends on global ones, and only local options depend
    on a local one. *)
Definition scoped (ns : gmap string optref) (u v : string) : Prop :=
  match ns !! u, ns !! v with
  | Some (Some a), Some (Some b) => (oGlobal b = true -> oGlobal a = true) /\ (oLocal a = true -> oLocal b = true)
  | _, _ => True
  end.

Lemma childDependency_scoped g option name child :
  GetNode g name = Some (Some option) -> validateChildDependency g option name child = None ->
  scoped (nodes g) name child.
Proof.
  unfold validateChildDependency, GetNode, scoped. intros ->. destruct (nodes g !! child) as [[c|]|]; [|done..].
  destruct (oGlobal option), (oGlobal c), (oLocal option), (oLocal c); cbn; by intros.
Qed.
Lemma variableDependency_scoped g option name kind dep :
  GetNode g name = Some (Some option) -> validateVariableDependency g option name kind dep = None ->
  scoped (nodes g) dep name.
Proof.
  unfold validateVariableDependency, GetNode, scoped. intros ->. destruct (nodes g !! dep) as [[d|]|]; [|done..].
  destruct (oGlobal option), (oGlobal d), (oLocal option), (oLocal d); cbn; by intros.
Qed.

Lemma addChildDependencies_grown option name children : forall g,
  GetNode g name = Some (Some option) ->
  grown (scoped (nodes g)) g (addChildDependencies g option name children).1.
Proof.
  induction children as [|c children IH]; intros g Hg; cbn [addChildDependencies]; [reflexivity|].
  destruct (_ || _); [by apply IH|]. destruct (validateChildDependency g option name c) eqn:Hv; [reflexivity|].
  trans (AddEdge g name c).1; [apply grown_AddEdge; by eapply childDependency_scoped|].
  rewrite <- (AddEdge_nodes g name c). apply IH. unfold GetNode. by rewrite AddEdge_nodes.
Qed.

(** The variables among [deps] that are nodes have an edge to the option. *)
Definition linked (g : OptGraph) (name : string) (deps : list string) : Prop :=
  forall x, x ∈ deps -> x <> name -> HasNode g x = true -> edge g x name.
Lemma linked_grown P g g' name deps : grown P g g' -> linked g name deps -> linked g' name deps.
Proof.
  intros Hg Hl x Hx Hne Hn. apply (gr_old _ _ _ Hg), Hl; [done..|].
  unfold HasNode in *. by rewrite <- (gr_nodes _ _ _ Hg).
Qed.

Lemma addVariableDependencies_grown option name kind deps : forall g,
  GetNode g name = Some (Some option) ->
  let r := addVariableDependencies g option name kind deps in
  grown (scoped (nodes g)) g r.1 /\ (r.2 = None -> linked r.1 name deps).
Proof.
  induction deps as [|x deps IH]; intros g Hg r; subst r; cbn [addVariableDependencies].
  { split; [reflexivity|]. intros _ x Hx. set_solver. }
  destruct (_ || _) eqn:Hskip.
  { destruct (IH g Hg) as [Hgr Hl]. split; [done|]. intros Hr y Hy Hne Hn. specialize (Hl Hr).
    apply elem_of_cons in Hy as [->|Hy]; [|by apply Hl]. exfalso.
    apply orb_true_iff in Hskip as [Hs|Hs]; [|by apply bool_decide_eq_true in Hs].
    unfold HasNode in *. rewrite (gr_nodes _ _ _ Hgr) in Hn. by rewrite Hn in Hs. }
  destruct (validateVariableDependency g option name kind x) eqn:Hv; [by split; [reflexivity|]|].
  assert (Hstep : grown (scoped (nodes g)) g (AddEdge g x name).1)
    by (apply grown_AddEdge; by eapply variableDependency_scoped).
  destruct (IH (AddEdge g x name).1) as [Hgr Hl]; [unfold GetNode; by rewrite AddEdge_nodes|].
  rewrite AddEdge_nodes in Hgr. split; [by etrans|]. intros Hr y Hy Hne Hn. specialize (Hl Hr).
  apply elem_of_cons in Hy as [->|Hy]; [|by apply Hl]. apply (gr_old _ _ _ Hgr), AddEdge_edge. right.
  split_and!; [done|done| |].
  - by apply orb_false_iff in Hskip as [Hs%negb_false_iff _].
  - unfold HasNode. unfold GetNode in Hg. rewrite Hg. by apply bool_decide_eq_true.
Qed.

(** Every variable of the option's default and command is linked. *)
Definition linkedOption (g : OptGraph) (name : string) : Prop :=
  forall option, GetNode g name = Some (Some option) ->
    linked g name (findVariables (oDefault option)) /\ linked g name (findVariables (oCommand option)).
Lemma linkedOption_grown P g g' name : grown P g g' -> linkedOption g name -> linkedOption g' name.
Proof.
  intros Hg Hl option Ho. unfold GetNode in Ho. rewrite (gr_nodes _ _ _ Hg) in Ho.
  destruct (Hl option Ho). split; by eapply linked_grown.
Qed.

Lemma addDependency_grown g vs name :
  let r := addDependency g vs name in
  grown (scoped (nodes g)) g r.1 /\ (r.2 = None -> linkedOption r.1 name).
Proof.
  intros r. subst r. unfold addDependency. destruct (GetNode g name) as [[option|]|] eqn:Hg.
  2, 3: split; [reflexivity|]; intros _ option Ho; cbn [fst] in Ho; congruence.
  pose proof (addChildDependencies_grown option name (vChildren (valueOf vs name)) g Hg) as H1.
  destruct (addChildDependencies g option name _) as [g1 [e|]]; cbn [fst] in H1; [by split|].
  assert (Hg1 : GetNode g1 name = Some (Some option)) by (unfold GetNode in *; by rewrite (gr_nodes _ _ _ H1)).
  destruct (addVariableDependencies_grown option name "default" (findVariables (oDefault option)) g1 Hg1) as [H2 L2].
  rewrite (gr_nodes _ _ _ H1) in H2.
  destruct (addVariableDependencies g1 option name "default" _) as [g2 [e|]]; cbn [fst snd] in *; [by split; [etrans|]|].
  assert (Hg2 : GetNode g2 name = Some (Some option)) by (unfold GetNode in *; by rewrite (gr_nodes _ _ _ H2)).
  destruct (addVariableDependencies_grown option name "command" (findVariables (oCommand option)) g2 Hg2) as [H3 L3].
  rewrite (gr_nodes _ _ _ H2), (gr_nodes _ _ _ H1) in H3.
  destruct (addVariableDependencies g2 option name "command" _) as [g3 e]; cbn [fst snd] in *.
  assert (H12 : grown (scoped (nodes g)) g g2) by (by trans g1).
  split; [by trans g2|]. intros He option' Ho'. unfold GetNode in *. rewrite (gr_nodes _ _ _ H3), Hg2 in Ho'.
  injection Ho' as <-. split; [|by apply L3]. eapply linked_grown; [exact H3|by apply L2].
Qed.

Lemma addDependencies_grown vs names : forall g,
  let r := addDependencies g vs names in
  grown (scoped (nodes g)) g r.1 /\ (r.2 = None -> Forall (linkedOption r.1) names).
Proof.
  induction names as [|name names IH]; intros g r; subst r; cbn [addDependencies]; [by split; [reflexivity|]|].
  destruct (addDependency_grown g vs name) as [H1 L1].
  destruct (addDependency g vs name) as [g1 [e|]]; cbn [fst snd] in *; [by split|].
  destruct (IH g1) as [H2 L2]. rewrite (gr_nodes _ _ _ H1) in H2. split; [by trans g1|].
  intros Hr. constructor; [|by apply L2]. eapply linkedOption_grown; [exact H2|by apply L1].
Qed.

(** ** The graph of a set of definitions *)

Lemma addOption_spec defs g name :
  wf g -> HasNode g rootID = true ->
  let g' := addOption defs g name in
  wf g' /\ HasNode g' rootID = true /\ nodes g' = <[name := default None (defs !! name)]> (nodes g) /\
  (forall a b, edge g' a b <-> edge g a b \/ (a = rootID /\ b = name)).
Proof.
  intros Hg Hr g'. set (g1 := (SetNode g name (default None (defs !! name))).1).
  assert (Hg1 : wf g1) by (by apply SetNode_wf).
  assert (Hn1 : nodes g1 = <[name := default None (defs !! name)]> (nodes g)) by apply SetNode_nodes.
  assert (Hr1 : HasNode g1 rootID = true).
  { unfold HasNode in *. rewrite Hn1. apply bool_decide_eq_true in Hr. apply bool_decide_eq_true.
    rewrite lookup_insert. by case_decide. }
  assert (Hname : HasNode g1 name = true)
    by (unfold HasNode; rewrite Hn1, lookup_insert_eq; by apply bool_decide_eq_true).
  change g' with (AddEdge g1 rootID name).1. split_and!.
  - by apply AddEdge_wf.
  - unfold HasNode in *. by rewrite AddEdge_nodes.
  - by rewrite AddEdge_nodes.
  - intros a b. rewrite AddEdge_edge. unfold g1 at 1. rewrite SetNode_edge by done. naive_solver.
Qed.

Lemma foldl_addOption defs order : forall g,
  wf g -> HasNode g rootID = true ->
  let g' := foldl (addOption defs) g order in
  wf g' /\
  (forall k, nodes g' !! k = if decide (k ∈ order) then Some (default None (defs !! k)) else nodes g !! k) /\
  (forall a b, edge g' a b <-> edge g a b \/ (a = rootID /\ b ∈ order)).
Proof.
  induction order as [|name order IH]; intros g Hg Hr g'; subst g'; cbn [foldl].
  { split_and!; [done|done|]. intros a b. set_solver. }
  destruct (addOption_spec defs g name Hg Hr) as (Hg1 & Hr1 & Hn1 & He1).
  destruct (IH _ Hg1 Hr1) as (Hg2 & Hn2 & He2). split_and!; [done| |].
  - intros k. rewrite Hn2, Hn1. destruct (decide (k ∈ order)) as [Hk|Hk].
    + by rewrite decide_True by set_solver.
    + rewrite lookup_insert. destruct (decide (name = k)) as [->|Hne].
      * by rewrite decide_True by set_solver.
      * by rewrite decide_False by set_solver.
  - intros a b. rewrite He2, He1. set_solver.
Qed.

(** What a new graph of the definitions [defs] looks like. *)
Record built (defs : OptionDefinitions) (g : OptGraph) : Prop := {
  bu_wf : wf g;
  bu_nodes k : GetNode g k =
    match defs !! k with Some ref => Some ref | None => if decide (k = rootID) then Some None else None end;
  bu_edges u v : edge g u v -> u = rootID \/ scoped (nodes g) u v;
  bu_linked k : k ∈ dom defs -> linkedOption g k;
}.

Lemma addOptionsToGraph_built order1 order2 defs vs g :
  order1 ≡ₚ (map_to_list defs).*1 -> order2 ≡ₚ (map_to_list defs).*1 ->
  addOptionsToGraph order1 order2 NewGraph defs vs = (g, None) -> built defs g.
Proof.
  intros Ho1 Ho2 Hadd. unfold addOptionsToGraph in Hadd.
  assert (Hin : forall k, k ∈ (map_to_list defs).*1 <-> k ∈ dom defs).
  { intros k. rewrite elem_of_dom. split.
    - intros ([k' d] & -> & Hk)%list_elem_of_fmap. apply elem_of_map_to_list in Hk. by exists d.
    - intros [d Hd]. apply list_elem_of_fmap. exists (k, d). split; [done|]. by apply elem_of_map_to_list. }
  assert (Hroot : wf (withRoot NewGraph)) by (apply AddNode_wf, NewGraph_wf).
  destruct (foldl_addOption defs order1 (withRoot NewGraph) Hroot eq_refl) as (Hw & Hn & He).
  set (g1 := foldl _ _ _) in *. destruct (addDependencies_grown vs order2 g1) as [Hgr Hl].
  rewrite Hadd in Hgr, Hl. cbn [fst snd] in *. specialize (Hl eq_refl).
  assert (Hnodes : forall k, GetNode g k =
    match defs !! k with Some ref => Some ref | None => if decide (k = rootID) then Some None else None end).
  { intros k. unfold GetNode. rewrite (gr_nodes _ _ _ Hgr), Hn.
    destruct (defs !! k) as [ref|] eqn:Hk.
    - rewrite decide_True; [done|]. rewrite Ho1, Hin. apply elem_of_dom. by exists ref.
    - rewrite decide_False by (rewrite Ho1, Hin; by apply not_elem_of_dom).
      change (nodes (withRoot NewGraph)) with (<[rootID := @None Option]> (∅ : gmap string optref)).
      destruct (decide (k = rootID)) as [->|Hne]; [by rewrite lookup_insert_eq|by rewrite lookup_insert_ne]. }
  split; [by apply (gr_wf _ _ _ Hgr)|done| |].
  - intros u v [Huv|Huv]%(gr_new _ _ _ Hgr); [|right; by rewrite (gr_nodes _ _ _ Hgr)].
    apply He in Huv as [Huv|[-> _]]; [|by left]. exfalso. unfold edge in Huv.
    change (edges (withRoot NewGraph)) with (<[rootID := []]> (∅ : gmap string (list string))) in Huv.
    rewrite edgesOf_insert in Huv. case_decide; [set_solver|].
    unfold edgesOf in Huv. rewrite lookup_empty in Huv. set_solver.
  - intros k Hk. rewrite Forall_forall in Hl. apply Hl. by rewrite Ho2, Hin.
Qed.

(** ** Graphs that only lose nodes *)

Record shrunk {T} (g g' : Graph T) : Prop := {
  sh_nodes k y : nodes g' !! k = Some y -> nodes g !! k = Some y;
  sh_edges a b : edge g' a b -> edge g a b;
}.
#[export] Instance shrunk_preorder {T} : PreOrder (@shrunk T).
Proof. split; [intros g; by split|]. intros g1 g2 g3 [Hn He] [Hn' He']. split; auto. Qed.

Section Shrink.
Context {T : Type}.
Implicit Types (g : Graph T).

Lemma RemoveNode_shrunk g id : shrunk g (RemoveNode g id).1.
Proof.
  destruct (HasNode g id) eqn:Hid.
  - split.
    + unfold RemoveNode. rewrite Hid. cbn. intros k y Hk. by apply lookup_delete_Some in Hk as [_ Hk].
    + intros a b Hab. apply HasNode_true in Hid. by apply RemoveNode_edges in Hab as [Hab _].
  - unfold RemoveNode. by rewrite Hid.
Qed.
Lemma removeAll_shrunk ids : forall g, shrunk g (removeAll g ids).1.
Proof.
  induction ids as [|id ids IH]; intros g; cbn [removeAll]; [done|].
  pose proof (RemoveNode_shrunk g id) as Hs. destruct (RemoveNode g id) as [g' [e|]]; cbn [fst] in *; [done|].
  by trans g'.
Qed.
Lemma removeSubGraphs_shrunk ids : forall g, shrunk g (removeSubGraphs g ids).1.
Proof.
  induction ids as [|id ids IH]; intros g; cbn [removeSubGraphs]; [done|].
  assert (Hs : shrunk g (RemoveSubGraph g id).1)
    by (unfold RemoveSubGraph; destruct (HasNode g id); [apply removeAll_shrunk|done]).
  destruct (RemoveSubGraph g id) as [g' [e|]]; cbn [fst] in *; [done|]. by trans g'.
Qed.
Lemma RemoveChildren_shrunk g id : shrunk g (RemoveChildren g id).1.
Proof. apply removeSubGraphs_shrunk. Qed.
End Shrink.

(** ** Runs that return *)

(** The run does not get stuck without fuel, and [Q] holds when it succeeds. *)
Definition rwp {A} (m : R A) (s : RState) (Q : RState -> A -> Prop) : Prop :=
  match m s with (s', inr a) => Q s' a | (_, inl f) => f <> OutOfFuel end.

Section Rwp.
Context {A B : Type}.
Implicit Types (m : R A) (s : RState).

Lemma rwp_ret (a : A) s (Q : RState -> A -> Prop) : Q s a -> rwp (rret a) s Q.
Proof. done. Qed.
Lemma rwp_bind m (k : A -> R B) s (Q : RState -> B -> Prop) :
  rwp m s (fun s' a => rwp (k a) s' Q) -> rwp (rbind m k) s Q.
Proof. unfold rwp, rbind. by destruct (m s) as [s' [f|a]]. Qed.
Lemma rwp_mono m s (Q Q' : RState -> A -> Prop) :
  rwp m s Q -> (forall s' a, Q s' a -> Q' s' a) -> rwp m s Q'.
Proof. unfold rwp. destruct (m s) as [s' [f|a]]; auto. Qed.
Lemma rwp_panic s (Q : RState -> A -> Prop) : rwp panic s Q.
Proof. done. Qed.
Lemma rwp_fail e s (Q : RState -> A -> Prop) : rwp (fail e) s Q.
Proof. done. Qed.
Lemma rwp_gets (f : RState -> A) s (Q : RState -> A -> Prop) : Q s (f s) -> rwp (gets f) s Q.
Proof. done. Qed.
Lemma rwp_wrapping format args m s (Q : RState -> A -> Prop) : rwp m s Q -> rwp (wrapping format args m) s Q.
Proof. unfold rwp, wrapping. by destruct (m s) as [s' [[]|a]]. Qed.
Lemma rwp_asking (f : nat -> A) s (Q : RState -> A -> Prop) :
  (forall n a, a = f n -> Q (mkState (rsGraph s) (rsUser s) (rsValues s) (S (rsAsked s))) a) -> rwp (asking f) s Q.
Proof. intros HQ. by apply (HQ (rsAsked s)). Qed.
End Rwp.

(** States that differ in the number of questions asked. *)
Definition sameOptions (s s' : RState) : Prop :=
  rsGraph s' = rsGraph s /\ rsUser s' = rsUser s /\ rsValues s' = rsValues s.
Lemma rwp_asking_same {A} (f : nat -> A) s (Q : RState -> A -> Prop) :
  (forall n s', sameOptions s s' -> Q s' (f n)) -> rwp (asking f) s Q.
Proof. intros HQ. apply rwp_asking. intros n a ->. by apply HQ. Qed.

Section Resolving.
Context `{Outside} `{Regexp}.
Variable r : Resolver.

(** ** One option *)

(** What the variables of option [name] are replaced by: the values of the other
    options, and the extra values. *)
Definition envFor (vs : gmap string OptionValue) (name : string) : gmap string string :=
  combine (delete name vs) (extraValues r).

(** The value the option itself gives: its default, its command run where the
    variables it names have their values, or its only choice. *)
Definition fromOption (vs : gmap string OptionValue) (name : string) (option : Option) (v : string) : Prop :=
  if decide (oDefault option <> "") then v = ResolveDefaultValue (oDefault option) (envFor vs name)
  else if decide (oCommand option <> "") then
    exists n env out, runShell n (oCommand option) env = inr out /\ v = TrimSpace out /\
      (forall x, x ∈ findVariables (oCommand option) -> env !! x = envFor vs name !! x)
  else match oEnum option with [only] => v = enValue only | _ => v = "" end.

(** Where a value comes from: the user, a question, or the option itself. *)
Definition comesFrom (vs : gmap string OptionValue) (name : string) (option : Option)
    (userValue : maybe string) (v : OptionValue) : Prop :=
  match userValue with
  | Some u => v = mkValue u true None [] /\ validateUserValue name u option = None
  | None =>
      vChildren v = [] /\
      if vUserProvided v then
        oRequired option = true /\ exists n, askUser n name option = inr (vValue v)
      else fromOption vs name option (vValue v)
  end.

Lemma comesFrom_ext vs vs' name option userValue v :
  (forall x, x ∈ findVariables (oDefault option) \/ x ∈ findVariables (oCommand option) -> x <> name ->
     vs !! x = vs' !! x) ->
  comesFrom vs name option userValue v -> comesFrom vs' name option userValue v.
Proof.
  intros Hx. unfold comesFrom. destruct userValue as [u|]; [done|]. intros [Hc Hv]. split; [done|].
  assert (Henv : forall x, x ∈ findVariables (oDefault option) \/ x ∈ findVariables (oCommand option) ->
            envFor vs name !! x = envFor vs' name !! x).
  { intros x Hin. unfold envFor, combine. rewrite !lookup_union, !lookup_fmap.
    destruct (decide (x = name)) as [->|Hne]; [by rewrite !lookup_delete_eq|].
    by rewrite !lookup_delete_ne, (Hx x) by done. }
  destruct (vUserProvided v); [done|]. unfold fromOption in *. case_decide.
  - rewrite Hv. apply ResolveDefaultValue_ext. intros x Hin. apply Henv. left. by apply elem_of_findVariables.
  - case_decide; [|done]. destruct Hv as (n & env & out & Hrun & -> & Hvars). exists n, env, out.
    split_and!; [done|done|]. intros x Hin. rewrite Hvars by done. apply Henv. by right.
Qed.

(** ** One option that has no value yet *)

Lemma envFor_fresh vs name : vs !! name = None -> envFor vs name = combine vs (extraValues r).
Proof. intros Hn. unfold envFor. by rewrite delete_id. Qed.

Lemma resolveFromCommand_spec option s :
  rwp (resolveFromCommand r option) s (fun s' v => sameOptions s s' /\ vUserProvided v = false /\ vChildren v = [] /\
    exists n out, runShell n (oCommand option) (combine (rsValues s) (extraValues r)) = inr out /\ vValue v = TrimSpace out).
Proof.
  unfold resolveFromCommand, execOptionCommand. apply rwp_bind, rwp_wrapping, rwp_bind, rwp_gets, rwp_bind.
  apply rwp_asking_same. intros n s1 (Hg1 & Hu1 & Hv1).
  destruct (runShell n _ _) as [[w e]|out] eqn:Hrun; [done|]. apply rwp_ret, rwp_bind, rwp_asking_same.
  intros n2 s2 (Hg2 & Hu2 & Hv2). apply rwp_ret. split_and!; [|done|done|by exists n, out].
  split_and!; congruence.
Qed.

Lemma computeOptionValue_fresh name option userValue s :
  rsValues s !! name = None ->
  (forall u, userValue = Some u -> validateUserValue name u option = None) ->
  rwp (computeOptionValue r name option userValue []) s (fun s' _ =>
    rsGraph s' = rsGraph s /\ rsUser s' = rsUser s /\
    exists v, rsValues s' = <[name := v]> (rsValues s) /\ comesFrom (rsValues s) name option userValue v).
Proof.
  intros Hfresh Hval. unfold computeOptionValue. destruct userValue as [u|].
  { split_and!; [done|done|]. eexists. split; [done|]. cbn. by auto. }
  unfold comesFrom, fromOption. rewrite envFor_fresh by done. case_bool_decide as Hd; cbn [negb].
  - case_bool_decide as Hc; cbn [negb].
    + destruct (oEnum option) as [|e [|e' es]] eqn:He; (split_and!; [done|done|]); eexists; (split; [done|]);
        cbn; by rewrite !decide_False by auto.
    + apply rwp_bind. eapply rwp_mono; [apply resolveFromCommand_spec|].
      intros s1 v ((Hg & Hu & Hv) & Hp & Hch & n & out & Hrun & Hout). unfold setValue, modifyR, rwp. cbn.
      split_and!; [done|done|]. eexists. rewrite Hv. split; [done|]. cbn. rewrite Hp.
      rewrite decide_False by auto. rewrite decide_True by done. split; [done|].
      by exists n, (combine (rsValues s) (extraValues r)), out.
  - apply rwp_bind, rwp_gets. split_and!; [done|done|]. eexists. split; [done|]. cbn. by rewrite decide_True.
Qed.

(** How [resolveOption] leaves an option that had no value. *)
Record stepped (name : string) (option : Option) (s s' : RState) : Prop := {
  st_user : rsUser s' = rsUser s;
  st_graph : shrunk (rsGraph s) (rsGraph s');
  st_kept : skipRequired r = false -> rsGraph s' = rsGraph s;
  st_values :
    (rsValues s' = rsValues s /\
       (skipRequired r = true \/ (rsUser s !! name = None /\ skipForScope r option = true))) \/
    exists v, rsValues s' = <[name := v]> (rsValues s) /\
      comesFrom (rsValues s) name option (rsUser s !! name) v /\
      (oRequired option = true -> vValue v <> "" \/ vUserProvided v = true);
}.

Lemma askRequired_spec name option vs v0 s :
  vs !! name = None -> rsValues s = <[name := v0]> vs -> oRequired option = true ->
  rwp (askRequired name option) s (fun s' _ =>
    rsGraph s' = rsGraph s /\ rsUser s' = rsUser s /\
    exists v, rsValues s' = <[name := v]> vs /\ vUserProvided v = true /\ comesFrom vs name option None v).
Proof.
  intros Hn Hs Hreq. unfold askRequired. destruct IsTerminalIn; cbn [negb]; [|done].
  apply rwp_bind, rwp_asking. intros n a ->. destruct (askUser n name option) as [e|a] eqn:Ha; [done|].
  apply rwp_bind, rwp_ret. unfold setValue, modifyR, rwp. cbn. split_and!; [done|done|].
  eexists. rewrite Hs, insert_insert_eq. split; [done|]. split; [done|]. split; [done|].
  split; [done|by exists n].
Qed.

Lemma resolveRequired_spec name option vs v0 s :
  vs !! name = None -> rsValues s = <[name := v0]> vs -> comesFrom vs name option (rsUser s !! name) v0 ->
  rwp (resolveRequired r name option (bool_decide (is_Some (rsUser s !! name)))) s (fun s' _ =>
    rsUser s' = rsUser s /\ shrunk (rsGraph s) (rsGraph s') /\
    (skipRequired r = false -> rsGraph s' = rsGraph s) /\
    ((rsValues s' = vs /\ skipRequired r = true) \/
     exists v, rsValues s' = <[name := v]> vs /\ comesFrom vs name option (rsUser s !! name) v /\
       (oRequired option = true -> vValue v <> "" \/ vUserProvided v = true))).
Proof.
  intros Hn Hs Hv. unfold resolveRequired.
  destruct (_ || _) eqn:Hok.
  { apply rwp_ret. split_and!; [done..|]. right. exists v0. split_and!; [done|done|]. intros Hreq. right.
    rewrite Hreq in Hok. cbn [negb] in Hok. rewrite orb_false_r in Hok. apply bool_decide_eq_true in Hok as [u Hu].
    rewrite Hu in Hv. by destruct Hv as [-> _]. }
  apply orb_false_iff in Hok as [Hu Hreq%negb_false_iff]. apply bool_decide_eq_false, eq_None_not_Some in Hu.
  rewrite Hu in *. apply rwp_bind, rwp_gets. unfold valueOf. rewrite Hs, lookup_insert_eq. cbn [default].
  destruct (_ || _) eqn:Hval.
  { apply rwp_ret. split_and!; [done..|]. right. exists v0. split_and!; [done|done|]. intros _.
    by apply orb_true_iff in Hval as [Hne%negb_true_iff%bool_decide_eq_false|]; [left|right]. }
  destruct (skipRequired r) eqn:Hskip.
  - apply rwp_bind. unfold deleteValue, modifyR, editGraph, rwp. cbn.
    pose proof (RemoveChildren_shrunk (rsGraph s) name) as Hsh.
    destruct (RemoveChildren (rsGraph s) name) as [g [e|]]; [done|]. cbn in *. split_and!; [done|done|done|].
    left. split; [|done]. by rewrite Hs, delete_insert_id.
  - eapply rwp_mono; [by apply (askRequired_spec name option vs v0)|].
    intros s' _ (Hg & Hu' & v & Hv' & Hp & Hf). split_and!; [done|by rewrite Hg|done|].
    right. exists v. split_and!; [done|done|by right].
Qed.

Lemma foldl_dropChild vs children :
  (forall c, c ∈ children -> vs !! c = None) -> foldl dropChild vs children = vs.
Proof.
  induction children as [|c l IH]; intros Hc; [done|]. cbn [foldl]. unfold dropChild at 2.
  rewrite (Hc c) by set_solver. apply IH. set_solver.
Qed.

Lemma resolveOption_fresh name s :
  rsValues s !! name = None ->
  (forall c, edge (rsGraph s) name c -> c <> name /\ rsValues s !! c = None) ->
  rwp (resolveOption r name) s (fun s' _ => exists option,
    GetNode (rsGraph s) name = Some (Some option) /\ stepped name option s s').
Proof.
  intros Hfresh Hch. unfold resolveOption. apply rwp_bind, rwp_gets.
  destruct (GetNode (rsGraph s) name) as [[option|]|] eqn:Hnode; [|done..].
  apply rwp_bind, rwp_ret, rwp_bind. unfold getValue. apply rwp_bind, rwp_gets, rwp_bind, rwp_gets.
  rewrite Hfresh. cbn [mbind option_bind].
  destruct (rsUser s !! name ≫= _) as [e|] eqn:Hval; [done|]. apply rwp_ret, rwp_bind.
  eapply (rwp_mono _ _ (fun s' skip => s' = s /\
    skip = if rsUser s !! name is Some _ then false else skipForScope r option)).
  { unfold shouldSkipResolve. by destruct (rsUser s !! name). }
  intros s' skip [-> ->]. destruct (if rsUser s !! name is Some _ then false else _) eqn:Hskip.
  { apply rwp_ret. exists option. split; [done|]. split; [done|done|done|]. left. split; [done|]. right.
    by destruct (rsUser s !! name). }
  cbn [default vChildren noValue]. apply rwp_bind. eapply rwp_mono; [apply computeOptionValue_fresh; [done|]|].
  { intros u Hu. rewrite Hu in Hval. exact Hval. }
  intros s1 _ (Hg1 & Hu1 & v0 & Hv1 & Hf). rewrite <- Hu1 in *. apply rwp_bind.
  eapply rwp_mono; [by apply (resolveRequired_spec name option (rsValues s) v0)|].
  intros s2 _ (Hu2 & Hg2 & Hk2 & Hv2). rewrite Hg1 in *. unfold invalidateChangedChildren, modifyR, rwp.
  exists option. split; [done|].
  assert (Hid : forall vs, vs = rsValues s2 -> foldl dropChild vs (GetChildren (rsGraph s2) name) = vs).
  { intros vs Hvs. apply foldl_dropChild. intros c Hc. apply (sh_edges _ _ Hg2) in Hc.
    destruct (Hch c Hc) as [Hne Hnone]. subst vs. destruct Hv2 as [[-> _]|(v & -> & _)]; [done|].
    by rewrite lookup_insert_ne. }
  case_bool_decide; (split; [by rewrite <- Hu1|done|done|]); cbn; rewrite <- ?Hu1; try rewrite Hid by done;
    (destruct Hv2 as [[? ?]|?]; [left; auto|right; done]).
Qed.
End Resolving.
