(* ===== verification/OptResolved.v ===== *)
(** Resolving options from nothing: every option is resolved after the options it
    depends on, and the values fit together; with sub options, resolving ends when
    the commands that name them use finitely many names. *)
From S2P Require Import Prelude GoStd GoText GoConv Graph GraphReach GraphSort OptVars OptResolver OptConsistent.

(** In a topological order the targets of a node come behind it. *)
Lemma topological_after {T} (g : Graph T) D name rest c :
  wf g -> topological g (D ++ name :: rest) -> edge g name c -> c ∉ D /\ c <> name.
Proof.
  intros Hg (Hnd & Hin & Hord) He.
  assert (Hname : (D ++ name :: rest) !! length D = Some name) by (by rewrite list_lookup_middle).
  assert (Hlt : forall j, (D ++ name :: rest) !! j = Some c -> (length D < j)%nat) by (intros j Hj; by apply (Hord name c)).
  split.
  - intros [j Hj]%list_elem_of_lookup. pose proof (lookup_lt_Some _ _ _ Hj).
    specialize (Hlt j). rewrite lookup_app_l in Hlt by done. specialize (Hlt Hj). lia.
  - intros ->. specialize (Hlt _ Hname). lia.
Qed.

Section Loop.
Context `{Outside} `{Regexp}.
Variable r : Resolver.
Variable defs : OptionDefinitions.
(** Sub options are not resolved, or there are none. *)
Hypothesis no_subOptions : resolveSubOptions r = false \/
  forall k option, defs !! k = Some (Some option) -> oSubOptionsCommand option = "".
Variable user : gmap string string.
Variable g0 : OptGraph.
Hypothesis g0_built : built defs g0.

(** The state when the options of [D] are resolved. *)
Record resolved (D : list string) (s : RState) : Prop := {
  re_user : rsUser s = user;
  re_graph : shrunk g0 (rsGraph s);
  re_kept : skipRequired r = false -> rsGraph s = g0;
  re_values k v : rsValues s !! k = Some v -> k ∈ D /\ exists option,
    defs !! k = Some (Some option) /\ comesFrom r (rsValues s) k option (user !! k) v /\
    (oRequired option = true -> vValue v <> "" \/ vUserProvided v = true);
  re_complete k option : skipRequired r = false -> k ∈ D -> k <> rootID -> defs !! k = Some (Some option) ->
    is_Some (user !! k) \/ skipForScope r option = false -> is_Some (rsValues s !! k);
}.

Lemma nodes_defs k option : GetNode g0 k = Some (Some option) -> defs !! k = Some (Some option).
Proof. rewrite (bu_nodes _ _ g0_built). destruct (defs !! k); [done|]. by case_decide. Qed.
Lemma retrieveSubOptions_none name s : shrunk g0 (rsGraph s) ->
  rwp (retrieveSubOptions r name) s (fun s' subOptions => s' = s /\ subOptions = None).
Proof.
  intros Hg. unfold retrieveSubOptions. apply rwp_bind, rwp_gets.
  destruct (GetNode (rsGraph s) name) as [ref|] eqn:Hn; [|done].
  destruct no_subOptions as [->|Hno]; [done|]. destruct (resolveSubOptions r); [cbn [negb]|done].
  destruct ref as [option|]; [|done].
  apply rwp_bind. cbn [deref]. apply rwp_ret, rwp_bind, rwp_gets.
  rewrite (bool_decide_true (oSubOptionsCommand option = "")); [done|].
  by apply (Hno name), nodes_defs, (sh_nodes _ _ Hg).
Qed.

(** Neither the value of [name] nor its absence matters to a resolved option. *)
Lemma comesFrom_later D name rest k option u v vs vs' :
  topological g0 (D ++ name :: rest) -> k ∈ D -> defs !! k = Some (Some option) ->
  (forall x, x <> name -> vs !! x = vs' !! x) ->
  comesFrom r vs k option u v -> comesFrom r vs' k option u v.
Proof.
  intros Htop Hk Hdef Hvs. apply comesFrom_ext. intros x Hx Hne. apply Hvs. intros ->.
  destruct (bu_linked _ _ g0_built k) with (option := option) as [Hd Hc].
  { apply elem_of_dom. by exists (Some option). }
  { by rewrite (bu_nodes _ _ g0_built), Hdef. }
  assert (Hnode : HasNode g0 name = true).
  { apply HasNode_true. apply Htop. set_solver. }
  assert (He : edge g0 name k) by (destruct Hx as [Hx|Hx]; [by apply Hd|by apply Hc]).
  by apply (topological_after g0 D name rest k (bu_wf _ _ g0_built) Htop) in He as [? _].
Qed.

Lemma resolved_step D name rest option s s' :
  topological g0 (D ++ name :: rest) -> GetNode (rsGraph s) name = Some (Some option) ->
  resolved D s -> stepped r name option s s' -> resolved (D ++ [name]) s'.
Proof.
  intros Htop Hnode [Hu Hg Hk Hv Hc] [Su Sg Sk Sv]. rewrite Hu in *.
  assert (Hdef : defs !! name = Some (Some option)) by (by apply nodes_defs, (sh_nodes _ _ Hg)).
  assert (Hkept : skipRequired r = false -> rsGraph s' = g0) by (intros Hs; by rewrite Sk, Hk).
  destruct Sv as [[Heq Hwhy]|(v & Heq & Hf & Hreq)]; (split; [done|by etrans|done| |]); rewrite Heq.
  - intros k v Hkv. destruct (Hv k v Hkv) as [Hin ?]. split; [set_solver|done].
  - intros k option' Hs [Hin|Hin%list_elem_of_singleton]%elem_of_app Hne Hd Hu'; [by eapply Hc|]. subst k.
    destruct Hwhy as [Hs'|[Hun Hsk]]; [congruence|]. destruct Hu' as [[x Hx]|Hsk']; congruence.
  - assert (Hother : forall x, x <> name -> rsValues s !! x = <[name:=v]> (rsValues s) !! x)
      by (intros; by rewrite lookup_insert_ne).
    intros k v' Hkv. destruct (decide (k = name)) as [->|Hne].
    + rewrite lookup_insert_eq in Hkv. injection Hkv as <-. split; [set_solver|]. exists option.
      split_and!; [done| |done]. eapply comesFrom_ext; [|done]. intros x _ Hx. by apply Hother.
    + rewrite lookup_insert_ne in Hkv by done. destruct (Hv k v' Hkv) as (Hin & o & Ho & Hfrom & Hr).
      split; [set_solver|]. exists o. split_and!; [done| |done]. by eapply comesFrom_later.
  - intros k option' Hs Hin Hne Hd Hu'. destruct (decide (k = name)) as [->|Hne'].
    + by rewrite lookup_insert_eq.
    + rewrite lookup_insert_ne by done. eapply Hc; [done| |done..]. set_solver.
Qed.

Lemma resolved_skip D name s :
  resolved D s -> name = rootID \/ (skipRequired r = false -> HasNode g0 name = false) -> resolved (D ++ [name]) s.
Proof.
  intros [Hu Hg Hk Hv Hc] Hwhy. split; [done..| |].
  - intros k v Hkv. destruct (Hv k v Hkv) as [Hin ?]. split; [set_solver|done].
  - intros k option Hs [Hin|Hin%list_elem_of_singleton]%elem_of_app Hne Hd Hu'; [by eapply Hc|]. subst k.
    destruct Hwhy as [?|Hno]; [done|]. specialize (Hno Hs). unfold HasNode in Hno.
    apply bool_decide_eq_false in Hno. destruct Hno.
    pose proof (bu_nodes _ _ g0_built name) as Hb. rewrite Hd in Hb. by exists (Some option).
Qed.

Lemma resolveEach_resolved fuel rest : forall D s,
  topological g0 (D ++ rest) -> resolved D s ->
  rwp (resolveEach r fuel rest) s (fun s' _ => resolved (D ++ rest) s').
Proof.
  induction rest as [|name rest IH]; intros D s Htop Hs; cbn [resolveEach].
  { apply rwp_ret. by rewrite app_nil_r. }
  assert (Hnext : forall s', resolved (D ++ [name]) s' ->
            rwp (resolveEach r fuel rest) s' (fun s'' _ => resolved (D ++ name :: rest) s'')).
  { intros s' Hs'. rewrite cons_middle, app_assoc. apply IH; [|done]. by rewrite <- app_assoc. }
  apply rwp_bind, rwp_gets. destruct (_ || _) eqn:Hskip.
  { apply Hnext, resolved_skip; [done|]. apply orb_true_iff in Hskip as [Hr|Hn].
    - left. by apply bool_decide_eq_true in Hr.
    - right. intros Hk. rewrite (re_kept _ _ Hs Hk) in Hn. by apply negb_true_iff. }
  apply rwp_bind, rwp_wrapping. pose proof Hs as [Hu Hg Hk Hv Hc].
  assert (Hfresh : forall k, k ∉ D -> rsValues s !! k = None).
  { intros k Hin. destruct (rsValues s !! k) eqn:Hkv; [|done]. by apply Hv in Hkv as [? _]. }
  assert (Hname : name ∉ D).
  { destruct Htop as [Hnd _]. apply NoDup_app in Hnd as (_ & Hd & _). intros Hin. apply (Hd _ Hin). set_solver. }
  eapply rwp_mono; [apply resolveOption_fresh; [by apply Hfresh|]|].
  { intros c He%(sh_edges _ _ Hg). apply (topological_after g0 D name rest c (bu_wf _ _ g0_built) Htop) in He as [Hc1 Hc2].
    split; [done|by apply Hfresh]. }
  intros s1 _ (option & Hnode & Hst). apply rwp_bind, rwp_wrapping. unfold refreshSubOptions. apply rwp_bind.
  pose proof (resolved_step _ _ _ _ _ _ Htop Hnode Hs Hst) as Hs1.
  eapply rwp_mono; [apply retrieveSubOptions_none, Hs1|]. intros s2 x [-> ->]. by apply rwp_ret, Hnext.
Qed.
End Loop.

(** ** The whole resolution *)

Lemma SortNodeIDs_spec {T} (g : Graph T) :
  wf g -> exists e, SortNodeIDs g = Some e /\ forall names, e = inr names -> topological g names /\ ~ cyclic g.
Proof.
  intros Hg. unfold SortNodeIDs, sortNodeIDs.
  destruct (sortRounds_result g Hg sortStrings) as (D & W & -> & Hok & _).
  { intros l. apply merge_sort_Permutation. }
  case_decide as Hlen.
  - exists (inr D). split; [done|]. intros names [= <-]. by apply Hok.
  - eexists. split; [done|]. by intros.
Qed.

Lemma rbind_success {A B} (m : R A) (k : A -> R B) s b :
  (rbind m k s).2 = inr b -> exists s' a, m s = (s', inr a) /\ (k a s').2 = inr b.
Proof. unfold rbind. destruct (m s) as [s' [f|a]]; [done|]. intros Hk. by exists s', a. Qed.

Lemma tc_subrel {A} (R1 R2 : A -> A -> Prop) x y :
  (forall a b, R1 a b -> R2 a b) -> tc R1 x y -> tc R2 x y.
Proof.
  intros Hsub. induction 1; [by apply tc_once, Hsub|]. eapply tc_l; [|done]. by apply Hsub.
Qed.

Section Whole.
Context `{HO : Outside} `{HR : Regexp} `{HL : !OutsideLaws}.
Variable r : Resolver.

Lemma rwp_walk {A} (m : gmap string A) s (Q : RState -> list string -> Prop) :
  (forall s' names, sameOptions s s' -> names ≡ₚ (map_to_list m).*1 -> Q s' names) -> rwp (walk m) s Q.
Proof. intros HQ. apply rwp_asking_same. intros n s' Hs. apply HQ; [done|apply mapOrder_perm]. Qed.

Lemma addToGraph_spec defs vs s :
  rwp (addToGraph defs vs) s (fun s' _ => rsUser s' = rsUser s /\ rsValues s' = rsValues s /\
    exists order1 order2, order1 ≡ₚ (map_to_list defs).*1 /\ order2 ≡ₚ (map_to_list defs).*1 /\
      addOptionsToGraph order1 order2 (rsGraph s) defs vs = (rsGraph s', None)).
Proof.
  unfold addToGraph. apply rwp_bind, rwp_walk. intros s1 order1 (Hg1 & Hu1 & Hv1) Ho1.
  apply rwp_bind, rwp_walk. intros s2 order2 (Hg2 & Hu2 & Hv2) Ho2. unfold editGraph, rwp.
  rewrite Hg2, Hg1. destruct (addOptionsToGraph order1 order2 (rsGraph s) defs vs) as [g [e|]] eqn:Hadd; [done|].
  cbn. split_and!; [congruence|congruence|]. by exists order1, order2.
Qed.

(** No value has children, so nothing is dynamic. *)
Lemma findNewDynamicDefinitions_none defs s :
  (forall k v, rsValues s !! k = Some v -> vChildren v = []) -> findNewDynamicDefinitions defs s = ∅.
Proof.
  intros Hch. apply map_empty. intros k. unfold findNewDynamicDefinitions. apply map_lookup_filter_None. right.
  intros ref _ (_ & _ & Hex). cbn [fst] in Hex. apply existsb_exists in Hex as ([k' v] & Hin & Hb).
  apply list_elem_of_In, elem_of_map_to_list in Hin. apply bool_decide_eq_true in Hb. cbn [snd] in Hb.
  rewrite (Hch k' v Hin) in Hb. set_solver.
Qed.
Lemma removeStaleOptions_id vs (dynamic defs : OptionDefinitions) :
  (forall k v, vs !! k = Some v -> notNil defs k = true) -> removeStaleOptions vs dynamic defs = vs.
Proof.
  intros Hd. unfold removeStaleOptions. apply map_filter_id. intros k v Hk. cbn [fst].
  by rewrite (Hd k v Hk), orb_true_r.
Qed.

Lemma comesFrom_children vs k option u v : comesFrom r vs k option u v -> vChildren v = [].
Proof. unfold comesFrom. by destruct u as [u|]; [intros [-> _]|intros [? _]]. Qed.

(** Every value belongs to a defined option and comes from the user, an answer
    or the option itself; required options have one; and unless required options
    are skipped, so has every option in scope. *)
Definition fitsTogether (user : gmap string string) (defs : OptionDefinitions) (vs : gmap string OptionValue) : Prop :=
  (forall k v, vs !! k = Some v -> exists option,
     defs !! k = Some (Some option) /\ comesFrom r vs k option (user !! k) v /\
     (oRequired option = true -> vValue v <> "" \/ vUserProvided v = true)) /\
  (skipRequired r = false -> forall k option,
     k <> rootID -> defs !! k = Some (Some option) ->
     is_Some (user !! k) \/ skipForScope r option = false -> is_Some (vs !! k)).

(** C20: when sub options are not resolved, or no option has a command for them,
    resolving options from nothing does not hang: it fails (with an error, or with a
    panic on a nil definition) or gives values that fit together.  Each value belongs
    to a defined option and is the user's valid value, the user's answer to a
    question, or what the option's default, command or only choice gives when its
    variables have the values of this result (so no option is computed before one it
    depends on, and none is left stale); a required option has a value; and when
    required options are not skipped, every option in scope has one.  With sub
    options this fails, since they are not resolved in the order of their
    dependencies (the example [sub_option_lost]), and so it does from stored values
    that are no longer valid (the example [stale_child]). *)
Theorem Resolve_consistent fuel (user : gmap string string) (defs : OptionDefinitions) :
  resolveSubOptions r = false \/ (forall k option, defs !! k = Some (Some option) -> oSubOptionsCommand option = "") ->
  match (Resolve r fuel user ∅ defs ∅).2 with
  | inl f => f <> OutOfFuel
  | inr (vs, dynamic) =>
      dynamic = ∅ /\
      fitsTogether user defs vs
  end.
Proof.
  intros Hsub.
  enough (Hrun : rwp (fun _ => Resolve r fuel user ∅ defs ∅) (mkState NewGraph user ∅ 0) (fun _ p =>
      p.2 = ∅ /\
      fitsTogether user defs p.1)).
  { unfold rwp in Hrun. by destruct (Resolve r fuel user ∅ defs ∅) as [s' [f|[vs dynamic]]]. }
  unfold Resolve. apply rwp_bind. eapply rwp_mono; [apply addToGraph_spec|].
  intros s1 _ (Hu1 & Hv1 & o1 & o2 & Ho1 & Ho2 & Hadd). cbn [rsGraph rsUser rsValues] in *.
  assert (Hm : mergeMaps ∅ defs = defs) by apply (right_id_L ∅ (∪)). rewrite Hm in *.
  pose proof (addOptionsToGraph_built o1 o2 defs ∅ _ Ho1 Ho2 Hadd) as Hb.
  apply rwp_bind. unfold resolveOptions. apply rwp_bind, rwp_gets.
  destruct (SortNodeIDs_spec (rsGraph s1) (bu_wf _ _ Hb)) as ([e|names] & -> & Htop); [done|].
  destruct (Htop names eq_refl) as [Htop' _].
  eapply rwp_mono; [apply (resolveEach_resolved r defs Hsub user (rsGraph s1) Hb fuel names [] s1 Htop')|].
  { split; [done|done|done| |set_solver]. rewrite Hv1. intros k v Hk. by rewrite lookup_empty in Hk. }
  intros s2 _ [_ _ _ Hv Hc]. apply rwp_gets. cbn [fst snd app] in *.
  rewrite findNewDynamicDefinitions_none, removeStaleOptions_id.
  - split; [done|]. split.
    + intros k v Hk. by apply Hv in Hk as [_ ?].
    + intros Hs k option Hne Hd. apply (Hc k option Hs); [|done|done]. apply Htop', elem_of_dom.
      change (is_Some (GetNode (rsGraph s1) k)). rewrite (bu_nodes _ _ Hb), Hd. done.
  - intros k v (_ & option & Hd & _)%Hv. unfold notNil. by rewrite Hd.
  - intros k v (_ & option & _ & Hf & _)%Hv. by eapply comesFrom_children.
Qed.

(** Option [k] names [dep] in its default or its command. *)
Definition uses (all : OptionDefinitions) (dep k : string) : Prop := exists option,
  all !! k = Some (Some option) /\ dep <> k /\ dep ∈ dom all /\
  (dep ∈ findVariables (oDefault option) \/ dep ∈ findVariables (oCommand option)).

(** C25: options are resolved only when their dependencies make sense: a global
    option uses global options only, a local option is used by local options
    only, and no option depends on itself through others.  (Otherwise [Resolve]
    returns an error.) *)
Theorem Resolve_dependencies fuel (user : gmap string string) (dynamic defs : OptionDefinitions)
    (optionValues : gmap string OptionValue) result :
  (Resolve r fuel user dynamic defs optionValues).2 = inr result ->
  let all := mergeMaps dynamic defs in
  (forall dep k option d, dep <> rootID -> uses all dep k ->
     all !! k = Some (Some option) -> all !! dep = Some (Some d) ->
     (oGlobal option = true -> oGlobal d = true) /\ (oLocal d = true -> oLocal option = true)) /\
  ~ (exists k, tc (uses all) k k).
Proof.
  intros Hres all.
  assert (Hg : exists g, built all g /\ ~ cyclic g).
  { unfold Resolve in Hres. apply rbind_success in Hres as (s1 & [] & Ha & Hres).
    pose proof (addToGraph_spec (mergeMaps dynamic defs) optionValues (mkState NewGraph user optionValues 0)) as Hb.
    unfold rwp in Hb. rewrite Ha in Hb. destruct Hb as (_ & _ & o1 & o2 & Ho1 & Ho2 & Hadd).
    apply addOptionsToGraph_built in Hadd as Hb; [|done..]. exists (rsGraph s1). split; [done|].
    apply rbind_success in Hres as (s2 & [] & Hr & _). unfold resolveOptions, rbind, gets in Hr.
    destruct (SortNodeIDs_spec (rsGraph s1) (bu_wf _ _ Hb)) as ([e|names] & Hsort & Htop).
    - by rewrite Hsort in Hr.
    - by destruct (Htop names eq_refl). }
  destruct Hg as (g & Hb & Hac).
  assert (Hedge : forall dep k, uses all dep k -> edge g dep k).
  { intros dep k (option & Hd & Hne & Hdom & Hin).
    destruct (bu_linked _ _ Hb k) with (option := option) as [H1 H2].
    { apply elem_of_dom. by exists (Some option). }
    { by rewrite (bu_nodes _ _ Hb), Hd. }
    assert (Hnode : HasNode g dep = true).
    { apply HasNode_true, elem_of_dom. change (is_Some (GetNode g dep)). rewrite (bu_nodes _ _ Hb).
      apply elem_of_dom in Hdom as [ref ->]. done. }
    destruct Hin as [Hin|Hin]; [by apply H1|by apply H2]. }
  split.
  - intros dep k option d Hroot Hu Hk Hd. destruct (bu_edges _ _ Hb dep k (Hedge _ _ Hu)) as [?|Hs]; [done|].
    unfold scoped in Hs. change (nodes g !! dep) with (GetNode g dep) in Hs. change (nodes g !! k) with (GetNode g k) in Hs.
    by rewrite !(bu_nodes _ _ Hb), Hd, Hk in Hs.
  - intros [k Hk]. apply Hac. exists k. by apply (tc_subrel (uses all)).
Qed.
End Whole.

(** ** Runs that do not depend on fuel *)

Definition ends {A} (m : R A) : Prop := forall s, rwp m s (fun _ _ => True).

Create HintDb ends.

Section Ends.
Context {A B : Type}.
Lemma ends_bind (m : R A) (k : A -> R B) : ends m -> (forall a, ends (k a)) -> ends (rbind m k).
Proof. intros Hm Hk s. apply rwp_bind. eapply rwp_mono; [apply Hm|]. intros s' a _. apply Hk. Qed.
Lemma ends_ret (a : A) : ends (rret a).
Proof. done. Qed.
Lemma ends_fail e : ends (@fail A e).
Proof. done. Qed.
Lemma ends_panic : ends (@panic A).
Proof. done. Qed.
Lemma ends_gets (f : RState -> A) : ends (gets f).
Proof. done. Qed.
Lemma ends_modifyR f : ends (modifyR f).
Proof. done. Qed.
Lemma ends_asking (f : nat -> A) : ends (asking f).
Proof. done. Qed.
Lemma ends_wrapping format args (m : R A) : ends m -> ends (wrapping format args m).
Proof. intros Hm s. by apply rwp_wrapping. Qed.
Lemma ends_editGraph f : ends (editGraph f).
Proof. intros s. unfold rwp, editGraph. by destruct (f (rsGraph s)) as [g [e|]]. Qed.
End Ends.

#[export] Hint Resolve ends_bind ends_ret ends_fail ends_panic ends_gets ends_modifyR ends_asking
  ends_wrapping ends_editGraph : ends.

(** Go through the branches of a run. *)
Ltac ends_run :=
  repeat (first [ progress intros
                | assumption
                | apply ends_bind
                | apply ends_wrapping
                | solve [auto with ends]
                | case_match ]).

Section Dynamic.
Context `{HO : Outside} `{HR : Regexp} `{HL : !OutsideLaws}.
Variable r : Resolver.

Lemma resolveOption_ends name : ends (resolveOption r name).
Proof.
  unfold resolveOption, deref, getValue, shouldSkipResolve, beforeValueStillValid, computeOptionValue,
    resolveFromCommand, execOptionCommand, resolveRequired, askRequired, invalidateChangedChildren,
    values, setValue, deleteValue, orFail. ends_run.
Qed.

(** The names that commands give to sub options. *)
Variable U : gset string.
Hypothesis finitely_many : forall out defs, unmarshalSubOptions out = inr defs -> dom defs ⊆ U.

Lemma addToGraph_ends defs vs : ends (addToGraph defs vs).
Proof. unfold addToGraph, walk. ends_run. Qed.

Lemma retrieveSubOptions_spec name s :
  rwp (retrieveSubOptions r name) s (fun _ subOptions => dom (default (∅ : OptionDefinitions) subOptions) ⊆ U).
Proof.
  assert (Hafter : forall defs, dom defs ⊆ U -> forall m : R unit, ends m -> forall s,
    rwp (res! _ := m in rret (Some defs)) s (fun _ subOptions => dom (default (∅ : OptionDefinitions) subOptions) ⊆ U)).
  { intros defs Hdom m Hm s'. apply rwp_bind. eapply rwp_mono; [apply Hm|]. by intros. }
  unfold retrieveSubOptions. apply rwp_bind, rwp_gets. case_match; [|apply rwp_ret; set_solver].
  case_match; [apply rwp_ret; set_solver|]. apply rwp_bind. unfold deref. case_match; [apply rwp_ret|done].
  apply rwp_bind, rwp_gets. case_match; [apply rwp_ret; set_solver|].
  apply rwp_bind. unfold resolveSubOptionsOf.
  apply rwp_bind, rwp_wrapping. unfold execOptionCommand. apply rwp_bind, rwp_gets, rwp_bind, rwp_asking.
  intros n a _. destruct a as [[w e]|out]; [done|]. apply rwp_ret.
  destruct (unmarshalSubOptions out) as [e|defs] eqn:Hdefs; [done|]. apply rwp_ret.
  apply finitely_many in Hdefs.
  apply rwp_bind. eapply rwp_mono; [apply (fun m => m : ends _); unfold pruneChangedChildren; ends_run|]. intros s1 _ _.
  apply rwp_bind. eapply rwp_mono; [apply (fun m => m : ends _); unfold dropInvalidUserValues, panicIf; ends_run|]. intros s2 _ _.
  apply rwp_bind. eapply rwp_mono; [apply (fun m => m : ends _); unfold setChildren, walk; ends_run|]. intros s3 _ _.
  apply rwp_bind, rwp_gets, Hafter; [done|]. apply ends_wrapping, addToGraph_ends.
Qed.

(** The queue needs a step for each name in it, and for each name that is not
    processed yet as many as there are names, and one. *)
Definition stepsLeft (queue : list string) (processed : gset string) : nat :=
  length queue + size (U ∖ processed) * size U.

Lemma length_names {A} (m : gmap string A) names :
  dom m ⊆ U -> names ≡ₚ (map_to_list m).*1 -> (length names <= size U)%nat /\ list_to_set names ⊆ U.
Proof.
  intros Hm Hn. split.
  - rewrite Hn, length_fmap, length_map_to_list, <- size_dom. by apply subseteq_size.
  - intros x Hx%elem_of_list_to_set. rewrite Hn in Hx.
    apply list_elem_of_fmap in Hx as ([k d] & -> & Hk). apply elem_of_map_to_list in Hk.
    apply Hm, elem_of_dom. by exists d.
Qed.

Lemma dynamicLoop_ends fuel : forall queue processed s,
  list_to_set queue ⊆ U -> (stepsLeft queue processed <= fuel)%nat ->
  rwp (dynamicLoop r fuel queue processed) s (fun _ _ => True).
Proof.
  induction fuel as [|fuel IH]; intros [|opt rest] processed s Hq Hf; cbn [dynamicLoop]; try done.
  - unfold stepsLeft in Hf. cbn in Hf. lia.
  - apply rwp_bind, rwp_gets. destruct (_ || _) eqn:Hskip.
    { apply IH; [intros x Hx; apply Hq; clear -Hx; set_solver|]. unfold stepsLeft in *. cbn in Hf. lia. }
    apply orb_false_iff in Hskip as [Hnew%bool_decide_eq_false _].
    apply rwp_bind, rwp_wrapping. eapply rwp_mono; [apply resolveOption_ends|]. intros s1 _ _.
    apply rwp_bind, rwp_wrapping. eapply rwp_mono; [apply retrieveSubOptions_spec|]. intros s2 subs Hsubs.
    apply rwp_bind, rwp_walk. intros s3 names _ Hn.
    destruct (length_names _ _ Hsubs Hn) as [Hlen Hin]. apply IH.
    + intros x [Hx|[_ Hx]%list_elem_of_filter]%elem_of_list_to_set%elem_of_app.
      * apply Hq, elem_of_list_to_set. by right.
      * by apply Hin, elem_of_list_to_set.
    + unfold stepsLeft in *. cbn in Hf. rewrite length_app.
      pose proof (length_filter (fun n => n ∉ {[opt]} ∪ processed) names) as Hle.
      assert (Hsz : size (U ∖ processed) = S (size (U ∖ ({[opt]} ∪ processed)))).
      { assert (Hx : opt ∈ U ∖ processed) by set_solver.
        pose proof (size_singleton_difference _ _ Hx) as Hd.
        replace (U ∖ processed ∖ {[opt]}) with (U ∖ ({[opt]} ∪ processed)) in Hd by set_solver.
        assert (size (U ∖ processed) <> 0%nat); [|lia]. apply size_non_empty_iff. set_solver. }
      rewrite Hsz in Hf. cbn in Hf. lia.
Qed.

Variable fuel : nat.
Hypothesis enough : (size U * S (size U) <= fuel)%nat.

Lemma resolveDynamicOptions_ends (options : OptionDefinitions) :
  dom options ⊆ U -> ends (resolveDynamicOptions r fuel options).
Proof.
  intros Ho s. unfold resolveDynamicOptions. apply rwp_bind, rwp_walk. intros s1 names _ Hn.
  destruct (length_names _ _ Ho Hn) as [Hlen Hin]. apply dynamicLoop_ends; [done|].
  unfold stepsLeft. replace (U ∖ ∅) with U by set_solver. lia.
Qed.

Lemma refreshSubOptions_ends name : ends (refreshSubOptions r fuel name).
Proof.
  intros s. unfold refreshSubOptions. apply rwp_bind. eapply rwp_mono; [apply retrieveSubOptions_spec|].
  intros s1 [defs|] Hd; [|by apply rwp_ret]. by apply rwp_wrapping, resolveDynamicOptions_ends.
Qed.

Lemma resolveEach_ends names : ends (resolveEach r fuel names).
Proof.
  induction names as [|name names IH]; cbn [resolveEach]; [apply ends_ret|].
  pose proof (resolveOption_ends name). pose proof (refreshSubOptions_ends name). ends_run.
Qed.
End Dynamic.

(** Steps of the queue that are enough for these names. *)
Definition dynamicFuel (U : gset string) : nat := size U * S (size U).

(** C21: resolving options ends, also when options name sub options while it runs,
    whose commands name further ones, as long as all these names are among
    finitely many: each name is resolved once per option that starts a run, so
    [dynamicFuel] steps of the queue are enough. *)
Theorem Resolve_ends `{Outside} `{Regexp} `{!OutsideLaws} r fuel user
    (dynamic defs : OptionDefinitions) optionValues (U : gset string) :
  (forall out subOptions, unmarshalSubOptions out = inr subOptions -> dom subOptions ⊆ U) ->
  (dynamicFuel U <= fuel)%nat ->
  (Resolve r fuel user dynamic defs optionValues).2 <> inl OutOfFuel.
Proof.
  intros HU Hfuel.
  enough (Hrun : rwp (fun _ => Resolve r fuel user dynamic defs optionValues) (mkState NewGraph user ∅ 0) (fun _ _ => True)).
  { unfold rwp in Hrun. destruct (Resolve r fuel user dynamic defs optionValues) as [s' [f|a]]; [|done]. cbn. congruence. }
  unfold Resolve. apply rwp_bind. eapply rwp_mono; [apply addToGraph_spec|].
  intros s1 _ (_ & _ & o1 & o2 & Ho1 & Ho2 & Hadd). apply addOptionsToGraph_built in Hadd as Hb; [|done..].
  apply rwp_bind. unfold resolveOptions. apply rwp_bind, rwp_gets.
  destruct (SortNodeIDs_spec (rsGraph s1) (bu_wf _ _ Hb)) as ([e|names] & -> & _); [done|].
  eapply rwp_mono; [by apply (resolveEach_ends r U HU fuel Hfuel)|]. by intros.
Qed.
