(* ===== verification/LogTypes.v ===== *)
(** The record format of retained workspace logs
    (src/pkg/workspacelogs/types.go): records and their validation, manifests,
    size bounds, identifiers and the splitting of output text. *)
From S2P Require Import Prelude GoStd.

(** ** Constants *)

Definition SchemaVersion : Z := 1.

(** The string-typed enumerations of the package; decoded values may be any
    string, so they stay strings and the code's switches have a default. *)
Definition KindProducer := "producer".
Definition KindInvocation := "invocation".
Definition KindOutput := "output".
Definition KindCapture := "capture".

Definition StreamStdout := "stdout".
Definition StreamStderr := "stderr".
Definition StreamCombined := "combined".

Definition InvocationPending := "pending".
Definition InvocationDeferred := "deferred".
Definition InvocationRunning := "running".
Definition InvocationSucceeded := "succeeded".
Definition InvocationFailed := "failed".
Definition InvocationSkipped := "skipped".
Definition InvocationCanceled := "canceled".
Definition InvocationUnknown := "completion_unknown".

Definition ProducerReserved := "reserved".
Definition ProducerRunning := "running".
Definition ProducerTerminal := "terminal".
Definition ProducerUnavailable := "unavailable".

Definition CommandPending := "pending".
Definition CommandRunning := "running".
Definition CommandSucceeded := "succeeded".
Definition CommandFailed := "failed".
Definition CommandCanceled := "canceled".
Definition CommandUnknown := "unknown".

Definition CapturePending := "pending".
Definition CaptureRecording := "recording".
Definition CaptureComplete := "complete".
Definition CapturePartial := "partial".
Definition CaptureUnavailable := "unavailable".

Definition ConditionTruncated := "truncated".
Definition ConditionRetentionGap := "retention_gap".
Definition ConditionWriteError := "write_error".
Definition ConditionUnsupportedSource := "unsupported_source".
Definition ConditionSourceUnavailable := "source_unavailable".
Definition ConditionInterrupted := "interrupted".
Definition ConditionCapacity := "capacity".
Definition ConditionProducerCap := "producer_cap".
Definition ConditionMalformedRecord := "malformed_record".

Definition LocationHost := "host".
Definition LocationProviderHost := "provider_host".
Definition LocationContainer := "container".

Definition MaxChunkBytes : Z := 8 * 1024.
Definition MaxPageBytes : Z := 256 * 1024.
Definition MaxMetadataBytes : Z := 64 * 1024.
Definition MaxProducers : Z := 64.
Definition MaxCursorBytes : Z := 8 * 1024.
Definition MaxDetailBytes : Z := 1024.

Definition ErrInvalidID := Sentinel "workspacelogs.ErrInvalidID" "invalid identifier".
Definition ErrInvalidRecord := Sentinel "workspacelogs.ErrInvalidRecord" "invalid record".
Definition ErrNotFound := Sentinel "workspacelogs.ErrNotFound" "not found".
Definition ErrIdentityConflict :=
  Sentinel "workspacelogs.ErrIdentityConflict" "workspace identity already bound".
Definition ErrSequenceGap := Sentinel "workspacelogs.ErrSequenceGap" "sequence gap".
Definition ErrInvalidCursor := Sentinel "workspacelogs.ErrInvalidCursor" "invalid cursor".
Definition ErrInvalidSelector := Sentinel "workspacelogs.ErrInvalidSelector" "invalid selector".
Definition ErrUnsafePath := Sentinel "workspacelogs.ErrUnsafePath" "unsafe storage path".
Definition ErrCapacity := Sentinel "workspacelogs.ErrCapacity" "storage capacity exhausted".
Definition ErrProducerCap := Sentinel "workspacelogs.ErrProducerCap" "producer limit reached".
Definition ErrDiscoverySealed :=
  Sentinel "workspacelogs.ErrDiscoverySealed" "producer discovery is sealed".

(** [fmt.Errorf("%w: ...", base, ...)] *)
Definition wrap (base : goerr) (fmt : string) (args : list fmtarg) : goerr :=
  Errorf ("%w: " +:+ fmt) (AErr base :: args).

(** ** Records *)

(** Times are nanoseconds since Go's zero time, so [0] is the zero time;
    pointers to numbers are options. *)
Record LogRecord := mkRecord {
  rSchemaVersion : Z;
  rKind : string;
  rRunID : string;
  rProducerID : string;
  rSequence : Z;
  rTime : Z;
  rParentProducerID : string;
  rChildProducerID : string;
  rProducerState : string;
  rDiscoverySealed : bool;
  rInvocationID : string;
  rPhase : string;
  rHook : string;
  rHookIndex : option Z;
  rHookKey : string;
  rLocation : string;
  rState : string;
  rReason : string;
  rDurationMillis : option Z;
  rExitCode : option Z;
  rSignal : string;
  rStream : string;
  rText : string;
  rBytes : Z;
  rElided : bool;
  rCondition : string;
  rDetail : string;
  rDroppedBytes : Z;
}.

(** The zero value, [Record{}]. *)
Definition zeroRecord : LogRecord :=
  mkRecord 0 "" "" "" 0 0 "" "" "" false "" "" "" None "" "" "" "" None None "" "" "" 0 false
           "" "" 0.

#[export] Instance LogRecord_eq_dec : EqDecision LogRecord.
Proof. solve_decision. Defined.

(** A switch case listing several constants. *)
(** ** Identifiers *)

Definition is_lower_hex (c : ascii) : bool := in_range 48 57 c || in_range 97 102 c.

(** [^[0-9a-f]{8}-[0-9a-f]{4}-[0-9a-f]{4}-[0-9a-f]{4}-[0-9a-f]{12}$], the pattern
    spelled out with [h] for a digit. *)
Fixpoint match_template (template s : string) : bool :=
  match template, s with
  | EmptyString, EmptyString => true
  | String t ts, String c cs =>
      (if decide (t = "h"%char) then is_lower_hex c else bool_decide (c = t)) &&
      match_template ts cs
  | _, _ => false
  end.
Definition uuidTemplate : string := "hhhhhhhh-hhhh-hhhh-hhhh-hhhhhhhhhhhh".
Definition ValidID (id : string) : bool := match_template uuidTemplate id.

Definition requireID (name id : string) : err :=
  if ValidID id then None else Some (wrap ErrInvalidID "%s" [AStr name]).

Definition validHooks : list string :=
  ["initializeCommand"; "onCreateCommand"; "updateContentCommand"; "postCreateCommand";
   "postStartCommand"; "postAttachCommand"].
Definition ValidHook (name : string) : bool := one_of name validHooks.

(** ** Validation *)

Definition validLocation (l : string) : err :=
  if one_of l [""; LocationHost; LocationProviderHost; LocationContainer] then None
  else Some (wrap ErrInvalidRecord "location %q" [AStr l]).

Definition validateProducer (r : LogRecord) : err :=
  if negb (one_of (rProducerState r) [""; ProducerReserved; ProducerRunning;
                                      ProducerTerminal; ProducerUnavailable])
  then Some (wrap ErrInvalidRecord "producer state %q" [AStr (rProducerState r)])
  else
    andThen (if decide (rChildProducerID r = "") then None
             else requireID "childProducerId" (rChildProducerID r))
            (validLocation (rLocation r)).

Definition validConditions : list string :=
  [ConditionTruncated; ConditionRetentionGap; ConditionWriteError; ConditionUnsupportedSource;
   ConditionSourceUnavailable; ConditionInterrupted; ConditionCapacity; ConditionProducerCap;
   ConditionMalformedRecord].
Definition validateCapture (r : LogRecord) : err :=
  if one_of (rCondition r) validConditions then validLocation (rLocation r)
  else Some (wrap ErrInvalidRecord "condition %q" [AStr (rCondition r)]).

Definition validateOutput (r : LogRecord) : err :=
  andThen (requireID "invocationId" (rInvocationID r))
    (if negb (one_of (rStream r) [StreamStdout; StreamStderr; StreamCombined])
     then Some (wrap ErrInvalidRecord "stream %q" [AStr (rStream r)])
     else if MaxChunkBytes <? len (rText r)
     then Some (wrap ErrInvalidRecord "output chunk exceeds %d bytes" [AInt MaxChunkBytes])
     else if negb (ValidString (rText r))
     then Some (wrap ErrInvalidRecord "output is not valid UTF-8" [])
     else None).

Definition validInvocationStates : list string :=
  [InvocationPending; InvocationDeferred; InvocationRunning; InvocationSucceeded;
   InvocationFailed; InvocationSkipped; InvocationCanceled; InvocationUnknown].
Definition validateInvocation (r : LogRecord) : err :=
  andThen (requireID "invocationId" (rInvocationID r))
    (if negb (bool_decide (rHook r = "")) && negb (ValidHook (rHook r))
     then Some (wrap ErrInvalidRecord "hook %q" [AStr (rHook r)])
     else if one_of (rState r) validInvocationStates then None
     else Some (wrap ErrInvalidRecord "invocation state %q" [AStr (rState r)])).

Definition validateKind (r : LogRecord) : err :=
  if bool_decide (rKind r = KindOutput) then validateOutput r
  else if bool_decide (rKind r = KindInvocation) then validateInvocation r
  else if bool_decide (rKind r = KindProducer) then validateProducer r
  else if bool_decide (rKind r = KindCapture) then validateCapture r
  else Some (wrap ErrInvalidRecord "kind %q" [AStr (rKind r)]).

Definition Validate (r : LogRecord) : err :=
  if negb (rSchemaVersion r =? SchemaVersion)
  then Some (wrap ErrInvalidRecord "schema version %d" [AInt (rSchemaVersion r)])
  else
    andThen (requireID "runId" (rRunID r))
   (andThen (requireID "producerId" (rProducerID r))
   (if rSequence r =? 0 then Some (wrap ErrInvalidRecord "sequence must start at 1" [])
    else validateKind r)).

(** ** Splitting output text *)

(** [for cut > 0 && !utf8.RuneStart(text[cut]) { cut-- }] *)
Fixpoint backToRuneStart (cut : nat) (text : string) : nat :=
  match cut with
  | O => O
  | S cut' =>
      match String.get cut text with
      | Some c => if RuneStart c then cut else backToRuneStart cut' text
      | None => cut
      end
  end.

(** The loop of [SplitText]; each turn consumes at least one byte. *)
Fixpoint splitLoop (fuel : nat) (text : string) (max : nat) : list string :=
  match fuel with
  | O => []
  | S fuel' =>
      if (max <? String.length text)%nat then
        let back := backToRuneStart max text in
        let cut := if (back =? 0)%nat then max else back in
        string_take cut text :: splitLoop fuel' (string_drop cut text) max
      else if decide (text = "") then [] else [text]
  end.
Definition SplitText (text : string) (maxBytes : Z) : list string :=
  let max := if maxBytes <=? 0 then MaxChunkBytes else maxBytes in
  splitLoop (S (String.length text)) text (Z.to_nat max).

(** ** Manifests *)

Record ProducerRef := mkProducerRef {
  pProducerID : string;
  pParentProducerID : string;
  pState : string;
  pLocation : string;
  pSealed : bool;
}.

#[export] Instance ProducerRef_eq_dec : EqDecision ProducerRef.
Proof. solve_decision. Defined.

Record RunManifest := mkManifest {
  mSchemaVersion : Z;
  mRunID : string;
  mContext : string;
  mWorkspaceUID : option string;
  mWorkspaceIDAtStart : string;
  mCommand : string;
  mTaskID : string;
  mCreatedAt : Z;
  mUpdatedAt : Z;
  mCommandState : string;
  mCaptureState : string;
  mConditions : list string;
  mProducers : list ProducerRef;
  mDiscoverySealed : bool;
}.

Record RunSpec := mkRunSpec {
  sRunID : string;
  sContext : string;
  sWorkspaceUID : string;
  sWorkspaceIDAtStart : string;
  sCommand : string;
  sTaskID : string;
}.

Record RunSummary := mkRunSummary {
  smRunID : string;
  smContext : string;
  smWorkspaceUID : option string;
  smWorkspaceIDAtStart : string;
  smCommand : string;
  smTaskID : string;
  smCreatedAt : Z;
  smCommandState : string;
  smCaptureState : string;
  smConditions : list string;
}.

Definition Summary (m : RunManifest) : RunSummary :=
  mkRunSummary (mRunID m) (mContext m) (mWorkspaceUID m) (mWorkspaceIDAtStart m)
    (mCommand m) (mTaskID m) (mCreatedAt m) (mCommandState m) (mCaptureState m)
    (mConditions m).

Definition Complete (m : RunManifest) : bool :=
  if negb (mDiscoverySealed m) || negb (bool_decide (mCaptureState m = CaptureComplete))
  then false
  else forallb (fun p => bool_decide (pState p = ProducerTerminal)) (mProducers m).

Definition Active (m : RunManifest) : bool :=
  if negb (mDiscoverySealed m) then true
  else existsb (fun p => one_of (pState p) [ProducerReserved; ProducerRunning]) (mProducers m).
