(* ===== verification/HookEnv.v ===== *)
(** The environment of lifecycle commands (src/pkg/devcontainer/setup/lifecyclehooks.go,
    src/pkg/devcontainer/config/result.go): the user they run as, the variables and
    the search path they see, and the arguments they are started with. *)
From S2P Require Import Prelude GoStd GoText GoConv GoPath Json DevTypes Redact.

(** ** Users *)

Record ContainerDetails := mkDetails {
  Created : string;
  StartedAt : string;
  ImageUser : string;
  Labels : gmap string string;
}.
(** What the setup of a container is given; nil parts are [None]. *)
Record Result := mkResult {
  MergedConfig : option MergedDevContainerConfig;
  ContainerWorkspaceFolder : string;
  Details : option ContainerDetails;
}.

Definition UserLabel := "devsy.user".
Definition remoteUserRoot := "root".
Definition userFromConfig (result : Result) : string :=
  match MergedConfig result with
  | None => ""
  | Some mc => if bool_decide (RemoteUser (mgBase mc) <> "") then RemoteUser (mgBase mc) else ContainerUser (mgNonCompose mc)
  end.
Definition userFromContainerLabel (result : Result) : string :=
  match Details result with None => "" | Some cd => default "" (Labels cd !! UserLabel) end.
Definition userFromContainer (result : Result) : string :=
  if bool_decide (userFromContainerLabel result <> "") then userFromContainerLabel result
  else match Details result with None => "" | Some cd => ImageUser cd end.
Definition GetRemoteUser (result : option Result) : string :=
  match result with
  | None => remoteUserRoot
  | Some r =>
      if bool_decide (userFromConfig r <> "") then userFromConfig r
      else if bool_decide (userFromContainer r <> "") then userFromContainer r
      else remoteUserRoot
  end.

(** ** Variables *)

Record lifecycleEnv := mkEnv { remoteUser : string; workspaceFolder : string; remoteEnv : gmap string string }.

(** Secrets give way to keys that are there already; both kinds are masked. *)
Definition addSecret (env : gmap string string) (entry : string) : gmap string string :=
  match CutChar "=" entry with
  | None => env
  | Some (key, value) => match env !! key with Some _ => env | None => <[key := value]> env end
  end.
Definition mergeSecretsEnv (env : gmap string string) (secretsEnv secretsMount : list string)
    : gmap string string * Redactor :=
  (foldl addSecret env secretsEnv, NewRedactor (secretsEnv ++ secretsMount)).

(** [/sbin(/|$)] matches. *)
Definition isSbin (e : string) : bool := Contains e "/sbin/" || HasSuffix e "/sbin".
Definition slicesIndex (l : list string) (e : string) : option nat := fst <$> list_find (fun t => t = e) l.
Definition slicesInsert (l : list string) (i : nat) (e : string) : list string := take i l ++ e :: drop i l.
Fixpoint mergeTokens (remoteUser : string) (tokens : list string) (insertAt : nat) (entries : list string) : list string :=
  match entries with
  | [] => tokens
  | e :: rest =>
      match slicesIndex tokens e with
      | None =>
          if bool_decide (remoteUser = "root") || negb (isSbin e)
          then mergeTokens remoteUser (slicesInsert tokens insertAt e) insertAt rest
          else mergeTokens remoteUser tokens insertAt rest
      | Some i => mergeTokens remoteUser tokens (S i) rest
      end
  end.
Definition mergePATH (retEnv : gmap string string) (remoteEnv : gmap string (option string))
    (probedEnv : gmap string string) (remoteUser : string) : gmap string string :=
  match remoteEnv !! "PATH" with
  | Some (Some remotePath) =>
      match probedEnv !! "PATH" with
      | Some probedPath =>
          <["PATH" := Join (mergeTokens remoteUser (SplitChar ":" probedPath) 0 (SplitChar ":" remotePath)) ":"]> retEnv
      | None => retEnv
      end
  | _ => retEnv
  end.
(** A key without a value is unset. *)
Definition mergeRemoteEnv (remoteEnv : gmap string (option string)) (probedEnv : gmap string string)
    (remoteUser : string) : gmap string string :=
  let retEnv := merge (fun v p => match v with Some o => o | None => p end) remoteEnv probedEnv in
  mergePATH retEnv remoteEnv probedEnv remoteUser.

(** ** Arguments *)

(** [quote] is shellescape.QuoteCommand. *)
Definition buildCommandArgs (quote : list string -> string) (c : list string) (remoteUser currentUsername : string)
    : list string :=
  match c with
  | [single] =>
      if bool_decide (remoteUser <> currentUsername) then ["su"; remoteUser; "-c"; single] else ["sh"; "-c"; single]
  | _ => if bool_decide (remoteUser <> currentUsername) then ["su"; remoteUser; "-c"; quote c] else c
  end.

(** ** The search path *)

Lemma slicesIndex_Some l e i : slicesIndex l e = Some i -> l !! i = Some e.
Proof.
  unfold slicesIndex. destruct (list_find _ l) as [[j x]|] eqn:Hf; [|done]. intros [= <-].
  apply list_find_Some in Hf. naive_solver.
Qed.
Lemma slicesIndex_None l e : slicesIndex l e = None -> e ∉ l.
Proof.
  unfold slicesIndex. destruct (list_find _ l) as [|] eqn:Hf; [done|]. intros _ He.
  apply list_find_None in Hf. rewrite Forall_forall in Hf. by apply (Hf e).
Qed.
Lemma elem_of_slicesInsert l i e x : x ∈ slicesInsert l i e <-> x = e \/ x ∈ l.
Proof. unfold slicesInsert. rewrite elem_of_app, elem_of_cons. rewrite <- (take_drop i l) at 3. rewrite elem_of_app. tauto. Qed.
Lemma sublist_slicesInsert l i e : l `sublist_of` slicesInsert l i e.
Proof. unfold slicesInsert. rewrite <- (take_drop i l) at 1. by apply sublist_app, sublist_cons. Qed.

(** What [mergeTokens] takes over of the configured path. *)
Definition allowedPath (remoteUser e : string) : Prop := remoteUser = "root" \/ isSbin e = false.
Lemma mergeTokens_spec user entries : forall tokens i,
  let merged := mergeTokens user tokens i entries in
  tokens `sublist_of` merged /\ (forall e, e ∈ merged -> e ∈ tokens \/ (e ∈ entries /\ allowedPath user e)) /\
  (forall e, e ∈ entries -> allowedPath user e -> e ∈ merged).
Proof.
  induction entries as [|e entries IH]; intros tokens i; cbn [mergeTokens].
  { split_and!; [done|auto|set_solver]. }
  assert (Hskip : forall j, e ∈ tokens \/ ~ allowedPath user e ->
    let merged := mergeTokens user tokens j entries in
    tokens `sublist_of` merged /\ (forall x, x ∈ merged -> x ∈ tokens \/ (x ∈ e :: entries /\ allowedPath user x)) /\
    (forall x, x ∈ e :: entries -> allowedPath user x -> x ∈ merged)).
  { intros j He merged. destruct (IH tokens j) as (Hs & Hin & Hall). split_and!; [done| |].
    - intros x Hx. destruct (Hin x Hx) as [?|[? ?]]; [by left|right; set_solver].
    - intros x Hx Ha. apply elem_of_cons in Hx as [->|Hx]; [|by apply Hall].
      destruct He as [He|He]; [by eapply elem_of_sublist|done]. }
  destruct (slicesIndex tokens e) as [j|] eqn:Hj.
  { apply Hskip. left. eapply list_elem_of_lookup_2. by apply slicesIndex_Some. }
  destruct (bool_decide (user = "root") || negb (isSbin e)) eqn:Ha.
  - assert (Hallow : allowedPath user e).
    { apply orb_true_iff in Ha as [Ha%bool_decide_eq_true|Ha%negb_true_iff]; [by left|by right]. }
    destruct (IH (slicesInsert tokens i e) i) as (Hs & Hin & Hall). split_and!.
    + trans (slicesInsert tokens i e); [apply sublist_slicesInsert|done].
    + intros x Hx. destruct (Hin x Hx) as [[->|Hx']%elem_of_slicesInsert|[? ?]]; [right; set_solver|by left|right; set_solver].
    + intros x Hx Hax. apply elem_of_cons in Hx as [->|Hx]; [|by apply Hall].
      eapply elem_of_sublist; [|exact Hs]. apply elem_of_slicesInsert. by left.
  - apply Hskip. right. apply orb_false_iff in Ha as [Ha%bool_decide_eq_false Hb%negb_false_iff].
    intros [?|?]; congruence.
Qed.

(** C40: the environment of a lifecycle command has every configured variable, not
    those that are unset, and the probed ones behind them; its search path keeps
    the directories of the probed one in their order, has every directory of the
    configured one that the user may have, and no other. *)
Theorem mergeRemoteEnv_spec remote probed user :
  let env := mergeRemoteEnv remote probed user in
  (forall k, k <> "PATH" -> env !! k = match remote !! k with Some v => v | None => probed !! k end) /\
  (forall remotePath probedPath, remote !! "PATH" = Some (Some remotePath) -> probed !! "PATH" = Some probedPath ->
   exists tokens, env !! "PATH" = Some (Join tokens ":") /\ SplitChar ":" probedPath `sublist_of` tokens /\
     (forall e, e ∈ tokens <-> e ∈ SplitChar ":" probedPath \/ (e ∈ SplitChar ":" remotePath /\ allowedPath user e))) /\
  (remote !! "PATH" = Some None -> env !! "PATH" = None).
Proof.
  cbn. unfold mergeRemoteEnv. set (ret := merge _ remote probed).
  assert (Hret : forall k, ret !! k = match remote !! k with Some v => v | None => probed !! k end).
  { intros k. unfold ret. rewrite lookup_merge. unfold diag_None. by destruct (remote !! k), (probed !! k). }
  split_and!.
  - intros k Hk. unfold mergePATH. rewrite <- Hret. repeat case_match; [by rewrite lookup_insert_ne|done..].
  - intros remotePath probedPath Hr Hp. unfold mergePATH. rewrite Hr, Hp, lookup_insert_eq. eexists. split; [done|].
    destruct (mergeTokens_spec user (SplitChar ":" remotePath) (SplitChar ":" probedPath) 0) as (Hs & Hin & Hall).
    split; [done|]. intros e. split; [apply Hin|]. intros [He|[He Ha]]; [by eapply elem_of_sublist|by apply Hall].
  - intros Hr. unfold mergePATH. rewrite Hr. by rewrite Hret, Hr.
Qed.

(** The directories a configuration puts in front come out in reverse. *)
Example path_reversed :
  mergeRemoteEnv {["PATH" := Some "/a:/b:/usr/bin"]} {["PATH" := "/usr/bin:/bin"]} "root" !! "PATH" = Some "/b:/a:/usr/bin:/bin".
Proof. vm_compute. reflexivity. Qed.
