(* ===== verification/Hooks.v ===== *)
(** Lifecycle commands of a dev container (src/pkg/devcontainer/setup/lifecyclehooks.go,
    lifecycle_terminal.go and the markers of setup.go): the phases up to [waitFor]
    run before the setup returns, the others afterwards; each command's progress
    is recorded, and a marker keeps a phase from running twice. *)
From S2P Require Import Prelude GoStd GoText GoConv GoPath GoState Json DevTypes Redact HookEnv LogTypes.

(** ** Phases *)

Abbreviation LifecyclePhase := string.
Definition PhaseInitializeCommand : LifecyclePhase := "initializeCommand".
Definition PhaseOnCreate : LifecyclePhase := "onCreateCommand".
Definition PhaseUpdateContent : LifecyclePhase := "updateContentCommand".
Definition PhasePostCreate : LifecyclePhase := "postCreateCommand".
Definition PhasePostStart : LifecyclePhase := "postStartCommand".
Definition PhasePostAttach : LifecyclePhase := "postAttachCommand".
Definition PhaseDotfiles : LifecyclePhase := "dotfilesInstall".
Definition DefaultWaitFor := PhaseUpdateContent.
Definition phaseOrder : list LifecyclePhase :=
  [PhaseOnCreate; PhaseUpdateContent; PhasePostCreate; PhasePostStart; PhasePostAttach].

Definition validWaitForPhase (phase : LifecyclePhase) : bool :=
  bool_decide (phase = PhaseInitializeCommand) || bool_decide (phase ∈ phaseOrder).
(** -1 for a phase that is not one of them. *)
Definition phaseIndex (p : LifecyclePhase) : Z :=
  match slicesIndex [PhaseOnCreate; PhaseUpdateContent; PhasePostCreate; PhaseDotfiles; PhasePostStart; PhasePostAttach] p with
  | Some i => Z.of_nat i
  | None => -1
  end.
Definition resolveWaitFor (raw : string) (floor : LifecyclePhase) : LifecyclePhase :=
  let waitFor := if validWaitForPhase raw then raw else DefaultWaitFor in
  if validWaitForPhase floor && (phaseIndex waitFor <? phaseIndex floor) then floor else waitFor.
Record DotfilesConfig := mkDotfiles { Repository : string; InstallScript : string; DotfilesUser : string }.
Definition promoteDotfilesWaitFor (waitFor : LifecyclePhase) (dotfiles : DotfilesConfig) : LifecyclePhase :=
  if bool_decide (Repository dotfiles = "") then waitFor
  else if bool_decide (waitFor = PhaseInitializeCommand) then waitFor
  else if phaseIndex PhaseDotfiles <=? phaseIndex waitFor then waitFor
  else PhaseDotfiles.

(** ** What happens *)

Definition reasonNoCommand := "no_command_configured".
Definition reasonExplicitSkip := "explicit_skip".
Definition reasonAlreadyAttempted := "already_attempted".
Definition reasonPrebuildExcluded := "prebuild_excluded".
Definition reasonMarkerCheckFailed := "marker_check_failed".
Definition reasonNotReached := "not_reached".
Definition reasonUserLookupFailed := "user_lookup_failed".
Definition reasonCommandNotFound := "command_not_found".
Definition reasonStartFailed := "start_failed".
Definition reasonSignaled := "signaled".
Definition hookPhase := "lifecycle".

Record Invocation := mkInvocation {
  ivID : string;
  ivPhase : string;
  ivHook : string;
  ivIndex : option nat;
  ivKey : string;
  ivState : string;
  ivReason : string;
  ivExitCode : option Z;
  ivSignal : string;
  ivDuration : Z;
}.
Record CommandResult := mkCommandResult {
  ExitCode : Z;
  Signal : string;
  Duration : Z;
  DiagnosticOutput : string;
}.
(** A call of the recorder, the start of a command, and the dotfiles. *)
Inductive HookEvent :=
| Recorded (inv : Invocation)
| Started (hook : string) (index : nat) (key : string) (args : list string) (dir : string) (env : gmap string string)
| DotfilesRun.
Abbreviation History := (list HookEvent).

(** The marker files by name, the identifiers the plans have handed out, how many
    random ones were drawn, and what has happened. *)
Record HookState := mkHookState {
  markerFiles : gmap string string;
  plans : gmap (string * nat * string) string;
  drawn : nat;
  trace : History;
}.
Definition setMarker (name content : string) (s : HookState) : HookState :=
  mkHookState (<[name := content]> (markerFiles s)) (plans s) (drawn s) (trace s).
Definition emit (e : HookEvent) : Go HookState () :=
  update (fun s => mkHookState (markerFiles s) (plans s) (drawn s) (trace s ++ [e])).

(** The container and its operating system; what an answer depends on is what
    has happened so far. *)
Class HookWorld := {
  containerDataDir : string;
  secureDataDir : History -> bool;
  readMarkerError : string -> History -> option goerr;
  writeMarkerOutcome : string -> string -> History -> option (goerr * option string);
  newID : nat -> string;
  deterministicID : list string -> string;
  currentUser : History -> goerr + string;
  LookPath : string -> History -> goerr + string;
  quoteCommand : list string -> string;
  runProcess : string -> History -> CommandResult * err;
  ctxErr : History -> bool;
  Getenv : string -> string;
  probeUserEnv : string -> string -> goerr + gmap string string;
  RunDotfiles : DotfilesConfig -> History -> err;
  (* the order of a walk over the commands of a hook, and the next of those that
     run at the same time *)
  walkHook : LifecycleHook -> History -> list (string * list string);
  schedule : History -> nat;
  prepareInteractiveLaunch : string -> History -> err;
  beginTerminal : History -> err;
  runInteractiveProcess : string -> History -> CommandResult * err;
}.
Class HookLaws `{HookWorld} := walkHook_perm : forall h tr, walkHook h tr ≡ₚ map_to_list h.

Record hookRunParams := mkHookParams {
  pCtx : bool;
  pCommands : list LifecycleHook;
  pEnv : lifecycleEnv;
  pRedactor : option Redactor;
  pName : string;
  pContent : string;
  pHook : string;
  pIndex : nat;
  pPlanned : bool;
  pTerminal : bool;
}.
Definition setIndex (i : nat) (p : hookRunParams) : hookRunParams :=
  mkHookParams (pCtx p) (pCommands p) (pEnv p) (pRedactor p) (pName p) (pContent p) (pHook p) i (pPlanned p) (pTerminal p).
Definition withContext (p : hookRunParams) : hookRunParams :=
  mkHookParams true (pCommands p) (pEnv p) (pRedactor p) (pName p) (pContent p) (pHook p) (pIndex p) (pPlanned p) (pTerminal p).

Section Hooks.
Context `{HW : HookWorld}.
(** The run the recorder of the context writes to; [None] without a recorder. *)
Context (run : option string).

Definition here {A} (f : History -> A) : Go HookState A := read (fun s => f (trace s)).

(** ** Recording *)

Definition NewID : Go HookState string := fun s =>
  (mkHookState (markerFiles s) (plans s) (S (drawn s)) (trace s), inr (newID (drawn s))).
(** [hookPlan.id] *)
Definition planID (p : hookRunParams) (runID key : string) : Go HookState string :=
  if negb (pPlanned p) then NewID
  else if bool_decide (runID <> "") then yield (deterministicID [runID; pHook p; Itoa (Z.of_nat (pIndex p)); key])
  else
    go! known := read (fun s => plans s !! (pHook p, pIndex p, key)) in
    match known with
    | Some id => yield id
    | None =>
        go! id := NewID in
        go! _ := update (fun s => mkHookState (markerFiles s) (<[(pHook p, pIndex p, key) := id]> (plans s)) (drawn s) (trace s)) in
        yield id
    end.
Definition recorderFrom (ctx : bool) : option string := if ctx then run else None.
(** The zero [invocationRef], which records nothing, is [None]. *)
Definition invocation (p : hookRunParams) (key : string) : Go HookState (option Invocation) :=
  match recorderFrom (pCtx p) with
  | None => yield None
  | Some runID =>
      go! id := planID p runID key in
      yield (Some (mkInvocation id hookPhase (pHook p) (Some (pIndex p)) key "" "" None "" 0))
  end.
Definition recordRef (r : option Invocation) (state reason : string) : Go HookState () :=
  match r with
  | None => yield ()
  | Some inv =>
      emit (Recorded (mkInvocation (ivID inv) (ivPhase inv) (ivHook inv) (ivIndex inv) (ivKey inv) state reason
                        (ivExitCode inv) (ivSignal inv) (ivDuration inv)))
  end.
Definition keysOf (h : LifecycleHook) : list string := sortStrings ((map_to_list h).*1).
Definition commandsFrom (first : nat) (p : hookRunParams) : list (nat * LifecycleHook) :=
  drop first (imap (fun i h => (i, h)) (pCommands p)).
Definition recordFrom (p : hookRunParams) (first : nat) (state reason : string) : Go HookState () :=
  if bool_decide (recorderFrom (pCtx p) = None) || bool_decide (pHook p = "") then yield ()
  else
    eachGo (fun '(i, h) =>
      eachGo (fun key =>
        go! inv := invocation (setIndex i p) key in
        recordRef inv state reason) (keysOf h))
      (commandsFrom first p).
Definition recordAll (p : hookRunParams) (state reason : string) : Go HookState () := recordFrom p 0 state reason.
Definition recordSkipped (p : hookRunParams) (reason : string) : Go HookState () :=
  if bool_decide (recorderFrom (pCtx p) = None) || bool_decide (pHook p = "") then yield ()
  else match pCommands p with
       | [] =>
           go! id := NewID in
           emit (Recorded (mkInvocation id hookPhase (pHook p) None "" InvocationSkipped reasonNoCommand None "" 0))
       | _ => recordAll p InvocationSkipped reason
       end.

Definition outcomeState (canceled : bool) (res : CommandResult) (e : err) : string * string :=
  match e with
  | None => (InvocationSucceeded, "")
  | Some _ =>
      if canceled then (InvocationCanceled, "")
      else if bool_decide (Signal res <> "") then (InvocationFailed, reasonSignaled)
      else if ExitCode res <? 0 then (InvocationFailed, reasonStartFailed)
      else (InvocationFailed, "")
  end.
Definition finish (r : option Invocation) (canceled : bool) (res : CommandResult) (e : err) : Go HookState () :=
  match r with
  | None => yield ()
  | Some inv =>
      let '(state, reason) := outcomeState canceled res e in
      let code := if bool_decide (e = None) || (0 <=? ExitCode res) then Some (ExitCode res) else ivExitCode inv in
      emit (Recorded (mkInvocation (ivID inv) (ivPhase inv) (ivHook inv) (ivIndex inv) (ivKey inv) state reason
                        code (Signal res) (Duration res)))
  end.
Definition hint (r : option Invocation) : string :=
  match r, run with
  | Some inv, Some runID =>
      if bool_decide (runID = "") then ""
      else "full output: devsy workspace logs <workspace> --source setup --run " +:+ runID +:+
           (if bool_decide (ivHook inv <> "") then " --hook " +:+ ivHook inv else "")
  | _, _ => ""
  end.
Definition joinDetails (output hint : string) : string :=
  if bool_decide (hint = "") then output else if bool_decide (output = "") then hint else output +:+ nl +:+ hint.

(** ** Markers *)

Definition markerExists (name content : string) : Go HookState bool :=
  if bool_decide (containerDataDir = "") then yield false
  else
    go! failed := here (readMarkerError name) in
    match failed with
    | Some e => refuse e
    | None =>
        go! file := read (fun s => markerFiles s !! name) in
        yield match file with None => false | Some t => bool_decide (content = "") || bool_decide (t = content) end
    end.
Definition writeMarker (name content : string) : Go HookState () :=
  if bool_decide (containerDataDir = "") then refuse (Errorf "container data directory is unavailable" [])
  else
    go! secured := here secureDataDir in
    if negb secured then refuse (Errorf "create or secure %s" [AStr containerDataDir])
    else
      go! failed := here (writeMarkerOutcome name content) in
      match failed with
      | None => update (setMarker name content)
      | Some (e, left_) =>
          go! _ := (match left_ with Some t => update (setMarker name t) | None => yield () end) in
          refuse (Errorf "write marker: %w" [AErr e])
      end.
Definition wrapErr {A} (format : string) (m : Go HookState A) : Go HookState A := fun s =>
  match m s with
  | (s', inl (Failed e)) => (s', inl (Failed (Errorf format [AErr e])))
  | r => r
  end.
Definition markerFileExists (name content : string) : Go HookState bool :=
  go! exists_ := markerExists name content in
  if (exists_ : bool) then yield true
  else
    go! _ := wrapErr "write marker: %w" (writeMarker name content) in
    yield false.
Definition shouldSkipHook (name content : string) : Go HookState bool :=
  if bool_decide (content = "") then yield false else markerFileExists name content.

(** ** One command *)

Record RunningCommand := mkRunningCommand {
  rcBinary : string;
  rcCommand : list string;
  rcInv : option Invocation;
}.
Definition redacted (p : hookRunParams) (c : list string) : string := Redact (pRedactor p) (Join c " ").

(** [runSingleHookCommand] up to the start of the process; [None] when there is
    nothing to start. *)
Definition beginCommand (p : hookRunParams) (key : string) (c : list string) : Go HookState (option RunningCommand) :=
  go! inv := invocation p key in
  go! user := here currentUser in
  match user with
  | inl e =>
      go! _ := recordRef inv InvocationFailed reasonUserLookupFailed in
      refuse e
  | inr username =>
      match c with
      | [] =>
          go! _ := recordRef inv InvocationSkipped reasonNoCommand in
          yield None
      | _ =>
          let args := buildCommandArgs quoteCommand c (remoteUser (pEnv p)) username in
          let arg0 := default "" (head args) in
          go! path := here (LookPath arg0) in
          match path with
          | inl e =>
              go! _ := recordRef inv InvocationFailed reasonCommandNotFound in
              refuse (Errorf "command not found: %s: %w" [AStr arg0; AErr e])
          | inr binary =>
              go! _ := recordRef inv InvocationRunning "" in
              go! _ := emit (Started (pHook p) (pIndex p) key args (workspaceFolder (pEnv p)) (remoteEnv (pEnv p))) in
              yield (Some (mkRunningCommand binary c inv))
          end
      end
  end.
(** [executeAndCapture] from the end of the process. *)
Definition finishCommand (p : hookRunParams) (rc : RunningCommand) : Go HookState () :=
  go! (res, e) := here (runProcess (rcBinary rc)) in
  go! canceled := here ctxErr in
  go! _ := finish (rcInv rc) canceled res e in
  match e with
  | None => yield ()
  | Some cause =>
      let details := joinDetails (DiagnosticOutput res) (hint (rcInv rc)) in
      refuse (if bool_decide (details <> "")
              then Errorf "%s: command %q failed: %s: %w"
                     [AStr (pName p); AStr (redacted p (rcCommand rc)); AStr details; AErr cause]
              else Errorf "%s: command %q failed: %w" [AStr (pName p); AStr (redacted p (rcCommand rc)); AErr cause])
  end.
Definition runSingleHookCommand (p : hookRunParams) (key : string) (c : list string) : Go HookState () :=
  go! started := beginCommand p key c in
  match started with None => yield () | Some rc => finishCommand p rc end.

(** ** The commands of a hook *)

(** A goroutine has not begun or waits for its process. *)
Inductive Goroutine := Fresh (key : string) (c : list string) | Waiting (key : string) (rc : RunningCommand).
(** What a step leaves of a goroutine: the rest of it, or the error it ends with. *)
Definition stepGoroutine (p : hookRunParams) (g : Goroutine) : Go HookState (option Goroutine * err) := fun s =>
  let ended key e := Errorf "named command %q failed: %w" [AStr key; AErr e] in
  match g with
  | Fresh key c =>
      match beginCommand p key c s with
      | (s', inl (Failed e)) => (s', inr (None, Some (ended key e)))
      | (s', inl OutOfFuel) => (s', inl OutOfFuel)
      | (s', inr None) => (s', inr (None, None))
      | (s', inr (Some rc)) => (s', inr (Some (Waiting key rc), None))
      end
  | Waiting key rc =>
      match finishCommand p rc s with
      | (s', inl (Failed e)) => (s', inr (None, Some (ended key e)))
      | (s', inl OutOfFuel) => (s', inl OutOfFuel)
      | (s', inr _) => (s', inr (None, None))
      end
  end.
(** Goroutines take steps in any order; a goroutine has two at most. *)
Fixpoint interleave (fuel : nat) (p : hookRunParams) (gs : list Goroutine) (errs : list err) : Go HookState (list err) :=
  match gs with
  | [] => yield errs
  | g0 :: _ =>
      match fuel with
      | O => exhausted
      | S fuel' =>
          go! n := here schedule in
          let i := (n mod length gs)%nat in
          go! (rest, e) := stepGoroutine p (default g0 (gs !! i)) in
          let gs' := match rest with Some g' => <[i := g']> gs | None => delete i gs end in
          interleave fuel' p gs' (match e with Some _ => errs ++ [e] | None => errs end)
      end
  end.
Definition executeLifecycleHook (p : hookRunParams) (hook : LifecycleHook) : Go HookState () :=
  go! cmds := here (walkHook hook) in
  match cmds with
  | [] => yield ()
  | [(key, c)] => runSingleHookCommand p key c
  | _ =>
      go! errs := interleave (2 * length cmds) p (map (fun kc => Fresh kc.1 kc.2) cmds) [] in
      match errorsJoin errs with Some e => refuse e | None => yield () end
  end.
(** Record what is not reached when the commands of a hook fail. *)
Definition orNotReached (p : hookRunParams) (i : nat) (m : Go HookState ()) : Go HookState () := fun s =>
  match m s with
  | (s', inl (Failed e)) =>
      (go! _ := recordFrom p (S i) InvocationSkipped reasonNotReached in refuse e) s'
  | r => r
  end.
Definition executeHookCommands (p : hookRunParams) : Go HookState () :=
  eachGo (fun '(i, hook) =>
    if bool_decide (hook = ∅) then yield ()
    else orNotReached p i (executeLifecycleHook (setIndex i p) hook))
    (commandsFrom 0 p).

(** ** Interactive commands *)

Definition moreThanOne (l : list (list string)) : bool :=
  (1 <? length (filter (fun c : list string => c <> []) l))%nat.
Definition ValidateInteractivePostStart (hooks : list LifecycleHook) : err :=
  match list_find (fun h : LifecycleHook => moreThanOne (map_to_list h).*2 = true) hooks with
  | None => None
  | Some (i, _) => Some (Errorf "%s merged index %d has multiple nonempty named commands" [AStr PhasePostStart; AInt (Z.of_nat i)])
  end.
Definition interactiveError (p : hookRunParams) (c : list string) (res : CommandResult) (cause : goerr) : goerr :=
  let display := AStr (redacted p c) in
  if errorsIs cause "context.Canceled" || errorsIs cause "context.DeadlineExceeded"
  then Errorf "%s: command %q canceled" [AStr (pName p); display]
  else if bool_decide (Signal res <> "") then Errorf "%s: command %q failed: signal %s" [AStr (pName p); display; AStr (Signal res)]
  else if 0 <=? ExitCode res then Errorf "%s: command %q failed: exit code %d" [AStr (pName p); display; AInt (ExitCode res)]
  else Errorf "%s: command %q failed to start" [AStr (pName p); display].
Definition executeInteractive (p : hookRunParams) (key : string) (c : list string) : Go HookState () :=
  go! inv := invocation p key in
  go! began := here beginTerminal in
  match began with
  | Some e =>
      go! _ := recordRef inv InvocationFailed reasonStartFailed in
      refuse (Errorf "%s: terminal begin: %w" [AStr (pName p); AErr e])
  | None =>
      go! _ := recordRef inv InvocationRunning "" in
      go! _ := emit (Started (pHook p) (pIndex p) key c (workspaceFolder (pEnv p)) (remoteEnv (pEnv p))) in
      go! (res, e) := here (runInteractiveProcess key) in
      go! done_ := here ctxErr in
      (* a run that was canceled counts as canceled whatever its context says *)
      let canceled := done_ || match e with Some cause => errorsIs cause "context.Canceled" | None => false end in
      go! _ := finish inv canceled res e in
      match e with None => yield () | Some cause => refuse (interactiveError p c res cause) end
  end.
Definition prepareInteractiveHooks (p : hookRunParams) : Go HookState () :=
  eachGo (fun '(i, hook) =>
    go! cmds := here (walkHook hook) in
    eachGo (fun '(key, c) =>
      if bool_decide (c = []) then yield ()
      else
        go! launch := here (prepareInteractiveLaunch key) in
        match launch with
        | None => yield ()
        | Some e =>
            go! _ := recordAll p InvocationFailed reasonStartFailed in
            refuse (Errorf "%s: %w" [AStr (pName p); AErr e])
        end) cmds) (commandsFrom 0 p).
Definition executeInteractiveHooks (p : hookRunParams) : Go HookState () :=
  eachGo (fun '(i, hook) =>
    go! cmds := here (walkHook hook) in
    eachGo (fun '(key, c) =>
      if bool_decide (c = []) then
        go! inv := invocation (setIndex i p) key in
        recordRef inv InvocationSkipped reasonNoCommand
      else orNotReached p i (executeInteractive (setIndex i p) key c)) cmds) (commandsFrom 0 p).
(** [recordAll] when a marker can be neither read nor written. *)
Definition orMarkerFailed {A} (p : hookRunParams) (m : Go HookState A) : Go HookState A := fun s =>
  match m s with
  | (s', inl (Failed e)) =>
      (go! _ := recordAll p InvocationFailed reasonMarkerCheckFailed in refuse e) s'
  | r => r
  end.
Definition runInteractiveHook (p : hookRunParams) : Go HookState () :=
  go! skipped := (if bool_decide (pContent p <> "") then orMarkerFailed p (markerExists (pName p) (pContent p)) else yield false) in
  if (skipped : bool) then recordSkipped p reasonAlreadyAttempted
  else
    go! _ := prepareInteractiveHooks p in
    go! _ := (if bool_decide (pContent p <> "") then orMarkerFailed p (writeMarker (pName p) (pContent p)) else yield ()) in
    executeInteractiveHooks p.

(** ** Phases *)

Definition runHook (p : hookRunParams) : Go HookState () :=
  match pCommands p with
  | [] => yield ()
  | _ =>
      if pTerminal p then runInteractiveHook p
      else
        go! skip := orMarkerFailed p (shouldSkipHook (pName p) (pContent p)) in
        if (skip : bool) then recordSkipped p reasonAlreadyAttempted
        else executeHookCommands p
  end.
Record phaseHook := mkPhase { phPhase : LifecyclePhase; phParams : hookRunParams; phRunFunc : option (Go HookState ()) }.
Definition setParams (p : hookRunParams) (ph : phaseHook) : phaseHook := mkPhase (phPhase ph) p (phRunFunc ph).
Definition runPhaseHook (ph : phaseHook) : Go HookState () :=
  match phRunFunc ph with Some f => f | None => runHook (phParams ph) end.
Definition recordNotReached (phases : list phaseHook) : Go HookState () :=
  eachGo (fun ph => recordFrom (phParams ph) 0 InvocationSkipped reasonNotReached) phases.

Record SkipPhases := mkSkip { skPostCreate : bool; skPostStart : bool; skPostAttach : bool }.
Definition isSkipped (skip : SkipPhases) (phase : LifecyclePhase) : bool :=
  (bool_decide (phase = PhasePostCreate) && skPostCreate skip) ||
  (bool_decide (phase = PhasePostStart) && skPostStart skip) ||
  (bool_decide (phase = PhasePostAttach) && skPostAttach skip).
Definition prebuildExcluded (phase : LifecyclePhase) : bool :=
  bool_decide (phase <> PhaseOnCreate) && bool_decide (phase <> PhaseUpdateContent).
Definition filterSkippedPhases (all : list phaseHook) (skip : SkipPhases) : list phaseHook :=
  filter (fun ph => isSkipped skip (phPhase ph) = false) all.

Record PreAttachOptions := mkPreAttach {
  Prebuild : bool;
  Dotfiles : DotfilesConfig;
  SecretsEnv : list string;
  SecretsMount : list string;
  Skip : SkipPhases;
  WaitForFloor : LifecyclePhase;
  Terminal : bool;
}.
Definition preAttachPhaseParams (mc : MergedDevContainerConfig) (cd : ContainerDetails) (env : lifecycleEnv)
    (prebuild : bool) : list phaseHook :=
  let ph phase commands name content :=
    mkPhase phase (mkHookParams true (elems commands) env None name content phase 0 false false) None in
  [ph PhaseOnCreate (OnCreateCommands (mgUpdated mc)) "onCreateCommands" (Created cd);
   ph PhaseUpdateContent (UpdateContentCommands (mgUpdated mc)) "updateContentCommands" (if prebuild then "" else Created cd);
   ph PhasePostCreate (PostCreateCommands (mgUpdated mc)) "postCreateCommands" (Created cd);
   ph PhasePostStart (PostStartCommands (mgUpdated mc)) "postStartCommands" (StartedAt cd)].
Definition withRedactor (redactor : Redactor) (terminal : bool) (ph : phaseHook) : phaseHook :=
  let p := phParams ph in
  setParams (mkHookParams (pCtx p) (pCommands p) (pEnv p) (Some redactor) (pName p) (pContent p) (pHook p) (pIndex p)
    (pPlanned p) (if bool_decide (phPhase ph = PhasePostStart) then terminal else pTerminal p)) ph.

Definition installDotfiles (dotfiles : DotfilesConfig) (created : string) : Go HookState () :=
  go! skip := shouldSkipHook "dotfilesInstall" created in
  if (skip : bool) then yield ()
  else
    go! e := here (RunDotfiles dotfiles) in
    go! _ := emit DotfilesRun in
    match e with Some e => refuse e | None => yield () end.
Definition insertDotfilesPhase (all : list phaseHook) (dotfiles : DotfilesConfig) (created : string) : list phaseHook :=
  if bool_decide (Repository dotfiles = "") then all
  else
    let idx := match list_find (fun ph => phPhase ph = PhasePostCreate) all with Some (i, _) => S i | None => length all end in
    let hook := mkPhase PhaseDotfiles (mkHookParams false [] (mkEnv "" "" ∅) None "dotfilesInstall" created "" 0 false false)
                  (Some (installDotfiles dotfiles created)) in
    take idx all ++ hook :: drop idx all.

Definition recordExcludedPhases (all : list phaseHook) (opts : PreAttachOptions) : Go HookState () :=
  eachGo (fun ph =>
    let p := phParams ph in
    if bool_decide (pCommands p = []) then recordSkipped (withContext p) reasonNoCommand
    else if isSkipped (Skip opts) (phPhase ph) then recordSkipped (withContext p) reasonExplicitSkip
    else if Prebuild opts && prebuildExcluded (phPhase ph) then recordSkipped (withContext p) reasonPrebuildExcluded
    else yield ()) all.
Definition planned (ph : phaseHook) : phaseHook :=
  let p := phParams ph in
  setParams (mkHookParams (pCtx p) (pCommands p) (pEnv p) (pRedactor p) (pName p) (pContent p) (pHook p) (pIndex p)
    true (pTerminal p)) ph.
(** Every phase gets a plan of its own; plans of earlier runs are forgotten. *)
Definition planPhases (all : list phaseHook) (prebuild : bool) : Go HookState (list phaseHook) :=
  go! _ := update (fun s => mkHookState (markerFiles s) ∅ (drawn s) (trace s)) in
  go! _ := eachGo (fun ph =>
    if prebuild && prebuildExcluded (phPhase ph) then yield ()
    else recordAll (withContext (phParams (planned ph))) InvocationPending "") all in
  yield (map planned all).

(** ** Running the phases *)

(** Record the phases behind one that fails as not reached. *)
Definition orSkipRest (rest : list phaseHook) (m : Go HookState ()) : Go HookState () := fun s =>
  match m s with
  | (s', inl (Failed e)) => (go! _ := recordNotReached rest in refuse e) s'
  | r => r
  end.
Fixpoint runPrebuildHooks (all : list phaseHook) : Go HookState () :=
  match all with
  | [] => yield ()
  | ph :: rest =>
      if prebuildExcluded (phPhase ph) then runPrebuildHooks rest
      else
        go! _ := orSkipRest (filter (fun r => prebuildExcluded (phPhase r) = false) rest) (runPhaseHook ph) in
        runPrebuildHooks rest
  end.
Definition deferAll (all : list phaseHook) : Go HookState () :=
  eachGo (fun ph => recordAll (phParams ph) InvocationDeferred "") all.
(** The phases up to [waitFor]; those behind it are left. *)
Fixpoint runUntil (all : list phaseHook) (waitFor : LifecyclePhase) : Go HookState (list phaseHook) :=
  match all with
  | [] => yield []
  | ph :: rest =>
      go! _ := orSkipRest rest (runPhaseHook ph) in
      if bool_decide (phPhase ph = waitFor) then
        go! _ := deferAll rest in
        yield rest
      else runUntil rest waitFor
  end.
Definition runWithWaitFor (all : list phaseHook) (waitFor : LifecyclePhase) : Go HookState (list phaseHook) :=
  if bool_decide (waitFor = PhaseInitializeCommand) then
    go! _ := deferAll all in
    yield all
  else runUntil all waitFor.
(** [DeferredHooks.Run] *)
Fixpoint runDeferred (hooks : list phaseHook) : Go HookState () :=
  match hooks with
  | [] => yield ()
  | ph :: rest =>
      go! _ := orSkipRest rest (runPhaseHook ph) in
      runDeferred rest
  end.

Context (setupInfo : Result) (mc : MergedDevContainerConfig) (cd : ContainerDetails).

Definition declaredSecrets (secrets : gmap string SecretConfig) : gmap string string :=
  map_imap (fun name _ => if bool_decide (Getenv name = "") then None else Some (Getenv name)) secrets.
Definition resolveLifecycleEnv : lifecycleEnv :=
  let remoteUser := GetRemoteUser (Some setupInfo) in
  let probedEnv := match probeUserEnv (UserEnvProbe (mgBase mc)) remoteUser with inl _ => ∅ | inr env => env end in
  mkEnv remoteUser (ContainerWorkspaceFolder setupInfo)
    (declaredSecrets (Secrets (mgBase mc)) ∪ mergeRemoteEnv (RemoteEnv (mgBase mc)) probedEnv remoteUser).
(** The phases in order, before any is skipped. *)
Definition allPhases (opts : PreAttachOptions) : list phaseHook :=
  let env := resolveLifecycleEnv in
  let '(vars, redactor) := mergeSecretsEnv (remoteEnv env) (SecretsEnv opts) (SecretsMount opts) in
  insertDotfilesPhase
    (map (withRedactor redactor (Terminal opts))
       (preAttachPhaseParams mc cd (mkEnv (remoteUser env) (workspaceFolder env) vars) (Prebuild opts)))
    (Dotfiles opts) (Created cd).
(** The phase a setup waits for. *)
Definition effectiveWaitFor (opts : PreAttachOptions) : LifecyclePhase :=
  let floor := if Terminal opts then resolveWaitFor (WaitForFloor opts) PhasePostStart else WaitForFloor opts in
  promoteDotfilesWaitFor (resolveWaitFor (WaitFor (mgBase mc)) floor) (Dotfiles opts).
Definition RunPreAttachHooks (opts : PreAttachOptions) : Go HookState (list phaseHook) :=
  match (if Terminal opts then ValidateInteractivePostStart (elems (PostStartCommands (mgUpdated mc))) else None) with
  | Some e => refuse e
  | None =>
      let all := allPhases opts in
      go! _ := recordExcludedPhases all opts in
      go! phases := planPhases (filterSkippedPhases all (Skip opts)) (Prebuild opts) in
      if Prebuild opts then
        go! _ := runPrebuildHooks phases in
        yield []
      else runWithWaitFor phases (effectiveWaitFor opts)
  end.

Record PostAttachOptions := mkPostAttach { paSecretsEnv : list string; paSecretsMount : list string; paSkip : bool }.
Definition RunPostAttachHooks (opts : PostAttachOptions) : Go HookState () :=
  let params env redactor :=
    mkHookParams true (elems (PostAttachCommands (mgUpdated mc))) env redactor "postAttachCommands" "" PhasePostAttach 0 true false in
  if paSkip opts then recordSkipped (params (mkEnv "" "" ∅) None) reasonExplicitSkip
  else
    let env := resolveLifecycleEnv in
    let '(vars, redactor) := mergeSecretsEnv (remoteEnv env) (paSecretsEnv opts) (paSecretsMount opts) in
    let p := params (mkEnv (remoteUser env) (workspaceFolder env) vars) (Some redactor) in
    match pCommands p with
    | [] => recordSkipped p reasonNoCommand
    | _ =>
        go! _ := recordAll p InvocationPending "" in
        runHook p
    end.
End Hooks.
