(* ===== verification/HookPhases.v ===== *)
(** What running a phase adds to the history and to the markers: only events of
    its commands, each started once at most and in the order of the list, and, when
    they are recorded, an outcome for every one of them. *)
From S2P Require Import Prelude GoStd GoText GoConv GoPath GoState Json Redact DevTypes LogTypes HookEnv Hooks.

(** ** Histories *)

(** A command of a phase: its position and its name. *)
Abbreviation cell := (nat * string)%type.
Definition stateOf (h : string) (c : cell) (e : HookEvent) : option string :=
  match e with
  | Recorded inv => if bool_decide (ivHook inv = h /\ ivIndex inv = Some c.1 /\ ivKey inv = c.2) then Some (ivState inv) else None
  | _ => None
  end.
(** The last state recorded of a command. *)
Definition statusOf (tr : History) (h : string) (c : cell) : option string := last (omap (stateOf h c) tr).
Definition isSettled (state : string) : bool :=
  one_of state [InvocationSucceeded; InvocationFailed; InvocationSkipped; InvocationCanceled].
Definition settledIn (tr : History) (h : string) (c : cell) : Prop :=
  exists state, statusOf tr h c = Some state /\ isSettled state = true.
Definition startOf (e : HookEvent) : option (string * cell) :=
  match e with
  | Started h i k _ _ _ => Some (h, (i, k))
  | DotfilesRun => Some (PhaseDotfiles, (0%nat, ""))
  | Recorded _ => None
  end.
Definition starts (tr : History) : list (string * cell) := omap startOf tr.

Lemma status_app tr1 tr2 h c :
  statusOf (tr1 ++ tr2) h c = match statusOf tr2 h c with Some st => Some st | None => statusOf tr1 h c end.
Proof. unfold statusOf. by rewrite omap_app, last_app. Qed.
Lemma starts_app tr1 tr2 : starts (tr1 ++ tr2) = starts tr1 ++ starts tr2.
Proof. apply omap_app. Qed.
Lemma settled_app_r tr1 tr2 h c : settledIn tr2 h c -> settledIn (tr1 ++ tr2) h c.
Proof. intros (st & Hs & Ht). exists st. by rewrite status_app, Hs. Qed.
Lemma settled_app_l tr1 tr2 h c : settledIn tr1 h c -> statusOf tr2 h c = None -> settledIn (tr1 ++ tr2) h c.
Proof. intros (st & Hs & Ht) Hn. exists st. by rewrite status_app, Hn. Qed.

(** Events of these commands only. *)
Definition aboutEvent (h : string) (D : list cell) (e : HookEvent) : Prop :=
  match e with
  | Recorded inv => ivHook inv = h /\ forall i, ivIndex inv = Some i -> (i, ivKey inv) ∈ D
  | Started h' i k _ _ _ => h' = h /\ (i, k) ∈ D
  | DotfilesRun => False
  end.
Definition about (h : string) (D : list cell) (tr : History) : Prop := Forall (aboutEvent h D) tr.
Lemma about_mono h (D D' : list cell) tr : D ⊆ D' -> about h D tr -> about h D' tr.
Proof.
  intros Hd Ha. eapply Forall_impl; [exact Ha|]. intros [inv|h' i k args dir env|]; cbn; [|set_solver|done].
  intros [? Hi]. split; [done|]. set_solver.
Qed.
Lemma about_status h D tr c : about h D tr -> c ∉ D -> statusOf tr h c = None.
Proof.
  intros Ha Hc. unfold statusOf. assert (omap (stateOf h c) tr = []) as ->; [|done].
  induction Ha as [|e tr He _ IH]; [done|]. cbn. assert (stateOf h c e = None) as ->; [|done].
  destruct e as [inv| |]; [|done..]. cbn in *. case_bool_decide as Hb; [|done]. destruct Hb as (_ & Hi & Hk).
  destruct He as [_ He]. exfalso. apply Hc. destruct c as [i k]. cbn in *. subst k. by apply He.
Qed.
Lemma about_other h h' D tr c : about h D tr -> h' <> h -> statusOf tr h' c = None.
Proof.
  intros Ha Hh. unfold statusOf. assert (omap (stateOf h' c) tr = []) as ->; [|done].
  induction Ha as [|e tr He _ IH]; [done|]. cbn. assert (stateOf h' c e = None) as ->; [|done].
  destruct e as [inv| |]; [|done..]. cbn in *. case_bool_decide as Hb; [|done]. destruct Hb as [Hb _], He as [He _]. congruence.
Qed.
Lemma about_starts h D tr x : about h D tr -> x ∈ starts tr -> x.1 = h /\ x.2 ∈ D.
Proof.
  intros Ha (e & He & Hx)%list_elem_of_omap. unfold about in Ha. rewrite Forall_forall in Ha. specialize (Ha e He).
  destruct e; cbn in *; [done| |done]. by injection Hx as <-.
Qed.

(** ** Quiet code: it leaves the markers alone *)

Section Quiet.
Context `{HW : HookWorld}.
(** [R] holds of what is added to the history and of the result. *)
Definition quietly {A} (m : Go HookState A) (R : History -> failure + A -> Prop) : Prop := forall s, exists ev,
  trace (m s).1 = trace s ++ ev /\ markerFiles (m s).1 = markerFiles s /\ R ev (m s).2.

Lemma quiet_mono {A} (m : Go HookState A) (R1 R2 : History -> failure + A -> Prop) :
  quietly m R1 -> (forall ev r, R1 ev r -> R2 ev r) -> quietly m R2.
Proof. intros Hm HR s. destruct (Hm s) as (ev & ? & ? & ?). exists ev. auto. Qed.
Lemma quiet_bind {A B} (m : Go HookState A) (k : A -> Go HookState B) (R1 : History -> failure + A -> Prop) R :
  quietly m R1 -> (forall ev f, R1 ev (inl f) -> R ev (inl f)) ->
  (forall a ev1, R1 ev1 (inr a) -> quietly (k a) (fun ev2 => R (ev1 ++ ev2))) -> quietly (bindGo m k) R.
Proof.
  intros Hm Hf Hk s. destruct (Hm s) as (ev1 & Ht & Hmk & HR). unfold bindGo. destruct (m s) as [s1 [f|a]]; cbn in *.
  - exists ev1. auto.
  - destruct (Hk a ev1 HR s1) as (ev2 & Ht2 & Hmk2 & HR2). exists (ev1 ++ ev2).
    rewrite Ht2, Ht, (assoc_L (++)). split_and!; [done|congruence|done].
Qed.
Lemma quiet_yield {A} (a : A) (R : History -> failure + A -> Prop) : R [] (inr a) -> quietly (yield a) R.
Proof. intros HR s. exists []. cbn. by rewrite app_nil_r. Qed.
Lemma quiet_refuse {A} e (R : History -> failure + A -> Prop) : R [] (inl (Failed e)) -> quietly (refuse e) R.
Proof. intros HR s. exists []. cbn. by rewrite app_nil_r. Qed.
Lemma quiet_emit e (R : History -> failure + () -> Prop) : R [e] (inr ()) -> quietly (emit e) R.
Proof. intros HR s. exists [e]. done. Qed.
Lemma quiet_here {A B} (f : History -> A) (k : A -> Go HookState B) R :
  (forall tr, quietly (k (f tr)) R) -> quietly (go! x := here f in k x) R.
Proof. intros Hk s. unfold bindGo, here, read. apply Hk. Qed.
Lemma quiet_emit_then {B} e (k : Go HookState B) R :
  quietly k (fun ev => R (e :: ev)) -> quietly (go! _ := emit e in k) R.
Proof.
  intros Hk. eapply quiet_bind; [by apply (quiet_emit e (fun ev r => ev = [e] /\ r = inr ()))|naive_solver|].
  by intros [] ev [-> _].
Qed.
End Quiet.

(** ** Commands *)

Section Commands.
Context `{HW : HookWorld} `{HL : !HookLaws} (run : option string).
Implicit Types (p : hookRunParams) (inv : option Invocation).

Definition recording (p : hookRunParams) : Prop := is_Some (recorderFrom run (pCtx p)) /\ pHook p <> "".
(** A reference for the command [key] of [p]. *)
Definition refersTo p (key : string) (r : option Invocation) : Prop :=
  match r with
  | None => recorderFrom run (pCtx p) = None
  | Some inv => ivHook inv = pHook p /\ ivIndex inv = Some (pIndex p) /\ ivKey inv = key
  end.
Definition closed p (ev : History) (key : string) : Prop := recording p -> settledIn ev (pHook p) (pIndex p, key).

Lemma quiet_invocation {B} p key (k : option Invocation -> Go HookState B) R :
  (forall r, refersTo p key r -> quietly (k r) R) -> quietly (go! r := invocation run p key in k r) R.
Proof.
  intros Hk. unfold invocation. destruct (recorderFrom run (pCtx p)) as [runID|] eqn:Hrec; [|by apply Hk].
  assert (Hid : quietly (planID p runID key) (fun ev r => ev = [] /\ exists id, r = inr id)).
  { intros s. exists []. unfold planID. repeat case_match; unfold NewID, bindGo, read; cbn;
      repeat (case_match; cbn); rewrite ?app_nil_r; simplify_eq/=; rewrite ?app_nil_r; eauto. }
  intros s. destruct (Hid s) as (ev & Ht & Hm & -> & id & Hr). unfold bindGo in *.
  destruct (planID p runID key s) as [s1 x]. cbn in *. subst x. cbn.
  destruct (Hk (Some (mkInvocation id hookPhase (pHook p) (Some (pIndex p)) key "" "" None "" 0)) (conj eq_refl (conj eq_refl eq_refl)) s1)
    as (ev2 & Ht2 & Hm2 & HR). exists ev2. rewrite app_nil_r in Ht. rewrite Ht2, Ht, Hm2, Hm. done.
Qed.

(** Recording a settled state closes a command. *)
Definition noted p key (state : string) (ev : History) : Prop :=
  about (pHook p) [(pIndex p, key)] ev /\ starts ev = [] /\
  (recording p -> statusOf ev (pHook p) (pIndex p, key) = Some state).
Lemma noted_closed p key state ev : noted p key state ev -> isSettled state = true -> closed p ev key.
Proof. intros (_ & _ & Hst) Hs Hrec. exists state. auto. Qed.
Lemma noted_event p key i : ivHook i = pHook p -> ivIndex i = Some (pIndex p) -> ivKey i = key -> noted p key (ivState i) [Recorded i].
Proof.
  intros Hh Hi Hk. split_and!; [|done|].
  - apply Forall_singleton. cbn. split; [done|]. intros j Hj. rewrite Hi in Hj. injection Hj as <-. rewrite Hk. set_solver.
  - intros _. unfold statusOf. cbn. by rewrite bool_decide_true.
Qed.
Lemma noted_nil p key state : recorderFrom run (pCtx p) = None -> noted p key state [].
Proof. intros Hn. split_and!; [by constructor|done|]. intros [[? Hr] _]. congruence. Qed.

Lemma quiet_recordRef {B} p key r state reason (k : Go HookState B) R :
  refersTo p key r -> (forall ev, noted p key state ev -> quietly k (fun ev2 => R (ev ++ ev2))) ->
  quietly (go! _ := recordRef r state reason in k) R.
Proof.
  intros Hr Hk. destruct r as [inv|]; cbn [recordRef].
  - destruct Hr as (Hh & Hi & Hkey). apply quiet_emit_then. apply (Hk [_]). by apply (noted_event p key).
  - apply (Hk []). by apply noted_nil.
Qed.
Lemma settled_outcome canceled res e : isSettled (outcomeState canceled res e).1 = true.
Proof. unfold outcomeState. repeat case_match; done. Qed.
Lemma quiet_finish {B} p key r canceled res e (k : Go HookState B) R :
  refersTo p key r -> (forall ev state, noted p key state ev -> isSettled state = true -> quietly k (fun ev2 => R (ev ++ ev2))) ->
  quietly (go! _ := finish r canceled res e in k) R.
Proof.
  intros Hr Hk. destruct r as [inv|]; cbn [finish].
  - destruct Hr as (Hh & Hi & Hkey). pose proof (settled_outcome canceled res e) as Hs.
    destruct (outcomeState canceled res e) as [state reason]. apply quiet_emit_then. apply (Hk [_] state); [|done].
    by apply (noted_event p key).
  - apply (Hk [] InvocationFailed); [by apply noted_nil|done].
Qed.

(** What beginning a command leaves. *)
Definition began p key (ev : History) (r : failure + option RunningCommand) : Prop :=
  about (pHook p) [(pIndex p, key)] ev /\
  match r with
  | inl OutOfFuel => False
  | inl (Failed _) | inr None => starts ev = [] /\ closed p ev key
  | inr (Some rc) => starts ev = [(pHook p, (pIndex p, key))] /\ refersTo p key (rcInv rc)
  end.
Lemma begin_spec p key c : quietly (beginCommand run p key c) (began p key).
Proof.
  unfold beginCommand. apply quiet_invocation. intros r Hr. apply quiet_here. intros tr.
  assert (Hstop : forall state reason (m : Go HookState (option RunningCommand)), isSettled state = true ->
    (forall R, R [] (inr None) -> (forall e, R [] (inl (Failed e))) -> quietly m R) ->
    quietly (go! _ := recordRef r state reason in m) (began p key)).
  { intros state reason m Hs Hm. eapply quiet_recordRef; [done|]. intros ev Hn. apply Hm; intros; rewrite app_nil_r;
      (split; [apply Hn|split; [apply Hn|by eapply noted_closed]]). }
  destruct (currentUser tr) as [e|username].
  { apply Hstop; [done|]. intros R _ HR. by apply quiet_refuse. }
  destruct c as [|x c].
  { apply Hstop; [done|]. intros R HR _. by apply quiet_yield. }
  apply quiet_here. intros tr2. destruct (LookPath _ tr2) as [e|binary].
  { apply Hstop; [done|]. intros R _ HR. by apply quiet_refuse. }
  eapply quiet_recordRef; [done|]. intros ev (Ha & Hst & _). apply quiet_emit_then, quiet_yield.
  split; [apply Forall_app; split; [done|]|split; [|done]].
  - apply Forall_singleton. cbn. set_solver.
  - by rewrite starts_app, Hst.
Qed.
(** What running a command to its end leaves. *)
Definition ran p key (ev : History) (r : failure + ()) : Prop :=
  about (pHook p) [(pIndex p, key)] ev /\ closed p ev key /\ r <> inl OutOfFuel.
Lemma finish_spec p key rc : refersTo p key (rcInv rc) ->
  quietly (finishCommand run p rc) (fun ev r => ran p key ev r /\ starts ev = []).
Proof.
  intros Hr. unfold finishCommand. apply quiet_here. intros tr. destruct (runProcess _ tr) as [res e].
  apply quiet_here. intros tr2. eapply quiet_finish; [done|]. intros ev state Hn Hs.
  assert (Hdone : forall r, r <> inl OutOfFuel -> ran p key (ev ++ []) r /\ starts (ev ++ []) = []).
  { intros r0 Hr0. rewrite app_nil_r. unfold ran. split_and!; [apply Hn|by eapply noted_closed|done|apply Hn]. }
  destruct e as [cause|]; [apply quiet_refuse|apply quiet_yield]; by apply Hdone.
Qed.
Lemma single_spec p key c : quietly (runSingleHookCommand run p key c)
  (fun ev r => ran p key ev r /\ starts ev `sublist_of` [(pHook p, (pIndex p, key))]).
Proof.
  unfold runSingleHookCommand. eapply quiet_bind; [apply begin_spec| |].
  - intros ev [e|] [Ha Hc]; [|done]. destruct Hc as [-> Hc]. unfold ran. split_and!; [done..|apply sublist_nil_l].
  - intros [rc|] ev [Ha Hc].
    + destruct Hc as [Hst Hr]. eapply quiet_mono; [by eapply finish_spec|]. cbn. intros ev2 r [(Ha2 & Hc2 & Hf) Hst2].
      unfold ran. split_and!; [by apply Forall_app|intros Hrec; by apply settled_app_r, Hc2|done|].
      by rewrite starts_app, Hst, Hst2.
    + destruct Hc as [Hst Hc]. apply quiet_yield. rewrite app_nil_r. unfold ran. split_and!; [done..|]. rewrite Hst. apply sublist_nil_l.
Qed.
End Commands.

Section Phases.
Context `{HW : HookWorld} `{HL : !HookLaws} (run : option string).
Implicit Types (p : hookRunParams).
#[local] Abbreviation recording := (recording run).
#[local] Abbreviation closed := (closed run).
#[local] Abbreviation refersTo := (refersTo run).

(** ** Goroutines *)

Definition gKey (g : Goroutine) : string := match g with Fresh key _ | Waiting key _ => key end.
Definition weight (g : Goroutine) : nat := match g with Fresh _ _ => 2 | Waiting _ _ => 1 end.
Definition weights (gs : list Goroutine) : nat := sum_list_with weight gs.
Definition soundG p (g : Goroutine) : Prop := match g with Fresh _ _ => True | Waiting key rc => refersTo p key (rcInv rc) end.
Definition freshStarts p (g : Goroutine) : list (string * cell) :=
  match g with Fresh key _ => [(pHook p, (pIndex p, key))] | Waiting _ _ => [] end.

(** What a step of [g] leaves. *)
Definition stepped p (g : Goroutine) (ev : History) (r : failure + (option Goroutine * err)) : Prop :=
  about (pHook p) [(pIndex p, gKey g)] ev /\ starts ev `sublist_of` freshStarts p g /\
  exists rest e, r = inr (rest, e) /\
    match rest with
    | None => closed p ev (gKey g)
    | Some g' => gKey g' = gKey g /\ freshStarts p g' = [] /\ soundG p g' /\ (weight g' < weight g)%nat
    end.
Lemma step_spec p g : soundG p g -> quietly (stepGoroutine run p g) (stepped p g).
Proof.
  intros Hg s. unfold stepGoroutine. destruct g as [key c|key rc]; cbn in Hg.
  - destruct (begin_spec run p key c s) as (ev & Ht & Hm & Ha & Hr). exists ev.
    destruct (beginCommand run p key c s) as [s1 [[e|]|[rc|]]]; cbn in *; [|done|..]; destruct Hr as [Hst Hr];
      (split_and!; [done..|split_and!; [done|rewrite Hst; done || apply sublist_nil_l|]]).
    + by exists None, (Some (Errorf "named command %q failed: %w" [AStr key; AErr e])).
    + exists (Some (Waiting key rc)), None. split; [done|]. cbn. split_and!; [done..|lia].
    + by exists None, None.
  - destruct (finish_spec run p key rc Hg s) as (ev & Ht & Hm & (Ha & Hc & Hf) & Hst). exists ev.
    destruct (finishCommand run p rc s) as [s1 [[e|]|[]]]; cbn in *; [|done|];
      (split_and!; [done..|split_and!; [done|by rewrite Hst|]]).
    + by exists None, (Some (Errorf "named command %q failed: %w" [AStr key; AErr e])).
    + by exists None, None.
Qed.

Definition cellsG p (gs : list Goroutine) : list cell := map (fun g => (pIndex p, gKey g)) gs.
Definition interleaved p (gs : list Goroutine) (ev : History) (r : failure + list err) : Prop :=
  about (pHook p) (cellsG p gs) ev /\ NoDup (starts ev) /\ (forall x, x ∈ starts ev -> exists g, g ∈ gs /\ x ∈ freshStarts p g) /\
  (forall g, g ∈ gs -> closed p ev (gKey g)) /\ exists errs, r = inr errs.

Lemma sublist_fresh p g l x : l `sublist_of` freshStarts p g -> x ∈ l -> x ∈ freshStarts p g.
Proof. intros Hl Hx. by eapply elem_of_sublist. Qed.
Lemma fresh_key p g x : x ∈ freshStarts p g -> x = (pHook p, (pIndex p, gKey g)).
Proof. destruct g; cbn; [by intros ->%list_elem_of_singleton|set_solver]. Qed.

(** The step of one goroutine and then of what is left of them all. *)
Lemma interleaved_step p l1 g l2 rest ev1 ev2 r :
  NoDup (map gKey (l1 ++ g :: l2)) -> about (pHook p) [(pIndex p, gKey g)] ev1 -> starts ev1 `sublist_of` freshStarts p g ->
  match rest with None => closed p ev1 (gKey g) | Some g' => gKey g' = gKey g /\ freshStarts p g' = [] end ->
  interleaved p (l1 ++ option_list rest ++ l2) ev2 r -> interleaved p (l1 ++ g :: l2) (ev1 ++ ev2) r.
Proof.
  intros Hnd Ha1 Hs1 Hrest (Ha2 & Hn2 & Hs2 & Hc2 & Hr).
  assert (Hother : forall g', g' ∈ l1 ++ l2 -> gKey g' <> gKey g).
  { intros g' Hg' Hk. rewrite map_app in Hnd. cbn in Hnd. apply NoDup_app in Hnd as (_ & Hd & Hnd).
    apply NoDup_cons in Hnd as [Hnd _]. apply elem_of_app in Hg' as [Hg'|Hg'].
    - apply (Hd (gKey g')); [by apply list_elem_of_fmap_2|rewrite Hk; left].
    - apply Hnd. rewrite <- Hk. by apply list_elem_of_fmap_2. }
  assert (Hnew : forall x, x ∈ freshStarts p g -> x ∉ starts ev2).
  { intros x ->%fresh_key Hx. destruct (Hs2 _ Hx) as (g' & Hg' & Hx'). apply fresh_key in Hx' as E. injection E as E.
    rewrite !elem_of_app in Hg'. destruct Hg' as [Hg'|[Hg'|Hg']].
    - apply (Hother g'); [set_solver|congruence].
    - destruct rest as [g0|]; [|set_solver]. apply list_elem_of_singleton in Hg' as ->. destruct Hrest as [_ Hfr].
      rewrite Hfr in Hx'. set_solver.
    - apply (Hother g'); [set_solver|congruence]. }
  split_and!; [..|done].
  - apply Forall_app. split; [eapply about_mono; [|exact Ha1]; set_solver|].
    eapply about_mono; [|exact Ha2]. unfold cellsG. rewrite !map_app. cbn. intros c.
    destruct rest as [g'|]; cbn; [destruct Hrest as [-> _]|]; set_solver.
  - rewrite starts_app. apply NoDup_app. split_and!; [|intros x Hx; by apply Hnew, (sublist_fresh p g (starts ev1))|done].
    destruct g; cbn in Hs1; [|apply sublist_nil_r in Hs1; rewrite Hs1; constructor].
    eapply sublist_NoDup; [|exact Hs1]. apply NoDup_singleton.
  - intros x. rewrite starts_app, elem_of_app. intros [Hx|Hx].
    + exists g. split; [set_solver|by eapply sublist_fresh].
    + destruct (Hs2 x Hx) as (g' & Hg' & Hx'). rewrite !elem_of_app in Hg'. destruct Hg' as [?|[Hg'|?]]; [exists g'; set_solver| |exists g'; set_solver].
      destruct rest as [g0|]; [|set_solver]. apply list_elem_of_singleton in Hg' as ->. destruct Hrest as [_ Hf].
      rewrite Hf in Hx'. set_solver.
  - intros g' Hg' Hrec. assert (g' ∈ l1 ++ l2 \/ g' = g) as [Hin|Hin] by set_solver.
    + apply settled_app_r, Hc2; [set_solver|done].
    + subst g'. destruct rest as [g0|].
      * apply settled_app_r. destruct Hrest as [<- _]. apply Hc2; [set_solver|done].
      * apply settled_app_l; [by apply Hrest|]. eapply about_status; [exact Ha2|]. unfold cellsG. cbn.
        intros (g' & E & Hg0)%list_elem_of_fmap. injection E as E. by apply (Hother g').
Qed.

Lemma interleave_spec p fuel : forall gs errs, NoDup (map gKey gs) -> Forall (soundG p) gs -> (weights gs <= fuel)%nat ->
  quietly (interleave run fuel p gs errs) (interleaved p gs).
Proof.
  induction fuel as [|fuel IH]; intros gs errs Hnd Hs Hw; destruct gs as [|g0 gs0].
  1, 3: apply quiet_yield; split_and!; [constructor|constructor|set_solver|set_solver|by eexists].
  { cbn in Hw. destruct g0; cbn in Hw; lia. }
  cbn [interleave]. set (gs := g0 :: gs0) in *. apply quiet_here. intros tr.
  set (i := (schedule tr mod length gs)%nat). assert (Hi : (i < length gs)%nat) by (apply Nat.mod_upper_bound; done).
  apply lookup_lt_is_Some in Hi as [g Hg]. rewrite Hg. cbn [default].
  apply list_elem_of_split_length in Hg as (l1 & l2 & Hgs & Hlen). rewrite Hgs in *. rewrite Hlen.
  apply Forall_app in Hs as [Hs1 Hs]. apply Forall_cons in Hs as [Hsg Hs2].
  eapply quiet_bind; [by apply step_spec|intros ev f (_ & _ & rest & e & Hr & _); done|].
  intros [rest e] ev1 (Ha & Hst & rest' & e' & [= <- <-] & Hrest).
  assert (Hgs' : match rest with Some g' => <[length l1:=g']> (l1 ++ g :: l2) | None => delete (length l1) (l1 ++ g :: l2) end
    = l1 ++ option_list rest ++ l2).
  { destruct rest as [g'|]; [|by rewrite delete_middle]. rewrite insert_app_r_alt by lia. by rewrite Nat.sub_diag. }
  rewrite Hgs'. eapply quiet_mono; [apply IH|].
  - rewrite !map_app in *. destruct rest as [g'|]; cbn in *; [destruct Hrest as [-> _]; done|].
    apply NoDup_app in Hnd as (Hn1 & Hd & Hn2). apply NoDup_cons in Hn2 as [_ Hn2]. apply NoDup_app. split_and!; [done|set_solver|done].
  - apply Forall_app. split; [done|]. apply Forall_app. split; [|done]. destruct rest as [g'|]; [|constructor].
    apply Forall_singleton. apply Hrest.
  - unfold weights in *. rewrite !sum_list_with_app in *. cbn in *. destruct rest as [g'|]; cbn; [destruct Hrest as (_ & _ & _ & ?)|];
      destruct g; cbn in *; lia.
  - intros ev2 r Hint. eapply interleaved_step; [done..| |exact Hint]. destruct rest; [|done]. destruct Hrest as (? & ? & _). done.
Qed.

(** ** Lists of hooks *)

Definition hookCells (i : nat) (h : LifecycleHook) : list cell := map (fun k => (i, k)) (keysOf h).
Definition cells (l : list (nat * LifecycleHook)) : list cell := flat_map (fun '(i, h) => hookCells i h) l.

Lemma elem_of_keysOf h k : k ∈ keysOf h <-> is_Some (h !! k).
Proof.
  unfold keysOf, sortStrings. rewrite merge_sort_Permutation, list_elem_of_fmap. split.
  - intros ([k' v] & -> & Hv%elem_of_map_to_list). by eexists.
  - intros [v Hv]. exists (k, v). by rewrite elem_of_map_to_list.
Qed.
Lemma elem_of_hookCells i h c : c ∈ hookCells i h <-> c.1 = i /\ is_Some (h !! c.2).
Proof.
  unfold hookCells. rewrite list_elem_of_fmap. setoid_rewrite elem_of_keysOf. split; [by intros (k & -> & ?)|].
  destruct c as [j k]. cbn. intros [-> ?]. by exists k.
Qed.
Lemma walk_keys h tr k : k ∈ (walkHook h tr).*1 <-> is_Some (h !! k).
Proof.
  rewrite (walkHook_perm h tr), list_elem_of_fmap. split.
  - intros ([k' v] & -> & Hv%elem_of_map_to_list). by eexists.
  - intros [v Hv]. exists (k, v). by rewrite elem_of_map_to_list.
Qed.
Lemma walk_NoDup h tr : NoDup (walkHook h tr).*1.
Proof. rewrite (walkHook_perm h tr). apply NoDup_fst_map_to_list. Qed.

Lemma commandsFrom_cases n p :
  commandsFrom n p = [] \/ exists h, pCommands p !! n = Some h /\ commandsFrom n p = (n, h) :: commandsFrom (S n) p.
Proof.
  unfold commandsFrom. destruct (pCommands p !! n) as [h|] eqn:Hh.
  - right. exists h. split; [done|]. apply drop_S. by rewrite list_lookup_imap, Hh.
  - left. apply drop_ge. rewrite length_imap. by apply lookup_ge_None.
Qed.
Lemma cells_from n p c : c ∈ cells (commandsFrom n p) <-> (n <= c.1)%nat /\ exists h, pCommands p !! c.1 = Some h /\ is_Some (h !! c.2).
Proof.
  unfold cells. rewrite list_elem_of_In, in_flat_map. setoid_rewrite <- list_elem_of_In. unfold commandsFrom. split.
  - intros ([i h] & Hi & [-> Hk]%elem_of_hookCells). apply list_elem_of_lookup in Hi as [j Hj].
    rewrite lookup_drop, list_lookup_imap in Hj. destruct (pCommands p !! (n + j)%nat) as [h'|] eqn:Hh; [|done].
    injection Hj as <- <-. split; [lia|]. by exists h'.
  - intros (Hn & h & Hh & Hk). exists (c.1, h). split; [|by apply elem_of_hookCells]. apply list_elem_of_lookup.
    exists (c.1 - n)%nat. rewrite lookup_drop, list_lookup_imap. replace (n + (c.1 - n))%nat with c.1 by lia. by rewrite Hh.
Qed.
Lemma cells_cons n h p : commandsFrom n p = (n, h) :: commandsFrom (S n) p ->
  cells (commandsFrom n p) = hookCells n h ++ cells (commandsFrom (S n) p).
Proof. by intros ->. Qed.

(** Everything is recorded with the same state. *)
Record marks p (state : string) (D : list cell) (ev : History) (r : failure + ()) : Prop := {
  marks_about : about (pHook p) D ev;
  marks_starts : starts ev = [];
  marks_result : r = inr ();
  marks_state : recording p -> forall c, c ∈ D -> statusOf ev (pHook p) c = Some state;
  marks_only c : statusOf ev (pHook p) c = None \/ statusOf ev (pHook p) c = Some state;
}.
Lemma marks_nil p state : marks p state [] [] (inr ()).
Proof. split; [constructor|done..|set_solver|by left]. Qed.
Lemma marks_app p state D1 D2 ev1 ev2 r1 r2 : marks p state D1 ev1 r1 -> marks p state D2 ev2 r2 -> marks p state (D1 ++ D2) (ev1 ++ ev2) r2.
Proof.
  intros [Ha1 Hs1 _ Hd1 Ho1] [Ha2 Hs2 Hr2 Hd2 Ho2]. split; [|by rewrite starts_app, Hs1, Hs2|done| |].
  - apply Forall_app. split; [eapply about_mono; [|exact Ha1]|eapply about_mono; [|exact Ha2]]; set_solver.
  - intros Hrec c Hc. rewrite status_app. destruct (Ho2 c) as [Hn|Hn]; rewrite Hn; [|done].
    apply elem_of_app in Hc as [Hc|Hc]; [by apply Hd1|]. rewrite (Hd2 Hrec c Hc) in Hn. done.
  - intros c. rewrite status_app. destruct (Ho2 c) as [-> | ->]; [apply Ho1|by right].
Qed.
Lemma quiet_each_marks {X} p state (f : X -> list cell) (body : X -> Go HookState ()) l :
  (forall x, x ∈ l -> quietly (body x) (marks p state (f x))) -> quietly (eachGo body l) (marks p state (flat_map f l)).
Proof.
  induction l as [|x l IH]; intros Hb; [apply quiet_yield, marks_nil|]. cbn [eachGo flat_map].
  eapply quiet_bind; [apply Hb; left|by intros ev f0 [_ _ ? _ _]|]. intros [] ev1 Hm.
  eapply quiet_mono; [apply IH; intros; apply Hb; by right|]. intros ev2 r Hm2. by eapply marks_app.
Qed.
Lemma flat_map_singleton {A B} (f : A -> B) l : flat_map (fun x => [f x]) l = map f l.
Proof. induction l as [|x l IH]; [done|]. cbn. by rewrite IH. Qed.
Lemma recordFrom_spec p n state reason :
  quietly (recordFrom run p n state reason) (fun ev r =>
    marks p state (cells (commandsFrom n p)) ev r \/ (~ recording p /\ ev = [] /\ r = inr ())).
Proof.
  unfold recordFrom. destruct (_ || _) eqn:Hrec.
  { apply quiet_yield. right. split_and!; [|done..]. intros [Hr Hh].
    apply orb_true_iff in Hrec as [Hrec%bool_decide_eq_true|Hrec%bool_decide_eq_true]; [|done]. rewrite Hrec in Hr. by destruct Hr. }
  eapply quiet_mono; [|intros ev r; left; eassumption]. unfold cells. apply quiet_each_marks. intros [i h] _.
  unfold hookCells. rewrite <- flat_map_singleton. apply quiet_each_marks. intros k _.
  apply quiet_invocation. intros r Hr.
  assert (Hyield : quietly (go! _ := recordRef r state reason in yield ()) (marks p state [(i, k)])).
  { eapply quiet_recordRef; [exact Hr|]. intros ev (Ha & Hs & Hst). apply quiet_yield. rewrite app_nil_r. cbn in *.
    split; [done..| |].
    - intros Hrec' c ->%list_elem_of_singleton. by apply Hst.
    - intros c. destruct (decide (c = (i, k))) as [->|Hc]; [|left; eapply about_status; [done|set_solver]].
      destruct (statusOf ev (pHook p) (i, k)) eqn:E; [|by left]. right. apply Hst.
      apply orb_false_iff in Hrec as [Hrec%bool_decide_eq_false Hh%bool_decide_eq_false]. split; [|done].
      cbn. destruct (recorderFrom run (pCtx p)); [by eexists|congruence]. }
  intros s. destruct (Hyield s) as (ev & H1 & H2 & H3). exists ev. unfold bindGo in *.
  destruct (recordRef r state reason s) as [s1 [f|[]]]; done.
Qed.

(** ** Running the hooks of a phase *)

Definition inOrder (a b : string * cell) : Prop := (a.2.1 <= b.2.1)%nat.
Record did p (D : list cell) (ev : History) (r : failure + ()) : Prop := {
  did_about : about (pHook p) D ev;
  did_once : NoDup (starts ev);
  did_order : StronglySorted inOrder (starts ev);
  did_closed : pTerminal p = false -> recording p -> forall c, c ∈ D -> settledIn ev (pHook p) c;
  did_ends : r <> inl OutOfFuel;
}.
Lemma did_nil p r : r <> inl OutOfFuel -> did p [] [] r.
Proof. intros Hr. split; [constructor|constructor|constructor|intros _ _ c Hc; set_solver|done]. Qed.
Lemma marks_did p state D ev r0 r : isSettled state = true -> r <> inl OutOfFuel -> marks p state D ev r0 -> did p D ev r.
Proof.
  intros Hst Hr [Ha Hs _ Hd _]. split; [done|rewrite Hs; constructor|rewrite Hs; constructor| |done].
  intros _ Hrec c Hc. exists state. auto.
Qed.
Lemma did_app p D1 D2 ev1 ev2 r1 r2 :
  did p D1 ev1 r1 -> did p D2 ev2 r2 -> (forall c1 c2, c1 ∈ D1 -> c2 ∈ D2 -> (c1.1 < c2.1)%nat) -> did p (D1 ++ D2) (ev1 ++ ev2) r2.
Proof.
  intros [Ha1 Hn1 Ho1 Hc1 _] [Ha2 Hn2 Ho2 Hc2 Hr] Hlt.
  assert (Hbefore : forall x y, x ∈ starts ev1 -> y ∈ starts ev2 -> (x.2.1 < y.2.1)%nat).
  { intros x y Hx%(about_starts _ _ _ _ Ha1) Hy%(about_starts _ _ _ _ Ha2). apply Hlt; [apply Hx|apply Hy]. }
  split; [| | | |done].
  - apply Forall_app. split; [eapply about_mono; [|exact Ha1]|eapply about_mono; [|exact Ha2]]; set_solver.
  - rewrite starts_app. apply NoDup_app. split_and!; [done| |done]. intros x Hx Hy. specialize (Hbefore x x Hx Hy). lia.
  - rewrite starts_app. apply StronglySorted_app_2; [|done..]. intros x y Hx Hy. specialize (Hbefore x y Hx Hy).
    unfold inOrder. lia.
  - intros Ht Hrec c Hc. destruct (decide (c ∈ D2)) as [H2|H2]; [by apply settled_app_r, Hc2|].
    apply settled_app_l; [|by eapply about_status]. apply Hc1; [done..|]. set_solver.
Qed.

Lemma ordered_same (l : list (string * cell)) i : (forall x, x ∈ l -> x.2.1 = i) -> StronglySorted inOrder l.
Proof.
  induction l as [|x l IH]; intros Hl; [constructor|]. constructor; [apply IH; intros; apply Hl; by right|].
  apply Forall_forall. intros y Hy. unfold inOrder. rewrite (Hl x), (Hl y); [lia|by right|by left].
Qed.

Lemma executeLifecycleHook_spec p i h :
  quietly (executeLifecycleHook run (setIndex i p) h) (did p (hookCells i h)).
Proof.
  unfold executeLifecycleHook. apply quiet_here. intros tr.
  pose proof (walk_keys h tr) as Hk. pose proof (walk_NoDup h tr) as Hnd.
  assert (HD : forall c, c ∈ hookCells i h <-> c.1 = i /\ c.2 ∈ (walkHook h tr).*1).
  { intros c. by rewrite elem_of_hookCells, Hk. }
  destruct (walkHook h tr) as [|[key c] [|kc2 rest]] eqn:Hw.
  - apply quiet_yield. assert (hookCells i h = []) as ->; [|by apply did_nil].
    destruct (hookCells i h) as [|x l] eqn:E; [done|]. assert (Hx : x ∈ x :: l) by left. apply HD in Hx. set_solver.
  - eapply quiet_mono; [apply (single_spec run (setIndex i p) key c)|]. intros ev r [(Ha & Hc & Hr) Hst]. cbn in *. split; [| | | |done].
    + eapply about_mono; [|exact Ha]. intros x ->%list_elem_of_singleton. apply HD. set_solver.
    + eapply sublist_NoDup; [|exact Hst]. apply NoDup_singleton.
    + apply (ordered_same _ i). intros x Hx.
      assert (Hx' : x ∈ [(pHook p, (i, key))]) by (by eapply elem_of_sublist). by apply list_elem_of_singleton in Hx' as ->.
    + intros _ Hrec [j k] [Hj Hin]%HD. cbn in *. subst j. assert (k = key) as -> by set_solver. by apply Hc.
  - remember ((key, c) :: kc2 :: rest) as cmds eqn:Hcmds.
    assert (Hkeys : map gKey (map (fun kc : string * list string => Fresh kc.1 kc.2) cmds) = cmds.*1) by (by rewrite map_map).
    assert (HG : forall x, x ∈ cellsG (setIndex i p) (map (fun kc : string * list string => Fresh kc.1 kc.2) cmds) <-> x ∈ hookCells i h).
    { intros x. rewrite HD. unfold cellsG. rewrite map_map. cbn. split.
      - intros (kc & -> & Hin)%list_elem_of_fmap. cbn. split; [done|]. apply list_elem_of_fmap. by exists kc.
      - intros [Hi (kc & Hx & Hin)%list_elem_of_fmap]. apply list_elem_of_fmap. exists kc. split; [|done].
        destruct x; cbn in *; by subst. }
    eapply quiet_bind; [apply interleave_spec| |].
    + by rewrite Hkeys.
    + apply Forall_forall. intros g (kc & -> & _)%list_elem_of_fmap. done.
    + unfold weights. clear. induction cmds as [|x l IH]; cbn in *; lia.
    + intros ev f (_ & _ & _ & _ & errs & Hr). done.
    + intros errs ev (Ha & Hn & Hs & Hc & _).
      assert (Hdid : forall r, r <> inl OutOfFuel -> did p (hookCells i h) (ev ++ []) r).
      { intros r Hr. rewrite app_nil_r. split; [|done| | |done].
        - eapply about_mono; [|exact Ha]. intros x Hx. by apply HG.
        - apply (ordered_same _ i). intros x (g & Hg & Hx)%Hs. by apply fresh_key in Hx as ->.
        - intros _ Hrec x Hx%HG. unfold cellsG in Hx. apply list_elem_of_fmap in Hx as (g & -> & Hg). by apply (Hc g Hg). }
      destruct (errorsJoin errs); [apply quiet_refuse|apply quiet_yield]; by apply Hdid.
Qed.

(** A list of hooks from the [n]th on, with what is recorded when one of them fails. *)
Lemma orNotReached_spec p n (m : Go HookState ()) D (R : History -> failure + () -> Prop) :
  quietly m (did p D) -> (forall ev r, did p D ev (inr r) -> R ev (inr r)) ->
  (forall ev1 ev2 e, did p D ev1 (inl (Failed e)) -> did p (cells (commandsFrom (S n) p)) ev2 (inl (Failed e)) \/ (~ recording p /\ ev2 = []) ->
   R (ev1 ++ ev2) (inl (Failed e))) -> quietly (orNotReached run p n m) R.
Proof.
  intros Hm Hok Hfail s. destruct (Hm s) as (ev & Ht & Hmk & Hd). unfold orNotReached. destruct (m s) as [s1 [[e|]|r]]; cbn in *.
  - destruct (recordFrom_spec p (S n) InvocationSkipped reasonNotReached s1) as (ev2 & Ht2 & Hmk2 & Hr2).
    exists (ev ++ ev2). unfold bindGo. destruct (recordFrom run p (S n) InvocationSkipped reasonNotReached s1) as [s2 r2]. cbn in *.
    assert (Hr : r2 = inr ()) by (destruct Hr2 as [[]|(_ & _ & ?)]; done). subst r2. cbn. rewrite Ht2, Ht, (assoc_L (++)).
    split_and!; [done|congruence|]. apply Hfail; [done|]. destruct Hr2 as [Hr2|(? & ? & _)]; [left|by right].
    by eapply marks_did; [..|exact Hr2].
  - by destruct (did_ends _ _ _ _ Hd).
  - exists ev. auto.
Qed.
Lemma cells_after n h p c1 c2 : c1 ∈ hookCells n h -> c2 ∈ cells (commandsFrom (S n) p) -> (c1.1 < c2.1)%nat.
Proof. intros [-> _]%elem_of_hookCells [? _]%cells_from. lia. Qed.

Lemma executeHookCommands_from p n : quietly
  (eachGo (fun '(i, hook) => if bool_decide (hook = ∅) then yield ()
             else orNotReached run p i (executeLifecycleHook run (setIndex i p) hook)) (commandsFrom n p))
  (did p (cells (commandsFrom n p))).
Proof.
  remember (length (commandsFrom n p)) as len eqn:Hlen. revert n Hlen.
  induction len as [|len IH]; intros n Hlen; destruct (commandsFrom_cases n p) as [E|(h & Hh & E)]; rewrite E in *; try done.
  1: { apply quiet_yield, did_nil. done. }
  injection Hlen as Hlen. specialize (IH (S n) Hlen). cbn [eachGo]. change (cells ((n, h) :: ?l)) with (hookCells n h ++ cells l).
  eapply (quiet_bind _ _ (fun ev r => match r with
    | inr _ => did p (hookCells n h) ev r
    | inl _ => did p (hookCells n h ++ cells (commandsFrom (S n) p)) ev r end)).
  - case_bool_decide as Hempty.
    + subst h. apply quiet_yield. assert (hookCells n ∅ = []) as ->; [|by apply did_nil].
      unfold hookCells, keysOf. by rewrite map_to_list_empty.
    + eapply orNotReached_spec; [apply executeLifecycleHook_spec|done|]. intros ev1 ev2 e Hd [Hd2|[Hnr ->]].
      * eapply did_app; [exact Hd|exact Hd2|]. intros c1 c2. apply cells_after.
      * destruct Hd as [Ha Hn Ho Hc Hr]. rewrite app_nil_r. split; [eapply about_mono; [|exact Ha]; set_solver|done|done|intros _ Hrec; by destruct (Hnr Hrec)|done].
  - intros ev f Hd. done.
  - intros [] ev1 Hd. eapply quiet_mono; [exact IH|]. intros ev2 r Hd2. eapply did_app; [exact Hd|exact Hd2|].
    intros c1 c2. apply cells_after.
Qed.
Lemma executeHookCommands_spec p : quietly (executeHookCommands run p) (did p (cells (commandsFrom 0 p))).
Proof. apply executeHookCommands_from. Qed.

(** ** Interactive hooks *)

Lemma quiet_each_inv {X} (P : History -> Prop) (body : X -> Go HookState ()) l :
  P [] -> (forall ev1 ev2, P ev1 -> P ev2 -> P (ev1 ++ ev2)) ->
  (forall x, x ∈ l -> quietly (body x) (fun ev r => P ev /\ r <> inl OutOfFuel)) ->
  quietly (eachGo body l) (fun ev r => P ev /\ r <> inl OutOfFuel).
Proof.
  intros Hnil Happ. induction l as [|x l IH]; intros Hb; [by apply quiet_yield|]. cbn [eachGo].
  eapply quiet_bind; [apply Hb; left|by intros ev f [? ?]|].
  { intros [] ev1 [H1 _]. eapply quiet_mono; [apply IH; intros; apply Hb; by right|]. intros ev2 r [H2 ?]. auto. }
Qed.
Lemma recordAll_did p state reason : isSettled state = true ->
  quietly (recordAll run p state reason) (fun ev r => did p (cells (commandsFrom 0 p)) ev r /\ starts ev = [] /\ r = inr ()).
Proof.
  intros Hs. eapply quiet_mono; [apply recordFrom_spec|]. intros ev r [Hm|(Hnr & -> & ->)].
  - pose proof (marks_starts _ _ _ _ _ Hm). pose proof (marks_result _ _ _ _ _ Hm) as ->. split_and!; [by eapply marks_did|done..].
  - split_and!; [|done..]. split; [constructor..|intros _ Hrec; by destruct (Hnr Hrec)|done].
Qed.

Lemma executeInteractive_spec p key c : quietly (executeInteractive run p key c) (fun ev r =>
  about (pHook p) [(pIndex p, key)] ev /\ starts ev `sublist_of` [(pHook p, (pIndex p, key))] /\ r <> inl OutOfFuel).
Proof.
  unfold executeInteractive. apply quiet_invocation. intros r Hr. apply quiet_here. intros tr.
  destruct (beginTerminal tr) as [e|].
  { eapply quiet_recordRef; [exact Hr|]. intros ev (Ha & Hs & _). apply quiet_refuse. rewrite app_nil_r, Hs.
    split_and!; [done|apply sublist_nil_l|done]. }
  eapply quiet_recordRef; [exact Hr|]. intros ev (Ha & Hs & _). apply quiet_emit_then, quiet_here. intros tr2.
  destruct (runInteractiveProcess key tr2) as [res e]. apply quiet_here. intros tr3.
  eapply quiet_finish; [exact Hr|]. intros ev2 state (Ha2 & Hs2 & _) _.
  assert (Hend : forall x : failure + (), x <> inl OutOfFuel ->
    let tr := ev ++ Started (pHook p) (pIndex p) key c (workspaceFolder (pEnv p)) (remoteEnv (pEnv p)) :: (ev2 ++ []) in
    about (pHook p) [(pIndex p, key)] tr /\ starts tr `sublist_of` [(pHook p, (pIndex p, key))] /\ x <> inl OutOfFuel).
  { intros x Hx. cbn. rewrite app_nil_r, starts_app, Hs. split_and!; [| |done].
    - apply Forall_app. split; [done|]. constructor; [|done]. cbn. set_solver.
    - change (starts (Started ?h ?i ?k ?a ?d ?v :: ?l)) with ((h, (i, k)) :: starts l). by rewrite Hs2. }
  destruct e as [cause|]; [apply quiet_refuse|apply quiet_yield]; by apply Hend.
Qed.

(** The commands of one hook; a failure records the hooks behind it. *)
Abbreviation interactiveCommand p i := (fun '((key, c) : string * list string) =>
  if bool_decide (c = []) then
    go! inv := invocation run (setIndex i p) key in
    recordRef inv InvocationSkipped reasonNoCommand
  else orNotReached run p i (executeInteractive run (setIndex i p) key c)).
Definition interacted p i (keys : list string) (ev : History) (r : failure + ()) : Prop :=
  about (pHook p) (map (fun k => (i, k)) keys ++ match r with inl _ => cells (commandsFrom (S i) p) | inr _ => [] end) ev /\
  NoDup (starts ev) /\ (forall x, x ∈ starts ev -> exists k, k ∈ keys /\ x = (pHook p, (i, k))) /\ r <> inl OutOfFuel.
Lemma interactiveCommand_spec p i key c : quietly (interactiveCommand p i (key, c)) (interacted p i [key]).
Proof.
  cbv beta iota. case_bool_decide.
  - apply quiet_invocation. intros r Hr.
    assert (Hm : quietly (go! _ := recordRef r InvocationSkipped reasonNoCommand in yield ()) (interacted p i [key])).
    { eapply quiet_recordRef; [exact Hr|]. intros ev (Ha & Hs & _). apply quiet_yield. unfold interacted. rewrite !app_nil_r, Hs.
      split_and!; [done|constructor|set_solver|done]. }
    intros s. destruct (Hm s) as (ev & H1 & H2 & H3). exists ev. unfold bindGo in *.
    destruct (recordRef r InvocationSkipped reasonNoCommand s) as [s1 [f|[]]]; done.
  - intros s. destruct (executeInteractive_spec (setIndex i p) key c s) as (ev & Ht & Hmk & Ha & Hs & Hr). unfold orNotReached.
    assert (Hst : NoDup (starts ev) /\ forall x, x ∈ starts ev -> exists k, k ∈ [key] /\ x = (pHook p, (i, k))).
    { split; [eapply sublist_NoDup; [|exact Hs]; apply NoDup_singleton|]. intros x Hx. exists key. split; [set_solver|].
      apply list_elem_of_singleton. by eapply elem_of_sublist. }
    destruct (executeInteractive run (setIndex i p) key c s) as [s1 [[e|]|[]]]; cbn in *; [|done|].
    + destruct (recordFrom_spec p (S i) InvocationSkipped reasonNotReached s1) as (ev2 & Ht2 & Hmk2 & Hr2).
      exists (ev ++ ev2). unfold bindGo. destruct (recordFrom run p (S i) InvocationSkipped reasonNotReached s1) as [s2 r2]. cbn in *.
      assert (Hx : r2 = inr () /\ starts ev2 = [] /\ about (pHook p) (cells (commandsFrom (S i) p)) ev2).
      { destruct Hr2 as [[]|(_ & -> & ?)]; [done|split_and!; [done..|constructor]]. }
      destruct Hx as (-> & Hs2 & Ha2). cbn. rewrite Ht2, Ht, (assoc_L (++)). split_and!; [done|congruence|].
      unfold interacted. rewrite starts_app, Hs2, app_nil_r. split_and!; [|apply Hst|apply Hst|done].
      apply Forall_app. split; [eapply about_mono; [|exact Ha]|eapply about_mono; [|exact Ha2]]; set_solver.
    + exists ev. split_and!; [done..|]. split_and!; [|apply Hst|apply Hst|done]. eapply about_mono; [|exact Ha]. set_solver.
Qed.
Lemma interactiveCommands_spec p i cmds : NoDup cmds.*1 -> quietly (eachGo (interactiveCommand p i) cmds) (interacted p i cmds.*1).
Proof.
  induction cmds as [|[key c] cmds IH]; cbn [fmap list_fmap]; intros Hnd.
  { apply quiet_yield. split_and!; [constructor|constructor|set_solver|done]. }
  apply NoDup_cons in Hnd as [Hkey Hnd]. cbn [eachGo].
  eapply quiet_bind; [apply interactiveCommand_spec| |].
  - intros ev f (Ha & Hn & Hs & Hr). split_and!; [eapply about_mono; [|exact Ha]; set_solver|done| |done].
    intros x (k & Hk & ->)%Hs. exists k. split; [set_solver|done].
  - intros [] ev1 (Ha & Hn & Hs & _). eapply quiet_mono; [by apply IH|]. intros ev2 r (Ha2 & Hn2 & Hs2 & Hr). split_and!; [| | |done].
    + apply Forall_app. split; [eapply about_mono; [|exact Ha]|eapply about_mono; [|exact Ha2]]; set_solver.
    + rewrite starts_app. apply NoDup_app. split_and!; [done| |done]. intros x (k & Hk & ->)%Hs (k' & Hk' & E)%Hs2.
      injection E as <-. set_solver.
    + intros x. rewrite starts_app, elem_of_app. intros [(k & Hk & ->)%Hs|(k & Hk & ->)%Hs2]; exists k; split; set_solver.
Qed.
Lemma executeInteractiveHooks_from p n : pTerminal p = true -> quietly
  (eachGo (fun '(i, hook) => go! cmds := here (walkHook hook) in eachGo (interactiveCommand p i) cmds) (commandsFrom n p))
  (did p (cells (commandsFrom n p))).
Proof.
  intros Hterm. remember (length (commandsFrom n p)) as len eqn:Hlen. revert n Hlen.
  induction len as [|len IH]; intros n Hlen; destruct (commandsFrom_cases n p) as [E|(h & Hh & E)]; rewrite E in *; try done.
  1: { apply quiet_yield, did_nil. done. }
  injection Hlen as Hlen. specialize (IH (S n) Hlen). cbn [eachGo]. change (cells ((n, h) :: ?l)) with (hookCells n h ++ cells l).
  assert (Hone : forall ev (r : failure + ()) tr, interacted p n (walkHook h tr).*1 ev r ->
    did p (hookCells n h ++ match r with inl _ => cells (commandsFrom (S n) p) | inr _ => [] end) ev r).
  { intros ev r tr (Ha & Hn & Hs & Hr). split; [|done| |congruence|done].
    - eapply about_mono; [|exact Ha]. intros x. rewrite !elem_of_app. intros [(k & -> & Hk)%list_elem_of_fmap|Hx]; [left|by right].
      apply elem_of_hookCells. split; [done|]. by apply walk_keys in Hk.
    - apply (ordered_same _ n). by intros x (k & Hk & ->)%Hs. }
  eapply (quiet_bind _ _ (fun ev r => did p (hookCells n h ++ match r with inl _ => cells (commandsFrom (S n) p) | inr _ => [] end) ev r)).
  - apply quiet_here. intros tr. eapply quiet_mono; [apply interactiveCommands_spec, walk_NoDup|]. intros ev r. apply Hone.
  - intros ev f Hd. exact Hd.
  - intros [] ev1 Hd. rewrite app_nil_r in Hd. eapply quiet_mono; [exact IH|]. intros ev2 r Hd2. eapply did_app; [exact Hd|exact Hd2|].
    intros c1 c2. apply cells_after.
Qed.
Lemma executeInteractiveHooks_spec p : pTerminal p = true ->
  quietly (executeInteractiveHooks run p) (did p (cells (commandsFrom 0 p))).
Proof. apply executeInteractiveHooks_from. Qed.
Lemma prepareInteractiveHooks_spec p : quietly (prepareInteractiveHooks run p) (fun ev r =>
  (about (pHook p) (cells (commandsFrom 0 p)) ev /\ starts ev = []) /\ r <> inl OutOfFuel).
Proof.
  unfold prepareInteractiveHooks. apply quiet_each_inv; [split; [constructor|done]| |].
  { intros ev1 ev2 [Ha1 Hs1] [Ha2 Hs2]. rewrite starts_app, Hs1, Hs2. split; [by apply Forall_app|done]. }
  intros [i h] _. apply quiet_here. intros tr. apply quiet_each_inv; [split; [constructor|done]| |].
  { intros ev1 ev2 [Ha1 Hs1] [Ha2 Hs2]. rewrite starts_app, Hs1, Hs2. split; [by apply Forall_app|done]. }
  intros [key c] _. case_bool_decide; [by apply quiet_yield; split; [split; [constructor|]|]|].
  apply quiet_here. intros tr2. destruct (prepareInteractiveLaunch key tr2) as [e|]; [|by apply quiet_yield; split; [split; [constructor|]|]].
  eapply quiet_bind; [by apply (recordAll_did p InvocationFailed reasonStartFailed)|by intros ev f (_ & _ & ?)|].
  intros [] ev (Hd & Hs & _). apply quiet_refuse. rewrite app_nil_r. split; [split; [apply Hd|done]|done].
Qed.
End Phases.
