(* ===== verification/HookSystem.v ===== *)
(** Phases: a phase whose marker has its content does not run, and a phase that
    runs has its marker; what running one phase, or several, adds to the history. *)
From S2P Require Import Prelude GoStd GoText GoConv GoPath GoState Json DevTypes Redact HookEnv LogTypes Hooks HookPhases.

Section Markers.
Context `{HW : HookWorld} `{HL : !HookLaws} (run : option string).
Implicit Types (p : hookRunParams) (s : HookState).

Definition marked (name content : string) (s : HookState) : Prop := content <> "" -> markerFiles s !! name = Some content.
(** Only the marker [name] changes, and not away from [content]. *)
Record keepsMarkers (name content : string) (s s' : HookState) : Prop := {
  km_others n : n <> name -> markerFiles s' !! n = markerFiles s !! n;
  km_marked : markerFiles s !! name = Some content -> markerFiles s' !! name = Some content;
}.
#[export] Instance keepsMarkers_preorder name content : PreOrder (keepsMarkers name content).
Proof.
  split; [by intros s|]. intros s1 s2 s3 [H1 H2] [H3 H4]. split; [|auto]. intros n Hn. by rewrite H3, H1.
Qed.
Lemma keepsMarkers_same name content s s' : markerFiles s' = markerFiles s -> keepsMarkers name content s s'.
Proof. intros E. by split; rewrite E. Qed.

Lemma markerExists_spec name content s : (markerExists name content s).1 = s /\
  match (markerExists name content s).2 with
  | inl OutOfFuel => False
  | inl (Failed _) => True
  | inr found => containerDataDir <> "" -> content <> "" -> (found = true <-> markerFiles s !! name = Some content)
  end.
Proof.
  unfold markerExists. case_bool_decide as Hdir; [done|]. unfold bindGo, here, read, yield, refuse.
  destruct (readMarkerError name (trace s)) as [e|]; [done|]. split; [done|]. intros _ Hc.
  destruct (markerFiles s !! name) as [t|]; [|by split]. rewrite (bool_decide_false _ Hc). cbn. rewrite bool_decide_eq_true. naive_solver.
Qed.
(** Writing is only tried when the marker is not there. *)
Lemma writeMarker_spec name content s : (containerDataDir <> "" -> markerFiles s !! name <> Some content) ->
  trace (writeMarker name content s).1 = trace s /\ keepsMarkers name content s (writeMarker name content s).1 /\
  match (writeMarker name content s).2 with
  | inl OutOfFuel => False
  | inl (Failed _) => True
  | inr _ => markerFiles (writeMarker name content s).1 !! name = Some content
  end.
Proof.
  intros Hnot. unfold writeMarker. case_bool_decide as Hdir; [done|]. specialize (Hnot Hdir).
  unfold bindGo, here, read, update, refuse, yield. cbn. destruct (secureDataDir (trace s)); [|done]. cbn.
  assert (Hset : forall t, keepsMarkers name content s (setMarker name t s)).
  { intros t. split; [intros n Hn; cbn; by rewrite lookup_insert_ne|done]. }
  destruct (writeMarkerOutcome name content (trace s)) as [[e [t|]]|]; cbn; split_and!; try done.
  by rewrite lookup_insert_eq.
Qed.

Lemma shouldSkipHook_spec name content s :
  trace (shouldSkipHook name content s).1 = trace s /\ keepsMarkers name content s (shouldSkipHook name content s).1 /\
  match (shouldSkipHook name content s).2 with
  | inl OutOfFuel => False
  | inl (Failed _) => True
  | inr true => True
  | inr false => marked name content (shouldSkipHook name content s).1 /\ (content <> "" -> markerFiles s !! name <> Some content)
  end.
Proof.
  unfold shouldSkipHook. case_bool_decide as Hc; [cbn; split_and!; [done|by split|by intros ?|done]|]. unfold markerFileExists, bindGo.
  destruct (markerExists_spec name content s) as [Hs Hr]. destruct (markerExists name content s) as [s1 r]. cbn in *. subst s1.
  destruct r as [[e|]|[|]]; [done|done|done|]. assert (Hnot : containerDataDir <> "" -> markerFiles s !! name <> Some content).
  { intros Hdir E. by apply (Hr Hdir Hc) in E. }
  destruct (writeMarker_spec name content s Hnot) as (Ht & Hk & Hw). unfold wrapErr, yield.
  destruct (writeMarker name content s) as [s2 [[e|]|r]] eqn:Hwm; rewrite ?Hwm in *; cbn in *; [by split_and!|done|]. split_and!; [done|done|by intros _|].
  intros _. apply Hnot. intros Hdir. unfold writeMarker in Hwm. rewrite bool_decide_true in Hwm by done. done.
Qed.

(** What running a phase does. *)
Record hookRan p s s' (ev : History) (r : failure + ()) : Prop := {
  hr_trace : trace s' = trace s ++ ev;
  hr_did : did run p (cells (commandsFrom 0 p)) ev r;
  hr_keeps : keepsMarkers (pName p) (pContent p) s s';
  hr_marked : starts ev <> [] -> marked (pName p) (pContent p) s' /\ (pContent p <> "" -> markerFiles s !! pName p <> Some (pContent p));
}.
Lemma hookRan_quiet p s s1 (m : Go HookState ()) :
  trace s1 = trace s -> keepsMarkers (pName p) (pContent p) s s1 ->
  quietly m (fun ev r => did run p (cells (commandsFrom 0 p)) ev r /\
    (starts ev <> [] -> marked (pName p) (pContent p) s1 /\ (pContent p <> "" -> markerFiles s !! pName p <> Some (pContent p)))) ->
  exists ev, hookRan p s (m s1).1 ev (m s1).2.
Proof.
  intros Ht Hk Hm. destruct (Hm s1) as (ev & Ht2 & Hmk & Hd & Hs). exists ev. split; [congruence|done| |].
  - trans s1; [done|by apply keepsMarkers_same].
  - unfold marked in *. by rewrite Hmk.
Qed.
Lemma recordAll_result p state reason s : (recordAll run p state reason s).2 = inr ().
Proof.
  destruct (recordFrom_spec run p 0 state reason s) as (ev & _ & _ & [Hm|(_ & _ & Hr)]); [|exact Hr]. exact (marks_result _ _ _ _ _ _ Hm).
Qed.
Lemma recordAll_refuse {A} p state reason e s :
  (go! _ := recordAll run p state reason in (refuse e : Go HookState A)) s = ((recordAll run p state reason s).1, inl (Failed e)).
Proof.
  unfold bindGo, refuse. pose proof (recordAll_result p state reason s) as Hr.
  destruct (recordAll run p state reason s) as [s1 x]. cbn in *. by subst x.
Qed.
Lemma recordAll_ran p state reason s s1 r : isSettled state = true -> r <> inl OutOfFuel ->
  trace s1 = trace s -> keepsMarkers (pName p) (pContent p) s s1 ->
  exists ev, hookRan p s (recordAll run p state reason s1).1 ev r /\ starts ev = [].
Proof.
  intros Hst Hr Ht Hk. destruct (recordAll_did run p state reason Hst s1) as (ev & Ht2 & Hmk & Hd & Hs & _). exists ev.
  split; [|done]. split; [congruence|destruct Hd; by split| |by rewrite Hs].
  trans s1; [done|by apply keepsMarkers_same].
Qed.
Lemma recordSkipped_is p reason : pCommands p <> [] -> recordSkipped run p reason = recordAll run p InvocationSkipped reason.
Proof. unfold recordSkipped, recordAll, recordFrom. intros Hc. destruct (_ || _); [done|]. by destruct (pCommands p). Qed.
Lemma bindGo_run {A B} (m : Go HookState A) (k : A -> Go HookState B) s :
  bindGo m k s = match m s with (s', inl f) => (s', inl f) | (s', inr a) => k a s' end.
Proof. unfold bindGo. by destruct (m s) as [s' [f|a]]. Qed.
Lemma runHook_ran p s : exists ev, hookRan p s (runHook run p s).1 ev (runHook run p s).2.
Proof.
  unfold runHook. destruct (pCommands p) as [|h hs] eqn:Hc.
  { exists []. assert (Hcells : cells (commandsFrom 0 p) = []) by (unfold commandsFrom; by rewrite Hc).
    split; [by rewrite app_nil_r|rewrite Hcells; by apply did_nil|by split|intros Hne; by destruct Hne]. }
  assert (Hne : pCommands p <> []) by congruence.
  assert (Hskip : forall s1, trace s1 = trace s -> keepsMarkers (pName p) (pContent p) s s1 ->
    exists ev, hookRan p s (recordSkipped run p reasonAlreadyAttempted s1).1 ev (recordSkipped run p reasonAlreadyAttempted s1).2).
  { intros s1 Ht Hk. rewrite recordSkipped_is by done. rewrite recordAll_result.
    destruct (recordAll_ran p InvocationSkipped reasonAlreadyAttempted s s1 (inr ())) as (ev & Hev & _); [done..|]. by exists ev. }
  destruct (pTerminal p) eqn:Hterm.
  - unfold runInteractiveHook. rewrite bindGo_run. set (skipped := (if bool_decide (pContent p <> "") then _ else _) : Go HookState bool).
    assert (Hsk : (exists e s1, trace s1 = trace s /\ keepsMarkers (pName p) (pContent p) s s1 /\
        skipped s = (go! _ := recordAll run p InvocationFailed reasonMarkerCheckFailed in refuse e) s1) \/
      (exists b, skipped s = (s, inr b) /\ (b = false -> containerDataDir <> "" -> pContent p <> "" -> markerFiles s !! pName p <> Some (pContent p)))).
    { unfold skipped. case_bool_decide as Hcont; [|right; exists false; split; [done|]; intros _ _ ?; done].
      unfold orMarkerFailed. destruct (markerExists_spec (pName p) (pContent p) s) as [Hs Hr].
      destruct (markerExists (pName p) (pContent p) s) as [s1 [[e|]|b]]; cbn in *; subst s1; [left; by exists e, s|done|].
      right. exists b. split; [done|]. intros -> Hdir _ E. by apply (Hr Hdir Hcont) in E. }
    destruct Hsk as [(e & s1 & Ht & Hk & ->)|(b & -> & Hb)].
    { rewrite recordAll_refuse. destruct (recordAll_ran p InvocationFailed reasonMarkerCheckFailed s s1 (inl (Failed e))) as (ev & Hev & _); [done..|].
      exists ev. exact Hev. }
    destruct b; [by apply Hskip|]. specialize (Hb eq_refl).
    rewrite bindGo_run. destruct (prepareInteractiveHooks_spec run p s) as (ev0 & Ht0 & Hm0 & [Ha0 Hs0] & Hr0).
    destruct (prepareInteractiveHooks run p s) as [s0 [f|[]]]; cbn in *.
    { exists ev0. split; [done| |by apply keepsMarkers_same|by rewrite Hs0]. split; [done|rewrite Hs0; constructor|rewrite Hs0; constructor|congruence|done]. }
    assert (Hexec : forall s1, trace s1 = trace s0 -> keepsMarkers (pName p) (pContent p) s s1 ->
      marked (pName p) (pContent p) s1 -> (pContent p <> "" -> markerFiles s !! pName p <> Some (pContent p)) ->
      exists ev, hookRan p s (executeInteractiveHooks run p s1).1 ev (executeInteractiveHooks run p s1).2).
    { intros s1 Ht1 Hk1 Hmk1 Hnot.
      destruct (executeInteractiveHooks_spec run p Hterm s1) as (ev & Ht & Hm & Hd). exists (ev0 ++ ev).
      split; [by rewrite Ht, Ht1, Ht0, (assoc_L (++))| | |].
      - destruct Hd as [Ha Hn Ho Hcl Hr]. split; [by apply Forall_app| | |congruence|done]; by rewrite starts_app, Hs0.
      - trans s1; [done|by apply keepsMarkers_same].
      - intros _. unfold marked in *. by rewrite Hm. }
    rewrite bindGo_run. case_bool_decide as Hcont.
    + assert (Hnot0 : containerDataDir <> "" -> markerFiles s0 !! pName p <> Some (pContent p)).
      { intros Hdir. rewrite Hm0. by apply Hb. }
      unfold orMarkerFailed. destruct (writeMarker_spec (pName p) (pContent p) s0 Hnot0) as (Htw & Hkw & Hrw).
      destruct (writeMarker (pName p) (pContent p) s0) as [s1 [[e|]|[]]] eqn:Hwm; rewrite ?Hwm in *; cbn in *; [|done|].
      * assert (Hks : keepsMarkers (pName p) (pContent p) s s1) by (trans s0; [by apply keepsMarkers_same|done]).
        rewrite recordAll_refuse.
        destruct (recordAll_ran p InvocationFailed reasonMarkerCheckFailed s0 s1 (inl (Failed e))) as (ev & [Htr [Ha Hn Ho Hcl Hr] Hkp _] & Hst); [done..|].
        exists (ev0 ++ ev). cbn. split; [by rewrite Htr, Ht0, (assoc_L (++))| | |by rewrite starts_app, Hs0, Hst].
        -- split; [by apply Forall_app| | |congruence|done]; by rewrite starts_app, Hs0.
        -- trans s0; [by apply keepsMarkers_same|done].
      * apply Hexec; [done|trans s0; [by apply keepsMarkers_same|done]|intros _; done|].
        intros _. apply Hb; [|done]. intros Hdir. unfold writeMarker in Hwm. rewrite bool_decide_true in Hwm by done. done.
    + apply Hexec; [done|by apply keepsMarkers_same|intros Hc'; by destruct Hcont..].
  - rewrite bindGo_run. unfold orMarkerFailed. destruct (shouldSkipHook_spec (pName p) (pContent p) s) as (Ht & Hk & Hr).
    destruct (shouldSkipHook (pName p) (pContent p) s) as [s1 [[e|]|[|]]]; cbn in *.
    + rewrite recordAll_refuse. destruct (recordAll_ran p InvocationFailed reasonMarkerCheckFailed s s1 (inl (Failed e))) as (ev & Hev & _); [done..|].
      exists ev. exact Hev.
    + done.
    + by apply Hskip.
    + destruct Hr as [Hmk Hnot]. apply hookRan_quiet; [done..|]. eapply quiet_mono; [apply executeHookCommands_spec|]. auto.
Qed.
End Markers.

(** A start of an earlier phase, or of the same phase and no later hook of it. *)
Definition posLe (x y : string * cell) : Prop :=
  phaseIndex x.1 < phaseIndex y.1 \/ (x.1 = y.1 /\ (x.2.1 <= y.2.1)%nat).

Section System.
Context `{HW : HookWorld} `{HL : !HookLaws} (run : option string).

(** ** One phase *)

Definition phCells (ph : phaseHook) : list cell := cells (commandsFrom 0 (phParams ph)).
(** A phase of commands, or the dotfiles. *)
Definition phaseOK (ph : phaseHook) : Prop :=
  match phRunFunc ph with
  | None => pHook (phParams ph) = phPhase ph
  | Some f =>
      phPhase ph = PhaseDotfiles /\ pHook (phParams ph) = "" /\ pCommands (phParams ph) = [] /\
      pName (phParams ph) = "dotfilesInstall" /\ exists d, f = installDotfiles d (pContent (phParams ph))
  end.
Definition settledPh (ev : History) (ph : phaseHook) : Prop :=
  pTerminal (phParams ph) = false -> recording run (phParams ph) -> forall c, c ∈ phCells ph -> settledIn ev (phPhase ph) c.
(** [ev] comes from running these phases; each command has an outcome. *)
Record ranPhases (all : list phaseHook) (ev : History) : Prop := {
  rp_only h c : h ∉ map phPhase all -> statusOf ev h c = None;
  rp_from x : x ∈ starts ev -> x.1 ∈ map phPhase all;
  rp_once : NoDup (starts ev);
  rp_order : StronglySorted posLe (starts ev);
  rp_settled ph : ph ∈ all -> settledPh ev ph;
}.
Lemma ranPhases_nil : ranPhases [] [].
Proof. split; [done|set_solver|constructor|constructor|set_solver]. Qed.

Lemma inOrder_posLe h l : (forall x, x ∈ l -> x.1 = h) -> StronglySorted inOrder l -> StronglySorted posLe l.
Proof.
  intros Hh. induction 1 as [|x l Hs IH Hall]; [constructor|]. constructor; [apply IH; intros; apply Hh; by right|].
  rewrite Forall_forall in *. intros y Hy. right. split; [|by apply Hall]. rewrite (Hh x), (Hh y); [done|by right|by left].
Qed.
Lemma runPhaseHook_ran ph s : phaseOK ph -> exists ev,
  trace (runPhaseHook run ph s).1 = trace s ++ ev /\ ranPhases [ph] ev /\ (runPhaseHook run ph s).2 <> inl OutOfFuel /\
  keepsMarkers (pName (phParams ph)) (pContent (phParams ph)) s (runPhaseHook run ph s).1 /\
  (starts ev <> [] -> marked (pName (phParams ph)) (pContent (phParams ph)) (runPhaseHook run ph s).1 /\
     (pContent (phParams ph) <> "" -> markerFiles s !! pName (phParams ph) <> Some (pContent (phParams ph)))).
Proof.
  unfold phaseOK, runPhaseHook. destruct (phRunFunc ph) as [f|].
  - intros (Hph & Hhook & Hcmds & Hname & d & ->). rewrite Hname. unfold installDotfiles. rewrite bindGo_run.
    destruct (shouldSkipHook_spec "dotfilesInstall" (pContent (phParams ph)) s) as (Ht & Hk & Hr).
    assert (Hnil : forall ev, (starts ev = [] \/ starts ev = [(PhaseDotfiles, (0%nat, ""))]) ->
      (forall h c, statusOf ev h c = None) -> ranPhases [ph] ev).
    { intros ev Hst Hs. split; [by intros|..].
      - intros x Hx. cbn. rewrite Hph. destruct Hst as [Hst|Hst]; rewrite Hst in Hx; set_solver.
      - destruct Hst as [-> | ->]; [constructor|apply NoDup_singleton].
      - destruct Hst as [-> | ->]; repeat constructor.
      - intros ph' ->%list_elem_of_singleton _ _ c Hc. unfold phCells, commandsFrom in Hc. rewrite Hcmds in Hc. by apply elem_of_nil in Hc. }
    destruct (shouldSkipHook "dotfilesInstall" (pContent (phParams ph)) s) as [s1 [[e|]|[|]]]; cbn in *; [|done|..].
    1, 2: exists []; rewrite app_nil_r; split_and!; [done|apply Hnil; [by left|done]|done|done|done].
    destruct Hr as [Hm Hnot]. exists [DotfilesRun].
    assert (Hran : ranPhases [ph] [DotfilesRun]) by (apply Hnil; [by right|done]).
    unfold bindGo, here, read, emit, update. cbn.
    destruct (RunDotfiles d (trace s1)); cbn; rewrite Ht; split_and!; try done; by destruct Hk; split.
  - intros Hhook. destruct (runHook_ran run (phParams ph) s) as (ev & [Ht [Ha Hn Ho Hc Hr] Hk Hm]). exists ev.
    rewrite Hhook in *. split_and!; [done| |done|done|done]. split; [| |done| |].
    + intros h c Hh. apply (about_other (phPhase ph) h _ _ _ Ha). set_solver.
    + intros x Hx. destruct (about_starts _ _ _ _ Ha Hx) as [-> _]. set_solver.
    + apply (inOrder_posLe (phPhase ph)); [|done]. intros x Hx. by destruct (about_starts _ _ _ _ Ha Hx).
    + intros ph' ->%list_elem_of_singleton. exact Hc.
Qed.

(** ** Lists of phases *)

Definition increasing (all : list phaseHook) : Prop :=
  StronglySorted (fun a b => phaseIndex (phPhase a) < phaseIndex (phPhase b)) all.
Lemma increasing_ne ph rest ph' : increasing (ph :: rest) -> ph' ∈ rest -> phPhase ph <> phPhase ph'.
Proof.
  intros Hi Hin E. inversion Hi as [|? ? _ Hall]; subst. rewrite Forall_forall in Hall. specialize (Hall ph' Hin). rewrite E in Hall. lia.
Qed.
Lemma increasing_new ph rest : increasing (ph :: rest) -> phPhase ph ∉ map phPhase rest.
Proof. intros Hi (ph' & E & Hin)%list_elem_of_fmap. by eapply increasing_ne. Qed.

Lemma ranPhases_cons ph rest ev1 ev2 :
  increasing (ph :: rest) -> ranPhases [ph] ev1 -> ranPhases rest ev2 -> ranPhases (ph :: rest) (ev1 ++ ev2).
Proof.
  intros Hi [Ho1 Hf1 Hn1 Hs1 Hc1] [Ho2 Hf2 Hn2 Hs2 Hc2].
  assert (Hlt : forall x y, x ∈ starts ev1 -> y ∈ starts ev2 -> phaseIndex x.1 < phaseIndex y.1).
  { intros x y Hx%Hf1 Hy%Hf2. cbn in Hx. apply list_elem_of_singleton in Hx as ->.
    apply list_elem_of_fmap in Hy as (ph' & -> & Hin). inversion Hi as [|? ? _ Hall]; subst. rewrite Forall_forall in Hall. by apply Hall. }
  split.
  - intros h c Hh. rewrite status_app, Ho2, Ho1; [done|set_solver|set_solver].
  - intros x. rewrite starts_app, elem_of_app. intros [Hx%Hf1|Hx%Hf2]; set_solver.
  - rewrite starts_app. apply NoDup_app. split_and!; [done| |done]. intros x Hx Hy. specialize (Hlt x x Hx Hy). lia.
  - rewrite starts_app. apply StronglySorted_app_2; [|done..]. intros x y Hx Hy. left. by apply Hlt.
  - intros ph' [->|Hin]%elem_of_cons Ht Hr c Hc.
    + apply settled_app_l; [by apply Hc1; [left|..]|]. apply Ho2. by apply increasing_new.
    + apply settled_app_r. by apply Hc2.
Qed.

(** Recording a state for all commands of some phases; [None] records nothing. *)
Definition assigned (st : phaseHook -> option string) (all : list phaseHook) (ev : History) (r : failure + ()) : Prop :=
  r = inr () /\ starts ev = [] /\ (forall h c, h ∉ map phPhase all -> statusOf ev h c = None) /\
  forall ph, ph ∈ all -> match st ph with
    | Some state => recording run (phParams ph) -> phRunFunc ph = None -> forall c, c ∈ phCells ph -> statusOf ev (phPhase ph) c = Some state
    | None => forall c, statusOf ev (phPhase ph) c = None
    end.
Lemma quiet_assigned st (body : phaseHook -> Go HookState ()) all : NoDup (map phPhase all) ->
  (forall ph, ph ∈ all -> quietly (body ph) (assigned st [ph])) -> quietly (eachGo body all) (assigned st all).
Proof.
  induction all as [|ph rest IH]; intros Hnd Hb; [apply quiet_yield; split_and!; [done..|set_solver]|].
  cbn in Hnd. apply NoDup_cons in Hnd as [Hnew Hnd]. cbn [eachGo].
  eapply quiet_bind; [apply Hb; left|by intros ev f (? & _)|]. intros [] ev1 (_ & Hs1 & Ho1 & Hst1).
  eapply quiet_mono; [apply IH; [done|intros; apply Hb; by right]|]. intros ev2 r (Hr & Hs2 & Ho2 & Hst2). split_and!; [done| | |].
  - by rewrite starts_app, Hs1, Hs2.
  - intros h c Hh. rewrite status_app, Ho2, Ho1; [done|set_solver|set_solver].
  - intros ph' [->|Hin]%elem_of_cons.
    + specialize (Hst1 ph ltac:(left)). destruct (st ph); [intros Hrec Hf c Hc|intros c]; rewrite status_app, Ho2 by done; auto.
    + specialize (Hst2 ph' Hin). assert (Hne : phPhase ph' ∉ map phPhase [ph]).
      { cbn. intros E%list_elem_of_singleton. apply Hnew. rewrite <- E. by apply list_elem_of_fmap_2. }
      destruct (st ph'); [intros Hrec Hf c Hc; by rewrite status_app, Hst2|intros c; rewrite status_app, Hst2; by apply Ho1].
Qed.
(** [recordFrom] for a phase, seen from the phase. *)
Lemma record_assigned ph p state reason : phaseOK ph -> pHook p = pHook (phParams ph) -> pCommands p = pCommands (phParams ph) ->
  (pCtx (phParams ph) = true -> pCtx p = true) ->
  quietly (recordFrom run p 0 state reason) (assigned (fun _ => Some state) [ph]).
Proof.
  intros Hok Hh Hc Hctx. eapply quiet_mono; [apply recordFrom_spec|].
  assert (Hrec : recording run (phParams ph) -> recording run p).
  { unfold recording, recorderFrom. rewrite Hh. destruct (pCtx (phParams ph)); [|by intros [[? ?] _]]. by rewrite Hctx. }
  intros ev r [[Ha Hs Hr Hst Honly]|(Hnr & -> & ->)].
  - split_and!; [done..| |].
    + intros h c Hn. unfold phaseOK in Hok. destruct (phRunFunc ph) as [f|].
      * destruct Hok as (_ & _ & Hcmds & _). destruct (Honly c) as [Hc0|Hc0].
        -- assert (Ha' : about (pHook p) [] ev).
           { eapply about_mono; [|exact Ha]. unfold commandsFrom. by rewrite Hc, Hcmds. }
           destruct (decide (h = pHook p)) as [->|Hne]; [done|by eapply about_other].
        -- exfalso. assert (Hn0 : c ∉ cells (commandsFrom 0 p)) by (unfold commandsFrom; rewrite Hc, Hcmds; apply not_elem_of_nil).
           by rewrite (about_status _ _ _ _ Ha Hn0) in Hc0.
      * apply (about_other (pHook p) h _ _ _ Ha). rewrite Hh, Hok. set_solver.
    + intros ph' ->%list_elem_of_singleton Hr' Hf c Hin. unfold phaseOK in Hok. rewrite Hf in Hok. rewrite <- Hok, <- Hh.
      apply Hst; [by apply Hrec|]. unfold phCells, commandsFrom in *. by rewrite Hc.
  - split_and!; [done..|]. intros ph' ->%list_elem_of_singleton Hr'. by destruct (Hnr (Hrec Hr')).
Qed.
Lemma recordNotReached_spec rest : Forall phaseOK rest -> NoDup (map phPhase rest) ->
  quietly (recordNotReached run rest) (assigned (fun _ => Some InvocationSkipped) rest).
Proof.
  intros Hok Hnd. apply quiet_assigned; [done|]. intros ph Hin. rewrite Forall_forall in Hok. by apply record_assigned; [apply Hok|..].
Qed.
Lemma assigned_ran state all ev r : isSettled state = true -> Forall phaseOK all -> assigned (fun _ => Some state) all ev r -> ranPhases all ev.
Proof.
  intros Hst Hok (_ & Hs & Ho & Ha). split; [done|rewrite Hs; set_solver|rewrite Hs; constructor|rewrite Hs; constructor|].
  intros ph Hin _ Hrec c Hc. rewrite Forall_forall in Hok. specialize (Hok ph Hin). unfold phaseOK in Hok.
  destruct (phRunFunc ph) eqn:Hf.
  - destruct Hok as (_ & _ & Hcmds & _). unfold phCells, commandsFrom in Hc. rewrite Hcmds in Hc. by apply elem_of_nil in Hc.
  - exists state. split; [by apply (Ha ph Hin)|done].
Qed.
Lemma increasing_NoDup all : increasing all -> NoDup (map phPhase all).
Proof.
  induction all as [|ph rest IH]; intros Hi; [constructor|]. cbn. constructor; [by apply increasing_new|].
  apply IH. by inversion Hi.
Qed.

(** Running a phase; when it fails those behind it are recorded. *)
Lemma orSkipRest_ran ph rest s : phaseOK ph -> Forall phaseOK rest -> increasing (ph :: rest) -> exists ev,
  trace (orSkipRest run rest (runPhaseHook run ph) s).1 = trace s ++ ev /\
  match (orSkipRest run rest (runPhaseHook run ph) s).2 with
  | inl OutOfFuel => False
  | inl (Failed _) => ranPhases (ph :: rest) ev
  | inr _ => ranPhases [ph] ev
  end.
Proof.
  intros Hok Hokr Hi. destruct (runPhaseHook_ran ph s Hok) as (ev & Ht & Hran & Hr & _). unfold orSkipRest.
  destruct (runPhaseHook run ph s) as [s1 [[e|]|[]]]; cbn in *; [|done|by exists ev].
  rewrite bindGo_run. destruct (recordNotReached_spec rest Hokr) with s1 as (ev2 & Ht2 & _ & Ha); [apply increasing_NoDup; by inversion Hi|].
  destruct (recordNotReached run rest s1) as [s2 r]. cbn in *. destruct Ha as (-> & Ha). exists (ev ++ ev2). cbn.
  rewrite Ht2, Ht, (assoc_L (++)). split; [done|]. apply ranPhases_cons; [done..|]. eapply assigned_ran; [|done|split; [done|exact Ha]]. done.
Qed.
End System.
