(* ===== verification/HookLife.v ===== *)
(** Running the phases of a setup: the theorems on their order, on what is recorded
    of them and on running once. *)
From S2P Require Import Prelude GoStd GoText GoConv GoPath GoState Json DevTypes Redact HookEnv LogTypes Hooks HookPhases HookSystem.

Section Running.
Context `{HW : HookWorld} `{HL : !HookLaws} (run : option string).

(** ** Lists of phases *)

Lemma increasing_tail ph rest : increasing (ph :: rest) -> increasing rest.
Proof. by inversion 1. Qed.
Lemma runDeferred_ran all : Forall phaseOK all -> increasing all -> forall s, exists ev,
  trace (runDeferred run all s).1 = trace s ++ ev /\ ranPhases run all ev /\ (runDeferred run all s).2 <> inl OutOfFuel.
Proof.
  induction all as [|ph rest IH]; intros Hok Hi s; cbn [runDeferred].
  { exists []. split_and!; [by rewrite app_nil_r|apply ranPhases_nil|done]. }
  apply Forall_cons in Hok as [Hok Hokr]. rewrite bindGo_run.
  destruct (orSkipRest_ran run ph rest s Hok Hokr Hi) as (ev & Ht & Hr).
  destruct (orSkipRest run rest (runPhaseHook run ph) s) as [s1 [[e|]|[]]]; cbn in *; [by exists ev|done|].
  destruct (IH Hokr (increasing_tail _ _ Hi) s1) as (ev2 & Ht2 & Hr2 & Hf). exists (ev ++ ev2).
  rewrite Ht2, Ht, (assoc_L (++)). split_and!; [done|by apply ranPhases_cons|done].
Qed.
Definition inPrebuild (ph : phaseHook) : Prop := prebuildExcluded (phPhase ph) = false.
#[local] Instance inPrebuild_dec ph : Decision (inPrebuild ph).
Proof. unfold inPrebuild. apply _. Defined.
Lemma increasing_filter (P : phaseHook -> Prop) `{!forall x, Decision (P x)} all : increasing all -> increasing (filter P all).
Proof.
  induction 1 as [|ph rest Hs IH Hall]; [constructor|]. rewrite filter_cons. case_decide; [|done]. constructor; [done|].
  rewrite Forall_forall in *. intros x [_ Hx]%list_elem_of_filter. by apply Hall.
Qed.
Lemma Forall_kept {A} (P Q : A -> Prop) `{!forall x, Decision (Q x)} l : Forall P l -> Forall P (filter Q l).
Proof. rewrite !Forall_forall. intros Hl x [_ Hx]%list_elem_of_filter. auto. Qed.
Lemma runPrebuildHooks_ran all : Forall phaseOK all -> increasing all -> forall s, exists ev,
  trace (runPrebuildHooks run all s).1 = trace s ++ ev /\ ranPhases run (filter inPrebuild all) ev /\
  (runPrebuildHooks run all s).2 <> inl OutOfFuel.
Proof.
  induction all as [|ph rest IH]; intros Hok Hi s; cbn [runPrebuildHooks].
  { exists []. split_and!; [by rewrite app_nil_r|apply ranPhases_nil|done]. }
  apply Forall_cons in Hok as [Hok Hokr]. rewrite filter_cons.
  destruct (decide (inPrebuild ph)) as [Hx|Hx]; [|apply not_false_is_true in Hx; rewrite Hx; apply IH; [done|by eapply increasing_tail]].
  pose proof Hx as Hx'. unfold inPrebuild in Hx'. rewrite Hx', bindGo_run. change (filter (fun r => prebuildExcluded (phPhase r) = false) rest) with (filter inPrebuild rest).
  assert (Hif : increasing (ph :: filter inPrebuild rest)).
  { assert (Hf : increasing (filter inPrebuild (ph :: rest))) by by apply increasing_filter.
    rewrite filter_cons, decide_True in Hf by done. done. }
  destruct (orSkipRest_ran run ph (filter inPrebuild rest) s Hok) as (ev & Ht & Hr); [by apply Forall_kept|done|].
  destruct (orSkipRest run _ (runPhaseHook run ph) s) as [s1 [[e|]|[]]]; cbn in *; [by exists ev|done|].
  destruct (IH Hokr (increasing_tail _ _ Hi) s1) as (ev2 & Ht2 & Hr2 & Hf). exists (ev ++ ev2).
  rewrite Ht2, Ht, (assoc_L (++)). split_and!; [done|by apply ranPhases_cons|done].
Qed.

Lemma deferAll_spec rest : Forall phaseOK rest -> NoDup (map phPhase rest) ->
  quietly (deferAll run rest) (assigned run (fun _ => Some InvocationDeferred) rest).
Proof.
  intros Hok Hnd. apply quiet_assigned; [done|]. intros ph Hin. rewrite Forall_forall in Hok. by apply record_assigned; [apply Hok|..].
Qed.
(** What a setup has run and what it has left. *)
Definition ranUntil (all : list phaseHook) (w : LifecyclePhase) (ev : History) (r : failure + list phaseHook) : Prop :=
  match r with
  | inl OutOfFuel => False
  | inl (Failed _) => ranPhases run all ev
  | inr rest => exists pre ev1 ev2, ev = ev1 ++ ev2 /\ all = pre ++ rest /\ ranPhases run pre ev1 /\
      assigned run (fun _ => Some InvocationDeferred) rest ev2 (inr ()) /\
      (w ∈ map phPhase all -> exists pre' ph, pre = pre' ++ [ph] /\ phPhase ph = w) /\
      (w = PhaseInitializeCommand -> pre = []) /\ (w <> PhaseInitializeCommand -> w ∉ map phPhase all -> rest = [])
  end.
Lemma deferred_now all s (A := list phaseHook) : Forall phaseOK all -> increasing all -> exists ev,
  trace (bindGo (deferAll run all) (fun _ => yield all) s).1 = trace s ++ ev /\
  (bindGo (deferAll run all) (fun _ => yield all) s).2 = inr all /\
  assigned run (fun _ => Some InvocationDeferred) all ev (inr ()).
Proof.
  intros Hok Hi. destruct (deferAll_spec all Hok (increasing_NoDup all Hi) s) as (ev & Ht & _ & Ha). exists ev.
  rewrite bindGo_run. destruct (deferAll run all s) as [s1 x]. cbn in *. pose proof Ha as [-> _]. done.
Qed.
Lemma runUntil_ran w all : w <> PhaseInitializeCommand -> Forall phaseOK all -> increasing all -> forall s, exists ev,
  trace (runUntil run all w s).1 = trace s ++ ev /\ ranUntil all w ev (runUntil run all w s).2.
Proof.
  intros Hw. induction all as [|ph rest IH]; intros Hok Hi s; cbn [runUntil].
  { exists []. cbn. rewrite app_nil_r. split; [done|]. exists [], [], []. split_and!; [done|done|apply ranPhases_nil| |set_solver|done|done].
    split_and!; [done..|set_solver]. }
  apply Forall_cons in Hok as [Hok Hokr]. rewrite bindGo_run.
  destruct (orSkipRest_ran run ph rest s Hok Hokr Hi) as (ev & Ht & Hr).
  destruct (orSkipRest run rest (runPhaseHook run ph) s) as [s1 [[e|]|[]]]; cbn in *; [by exists ev|done|].
  case_bool_decide as Hph.
  - destruct (deferred_now rest s1 Hokr (increasing_tail _ _ Hi)) as (ev2 & Ht2 & Hr2 & Ha). exists (ev ++ ev2).
    rewrite Hr2, Ht2, Ht, (assoc_L (++)). split; [done|]. exists [ph], ev, ev2. split_and!; [done|done|done|done| |done|].
    + intros _. by exists [], ph.
    + intros _ Hn. exfalso. apply Hn. rewrite <- Hph. left.
  - destruct (IH Hokr (increasing_tail _ _ Hi) s1) as (ev2 & Ht2 & Hu). exists (ev ++ ev2).
    rewrite Ht2, Ht, (assoc_L (++)). split; [done|]. destruct (runUntil run rest w s1) as [s2 [[e|]|rest']]; cbn in *; [by apply ranPhases_cons|done|].
    destruct Hu as (pre & ev3 & ev4 & -> & -> & Hpre & Ha & Hlast & _ & Hnever). exists (ph :: pre), (ev ++ ev3), ev4.
    split_and!; [by rewrite (assoc_L (++))|done| |done| |done|].
    + apply ranPhases_cons; [|done..]. change (increasing ((ph :: pre) ++ rest')) in Hi. by apply StronglySorted_app_1_l in Hi.
    + intros [Heq|Hin]%elem_of_cons; [congruence|]. destruct (Hlast Hin) as (pre' & ph' & -> & Hph'). by exists (ph :: pre'), ph'.
    + intros _ Hn. apply Hnever; [done|]. cbn in Hn. set_solver.
Qed.
Lemma runWithWaitFor_ran w all s : Forall phaseOK all -> increasing all -> (forall ph, ph ∈ all -> phPhase ph <> PhaseInitializeCommand) -> exists ev,
  trace (runWithWaitFor run all w s).1 = trace s ++ ev /\ ranUntil all w ev (runWithWaitFor run all w s).2.
Proof.
  intros Hok Hi Hno. unfold runWithWaitFor. case_bool_decide as Hw; [|by apply runUntil_ran].
  destruct (deferred_now all s Hok Hi) as (ev & Ht & Hr & Ha). exists ev. split; [exact Ht|]. rewrite Hr.
  exists [], [], ev. split_and!; [done|done|apply ranPhases_nil|done| |done|done].
  intros (ph & E & Hin)%list_elem_of_fmap. exfalso. apply (Hno ph Hin). congruence.
Qed.
End Running.

(** ** The phases of a setup *)

Section Setup.
Context `{HW : HookWorld} `{HL : !HookLaws} (run : option string).
Context (setupInfo : Result) (mc : MergedDevContainerConfig) (cd : ContainerDetails).
Abbreviation phasesOf := (allPhases setupInfo mc cd).

(** A phase's marker and its content. *)
Definition markerOf (opts : PreAttachOptions) (phase : LifecyclePhase) : string * string :=
  if bool_decide (phase = PhaseOnCreate) then ("onCreateCommands", Created cd)
  else if bool_decide (phase = PhaseUpdateContent) then ("updateContentCommands", if Prebuild opts then "" else Created cd)
  else if bool_decide (phase = PhasePostCreate) then ("postCreateCommands", Created cd)
  else if bool_decide (phase = PhaseDotfiles) then ("dotfilesInstall", Created cd)
  else ("postStartCommands", StartedAt cd).
Definition hasDotfiles (opts : PreAttachOptions) : bool := negb (bool_decide (Repository (Dotfiles opts) = "")).
Record goodPhase (opts : PreAttachOptions) (ph : phaseHook) : Prop := {
  gp_ok : phaseOK ph;
  gp_ctx : phRunFunc ph = None -> pCtx (phParams ph) = true /\ pHook (phParams ph) <> "";
  gp_terminal : Terminal opts = false -> pTerminal (phParams ph) = false;
  gp_marker : (pName (phParams ph), pContent (phParams ph)) = markerOf opts (phPhase ph);
}.
Lemma phases_shape opts : map phPhase (phasesOf opts) =
  [PhaseOnCreate; PhaseUpdateContent; PhasePostCreate] ++ (if hasDotfiles opts then [PhaseDotfiles] else []) ++ [PhasePostStart].
Proof.
  unfold allPhases, hasDotfiles. destruct (mergeSecretsEnv _ _ _) as [vars redactor]. unfold insertDotfilesPhase.
  case_bool_decide; [done|]. cbn. reflexivity.
Qed.
Lemma phases_good opts : Forall (goodPhase opts) (phasesOf opts).
Proof.
  unfold allPhases. destruct (mergeSecretsEnv _ _ _) as [vars redactor]. unfold insertDotfilesPhase.
  assert (Hfour : Forall (goodPhase opts) (map (withRedactor redactor (Terminal opts))
    (preAttachPhaseParams mc cd (mkEnv (remoteUser (resolveLifecycleEnv setupInfo mc)) (workspaceFolder (resolveLifecycleEnv setupInfo mc)) vars) (Prebuild opts)))).
  { repeat constructor; cbn; try done; by intros ->. }
  case_bool_decide; [done|]. apply Forall_app. split; [by apply Forall_take|]. constructor; [|by apply Forall_drop].
  split; [|done|done|done]. split_and!; [done..|]. by exists (Dotfiles opts).
Qed.
Lemma phases_increasing opts : increasing (phasesOf opts).
Proof.
  assert (H : StronglySorted (fun a b => phaseIndex a < phaseIndex b) (map phPhase (phasesOf opts))).
  { rewrite phases_shape. destruct (hasDotfiles opts); repeat constructor. }
  unfold increasing. induction (phasesOf opts) as [|ph l IH]; [constructor|]. cbn in H. inversion H as [|? ? Hs Hall]; subst.
  constructor; [by apply IH|]. apply Forall_forall. intros x Hx. rewrite Forall_forall in Hall.
  apply Hall. by apply (list_elem_of_fmap_2 phPhase).
Qed.

(** ** Before the phases run *)

Definition excludedState (opts : PreAttachOptions) (ph : phaseHook) : option string :=
  if bool_decide (pCommands (phParams ph) = []) || isSkipped (Skip opts) (phPhase ph) || (Prebuild opts && prebuildExcluded (phPhase ph))
  then Some InvocationSkipped else None.
Definition plannedState (opts : PreAttachOptions) (ph : phaseHook) : option string :=
  if Prebuild opts && prebuildExcluded (phPhase ph) then None else Some InvocationPending.

Lemma assigned_one st st' ph ev r : st ph = st' ph -> assigned run st [ph] ev r -> assigned run st' [ph] ev r.
Proof.
  intros E (Hr & Hs & Ho & Ha). split_and!; [done..|]. intros ph' ->%list_elem_of_singleton. rewrite <- E. apply Ha. left.
Qed.
Lemma assigned_nothing st ph : st ph = None -> assigned run st [ph] [] (inr ()).
Proof. intros E. split_and!; [done..|]. intros ph' ->%list_elem_of_singleton. by rewrite E. Qed.
Lemma recordExcludedPhases_spec opts all : Forall (goodPhase opts) all -> NoDup (map phPhase all) ->
  quietly (recordExcludedPhases run all opts) (assigned run (excludedState opts) all).
Proof.
  intros Hgood Hnd. apply quiet_assigned; [done|]. intros ph Hin. rewrite Forall_forall in Hgood. destruct (Hgood ph Hin) as [Hok _ _ _].
  set (p := phParams ph). set (p' := withContext p).
  assert (Hskip : forall reason, pCommands p <> [] -> excludedState opts ph = Some InvocationSkipped ->
    quietly (recordSkipped run p' reason) (assigned run (excludedState opts) [ph])).
  { intros reason Hne Hst. rewrite recordSkipped_is by done. eapply quiet_mono; [apply (record_assigned run ph p' InvocationSkipped reason Hok); done|].
    intros ev r. by apply assigned_one. }
  assert (Hvac : pCommands p = [] -> forall ev, starts ev = [] -> (forall h c, statusOf ev h c = None) ->
    assigned run (excludedState opts) [ph] ev (inr ())).
  { intros Hempty ev Hs Hst. split_and!; [done..|]. intros ph' ->%list_elem_of_singleton.
    unfold excludedState. fold p. rewrite Hempty, bool_decide_true by done. cbn [orb]. intros _ _ c Hc.
    unfold phCells, commandsFrom in Hc. fold p in Hc. rewrite Hempty in Hc. by apply elem_of_nil in Hc. }
  cbv beta zeta. fold p p'. case_bool_decide as Hempty.
  - specialize (Hvac Hempty). unfold recordSkipped.
    destruct (bool_decide (recorderFrom run (pCtx p') = None) || bool_decide (pHook p' = "")); [by apply quiet_yield, Hvac|].
    change (pCommands p') with (pCommands p). rewrite Hempty.
    intros s. eexists. split; [reflexivity|]. split; [done|]. apply Hvac; [done|]. intros h c.
    unfold statusOf. cbn. rewrite bool_decide_false; [done|]. by intros (_ & ? & _).
  - assert (Hex : excludedState opts ph = if isSkipped (Skip opts) (phPhase ph) || (Prebuild opts && prebuildExcluded (phPhase ph))
      then Some InvocationSkipped else None) by (unfold excludedState; fold p; by rewrite bool_decide_false).
    destruct (isSkipped (Skip opts) (phPhase ph)); [by apply Hskip|].
    destruct (Prebuild opts && prebuildExcluded (phPhase ph)); [by apply Hskip|]. by apply quiet_yield, assigned_nothing.
Qed.
Lemma planPhases_spec opts all : Forall (goodPhase opts) all -> NoDup (map phPhase all) ->
  quietly (planPhases run all (Prebuild opts)) (fun ev r => r = inr (map planned all) /\ assigned run (plannedState opts) all ev (inr ())).
Proof.
  intros Hgood Hnd. unfold planPhases.
  assert (Heach : quietly (eachGo (fun ph => if Prebuild opts && prebuildExcluded (phPhase ph) then yield ()
      else recordAll run (withContext (phParams (planned ph))) InvocationPending "") all)
    (assigned run (plannedState opts) all)).
  { apply quiet_assigned; [done|]. intros ph Hin. rewrite Forall_forall in Hgood. destruct (Hgood ph Hin) as [Hok _ _ _].
    destruct (Prebuild opts && prebuildExcluded (phPhase ph)) eqn:Hpre.
    - apply quiet_yield, assigned_nothing. unfold plannedState. by rewrite Hpre.
    - eapply quiet_mono; [by apply (record_assigned run ph)|]. intros ev r. apply assigned_one. unfold plannedState. by rewrite Hpre. }
  intros s. rewrite bindGo_run. cbn [update]. rewrite bindGo_run.
  destruct (Heach (mkHookState (markerFiles s) ∅ (drawn s) (trace s))) as (ev & Ht & Hm & Ha). exists ev.
  destruct (eachGo _ all _) as [s1 x]. cbn in *. pose proof Ha as [-> _]. done.
Qed.

(** Planning changes nothing of a phase but its plan. *)
Lemma good_planned opts all : Forall (goodPhase opts) all -> Forall (goodPhase opts) (map planned all).
Proof. intros Hg. apply Forall_map. eapply Forall_impl; [exact Hg|]. intros ph [Hok Hc Ht Hm]. by split. Qed.
Lemma phases_planned all : map phPhase (map planned all) = map phPhase all.
Proof. by rewrite map_map. Qed.
Lemma increasing_planned all : increasing all -> increasing (map planned all).
Proof.
  induction 1 as [|ph rest Hs IH Hall]; [constructor|]. cbn. constructor; [done|]. apply Forall_map.
  eapply Forall_impl; [exact Hall|]. done.
Qed.
Lemma good_ok opts all : Forall (goodPhase opts) all -> Forall phaseOK all.
Proof. intros Hg. eapply Forall_impl; [exact Hg|]. by intros ph []. Qed.
Lemma good_recording opts ph : is_Some run -> goodPhase opts ph -> phRunFunc ph = None -> recording run (phParams ph).
Proof. intros Hrun [_ Hc _ _] Hf. destruct (Hc Hf) as [Hctx Hh]. unfold recording, recorderFrom. by rewrite Hctx. Qed.

(** The phases that are not skipped, as they are run. *)
Definition runPhases (opts : PreAttachOptions) : list phaseHook := map planned (filterSkippedPhases (phasesOf opts) (Skip opts)).
Lemma runPhases_good opts : Forall (goodPhase opts) (runPhases opts).
Proof. apply good_planned, Forall_kept, phases_good. Qed.
Lemma runPhases_increasing opts : increasing (runPhases opts).
Proof. apply increasing_planned. apply increasing_filter, phases_increasing. Qed.
Lemma elem_of_runPhases opts phase :
  phase ∈ map phPhase (runPhases opts) <-> phase ∈ map phPhase (phasesOf opts) /\ isSkipped (Skip opts) phase = false.
Proof.
  unfold runPhases. rewrite phases_planned, !list_elem_of_fmap. unfold filterSkippedPhases. split.
  - intros (ph & -> & [Hsk Hin]%list_elem_of_filter). split; [|done]. by exists ph.
  - intros [(ph & -> & Hin) Hsk]. exists ph. split; [done|]. by apply list_elem_of_filter.
Qed.
Lemma phases_not_initialize opts ph : ph ∈ runPhases opts -> phPhase ph <> PhaseInitializeCommand.
Proof.
  intros Hin E. assert (Hp : phPhase ph ∈ map phPhase (runPhases opts)) by by apply list_elem_of_fmap_2.
  apply elem_of_runPhases in Hp as [Hp _]. rewrite E, phases_shape in Hp. destruct (hasDotfiles opts); cbn in Hp; set_solver.
Qed.

(** What a setup does: the excluded phases and the plan are recorded, then the
    phases are run. *)
Definition runPart (opts : PreAttachOptions) : Go HookState (list phaseHook) :=
  if Prebuild opts then go! _ := runPrebuildHooks run (runPhases opts) in yield []
  else runWithWaitFor run (runPhases opts) (effectiveWaitFor mc opts).
Lemma RunPreAttachHooks_parts opts s :
  (exists e, RunPreAttachHooks run setupInfo mc cd opts s = (s, inl (Failed e)) /\ Terminal opts = true) \/
  exists s1 ev1 ev2, trace s1 = trace s ++ ev1 ++ ev2 /\ markerFiles s1 = markerFiles s /\
    assigned run (excludedState opts) (phasesOf opts) ev1 (inr ()) /\
    assigned run (plannedState opts) (filterSkippedPhases (phasesOf opts) (Skip opts)) ev2 (inr ()) /\
    RunPreAttachHooks run setupInfo mc cd opts s = runPart opts s1.
Proof.
  unfold RunPreAttachHooks. destruct (Terminal opts).
  1: destruct (ValidateInteractivePostStart _) as [e|]; [left; by exists e|].
  all: right; rewrite bindGo_run.
  all: destruct (recordExcludedPhases_spec opts (phasesOf opts) (phases_good opts)
      (increasing_NoDup _ (phases_increasing opts)) s) as (ev1 & Ht1 & Hm1 & Ha1).
  all: destruct (recordExcludedPhases run (phasesOf opts) opts s) as [s0 x]; cbn in *; pose proof Ha1 as [-> _]; rewrite bindGo_run.
  all: destruct (planPhases_spec opts (filterSkippedPhases (phasesOf opts) (Skip opts))) with s0 as (ev2 & Ht2 & Hm2 & Hr2 & Ha2);
    [apply Forall_kept, phases_good|apply increasing_NoDup, increasing_filter, phases_increasing|].
  all: destruct (planPhases run _ (Prebuild opts) s0) as [s1 y]; cbn in *; subst y; exists s1, ev1, ev2.
  all: split_and!; [by rewrite Ht2, Ht1, (assoc_L (++))|congruence|done|done|done].
Qed.
End Setup.

(** ** What is recorded *)

Section Accounts.
Context `{HW : HookWorld} `{HL : !HookLaws} (run : option string).
Context (setupInfo : Result) (mc : MergedDevContainerConfig) (cd : ContainerDetails).
Abbreviation phasesOf := (allPhases setupInfo mc cd).
Abbreviation kept opts := (runPhases setupInfo mc cd opts).

(** Every command of the phase has an outcome. *)
Definition accountedPhase (tr : History) (ph : phaseHook) : Prop :=
  forall i h key, pCommands (phParams ph) !! i = Some h -> is_Some (h !! key) -> settledIn tr (phPhase ph) (i, key).
Definition accounted (opts : PreAttachOptions) (tr : History) : Prop :=
  forall ph, ph ∈ phasesOf opts -> phRunFunc ph = None -> accountedPhase tr ph.

Lemma accounted_settled tr ph : (forall c, c ∈ phCells ph -> settledIn tr (phPhase ph) c) <-> accountedPhase tr ph.
Proof.
  unfold accountedPhase, phCells. setoid_rewrite cells_from. split.
  - intros Hs i h key Hi Hk. apply Hs. split; [apply Nat.le_0_l|]. by exists h.
  - intros Hs [i key] (_ & h & Hi & Hk). by eapply Hs.
Qed.
(** Is a phase run, rather than left out? *)
Definition toRun (opts : PreAttachOptions) (ph : phaseHook) : Prop :=
  isSkipped (Skip opts) (phPhase ph) = false /\ Prebuild opts && prebuildExcluded (phPhase ph) = false.

(** Phases that are left out are settled before the others run; a phase that is
    run has its record. *)
Lemma left_out_settled opts s ev1 ev2 ph : is_Some run ->
  assigned run (excludedState opts) (phasesOf opts) ev1 (inr ()) ->
  assigned run (plannedState opts) (filterSkippedPhases (phasesOf opts) (Skip opts)) ev2 (inr ()) ->
  ph ∈ phasesOf opts -> phRunFunc ph = None -> ~ toRun opts ph -> accountedPhase (trace s ++ ev1 ++ ev2) ph.
Proof.
  intros Hrun (_ & _ & _ & H1) (_ & _ & Ho2 & H2) Hin Hf Hout. apply accounted_settled. intros c Hc.
  apply settled_app_r. pose proof (phases_good setupInfo mc cd opts) as Hgood. rewrite Forall_forall in Hgood.
  pose proof (good_recording run cd opts ph Hrun (Hgood ph Hin) Hf) as Hrec. specialize (H1 ph Hin).
  assert (Hx : isSkipped (Skip opts) (phPhase ph) || (Prebuild opts && prebuildExcluded (phPhase ph)) = true).
  { unfold toRun in Hout. destruct (isSkipped _ _), (_ && _); try done. by destruct Hout. }
  unfold excludedState in H1. rewrite <- orb_assoc, Hx, orb_true_r in H1. apply settled_app_l; [eexists; split; [by apply H1|done]|].
  destruct (isSkipped (Skip opts) (phPhase ph)) eqn:Hsk.
  - apply Ho2. intros (ph' & E & [Hsk' _]%list_elem_of_filter)%list_elem_of_fmap. congruence.
  - cbn in Hx. specialize (H2 ph). unfold plannedState in H2. rewrite Hx in H2. apply H2. by apply list_elem_of_filter.
Qed.
Lemma kept_planned opts ph : ph ∈ phasesOf opts -> isSkipped (Skip opts) (phPhase ph) = false -> planned ph ∈ kept opts.
Proof. intros Hin Hsk. apply list_elem_of_fmap_2. by apply list_elem_of_filter. Qed.
(** Running some phases accounts for them and leaves the records of others. *)
Lemma ran_accounted opts tr all ev ph : is_Some run -> Terminal opts = false -> ranPhases run all ev ->
  ph ∈ phasesOf opts -> phRunFunc ph = None ->
  (planned ph ∈ all \/ (phPhase ph ∉ map phPhase all /\ accountedPhase tr ph)) -> accountedPhase (tr ++ ev) ph.
Proof.
  intros Hrun Hterm [Ho _ _ _ Hs] Hin Hf Hall. apply accounted_settled. intros c Hc.
  pose proof (phases_good setupInfo mc cd opts) as Hgood. rewrite Forall_forall in Hgood.
  pose proof (Hgood ph Hin) as Hg. pose proof (good_recording run cd opts ph Hrun Hg Hf) as Hrec.
  destruct Hall as [Hall|[Hall Hacc]].
  - apply settled_app_r. apply (Hs (planned ph) Hall); [by apply Hg|done|done].
  - apply settled_app_l; [by apply accounted_settled|by apply Ho].
Qed.
Lemma not_kept_phase opts ph all : (forall x, x ∈ map phPhase all -> x ∈ map phPhase (kept opts)) ->
  isSkipped (Skip opts) (phPhase ph) = true -> phPhase ph ∉ map phPhase all.
Proof. intros Hsub Hsk Hin. apply Hsub, elem_of_runPhases in Hin as [_ Hin]. congruence. Qed.

(** Both ways of running the phases that are kept. *)
Lemma prebuild_accounted opts s0 : is_Some run -> Terminal opts = false -> Prebuild opts = true ->
  (forall ph, ph ∈ phasesOf opts -> phRunFunc ph = None -> ~ toRun opts ph -> accountedPhase (trace s0) ph) ->
  accounted opts (trace (runPrebuildHooks run (kept opts) s0).1) /\ (runPrebuildHooks run (kept opts) s0).2 <> inl OutOfFuel.
Proof.
  intros Hrun Hterm Hpre Hout. pose proof (good_ok cd opts _ (runPhases_good setupInfo mc cd opts)) as Hok.
  destruct (runPrebuildHooks_ran run (kept opts) Hok (runPhases_increasing setupInfo mc cd opts) s0) as (ev & -> & Hran & Hr).
  split; [|done]. intros ph Hin Hf. eapply ran_accounted; [done..|].
  destruct (isSkipped (Skip opts) (phPhase ph)) eqn:Hsk.
  - right. split; [|apply Hout; [done..|]; unfold toRun; rewrite Hsk; by intros [? _]].
    apply (not_kept_phase opts); [|done]. intros x (ph' & -> & [_ Hx]%list_elem_of_filter)%list_elem_of_fmap. by apply list_elem_of_fmap_2.
  - destruct (prebuildExcluded (phPhase ph)) eqn:Hx.
    + right. split; [|apply Hout; [done..|]; unfold toRun; rewrite Hsk, Hpre, Hx; by intros [_ ?]].
      intros (ph' & E & [Hx' _]%list_elem_of_filter)%list_elem_of_fmap. unfold inPrebuild in Hx'. congruence.
    + left. apply list_elem_of_filter. split; [done|by apply kept_planned].
Qed.
(** A phase among those kept is in the one or the other part of them. *)
Lemma kept_either opts pre rest ph : kept opts = pre ++ rest -> ph ∈ phasesOf opts ->
  (isSkipped (Skip opts) (phPhase ph) = true /\ phPhase ph ∉ map phPhase pre /\ phPhase ph ∉ map phPhase rest) \/
  (planned ph ∈ pre /\ phPhase ph ∉ map phPhase rest) \/ (planned ph ∈ rest /\ phPhase ph ∉ map phPhase pre).
Proof.
  intros Hall Hin. destruct (isSkipped (Skip opts) (phPhase ph)) eqn:Hsk.
  { left. split; [done|]. split; apply (not_kept_phase opts); [|done| |done]; intros x Hx; rewrite Hall, map_app; set_solver. }
  right. pose proof (increasing_NoDup _ (runPhases_increasing setupInfo mc cd opts)) as Hnd. rewrite Hall, map_app in Hnd.
  apply NoDup_app in Hnd as (_ & Hdis & _). pose proof (kept_planned opts ph Hin Hsk) as Hk. rewrite Hall in Hk.
  assert (Hphase : forall l, planned ph ∈ l -> phPhase ph ∈ map phPhase l) by (intros l Hl; apply list_elem_of_fmap; by exists (planned ph)).
  apply elem_of_app in Hk as [Hk|Hk]; [left|right]; (split; [done|]); intros Hx; eapply Hdis; eauto.
Qed.
Lemma waiting_accounted opts s0 : is_Some run -> Terminal opts = false ->
  (forall ph, ph ∈ phasesOf opts -> phRunFunc ph = None -> isSkipped (Skip opts) (phPhase ph) = true -> accountedPhase (trace s0) ph) ->
  let '(s1, r) := runWithWaitFor run (kept opts) (effectiveWaitFor mc opts) s0 in
  match r with
  | inl OutOfFuel => False
  | inl (Failed _) => accounted opts (trace s1)
  | inr rest =>
      (forall ph, ph ∈ phasesOf opts -> phRunFunc ph = None -> phPhase ph ∉ map phPhase rest -> accountedPhase (trace s1) ph) /\
      let '(s2, r2) := runDeferred run rest s1 in r2 <> inl OutOfFuel /\ accounted opts (trace s2)
  end.
Proof.
  intros Hrun Hterm Hsk. pose proof (good_ok cd opts _ (runPhases_good setupInfo mc cd opts)) as Hok.
  pose proof (runPhases_increasing setupInfo mc cd opts) as Hi.
  destruct (runWithWaitFor_ran run (effectiveWaitFor mc opts) (kept opts) s0 Hok Hi) as (ev & Ht1 & Hu); [by apply phases_not_initialize|].
  destruct (runWithWaitFor run (kept opts) (effectiveWaitFor mc opts) s0) as [s1 [[e|]|rest]]; cbn [fst snd] in *; [|done|].
  - rewrite Ht1. intros ph Hin Hf. eapply ran_accounted; [done..|].
    destruct (kept_either opts (kept opts) [] ph) as [(Hs & Hn & _)|[[? _]|[Hn _]]]; [by rewrite app_nil_r|done|right; by auto|by left|set_solver].
  - destruct Hu as (pre & ev3 & ev4 & -> & Hall & Hpre' & (_ & _ & Ho4 & _) & _).
    assert (Hnow : forall ph, ph ∈ phasesOf opts -> phRunFunc ph = None -> phPhase ph ∉ map phPhase rest -> accountedPhase (trace s1) ph).
    { intros ph Hin Hf Hn. rewrite Ht1, (assoc_L (++)). apply accounted_settled. intros c Hc. apply settled_app_l; [|by apply Ho4].
      revert c Hc. apply accounted_settled. eapply ran_accounted; [done..|].
      destruct (kept_either opts pre rest ph Hall Hin) as [(Hs & Hn' & _)|[[? _]|[Hr _]]]; [right; by auto|by left|].
      exfalso. apply Hn. apply list_elem_of_fmap. by exists (planned ph). }
    split; [exact Hnow|]. rewrite Hall in Hok, Hi. apply Forall_app in Hok as [_ Hokr]. apply StronglySorted_app_1_r in Hi.
    destruct (runDeferred_ran run rest Hokr Hi s1) as (ev5 & Ht2 & Hran5 & Hr5).
    destruct (runDeferred run rest s1) as [s2 r2]. cbn [fst snd] in *. split; [done|]. rewrite Ht2. intros ph Hin Hf.
    eapply ran_accounted; [done..|]. destruct (kept_either opts pre rest ph Hall Hin) as [(_ & _ & Hn)|[[_ Hn]|[Hr _]]]; [right; by auto..|by left].
Qed.

(** C27: In a setup that records its progress and is not interactive ([Terminal] is
    false), no command is lost track of: when the setup fails, every command of
    every phase has been recorded as succeeded, failed, canceled or skipped; when it
    returns, that holds of all phases but the deferred ones, and of these too once
    they have been run.  Such setups end.  (An interactive setup may leave a command
    pending for good: the example [left_pending].) *)
Theorem commands_accounted opts s : is_Some run -> Terminal opts = false ->
  let '(s1, r) := RunPreAttachHooks run setupInfo mc cd opts s in
  match r with
  | inl OutOfFuel => False
  | inl (Failed _) => accounted opts (trace s1)
  | inr deferred =>
      (forall ph, ph ∈ phasesOf opts -> phRunFunc ph = None -> phPhase ph ∉ map phPhase deferred -> accountedPhase (trace s1) ph) /\
      let '(s2, r2) := runDeferred run deferred s1 in r2 <> inl OutOfFuel /\ accounted opts (trace s2)
  end.
Proof.
  intros Hrun Hterm. destruct (RunPreAttachHooks_parts run setupInfo mc cd opts s) as [(e & _ & Ht)|(s0 & ev1 & ev2 & Ht & _ & H1 & H2 & E)];
    [congruence|]. rewrite E. clear E.
  assert (Hout : forall ph, ph ∈ phasesOf opts -> phRunFunc ph = None -> ~ toRun opts ph -> accountedPhase (trace s0) ph).
  { intros ph Hin Hf Hn. rewrite Ht. by eapply left_out_settled. }
  unfold runPart. destruct (Prebuild opts) eqn:Hpre.
  - rewrite bindGo_run. destruct (prebuild_accounted opts s0 Hrun Hterm Hpre Hout) as [Hacc Hr].
    destruct (runPrebuildHooks run (kept opts) s0) as [s1 [[e|]|[]]]; cbn [fst snd] in *; [done|done|].
    split; [intros ph Hin Hf _; by apply Hacc|]. by split.
  - apply waiting_accounted; [done..|]. intros ph Hin Hf Hs. apply Hout; [done..|]. unfold toRun. rewrite Hs. by intros [? _].
Qed.
End Accounts.

(** ** Order *)

Section Order.
Context `{HW : HookWorld} `{HL : !HookLaws} (run : option string).
Context (setupInfo : Result) (mc : MergedDevContainerConfig) (cd : ContainerDetails).
Abbreviation kept opts := (runPhases setupInfo mc cd opts).

Lemma resolveWaitFor_valid raw floor : validWaitForPhase (resolveWaitFor raw floor) = true.
Proof.
  unfold resolveWaitFor. destruct (validWaitForPhase floor) eqn:Hf; cbn [andb]; [case_match; [done|]|];
    by destruct (validWaitForPhase raw) eqn:Hr.
Qed.
Lemma effectiveWaitFor_cases opts : effectiveWaitFor mc opts = PhaseInitializeCommand \/
  effectiveWaitFor mc opts = PhasePostAttach \/ effectiveWaitFor mc opts ∈ map phPhase (allPhases setupInfo mc cd opts).
Proof.
  rewrite phases_shape. unfold effectiveWaitFor. set (w := resolveWaitFor _ _). pose proof (resolveWaitFor_valid (WaitFor (mgBase mc))
    (if Terminal opts then resolveWaitFor (WaitForFloor opts) PhasePostStart else WaitForFloor opts)) as Hv. fold w in Hv.
  assert (Hw : w = PhaseInitializeCommand \/ w ∈ phaseOrder).
  { unfold validWaitForPhase in Hv. apply orb_true_iff in Hv as [?%bool_decide_eq_true|?%bool_decide_eq_true]; auto. }
  unfold promoteDotfilesWaitFor, hasDotfiles. case_bool_decide; cbn [negb].
  - destruct Hw as [Hw|Hw]; [by left|]. right. unfold phaseOrder in Hw. set_solver.
  - case_bool_decide; [by left|]. destruct Hw as [?|Hw]; [done|]. right.
    case_match; [unfold phaseOrder in Hw; set_solver|right; set_solver].
Qed.

Lemma kept_index opts a : a ∈ map phPhase (kept opts) -> 0 <= phaseIndex a <= 4.
Proof.
  intros [Ha _]%elem_of_runPhases. rewrite phases_shape in Ha.
  assert (Hin : a ∈ [PhaseOnCreate; PhaseUpdateContent; PhasePostCreate; PhaseDotfiles; PhasePostStart]).
  { destruct (hasDotfiles opts); cbn in Ha; set_solver. }
  repeat (apply elem_of_cons in Hin as [->|Hin]; [vm_compute; split; discriminate|]). by apply elem_of_nil in Hin.
Qed.
Lemma increasing_app_lt pre rest a b : increasing (pre ++ rest) -> a ∈ map phPhase pre -> b ∈ map phPhase rest -> phaseIndex a < phaseIndex b.
Proof.
  intros Hi (x & -> & Hx)%list_elem_of_fmap (y & -> & Hy)%list_elem_of_fmap.
  by apply (StronglySorted_app_1_elem_of _ _ _ _ _ Hi).
Qed.
(** The phases before and behind what is waited for. *)
Lemma split_at_wait opts w pre rest a : kept opts = pre ++ rest -> w ∈ map phPhase (kept opts) ->
  (exists pre' ph, pre = pre' ++ [ph] /\ phPhase ph = w) ->
  (a ∈ map phPhase pre -> phaseIndex a <= phaseIndex w) /\ (a ∈ map phPhase rest -> phaseIndex w < phaseIndex a).
Proof.
  intros Hall _ (pre' & ph & -> & <-). pose proof (runPhases_increasing setupInfo mc cd opts) as Hi. rewrite Hall in Hi. split.
  - rewrite map_app, elem_of_app. intros [Ha|Ha%list_elem_of_singleton]; [|subst; lia]. apply StronglySorted_app_1_l in Hi.
    assert (phaseIndex a < phaseIndex (phPhase ph)); [|lia]. apply (increasing_app_lt pre' [ph]); [done..|]. cbn. set_solver.
  - intros Ha. apply (increasing_app_lt (pre' ++ [ph]) rest); [done| |done]. rewrite map_app. set_solver.
Qed.
Lemma assigned_starts st all ev r : assigned run st all ev r -> starts ev = [].
Proof. by intros (_ & ? & _). Qed.

(** Parts of a history that start phases of two lists in order. *)
Lemma ran_in_order pre rest ev1 ev2 : increasing (pre ++ rest) -> ranPhases run pre ev1 -> ranPhases run rest ev2 ->
  NoDup (starts (ev1 ++ ev2)) /\ StronglySorted posLe (starts (ev1 ++ ev2)).
Proof.
  intros Hi [_ Hf1 Hn1 Ho1 _] [_ Hf2 Hn2 Ho2 _].
  assert (Hlt : forall x y, x ∈ starts ev1 -> y ∈ starts ev2 -> phaseIndex x.1 < phaseIndex y.1).
  { intros x y Hx%Hf1 Hy%Hf2. by apply (increasing_app_lt pre rest). }
  rewrite starts_app. split.
  - apply NoDup_app. split_and!; [done| |done]. intros x Hx Hy. specialize (Hlt x x Hx Hy). lia.
  - apply StronglySorted_app_2; [|done..]. intros x y Hx Hy. left. by apply Hlt.
Qed.

(** What the commands of a setup promise of the phase [w] that is waited for. *)
Definition waitsFor (w : LifecyclePhase) (before after : History) : Prop :=
  (forall x, x ∈ starts before -> phaseIndex x.1 <= phaseIndex w) /\ (forall x, x ∈ starts after -> phaseIndex w < phaseIndex x.1).

(** C28: a setup and its deferred phases start the commands in the order of the
    phases and of the hooks of a phase, each once; the setup returns after the
    phase it waits for, if that is not skipped: what it starts itself belongs to
    that phase or an earlier one, what it defers to later ones.  When it prepares
    an image it starts only what a prebuild may. *)
Theorem lifecycle_order opts s s1 deferred s2 r :
  RunPreAttachHooks run setupInfo mc cd opts s = (s1, inr deferred) -> runDeferred run deferred s1 = (s2, r) ->
  exists before after, trace s1 = trace s ++ before /\ trace s2 = trace s1 ++ after /\
    NoDup (starts (before ++ after)) /\ StronglySorted posLe (starts (before ++ after)) /\
    (Prebuild opts = false -> isSkipped (Skip opts) (effectiveWaitFor mc opts) = false -> waitsFor (effectiveWaitFor mc opts) before after) /\
    (Prebuild opts = true -> forall x, x ∈ starts (before ++ after) -> prebuildExcluded x.1 = false).
Proof.
  intros HR HD. destruct (RunPreAttachHooks_parts run setupInfo mc cd opts s) as [(e & E & _)|(s0 & ev1 & ev2 & Ht & _ & H1 & H2 & E)];
    [congruence|]. rewrite E in HR. clear E. apply assigned_starts in H1 as Hs1. apply assigned_starts in H2 as Hs2.
  pose proof (good_ok cd opts _ (runPhases_good setupInfo mc cd opts)) as Hok. pose proof (runPhases_increasing setupInfo mc cd opts) as Hi.
  unfold runPart in HR. destruct (Prebuild opts).
  - rewrite bindGo_run in HR. destruct (runPrebuildHooks_ran run (kept opts) Hok Hi s0) as (ev & Ht1 & [_ Hf Hn Ho _] & Hr).
    destruct (runPrebuildHooks run (kept opts) s0) as [s1' [f|[]]]; [done|]. injection HR as <- <-. injection HD as <- _.
    exists (ev1 ++ ev2 ++ ev), []. rewrite !app_nil_r. cbn [fst] in Ht1. split_and!; [by rewrite Ht1, Ht, <- !(assoc_L (++))|done|..];
      rewrite ?starts_app, ?Hs1, ?Hs2; cbn [app]; [done|done|done|].
    intros _ x Hx. apply Hf in Hx. apply list_elem_of_fmap in Hx as (ph & -> & [Hp _]%list_elem_of_filter). done.
  - destruct (runWithWaitFor_ran run (effectiveWaitFor mc opts) (kept opts) s0 Hok Hi) as (ev & Ht1 & Hu); [by apply phases_not_initialize|].
    rewrite HR in Ht1, Hu. cbn [fst snd ranUntil] in *. destruct Hu as (pre & ev3 & ev4 & -> & Hall & Hpre & Hdef & Hlast & Hinit & Hnever).
    apply assigned_starts in Hdef as Hs4. rewrite Hall in Hok, Hi. apply Forall_app in Hok as [_ Hokr].
    pose proof Hi as Hir. apply StronglySorted_app_1_r in Hir. destruct (runDeferred_ran run deferred Hokr Hir s1) as (ev5 & Ht2 & Hdefd & _).
    rewrite HD in Ht2. cbn [fst] in Ht2. exists (ev1 ++ ev2 ++ ev3 ++ ev4), ev5.
    assert (Hstarts : starts (ev1 ++ ev2 ++ ev3 ++ ev4) = starts ev3) by by rewrite !starts_app, Hs1, Hs2, Hs4, app_nil_r.
    destruct (ran_in_order pre deferred ev3 ev5 Hi Hpre Hdefd) as [Hn Ho]. rewrite starts_app in Hn, Ho.
    split_and!; [by rewrite Ht1, Ht, <- !(assoc_L (++))|done|by rewrite starts_app, Hstarts..| |done].
    intros _ Hsk. unfold waitsFor. rewrite Hstarts. destruct Hpre as [_ Hf3 _ _ _], Hdefd as [_ Hf5 _ _ _].
    destruct (effectiveWaitFor_cases opts) as [Hw|[Hw|Hw]].
    + rewrite (Hinit Hw) in *. cbn in Hall. rewrite Hw. split; [intros x Hx%Hf3; set_solver|]. intros x Hx%Hf5.
      rewrite <- Hall in Hx. apply kept_index in Hx. change (phaseIndex PhaseInitializeCommand) with (-1). lia.
    + assert (Hrest : deferred = []).
      { apply Hnever; [by rewrite Hw|]. rewrite Hw. intros Hx%kept_index. change (phaseIndex PhasePostAttach) with 5 in Hx. lia. }
      rewrite Hrest in *. rewrite app_nil_r in Hall. rewrite Hw. split; [|intros x Hx%Hf5; set_solver]. intros x Hx%Hf3.
      rewrite <- Hall in Hx. apply kept_index in Hx. change (phaseIndex PhasePostAttach) with 5. lia.
    + assert (Hin : effectiveWaitFor mc opts ∈ map phPhase (kept opts)) by by apply elem_of_runPhases.
      specialize (Hlast Hin). split; intros x Hx; eapply (split_at_wait opts _ pre deferred); eauto.
Qed.
End Order.

(** ** Once *)

(** A setup: the recorder of its run, what it is given, the container as it finds
    it, and its options. *)
Record Setup := mkSetup {
  suRun : option string;
  suInfo : Result;
  suConfig : MergedDevContainerConfig;
  suContainer : ContainerDetails;
  suOptions : PreAttachOptions;
}.
(** What a phase runs once for: the start of the container, or its creation; a
    prebuild updates the content for nothing in particular, that is every time. *)
Definition occasion (phase : LifecyclePhase) (su : Setup) : string :=
  if bool_decide (phase = PhasePostStart) then StartedAt (suContainer su)
  else if bool_decide (phase = PhaseUpdateContent) && Prebuild (suOptions su) then ""
  else Created (suContainer su).
Definition fivePhases : list LifecyclePhase := [PhaseOnCreate; PhaseUpdateContent; PhasePostCreate; PhaseDotfiles; PhasePostStart].
Definition oneOccasion (l : list Setup) (phase : LifecyclePhase) : Prop :=
  phase ∈ fivePhases /\ exists c, c <> "" /\ forall su, su ∈ l -> occasion phase su = c.

Section Once.
Context `{HW : HookWorld} `{HL : !HookLaws}.

(** A setup and what it defers, whatever comes of them. *)
Definition session (su : Setup) : Go HookState () :=
  go! deferred := RunPreAttachHooks (suRun su) (suInfo su) (suConfig su) (suContainer su) (suOptions su) in
  runDeferred (suRun su) deferred.
Definition sessions (l : list Setup) (s : HookState) : HookState := foldl (fun s su => (session su s).1) s l.

Definition markerName (phase : LifecyclePhase) : string :=
  (markerOf (mkDetails "" "" "" ∅) (mkPreAttach false (mkDotfiles "" "" "") [] [] (mkSkip false false false) "" false) phase).1.
Lemma marker_occasion su phase : phase ∈ fivePhases ->
  markerOf (suContainer su) (suOptions su) phase = (markerName phase, occasion phase su).
Proof.
  intros Hp. unfold markerOf, occasion, markerName, fivePhases in *.
  repeat (apply elem_of_cons in Hp as [->|Hp]; [cbn; by destruct (Prebuild (suOptions su))|]). by apply elem_of_nil in Hp.
Qed.
Lemma markerName_inj a b : a ∈ fivePhases -> b ∈ fivePhases -> markerName a = markerName b -> a = b.
Proof.
  intros Ha Hb. unfold fivePhases in *.
  repeat (apply elem_of_cons in Ha as [->|Ha]; [repeat (apply elem_of_cons in Hb as [->|Hb]; [done|]); by apply elem_of_nil in Hb|]).
  by apply elem_of_nil in Ha.
Qed.

(** What was started of [phase] since [base] has its marker, and was started once. *)
Section Phase.
Variables (phase : LifecyclePhase) (content : string) (base : list (string * cell)).
Hypotheses (Hphase : phase ∈ fivePhases) (Hcontent : content <> "").
Abbreviation ofPhase := (base.filter (fun x : string * cell => x.1 = phase)).
Definition onceState (s : HookState) : Prop := exists new,
  starts (trace s) = base ++ new /\ NoDup (ofPhase new) /\
  (ofPhase new <> [] -> markerFiles s !! markerName phase = Some content).
Definition preserves {A} (m : Go HookState A) : Prop := forall s, onceState s -> onceState (m s).1.

Lemma preserves_bind {A B} (m : Go HookState A) (k : A -> Go HookState B) :
  preserves m -> (forall s a, (m s).2 = inr a -> preserves (k a)) -> preserves (bindGo m k).
Proof.
  intros Hm Hk s Hs. rewrite bindGo_run. specialize (Hm s Hs). specialize (Hk s).
  destruct (m s) as [s1 [f|a]]; [done|]. by apply Hk.
Qed.
Lemma preserves_yield {A} (a : A) : preserves (yield a).
Proof. by intros s. Qed.
Lemma preserves_refuse {A} e : preserves (refuse (A:=A) e).
Proof. by intros s. Qed.
Lemma preserves_quiet {A} (m : Go HookState A) (R : History -> failure + A -> Prop) :
  quietly m R -> (forall ev r, R ev r -> starts ev = []) -> preserves m.
Proof.
  intros Hm HR s (new & Hb & Hn & Hs). destruct (Hm s) as (ev & Ht & Hmk & Hr). exists new.
  rewrite Ht, Hmk, starts_app, (HR ev _ Hr), app_nil_r. done.
Qed.

(** A phase with its marker. *)
Record guarded (ph : phaseHook) : Prop := {
  gd_ok : phaseOK ph;
  gd_phase : phPhase ph ∈ fivePhases;
  gd_marker : pName (phParams ph) = markerName (phPhase ph);
  gd_content : phPhase ph = phase -> pContent (phParams ph) = content;
}.
Lemma preserves_phase run ph : guarded ph -> preserves (runPhaseHook run ph).
Proof.
  intros [Hok Hph Hname Hcn] s (new & Hb & Hn & Hs).
  destruct (runPhaseHook_ran run ph s Hok) as (ev & Ht & [_ Hf Hone _ _] & _ & [Hko Hkm] & Hst).
  assert (Hfrom : forall x, x ∈ starts ev -> x.1 = phPhase ph) by (intros x Hx%Hf; cbn in Hx; by apply list_elem_of_singleton in Hx).
  exists (new ++ starts ev). rewrite Ht, starts_app, Hb, <- (assoc_L (++)), filter_app. split; [done|].
  destruct (decide (phPhase ph = phase)) as [E|E].
  - specialize (Hcn E). rewrite Hname, Hcn, E in *. split.
    + apply NoDup_app. split_and!; [done| |by apply NoDup_filter]. intros x Hx Hx'.
      destruct Hst as [_ Hnot]; [intros E'; rewrite E' in Hx'; by apply elem_of_nil in Hx'|]. apply Hnot; [done|].
      apply Hs. intros E'. rewrite E' in Hx. by apply elem_of_nil in Hx.
    + intros Hne. destruct (decide (starts ev = [])) as [Hev|Hev]; [|by apply Hst].
      apply Hkm, Hs. by rewrite Hev, app_nil_r in Hne.
  - assert (Hnone : ofPhase (starts ev) = []).
    { destruct (ofPhase (starts ev)) as [|x l] eqn:Hl; [done|]. assert (Hx : x ∈ ofPhase (starts ev)) by (rewrite Hl; left).
      apply list_elem_of_filter in Hx as [Hx Hin]. destruct E. rewrite <- Hx. symmetry. by apply Hfrom. }
    rewrite Hnone, app_nil_r. split; [done|]. intros Hne. rewrite Hko; [by apply Hs|].
    rewrite Hname. intros E'. by apply E, markerName_inj.
Qed.
Lemma preserves_record run rest : Forall phaseOK rest -> NoDup (map phPhase rest) -> preserves (recordNotReached run rest).
Proof. intros Hok Hnd. eapply preserves_quiet; [by apply recordNotReached_spec|]. intros ev r. apply assigned_starts. Qed.
Lemma guarded_ok all : Forall guarded all -> Forall phaseOK all.
Proof. intros Hg. eapply Forall_impl; [exact Hg|]. by intros ? []. Qed.
Lemma preserves_step run ph rest : guarded ph -> Forall guarded rest -> increasing (ph :: rest) ->
  preserves (orSkipRest run rest (runPhaseHook run ph)).
Proof.
  intros Hg Hr Hi s Hs. unfold orSkipRest. pose proof (preserves_phase run ph Hg s Hs) as H1.
  destruct (runPhaseHook run ph s) as [s1 [[e|]|[]]]; [|done..].
  apply (preserves_bind (recordNotReached run rest) (fun _ => refuse e)); [|intros; apply preserves_refuse|done].
  apply preserves_record; [by apply guarded_ok|]. apply increasing_NoDup. by eapply increasing_tail.
Qed.
Lemma preserves_deferred run all : Forall guarded all -> increasing all -> preserves (runDeferred run all).
Proof.
  induction all as [|ph rest IH]; intros Hg Hi; cbn [runDeferred]; [apply preserves_yield|].
  apply Forall_cons in Hg as [Hg Hr]. apply preserves_bind; [by apply preserves_step|]. intros _ _ _. apply IH; [done|by eapply increasing_tail].
Qed.
Lemma preserves_prebuild run all : Forall guarded all -> increasing all -> preserves (runPrebuildHooks run all).
Proof.
  induction all as [|ph rest IH]; intros Hg Hi; cbn [runPrebuildHooks]; [apply preserves_yield|].
  apply Forall_cons in Hg as [Hg Hr]. assert (IH' := IH Hr (increasing_tail _ _ Hi)). case_match eqn:Hx; [done|].
  apply preserves_bind; [|done]. apply preserves_step; [done|by apply Forall_kept|].
  change (increasing (ph :: filter inPrebuild rest)). replace (ph :: filter inPrebuild rest) with (filter inPrebuild (ph :: rest)).
  - by apply increasing_filter.
  - rewrite filter_cons. by rewrite decide_True.
Qed.
Lemma preserves_defer run rest : Forall guarded rest -> increasing rest -> preserves (deferAll run rest).
Proof.
  intros Hg Hi. eapply preserves_quiet; [apply deferAll_spec; [by apply guarded_ok|by apply increasing_NoDup]|intros ev r; apply assigned_starts].
Qed.
Lemma preserves_until run w all : Forall guarded all -> increasing all -> preserves (runUntil run all w).
Proof.
  induction all as [|ph rest IH]; intros Hg Hi; cbn [runUntil]; [apply preserves_yield|].
  apply Forall_cons in Hg as [Hg Hr]. apply preserves_bind; [by apply preserves_step|]. intros _ _ _.
  case_bool_decide; [|apply IH; [done|by eapply increasing_tail]].
  apply preserves_bind; [apply preserves_defer; [done|by eapply increasing_tail]|]. intros _ _ _. apply preserves_yield.
Qed.
Lemma preserves_waiting run w all : Forall guarded all -> increasing all -> preserves (runWithWaitFor run all w).
Proof.
  intros Hg Hi. unfold runWithWaitFor. case_bool_decide; [|by apply preserves_until].
  apply preserves_bind; [by apply preserves_defer|]. intros _ _ _. apply preserves_yield.
Qed.

Lemma phases_guarded su : occasion phase su = content ->
  Forall guarded (runPhases (suInfo su) (suConfig su) (suContainer su) (suOptions su)).
Proof.
  intros Hocc. pose proof (runPhases_good (suInfo su) (suConfig su) (suContainer su) (suOptions su)) as Hgood.
  rewrite Forall_forall in *. intros ph Hin. destruct (Hgood ph Hin) as [Hok _ _ Hm].
  assert (Hp : phPhase ph ∈ fivePhases).
  { assert (Hp : phPhase ph ∈ map phPhase (runPhases (suInfo su) (suConfig su) (suContainer su) (suOptions su)))
      by by apply list_elem_of_fmap_2.
    apply elem_of_runPhases in Hp as [Hp _]. rewrite phases_shape in Hp. unfold fivePhases.
    destruct (hasDotfiles (suOptions su)); cbn in Hp; set_solver. }
  rewrite (marker_occasion su _ Hp) in Hm. injection Hm as Hn Hc.
  split; [done|done|done|]. intros E. by rewrite Hc, E.
Qed.
Lemma session_preserves su : occasion phase su = content -> preserves (session su).
Proof.
  intros Hocc s (new & Hb & Hn & Hs). unfold session.
  pose proof (phases_guarded su Hocc) as Hg. pose proof (runPhases_increasing (suInfo su) (suConfig su) (suContainer su) (suOptions su)) as Hi.
  rewrite bindGo_run. destruct (RunPreAttachHooks_parts (suRun su) (suInfo su) (suConfig su) (suContainer su) (suOptions su) s)
    as [(e & -> & _)|(s0 & ev1 & ev2 & Ht & Hm & H1 & H2 & ->)]; [by exists new|].
  assert (Hs0 : onceState s0).
  { apply assigned_starts in H1, H2. exists new. by rewrite Ht, Hm, !starts_app, H1, H2, app_nil_r. }
  unfold runPart. destruct (Prebuild (suOptions su)).
  { rewrite bindGo_run. pose proof (preserves_prebuild (suRun su) _ Hg Hi s0 Hs0) as Hp.
    by destruct (runPrebuildHooks (suRun su) _ s0) as [s1 [f|[]]]. }
  pose proof (preserves_waiting (suRun su) (effectiveWaitFor (suConfig su) (suOptions su)) _ Hg Hi s0 Hs0) as Hpart.
  destruct (runWithWaitFor_ran (suRun su) (effectiveWaitFor (suConfig su) (suOptions su)) _ s0 (guarded_ok _ Hg) Hi) as (ev & _ & Hu);
    [by apply phases_not_initialize|].
  destruct (runWithWaitFor (suRun su) _ _ s0) as [s1 [f|rest]]; [done|]. cbn [fst snd ranUntil] in *.
  destruct Hu as (pre & _ & _ & _ & Hall & _). rewrite Hall in Hg, Hi. apply Forall_app in Hg as [_ Hg].
  apply StronglySorted_app_1_r in Hi. by apply preserves_deferred.
Qed.
End Phase.

(** C29: over any number of setups of containers, with whatever configurations and
    options, interrupted and failed ones and prebuilds included, no command of a
    phase (nor the dotfiles) is started twice for one occasion: whenever the setups
    agree on what the phase runs once for, each of its commands is started at most
    once.  The occasion of [postStartCommand] is the start of the container, so that
    it runs again after a restart; that of the other phases is the creation of the
    container, but a prebuild updates the content on no occasion: it does so again
    every time. *)
Theorem hooks_once l s phase : oneOccasion l phase ->
  exists new, starts (trace (sessions l s)) = starts (trace s) ++ new /\
    NoDup (base.filter (fun x : string * cell => x.1 = phase) new).
Proof.
  intros (Hp & c & Hc & Hl). enough (H0 : onceState phase c (starts (trace s)) (sessions l s)) by (destruct H0 as (new & ? & ? & _); by exists new).
  assert (Hs : onceState phase c (starts (trace s)) s) by (exists []; rewrite app_nil_r; split_and!; [done|constructor|done]).
  revert Hs. generalize (starts (trace s)). intros base. revert s. induction l as [|su l' IH]; intros s Hs; [done|].
  apply IH; [intros; apply Hl; by right|]. apply session_preserves; [done..|apply Hl; left|done].
Qed.
End Once.
