(* ===== verification/LogManifest.v ===== *)
(** Run manifests of the workspace log store: the pure transitions of
    src/pkg/workspacelogs/store.go (registration, conditions, binding) and
    append.go (what a stored record does to the manifest), and the order along
    which every transition moves a manifest. *)
From S2P Require Import Prelude GoStd LogTypes.

Definition maxNameBytes : Z := 256.

(** ** Field updates *)

Definition setUID (u : option string) (idAtStart : string) (m : RunManifest) : RunManifest :=
  mkManifest (mSchemaVersion m) (mRunID m) (mContext m) u idAtStart (mCommand m) (mTaskID m)
    (mCreatedAt m) (mUpdatedAt m) (mCommandState m) (mCaptureState m) (mConditions m)
    (mProducers m) (mDiscoverySealed m).
Definition setTaskID (t : string) (m : RunManifest) : RunManifest :=
  mkManifest (mSchemaVersion m) (mRunID m) (mContext m) (mWorkspaceUID m)
    (mWorkspaceIDAtStart m) (mCommand m) t (mCreatedAt m) (mUpdatedAt m) (mCommandState m)
    (mCaptureState m) (mConditions m) (mProducers m) (mDiscoverySealed m).
Definition setUpdatedAt (t : Z) (m : RunManifest) : RunManifest :=
  mkManifest (mSchemaVersion m) (mRunID m) (mContext m) (mWorkspaceUID m)
    (mWorkspaceIDAtStart m) (mCommand m) (mTaskID m) (mCreatedAt m) t (mCommandState m)
    (mCaptureState m) (mConditions m) (mProducers m) (mDiscoverySealed m).
Definition setCommandState (c : string) (m : RunManifest) : RunManifest :=
  mkManifest (mSchemaVersion m) (mRunID m) (mContext m) (mWorkspaceUID m)
    (mWorkspaceIDAtStart m) (mCommand m) (mTaskID m) (mCreatedAt m) (mUpdatedAt m) c
    (mCaptureState m) (mConditions m) (mProducers m) (mDiscoverySealed m).
Definition setCapture (c : string) (conds : list string) (m : RunManifest) : RunManifest :=
  mkManifest (mSchemaVersion m) (mRunID m) (mContext m) (mWorkspaceUID m)
    (mWorkspaceIDAtStart m) (mCommand m) (mTaskID m) (mCreatedAt m) (mUpdatedAt m)
    (mCommandState m) c conds (mProducers m) (mDiscoverySealed m).
Definition setProducers (ps : list ProducerRef) (m : RunManifest) : RunManifest :=
  mkManifest (mSchemaVersion m) (mRunID m) (mContext m) (mWorkspaceUID m)
    (mWorkspaceIDAtStart m) (mCommand m) (mTaskID m) (mCreatedAt m) (mUpdatedAt m)
    (mCommandState m) (mCaptureState m) (mConditions m) ps (mDiscoverySealed m).
Definition setSealed (b : bool) (m : RunManifest) : RunManifest :=
  mkManifest (mSchemaVersion m) (mRunID m) (mContext m) (mWorkspaceUID m)
    (mWorkspaceIDAtStart m) (mCommand m) (mTaskID m) (mCreatedAt m) (mUpdatedAt m)
    (mCommandState m) (mCaptureState m) (mConditions m) (mProducers m) b.

(** ** Transitions *)

Definition addCondition (c : string) (m : RunManifest) : RunManifest :=
  setCapture CapturePartial
    (if bool_decide (c ∈ mConditions m) then mConditions m else mConditions m ++ [c]) m.

(** [producer]: the index of a producer, [None] for Go's [-1]. *)
Definition producer (m : RunManifest) (id : string) : option nat :=
  fst <$> list_find (fun p => pProducerID p = id) (mProducers m).

Definition refreshCapture (m : RunManifest) : RunManifest :=
  if bool_decide (mCaptureState m = CaptureRecording) && negb (Active m)
  then setCapture CaptureComplete (mConditions m) m else m.

Definition rank (s : string) : Z :=
  if bool_decide (s = ProducerReserved) then 1
  else if bool_decide (s = ProducerRunning) then 2
  else if one_of s [ProducerTerminal; ProducerUnavailable] then 3
  else 0.

Definition advance (next : string) (p : ProducerRef) : ProducerRef :=
  if rank (pState p) <? rank next
  then mkProducerRef (pProducerID p) (pParentProducerID p) next (pLocation p) (pSealed p)
  else p.
Definition sealRef (p : ProducerRef) : ProducerRef :=
  mkProducerRef (pProducerID p) (pParentProducerID p) (pState p) (pLocation p) true.

(** [m.Producers[i]] replaced by a function of itself. *)
Definition modifyProducer (i : nat) (f : ProducerRef -> ProducerRef) (m : RunManifest)
    : RunManifest := setProducers (alter f i (mProducers m)) m.

Definition refreshDiscoverySealed (m : RunManifest) : RunManifest :=
  if mDiscoverySealed m || bool_decide (mProducers m = []) then m
  else if existsb (fun p => bool_decide (pParentProducerID p = "") && negb (pSealed p))
                  (mProducers m)
  then m else setSealed true m.

Definition applyOwn (rec : LogRecord) (m : RunManifest) : RunManifest :=
  let m1 := match producer m (rProducerID rec) with
            | Some i => if bool_decide (rProducerState rec = "") then m
                        else modifyProducer i (advance (rProducerState rec)) m
            | None => m
            end in
  let m2 := match producer m1 (rProducerID rec) with
            | Some i => if rDiscoverySealed rec then modifyProducer i sealRef m1 else m1
            | None => m1
            end in
  let m3 := refreshDiscoverySealed m2 in
  if bool_decide (rProducerState rec = ProducerUnavailable)
  then addCondition ConditionSourceUnavailable m3 else m3.

Definition applyChild (rec : LogRecord) (m : RunManifest) : RunManifest :=
  let m1 :=
    match producer m (rChildProducerID rec) with
    | Some i =>
        if bool_decide (pParentProducerID <$> mProducers m !! i = Some (rProducerID rec))
        then modifyProducer i (advance (rProducerState rec)) m else m
    | None =>
        if Z.of_nat (length (mProducers m)) <? MaxProducers
        then setProducers (mProducers m ++
               [mkProducerRef (rChildProducerID rec) (rProducerID rec) (rProducerState rec)
                  (rLocation rec) false]) m
        else addCondition ConditionProducerCap m
    end in
  if bool_decide (rProducerState rec = ProducerUnavailable)
  then addCondition ConditionSourceUnavailable m1 else m1.

Definition apply (m : RunManifest) (rec : LogRecord) : RunManifest :=
  if rElided rec then addCondition ConditionCapacity m
  else if bool_decide (rKind rec = KindCapture) then addCondition (rCondition rec) m
  else if bool_decide (rKind rec = KindProducer) && negb (bool_decide (rChildProducerID rec = ""))
  then applyChild rec m
  else if bool_decide (rKind rec = KindProducer) then applyOwn rec m
  else m.

(** ** The functions passed to [update] *)

Definition bindFn (uid idAtStart : string) (m : RunManifest) : goerr + RunManifest :=
  match mWorkspaceUID m with
  | Some u => if bool_decide (u = uid) then inr m else inl ErrIdentityConflict
  | None =>
      inr (setUID (Some uid)
             (if negb (bool_decide (idAtStart = "")) && (len idAtStart <=? maxNameBytes)
              then idAtStart else mWorkspaceIDAtStart m) m)
  end.

(** [RegisterProducer]'s function; the second component is [capErr]. *)
Definition registerFn (ref : ProducerRef) (m : RunManifest) : goerr + (RunManifest * err) :=
  match producer m (pProducerID ref) with
  | Some _ => inr (m, None)
  | None =>
      if mDiscoverySealed m then inl ErrDiscoverySealed
      else if MaxProducers <=? Z.of_nat (length (mProducers m))
      then inr (addCondition ConditionProducerCap m, Some ErrProducerCap)
      else
        let m1 := setProducers (mProducers m ++ [ref]) m in
        inr (if bool_decide (mCaptureState m1 = CapturePending)
             then setCapture CaptureRecording (mConditions m1) m1 else m1, None)
  end.

Definition joinConflict (m : RunManifest) (spec : RunSpec) : err :=
  if negb (bool_decide (mContext m = sContext spec))
  then Some (wrap ErrIdentityConflict "run belongs to another context" [])
  else match mWorkspaceUID m with
       | Some u =>
           if negb (bool_decide (sWorkspaceUID spec = "")) &&
              negb (bool_decide (u = sWorkspaceUID spec))
           then Some (wrap ErrIdentityConflict "run belongs to another workspace" [])
           else None
       | None => None
       end.

(** The name the error of a long field carries is the first in map order; the
    model reports the first in source order. *)
Definition specFields (spec : RunSpec) : list (string * string) :=
  [("context", sContext spec); ("workspaceUid", sWorkspaceUID spec);
   ("workspaceId", sWorkspaceIDAtStart spec); ("command", sCommand spec);
   ("taskId", sTaskID spec)].
Definition validateSpec (spec : RunSpec) : err :=
  andThen (if bool_decide (sRunID spec = "") then None else requireID "runId" (sRunID spec))
    (match filter (fun p : string * string => maxNameBytes < len p.2) (specFields spec) with
     | (name, _) :: _ => Some (wrap ErrInvalidRecord "%s is too long" [AStr name])
     | [] =>
         if bool_decide (sContext spec = "") || bool_decide (sCommand spec = "")
         then Some (wrap ErrInvalidRecord "context and command are required" []) else None
     end).

(** The manifest [createOrJoin] writes for a new run. *)
Definition newManifest (spec : RunSpec) (now : Z) (full : bool) : RunManifest :=
  let m := mkManifest SchemaVersion (sRunID spec) (sContext spec)
             (if bool_decide (sWorkspaceUID spec = "") then None else Some (sWorkspaceUID spec))
             (sWorkspaceIDAtStart spec) (sCommand spec) (sTaskID spec) now now CommandRunning
             CapturePending [] [] false in
  if full then addCondition ConditionCapacity m else m.

(** ** The operations on one manifest *)

Inductive manifestOp :=
| OpBind (uid idAtStart : string)
| OpTask (taskID : string)
| OpCommand (state : string)
| OpRegister (ref : ProducerRef)
| OpSeal
| OpCondition (c : string)
| OpApply (applied : list LogRecord).

(** The function an operation hands to [update]. *)
Definition manifestFn (op : manifestOp) (m : RunManifest) : goerr + RunManifest :=
  match op with
  | OpBind uid idAtStart => bindFn uid idAtStart m
  | OpTask t => inr (setTaskID t m)
  | OpCommand c => inr (setCommandState c m)
  | OpRegister ref => match registerFn ref m with inl e => inl e | inr (m', _) => inr m' end
  | OpSeal => inr (setSealed true m)
  | OpCondition c => inr (addCondition c m)
  | OpApply rs => inr (foldl apply m rs)
  end.

(** What [update] writes: [fn], then [refreshCapture], then the time. *)
Definition updated (m : RunManifest) (now : Z) : RunManifest :=
  setUpdatedAt now (refreshCapture m).
Definition runManifestOp (now : Z) (m : RunManifest) (op : manifestOp) : RunManifest :=
  match manifestFn op m with inl _ => m | inr m' => updated m' now end.

(** ** The order manifests move along *)

(** A final state (rank 3) never changes. *)
Record growsRef (p p' : ProducerRef) : Prop := {
  gr_id : pProducerID p' = pProducerID p;
  gr_parent : pParentProducerID p' = pParentProducerID p;
  gr_location : pLocation p' = pLocation p;
  gr_rank : rank (pState p) <= rank (pState p');
  gr_final : rank (pState p) = 3 -> pState p' = pState p;
  gr_sealed : pSealed p = true -> pSealed p' = true;
}.

Definition captureRank (s : string) : Z :=
  if bool_decide (s = CaptureRecording) then 1
  else if bool_decide (s = CaptureComplete) then 2
  else if bool_decide (s = CapturePartial) then 3
  else 0.

Record grows (m m' : RunManifest) : Prop := {
  g_schema : mSchemaVersion m' = mSchemaVersion m;
  g_run : mRunID m' = mRunID m;
  g_context : mContext m' = mContext m;
  g_command : mCommand m' = mCommand m;
  g_created : mCreatedAt m' = mCreatedAt m;
  g_uid u : mWorkspaceUID m = Some u -> mWorkspaceUID m' = Some u;
  g_sealed : mDiscoverySealed m = true -> mDiscoverySealed m' = true;
  g_conditions : mConditions m `prefix_of` mConditions m';
  g_capture : captureRank (mCaptureState m) <= captureRank (mCaptureState m');
  g_producers i p : mProducers m !! i = Some p ->
                    exists p', mProducers m' !! i = Some p' /\ growsRef p p';
}.

(** What every manifest the operations produce satisfies. *)
Record mok (m : RunManifest) : Prop := {
  mok_ids : NoDup (pProducerID <$> mProducers m);
  mok_cap : Z.of_nat (length (mProducers m)) <= MaxProducers;
  mok_conds : NoDup (mConditions m);
  mok_partial : mCaptureState m = CapturePartial <-> mConditions m <> [];
  mok_complete : mCaptureState m = CaptureComplete -> mDiscoverySealed m = true;
}.

#[export] Instance growsRef_preorder : PreOrder growsRef.
Proof.
  split; [intros p; by split|].
  intros p q r [] []. split; try congruence; [lia| |by auto].
  intros H3. rewrite gr_final1; [auto|]. rewrite gr_final0; auto.
Qed.

#[export] Instance grows_preorder : PreOrder grows.
Proof.
  split.
  - intros m. split; try done. intros i p Hp. by exists p.
  - intros a b c H H'. split; try (by (etrans; [apply H'|apply H])).
    + intros u Hu. by apply H', H.
    + intros Hs. by apply H', H.
    + by trans (mConditions b); [apply H|apply H'].
    + trans (captureRank (mCaptureState b)); [apply H|apply H'].
    + intros i p Hp. destruct (g_producers _ _ H i p Hp) as (p' & Hp' & Hg).
      destruct (g_producers _ _ H' i p' Hp') as (p'' & Hp'' & Hg').
      exists p''. split; [done|]. by trans p'.
Qed.

Lemma advance_grows s p : growsRef p (advance s p).
Proof.
  unfold advance. destruct (rank (pState p) <? rank s) eqn:Hr; [|done].
  apply Z.ltb_lt in Hr. split; try done; cbn [pState]; [lia|].
  intros H3. rewrite H3 in Hr. unfold rank in Hr. repeat case_match; lia.
Qed.
Lemma sealRef_grows p : growsRef p (sealRef p).
Proof. by split. Qed.

(** Transitions that change one field. *)
Lemma setProducers_grows m ps :
  (forall i p, mProducers m !! i = Some p -> exists p', ps !! i = Some p' /\ growsRef p p') ->
  grows m (setProducers ps m).
Proof. intros H. by split. Qed.

Lemma modifyProducer_grows i f m :
  (forall p, growsRef p (f p)) -> grows m (modifyProducer i f m).
Proof.
  intros Hf. apply setProducers_grows. intros j p Hp. rewrite list_lookup_alter.
  case_decide as Hij; [subst i; rewrite Hp; by exists (f p)|by exists p].
Qed.

Lemma append_producer_grows m ref : grows m (setProducers (mProducers m ++ [ref]) m).
Proof.
  apply setProducers_grows. intros i p Hp. exists p. split; [|done].
  by apply lookup_app_l_Some.
Qed.

Lemma captureRank_le s : captureRank s <= 3.
Proof. unfold captureRank. repeat case_match; lia. Qed.

Lemma addCondition_grows c m : grows m (addCondition c m).
Proof.
  split; try done; simpl.
  - case_match; [done|]. by eexists.
  - apply captureRank_le.
  - intros i p Hp. by exists p.
Qed.

Lemma setSealed_grows m : grows m (setSealed true m).
Proof. split; try done. intros i p Hp. by exists p. Qed.

Lemma refreshCapture_grows m : grows m (refreshCapture m).
Proof.
  unfold refreshCapture. case_bool_decide as Hc; [|done]. case_match; [|done].
  split; try done; simpl; [by rewrite Hc|]. intros i p Hp. by exists p.
Qed.

Lemma updated_grows m now : grows m (updated m now).
Proof. destruct (refreshCapture_grows m). by split. Qed.

Lemma refreshDiscoverySealed_grows m : grows m (refreshDiscoverySealed m).
Proof. unfold refreshDiscoverySealed. repeat case_match; done || apply setSealed_grows. Qed.

Lemma condition_if_grows (b : bool) c m : grows m (if b then addCondition c m else m).
Proof. destruct b; [apply addCondition_grows|done]. Qed.

Lemma applyOwn_grows rec m : grows m (applyOwn rec m).
Proof.
  unfold applyOwn.
  set (m1 := match producer m (rProducerID rec) with Some _ => _ | None => _ end).
  set (m2 := match producer m1 (rProducerID rec) with Some _ => _ | None => _ end).
  trans m1; [|trans m2; [|trans (refreshDiscoverySealed m2)]].
  - unfold m1. repeat case_match; try done. apply modifyProducer_grows. apply advance_grows.
  - unfold m2. repeat case_match; try done. apply modifyProducer_grows. apply sealRef_grows.
  - apply refreshDiscoverySealed_grows.
  - apply condition_if_grows.
Qed.

Lemma applyChild_grows rec m : grows m (applyChild rec m).
Proof.
  unfold applyChild. etrans; [|apply condition_if_grows]. repeat case_match; try done.
  - apply modifyProducer_grows. apply advance_grows.
  - apply append_producer_grows.
  - apply addCondition_grows.
Qed.

Lemma apply_grows m rec : grows m (apply m rec).
Proof.
  unfold apply. repeat case_match; try done;
    [apply addCondition_grows|apply addCondition_grows|apply applyChild_grows|apply applyOwn_grows].
Qed.

Lemma apply_list_grows rs m : grows m (foldl apply m rs).
Proof.
  revert m. induction rs as [|r rs IH]; intros m; [done|]. simpl.
  trans (apply m r); [apply apply_grows|apply IH].
Qed.

Lemma bindFn_grows uid idAtStart m m' : bindFn uid idAtStart m = inr m' -> grows m m'.
Proof.
  unfold bindFn. destruct (mWorkspaceUID m) as [u|] eqn:Hu.
  - case_bool_decide; intros; by simplify_eq.
  - intros [= <-]. split; try done; [simpl; by rewrite Hu|]. intros i p Hp. by exists p.
Qed.

Lemma registerFn_grows ref m m' e : registerFn ref m = inr (m', e) -> grows m m'.
Proof.
  unfold registerFn. repeat case_match; intros; simplify_eq; try done.
  - apply addCondition_grows.
  - trans (setProducers (mProducers m ++ [ref]) m); [apply append_producer_grows|].
    case_bool_decide as Hc; split; try done; simpl in *; try by rewrite Hc.
    intros i p Hp. by exists p.
  - apply append_producer_grows.
Qed.

Lemma manifestFn_grows op m m' : manifestFn op m = inr m' -> grows m m'.
Proof.
  destruct op; simpl; intros H; simplify_eq.
  - by eapply bindFn_grows.
  - split; try done. intros i p Hp. by exists p.
  - split; try done. intros i p Hp. by exists p.
  - destruct (registerFn ref m) as [|[m1 e]] eqn:Hr; simplify_eq. by eapply registerFn_grows.
  - apply setSealed_grows.
  - apply addCondition_grows.
  - apply apply_list_grows.
Qed.

Lemma runManifestOp_grows now m op : grows m (runManifestOp now m op).
Proof.
  unfold runManifestOp. destruct (manifestFn op m) as [|m'] eqn:Hf; [done|].
  trans m'; [by eapply manifestFn_grows|apply updated_grows].
Qed.

(** ** The invariant *)

Create HintDb manifest.

Lemma setProducers_mok ps m :
  mok m -> NoDup (pProducerID <$> ps) -> Z.of_nat (length ps) <= MaxProducers ->
  mok (setProducers ps m).
Proof. intros [] Hn Hl. by split. Qed.

Lemma fmap_alter_id (f : ProducerRef -> ProducerRef) (i : nat) (ps : list ProducerRef) :
  (forall p, pProducerID (f p) = pProducerID p) ->
  pProducerID <$> alter f i ps = pProducerID <$> ps.
Proof.
  intros Hf. revert i. induction ps as [|p ps IH]; intros [|i]; simpl; [done|done| |].
  - by rewrite Hf.
  - f_equal. apply IH.
Qed.

Lemma modifyProducer_mok i f m :
  (forall p, growsRef p (f p)) -> mok m -> mok (modifyProducer i f m).
Proof.
  intros Hf Hm. unfold modifyProducer. apply setProducers_mok; [done| |].
  - rewrite fmap_alter_id; [apply Hm|]. intros p. apply (gr_id _ _ (Hf p)).
  - rewrite length_alter. apply Hm.
Qed.

Lemma producer_None m id : producer m id = None <-> id ∉ pProducerID <$> mProducers m.
Proof.
  unfold producer. rewrite fmap_None, list_elem_of_fmap. split.
  - intros H%list_find_None (p & -> & Hp). rewrite Forall_forall in H. by apply (H p).
  - intros H. apply list_find_None, Forall_forall. intros p Hp Hid. apply H. eauto.
Qed.
Lemma producer_Some m id i :
  producer m id = Some i -> exists p, mProducers m !! i = Some p /\ pProducerID p = id.
Proof.
  unfold producer. intros ([j p] & H & ->)%fmap_Some. apply list_find_Some in H. naive_solver.
Qed.

Lemma append_producer_mok ref m :
  mok m -> producer m (pProducerID ref) = None ->
  Z.of_nat (length (mProducers m)) < MaxProducers ->
  mok (setProducers (mProducers m ++ [ref]) m).
Proof.
  intros Hm Hn%producer_None Hl. apply setProducers_mok; [done| |].
  - rewrite fmap_app. simpl. apply NoDup_app. split_and!; [apply Hm| |apply NoDup_singleton].
    intros x Hx ->%list_elem_of_singleton. done.
  - rewrite length_app. simpl. lia.
Qed.

Lemma addCondition_mok c m : mok m -> mok (addCondition c m).
Proof.
  intros []. split; simpl; try done.
  - case_bool_decide; [done|]. apply NoDup_app. split_and!; [done| |apply NoDup_singleton].
    intros x Hx ->%list_elem_of_singleton. done.
  - split; [|done]. intros _. case_bool_decide as Hin; [|by destruct (mConditions m)].
    intros Hnil. rewrite Hnil in Hin. set_solver.
Qed.

Lemma setSealed_mok m : mok m -> mok (setSealed true m).
Proof. intros []. by split. Qed.

Lemma refreshCapture_mok m : mok m -> mok (refreshCapture m).
Proof.
  intros Hm. unfold refreshCapture. case_bool_decide as Hc; [|done].
  destruct (Active m) eqn:Ha; [done|]. destruct Hm. split; simpl; try done.
  - split; [done|]. intros Hne%mok_partial0. by rewrite Hc in Hne.
  - intros _. unfold Active in Ha. by destruct (mDiscoverySealed m).
Qed.

Lemma refreshDiscoverySealed_mok m : mok m -> mok (refreshDiscoverySealed m).
Proof. intros. unfold refreshDiscoverySealed. repeat case_match; auto using setSealed_mok. Qed.

#[export] Hint Resolve advance_grows sealRef_grows modifyProducer_mok addCondition_mok setSealed_mok
  refreshCapture_mok refreshDiscoverySealed_mok append_producer_mok : manifest.

Lemma applyOwn_mok rec m : mok m -> mok (applyOwn rec m).
Proof.
  intros Hm. unfold applyOwn.
  set (m1 := match producer m (rProducerID rec) with Some _ => _ | None => _ end).
  assert (Hm1 : mok m1) by (unfold m1; repeat case_match; auto with manifest).
  set (m2 := match producer m1 (rProducerID rec) with Some _ => _ | None => _ end).
  assert (Hm2 : mok m2) by (unfold m2; repeat case_match; auto with manifest).
  case_match; auto with manifest.
Qed.

Lemma applyChild_mok rec m : mok m -> mok (applyChild rec m).
Proof.
  intros Hm. unfold applyChild.
  set (m1 := match producer m (rChildProducerID rec) with Some _ => _ | None => _ end).
  assert (Hm1 : mok m1).
  { unfold m1. repeat case_match; auto with manifest.
    apply append_producer_mok; [done|done|lia]. }
  case_match; auto with manifest.
Qed.

Lemma apply_mok m rec : mok m -> mok (apply m rec).
Proof. intros. unfold apply. repeat case_match; auto using applyOwn_mok, applyChild_mok, addCondition_mok. Qed.

Lemma apply_list_mok rs m : mok m -> mok (foldl apply m rs).
Proof. revert m. induction rs; simpl; auto using apply_mok. Qed.

Lemma registerFn_mok ref m m' e : mok m -> registerFn ref m = inr (m', e) -> mok m'.
Proof.
  intros Hm. unfold registerFn. destruct (producer m (pProducerID ref)) eqn:Hp; [by intros; simplify_eq|].
  case_match; [done|]. destruct (_ <=? _) eqn:Hl; [intros; simplify_eq; auto with manifest|].
  intros [= <- <-]. assert (Ha : mok (setProducers (mProducers m ++ [ref]) m)) by
    (apply append_producer_mok; [done|done|lia]).
  case_bool_decide as Hc; [|done]. destruct Ha. split; simpl in *; try done.
  split; [done|]. intros Hne%mok_partial0. by rewrite Hc in Hne.
Qed.

Lemma manifestFn_mok op m m' : mok m -> manifestFn op m = inr m' -> mok m'.
Proof.
  intros Hm. destruct op; simpl; intros H; simplify_eq; auto using apply_list_mok with manifest.
  - unfold bindFn in H. repeat case_match; simplify_eq; auto; destruct Hm; by split.
  - destruct Hm; by split.
  - destruct Hm; by split.
  - destruct (registerFn ref m) as [|[m1 e]] eqn:Hr; simplify_eq. by eapply registerFn_mok.
Qed.

Lemma updated_mok now m : mok m -> mok (updated m now).
Proof. intros Hm%refreshCapture_mok. unfold updated. destruct Hm. by split. Qed.

Lemma newManifest_mok spec now full : mok (newManifest spec now full).
Proof.
  assert (H : mok (newManifest spec now false)) by
    (split; simpl; [constructor|done|constructor|done|done]).
  destruct full; [|done]. by apply addCondition_mok.
Qed.

Lemma runManifestOp_mok now m op : mok m -> mok (runManifestOp now m op).
Proof.
  intros Hm. unfold runManifestOp. destruct (manifestFn op m) eqn:Hf; [done|].
  apply updated_mok. by eapply manifestFn_mok.
Qed.

(** ** Properties *)

(** The manifest after a sequence of timed operations. *)
Definition runManifestOps (m : RunManifest) (ops : list (Z * manifestOp)) : RunManifest :=
  foldl (fun m' p => runManifestOp p.1 m' p.2) m ops.

(** C8: Whatever operations run on a manifest, it only moves forward: identity
    fields and a bound workspace UID stay, discovery stays sealed, conditions
    are only appended, the capture state never moves back (a partial capture
    stays partial), no producer is dropped, renamed or moved to another parent,
    and a producer's state never moves back nor leaves a final state. *)
Theorem manifest_ops_monotone m ops : grows m (runManifestOps m ops).
Proof.
  revert m. induction ops as [|[now op] ops IH]; intros m; [done|].
  trans (runManifestOp now m op); [apply runManifestOp_grows|apply (IH _)].
Qed.

(** C7: Every manifest reached from a created run by any operations lists at
    most [MaxProducers] producers and no producer or condition twice, is marked
    partial exactly when a condition is recorded, and is only marked complete
    once discovery is sealed. *)
Theorem manifest_reachable_ok spec now full ops :
  mok (runManifestOps (newManifest spec now full) ops).
Proof.
  generalize (newManifest_mok spec now full). generalize (newManifest spec now full).
  induction ops as [|[t op] ops IH]; intros m Hm; [done|]. by apply IH, runManifestOp_mok.
Qed.

(** A manifest reported complete has discovery sealed, no capture
    condition, and every producer terminal; nothing can still be written. *)
Theorem Complete_sound m :
  mok m -> Complete m = true ->
  mDiscoverySealed m = true /\ mConditions m = [] /\ Active m = false /\
  (forall p, p ∈ mProducers m -> pState p = ProducerTerminal).
Proof.
  intros Hm. unfold Complete. destruct (mDiscoverySealed m) eqn:Hs; [|done].
  case_bool_decide as Hc; [|done]. simpl. rewrite forallb_forall. intros Hall.
  assert (Hp : forall p, p ∈ mProducers m -> pState p = ProducerTerminal).
  { intros p Hp. specialize (Hall p). apply list_elem_of_In, Hall in Hp. by apply bool_decide_eq_true in Hp. }
  split_and!; [done| | |done].
  - destruct (decide (mConditions m = [])) as [|Hne]; [done|]. apply (mok_partial m Hm) in Hne. by rewrite Hc in Hne.
  - unfold Active. rewrite Hs. simpl. apply not_true_is_false. rewrite existsb_exists.
    intros (p & Hin & Hst). apply list_elem_of_In, Hp in Hin. by rewrite Hin in Hst.
Qed.

(** Registering a producer is a no-op for a known one, is refused once
    discovery is sealed, marks capture partial with the producer-cap condition
    when the table is full, and otherwise appends the producer and starts
    recording. *)
Theorem registerFn_branches ref m :
  registerFn ref m =
    if decide (pProducerID ref ∈ pProducerID <$> mProducers m) then inr (m, None)
    else if mDiscoverySealed m then inl ErrDiscoverySealed
    else if decide (MaxProducers <= Z.of_nat (length (mProducers m)))
    then inr (addCondition ConditionProducerCap m, Some ErrProducerCap)
    else inr (setCapture (if decide (mCaptureState m = CapturePending) then CaptureRecording
                          else mCaptureState m) (mConditions m)
                (setProducers (mProducers m ++ [ref]) m), None).
Proof.
  unfold registerFn. destruct (producer m (pProducerID ref)) as [i|] eqn:Hp.
  - rewrite decide_True; [done|]. apply producer_Some in Hp as (p & Hi & <-).
    apply list_elem_of_fmap_2. by eapply list_elem_of_lookup_2.
  - apply producer_None in Hp. rewrite decide_False by done. case_match; [done|].
    destruct (_ <=? _) eqn:Hl; [rewrite decide_True by lia; done|].
    rewrite decide_False by lia. simpl. case_bool_decide as Hc; [by rewrite decide_True|].
    rewrite decide_False by done. by destruct m.
Qed.

(** A finished run, where [Complete_sound] applies. *)
Definition finishedManifest : RunManifest :=
  runManifestOps (newManifest (mkRunSpec "r" "ctx" "" "" "up" "") 1 false)
    [(2, OpRegister (mkProducerRef "p" "" ProducerRunning "" false)); (3, OpSeal);
     (4, OpApply [mkRecord 1 KindProducer "r" "p" 1 7 "" "" ProducerTerminal true "" "" "" None
                    "" "" "" "" None None "" "" "" 0 false "" "" 0])].
Lemma Complete_sound_witness :
  mProducers finishedManifest <> [] /\
  (mDiscoverySealed finishedManifest = true /\ mConditions finishedManifest = [] /\
   Active finishedManifest = false /\
   (forall p, p ∈ mProducers finishedManifest -> pState p = ProducerTerminal)).
Proof.
  split; [vm_compute; discriminate|]. apply Complete_sound; [|vm_compute; reflexivity].
  unfold finishedManifest, runManifestOps. cbn [foldl].
  repeat apply runManifestOp_mok. apply newManifest_mok.
Defined.
