(* ===== verification/LogFS.v ===== *)
(** The file system the workspace log store lives on, and the effects of the
    store's code: a state monad over the file system, the process's tail cache,
    the clock, generated IDs and a schedule of operating-system failures.  The
    file operations are the ones of Go's [os] package and of the
    github.com/gofrs/flock locks; the composite ones ([checkRegular],
    [ensureDir], the replace-by-rename of manifests and acknowledgements,
    [dirBytes]) are those of src/pkg/workspacelogs. *)
From S2P Require Import Prelude GoStd LogTypes.

(** ** Files *)

(** A path is the list of its components below the storage root.  [Other] is a
    symbolic link or a special file; nothing is reachable through one. *)
Abbreviation path := (list string).
Inductive node := Dir | File (data : string) | Other.
Abbreviation FS := (gmap path node).

#[export] Instance node_eq_dec : EqDecision node.
Proof. solve_decision. Defined.

(** The size of the regular files below [dir] ([dirBytes], which skips what it
    cannot stat). *)
Definition nodeSize (n : node) : Z := match n with File d => len d | _ => 0 end.
Definition below (dir : path) (fs : FS) : FS :=
  filter (fun p : path * node => dir `prefix_of` p.1) fs.
Definition totalSize (fs : FS) : Z := map_fold (fun _ n acc => nodeSize n + acc) 0 fs.
Definition dirBytes (fs : FS) (dir : path) : Z := totalSize (below dir fs).

(** The names in a directory ([os.ReadDir]). *)
Definition entryName (dir p : path) : option string :=
  match reverse p with
  | name :: rdir => if decide (reverse rdir = dir) then Some name else None
  | [] => None
  end.
Definition entries (fs : FS) (dir : path) : list (string * node) :=
  omap (fun p : path * node => (fun n => (n, p.2)) <$> entryName dir p.1) (map_to_list fs).

(** ** Effects *)

(** One failure decision per system call; [Fault n] fails it, and a failing
    write leaves the first [n] bytes (never the whole text) behind. *)
Inductive fault := NoFault | Fault (n : nat).

Record tail := mkTail { tName : string; tSize : Z; tLast : Z }.

Record World := mkWorld {
  wFS : FS;
  wTails : gmap path tail;     (* Store.tails of this process *)
  wFaults : list fault;        (* outcomes of the next system calls; then none fails *)
  wClock : Z;
  wTicks : list Z;             (* time passing before the next clock readings *)
  wIDs : nat;                  (* identifiers generated so far *)
}.

Definition setFS (fs : FS) (w : World) : World :=
  mkWorld fs (wTails w) (wFaults w) (wClock w) (wTicks w) (wIDs w).
Definition setTails (ts : gmap path tail) (w : World) : World :=
  mkWorld (wFS w) ts (wFaults w) (wClock w) (wTicks w) (wIDs w).

Definition St (A : Type) : Type := World -> World * A.
Definition ret {A} (a : A) : St A := fun w => (w, a).
Definition bind {A B} (m : St A) (k : A -> St B) : St B := fun w => k (m w).2 (m w).1.
(** Fallible code: continue on success. *)
Definition ebind {A B} (m : St (goerr + A)) (k : A -> St (goerr + B)) : St (goerr + B) :=
  bind m (fun r => match r with inl e => ret (inl e) | inr a => k a end).
Definition throw {A} (e : goerr) : St (goerr + A) := ret (inl e).
Definition ok {A} (a : A) : St (goerr + A) := ret (inr a).
Definition lift {A} (r : goerr + A) : St (goerr + A) := ret r.
(** A Go [error] as a result without a value. *)
Definition guard_err (e : err) : St (goerr + unit) :=
  ret (match e with Some e' => inl e' | None => inr tt end).
Definition get {A} (f : World -> A) : St A := fun w => (w, f w).
Definition put (f : World -> World) : St unit := fun w => (f w, tt).

Notation "'let*' x ':=' m 'in' k" := (bind m (fun x => k))
  (at level 10, x pattern, m at level 100, k at level 200) : devsy_scope.
Notation "'let!' x ':=' m 'in' k" := (ebind m (fun x => k))
  (at level 10, x pattern, m at level 100, k at level 200) : devsy_scope.

(** Does the next system call fail, and after how many bytes? *)
Definition sysFault : St (option nat) := fun w =>
  match wFaults w with
  | [] => (w, None)
  | f :: fs =>
      (mkWorld (wFS w) (wTails w) fs (wClock w) (wTicks w) (wIDs w),
       match f with NoFault => None | Fault n => Some n end)
  end.

(** [s.now().UTC()] *)
Definition now : St Z := fun w =>
  let t := wClock w + default 0 (head (wTicks w)) in
  (mkWorld (wFS w) (wTails w) (wFaults w) t (List.tl (wTicks w)) (wIDs w), t).

(** [uuid.NewString]: the generator is not part of the program. *)
Class IDSource := freshID : nat -> string.
Definition NewID `{IDSource} : St string := fun w =>
  (mkWorld (wFS w) (wTails w) (wFaults w) (wClock w) (wTicks w) (S (wIDs w)), freshID (wIDs w)).

Definition osError : goerr := Sentinel "os.EIO" "input/output error".
Definition fsErrNotExist : goerr := Sentinel "fs.ErrNotExist" "file does not exist".

(** ** System calls *)

(** [sys ctx m]: fail with [ctx: input/output error], else run [m]. *)
Definition sys {A} (ctx : string) (m : St (goerr + A)) : St (goerr + A) :=
  let* f := sysFault in
  match f with
  | Some _ => throw (Errorf (ctx +:+ ": %w") [AErr osError])
  | None => m
  end.

Definition lookupFS (p : path) : St (option node) := get (fun w => wFS w !! p).
Definition writeFS (p : path) (n : node) : St unit := put (fun w => setFS (<[p := n]> (wFS w)) w).
Definition deleteFS (p : path) : St unit := put (fun w => setFS (delete p (wFS w)) w).

(** A file is created inside an existing directory. *)
Definition parentIsDir (p : path) : St bool :=
  let* n := lookupFS (removelast p) in ret (bool_decide (n = Some Dir)).

Definition checkRegular (p : path) : St (goerr + unit) :=
  sys "stat" (
    let* n := lookupFS p in
    match n with
    | None | Some (File _) => ok tt
    | Some _ => throw (wrap ErrUnsafePath "%s is not a regular file" [AStr (Join p "/")])
    end).

(** [os.ReadFile]; [None] is [fs.ErrNotExist]. *)
Definition readFile (ctx : string) (p : path) : St (goerr + option string) :=
  sys ctx (
    let* n := lookupFS p in
    match n with
    | None => ok None
    | Some (File d) => ok (Some d)
    | Some _ => throw (Errorf (ctx +:+ ": %w") [AErr osError])
    end).

(** [withLock]: another holder, a time-out or a missing directory fail it; the
    lock file stays behind.  The function runs while no other holder does. *)
Definition withLock {A} (p : path) (fn : St (goerr + A)) : St (goerr + A) :=
  sys "lock" (
    let* parent := parentIsDir p in
    let* n := lookupFS p in
    match parent, n with
    | true, None => let* _ := writeFS p (File "") in fn
    | true, Some (File _) => fn
    | _, _ => throw (Errorf "lock: %w" [AErr osError])
    end).

(** One component of [ensureDir]: [Lstat], then [Mkdir] when it is missing. *)
Definition ensureComponent (p : path) : St (goerr + unit) :=
  sys "stat" (
    let* n := lookupFS p in
    match n with
    | Some Dir => ok tt
    | Some _ => throw (wrap ErrUnsafePath "%s is not a directory" [AStr (Join p "/")])
    | None =>
        sys "create" (
          let* parent := parentIsDir p in
          if parent then let* _ := writeFS p Dir in ok tt
          else throw (Errorf "create: %w" [AErr fsErrNotExist]))
    end).
Fixpoint ensureDirFrom (cur : path) (parts : list string) : St (goerr + unit) :=
  match parts with
  | [] => ok tt
  | part :: rest =>
      let! _ := ensureComponent (cur ++ [part]) in ensureDirFrom (cur ++ [part]) rest
  end.
Definition ensureDir (parts : list string) : St (goerr + unit) := ensureDirFrom [] parts.

(** A name [os.CreateTemp] may choose: one that does not exist yet. *)
Fixpoint unusedTemp (fuel : nat) (fs : FS) (dir : path) (prefix : string) (k : nat) : string :=
  let name := prefix +:+ pretty k +:+ ".tmp" in
  match fuel with
  | O => name
  | S fuel' =>
      if bool_decide (fs !! (dir ++ [name]) = None) then name
      else unusedTemp fuel' fs dir prefix (S k)
  end.
Definition tempName (fs : FS) (dir : path) (prefix : string) : string :=
  unusedTemp (S (size fs)) fs dir prefix 0.

(** [_ = os.Remove(tmp.Name())] *)
Definition removeQuietly (p : path) : St unit :=
  let* f := sysFault in match f with Some _ => ret tt | None => deleteFS p end.

(** Write [data] to a temporary file in [dir] and rename it to [dir/name], the
    sequence [writeManifest] and the acknowledgement store share.  A failing
    write or close leaves a partial temporary file unless removing it works. *)
Definition replaceFile (ctx : string) (dir : path) (prefix name data : string)
    : St (goerr + unit) :=
  let* parent := parentIsDir (dir ++ [name]) in
  if negb parent then throw (Errorf ("create " +:+ ctx +:+ " temp file: %w") [AErr fsErrNotExist])
  else
  sys ("create " +:+ ctx +:+ " temp file") (
    let* fs := get wFS in
    let tmp := dir ++ [tempName fs dir prefix] in
    let* _ := writeFS tmp (File "") in
    let* wf := sysFault in
    let* _ := writeFS tmp (File match wf with Some n => string_take n data | None => data end) in
    let* cf := sysFault in
    match wf, cf with
    | None, None =>
        let* rf := sysFault in
        let* target := lookupFS (dir ++ [name]) in
        match rf, target with
        | None, (None | Some (File _) | Some Other) =>
            let* _ := deleteFS tmp in
            let* _ := writeFS (dir ++ [name]) (File data) in ok tt
        | _, _ =>
            let* _ := removeQuietly tmp in
            throw (Errorf ("replace " +:+ ctx +:+ ": %w") [AErr osError])
        end
    | _, _ =>
        let* _ := removeQuietly tmp in
        throw (Errorf ("write " +:+ ctx +:+ ": %w") [AErr osError])
    end).

(** ** JSON ([encoding/json]) *)

(** The package encodes and decodes whole values; the model keeps the two
    functions abstract for a type.  [Marshal] fails on a time no RFC 3339 text
    exists for. *)
Class JSON (A : Type) := mkJSON {
  Marshal : A -> option string;
  Unmarshal : string -> option A;
}.
Arguments mkJSON {A} _ _.

(** What [encoding/json] documents of them: the text of a value is one line
    without white space around it, and decoding it gives the value back with
    every invalid UTF-8 byte of its strings replaced ([clean]).  What was decoded
    can be encoded. *)
Class JSONLaws (A : Type) `{J : JSON A} (clean : A -> A) := {
  marshal_roundtrip a s : Marshal a = Some s -> Unmarshal s = Some (clean a);
  marshal_one_line a s : Marshal a = Some s -> splitLines s = ([], s);
  marshal_trimmed a s : Marshal a = Some s -> TrimSpace s = s;
  marshal_nonempty a s : Marshal a = Some s -> s <> "";
  marshal_decoded s a : Unmarshal s = Some a -> is_Some (Marshal a);
}.

Definition jsonError : goerr := Sentinel "json.Error" "json: unsupported or invalid value".

(** ** Reasoning about effects *)

(** [wp m w Q]: running [m] in [w] ends in a state and result that satisfy [Q]. *)
Definition wp {A} (m : St A) (w : World) (Q : World -> A -> Prop) : Prop := Q (m w).1 (m w).2.

Section WP.
Context {A B : Type}.
Implicit Types (m : St A) (w : World).

Lemma wp_mono m w (Q Q' : World -> A -> Prop) :
  wp m w Q -> (forall w' a, Q w' a -> Q' w' a) -> wp m w Q'.
Proof. unfold wp. auto. Qed.
Lemma wp_ret (a : A) w (Q : World -> A -> Prop) : Q w a -> wp (ret a) w Q.
Proof. done. Qed.
Lemma wp_bind m (k : A -> St B) w Q :
  wp m w (fun w' a => wp (k a) w' Q) -> wp (bind m k) w Q.
Proof. done. Qed.
Lemma wp_ebind (m : St (goerr + A)) (k : A -> St (goerr + B)) w Q :
  wp m w (fun w' r => match r with inl e => Q w' (inl e) | inr a => wp (k a) w' Q end) ->
  wp (ebind m k) w Q.
Proof. unfold wp, ebind, bind. intros H. by destruct (m w) as [w' [e|a]]. Qed.
End WP.

(** Steps that read or write the state directly. *)
Lemma wp_lookupFS {B} p (k : option node -> St B) w Q :
  wp (k (wFS w !! p)) w Q -> wp (bind (lookupFS p) k) w Q.
Proof. done. Qed.
Lemma wp_get {A B} (f : World -> A) (k : A -> St B) w Q : wp (k (f w)) w Q -> wp (bind (get f) k) w Q.
Proof. done. Qed.
Lemma wp_writeFS {B} p n (k : unit -> St B) w Q :
  wp (k tt) (setFS (<[p := n]> (wFS w)) w) Q -> wp (bind (writeFS p n) k) w Q.
Proof. done. Qed.

(** Results that are already known. *)
Lemma ebind_inr {A B} (a : A) (k : A -> St (goerr + B)) : ebind (ret (inr a)) k = k a.
Proof. done. Qed.
Lemma ebind_inl {A B} (e : goerr) (k : A -> St (goerr + B)) : ebind (ret (inl e)) k = ret (inl e).
Proof. done. Qed.

(** States that differ only in what no file operation depends on. *)
Definition sameStore (w w' : World) : Prop := wFS w' = wFS w /\ wTails w' = wTails w.

#[export] Instance sameStore_preorder : PreOrder sameStore.
Proof. split; [done|]. intros x y z [] []. split; congruence. Qed.

Lemma sysFault_wp w (Q : World -> option nat -> Prop) :
  (forall w' r, sameStore w w' -> Q w' r) -> wp sysFault w Q.
Proof. intros H. unfold wp, sysFault. destruct (wFaults w) as [|[|n] fs]; by apply H. Qed.

Lemma sys_wp {A} ctx (m : St (goerr + A)) w Q :
  (forall w' e, sameStore w w' -> Q w' (inl e)) ->
  (forall w', sameStore w w' -> wp m w' Q) ->
  wp (sys ctx m) w Q.
Proof.
  intros He Hm. apply wp_bind, sysFault_wp. intros w' [n|] Hs; [apply wp_ret; auto|auto].
Qed.

Lemma now_wp w (Q : World -> Z -> Prop) : (forall w' t, sameStore w w' -> Q w' t) -> wp now w Q.
Proof. intros H. by apply H. Qed.

(** Reading code: the files and the cache stay, and unless a scheduled failure
    strikes the result satisfies [R], or an error satisfies [E]. *)
Definition calm (w w' : World) : Prop := sameStore w w' /\ (wFaults w = [] -> wFaults w' = []).
#[export] Instance calm_preorder : PreOrder calm.
Proof. split; [by split|]. intros x y z [H1 ?] [H2 ?]. split; [by trans y|auto]. Qed.
Definition reads {A} (m : St (goerr + A)) (w : World) (R : A -> Prop) (E : goerr -> Prop) : Prop :=
  wp m w (fun w' r => calm w w' /\ match r with inl e => wFaults w <> [] \/ E e | inr a => R a end).

Section Reads.
Context {A B : Type} (E : goerr -> Prop).
Implicit Types (w : World) (R : A -> Prop).

Lemma reads_wp {C} (E0 : goerr -> Prop) (m : St (goerr + C)) w (R : C -> Prop) (Q : World -> goerr + C -> Prop) :
  reads m w R E0 ->
  (forall w' r, calm w w' -> match r with inl e => wFaults w <> [] \/ E0 e | inr a => R a end -> Q w' r) ->
  wp m w Q.
Proof. unfold reads. intros Hm HQ. eapply wp_mono; [exact Hm|]. intros w' r []. auto. Qed.
Lemma reads_ok (a : A) w R : R a -> reads (ok a) w R E.
Proof. by split. Qed.
Lemma reads_throw e w R : E e -> reads (throw e) w R E.
Proof. split; [done|by right]. Qed.
Lemma reads_lift (r : goerr + A) w R :
  match r with inl e => E e | inr a => R a end -> reads (lift r) w R E.
Proof. intros H. split; [done|]. destruct r; [by right|done]. Qed.
Lemma reads_mono (m : St (goerr + A)) w R (R' : A -> Prop) :
  reads m w R E -> (forall a, R a -> R' a) -> reads m w R' E.
Proof. intros Hm HR. apply (reads_wp _ _ _ _ _ Hm). intros w' [e|a] ? ?; split; auto. Qed.
Lemma reads_weaken (m : St (goerr + A)) w R (E' : goerr -> Prop) :
  reads m w R E -> (forall e, E e -> E' e) -> reads m w R E'.
Proof. intros Hm HE. apply (reads_wp _ _ _ _ _ Hm). intros w' [e|a] ? ?; split; naive_solver. Qed.
Lemma reads_ebind (m : St (goerr + A)) (k : A -> St (goerr + B)) w R (R' : B -> Prop) :
  reads m w R E -> (forall w' a, calm w w' -> R a -> reads (k a) w' R' E) -> reads (ebind m k) w R' E.
Proof.
  intros Hm Hk. apply wp_ebind. apply (reads_wp _ _ _ _ _ Hm). intros w' [e|a] Hc HR; [done|].
  apply (reads_wp _ _ _ _ _ (Hk w' a Hc HR)). intros w'' r Hc' Hr. split; [by trans w'|].
  destruct r; [|done]. destruct Hr as [Hr|Hr]; [|by right]. left. intros Hn. apply Hr, Hc, Hn.
Qed.
Lemma reads_sys ctx (m : St (goerr + A)) w R :
  (forall w', calm w w' -> reads m w' R E) -> reads (sys ctx m) w R E.
Proof.
  intros Hm. unfold reads, sys. apply wp_bind. unfold wp at 1, sysFault.
  destruct (wFaults w) as [|f fs] eqn:Hf; cbn [fst snd].
  - apply (reads_wp _ _ _ _ _ (Hm w ltac:(done))). intros w' r Hc Hr. by rewrite Hf in Hr.
  - destruct f as [|n]; [|split; [by split; [split|rewrite Hf]|by left]].
    set (w1 := mkWorld _ _ _ _ _ _). assert (Hc1 : calm w w1) by (split; [by split|by rewrite Hf]).
    apply (reads_wp _ _ _ _ _ (Hm w1 Hc1)). intros w' r Hc Hr. split; [by trans w1|].
    destruct r; [by left|done].
Qed.
Lemma reads_lookupFS p (k : option node -> St (goerr + A)) w R :
  reads (k (wFS w !! p)) w R E -> reads (bind (lookupFS p) k) w R E.
Proof. done. Qed.
Lemma reads_get {C} (f : World -> C) (k : C -> St (goerr + A)) w R :
  reads (k (f w)) w R E -> reads (bind (get f) k) w R E.
Proof. done. Qed.
End Reads.

Lemma reads_checkRegular p w E :
  (wFS w !! p = None \/ exists d, wFS w !! p = Some (File d)) -> reads (checkRegular p) w (fun _ => True) E.
Proof.
  intros Hp. apply reads_sys. intros w' [[Hf _] _]. apply reads_lookupFS. rewrite Hf.
  destruct Hp as [-> | [d ->]]; by apply reads_ok.
Qed.
Lemma reads_readFile ctx p w E (R : option string -> Prop) :
  (wFS w !! p = None /\ R None \/ exists d, wFS w !! p = Some (File d) /\ R (Some d)) ->
  reads (readFile ctx p) w R E.
Proof.
  intros Hp. apply reads_sys. intros w' [[Hf _] _]. apply reads_lookupFS. rewrite Hf.
  destruct Hp as [[-> ?] | (d & -> & ?)]; by apply reads_ok.
Qed.

(** [touches P m]: [m] changes no file outside [P], nor the tail cache. *)
Definition touches {A} (P : path -> Prop) (m : St A) : Prop :=
  forall w, wTails (m w).1 = wTails w /\
            forall p, ~ P p -> wFS (m w).1 !! p = wFS w !! p.

Create HintDb touch.

Section Touches.
Context (P : path -> Prop).

Lemma touches_ret {A} (a : A) : touches P (ret a).
Proof. done. Qed.
Lemma touches_bind {A B} (m : St A) (k : A -> St B) :
  touches P m -> (forall a, touches P (k a)) -> touches P (bind m k).
Proof.
  intros Hm Hk w. destruct (Hm w) as [Ht Hp], (Hk (m w).2 (m w).1) as [Ht' Hp'].
  unfold bind. split; [congruence|]. intros p Hn. rewrite Hp', Hp; done.
Qed.
Lemma touches_ebind {A B} (m : St (goerr + A)) (k : A -> St (goerr + B)) :
  touches P m -> (forall a, touches P (k a)) -> touches P (ebind m k).
Proof.
  intros Hm Hk. unfold ebind. apply touches_bind; [done|].
  by intros [e|a].
Qed.
Lemma touches_mono {A} (P' : path -> Prop) (m : St A) :
  (forall p, P p -> P' p) -> touches P m -> touches P' m.
Proof. intros HP Hm w. destruct (Hm w). split; [done|]. auto. Qed.
Lemma touches_get {A} (f : World -> A) : touches P (get f).
Proof. done. Qed.
End Touches.

Lemma touches_sysFault P : touches P sysFault.
Proof. intros w. unfold sysFault. by destruct (wFaults w). Qed.
Lemma touches_now P : touches P now.
Proof. done. Qed.
Lemma touches_sys P {A} ctx (m : St (goerr + A)) : touches P m -> touches P (sys ctx m).
Proof. intros Hm. apply touches_bind; [apply touches_sysFault|]. by intros []. Qed.
Lemma touches_writeFS (P : path -> Prop) p n : P p -> touches P (writeFS p n).
Proof.
  intros Hp w. split; [done|]. intros q Hq. unfold writeFS, put, setFS. simpl.
  rewrite lookup_insert_ne; [done|]. by intros ->.
Qed.
Lemma touches_deleteFS (P : path -> Prop) p : P p -> touches P (deleteFS p).
Proof.
  intros Hp w. split; [done|]. intros q Hq. unfold deleteFS, put, setFS. simpl.
  rewrite lookup_delete_ne; [done|]. by intros ->.
Qed.

#[export] Hint Resolve touches_ret touches_bind touches_ebind touches_get touches_sysFault
  touches_now touches_sys touches_writeFS touches_deleteFS : touch.
#[export] Hint Unfold ok throw lift guard_err lookupFS parentIsDir : touch.

(** Decompose a computation down to the file operations it performs. *)
Ltac touch :=
  repeat first
    [ progress intros
    | lazymatch goal with
      | |- touches _ (ret _) => apply touches_ret
      | |- touches _ (get _) => apply touches_get
      | |- touches _ sysFault => apply touches_sysFault
      | |- touches _ now => apply touches_now
      | |- touches _ (ebind _ _) => apply touches_ebind
      | |- touches _ (bind _ _) => apply touches_bind
      | |- touches _ (sys _ _) => apply touches_sys
      end
    | progress unfold ok, throw, lift, guard_err, lookupFS, parentIsDir
    | case_match
    | solve [eauto with touch] ].

Lemma touches_checkRegular P p : touches P (checkRegular p).
Proof. unfold checkRegular. touch. Qed.
Lemma touches_readFile P ctx p : touches P (readFile ctx p).
Proof. unfold readFile. touch. Qed.
Lemma touches_withLock (P : path -> Prop) {A} p (fn : St (goerr + A)) :
  P p -> touches P fn -> touches P (withLock p fn).
Proof. intros Hp Hf. unfold withLock. touch. Qed.
Lemma touches_ensureDirFrom (P : path -> Prop) cur parts :
  (forall front rest, parts = front ++ rest -> front <> [] -> P (cur ++ front)) ->
  touches P (ensureDirFrom cur parts).
Proof.
  revert cur. induction parts as [|x parts IH]; intros cur Hp; [apply touches_ret|]. simpl.
  assert (Hx : P (cur ++ [x])) by (by apply (Hp [x] parts)).
  apply touches_ebind.
  - unfold ensureComponent. touch.
  - intros _. apply IH. intros front rest -> Hne. rewrite <- app_assoc. by apply (Hp (x :: front) rest).
Qed.

(** The files [replaceFile] may touch: its target and its temporary file. *)
Definition isTemp (dir : path) (prefix : string) (p : path) : Prop :=
  exists k, p = dir ++ [prefix +:+ pretty (k : nat) +:+ ".tmp"].
Definition replaced (dir : path) (prefix name : string) (p : path) : Prop :=
  p = dir ++ [name] \/ isTemp dir prefix p.

Lemma tempName_isTemp fs dir prefix : isTemp dir prefix (dir ++ [tempName fs dir prefix]).
Proof.
  unfold tempName. generalize (S (size fs)), 0%nat. intros fuel.
  induction fuel as [|fuel IH]; intros k; simpl; [by eexists|]. case_match; [by eexists|apply IH].
Qed.

Lemma touches_removeQuietly (P : path -> Prop) p : P p -> touches P (removeQuietly p).
Proof. intros. unfold removeQuietly. touch. Qed.
#[export] Hint Resolve touches_checkRegular touches_readFile touches_withLock
  touches_removeQuietly : touch.

Lemma touches_replaceFile ctx dir prefix name data :
  touches (replaced dir prefix name) (replaceFile ctx dir prefix name data).
Proof.
  assert (Ht : forall fs, replaced dir prefix name (dir ++ [tempName fs dir prefix])) by
    (intros; right; apply tempName_isTemp).
  assert (Hn : replaced dir prefix name (dir ++ [name])) by (by left).
  unfold replaceFile. touch.
Qed.
#[export] Hint Resolve touches_replaceFile : touch.
