(* ===== verification/LogStore.v ===== *)
(** The run level of the workspace log store (src/pkg/workspacelogs/store.go):
    paths, manifest files, and the operations that create, join and update a
    run under its manifest lock. *)
From S2P Require Import Prelude GoStd LogTypes LogManifest LogFS.

Definition runsDirName := "runs".
Definition producersDir := "producers".
Definition manifestName := "manifest.json".
Definition manifestLock := "manifest.lock".
Definition appendLock := "append.lock".

Definition MaxStoreBytes : Z := 512 * 1024 * 1024.

(** ** What JSON keeps of a manifest *)

Definition cleanRef (p : ProducerRef) : ProducerRef :=
  mkProducerRef (coerceUTF8 (pProducerID p)) (coerceUTF8 (pParentProducerID p))
    (coerceUTF8 (pState p)) (coerceUTF8 (pLocation p)) (pSealed p).
Definition cleanManifest (m : RunManifest) : RunManifest :=
  mkManifest (mSchemaVersion m) (coerceUTF8 (mRunID m)) (coerceUTF8 (mContext m))
    (coerceUTF8 <$> mWorkspaceUID m) (coerceUTF8 (mWorkspaceIDAtStart m))
    (coerceUTF8 (mCommand m)) (coerceUTF8 (mTaskID m)) (mCreatedAt m) (mUpdatedAt m)
    (coerceUTF8 (mCommandState m)) (coerceUTF8 (mCaptureState m))
    (map coerceUTF8 (mConditions m)) (map cleanRef (mProducers m)) (mDiscoverySealed m).

(** ** Paths *)

Definition runPath (runID : string) : path := [runsDirName; runID].
Definition producerPath (runID producerID : string) : path :=
  [runsDirName; runID; producersDir; producerID].
#[global] Arguments producerPath : simpl never.
#[global] Arguments runPath : simpl never.

Definition runDir (runID : string) : goerr + path :=
  match requireID "runId" runID with Some e => inl e | None => inr (runPath runID) end.
Definition producerDir (runID producerID : string) : goerr + path :=
  match runDir runID with
  | inl e => inl e
  | inr _ => match requireID "producerId" producerID with
             | Some e => inl e
             | None => inr (producerPath runID producerID)
             end
  end.

Section Store.
Context `{JSON RunManifest} `{IDSource}.

Definition readManifest (dir : path) : St (goerr + RunManifest) :=
  let p := dir ++ [manifestName] in
  let! _ := checkRegular p in
  let! data := readFile "read run manifest" p in
  match data with
  | None => throw ErrNotFound
  | Some d => match Unmarshal d with
              | Some m => ok m
              | None => throw (Errorf "decode run manifest: %w" [AErr jsonError])
              end
  end.

Definition writeManifest (dir : path) (m : RunManifest) : St (goerr + unit) :=
  match Marshal m with
  | None => throw (Errorf "encode run manifest: %w" [AErr jsonError])
  | Some data => replaceFile "manifest" dir "manifest-" manifestName data
  end.

(** [update] with what the function leaves in a captured variable as an extra
    result. *)
Definition update {A} (runID : string) (fn : RunManifest -> goerr + (RunManifest * A))
    : St (goerr + A) :=
  let! dir := lift (runDir runID) in
  withLock (dir ++ [manifestLock]) (
    let! m := readManifest dir in
    let! res := lift (fn m) in
    let* t := now in
    let! _ := writeManifest dir (updated res.1 t) in
    ok res.2).
(** [update] with a function of [manifestFn]'s type. *)
Definition updateWith (runID : string) (fn : RunManifest -> goerr + RunManifest)
    : St (goerr + unit) :=
  update runID (fun m => match fn m with inl e => inl e | inr m' => inr (m', tt) end).

Definition storeFull : St bool :=
  get (fun w => MaxStoreBytes <=? dirBytes (wFS w) [runsDirName]).

Definition createOrJoin (dir : path) (spec : RunSpec) : St (goerr + RunManifest) :=
  let* existing := readManifest dir in
  match existing with
  | inr m => match joinConflict m spec with Some e => throw e | None => ok m end
  | inl e =>
      if negb (errorsIs e "workspacelogs.ErrNotFound") then throw e
      else
        let* t := now in
        let* full := storeFull in
        let m := newManifest spec t full in
        let! _ := writeManifest dir m in ok m
  end.

Definition withRunID (spec : RunSpec) (id : string) : RunSpec :=
  mkRunSpec id (sContext spec) (sWorkspaceUID spec) (sWorkspaceIDAtStart spec)
    (sCommand spec) (sTaskID spec).

Definition CreateRun (spec0 : RunSpec) : St (goerr + RunManifest) :=
  let! _ := guard_err (validateSpec spec0) in
  let* spec := (if bool_decide (sRunID spec0 = "")
                then let* id := NewID in ret (withRunID spec0 id)
                else ret spec0) in
  let! dir := lift (runDir (sRunID spec)) in
  let! _ := ensureDir [runsDirName; sRunID spec] in
  withLock (dir ++ [manifestLock]) (createOrJoin dir spec).

Definition Manifest (runID : string) : St (goerr + RunManifest) :=
  let! dir := lift (runDir runID) in readManifest dir.

Definition BindWorkspace (runID uid idAtStart : string) : St (goerr + unit) :=
  if bool_decide (uid = "") || (maxNameBytes <? len uid)
  then throw (wrap ErrInvalidRecord "workspace UID" [])
  else updateWith runID (manifestFn (OpBind uid idAtStart)).

Definition SetTaskID (runID taskID : string) : St (goerr + unit) :=
  if maxNameBytes <? len taskID
  then throw (wrap ErrInvalidRecord "taskId is too long" [])
  else updateWith runID (manifestFn (OpTask taskID)).

Definition SetCommandState (runID state : string) : St (goerr + unit) :=
  updateWith runID (manifestFn (OpCommand state)).

Definition withState (s : string) (ref : ProducerRef) : ProducerRef :=
  mkProducerRef (pProducerID ref) (pParentProducerID ref) s (pLocation ref) (pSealed ref).

Definition RegisterProducer (runID : string) (ref0 : ProducerRef) : St (goerr + unit) :=
  let! _ := guard_err (requireID "producerId" (pProducerID ref0)) in
  let ref := if bool_decide (pState ref0 = "") then withState ProducerReserved ref0 else ref0 in
  let! capErr := update runID (registerFn ref) in
  guard_err capErr.

Definition SealDiscovery (runID : string) : St (goerr + unit) :=
  updateWith runID (manifestFn OpSeal).
Definition AddCondition (runID c : string) : St (goerr + unit) :=
  updateWith runID (manifestFn (OpCondition c)).
End Store.

(** ** The files the run level touches *)

Definition runFile (runID : string) (p : path) : Prop :=
  exists name, p = runPath runID ++ [name].

Lemma touches_readManifest `{JSON RunManifest} P dir : touches P (readManifest dir).
Proof. unfold readManifest. touch. Qed.
#[export] Hint Resolve touches_readManifest : touch.

Lemma touches_writeManifest `{JSON RunManifest} (P : path -> Prop) dir m :
  (forall p, replaced dir "manifest-" manifestName p -> P p) ->
  touches P (writeManifest dir m).
Proof.
  intros HP. unfold writeManifest. case_match; [|touch].
  eapply touches_mono; [apply HP|apply touches_replaceFile].
Qed.

Lemma replaced_runFile runID prefix p :
  replaced (runPath runID) prefix manifestName p -> runFile runID p.
Proof. intros [->|[k ->]]; by eexists. Qed.

Lemma touches_update `{JSON RunManifest} {A} runID (fn : RunManifest -> goerr + (RunManifest * A)) :
  touches (runFile runID) (update runID fn).
Proof.
  unfold update, runDir, lift. destruct (requireID "runId" runID); [done|].
  rewrite ebind_inr. apply touches_withLock; [by eexists|].
  touch; eauto using touches_writeManifest, replaced_runFile.
Qed.
#[export] Hint Resolve touches_update : touch.

Lemma touches_RegisterProducer `{JSON RunManifest} runID ref :
  touches (runFile runID) (RegisterProducer runID ref).
Proof. unfold RegisterProducer. touch. Qed.
Lemma touches_AddCondition `{JSON RunManifest} runID c :
  touches (runFile runID) (AddCondition runID c).
Proof. unfold AddCondition, updateWith. touch. Qed.
#[export] Hint Resolve touches_RegisterProducer touches_AddCondition : touch.
