(* ===== verification/LogSegment.v ===== *)
(** Segments and the append path of the workspace log store
    (src/pkg/workspacelogs/segment.go, append.go): file names, scanning and
    repairing a producer's segments, and appending a batch. *)
From S2P Require Import Prelude GoStd LogTypes LogManifest LogFS LogStore.

Definition segmentPrefix := "seg-".
Definition segmentSuffix := ".jsonl".
Definition segmentDigits : nat := 20.

Definition MaxSegmentBytes : Z := 512 * 1024.
Definition MaxRunBytes : Z := 10 * 1024 * 1024.
Definition metadataReserve : Z := 256 * 1024.
Definition finalStateReserve : Z := metadataReserve / 2.

(** ** Segment names *)

Record segment := mkSegment { gName : string; gFirst : Z }.

Definition segmentName (first : Z) : string :=
  segmentPrefix +:+ padDigits segmentDigits first +:+ segmentSuffix.

Definition parseSegmentName (name : string) : option Z :=
  if negb (HasPrefix name segmentPrefix) || negb (HasSuffix name segmentSuffix) then None
  else
    let digits := TrimSuffix (TrimPrefix name segmentPrefix) segmentSuffix in
    if negb (bool_decide (String.length digits = segmentDigits)) then None
    else ParseUint digits.

Definition segmentLe (a b : segment) : Prop := gFirst a <= gFirst b.
#[export] Instance segmentLe_dec : RelDecision segmentLe.
Proof. intros a b. unfold segmentLe. apply _. Defined.
#[export] Instance segmentLe_trans : Transitive segmentLe.
Proof. intros a b c. unfold segmentLe. lia. Qed.
#[export] Instance segmentLe_total : Total segmentLe.
Proof. intros a b. unfold segmentLe. lia. Qed.

Definition segmentOf (p : string * node) : option segment :=
  match parseSegmentName p.1, p.2 with
  | Some first, File _ => Some (mkSegment p.1 first)
  | _, _ => None
  end.
Definition segmentsIn (fs : FS) (dir : path) : list segment :=
  merge_sort segmentLe (omap segmentOf (entries fs dir)).

Definition listSegments (dir : path) : St (goerr + list segment) :=
  sys "list segments" (
    let* n := lookupFS dir in
    match n with
    | None => ok []
    | Some Dir => let* fs := get wFS in ok (segmentsIn fs dir)
    | Some _ => throw (Errorf "list segments: %w" [AErr osError])
    end).

(** ** What JSON keeps of a record *)

Definition cleanRecord (r : LogRecord) : LogRecord :=
  mkRecord (rSchemaVersion r) (coerceUTF8 (rKind r)) (coerceUTF8 (rRunID r))
    (coerceUTF8 (rProducerID r)) (rSequence r) (rTime r) (coerceUTF8 (rParentProducerID r))
    (coerceUTF8 (rChildProducerID r)) (coerceUTF8 (rProducerState r)) (rDiscoverySealed r)
    (coerceUTF8 (rInvocationID r)) (coerceUTF8 (rPhase r)) (coerceUTF8 (rHook r)) (rHookIndex r)
    (coerceUTF8 (rHookKey r)) (coerceUTF8 (rLocation r)) (coerceUTF8 (rState r))
    (coerceUTF8 (rReason r)) (rDurationMillis r) (rExitCode r) (coerceUTF8 (rSignal r))
    (coerceUTF8 (rStream r)) (coerceUTF8 (rText r)) (rBytes r) (rElided r)
    (coerceUTF8 (rCondition r)) (coerceUTF8 (rDetail r)) (rDroppedBytes r).

(** [rec.Text, rec.Elided = "", true] and [rec.Bytes = n]. *)
Definition elide (r : LogRecord) : LogRecord :=
  mkRecord (rSchemaVersion r) (rKind r) (rRunID r) (rProducerID r) (rSequence r) (rTime r)
    (rParentProducerID r) (rChildProducerID r) (rProducerState r) (rDiscoverySealed r)
    (rInvocationID r) (rPhase r) (rHook r) (rHookIndex r) (rHookKey r) (rLocation r) (rState r)
    (rReason r) (rDurationMillis r) (rExitCode r) (rSignal r) (rStream r) "" (rBytes r) true
    (rCondition r) (rDetail r) (rDroppedBytes r).
Definition setBytes (n : Z) (r : LogRecord) : LogRecord :=
  mkRecord (rSchemaVersion r) (rKind r) (rRunID r) (rProducerID r) (rSequence r) (rTime r)
    (rParentProducerID r) (rChildProducerID r) (rProducerState r) (rDiscoverySealed r)
    (rInvocationID r) (rPhase r) (rHook r) (rHookIndex r) (rHookKey r) (rLocation r) (rState r)
    (rReason r) (rDurationMillis r) (rExitCode r) (rSignal r) (rStream r) (rText r) n (rElided r)
    (rCondition r) (rDetail r) (rDroppedBytes r).

(** ** Appending *)

Record AppendResult := mkAppend {
  aAccepted : Z;
  aWritten : Z;
  aDuplicates : Z;
  aElided : Z;
}.
Definition zeroAppend : AppendResult := mkAppend 0 0 0 0.

Record batchWriter := mkWriter { bTail : tail; bRunBytes : Z; bOpen : bool }.

Definition sameSource (r first : LogRecord) : bool :=
  bool_decide (rRunID r = rRunID first) && bool_decide (rProducerID r = rProducerID first).
(** [i] is the index of the next record. *)
Fixpoint validateBatchFrom (first : LogRecord) (i : Z) (records : list LogRecord) : err :=
  match records with
  | [] => None
  | rec :: rest =>
      andThen (Validate rec)
        (if negb (sameSource rec first)
         then Some (wrap ErrInvalidRecord "batch mixes runs or producers" [])
         else if negb (rSequence rec =? u64 (rSequence first + i))
         then Some (wrap ErrInvalidRecord "batch sequences are not contiguous" [])
         else validateBatchFrom first (i + 1) rest)
  end.
Definition validateBatch (records : list LogRecord) : err :=
  match records with [] => None | first :: _ => validateBatchFrom first 0 records end.

Section Append.
Context `{JSON LogRecord}.

Definition decodeLine (line : string) : option LogRecord :=
  match Unmarshal (TrimSpace line) with
  | Some rec => match Validate rec with None => Some rec | Some _ => None end
  | None => None
  end.

(** The records [scanSegment] passes to its function, [None] for a malformed
    line; every caller drops them when the scan fails. *)
Definition scanSegment (p : path) : St (goerr + list (option LogRecord)) :=
  let! _ := checkRegular p in
  sys "open segment" (
    let* n := lookupFS p in
    match n with
    | Some (File d) => sys "read segment" (ok (map decodeLine (splitLines d).1))
    | _ => throw (Errorf "open segment: %w" [AErr fsErrNotExist])
    end).

Definition repairTail (p : path) : St (goerr + Z) :=
  let! _ := checkRegular p in
  sys "open segment" (
    let* n := lookupFS p in
    match n with
    | Some (File d) =>
        sys "read segment" (
          let keep := len d - len (splitLines d).2 in
          if keep =? len d then ok keep
          else sys "truncate partial record" (
            let* _ := writeFS p (File (string_take (Z.to_nat keep) d)) in ok keep))
    | _ => throw (Errorf "open segment: %w" [AErr fsErrNotExist])
    end).

Definition cachedTail (dir : path) (name : string) (size : Z) : St (option tail) :=
  get (fun w => match wTails w !! dir with
                | Some t => if bool_decide (tName t = name) && (tSize t =? size)
                            then Some t else None
                | None => None
                end).

Definition foldLast (start : Z) (recs : list (option LogRecord)) : Z :=
  foldl (fun acc r => match r with Some r => Z.max acc (rSequence r) | None => acc end)
    start recs.

Definition rescanTail (p : path) (last : segment) : St (goerr + tail) :=
  let! size := repairTail p in
  let! recs := scanSegment p in
  ok (mkTail (gName last) size (foldLast (u64 (gFirst last - 1)) recs)).

Definition statSize (p : path) : St (goerr + Z) :=
  sys "stat segment" (
    let* n := lookupFS p in
    match n with
    | Some (File d) => ok (len d)
    | Some _ => ok 0
    | None => throw (Errorf "stat segment: %w" [AErr fsErrNotExist])
    end).

Definition zeroTail : tail := mkTail "" 0 0.
Definition loadTail (dir : path) : St (goerr + tail) :=
  let! segs := listSegments dir in
  match List.last segs (mkSegment "" 0), segs with
  | _, [] => ok zeroTail
  | last, _ =>
      let p := dir ++ [gName last] in
      let! _ := checkRegular p in
      let! size := statSize p in
      let* cached := cachedTail dir (gName last) size in
      match cached with
      | Some t => ok t
      | None => rescanTail p last
      end
  end.

Definition rememberTail (dir : path) (t : tail) : St unit :=
  put (fun w => setTails (<[dir := t]> (wTails w)) w).

(** *** The batch writer *)

Definition marshalLine (rec : LogRecord) : goerr + string :=
  match Marshal rec with
  | Some s => inr (s +:+ nl)
  | None => inl (Errorf "encode record: %w" [AErr jsonError])
  end.

Definition checkCapacity (w : batchWriter) (line : string) (rec : LogRecord)
    : goerr + (string * LogRecord) :=
  if MaxRunBytes <? bRunBytes w + len line then inl ErrCapacity else inr (line, rec).

Definition fitOutput (w : batchWriter) (line : string) (rec : LogRecord)
    : goerr + (string * LogRecord) :=
  if MaxRunBytes - metadataReserve <? bRunBytes w + len line then
    match marshalLine (elide rec) with
    | inl e => inl e
    | inr line' =>
        if MaxRunBytes - finalStateReserve <? bRunBytes w + len line' then inl ErrCapacity
        else checkCapacity w line' (elide rec)
    end
  else checkCapacity w line rec.

Definition encode (w : batchWriter) (rec0 : LogRecord) : goerr + (string * LogRecord) :=
  let output := bool_decide (rKind rec0 = KindOutput) in
  let rec := if output && (rBytes rec0 =? 0) then setBytes (len (rText rec0)) rec0 else rec0 in
  match marshalLine rec with
  | inl e => inl e
  | inr line =>
      if output then fitOutput w line rec
      else if MaxMetadataBytes <? len line
      then inl (wrap ErrInvalidRecord "metadata record exceeds %d bytes" [AInt MaxMetadataBytes])
      else checkCapacity w line rec
  end.

Definition openSegment (dir : path) (name : string) : St (goerr + unit) :=
  let p := dir ++ [name] in
  let! _ := checkRegular p in
  sys "open segment" (
    let* parent := parentIsDir p in
    let* n := lookupFS p in
    match parent, n with
    | true, None => let* _ := writeFS p (File "") in ok tt
    | true, Some (File _) => ok tt
    | _, _ => throw (Errorf "open segment: %w" [AErr osError])
    end).

Definition openFor (dir : path) (w : batchWriter) (seq n : Z) : St (goerr + batchWriter) :=
  let fits := tSize (bTail w) + n <=? MaxSegmentBytes in
  if bOpen w && fits then ok w
  else
    let t := if negb (bOpen w) && negb (bool_decide (tName (bTail w) = "")) && fits
             then bTail w else mkTail (segmentName seq) 0 (tLast (bTail w)) in
    let! _ := openSegment dir (tName t) in
    ok (mkWriter t (bRunBytes w) true).

(** Append text to the open segment; a failing write is short. *)
Definition appendText (p : path) (text : string) : St unit :=
  let* n := lookupFS p in
  match n with
  | Some (File d) => writeFS p (File (d +:+ text))
  | _ => ret tt
  end.
Definition writeLine (p : path) (line : string) : St (goerr + unit) :=
  let* f := sysFault in
  match f with
  | Some n =>
      let* _ := appendText p (string_take (Nat.min n (String.length line - 1)) line) in
      throw (Errorf "write record: %w" [AErr osError])
  | None => let* _ := appendText p line in ok tt
  end.

Definition write (dir : path) (w : batchWriter) (rec : LogRecord)
    : St (goerr + (batchWriter * LogRecord)) :=
  let! enc := lift (encode w rec) in
  let '(line, stored) := enc in
  let! w1 := openFor dir w (rSequence stored) (len line) in
  let! _ := writeLine (dir ++ [tName (bTail w1)]) line in
  ok (mkWriter (mkTail (tName (bTail w1)) (tSize (bTail w1) + len line) (rSequence stored))
        (bRunBytes w1 + len line) true, stored).

(** The loop of [appendLocked]: the final writer on success, the result and
    the records applied in any case. *)
Fixpoint appendLoop (dir : path) (w : batchWriter) (res : AppendResult)
    (applied : list LogRecord) (records : list LogRecord)
    : St ((goerr + batchWriter) * AppendResult * list LogRecord) :=
  match records with
  | [] => ret (inr w, res, applied)
  | rec :: rest =>
      let last := tLast (bTail w) in
      if rSequence rec <=? last then
        appendLoop dir w (mkAppend (aAccepted res) (aWritten res) (aDuplicates res + 1)
                            (aElided res)) applied rest
      else if negb (rSequence rec =? u64 (last + 1)) then
        ret (inl (wrap ErrSequenceGap "expected %d, got %d"
                    [AInt (u64 (last + 1)); AInt (rSequence rec)]), res, applied)
      else
        let* r := write dir w rec in
        match r with
        | inl e => ret (inl e, res, applied)
        | inr (w', stored) =>
            appendLoop dir w'
              (mkAppend (rSequence stored) (aWritten res + 1) (aDuplicates res)
                 (if rElided stored then aElided res + 1 else aElided res))
              (applied ++ [stored]) rest
        end
  end.

Definition appendLocked (dir : path) (records : list LogRecord)
    : St (AppendResult * list LogRecord * err) :=
  let* lt := loadTail dir in
  match lt with
  | inl e => ret (zeroAppend, [], Some e)
  | inr t =>
      let* fs := get wFS in
      let w := mkWriter t (dirBytes fs (removelast (removelast dir))) false in
      let* out := appendLoop dir w (mkAppend (tLast t) 0 0 0) [] records in
      let '(r, res, applied) := out in
      match r with
      | inl e => ret (res, applied, Some e)
      | inr w' => let* _ := rememberTail dir (bTail w') in ret (res, applied, None)
      end
  end.

(** *** The operation *)

Context `{JSON RunManifest}.

Definition registerFromFirstRecord (rec : LogRecord) : St (goerr + unit) :=
  if negb (bool_decide (rKind rec = KindProducer)) || negb (rSequence rec =? 1) ||
     negb (bool_decide (rChildProducerID rec = ""))
  then throw (wrap ErrNotFound "producer is not registered" [])
  else RegisterProducer (rRunID rec)
         (mkProducerRef (rProducerID rec) (rParentProducerID rec) ProducerRunning
            (rLocation rec) false).

Definition prepareProducer (first : LogRecord) : St (goerr + path) :=
  let! m := Manifest (rRunID first) in
  let! _ := (match producer m (rProducerID first) with
             | Some _ => ok tt
             | None => registerFromFirstRecord first
             end) in
  let! _ := ensureDir (producerPath (rRunID first) (rProducerID first)) in
  lift (producerDir (rRunID first) (rProducerID first)).

Definition relevant (r : LogRecord) : bool :=
  bool_decide (rKind r = KindProducer) || bool_decide (rKind r = KindCapture) || rElided r.
Definition applyToManifest (runID : string) (applied : list LogRecord) : St (goerr + unit) :=
  if existsb relevant applied then updateWith runID (manifestFn (OpApply applied)) else ok tt.

Definition errOf {A} (r : goerr + A) : err := match r with inl e => Some e | inr _ => None end.

Definition Append (records : list LogRecord) : St (AppendResult * err) :=
  match records with
  | [] => ret (zeroAppend, None)
  | first :: _ =>
      match validateBatch records with
      | Some e => ret (zeroAppend, Some e)
      | None =>
          let* prepared := prepareProducer first in
          match prepared with
          | inl e => ret (zeroAppend, Some e)
          | inr dir =>
              let* locked := withLock (dir ++ [appendLock])
                               (let* x := appendLocked dir records in ok x) in
              let '(res, applied, lockErr) :=
                match locked with inl e => (zeroAppend, [], Some e) | inr x => x end in
              let* applyErr := applyToManifest (rRunID first) applied in
              ret (res, andThen lockErr (errOf applyErr))
          end
      end
  end.
End Append.
