(* ===== verification/LogDisk.v ===== *)
(** The segment files of one producer as one log: segment names, the chain of
    segments that holds records 1, 2, 3, ..., and how the chain changes when a
    line is written or a segment opened; where these files are on disk, what
    [listSegments] finds, and the invariants the append path maintains. *)
From S2P Require Import Prelude GoStd GoText LogTypes LogManifest LogFS LogStore LogSegment.

(** ** Segment names *)

Lemma segmentName_parse n : 0 <= n < 2 ^ 64 -> parseSegmentName (segmentName n) = Some n.
Proof.
  intros Hn. unfold parseSegmentName, segmentName.
  rewrite (proj2 (HasPrefix_spec _ segmentPrefix)) by (by eexists).
  rewrite (proj2 (HasSuffix_spec _ segmentSuffix)) by (rewrite string_app_assoc; by eexists).
  rewrite TrimPrefix_app, TrimSuffix_app, padDigits_length.
  change (negb true || negb true) with false. cbn iota. rewrite bool_decide_true by done. cbn [negb].
  apply ParseUint_padDigits; [done| |unfold segmentDigits; lia].
  etrans; [apply Hn|]. done.
Qed.

Lemma suffix_of_longer p s t x :
  p +:+ t = s +:+ x -> (String.length x <= String.length t)%nat -> exists v, t = v +:+ x.
Proof.
  intros H Hl. assert (Hlen : (String.length p <= String.length s)%nat).
  { apply (f_equal String.length) in H. rewrite !string_length_app in H. lia. }
  exists (string_drop (String.length p) s).
  rewrite <- (string_take_drop (String.length p) s), <- string_app_assoc in H.
  apply string_app_inj_l in H as [_ ->]; [done|]. rewrite string_length_take. lia.
Qed.

Lemma parse_segmentName s n :
  parseSegmentName s = Some n -> s = segmentName n /\ 0 <= n < 2 ^ 64.
Proof.
  unfold parseSegmentName.
  destruct (HasPrefix s segmentPrefix) eqn:Hp; [|done]. apply HasPrefix_spec in Hp as [t Ht].
  destruct (HasSuffix s segmentSuffix) eqn:Hs; [|done]. apply HasSuffix_spec in Hs as [u Hu].
  replace (TrimPrefix s segmentPrefix) with t by (by rewrite Ht, TrimPrefix_app).
  simpl. case_bool_decide as Hl; [|done]. simpl.
  destruct (suffix_of_longer segmentPrefix u t segmentSuffix) as [v Hv]; [congruence| |].
  { unfold TrimSuffix in Hl. unfold segmentDigits in Hl. case_match; [|rewrite Hl; simpl; lia].
    rewrite string_length_take in Hl. simpl. lia. }
  subst t. rewrite TrimSuffix_app in Hl |- *. intros [Hd Hn]%ParseUint_Some. rewrite Hl in Hd.
  split; [|done]. unfold segmentName. by rewrite Hd.
Qed.

Lemma segmentName_inj m n :
  0 <= m < 2 ^ 64 -> 0 <= n < 2 ^ 64 -> segmentName m = segmentName n -> m = n.
Proof.
  intros Hm Hn H. apply segmentName_parse in Hm, Hn. rewrite H in Hm. congruence.
Qed.

Lemma segmentName_nonempty n : segmentName n <> "".
Proof. by unfold segmentName, segmentPrefix. Qed.

#[global] Arguments parseSegmentName : simpl never.
#[global] Arguments segmentName : simpl never.
#[global] Opaque parseSegmentName segmentName.

(** ** Chains of segments *)

Section Chain.
Context `{JSON LogRecord} (rid pid : string).
Implicit Types (L : list (Z * string)) (recs rs : list LogRecord) (n f : Z) (c : string).

Definition lines c : list string := (splitLines c).1.
Definition torn c : string := (splitLines c).2.

(** Records [n], [n+1], ... of this producer. *)
Definition contiguous n rs : Prop :=
  forall i r, rs !! i = Some r ->
    rSequence r = n + Z.of_nat i /\ rRunID r = rid /\ rProducerID r = pid.

(** [chain n L recs]: the segments [L] (first sequence and content) hold the
    records [recs], numbered from [n]; a segment is named after its first
    record, only the last one may be empty or end in a torn line. *)
Inductive chain : Z -> list (Z * string) -> list LogRecord -> Prop :=
| chain_nil n : chain n [] []
| chain_cons n c rs L recs :
    map decodeLine (lines c) = map Some rs ->
    contiguous n rs ->
    (L = [] \/ (torn c = "" /\ rs <> [])) ->
    chain (n + Z.of_nat (length rs)) L recs ->
    chain n ((n, c) :: L) (rs ++ recs).

Lemma contiguous_app n rs rs' :
  contiguous n (rs ++ rs') <->
  contiguous n rs /\ contiguous (n + Z.of_nat (length rs)) rs'.
Proof.
  split.
  - intros Hc. split.
    + intros i r Hi. apply Hc. by apply lookup_app_l_Some.
    + intros i r Hi. destruct (Hc (length rs + i)%nat r) as (? & ? & ?).
      { rewrite lookup_app_r by lia. by replace (length rs + i - length rs)%nat with i by lia. }
      split_and!; [lia|done|done].
  - intros [H1 H2] i r [Hi|[Hl Hi]]%lookup_app_Some; [by apply H1|].
    destruct (H2 _ _ Hi) as (? & ? & ?). split_and!; [lia|done|done].
Qed.

Lemma contiguous_nil n : contiguous n [].
Proof. by intros i r Hi. Qed.
Lemma contiguous_one n r :
  contiguous n [r] <-> rSequence r = n /\ rRunID r = rid /\ rProducerID r = pid.
Proof.
  split.
  - intros Hc. destruct (Hc 0%nat r eq_refl) as (? & ? & ?). split_and!; [lia|done|done].
  - intros (? & ? & ?) [|i] r' Hi; simplify_eq/=. split_and!; [lia|done|done].
Qed.

Lemma chain_contiguous n L recs : chain n L recs -> contiguous n recs.
Proof. induction 1; [apply contiguous_nil|]. by apply contiguous_app. Qed.

(** The last segment of a chain, and what may take its place. *)
Lemma chain_last n L f c recs :
  chain n (L ++ [(f, c)]) recs ->
  exists recs0 rs, recs = recs0 ++ rs /\ f = n + Z.of_nat (length recs0) /\
    map decodeLine (lines c) = map Some rs /\ contiguous f rs /\
    (forall T rs', chain f T rs' -> chain n (L ++ T) (recs0 ++ rs')).
Proof.
  revert n recs. induction L as [|[g d] L IH]; intros n recs Hc; simpl in *.
  - inversion Hc as [|? ? rs ? recs' Hd Hr Ht Hc']; subst. inversion Hc'; subst.
    exists [], rs. rewrite app_nil_r, Z.add_0_r. split_and!; done.
  - inversion Hc as [|? ? rs ? recs' Hd Hr Ht Hc']; subst.
    destruct (IH _ _ Hc') as (recs0 & rs1 & -> & -> & Hd1 & Hr1 & Hrep).
    exists (rs ++ recs0), rs1. split_and!; [by rewrite app_assoc| |done|done|].
    + rewrite length_app, Nat2Z.inj_add. lia.
    + intros T rs' HT. rewrite <- app_assoc. apply chain_cons; [done|done| |by apply Hrep].
      destruct Ht as [Ht|Ht]; [by destruct L|by right].
Qed.

Lemma chain_one n c rs :
  map decodeLine (lines c) = map Some rs -> contiguous n rs -> chain n [(n, c)] rs.
Proof.
  intros Hd Hr. rewrite <- (app_nil_r rs). apply chain_cons; [done|done|by left|constructor].
Qed.

(** Adding a complete line to the last segment. *)
Lemma chain_append_line n L f c c' line r recs :
  chain n (L ++ [(f, c)]) recs ->
  lines c' = lines c ++ [line] -> decodeLine line = Some r ->
  contiguous (n + Z.of_nat (length recs)) [r] ->
  chain n (L ++ [(f, c')]) (recs ++ [r]).
Proof.
  intros Hc Hl Hd Hr. destruct (chain_last _ _ _ _ _ Hc) as (recs0 & rs & -> & -> & Hd0 & Hr0 & Hrep).
  rewrite <- app_assoc. apply Hrep, chain_one.
  - rewrite Hl, !map_app, Hd0. simpl. by rewrite Hd.
  - apply contiguous_app. split; [done|]. by rewrite length_app, Nat2Z.inj_add, Z.add_assoc in Hr.
Qed.

(** Adding or cutting a torn line at the end. *)
Lemma chain_same_lines n L f c c' recs :
  chain n (L ++ [(f, c)]) recs -> lines c' = lines c -> chain n (L ++ [(f, c')]) recs.
Proof.
  intros Hc Hl. destruct (chain_last _ _ _ _ _ Hc) as (recs0 & rs & -> & -> & Hd0 & Hr0 & Hrep).
  apply Hrep, chain_one; [by rewrite Hl|done].
Qed.

(** Starting the next segment. *)
Lemma chain_new_segment n L f c recs :
  chain n (L ++ [(f, c)]) recs -> torn c = "" -> lines c <> [] ->
  chain n ((L ++ [(f, c)]) ++ [(n + Z.of_nat (length recs), "")]) recs.
Proof.
  intros Hc Ht Hl. destruct (chain_last _ _ _ _ _ Hc) as (recs0 & rs & -> & -> & Hd0 & Hr0 & Hrep).
  rewrite <- app_assoc. apply Hrep. simpl. rewrite <- (app_nil_r rs).
  apply chain_cons; [done|done| |].
  - right. split; [done|]. intros ->. by destruct (lines c).
  - rewrite app_nil_r, length_app, Nat2Z.inj_add, Z.add_assoc.
    apply chain_one; [done|apply contiguous_nil].
Qed.

Lemma chain_first_new n : chain n [(n, "")] [].
Proof. apply chain_one; [done|apply contiguous_nil]. Qed.

(** The last segment holds the records from its name up to the end. *)
Lemma chain_last_count n L f c recs :
  chain n (L ++ [(f, c)]) recs ->
  f + Z.of_nat (length (lines c)) = n + Z.of_nat (length recs).
Proof.
  intros Hc. destruct (chain_last _ _ _ _ _ Hc) as (recs0 & rs & -> & -> & Hd0 & Hr0 & Hrep).
  apply (f_equal length) in Hd0. rewrite !length_map in Hd0. rewrite length_app. lia.
Qed.

Lemma foldLast_contiguous f rs :
  contiguous f rs -> foldLast (f - 1) (map Some rs) = f + Z.of_nat (length rs) - 1.
Proof.
  revert f. induction rs as [|r rs IH] using rev_ind; intros f Hr; [simpl; lia|].
  apply contiguous_app in Hr as [Hr Hl]. apply contiguous_one in Hl as (Hs & _).
  rewrite map_app. unfold foldLast in *. rewrite foldl_app, (IH f Hr). simpl.
  rewrite length_app. simpl. lia.
Qed.

Lemma chain_last_scan n L f c recs :
  chain n (L ++ [(f, c)]) recs ->
  foldLast (f - 1) (map decodeLine (lines c)) = n + Z.of_nat (length recs) - 1.
Proof.
  intros Hc. destruct (chain_last _ _ _ _ _ Hc) as (recs0 & rs & -> & -> & Hd0 & Hr0 & Hrep).
  rewrite Hd0, foldLast_contiguous, length_app by done. lia.
Qed.

(** Segments start in increasing order, from the first sequence on. *)
Lemma chain_first_ge n L recs f c : chain n L recs -> (f, c) ∈ L -> n <= f <= n + Z.of_nat (length recs).
Proof.
  induction 1 as [|n d rs L recs Hd Hr Ht Hc IH]; [set_solver|].
  rewrite length_app. intros [Heq|Hin]%elem_of_cons; [simplify_eq; lia|]. specialize (IH Hin). lia.
Qed.

Lemma chain_sorted n L recs : chain n L recs -> StronglySorted Z.lt L.*1.
Proof.
  induction 1 as [|n d rs L recs Hd Hr Ht Hc IH]; simpl; constructor; [done|].
  apply Forall_forall. intros f ([f' c] & -> & Hin)%list_elem_of_fmap. simpl.
  destruct Ht as [->|[_ Hne]]; [set_solver|]. apply (chain_first_ge _ _ _ _ _ Hc) in Hin.
  destruct rs; [done|]. simpl in Hin. lia.
Qed.
End Chain.

(** ** Directory listings *)

Lemma entryName_Some dir p name : entryName dir p = Some name <-> p = dir ++ [name].
Proof.
  unfold entryName. split.
  - destruct (reverse p) as [|x r] eqn:Hr; [done|]. case_decide as Hd; [|done]. intros [= ->].
    rewrite <- (reverse_involutive p), Hr, reverse_cons. by rewrite Hd.
  - intros ->. rewrite reverse_app. simpl. rewrite reverse_involutive. by rewrite decide_True.
Qed.

Lemma elem_of_entries fs dir name n : (name, n) ∈ entries fs dir <-> fs !! (dir ++ [name]) = Some n.
Proof.
  unfold entries. rewrite list_elem_of_omap. split.
  - intros ([p n'] & Hin & Hp). apply elem_of_map_to_list in Hin. simpl in Hp.
    destruct (entryName dir p) eqn:He; [|done]. apply entryName_Some in He as ->. naive_solver.
  - intros Hn. exists (dir ++ [name], n). rewrite elem_of_map_to_list. split; [done|]. simpl.
    by rewrite (proj2 (entryName_Some dir _ name) eq_refl).
Qed.

Lemma NoDup_omap_inj {A B} (f : A -> option B) l :
  (forall x y z, x ∈ l -> y ∈ l -> f x = Some z -> f y = Some z -> x = y) ->
  NoDup l -> NoDup (omap f l).
Proof.
  induction l as [|x l IH]; intros Hf Hn; [constructor|].
  apply NoDup_cons in Hn as [Hx Hn]. simpl. specialize (IH ltac:(set_solver) Hn).
  destruct (f x) as [z|] eqn:Hz; [|done]. apply NoDup_cons. split; [|done].
  intros (y & Hy & Hyz)%list_elem_of_omap. assert (x = y) by (eapply Hf; set_solver). by subst.
Qed.

Lemma NoDup_entries fs dir : NoDup (entries fs dir).
Proof.
  unfold entries. apply NoDup_omap_inj; [|apply NoDup_map_to_list].
  intros [p n] [q m] [name k] _ _ Hp Hq. simpl in *.
  destruct (entryName dir p) eqn:H1, (entryName dir q) eqn:H2; simplify_eq/=.
  apply entryName_Some in H1, H2. congruence.
Qed.

(** ** Segment files *)

(** The regular files with segment names in [dir] are exactly [L]. *)
Definition segFiles (fs : FS) (dir : path) (L : list (Z * string)) : Prop :=
  forall name f c, parseSegmentName name = Some f ->
    (fs !! (dir ++ [name]) = Some (File c) <-> (f, c) ∈ L).

Definition toSegment (p : Z * string) : segment := mkSegment (segmentName p.1) p.1.

Lemma segmentsIn_chain fs dir L :
  segFiles fs dir L -> StronglySorted Z.lt L.*1 ->
  (forall f c, (f, c) ∈ L -> 0 <= f < 2 ^ 64) ->
  segmentsIn fs dir = map toSegment L.
Proof.
  intros Hs Hsort Hrange. unfold segmentsIn.
  assert (Hin : forall s, s ∈ omap segmentOf (entries fs dir) <-> s ∈ map toSegment L).
  { intros s. rewrite list_elem_of_omap. split.
    - intros ([name n] & Hin%elem_of_entries & Hseg). unfold segmentOf in Hseg. simpl in Hseg.
      destruct (parseSegmentName name) as [f|] eqn:Hp; [|done]. destruct n as [|c|]; simplify_eq.
      apply (Hs name f c Hp) in Hin. apply parse_segmentName in Hp as [-> _].
      apply list_elem_of_fmap. by exists (f, c).
    - intros ([f c] & -> & Hin)%list_elem_of_fmap. exists (segmentName f, File c).
      pose proof (segmentName_parse f (Hrange f c Hin)) as Hp.
      split; [by apply elem_of_entries, (Hs _ f c Hp)|]. unfold segmentOf. cbn [fst snd]. by rewrite Hp. }
  assert (HL : StronglySorted (fun a b => gFirst a < gFirst b) (map toSegment L)).
  { clear -Hsort. induction L as [|[f c] L IH]; simpl in *; [constructor|].
    inversion Hsort as [|? ? Hss Hall]; subst. constructor; [by apply IH|].
    apply Forall_forall. intros s ([g d] & -> & Hin)%list_elem_of_fmap. simpl.
    rewrite Forall_forall in Hall. apply Hall. apply list_elem_of_fmap. by exists (g, d). }
  assert (HLnd : NoDup (map toSegment L)).
  { clear -HL. induction HL as [|s l Hss IH Hall]; constructor; [|done].
    intros Hin. rewrite Forall_forall in Hall. apply Hall in Hin. lia. }
  apply (StronglySorted_unique_strong segmentLe).
  - intros s1 s2 H1 H2 H12 H21. unfold segmentLe in *. rewrite merge_sort_Permutation, Hin in H1.
    apply list_elem_of_fmap in H1 as ([f c] & -> & _). apply list_elem_of_fmap in H2 as ([g d] & -> & _).
    simpl in *. unfold toSegment. simpl. by replace f with g by lia.
  - apply (StronglySorted_merge_sort segmentLe).
  - clear -HL. induction HL as [|s l Hss IH Hall]; constructor; [done|].
    eapply Forall_impl; [exact Hall|]. cbn. intros t Ht. unfold segmentLe. lia.
  - rewrite merge_sort_Permutation. apply NoDup_Permutation; [|done|done].
    apply NoDup_omap_inj; [|apply NoDup_entries]. intros [n1 x] [n2 y] z Hx Hy H1 H2.
    apply elem_of_entries in Hx, Hy. unfold segmentOf in *. simpl in *.
    repeat case_match; simplify_eq. congruence.
Qed.

Section SegFiles.
Implicit Types (fs : FS) (dir : path) (L : list (Z * string)).

Lemma snoc_inj dir (x y : string) : dir ++ [x] = dir ++ [y] -> x = y.
Proof. intros H. apply app_inj_2 in H as [_ H]; [by simplify_eq|done]. Qed.

Lemma segFiles_frame fs fs' dir L :
  (forall name f, parseSegmentName name = Some f -> fs' !! (dir ++ [name]) = fs !! (dir ++ [name])) ->
  segFiles fs dir L -> segFiles fs' dir L.
Proof. intros Hf Hs name f c Hp. rewrite (Hf name f Hp). by apply Hs. Qed.

(** The content of the last segment replaced. *)
Lemma segFiles_replace fs dir L f c c' :
  segFiles fs dir (L ++ [(f, c)]) -> StronglySorted Z.lt (L ++ [(f, c)]).*1 -> 0 <= f < 2 ^ 64 ->
  segFiles (<[dir ++ [segmentName f] := File c']> fs) dir (L ++ [(f, c')]).
Proof.
  intros Hs Hsort Hf name g d Hp. pose proof (segmentName_parse f Hf) as Hpf.
  assert (HfL : forall d, (f, d) ∉ L).
  { intros e Hin. rewrite fmap_app in Hsort. apply StronglySorted_app in Hsort as (Hlt & _ & _).
    specialize (Hlt f f). cbn in Hlt. rewrite list_elem_of_singleton in Hlt.
    assert (f < f); [|lia]. apply Hlt; [|done]. apply list_elem_of_fmap. by exists (f, e). }
  rewrite elem_of_app, list_elem_of_singleton. destruct (decide (name = segmentName f)) as [->|Hne].
  - rewrite lookup_insert_eq. assert (g = f) as -> by congruence. split.
    + intros [= ->]. by right.
    + intros [Hin|[= ->]]; [by destruct (HfL d)|done].
  - rewrite lookup_insert_ne by (intros H%snoc_inj; congruence).
    rewrite (Hs name g d Hp), elem_of_app, list_elem_of_singleton.
    assert (g <> f). { intros ->. apply parse_segmentName in Hp as [-> _]. done. }
    split; (intros [?|?]; [by left|simplify_eq]).
Qed.

(** A new segment file. *)
Lemma segFiles_new fs dir L f c :
  segFiles fs dir L -> (forall d, (f, d) ∉ L) -> 0 <= f < 2 ^ 64 ->
  segFiles (<[dir ++ [segmentName f] := File c]> fs) dir (L ++ [(f, c)]).
Proof.
  intros Hs HfL Hf name g d Hp. pose proof (segmentName_parse f Hf) as Hpf.
  rewrite elem_of_app, list_elem_of_singleton. destruct (decide (name = segmentName f)) as [->|Hne].
  - rewrite lookup_insert_eq. assert (g = f) as -> by congruence. split.
    + intros [= ->]. by right.
    + intros [Hin|[= ->]]; [by destruct (HfL d)|done].
  - rewrite lookup_insert_ne by (intros H%snoc_inj; congruence).
    rewrite (Hs name g d Hp). assert (g <> f). { intros ->. apply parse_segmentName in Hp as [-> _]. done. }
    split; [by left|]. intros [?|?]; [done|simplify_eq].
Qed.
End SegFiles.

(** ** Invariants *)

Section Invariants.
Context `{JSON LogRecord} (rid pid : string).
Local Abbreviation dir := (producerPath rid pid).
Implicit Types (fs : FS) (recs : list LogRecord) (t : tail).

(** The segments [L] on disk hold the log [recs] of the producer. *)
Record storedIn fs (L : list (Z * string)) recs : Prop := {
  st_len : Z.of_nat (length recs) < 2 ^ 64;
  st_chain : chain rid pid 1 L recs;
  st_files : segFiles fs dir L;
  st_range f c : (f, c) ∈ L -> 0 <= f < 2 ^ 64;
  st_dir : L <> [] -> fs !! dir = Some Dir;
}.
Definition logAt fs recs : Prop := exists L, storedIn fs L recs.

(** [t] is the end of the stored log, with no torn line behind it. *)
Definition tailAt fs t recs : Prop :=
  tLast t = Z.of_nat (length recs) /\
  exists L, storedIn fs L recs /\
    ((L = [] /\ tName t = "" /\ tSize t = 0) \/
     (exists L0 f c, L = L0 ++ [(f, c)] /\ tName t = segmentName f /\ tSize t = len c /\ torn c = "")).

(** A cached tail describes complete lines the segment still starts with. *)
Definition cacheAt fs (ts : gmap path tail) : Prop :=
  forall t, ts !! dir = Some t -> tName t <> "" ->
    exists f c0 x, tName t = segmentName f /\ 0 <= f < 2 ^ 64 /\
      fs !! (dir ++ [tName t]) = Some (File (c0 +:+ x)) /\
      tSize t = len c0 /\ torn c0 = "" /\ tLast t = f - 1 + Z.of_nat (length (lines c0)).

(** [fs'] keeps every complete line of [fs]. *)
Definition keepsLines fs fs' : Prop :=
  forall name f c, parseSegmentName name = Some f -> fs !! (dir ++ [name]) = Some (File c) ->
    exists y, fs' !! (dir ++ [name]) = Some (File (joinLines (lines c) +:+ y)).

Lemma tailAt_logAt fs t recs : tailAt fs t recs -> logAt fs recs.
Proof. intros (? & L & ? & _). by exists L. Qed.

Lemma joinLines_app ls ls' : joinLines (ls ++ ls') = joinLines ls +:+ joinLines ls'.
Proof. induction ls as [|l ls IH]; [done|]. simpl. by rewrite IH, !string_app_assoc. Qed.

Lemma lines_joinLines c y : lines (joinLines (lines c) +:+ y) = lines c ++ lines y.
Proof. unfold lines. by rewrite (splitLines_app _ y _ (splitLines_joinLines_prefix c)). Qed.

Lemma lines_app c0 x : torn c0 = "" -> lines (c0 +:+ x) = lines c0 ++ lines x.
Proof.
  intros Ht. unfold lines. rewrite (splitLines_app c0 x (splitLines c0).1); [done|].
  rewrite <- Ht. unfold torn. by destruct (splitLines c0).
Qed.

Lemma torn_app c0 x : torn c0 = "" -> torn (c0 +:+ x) = torn x.
Proof.
  intros Ht. unfold torn. rewrite (splitLines_app c0 x (splitLines c0).1); [done|].
  rewrite <- Ht. unfold torn. by destruct (splitLines c0).
Qed.

Lemma complete_join c : torn c = "" -> joinLines (lines c) = c.
Proof. intros Ht. symmetry. by apply splitLines_complete. Qed.

#[export] Instance keepsLines_preorder : PreOrder keepsLines.
Proof.
  split.
  - intros fs name f c _ Hc. exists (torn c). unfold lines, torn. by rewrite splitLines_join.
  - intros fs1 fs2 fs3 H12 H23 name f c Hp Hc. destruct (H12 name f c Hp Hc) as [y Hy].
    destruct (H23 name f _ Hp Hy) as [z Hz]. rewrite lines_joinLines, joinLines_app in Hz.
    eexists. by rewrite <- string_app_assoc in Hz.
Qed.

Lemma keepsLines_cacheAt fs fs' ts : keepsLines fs fs' -> cacheAt fs ts -> cacheAt fs' ts.
Proof.
  intros Hk Hc t Ht Hne. destruct (Hc t Ht Hne) as (f & c0 & x & Hn & Hf & Hfile & Hsz & Htorn & Hl).
  rewrite Hn in Hfile. destruct (Hk (segmentName f) f _ (segmentName_parse f Hf) Hfile) as [y Hy].
  exists f, c0, (joinLines (lines x) +:+ y). rewrite Hn. split_and!; try done; try lia.
  rewrite Hy, lines_app, joinLines_app, complete_join by done. by rewrite string_app_assoc.
Qed.

(** The tail the append path ends with is worth caching. *)
Lemma tailAt_cacheAt fs t recs ts : tailAt fs t recs -> cacheAt fs (<[dir := t]> ts).
Proof.
  intros (Hlast & L & [Hlt Hc Hs Hr _] & Hend) t'. rewrite lookup_insert_eq. intros [= <-] Hne.
  destruct Hend as [(_ & ? & _)|(L0 & f & c & -> & Hn & Hsz & Ht)]; [done|].
  assert (Hin : (f, c) ∈ L0 ++ [(f, c)]) by set_solver.
  destruct (Hr f c Hin) as [Hf0 Hf].
  exists f, c, "". rewrite string_app_nil_r, Hn. split_and!; try done; try lia.
  - apply (Hs _ f c); [by apply segmentName_parse|done].
  - apply chain_last_count in Hc. lia.
Qed.
End Invariants.

Lemma ascii_ValidString s : (forall c, c ∈ String.list_ascii_of_string s -> byte c < 128) -> ValidString s = true.
Proof.
  induction s as [|c s IH]; intros Hs; [done|]. simpl in Hs.
  assert (Hc : byte c < 128) by (apply Hs; set_solver).
  cbn [ValidString]. assert (Hr : rune_len (String c s) = 1%nat).
  { cbn [rune_len]. unfold rune_size. by rewrite (proj2 (Z.ltb_lt _ _)) by done. }
  rewrite Hr. apply IH. intros d Hd. apply Hs. set_solver.
Qed.

Lemma match_template_ascii t s :
  match_template t s = true ->
  (forall c, c ∈ String.list_ascii_of_string t -> byte c < 128) ->
  forall c, c ∈ String.list_ascii_of_string s -> byte c < 128.
Proof.
  revert s. induction t as [|x t IH]; intros [|c s] Hm Ht; try done.
  simpl in Hm. apply andb_true_iff in Hm as [Hc Hm]. intros d. simpl.
  intros [->|Hd]%elem_of_cons.
  - case_decide as Hx.
    + unfold is_lower_hex, in_range in Hc. apply orb_true_iff in Hc as [Hc|Hc];
        apply andb_true_iff in Hc as [_ Hc%Z.leb_le]; lia.
    + apply bool_decide_eq_true in Hc. subst. apply Ht. simpl. set_solver.
  - eapply IH; [done| |done]. intros e He. apply Ht. simpl. set_solver.
Qed.

Lemma ValidID_clean id : ValidID id = true -> coerceUTF8 id = id.
Proof.
  intros Hv. apply coerceUTF8_valid, ascii_ValidString.
  apply (match_template_ascii uuidTemplate); [done|]. intros c Hc.
  assert (Hall : Forall (fun c => byte c < 128) (String.list_ascii_of_string uuidTemplate)).
  { vm_compute. repeat constructor. }
  rewrite Forall_forall in Hall. auto.
Qed.

Lemma requireID_None name id : requireID name id = None <-> ValidID id = true.
Proof. unfold requireID. by destruct (ValidID id). Qed.

Lemma one_of_clean s l :
  one_of s l = true -> forallb (fun x => bool_decide (coerceUTF8 x = x)) l = true -> coerceUTF8 s = s.
Proof.
  intros Hs Hl. unfold one_of in Hs. apply bool_decide_eq_true, list_elem_of_In in Hs.
  rewrite forallb_forall in Hl. apply Hl, bool_decide_eq_true in Hs. done.
Qed.

Lemma if_None (b : bool) (e : goerr) : (if b then None else Some e) = None <-> b = true.
Proof. by destruct b. Qed.
Lemma if_Some_None (b : bool) (e : goerr) k : (if b then Some e else k) = None <-> b = false /\ k = None.
Proof. destruct b; naive_solver. Qed.

Lemma validLocation_clean l : validLocation l = None -> coerceUTF8 l = l.
Proof. unfold validLocation. rewrite if_None. intros H. by apply (one_of_clean _ _ H). Qed.

(** What [Validate] establishes for every kind. *)
Lemma Validate_None r :
  Validate r = None <->
  rSchemaVersion r = SchemaVersion /\ ValidID (rRunID r) = true /\ ValidID (rProducerID r) = true /\
  rSequence r <> 0 /\ validateKind r = None.
Proof.
  unfold Validate. rewrite if_Some_None, !andThen_None, !requireID_None, if_Some_None.
  rewrite negb_false_iff, Z.eqb_eq, Z.eqb_neq. tauto.
Qed.

Lemma validateKind_kind r :
  validateKind r = None -> one_of (rKind r) [KindOutput; KindInvocation; KindProducer; KindCapture] = true.
Proof.
  unfold validateKind, one_of. rewrite bool_decide_eq_true.
  repeat (case_bool_decide; [set_solver|]). done.
Qed.

Lemma validateOutput_clean r : validateOutput r = None -> validateOutput (cleanRecord r) = None.
Proof.
  unfold validateOutput. cbn [cleanRecord rInvocationID rStream rText].
  rewrite !andThen_None, !requireID_None, !if_Some_None. intros (Hi & Hs & Ht & Hv & _).
  rewrite negb_false_iff in Hs, Hv. rewrite (ValidID_clean _ Hi).
  rewrite (one_of_clean _ _ Hs eq_refl).
  rewrite (coerceUTF8_valid _ Hv). by rewrite Hs, Ht, Hv.
Qed.

Lemma validateInvocation_clean r : validateInvocation r = None -> validateInvocation (cleanRecord r) = None.
Proof.
  unfold validateInvocation. cbn [cleanRecord rInvocationID rHook rState].
  rewrite !andThen_None, !requireID_None, !if_Some_None, !if_None. intros (Hi & Hh & Hs).
  rewrite (ValidID_clean _ Hi), (one_of_clean _ _ Hs eq_refl).
  split_and!; [done| |done]. case_bool_decide as H0; [by rewrite H0|]. simpl in *.
  rewrite negb_false_iff in Hh. rewrite (one_of_clean _ _ Hh eq_refl).
  rewrite Hh. by rewrite andb_false_r.
Qed.

Lemma validateProducer_clean r : validateProducer r = None -> validateProducer (cleanRecord r) = None.
Proof.
  unfold validateProducer. cbn [cleanRecord rProducerState rChildProducerID rLocation].
  rewrite !if_Some_None, !andThen_None. intros (Hs & Hc & Hl). rewrite negb_false_iff in Hs.
  rewrite (validLocation_clean _ Hl), (one_of_clean _ _ Hs eq_refl), Hs.
  split_and!; [done| |done]. case_decide as H0; [by rewrite H0|].
  apply requireID_None in Hc. rewrite (ValidID_clean _ Hc). case_decide; [done|]. by apply requireID_None.
Qed.

Lemma validateCapture_clean r : validateCapture r = None -> validateCapture (cleanRecord r) = None.
Proof.
  unfold validateCapture. cbn [cleanRecord rCondition rLocation].
  destruct (one_of (rCondition r) validConditions) eqn:Hc; [|done]. intros Hl.
  rewrite (one_of_clean _ _ Hc eq_refl), Hc. by rewrite (validLocation_clean _ Hl).
Qed.

Lemma cleanRecord_ids r :
  Validate r = None ->
  rRunID (cleanRecord r) = rRunID r /\ rProducerID (cleanRecord r) = rProducerID r /\
  rKind (cleanRecord r) = rKind r.
Proof.
  intros (_ & Hr & Hp & _ & Hk)%Validate_None. cbn.
  rewrite (ValidID_clean _ Hr), (ValidID_clean _ Hp).
  by rewrite (one_of_clean _ _ (validateKind_kind _ Hk) eq_refl).
Qed.

Lemma Validate_clean r : Validate r = None -> Validate (cleanRecord r) = None.
Proof.
  intros Hv. destruct (cleanRecord_ids r Hv) as (Hr & Hp & Hk).
  apply Validate_None in Hv as (H1 & H2 & H3 & H4 & H5). apply Validate_None.
  rewrite Hr, Hp. split_and!; try done. unfold validateKind in *. rewrite Hk.
  repeat case_bool_decide; auto using validateOutput_clean, validateInvocation_clean,
    validateProducer_clean, validateCapture_clean.
Qed.

Section Decode.
Context `{JSONLaws LogRecord (clean := cleanRecord)}.

(** The line written for a valid record decodes to it. *)
Lemma decodeLine_marshal r s :
  Validate r = None -> Marshal r = Some s -> decodeLine s = Some (cleanRecord r).
Proof.
  intros Hv Hm. unfold decodeLine. rewrite (marshal_trimmed r s Hm), (marshal_roundtrip r s Hm).
  by rewrite (Validate_clean r Hv).
Qed.
End Decode.

(** ** What the writer stores *)

(** The record stored for [rec]: its byte count filled in, its text possibly
    dropped; nothing else changes. *)
Definition withBytes (rec : LogRecord) : LogRecord :=
  if bool_decide (rKind rec = KindOutput) && (rBytes rec =? 0)
  then setBytes (len (rText rec)) rec else rec.
Definition storedAs (rec stored : LogRecord) : Prop :=
  stored = withBytes rec \/ (rKind rec = KindOutput /\ stored = elide (withBytes rec)).

Lemma withBytes_fields r :
  rSequence (withBytes r) = rSequence r /\ rRunID (withBytes r) = rRunID r /\
  rProducerID (withBytes r) = rProducerID r /\ rKind (withBytes r) = rKind r /\
  (Validate r = None -> Validate (withBytes r) = None).
Proof. unfold withBytes. by case_match. Qed.

Lemma storedAs_fields rec stored :
  storedAs rec stored ->
  rSequence stored = rSequence rec /\ rRunID stored = rRunID rec /\
  rProducerID stored = rProducerID rec /\ rKind stored = rKind rec /\
  (Validate rec = None -> Validate stored = None).
Proof.
  destruct (withBytes_fields rec) as (Hs & Hr & Hp & Hk & Hv).
  intros [->|[Hout ->]]; [done|]. split_and!; try done. intros Hval. specialize (Hv Hval).
  apply Validate_None in Hv as (H1 & H2 & H3 & H4 & H5). apply Validate_None. split_and!; try done.
  revert H5. unfold validateKind. cbn [elide rKind]. rewrite Hk, Hout, bool_decide_true by done.
  unfold validateOutput. cbn [elide rInvocationID rStream rText].
  rewrite !andThen_None, !if_Some_None. intros (Hi & Hst & _). split_and!; try done.
Qed.
