(* ===== verification/LogDurable.v ===== *)
(** The append path keeps the stored log: loading the tail, opening segments
    and writing lines, under every schedule of failures. *)
From S2P Require Import Prelude GoStd GoText LogTypes LogManifest LogFS LogStore LogSegment.
From S2P Require Import LogDisk.

Section Durable.
Context `{JSONLaws LogRecord (clean := cleanRecord)} (rid pid : string).
Local Abbreviation dir := (producerPath rid pid).
Local Abbreviation logAt := (logAt rid pid).
Local Abbreviation tailAt := (tailAt rid pid).
Local Abbreviation storedIn := (storedIn rid pid).
Local Abbreviation keepsLines := (keepsLines rid pid).
Local Abbreviation cacheAt := (cacheAt rid pid).
Implicit Types (w : World) (fs : FS) (recs : list LogRecord) (t : tail).

(** What every step guarantees whether it succeeds or not. *)
Record stepOK w w' recs : Prop := {
  so_tails : wTails w' = wTails w;
  so_log : logAt (wFS w') recs;
  so_keeps : keepsLines (wFS w) (wFS w');
}.

Lemma sameStore_stepOK w w' recs : sameStore w w' -> logAt (wFS w) recs -> stepOK w w' recs.
Proof. intros [Hf Ht] Hl. split; [done|by rewrite Hf|by rewrite Hf]. Qed.

Lemma stepOK_trans w1 w2 w3 recs recs' : stepOK w1 w2 recs -> stepOK w2 w3 recs' -> stepOK w1 w3 recs'.
Proof. intros [] []. split; [congruence|done|by trans (wFS w2)]. Qed.

(** Reading steps change nothing. *)
Lemma checkRegular_wp p w (Q : World -> goerr + unit -> Prop) :
  (forall w' e, sameStore w w' -> Q w' (inl e)) ->
  (forall w', sameStore w w' -> wFS w !! p = None \/ (exists d, wFS w !! p = Some (File d)) -> Q w' (inr tt)) ->
  wp (checkRegular p) w Q.
Proof.
  intros He Hok. apply sys_wp; [done|]. intros w' Hs. apply wp_bind. unfold wp, lookupFS, get. simpl.
  rewrite (proj1 Hs). destruct (wFS w !! p) as [[|d|]|] eqn:Hp; simpl; [apply He|apply Hok|apply He|apply Hok]; eauto.
Qed.

Lemma storedIn_segmentsIn fs L recs : storedIn fs L recs -> segmentsIn fs dir = map toSegment L.
Proof. intros [Hl Hc Hf Hr Hd]. apply segmentsIn_chain; [done|by eapply chain_sorted|done]. Qed.

Lemma listSegments_wp w recs L (Q : World -> goerr + list segment -> Prop) :
  storedIn (wFS w) L recs ->
  (forall w' e, sameStore w w' -> Q w' (inl e)) ->
  (forall w', sameStore w w' -> Q w' (inr (map toSegment L))) ->
  wp (listSegments dir) w Q.
Proof.
  intros HL He Hok. apply sys_wp; [done|]. intros w' [Hfs Hts]. unfold wp, bind, lookupFS, get. simpl.
  rewrite Hfs. destruct (decide (L = [])) as [->|Hne].
  - destruct (wFS w !! dir) as [[| |]|]; simpl; rewrite ?Hfs, ?(storedIn_segmentsIn _ _ _ HL);
      (apply Hok || apply He); by split.
  - rewrite (st_dir _ _ _ _ _ HL Hne). simpl. rewrite Hfs, (storedIn_segmentsIn _ _ _ HL).
    apply Hok. by split.
Qed.

(** The last segment file, from the listing. *)
Lemma last_file fs L0 f c recs :
  storedIn fs (L0 ++ [(f, c)]) recs -> fs !! (dir ++ [segmentName f]) = Some (File c).
Proof.
  intros [Hl Hc Hf Hr Hd]. apply (Hf _ f c); [|set_solver]. apply segmentName_parse, (Hr f c). set_solver.
Qed.

(** Replacing the content of the last segment by one with the same lines. *)
Lemma storedIn_same_lines fs L0 f c c' recs :
  storedIn fs (L0 ++ [(f, c)]) recs -> lines c' = lines c ->
  storedIn (<[dir ++ [segmentName f] := File c']> fs) (L0 ++ [(f, c')]) recs.
Proof.
  intros [Hl Hc Hf Hr Hd] Hlines. split; [done| | | |].
  - by eapply chain_same_lines.
  - eapply segFiles_replace; [done|by eapply chain_sorted|]. apply (Hr f c). set_solver.
  - intros g d [Hin|Hin]%elem_of_app; [apply (Hr g d); set_solver|].
    apply list_elem_of_singleton in Hin. simplify_eq. apply (Hr f c). set_solver.
  - intros _. rewrite lookup_insert_ne by (intros Heq; by apply (f_equal length) in Heq).
    apply Hd. by destruct L0.
Qed.

Lemma keepsLines_replace fs f c c' y :
  fs !! (dir ++ [segmentName f]) = Some (File c) -> c' = joinLines (lines c) +:+ y ->
  keepsLines fs (<[dir ++ [segmentName f] := File c']> fs).
Proof.
  intros Hf -> name g d Hp Hd. destruct (decide (name = segmentName f)) as [->|Hne].
  - rewrite Hf in Hd. simplify_eq. exists y. by rewrite lookup_insert_eq.
  - rewrite lookup_insert_ne by (intros Heq%snoc_inj; congruence).
    exists (torn d). rewrite Hd. unfold lines, torn. by rewrite splitLines_join.
Qed.

(** *** Loading the tail *)

Lemma stepOK_refl w recs : logAt (wFS w) recs -> stepOK w w recs.
Proof. by split. Qed.

(** A step that only wrote the last segment. *)
Lemma stepOK_write w w' L0 f c c' y recs recs' :
  storedIn (wFS w) (L0 ++ [(f, c)]) recs ->
  wTails w' = wTails w -> wFS w' = <[dir ++ [segmentName f] := File c']> (wFS w) ->
  c' = joinLines (lines c) +:+ y -> storedIn (wFS w') (L0 ++ [(f, c')]) recs' ->
  stepOK w w' recs'.
Proof.
  intros HL Ht Hf Hc HL'. split; [done|by eexists|]. rewrite Hf.
  eapply keepsLines_replace; [by eapply last_file|done].
Qed.

Lemma torn_lines c : joinLines (lines c) +:+ torn c = c.
Proof. apply splitLines_join. Qed.

Lemma lines_join_self c : lines (joinLines (lines c)) = lines c /\ torn (joinLines (lines c)) = "".
Proof. unfold lines, torn. by rewrite splitLines_joinLines_prefix. Qed.

Lemma repairTail_wp w L0 f c recs (Q : World -> goerr + Z -> Prop) :
  storedIn (wFS w) (L0 ++ [(f, c)]) recs ->
  (forall w' e, stepOK w w' recs -> Q w' (inl e)) ->
  (forall w', stepOK w w' recs -> storedIn (wFS w') (L0 ++ [(f, joinLines (lines c))]) recs ->
              Q w' (inr (len (joinLines (lines c))))) ->
  wp (repairTail (dir ++ [segmentName f])) w Q.
Proof.
  intros HL He Hok. assert (Hlog : logAt (wFS w) recs) by (by eexists).
  apply wp_ebind, checkRegular_wp.
  { intros w' e Hs. apply He. by apply sameStore_stepOK. }
  intros w1 Hs1 _. apply sys_wp.
  { intros w' e Hs. apply He. apply sameStore_stepOK; [by trans w1|done]. }
  intros w2 Hs2. apply wp_lookupFS.
  rewrite (proj1 Hs2), (proj1 Hs1), (last_file _ _ _ _ _ HL). apply sys_wp.
  { intros w' e Hs. apply He. apply sameStore_stepOK; [|done]. trans w1; [done|]. by trans w2. }
  intros w3 Hs3. assert (Hs : sameStore w w3) by (trans w1; [done|]; by trans w2).
  assert (Hkeep : len c - len (splitLines c).2 = len (joinLines (lines c))).
  { pose proof (f_equal len (torn_lines c)) as E. rewrite len_app in E. unfold torn in *. lia. }
  cbv zeta. rewrite Hkeep. destruct (_ =? _) eqn:Hk.
  - apply Z.eqb_eq in Hk. assert (torn c = "") as Ht.
    { apply len_0. pose proof (f_equal len (torn_lines c)) as E. rewrite len_app in E. lia. }
    apply wp_ret, Hok; [by apply sameStore_stepOK|].
    rewrite (proj1 Hs), complete_join by done. done.
  - apply sys_wp.
    { intros w' e Hs4. apply He. apply sameStore_stepOK; [by trans w3|done]. }
    intros w4 Hs4. apply wp_writeFS, wp_ret.
    assert (Htake : string_take (Z.to_nat (len (joinLines (lines c)))) c = joinLines (lines c)).
    { unfold len. rewrite Nat2Z.id. pose proof (string_take_app (joinLines (lines c)) (torn c)) as E.
      by rewrite torn_lines in E. }
    rewrite Htake. assert (Hs' : sameStore w w4) by (by trans w3).
    assert (HL' : storedIn (<[dir ++ [segmentName f] := File (joinLines (lines c))]> (wFS w))
                    (L0 ++ [(f, joinLines (lines c))]) recs)
      by (eapply storedIn_same_lines; [done|apply lines_join_self]).
    apply Hok.
    + apply (stepOK_write _ _ L0 f c (joinLines (lines c)) "" recs); [done|apply Hs'| | |];
        cbn [wFS setFS]; rewrite ?(proj1 Hs'), ?string_app_nil_r; done.
    + cbn [wFS setFS]. by rewrite (proj1 Hs').
Qed.

Lemma scanSegment_wp w L0 f c recs (Q : World -> goerr + list (option LogRecord) -> Prop) :
  storedIn (wFS w) (L0 ++ [(f, c)]) recs ->
  (forall w' e, sameStore w w' -> Q w' (inl e)) ->
  (forall w', sameStore w w' -> Q w' (inr (map decodeLine (lines c)))) ->
  wp (scanSegment (dir ++ [segmentName f])) w Q.
Proof.
  intros HL He Hok. apply wp_ebind, checkRegular_wp; [done|].
  intros w1 Hs1 _. apply sys_wp; [intros w' e Hs; apply He; by trans w1|].
  intros w2 Hs2. apply wp_lookupFS.
  rewrite (proj1 Hs2), (proj1 Hs1), (last_file _ _ _ _ _ HL).
  apply sys_wp; [intros w' e Hs; apply He; trans w1; [done|]; by trans w2|].
  intros w3 Hs3. apply wp_ret, Hok. trans w1; [done|]. by trans w2.
Qed.

Lemma rescanTail_wp w L0 f c recs (Q : World -> goerr + tail -> Prop) :
  storedIn (wFS w) (L0 ++ [(f, c)]) recs ->
  (forall w' e, stepOK w w' recs -> Q w' (inl e)) ->
  (forall w' t, stepOK w w' recs -> tailAt (wFS w') t recs -> Q w' (inr t)) ->
  wp (rescanTail (dir ++ [segmentName f]) (toSegment (f, c))) w Q.
Proof.
  intros HL He Hok. apply wp_ebind, (repairTail_wp _ L0 f c recs); [done|done|].
  intros w1 Hs1 HL1. apply wp_ebind, (scanSegment_wp _ L0 f (joinLines (lines c)) recs); [done| |].
  { intros w' e Hs. apply He. eapply stepOK_trans; [done|]. apply sameStore_stepOK; [done|by eexists]. }
  intros w2 Hs2. apply wp_ret, Hok.
  - eapply stepOK_trans; [done|]. apply sameStore_stepOK; [done|by eexists].
  - destruct (lines_join_self c) as [Hlines Htorn].
    destruct HL1 as [Hlen Hc1 Hf1 Hr1 Hd1].
    assert (Hin : (f, joinLines (lines c)) ∈ L0 ++ [(f, joinLines (lines c))]) by set_solver.
    pose proof (chain_first_ge _ _ _ _ _ _ _ Hc1 Hin) as Hf. pose proof (Hr1 _ _ Hin) as Hrange.
    split.
    + simpl. unfold u64. rewrite Z.mod_small by lia. rewrite (chain_last_scan _ _ _ _ _ _ _ Hc1). lia.
    + exists (L0 ++ [(f, joinLines (lines c))]). split.
      * split; rewrite ?(proj1 Hs2); done.
      * right. by exists L0, f, (joinLines (lines c)).
Qed.

Lemma storedIn_sameStore w w' L recs :
  sameStore w w' -> storedIn (wFS w) L recs -> storedIn (wFS w') L recs.
Proof. by intros [-> _]. Qed.

(** A cached tail that matches the last segment's name and size is right. *)
Lemma cached_tailAt fs ts t L0 f c recs :
  storedIn fs (L0 ++ [(f, c)]) recs -> cacheAt fs ts -> ts !! dir = Some t ->
  tName t = segmentName f -> tSize t = len c -> tailAt fs t recs.
Proof.
  intros HL Hc Ht Hn Hsz. destruct (Hc t Ht) as (g & c0 & x & Hg & Hrange & Hfile & Hsz0 & Htorn & Hl).
  { rewrite Hn. apply segmentName_nonempty. }
  assert (Hf : 0 <= f < 2 ^ 64) by (apply (st_range _ _ _ _ _ HL f c); set_solver).
  assert (g = f) as -> by (apply segmentName_inj; congruence).
  rewrite Hg, (last_file _ _ _ _ _ HL) in Hfile. simplify_eq.
  assert (x = "") as ->.
  { apply len_0. rewrite len_app in Hsz. lia. }
  rewrite string_app_nil_r in *. pose proof (chain_last_count _ _ _ _ _ _ _ (st_chain _ _ _ _ _ HL)).
  split; [lia|]. exists (L0 ++ [(f, c0)]). split; [done|]. right. by exists L0, f, c0.
Qed.

Lemma last_snoc {A} (l : list A) x d : List.last (l ++ [x]) d = x.
Proof. induction l as [|y l IH]; [done|]. simpl. rewrite IH. by destruct l. Qed.

Lemma loadTail_wp w recs (Q : World -> goerr + tail -> Prop) :
  logAt (wFS w) recs -> cacheAt (wFS w) (wTails w) ->
  (forall w' e, stepOK w w' recs -> Q w' (inl e)) ->
  (forall w' t, stepOK w w' recs -> tailAt (wFS w') t recs -> Q w' (inr t)) ->
  wp (loadTail dir) w Q.
Proof.
  intros [L HL] Hcache He Hok. assert (Hlog : logAt (wFS w) recs) by (by eexists).
  assert (He' : forall w' e, sameStore w w' -> Q w' (inl e)) by
    (intros; apply He; by apply sameStore_stepOK).
  apply wp_ebind, (listSegments_wp _ recs L); [done|done|]. intros w1 Hs1.
  destruct L as [|[f c] L0 _] using rev_ind.
  { apply wp_ret, Hok; [by apply sameStore_stepOK|].
    split; [inversion HL as [_ Hc _ _ _]; by inversion Hc|].
    exists []. split; [by eapply storedIn_sameStore|]. by left. }
  rewrite map_app. cbn [map]. rewrite last_snoc.
  destruct (map toSegment L0 ++ [toSegment (f, c)]) eqn:Hl; [by destruct (map toSegment L0)|].
  clear Hl. cbn [gName toSegment fst].
  apply wp_ebind, checkRegular_wp; [intros w' e Hs; apply He'; by trans w1|]. intros w2 Hs2 _.
  assert (Hs02 : sameStore w w2) by (by trans w1).
  apply wp_ebind, sys_wp; [intros w' e Hs; apply He'; by trans w2|]. intros w3 Hs3.
  assert (Hs03 : sameStore w w3) by (by trans w2). pose proof (storedIn_sameStore _ _ _ _ Hs03 HL) as HL3.
  apply wp_lookupFS. rewrite (last_file _ _ _ _ _ HL3). cbn. apply wp_get.
  assert (Hres : wp (rescanTail (dir ++ [segmentName f]) (toSegment (f, c))) w3 Q).
  { eapply rescanTail_wp; [done| |]; intros; [apply He|apply Hok]; try done;
      (eapply stepOK_trans; [by apply sameStore_stepOK|done]). }
  rewrite (proj2 Hs03). destruct (wTails w !! dir) as [t|] eqn:Ht; [|apply Hres].
  destruct (bool_decide (tName t = segmentName f) && (tSize t =? len c)) eqn:Hhit; [|apply Hres].
  apply andb_true_iff in Hhit as [Hn%bool_decide_eq_true Hsz%Z.eqb_eq].
  apply wp_ret, Hok; [by apply sameStore_stepOK|]. rewrite (proj1 Hs03). by eapply cached_tailAt.
Qed.

(** *** Opening segments *)

Lemma parent_of_entry (d : path) name : removelast (d ++ [name]) = d.
Proof. apply removelast_last. Qed.

Lemma openSegment_wp w name (Q : World -> goerr + unit -> Prop) :
  (forall w' e, sameStore w w' -> Q w' (inl e)) ->
  (forall w' d, sameStore w w' -> wFS w !! (dir ++ [name]) = Some (File d) -> Q w' (inr tt)) ->
  (forall w', wTails w' = wTails w -> wFS w !! dir = Some Dir -> wFS w !! (dir ++ [name]) = None ->
              wFS w' = <[dir ++ [name] := File ""]> (wFS w) -> Q w' (inr tt)) ->
  wp (openSegment dir name) w Q.
Proof.
  intros He Hold Hnew. apply wp_ebind, checkRegular_wp; [done|]. intros w1 Hs1 Hreg.
  apply sys_wp; [intros w' e Hs; apply He; by trans w1|]. intros w2 Hs2.
  assert (Hs : sameStore w w2) by (by trans w1).
  apply wp_bind, wp_lookupFS, wp_ret, wp_lookupFS. rewrite parent_of_entry, (proj1 Hs).
  case_bool_decide as Hd; [|by apply wp_ret, He].
  destruct Hreg as [Hn|[d Hn]]; rewrite Hn.
  - apply wp_writeFS, wp_ret, Hnew; cbn [wFS wTails setFS]; rewrite ?(proj1 Hs), ?(proj2 Hs); done.
  - apply wp_ret. by eapply Hold.
Qed.

Lemma keepsLines_create fs name : fs !! (dir ++ [name]) = None ->
  keepsLines fs (<[dir ++ [name] := File ""]> fs).
Proof.
  intros Hn name' g d Hp Hd. rewrite lookup_insert_ne by (intros Heq%snoc_inj; congruence).
  exists (torn d). by rewrite torn_lines.
Qed.

Lemma storedIn_create fs L L' recs seq :
  storedIn fs L recs -> L' = L ++ [(seq, "")] -> chain rid pid 1 L' recs ->
  0 <= seq < 2 ^ 64 -> fs !! dir = Some Dir ->
  storedIn (<[dir ++ [segmentName seq] := File ""]> fs) L' recs.
Proof.
  intros [Hl Hc Hf Hr Hd] -> Hc' Hseq Hdir. split; [done|done| | |].
  - apply segFiles_new; [done| |done]. intros d Hin. apply chain_sorted in Hc'.
    rewrite fmap_app in Hc'. apply StronglySorted_app in Hc' as (Hlt & _ & _).
    specialize (Hlt seq seq). assert (seq < seq); [|lia]. apply Hlt; [|set_solver].
    apply list_elem_of_fmap. by exists (seq, d).
  - intros g d [Hin|Hin]%elem_of_app; [by eapply Hr|].
    apply list_elem_of_singleton in Hin. by simplify_eq.
  - intros _. rewrite lookup_insert_ne; [done|]. intros Heq. by apply (f_equal length) in Heq.
Qed.

(** The chain after the last segment is closed. *)
Lemma roll_chain L recs t seq :
  chain rid pid 1 L recs -> seq = Z.of_nat (length recs) + 1 ->
  (L = [] \/ exists L0 f c, L = L0 ++ [(f, c)] /\ torn c = "") ->
  (exists L0, L = L0 ++ [(seq, "")]) \/ chain rid pid 1 (L ++ [(seq, "")]) recs.
Proof.
  intros Hc -> [->|(L0 & f & c & -> & Ht)].
  - right. inversion Hc; subst. apply chain_first_new.
  - destruct (decide (lines c = [])) as [Hl|Hl].
    + left. exists L0. pose proof (chain_last_count _ _ _ _ _ _ _ Hc) as Hn. rewrite Hl in Hn.
      simpl in Hn. assert (c = "") as -> by (by rewrite <- (complete_join c Ht), Hl).
      by replace f with (Z.of_nat (length recs) + 1) by lia.
    + right. rewrite Z.add_comm. by apply chain_new_segment.
Qed.

Definition opened (bw : batchWriter) : Prop := bOpen bw = true -> tName (bTail bw) <> "".

Lemma openFor_wp w bw recs seq n (Q : World -> goerr + batchWriter -> Prop) :
  tailAt (wFS w) (bTail bw) recs -> opened bw ->
  seq = Z.of_nat (length recs) + 1 -> seq < 2 ^ 64 ->
  (forall w' e, stepOK w w' recs -> Q w' (inl e)) ->
  (forall w' bw', stepOK w w' recs -> tailAt (wFS w') (bTail bw') recs ->
      tName (bTail bw') <> "" -> bRunBytes bw' = bRunBytes bw -> Q w' (inr bw')) ->
  wp (openFor dir bw seq n) w Q.
Proof.
  intros Ht Hopen Hseq Hlt He Hok. pose proof (tailAt_logAt _ _ _ _ _ Ht) as Hlog.
  assert (He' : forall w' e, sameStore w w' -> Q w' (inl e)) by
    (intros; apply He; by apply sameStore_stepOK).
  unfold openFor. cbv zeta. destruct (bOpen bw && _) eqn:Hfit.
  { apply andb_true_iff in Hfit as [Hb _]. apply wp_ret, Hok; [by apply stepOK_refl|done|by apply Hopen|done]. }
  case_match eqn:Hkeep.
  - apply andb_true_iff in Hkeep as [[_ Hne%negb_true_iff%bool_decide_eq_false]%andb_true_iff _].
    destruct Ht as (Hlast & L & HL & [(_ & ? & _)|(L0 & f & c & -> & Hn & Hsz & Htorn)]); [done|].
    apply wp_ebind, openSegment_wp; [done| |].
    + intros w' d Hs _. apply wp_ret, Hok; [by apply sameStore_stepOK| |done|done].
      rewrite (proj1 Hs). split; [done|]. exists (L0 ++ [(f, c)]). split; [done|]. right. by exists L0, f, c.
    + intros w' _ _ Hnone _. rewrite Hn, (last_file _ _ _ _ _ HL) in Hnone. done.
  - destruct Ht as (Hlast & L & HL & Hend).
    assert (Hroll := roll_chain L recs (bTail bw) seq (st_chain _ _ _ _ _ HL) Hseq).
    destruct Hroll as [[L0 HL0]|Hroll].
    { destruct Hend as [(? & _)|(L0 & f & c & ? & _ & _ & ?)]; [by left|right; by exists L0, f, c]. }
    + subst L. apply wp_ebind, openSegment_wp; [done| |].
      * intros w' d Hs _. apply wp_ret, Hok; [by apply sameStore_stepOK| |apply segmentName_nonempty|done].
        rewrite (proj1 Hs). split; [done|]. exists (L0 ++ [(seq, "")]). split; [done|]. right.
        by exists L0, seq, "".
      * intros w' _ _ Hnone _. cbn [tName] in Hnone. rewrite (last_file _ _ _ _ _ HL) in Hnone. done.
    + assert (Hnew : forall w', wTails w' = wTails w -> wFS w !! dir = Some Dir ->
                wFS w !! (dir ++ [segmentName seq]) = None ->
                wFS w' = <[dir ++ [segmentName seq] := File ""]> (wFS w) ->
                storedIn (wFS w') (L ++ [(seq, "")]) recs).
      { intros w' Hts Hd Hnone ->. eapply storedIn_create; try done. lia. }
      apply wp_ebind, openSegment_wp; [done| |].
      * intros w' d Hs Hfile. cbn [tName] in Hfile. exfalso.
        assert (Hrange : 0 <= seq < 2 ^ 64) by lia.
        apply (st_files _ _ _ _ _ HL _ seq d (segmentName_parse seq Hrange)) in Hfile.
        apply chain_sorted in Hroll. rewrite fmap_app in Hroll.
        apply StronglySorted_app in Hroll as (Hlt' & _ & _). specialize (Hlt' seq seq).
        assert (seq < seq); [|lia]. apply Hlt'; [|set_solver].
        apply list_elem_of_fmap. by exists (seq, d).
      * intros w' Hts Hd Hnone Hfs. cbn [tName] in *. specialize (Hnew w' Hts Hd Hnone Hfs).
        apply wp_ret, Hok; [| |apply segmentName_nonempty|done].
        -- split; [done|by eexists|]. rewrite Hfs. by apply keepsLines_create.
        -- split; [done|]. exists (L ++ [(seq, "")]). split; [done|]. right. by exists L, seq, "".
Qed.

(** *** Writing a line *)

Lemma stepOK_append w w' L0 f c x recs recs' :
  storedIn (wFS w) (L0 ++ [(f, c)]) recs -> torn c = "" ->
  wTails w' = wTails w -> wFS w' = <[dir ++ [segmentName f] := File (c +:+ x)]> (wFS w) ->
  storedIn (wFS w') (L0 ++ [(f, c +:+ x)]) recs' ->
  stepOK w w' recs'.
Proof.
  intros HL Htorn Hts Hfs HL'. eapply (stepOK_write w w' L0 f c (c +:+ x) x); try done.
  by rewrite complete_join.
Qed.

(** Adding the record a complete line decodes to. *)
Lemma storedIn_append fs L0 f c line r recs :
  storedIn fs (L0 ++ [(f, c)]) recs -> torn c = "" -> splitLines line = ([], line) ->
  decodeLine line = Some r -> rSequence r = Z.of_nat (length recs) + 1 ->
  rRunID r = rid -> rProducerID r = pid -> Z.of_nat (length recs) + 1 < 2 ^ 64 ->
  storedIn (<[dir ++ [segmentName f] := File (c +:+ (line +:+ nl))]> fs)
    (L0 ++ [(f, c +:+ (line +:+ nl))]) (recs ++ [r]).
Proof.
  intros HL Htorn Hone Hdec Hseq Hr Hp Hlt. pose proof HL as [Hl Hc Hf Hrange Hd].
  assert (Hin : 0 <= f < 2 ^ 64) by (apply (Hrange f c); set_solver).
  split.
  - rewrite length_app. simpl. lia.
  - eapply chain_append_line; [done| |done|].
    + rewrite lines_app by done. unfold lines at 2. by rewrite (splitLines_line _ Hone).
    + apply contiguous_one. split_and!; [lia|done|done].
  - eapply segFiles_replace; [done|by eapply chain_sorted|done].
  - intros g d [Hg|Hg]%elem_of_app; [apply (Hrange g d); set_solver|].
    apply list_elem_of_singleton in Hg. by simplify_eq.
  - intros _. rewrite lookup_insert_ne by (intros Heq; by apply (f_equal length) in Heq).
    apply Hd. by destruct L0.
Qed.

Lemma writeLine_wp w t line r recs (Q : World -> goerr + unit -> Prop) :
  tailAt (wFS w) t recs -> tName t <> "" -> splitLines line = ([], line) ->
  decodeLine line = Some r -> rSequence r = Z.of_nat (length recs) + 1 ->
  rRunID r = rid -> rProducerID r = pid -> Z.of_nat (length recs) + 1 < 2 ^ 64 ->
  (forall w' e, stepOK w w' recs -> Q w' (inl e)) ->
  (forall w', stepOK w w' (recs ++ [r]) ->
     tailAt (wFS w') (mkTail (tName t) (tSize t + len (line +:+ nl)) (rSequence r)) (recs ++ [r]) ->
     Q w' (inr tt)) ->
  wp (writeLine (dir ++ [tName t]) (line +:+ nl)) w Q.
Proof.
  intros (Hlast & L & HL & Hend) Hne Hone Hdec Hseq Hr Hp Hlt He Hok.
  destruct Hend as [(_ & ? & _)|(L0 & f & c & -> & Hn & Hsz & Htorn)]; [done|].
  rewrite Hn in *. apply wp_bind, sysFault_wp. intros w1 [n|] Hs1.
  - apply wp_bind. unfold appendText. apply wp_lookupFS.
    rewrite (proj1 Hs1), (last_file _ _ _ _ _ HL).
    set (x := string_take _ _). assert (Hx : splitLines x = ([], x)).
    { unfold x. rewrite string_take_app_le; [by apply splitLines_take|].
      rewrite string_length_app. simpl. lia. }
    apply (wp_writeFS _ _ (fun _ => throw _)). apply wp_ret, He.
    assert (HL' : storedIn (<[dir ++ [segmentName f] := File (c +:+ x)]> (wFS w)) (L0 ++ [(f, c +:+ x)]) recs).
    { eapply storedIn_same_lines; [done|]. rewrite lines_app by done. unfold lines at 2. rewrite Hx.
      apply app_nil_r. }
    eapply stepOK_append; [done|done|apply Hs1| |]; cbn [wFS setFS]; rewrite ?(proj1 Hs1); done.
  - apply wp_bind. unfold appendText. apply wp_lookupFS.
    rewrite (proj1 Hs1), (last_file _ _ _ _ _ HL).
    apply (wp_writeFS _ _ (fun _ => ok tt)). apply wp_ret.
    pose proof (storedIn_append _ _ _ _ line r _ HL Htorn Hone Hdec Hseq Hr Hp Hlt) as HL'.
    apply Hok.
    + eapply stepOK_append; [done|done|apply Hs1| |]; cbn [wFS setFS]; rewrite ?(proj1 Hs1); done.
    + cbn [wFS setFS]. rewrite (proj1 Hs1). split; [cbn; rewrite length_app; simpl; lia|].
      exists (L0 ++ [(f, c +:+ (line +:+ nl))]). split; [done|]. right.
      exists L0, f, (c +:+ (line +:+ nl)). split_and!; [done|done| |].
      * cbn [tSize]. rewrite Hsz, (len_app c). done.
      * rewrite torn_app by done. unfold torn. by rewrite (splitLines_line _ Hone).
Qed.

(** *** Writing a record *)

Lemma encode_stored bw rec line stored :
  encode bw rec = inr (line, stored) ->
  storedAs rec stored /\ exists s, Marshal stored = Some s /\ line = s +:+ nl.
Proof.
  unfold encode. fold (withBytes rec). unfold storedAs, marshalLine.
  destruct (Marshal (withBytes rec)) as [s|] eqn:Hs; [|done].
  destruct (bool_decide (rKind rec = KindOutput)) eqn:Hk.
  - unfold fitOutput, marshalLine, checkCapacity. apply bool_decide_eq_true in Hk.
    destruct (_ <? _); [|destruct (_ <? _); [done|]; intros [= <- <-]; split; [by left|eauto]].
    destruct (Marshal (elide _)) as [s'|] eqn:Hs'; [|done].
    repeat (destruct (_ <? _); [done|]). intros [= <- <-]. split; [by right|eauto].
  - unfold checkCapacity. repeat (destruct (_ <? _); [done|]). intros [= <- <-]. split; [by left|eauto].
Qed.

(** A record that belongs at the end of the log. *)
Record fits recs (rec : LogRecord) : Prop := {
  fit_valid : Validate rec = None;
  fit_seq : rSequence rec = Z.of_nat (length recs) + 1;
  fit_range : rSequence rec < 2 ^ 64;
  fit_run : rRunID rec = rid;
  fit_producer : rProducerID rec = pid;
}.

Lemma write_wp w bw recs rec (Q : World -> goerr + (batchWriter * LogRecord) -> Prop) :
  tailAt (wFS w) (bTail bw) recs -> opened bw -> fits recs rec ->
  (forall w' e, stepOK w w' recs -> Q w' (inl e)) ->
  (forall w' bw' stored,
     stepOK w w' (recs ++ [cleanRecord stored]) -> storedAs rec stored ->
     tailAt (wFS w') (bTail bw') (recs ++ [cleanRecord stored]) -> opened bw' ->
     Q w' (inr (bw', stored))) ->
  wp (write dir bw rec) w Q.
Proof.
  intros Ht Ho [Hv Hseq Hrange Hr Hp] He Hok. pose proof (tailAt_logAt _ _ _ _ _ Ht) as Hlog.
  unfold write, lift. destruct (encode bw rec) as [e|[line stored]] eqn:Henc.
  { apply wp_ret, He. by apply stepOK_refl. }
  rewrite ebind_inr. apply encode_stored in Henc as (Hst & s & Hm & ->).
  destruct (storedAs_fields _ _ Hst) as (Hsseq & Hsr & Hsp & _ & Hsv). specialize (Hsv Hv).
  destruct (cleanRecord_ids _ Hsv) as (Hcr & Hcp & _).
  apply wp_ebind, (openFor_wp _ _ recs); [done|done|lia|lia|done|].
  intros w1 bw1 Hs1 Ht1 Hne1 _.
  apply wp_ebind, (writeLine_wp _ _ s (cleanRecord stored) recs); try done.
  - by eapply marshal_one_line.
  - by apply decodeLine_marshal.
  - cbn. congruence.
  - congruence.
  - congruence.
  - lia.
  - intros w' e Hs. apply He. by eapply stepOK_trans.
  - intros w' Hs Ht'. apply wp_ret, Hok; [|done|exact Ht'|by intros _].
    destruct Hs1, Hs. split; [congruence|done|by trans (wFS w1)].
Qed.

(** *** Appending a batch *)

(** Valid records of this producer with sequences [k], [k+1], ... *)
Record batchFrom (k : Z) (rest : list LogRecord) : Prop := {
  bf_valid r : r ∈ rest -> Validate r = None /\ rRunID r = rid /\ rProducerID r = pid /\
                           1 <= rSequence r < 2 ^ 64;
  bf_seq i r : rest !! i = Some r -> rSequence r = k + Z.of_nat i;
}.

(** The records of a batch the log does not hold yet. *)
Definition missing recs (rest : list LogRecord) : list LogRecord :=
  filter (fun r => Z.of_nat (length recs) < rSequence r) rest.

Lemma batchFrom_tail k r rest : batchFrom k (r :: rest) -> batchFrom (k + 1) rest.
Proof.
  intros [Hv Hs]. split; [intros; apply Hv; set_solver|].
  intros i x Hi. specialize (Hs (S i) x Hi). lia.
Qed.

Lemma missing_later recs k rest :
  batchFrom k rest -> Z.of_nat (length recs) < k -> missing recs rest = rest.
Proof.
  intros [_ Hs] Hk. unfold missing. clear -Hs Hk. revert k Hs Hk.
  induction rest as [|r rest IH]; intros k Hs Hk; [done|].
  assert (Hr : rSequence r = k) by (specialize (Hs 0%nat r eq_refl); lia).
  rewrite filter_cons_True by lia. f_equal. apply (IH (k + 1)); [|lia].
  intros i x Hi. specialize (Hs (S i) x Hi). lia.
Qed.

Lemma appendLoop_wp rest : forall w bw recs k res app0
    (Q : World -> (goerr + batchWriter) * AppendResult * list LogRecord -> Prop),
  batchFrom k rest -> tailAt (wFS w) (bTail bw) recs -> opened bw ->
  aAccepted res = Z.of_nat (length recs) ->
  (forall w' r res' stored,
     stepOK w w' (recs ++ map cleanRecord stored) ->
     Forall2 storedAs (take (length stored) (missing recs rest)) stored ->
     aAccepted res' = Z.of_nat (length recs + length stored) ->
     match r with
     | inl _ => (length stored < length (missing recs rest))%nat
     | inr bw' => tailAt (wFS w') (bTail bw') (recs ++ map cleanRecord stored) /\
                  length stored = length (missing recs rest) /\
                  aWritten res' = aWritten res + Z.of_nat (length stored) /\
                  aDuplicates res' =
                    aDuplicates res + Z.of_nat (length rest - length (missing recs rest))
     end -> Q w' (r, res', app0 ++ stored)) ->
  wp (appendLoop dir bw res app0 rest) w Q.
Proof.
  induction rest as [|rec rest IH]; intros w bw recs k res app0 Q Hb Ht Ho Hacc HQ;
    pose proof (tailAt_logAt _ _ _ _ _ Ht) as Hlog.
  { apply wp_ret. rewrite <- (app_nil_r app0). apply HQ; rewrite ?app_nil_r; simpl.
    - by apply stepOK_refl.
    - constructor.
    - lia.
    - split_and!; [done|done|lia|lia]. }
  pose proof (bf_valid _ _ Hb rec ltac:(set_solver)) as (Hv & Hr & Hp & Hrange).
  pose proof (bf_seq _ _ Hb 0%nat rec eq_refl) as Hk. rewrite Z.add_0_r in Hk.
  pose proof (batchFrom_tail _ _ _ Hb) as Hb'.
  assert (Hlast : tLast (bTail bw) = Z.of_nat (length recs)) by apply Ht.
  cbn [appendLoop]. cbv zeta. rewrite Hlast. case_match eqn:Hdup.
  - apply Z.leb_le in Hdup.
    assert (Hm : missing recs (rec :: rest) = missing recs rest).
    { unfold missing. by rewrite filter_cons_False by lia. }
    apply (IH _ _ recs (k + 1)); [done|done|done|done|].
    intros w' r res' stored Hs Hf Ha Hres. apply HQ; rewrite ?Hm; try done.
    destruct r as [|bw']; [done|]. destruct Hres as (H1 & H2 & H3 & H4). split_and!; try done.
    rewrite H4. cbn [aDuplicates length]. assert (length (missing recs rest) <= length rest)%nat by apply length_filter.
    lia.
  - apply Z.leb_gt in Hdup.
    assert (Hm : missing recs (rec :: rest) = rec :: rest).
    { by apply (missing_later _ k); [|lia]. }
    case_match eqn:Hgap.
    + apply wp_ret. rewrite <- (app_nil_r app0). apply HQ; rewrite ?app_nil_r, ?Hm; simpl.
      * by apply stepOK_refl.
      * constructor.
      * lia.
      * lia.
    + apply negb_false_iff, Z.eqb_eq in Hgap. unfold u64 in Hgap.
      assert (Hlen : Z.of_nat (length recs) < 2 ^ 64) by (destruct Hlog as [L HL]; apply HL).
      assert (Hsucc : rSequence rec = Z.of_nat (length recs) + 1).
      { destruct (decide (Z.of_nat (length recs) + 1 < 2 ^ 64)); [by rewrite Z.mod_small in Hgap by lia|].
        replace (Z.of_nat (length recs) + 1) with (2 ^ 64) in Hgap by lia.
        rewrite Z.mod_same in Hgap by done. lia. }
      apply wp_bind, (write_wp _ _ recs);
        [done|done|split; [done|done|lia|done|done]| |].
      * intros w' e Hs. apply wp_ret. rewrite <- (app_nil_r app0).
        apply HQ; rewrite ?app_nil_r, ?Hm; simpl; [done|constructor|lia|lia].
      * intros w1 bw1 stored1 Hs1 Hst1 Ht1 Ho1. destruct (storedAs_fields _ _ Hst1) as (Hseq1 & _).
        assert (Hm1 : missing (recs ++ [cleanRecord stored1]) rest = rest).
        { apply (missing_later _ (k + 1)); [done|]. rewrite length_app. simpl. lia. }
        apply (IH _ _ (recs ++ [cleanRecord stored1]) (k + 1)); [done|done|done| |].
        { cbn [aAccepted]. rewrite length_app. simpl. lia. }
        intros w' r res' stored Hs Hf Ha Hres. rewrite <- app_assoc in *. cbn [app] in *.
        rewrite Hm1 in *. apply (HQ w' r res' (stored1 :: stored)); rewrite ?Hm; cbn [length take map].
        -- by eapply stepOK_trans.
        -- by constructor.
        -- rewrite Ha, length_app. simpl. lia.
        -- destruct r as [|bw']; [simpl; lia|]. destruct Hres as (H1 & H2 & H3 & H4).
           split_and!; [done|by rewrite H2| |]; cbn [aWritten aDuplicates] in *; lia.
Qed.

(** What a whole locked append leaves behind. *)
Record appended w w' recs (batch : list LogRecord) (res : AppendResult)
    (applied : list LogRecord) (e : err) : Prop := {
  ap_log : logAt (wFS w') (recs ++ map cleanRecord applied);
  ap_cache : cacheAt (wFS w') (wTails w');
  ap_keeps : keepsLines (wFS w) (wFS w');
  ap_stored : Forall2 storedAs (take (length applied) (missing recs batch)) applied;
  ap_accepted : aAccepted res = Z.of_nat (length recs + length applied) \/
                (aAccepted res = 0 /\ applied = [] /\ e <> None);
  ap_done : e = None -> length applied = length (missing recs batch) /\
              aWritten res = Z.of_nat (length applied) /\
              aDuplicates res = Z.of_nat (length batch - length applied);
}.

Lemma stepOK_cacheAt w w' recs : stepOK w w' recs -> cacheAt (wFS w) (wTails w) -> cacheAt (wFS w') (wTails w').
Proof. intros [-> _ Hk] Hc. by eapply keepsLines_cacheAt. Qed.

Lemma appendLocked_appended w recs k batch :
  logAt (wFS w) recs -> cacheAt (wFS w) (wTails w) -> batchFrom k batch ->
  wp (appendLocked dir batch) w (fun w' r => appended w w' recs batch r.1.1 r.1.2 r.2).
Proof.
  intros Hlog Hcache Hb. apply wp_bind, (loadTail_wp _ recs); [done|done| |].
  { intros w' e Hs. apply wp_ret. pose proof (stepOK_cacheAt _ _ _ Hs Hcache) as Hc'. destruct Hs.
    split; cbn [fst snd map length]; rewrite ?app_nil_r; try done. by right. }
  intros w1 t Hs1 Ht. apply wp_get. apply wp_bind, (appendLoop_wp batch _ _ recs k); [done|done|done| |].
  { apply Ht. }
  intros w' r res' stored Hs Hf Ha Hres. cbn [app].
  assert (Hs' : stepOK w w' (recs ++ map cleanRecord stored)) by (by eapply stepOK_trans).
  pose proof (stepOK_cacheAt _ _ _ Hs' Hcache) as Hc'.
  destruct r as [e|bw'].
  - apply wp_ret. destruct Hs'. split; cbn [fst snd]; try done. by left.
  - destruct Hres as (Ht' & Hall & Hw & Hd). apply wp_bind. unfold rememberTail, put, wp. cbn.
    split; cbn [fst snd wFS wTails setTails]; try done.
    + apply Hs'.
    + by eapply tailAt_cacheAt.
    + apply Hs'.
    + by left.
    + intros _. rewrite Hw, Hd, Hall. split_and!; cbn [aWritten aDuplicates]; lia || done.
Qed.
End Durable.

(** ** Validated batches *)

(** The sequence of a record is an unsigned 64-bit number. *)
Definition typedRecord (r : LogRecord) : Prop := 0 <= rSequence r < 2 ^ 64.

Lemma validateBatchFrom_None first i rest :
  validateBatchFrom first i rest = None ->
  forall j r, rest !! j = Some r ->
    Validate r = None /\ rRunID r = rRunID first /\ rProducerID r = rProducerID first /\
    rSequence r = u64 (rSequence first + (i + Z.of_nat j)).
Proof.
  revert i. induction rest as [|x rest IH]; intros i; [done|]. cbn [validateBatchFrom].
  rewrite andThen_None, !if_Some_None, !negb_false_iff. unfold sameSource.
  rewrite andb_true_iff, !bool_decide_eq_true, Z.eqb_eq. intros (Hv & [Hr Hp] & Hs & Hrest).
  intros [|j] r Hj; simplify_eq/=; [by rewrite Z.add_0_r|].
  destruct (IH _ Hrest j r Hj) as (? & ? & ? & Hseq). split_and!; try done. rewrite Hseq. f_equal. lia.
Qed.

Lemma validateBatch_batchFrom first rest :
  validateBatch (first :: rest) = None -> Forall typedRecord (first :: rest) ->
  batchFrom (rRunID first) (rProducerID first) (rSequence first) (first :: rest).
Proof.
  intros Hv Ht. assert (Hall := validateBatchFrom_None first 0 (first :: rest) Hv).
  rewrite Forall_forall in Ht.
  assert (Hpos : forall r, Validate r = None -> typedRecord r -> 1 <= rSequence r < 2 ^ 64).
  { intros r (_ & _ & _ & H0 & _)%Validate_None [H1 H2]. lia. }
  assert (Hseq : forall j r, (first :: rest) !! j = Some r -> rSequence r = rSequence first + Z.of_nat j).
  { induction j as [|j IH]; intros r Hj; [simplify_eq/=; lia|].
    destruct (lookup_lt_is_Some_2 (first :: rest) j) as [r0 Hr0].
    { apply lookup_lt_Some in Hj. lia. }
    destruct (Hall _ _ Hj) as (Hval & _ & _ & Heq). specialize (IH _ Hr0).
    pose proof (Hpos r Hval (Ht r (list_elem_of_lookup_2 _ _ _ Hj))) as Hr.
    destruct (Hall _ _ Hr0) as (Hval0 & _).
    pose proof (Hpos r0 Hval0 (Ht r0 (list_elem_of_lookup_2 _ _ _ Hr0))) as Hr0'.
    rewrite Heq in Hr |- *. unfold u64 in *.
    destruct (decide (rSequence first + (0 + Z.of_nat (S j)) < 2 ^ 64)).
    - rewrite Z.mod_small; [lia|]. lia.
    - replace (rSequence first + (0 + Z.of_nat (S j))) with (2 ^ 64) in Hr by lia.
      rewrite Z.mod_same in Hr by done. lia. }
  split; [|done]. intros r Hin. apply list_elem_of_lookup in Hin as [j Hj].
  destruct (Hall _ _ Hj) as (Hval & Hr & Hp & _). split_and!; try done;
    apply (Hpos r Hval), Ht; by eapply list_elem_of_lookup_2.
Qed.
