(* ===== verification/LogCodec.v ===== *)
(** A concrete pair of encoding functions for the interface [JSON], with the
    laws of [JSONLaws] proved: every countable type can be written as a line of
    binary digits.  It stands in for [encoding/json] where a concrete run of the
    store is evaluated. *)
From S2P Require Import Prelude GoStd GoText LogTypes LogManifest LogFS LogStore LogSegment.

(** ** Binary digits *)

Fixpoint bits (p : positive) : string :=
  match p with
  | xH => "1"
  | xO p' => String "0" (bits p')
  | xI p' => String "1" (bits p')
  end.
Fixpoint unbits (s : string) : option positive :=
  match s with
  | String "1" EmptyString => Some xH
  | String "1" s' => xI <$> unbits s'
  | String "0" s' => xO <$> unbits s'
  | _ => None
  end.

Lemma bits_cons p : exists c s, bits p = String c s.
Proof. destruct p; simpl; eauto. Qed.

Lemma unbits_bits p : unbits (bits p) = Some p.
Proof.
  induction p as [p IH|p IH|]; [| |done].
  - cbn [bits unbits]. destruct (bits_cons p) as (c & s & Hb). rewrite Hb in *. by rewrite IH.
  - cbn [bits unbits]. by rewrite IH.
Qed.

Definition digits_only (s : string) : Prop :=
  forall c, c ∈ String.list_ascii_of_string s -> c = "0"%char \/ c = "1"%char.

Lemma bits_digits p : digits_only (bits p).
Proof. induction p as [p IH|p IH|]; intros c; simpl; set_solver. Qed.

(** ** Digits are one trimmed line *)

Lemma digits_one_line s : digits_only s -> splitLines s = ([], s).
Proof.
  induction s as [|c s IH]; intros Hs; [done|]. rewrite splitLines_cons, IH.
  2: { intros d Hd. apply Hs. simpl. set_solver. }
  simpl. rewrite decide_False; [done|].
  destruct (Hs c) as [-> | ->]; simpl; [set_solver|done|done].
Qed.

Lemma trimLeft_digits encodings n s :
  digits_only s -> s <> "" ->
  Forall (fun e => HasPrefix "0" (string_take 1 e) = false /\ HasPrefix "1" (string_take 1 e) = false) encodings ->
  trimLeft encodings n s = s.
Proof.
  intros Hs Hne He. destruct n as [|n]; [done|]. cbn [trimLeft].
  assert (Hf : filter (fun e => HasPrefix s e = true) encodings = []).
  { destruct (filter _ encodings) as [|e l] eqn:Hl; [done|exfalso].
    assert (Hin : e ∈ filter (fun e => HasPrefix s e = true) encodings) by (rewrite Hl; set_solver).
    apply list_elem_of_filter in Hin as [Hp Hin]. rewrite Forall_forall in He. specialize (He e Hin).
    apply HasPrefix_spec in Hp as [t ->]. destruct e as [|d e]; simpl in He; [naive_solver|].
    destruct (Hs d) as [-> | ->]; simpl; [set_solver|naive_solver..]. }
  by rewrite Hf.
Qed.

Lemma digits_rev s : digits_only s -> digits_only (string_rev s).
Proof.
  induction s as [|c s IH]; intros Hs; [done|]. rewrite string_rev_cons. intros d Hd.
  assert (Hin : forall a b, String.list_ascii_of_string (a +:+ b) =
                String.list_ascii_of_string a ++ String.list_ascii_of_string b).
  { intros a b. induction a as [|x a IHa]; [done|]. simpl. by rewrite <- IHa. }
  rewrite Hin, elem_of_app in Hd. destruct Hd as [Hd|Hd].
  - apply IH; [|done]. intros e He. apply Hs. simpl. set_solver.
  - apply Hs. simpl in *. set_solver.
Qed.

Lemma digits_trimmed s : digits_only s -> s <> "" -> TrimSpace s = s.
Proof.
  intros Hs Hne. unfold TrimSpace, TrimLeftSpace. rewrite trimLeft_digits; [|done|done|].
  2: { vm_compute. repeat constructor. }
  unfold TrimRightSpace. rewrite trimLeft_digits; [by apply string_rev_involutive| | |].
  - by apply digits_rev.
  - intros Hr. apply Hne. by rewrite <- (string_rev_involutive s), Hr.
  - vm_compute. repeat constructor.
Qed.

(** ** The codec of a countable type *)

Definition binJSON `{Countable A} (clean : A -> A) : JSON A :=
  mkJSON (fun a => Some (bits (countable.encode (clean a)))) (fun s => p ← unbits s; decode p).

Lemma binJSON_laws `{Countable A} (clean : A -> A) : @JSONLaws A (binJSON clean) clean.
Proof.
  split; intros a s; cbn; [intros [= <-]..|eauto].
  - rewrite unbits_bits. cbn. apply decode_encode.
  - apply digits_one_line, bits_digits.
  - apply digits_trimmed; [apply bits_digits|]. by destruct (bits_cons (countable.encode (clean a))) as (c & s & ->).
  - by destruct (bits_cons (countable.encode (clean a))) as (c & s & ->).
Qed.

(** ** Records and manifests are countable *)

Definition field : Type := string + Z.
Definition fStr (s : string) : field := inl s.
Definition fInt (z : Z) : field := inr z.
Definition fBool (b : bool) : field := inr (if b then 1 else 0).
Definition fOpt (o : option Z) : list field :=
  match o with Some z => [inr 1; inr z] | None => [inr 0; inr 0] end.
Definition gBool (z : Z) : bool := z =? 1.
Definition gOpt (a b : Z) : option Z := if a =? 1 then Some b else None.

Definition recordFields (r : LogRecord) : list field :=
  [fInt (rSchemaVersion r); fStr (rKind r); fStr (rRunID r); fStr (rProducerID r);
   fInt (rSequence r); fInt (rTime r); fStr (rParentProducerID r); fStr (rChildProducerID r);
   fStr (rProducerState r); fBool (rDiscoverySealed r); fStr (rInvocationID r); fStr (rPhase r);
   fStr (rHook r)] ++ fOpt (rHookIndex r) ++
  [fStr (rHookKey r); fStr (rLocation r); fStr (rState r); fStr (rReason r)] ++
  fOpt (rDurationMillis r) ++ fOpt (rExitCode r) ++
  [fStr (rSignal r); fStr (rStream r); fStr (rText r); fInt (rBytes r); fBool (rElided r);
   fStr (rCondition r); fStr (rDetail r); fInt (rDroppedBytes r)].
Definition fieldsRecord (l : list field) : option LogRecord :=
  match l with
  | [inr a; inl b; inl c; inl d; inr e; inr f; inl g; inl h; inl i; inr j; inl k; inl m; inl n;
     inr o; inr p; inl q; inl r; inl s; inl t; inr u; inr v; inr w; inr x; inl y; inl z; inl a';
     inr b'; inr c'; inl d'; inl e'; inr f'] =>
      Some (mkRecord a b c d e f g h i (gBool j) k m n (gOpt o p) q r s t (gOpt u v) (gOpt w x)
              y z a' b' (gBool c') d' e' f')
  | _ => None
  end.
Lemma fields_record r : fieldsRecord (recordFields r) = Some r.
Proof.
  destruct r as [? ? ? ? ? ? ? ? ? [] ? ? ? [] ? ? ? ? [] [] ? ? ? ? [] ? ? ?]; done.
Qed.
#[export] Instance LogRecord_countable : Countable LogRecord :=
  inj_countable recordFields fieldsRecord fields_record.

Definition refFields (p : ProducerRef) : list field :=
  [fStr (pProducerID p); fStr (pParentProducerID p); fStr (pState p); fStr (pLocation p);
   fBool (pSealed p)].
Definition fieldsRef (l : list field) : option ProducerRef :=
  match l with
  | [inl a; inl b; inl c; inl d; inr e] => Some (mkProducerRef a b c d (gBool e))
  | _ => None
  end.
Lemma fields_ref p : fieldsRef (refFields p) = Some p.
Proof. by destruct p as [? ? ? ? []]. Qed.
#[export] Instance ProducerRef_countable : Countable ProducerRef :=
  inj_countable refFields fieldsRef fields_ref.

#[export] Instance RunManifest_eq_dec : EqDecision RunManifest.
Proof. solve_decision. Defined.

Definition manifestFields (m : RunManifest) : list field * list string * list ProducerRef :=
  ([fInt (mSchemaVersion m); fStr (mRunID m); fStr (mContext m);
    fStr (default "" (mWorkspaceUID m)); fBool (bool_decide (is_Some (mWorkspaceUID m)));
    fStr (mWorkspaceIDAtStart m); fStr (mCommand m); fStr (mTaskID m); fInt (mCreatedAt m);
    fInt (mUpdatedAt m); fStr (mCommandState m); fStr (mCaptureState m);
    fBool (mDiscoverySealed m)], mConditions m, mProducers m).
Definition fieldsManifest (x : list field * list string * list ProducerRef) : option RunManifest :=
  match x with
  | ([inr a; inl b; inl c; inl d; inr e; inl f; inl g; inl h; inr i; inr j; inl k; inl l; inr m], cs, ps) =>
      Some (mkManifest a b c (if gBool e then Some d else None) f g h i j k l cs ps (gBool m))
  | _ => None
  end.
Lemma fields_manifest m : fieldsManifest (manifestFields m) = Some m.
Proof. destruct m as [? ? ? [] ? ? ? ? ? ? ? ? ? []]; done. Qed.
#[export] Instance RunManifest_countable : Countable RunManifest :=
  inj_countable manifestFields fieldsManifest fields_manifest.
