(* ===== verification/LogSystem.v ===== *)
(** The durability of workspace logs: the log a store holds, what appending a
    batch does to it under every schedule of failures, and the behaviour of
    several processes that share one store. *)
From S2P Require Import Prelude GoStd GoText LogTypes LogManifest LogFS LogStore LogSegment.
From S2P Require Import LogDisk LogDurable LogCodec.

(** ** The log on disk *)

Section StoredLog.
Context `{JSON LogRecord}.

Definition contentOf (fs : FS) (dir : path) (s : segment) : string :=
  match fs !! (dir ++ [gName s]) with Some (File d) => d | _ => "" end.

(** The records of every committed line, segment after segment. *)
Definition storedLog (fs : FS) (rid pid : string) : list LogRecord :=
  let dir := producerPath rid pid in
  omap id (concat (map (fun s => map decodeLine (lines (contentOf fs dir s))) (segmentsIn fs dir))).

(** The store is sound for a producer: its segments chain up. *)
Definition logOK (fs : FS) (rid pid : string) : Prop := logAt rid pid fs (storedLog fs rid pid).

Lemma omap_id_Some {A} (l : list A) : omap id (map Some l) = l.
Proof. induction l as [|x l IH]; [done|]. simpl. by f_equal. Qed.

Lemma chain_decode rid pid n L recs :
  chain rid pid n L recs -> omap id (concat (map (fun p => map decodeLine (lines p.2)) L)) = recs.
Proof.
  induction 1 as [|n c rs L recs Hd Hr Ht Hc IH]; [done|]. simpl.
  by rewrite omap_app, Hd, omap_id_Some, IH.
Qed.

Lemma logAt_storedLog fs rid pid recs : logAt rid pid fs recs -> storedLog fs rid pid = recs.
Proof.
  intros [L HL]. unfold storedLog. rewrite (storedIn_segmentsIn _ _ _ _ _ HL), map_map.
  rewrite <- (chain_decode _ _ _ _ _ (st_chain _ _ _ _ _ HL)). do 2 f_equal. apply map_ext_in.
  intros [f c] Hin%list_elem_of_In. unfold contentOf. cbn [toSegment gName fst snd].
  destruct HL as [Hl Hc Hf Hr Hd].
  rewrite (proj2 (Hf (segmentName f) f c (segmentName_parse f (Hr f c Hin))) Hin). done.
Qed.

Lemma logAt_logOK fs rid pid recs : logAt rid pid fs recs -> logOK fs rid pid.
Proof. intros Hl. unfold logOK. by rewrite (logAt_storedLog _ _ _ _ Hl). Qed.

(** Nothing on disk yet. *)
Lemma logOK_empty fs rid pid :
  (forall name, fs !! (producerPath rid pid ++ [name]) = None) -> logAt rid pid fs [].
Proof.
  intros Hfs. exists []. split; [done|constructor| |set_solver|done].
  intros name f c _. rewrite Hfs. set_solver.
Qed.
End StoredLog.

(** ** Frames *)

(** The files of a producer's log. *)
Definition segmentPath (rid pid : string) (p : path) : Prop :=
  exists name, p = producerPath rid pid ++ [name] /\ is_Some (parseSegmentName name).

Section Frames.
Context `{JSON LogRecord} (rid pid : string).

Lemma storedIn_frame fs fs' L recs :
  (forall p, segmentPath rid pid p -> fs' !! p = fs !! p) ->
  (fs !! producerPath rid pid = Some Dir -> fs' !! producerPath rid pid = Some Dir) ->
  storedIn rid pid fs L recs -> storedIn rid pid fs' L recs.
Proof.
  intros Hp Hd [Hl Hc Hf Hr Hdir]. split; [done|done| |done|auto].
  eapply segFiles_frame; [|done]. intros name f Hn. apply Hp. exists name. by rewrite Hn.
Qed.

Lemma cacheAt_frame fs fs' ts :
  (forall p, segmentPath rid pid p -> fs' !! p = fs !! p) ->
  cacheAt rid pid fs ts -> cacheAt rid pid fs' ts.
Proof.
  intros Hp Hc t Ht Hne. destruct (Hc t Ht Hne) as (f & c0 & x & Hn & Hf & Hfile & Hrest).
  exists f, c0, x. split; [done|]. split; [done|]. split; [|done]. rewrite Hp; [done|].
  exists (tName t). rewrite Hn, segmentName_parse by done. done.
Qed.
End Frames.

(** The files [appendLocked] touches: those in the producer's directory. *)
Definition inProducer (rid pid : string) (p : path) : Prop :=
  exists name, p = producerPath rid pid ++ [name].

Section AppendFrame.
Context `{JSON LogRecord} (rid pid : string).
Local Abbreviation dir := (producerPath rid pid).
Local Abbreviation P := (inProducer rid pid).

Lemma P_entry name : P (dir ++ [name]).
Proof. by eexists. Qed.
Hint Resolve P_entry : touch.

Lemma touches_appendText name text : touches P (appendText (dir ++ [name]) text).
Proof. unfold appendText. touch. Qed.
Hint Resolve touches_appendText : touch.
Lemma touches_writeLine name line : touches P (writeLine (dir ++ [name]) line).
Proof. unfold writeLine. touch. Qed.
Lemma touches_openSegment name : touches P (openSegment dir name).
Proof. unfold openSegment. touch. Qed.
Hint Resolve touches_writeLine touches_openSegment : touch.
Lemma touches_openFor bw seq n : touches P (openFor dir bw seq n).
Proof. unfold openFor. touch. Qed.
Hint Resolve touches_openFor : touch.
Lemma touches_write bw rec : touches P (write dir bw rec).
Proof. unfold write. touch. Qed.
Hint Resolve touches_write : touch.
Lemma touches_appendLoop records : forall bw res applied,
  touches P (appendLoop dir bw res applied records).
Proof. induction records as [|rec records IH]; intros; cbn [appendLoop]; touch; apply IH. Qed.
Lemma touches_loadTail : touches P (loadTail dir).
Proof.
  unfold loadTail, listSegments, statSize, cachedTail, rescanTail, repairTail, scanSegment. touch.
Qed.

(** No file outside the producer's directory, and no other cached tail. *)
Lemma appendLocked_frame records w :
  (forall p, ~ P p -> wFS (appendLocked dir records w).1 !! p = wFS w !! p) /\
  (forall d, d <> dir -> wTails (appendLocked dir records w).1 !! d = wTails w !! d).
Proof.
  unfold appendLocked, bind. destruct (touches_loadTail w) as [Ht Hp].
  destruct (loadTail dir w) as [w1 [e|t]]; cbn in *; [by rewrite Ht|].
  set (bw := mkWriter t _ false). set (r0 := mkAppend _ _ _ _).
  destruct (touches_appendLoop records bw r0 [] w1) as [Ht' Hp'].
  destruct (appendLoop dir bw r0 [] records w1) as [w2 [[[e|bw'] res] applied]]; cbn in *.
  - split; [|by rewrite Ht', Ht]. intros p HP. by rewrite Hp', Hp.
  - split; [intros p HP; by rewrite Hp', Hp|]. intros d Hd. by rewrite lookup_insert_ne, Ht', Ht.
Qed.
End AppendFrame.

(** ** Operations that leave every log alone *)

Record quiet (w w' : World) : Prop := {
  q_tails : wTails w' = wTails w;
  q_segments rid pid p : segmentPath rid pid p -> wFS w' !! p = wFS w !! p;
  q_dirs rid pid : wFS w !! producerPath rid pid = Some Dir -> wFS w' !! producerPath rid pid = Some Dir;
}.
Definition harmless {A} (m : St A) : Prop := forall w, quiet w (m w).1.

#[export] Instance quiet_preorder : PreOrder quiet.
Proof.
  split; [by intros w|]. intros w1 w2 w3 [] []. split; [congruence| |by auto].
  intros rid pid p Hp. rewrite (q_segments1 rid pid) by done. by apply (q_segments0 rid pid).
Qed.

Lemma harmless_ret {A} (a : A) : harmless (ret a).
Proof. by intros w. Qed.
Lemma harmless_get {A} (f : World -> A) : harmless (get f).
Proof. by intros w. Qed.
Lemma harmless_now : harmless now.
Proof. intros w. by split. Qed.
Lemma harmless_NewID `{IDSource} : harmless NewID.
Proof. intros w. by split. Qed.
Lemma harmless_sysFault : harmless sysFault.
Proof. intros w. unfold sysFault. destruct (wFaults w); by split. Qed.
Lemma harmless_bind {A B} (m : St A) (k : A -> St B) :
  harmless m -> (forall a, harmless (k a)) -> harmless (bind m k).
Proof. intros Hm Hk w. unfold bind. trans (m w).1; [apply Hm|apply Hk]. Qed.
Lemma harmless_ebind {A B} (m : St (goerr + A)) (k : A -> St (goerr + B)) :
  harmless m -> (forall a, harmless (k a)) -> harmless (ebind m k).
Proof. intros Hm Hk. unfold ebind. apply harmless_bind; [done|]. intros [e|a]; [by intros w|done]. Qed.
Lemma harmless_sys {A} ctx (m : St (goerr + A)) : harmless m -> harmless (sys ctx m).
Proof. intros Hm. apply harmless_bind; [apply harmless_sysFault|]. intros []; [by intros w|done]. Qed.

(** Files that are neither segments nor producer directories. *)
Definition otherFile (p : path) : Prop :=
  forall rid pid, ~ segmentPath rid pid p /\ p <> producerPath rid pid.
Lemma harmless_touches {A} (P : path -> Prop) (m : St A) :
  (forall p, P p -> otherFile p) -> touches P m -> harmless m.
Proof.
  intros HP Hm w. destruct (Hm w) as [Ht Hp]. split; [done| |].
  - intros rid pid p Hseg. apply Hp. intros Hf%HP. by destruct (Hf rid pid).
  - intros rid pid Hd. rewrite Hp; [done|]. intros Hf%HP. by destruct (Hf rid pid).
Qed.

Lemma runFile_other runID p : runFile runID p -> otherFile p.
Proof. intros [name ->] rid pid. split; [by intros (n & Heq & _)|done]. Qed.

Lemma parse_appendLock : parseSegmentName appendLock = None.
Proof. vm_compute. reflexivity. Qed.

Lemma appendLock_other rid pid : otherFile (producerPath rid pid ++ [appendLock]).
Proof.
  intros rid' pid'. split; [|done]. intros (name & Heq & Hs).
  assert (name = appendLock) as -> by (unfold producerPath in Heq; simpl in Heq; congruence).
  rewrite parse_appendLock in Hs. by destruct Hs.
Qed.

(** Creating a directory above the segments. *)
Lemma harmless_mkdir p w :
  (length p <= 4)%nat -> wFS w !! p = None -> quiet w (setFS (<[p := Dir]> (wFS w)) w).
Proof.
  intros Hl Hn. split; [done| |]; cbn [wFS setFS].
  - intros rid pid q (name & -> & _). rewrite lookup_insert_ne; [done|]. intros ->. simpl in Hl. lia.
  - intros rid pid Hd. rewrite lookup_insert_ne; [done|]. intros ->. congruence.
Qed.

Lemma harmless_ensureComponent p : (length p <= 4)%nat -> harmless (ensureComponent p).
Proof.
  intros Hl. unfold ensureComponent. apply harmless_sys. intros w.
  unfold bind at 1, lookupFS, get. cbn [fst snd].
  destruct (wFS w !! p) as [[]|] eqn:Hp; [done..|].
  unfold sys, bind at 1. pose proof (harmless_sysFault w) as Hs.
  assert (Hfs : wFS (sysFault w).1 = wFS w) by (unfold sysFault; by destruct (wFaults w)).
  destruct (sysFault w) as [w1 [n|]]; cbn [fst snd] in *; [done|].
  unfold bind at 1, parentIsDir, lookupFS, get, bind, ret. cbn [fst snd]. case_match; [|done].
  trans w1; [done|]. apply harmless_mkdir; [done|by rewrite Hfs].
Qed.

Lemma harmless_ensureDirFrom cur parts :
  (length cur + length parts <= 4)%nat -> harmless (ensureDirFrom cur parts).
Proof.
  revert cur. induction parts as [|x parts IH]; intros cur Hl; [apply harmless_ret|].
  cbn [ensureDirFrom length] in *. apply harmless_ebind.
  - apply harmless_ensureComponent. rewrite length_app. simpl. lia.
  - intros _. apply IH. rewrite length_app. simpl. lia.
Qed.

Lemma harmless_withLock {A} p (fn : St (goerr + A)) :
  otherFile p -> harmless fn -> harmless (withLock p fn).
Proof.
  intros Hp Hf. unfold withLock. apply harmless_sys, harmless_bind.
  { eapply (harmless_touches (fun _ => False)); [done|]. touch. }
  intros parent. apply harmless_bind; [apply harmless_get|]. intros n.
  repeat case_match; try apply harmless_ret; [done|]. apply harmless_bind; [|done].
  apply (harmless_touches (eq p)); [by intros ? <-|]. by apply touches_writeFS.
Qed.

Create HintDb quiet.
#[export] Hint Resolve harmless_ret harmless_get harmless_now harmless_NewID harmless_sysFault
  harmless_bind harmless_ebind harmless_sys : quiet.

Section Harmless.
Context `{JSON RunManifest} `{IDSource}.

Lemma harmless_runFile {A} runID (m : St A) : touches (runFile runID) m -> harmless m.
Proof. apply harmless_touches, runFile_other. Qed.

Lemma harmless_readManifest dir : harmless (readManifest dir).
Proof. apply (harmless_touches (fun _ => False)); [done|]. apply touches_readManifest. Qed.

Lemma harmless_writeManifest runID m : harmless (writeManifest (runPath runID) m).
Proof.
  eapply harmless_runFile, touches_writeManifest. intros p. apply replaced_runFile.
Qed.

Lemma harmless_update {A} runID (fn : RunManifest -> goerr + (RunManifest * A)) :
  harmless (update runID fn).
Proof. apply (harmless_runFile runID), touches_update. Qed.

Lemma harmless_RegisterProducer runID ref : harmless (RegisterProducer runID ref).
Proof. apply (harmless_runFile runID), touches_RegisterProducer. Qed.

Lemma harmless_Manifest runID : harmless (Manifest runID).
Proof.
  unfold Manifest, lift. apply harmless_ebind; [apply harmless_ret|]. intros. apply harmless_readManifest.
Qed.

Lemma harmless_CreateRun spec : harmless (CreateRun spec).
Proof.
  unfold CreateRun. apply harmless_ebind; [apply harmless_ret|]. intros _. apply harmless_bind.
  { case_match; [|apply harmless_ret]. apply harmless_bind; [apply harmless_NewID|]. intros. apply harmless_ret. }
  intros spec'. unfold runDir, lift. destruct (requireID "runId" (sRunID spec')).
  { rewrite ebind_inl. apply harmless_ret. }
  rewrite ebind_inr. apply harmless_ebind; [apply harmless_ensureDirFrom; simpl; lia|]. intros _.
  apply harmless_withLock; [eapply runFile_other; by eexists|]. unfold createOrJoin.
  apply harmless_bind; [apply harmless_readManifest|]. intros [e|m].
  - case_match; [apply harmless_ret|]. apply harmless_bind; [apply harmless_now|]. intros t.
    apply harmless_bind; [apply harmless_get|]. intros full.
    apply harmless_ebind; [apply harmless_writeManifest|]. intros _. apply harmless_ret.
  - case_match; apply harmless_ret.
Qed.

Lemma harmless_prepareProducer rec : harmless (prepareProducer rec).
Proof.
  unfold prepareProducer. apply harmless_ebind; [apply harmless_Manifest|]. intros m.
  apply harmless_ebind.
  { case_match; [apply harmless_ret|]. unfold registerFromFirstRecord.
    case_match; [apply harmless_ret|apply harmless_RegisterProducer]. }
  intros _. apply harmless_ebind; [apply harmless_ensureDirFrom; simpl; lia|]. intros _. apply harmless_ret.
Qed.

Lemma harmless_applyToManifest runID applied : harmless (applyToManifest runID applied).
Proof. unfold applyToManifest. case_match; [apply harmless_update|apply harmless_ret]. Qed.
End Harmless.

(** *** What quiet steps preserve *)

Section Preserve.
Context `{JSON LogRecord} (rid pid : string).

Lemma quiet_logAt w w' recs : quiet w w' -> logAt rid pid (wFS w) recs -> logAt rid pid (wFS w') recs.
Proof.
  intros Hq [L HL]. exists L. eapply storedIn_frame; [|apply (q_dirs _ _ Hq)|done].
  apply (q_segments _ _ Hq).
Qed.
Lemma quiet_cacheAt w w' :
  quiet w w' -> cacheAt rid pid (wFS w) (wTails w) -> cacheAt rid pid (wFS w') (wTails w').
Proof.
  intros Hq. rewrite (q_tails _ _ Hq). apply cacheAt_frame. apply (q_segments _ _ Hq).
Qed.
End Preserve.

(** ** Appending a batch *)

Section AppendTheorems.
Context `{JSONLaws LogRecord (clean := cleanRecord)} `{JSON RunManifest}.

(** The store is sound for a producer: its segments chain up and the cached
    tail, if any, is right. *)
Definition storeOK (w : World) (rid pid : string) : Prop :=
  logOK (wFS w) rid pid /\ cacheAt rid pid (wFS w) (wTails w).

(** What appending a batch to a producer's log may leave behind: the log grows
    by the records applied, each the stored form of the next missing record. *)
Record extendedBy (w w' : World) (rid pid : string) (batch applied : list LogRecord) : Prop := {
  ext_ok : storeOK w' rid pid;
  ext_log : storedLog (wFS w') rid pid = storedLog (wFS w) rid pid ++ map cleanRecord applied;
  ext_stored : Forall2 storedAs
                 (take (length applied) (missing (storedLog (wFS w) rid pid) batch)) applied;
}.

Lemma appendLocked_extends w first rest :
  validateBatch (first :: rest) = None -> Forall typedRecord (first :: rest) ->
  storeOK w (rRunID first) (rProducerID first) ->
  wp (appendLocked (producerPath (rRunID first) (rProducerID first)) (first :: rest)) w
    (fun w' r =>
       extendedBy w w' (rRunID first) (rProducerID first) (first :: rest) r.1.2 /\
       appended (rRunID first) (rProducerID first) w w'
         (storedLog (wFS w) (rRunID first) (rProducerID first)) (first :: rest) r.1.1 r.1.2 r.2).
Proof.
  intros Hv Ht [Hl Hc]. eapply wp_mono.
  - eapply appendLocked_appended; [exact Hl|exact Hc|]. by apply validateBatch_batchFrom.
  - intros w' [[res applied] e] Ha. split; [|done]. destruct Ha. cbn [fst snd] in *.
    split; [split; [by eapply logAt_logOK|done]|by eapply logAt_storedLog|done].
Qed.

(** C5: Appending a valid batch under the append lock, under any schedule of
    system-call failures and torn writes: the stored log stays contiguous, is
    extended by the stored form of the batch's first missing records and
    nothing else, and [Accepted] is exactly its new length (or 0 when the tail
    could not be loaded, and then nothing was written).  Without an error every
    record of the batch is stored and the rest are counted as duplicates. *)
Theorem appendLocked_durable w first rest :
  validateBatch (first :: rest) = None -> Forall typedRecord (first :: rest) ->
  storeOK w (rRunID first) (rProducerID first) ->
  forall w' res applied e,
    appendLocked (producerPath (rRunID first) (rProducerID first)) (first :: rest) w =
      (w', (res, applied, e)) ->
    extendedBy w w' (rRunID first) (rProducerID first) (first :: rest) applied /\
    (aAccepted res = Z.of_nat (length (storedLog (wFS w') (rRunID first) (rProducerID first))) \/
     (aAccepted res = 0 /\ applied = [] /\ e <> None)) /\
    (e = None ->
       length applied =
         length (missing (storedLog (wFS w) (rRunID first) (rProducerID first)) (first :: rest)) /\
       aWritten res = Z.of_nat (length applied) /\
       aDuplicates res = Z.of_nat (length (first :: rest) - length applied)).
Proof.
  intros Hv Ht Hok w' res applied e Hrun.
  pose proof (appendLocked_extends w first rest Hv Ht Hok) as Hw. unfold wp in Hw.
  rewrite Hrun in Hw. destruct Hw as [Hext [_ _ _ _ Hacc Hdone]]. cbn [fst snd] in *.
  split_and!; [done| |done]. rewrite (ext_log _ _ _ _ _ _ Hext), length_app, length_map. done.
Qed.

Lemma quiet_storeOK w w' rid pid : quiet w w' -> storeOK w rid pid -> storeOK w' rid pid.
Proof.
  intros Hq [Hl Hc]. split; [|by eapply quiet_cacheAt]. eapply logAt_logOK, quiet_logAt; done.
Qed.
Lemma quiet_storedLog w w' rid pid :
  quiet w w' -> storeOK w rid pid -> storedLog (wFS w') rid pid = storedLog (wFS w) rid pid.
Proof. intros Hq [Hl _]. eapply logAt_storedLog, quiet_logAt; done. Qed.

Lemma quiet_extendedBy w w1 w2 w3 rid pid batch applied :
  quiet w w1 -> storeOK w rid pid -> extendedBy w1 w2 rid pid batch applied -> quiet w2 w3 ->
  extendedBy w w3 rid pid batch applied.
Proof.
  intros Hq Hok [H1 H2 H3] Hq'. rewrite (quiet_storedLog _ _ _ _ Hq Hok) in *.
  split; [by eapply quiet_storeOK|by rewrite (quiet_storedLog _ _ _ _ Hq' H1)|done].
Qed.
Lemma quiet_unchanged w w' rid pid batch :
  quiet w w' -> storeOK w rid pid -> extendedBy w w' rid pid batch [].
Proof.
  intros Hq Hok. split; [by eapply quiet_storeOK| |constructor].
  by rewrite (quiet_storedLog _ _ _ _ Hq Hok), app_nil_r.
Qed.

Lemma harmless_wp {A} (m : St A) w (Q : World -> A -> Prop) :
  harmless m -> (forall w' a, quiet w w' -> Q w' a) -> wp m w Q.
Proof. intros Hm HQ. apply HQ, Hm. Qed.

(** Taking the append lock: it fails before the function runs, or the function
    runs after quiet steps. *)
Lemma withLock_wp {A} rid pid (fn : St (goerr + A)) w (Q : World -> goerr + A -> Prop) :
  (forall w' e, quiet w w' -> Q w' (inl e)) ->
  (forall w', quiet w w' -> wp fn w' Q) ->
  wp (withLock (producerPath rid pid ++ [appendLock]) fn) w Q.
Proof.
  intros He Hf. unfold withLock, sys. apply wp_bind, harmless_wp; [apply harmless_sysFault|].
  intros w1 [n|] Hq1; [by apply wp_ret, He|].
  apply wp_bind, wp_lookupFS, wp_ret, wp_lookupFS.
  repeat case_match; try (by apply wp_ret, He); [by apply Hf|].
  apply wp_writeFS, Hf. trans w1; [done|].
  apply (harmless_touches (eq (producerPath rid pid ++ [appendLock])) (writeFS _ (File "")));
    [intros ? <-; apply appendLock_other|by apply touches_writeFS].
Qed.

Definition accounted (w w' : World) (first : LogRecord) (rest : list LogRecord)
    (res : AppendResult) (e : err) : Prop :=
  exists applied,
    extendedBy w w' (rRunID first) (rProducerID first) (first :: rest) applied /\
    (aAccepted res = Z.of_nat (length (storedLog (wFS w') (rRunID first) (rProducerID first))) \/
     (aAccepted res = 0 /\ applied = [] /\ e <> None)) /\
    (e = None ->
       length applied =
         length (missing (storedLog (wFS w) (rRunID first) (rProducerID first)) (first :: rest)) /\
       aAccepted res = Z.of_nat (length (storedLog (wFS w') (rRunID first) (rProducerID first)))).

Lemma failed_accounted w w' first rest e :
  storeOK w (rRunID first) (rProducerID first) -> quiet w w' ->
  accounted w w' first rest zeroAppend (Some e).
Proof. intros Hok Hq. exists []. split; [by apply quiet_unchanged|]. cbn. split; [by right|done]. Qed.

Lemma prepareProducer_wp rec w (Q : World -> goerr + path -> Prop) :
  (forall w' e, quiet w w' -> Q w' (inl e)) ->
  (forall w', quiet w w' -> Q w' (inr (producerPath (rRunID rec) (rProducerID rec)))) ->
  wp (prepareProducer rec) w Q.
Proof.
  intros He Hok. assert (Hq := harmless_prepareProducer rec w). unfold wp.
  assert (Hdir : forall d, (prepareProducer rec w).2 = inr d -> d = producerPath (rRunID rec) (rProducerID rec)).
  { assert (Hw : wp (prepareProducer rec) w (fun _ r => forall d, r = inr d ->
                   d = producerPath (rRunID rec) (rProducerID rec))); [|exact Hw].
    do 3 (apply wp_ebind; unfold wp at 1;
          lazymatch goal with |- match ?x with inl _ => _ | inr _ => _ end => destruct x end; [done|]).
    unfold lift, producerDir, runDir, wp, ret. cbn. intros d. repeat case_match; naive_solver. }
  destruct (prepareProducer rec w) as [w' [e|d]]; cbn [fst snd] in *; [by apply He|].
  rewrite (Hdir d eq_refl). by apply Hok.
Qed.

Lemma Append_wp w first rest :
  Forall typedRecord (first :: rest) -> storeOK w (rRunID first) (rProducerID first) ->
  wp (Append (first :: rest)) w (fun w' r => accounted w w' first rest r.1 r.2).
Proof.
  intros Ht Hok. unfold Append. destruct (validateBatch (first :: rest)) as [ve|] eqn:Hv.
  { by apply wp_ret, failed_accounted. }
  apply wp_bind, prepareProducer_wp; [intros w1 e Hq1; by apply wp_ret, failed_accounted|].
  intros w1 Hq1. pose proof (quiet_storeOK _ _ _ _ Hq1 Hok) as Hok1.
  apply wp_bind, withLock_wp.
  { intros w2 e Hq2. apply wp_bind, harmless_wp; [apply harmless_applyToManifest|].
    intros w3 r Hq3. apply wp_ret. cbn [fst snd andThen]. apply failed_accounted; [done|].
    trans w1; [done|]. by trans w2. }
  intros w2 Hq2. pose proof (quiet_storeOK _ _ _ _ Hq2 Hok1) as Hok2.
  apply wp_bind. eapply wp_mono; [by apply appendLocked_extends|].
  intros w3 [[res applied] e] [Hext Happ]. cbn [fst snd] in Hext, Happ. apply wp_ret.
  apply wp_bind, harmless_wp; [apply harmless_applyToManifest|]. intros w4 r Hq4. apply wp_ret.
  cbn [fst snd]. assert (Hq02 : quiet w w2) by (by trans w1).
  assert (Hext' := quiet_extendedBy _ _ _ _ _ _ _ _ Hq02 Hok Hext Hq4).
  exists applied. split; [done|]. rewrite (ext_log _ _ _ _ _ _ Hext'), length_app, length_map.
  rewrite <- (quiet_storedLog _ _ _ _ Hq02 Hok).
  destruct Happ as [_ _ _ _ Hacc Hdone]. cbn [fst snd] in *. split.
  - destruct Hacc as [->|(-> & -> & He)]; [left; lia|right]. by destruct e.
  - destruct e; [done|]. intros _. destruct (Hdone eq_refl) as (? & _). split; [done|].
    destruct Hacc as [->|(_ & _ & ?)]; [lia|done].
Qed.

(** C4: [Append] as a whole - registration, locking, writing, the manifest
    update - from a sound store, under any schedule of failures: the producer's
    log only grows, by the stored form of the batch's first missing records;
    [Accepted] is the length of the log, or 0 when nothing was stored and an
    error is returned; when no error is returned every record of the batch is
    stored and [Accepted] is the length of the log. *)
Theorem Append_durable w first rest :
  Forall typedRecord (first :: rest) -> storeOK w (rRunID first) (rProducerID first) ->
  forall w' res e, Append (first :: rest) w = (w', (res, e)) ->
  accounted w w' first rest res e.
Proof. intros Ht Hok w' res e Hrun. pose proof (Append_wp w first rest Ht Hok) as Hw. unfold wp in Hw. by rewrite Hrun in Hw. Qed.
End AppendTheorems.

(** ** Several processes on one store *)

Section System.
Context `{JSONLaws LogRecord (clean := cleanRecord)} `{JSON RunManifest}.

(** The shared files and the tail cache of every process. *)
Record Sys := mkSys { sysFS : FS; sysTails : gmap nat (gmap path tail) }.

(** The state process [p] runs in; the failures, the clock and the generated
    identifiers are whatever the environment decides. *)
Definition runsIn (s : Sys) (p : nat) (w : World) : Prop :=
  wFS w = sysFS s /\ wTails w = default ∅ (sysTails s !! p).
Definition after (s : Sys) (p : nat) (w' : World) : Sys :=
  mkSys (wFS w') (<[p := wTails w']> (sysTails s)).

(** One atomic step: a batch appended under a producer's append lock, any
    operation that touches no segment (creating runs, manifest updates under
    the manifest lock, reads, acknowledgements), or a process that dies and
    loses its cache.  An append that dies half-way is the append step whose
    failure schedule stops it there, followed by the crash. *)
Inductive sysStep (s : Sys) : Sys -> Prop :=
| step_append p w first rest :
    runsIn s p w -> validateBatch (first :: rest) = None -> Forall typedRecord (first :: rest) ->
    sysStep s (after s p (appendLocked (producerPath (rRunID first) (rProducerID first))
                            (first :: rest) w).1)
| step_other {A} p w (m : St A) :
    runsIn s p w -> harmless m -> sysStep s (after s p (m w).1)
| step_crash p : sysStep s (mkSys (sysFS s) (delete p (sysTails s))).

Definition sysOK (s : Sys) : Prop :=
  forall rid pid,
    logOK (sysFS s) rid pid /\
    (forall p ts, sysTails s !! p = Some ts -> cacheAt rid pid (sysFS s) ts).

Lemma cacheAt_empty rid pid fs : cacheAt rid pid fs ∅.
Proof. intros t. by rewrite lookup_empty. Qed.

Lemma runsIn_storeOK s p w rid pid : sysOK s -> runsIn s p w -> storeOK w rid pid.
Proof.
  intros Hs [Hfs Hts]. destruct (Hs rid pid) as [Hl Hc]. split; [by rewrite Hfs|].
  rewrite Hfs, Hts. destruct (sysTails s !! p) eqn:Hp; [by eapply Hc|apply cacheAt_empty].
Qed.

(** A step that keeps one producer's lines keeps every process's cache for it. *)
Lemma after_sysOK s p w' rid pid :
  logOK (wFS w') rid pid -> cacheAt rid pid (wFS w') (wTails w') ->
  (forall q ts, sysTails s !! q = Some ts -> cacheAt rid pid (wFS w') ts) ->
  logOK (sysFS (after s p w')) rid pid /\
  (forall q ts, sysTails (after s p w') !! q = Some ts -> cacheAt rid pid (sysFS (after s p w')) ts).
Proof.
  intros Hl Hc Hq. split; [done|]. intros q ts. cbn. rewrite lookup_insert_Some.
  intros [[-> <-]|[_ Hts]]; [done|by eapply Hq].
Qed.

Lemma appendLocked_other_log w rid pid rid' pid' records :
  producerPath rid' pid' <> producerPath rid pid ->
  storeOK w rid' pid' ->
  let w' := (appendLocked (producerPath rid pid) records w).1 in
  logAt rid' pid' (wFS w') (storedLog (wFS w) rid' pid') /\
  (forall ts, cacheAt rid' pid' (wFS w) ts -> cacheAt rid' pid' (wFS w') ts) /\
  wTails w' !! producerPath rid' pid' = wTails w !! producerPath rid' pid'.
Proof.
  intros Hne [[L HL] Hc] w'. destruct (appendLocked_frame rid pid records w) as [Hp Ht].
  assert (Hseg : forall p, segmentPath rid' pid' p -> wFS w' !! p = wFS w !! p).
  { intros p (name & -> & _). apply Hp. intros [name' Heq]. apply app_inj_2 in Heq as [? _]; [congruence|done]. }
  split_and!.
  - exists L. eapply storedIn_frame; [exact Hseg| |done]. intros Hd. unfold w'. rewrite Hp; [done|].
    intros [name Heq]. by apply (f_equal length) in Heq.
  - intros ts. by apply cacheAt_frame.
  - by apply Ht.
Qed.

Lemma runsIn_after s p w : runsIn (after s p w) p w.
Proof. split; [done|]. cbn. by rewrite lookup_insert_eq. Qed.

(** The logs of all producers after one step. *)
Definition logsGrow (s s' : Sys) : Prop :=
  forall rid pid, storedLog (sysFS s) rid pid `prefix_of` storedLog (sysFS s') rid pid.

Lemma sysStep_ok s s' : sysOK s -> sysStep s s' -> sysOK s' /\ logsGrow s s'.
Proof.
  intros Hs Hstep. destruct Hstep as [p w first rest Hrun Hv Ht|A p w m Hrun Hm|p].
  - set (rid := rRunID first). set (pid := rProducerID first).
    assert (Hall : forall rid' pid',
      (logOK (wFS (appendLocked (producerPath rid pid) (first :: rest) w).1) rid' pid' /\
       cacheAt rid' pid' (wFS (appendLocked (producerPath rid pid) (first :: rest) w).1)
         (wTails (appendLocked (producerPath rid pid) (first :: rest) w).1) /\
       (forall q ts, sysTails s !! q = Some ts ->
          cacheAt rid' pid' (wFS (appendLocked (producerPath rid pid) (first :: rest) w).1) ts)) /\
      storedLog (wFS w) rid' pid' `prefix_of`
      storedLog (wFS (appendLocked (producerPath rid pid) (first :: rest) w).1) rid' pid').
    { intros rid' pid'. pose proof (runsIn_storeOK s p w rid' pid' Hs Hrun) as Hok.
      destruct (decide (producerPath rid' pid' = producerPath rid pid)) as [Heq|Hne].
      - assert (rid' = rid /\ pid' = pid) as [-> ->] by (unfold producerPath in Heq; naive_solver).
        destruct (appendLocked_extends w first rest Hv Ht Hok) as [[Hok' Hlog _] Happ].
        split_and!; [apply Hok'|apply Hok'| |fold rid pid in Hlog; rewrite Hlog; by eexists].
        intros q ts Hq. destruct Happ. eapply keepsLines_cacheAt; [done|].
        rewrite (proj1 Hrun). by eapply (proj2 (Hs rid pid)).
      - destruct (appendLocked_other_log w rid pid rid' pid' (first :: rest) Hne Hok) as (Hl & Hc & Ht').
        split_and!; [by eapply logAt_logOK| | |].
        + intros t Hget. rewrite Ht' in Hget. by apply (Hc _ (proj2 Hok)).
        + intros q ts Hq. apply Hc. rewrite (proj1 Hrun). by eapply (proj2 (Hs rid' pid')).
        + by rewrite (logAt_storedLog _ _ _ _ Hl). }
    split.
    + intros rid' pid'. destruct (Hall rid' pid') as ((H1 & H2 & H3) & _). by apply after_sysOK.
    + intros rid' pid'. destruct (Hall rid' pid') as (_ & Hp). cbn. by rewrite <- (proj1 Hrun).
  - split; intros rid pid; pose proof (runsIn_storeOK s p w rid pid Hs Hrun) as Hok.
    + pose proof (quiet_storeOK _ _ _ _ (Hm w) Hok) as [Hl Hc]. apply after_sysOK; [done|done|].
      intros q ts Hq. eapply cacheAt_frame; [apply (q_segments _ _ (Hm w))|].
      rewrite (proj1 Hrun). by eapply (proj2 (Hs rid pid)).
    + cbn. by rewrite (quiet_storedLog _ _ _ _ (Hm w) Hok), (proj1 Hrun).
  - split; [|by intros rid pid]. intros rid pid. destruct (Hs rid pid) as [Hl Hc]. split; [done|].
    intros q ts. cbn. rewrite lookup_delete_Some. intros [_ Hq]. by eapply Hc.
Qed.

(** The store before anything was recorded. *)
Definition emptySys : Sys := mkSys {[ [] := Dir ]} ∅.

Lemma emptySys_ok : sysOK emptySys.
Proof.
  intros rid pid. split; [|intros p ts Hq; cbn in Hq; by apply lookup_empty_Some in Hq].
  eapply logAt_logOK, logOK_empty. intros name. apply lookup_singleton_ne. done.
Qed.

(** C1: Whatever interleaving of appends, manifest operations and crashes the
    processes sharing a store perform, with any system-call failures and torn
    writes: every producer's stored log is at all times the records 1, 2, ...
    of that producer without gap or repetition, and records once stored are
    never lost or changed. *)
Theorem logs_survive_interleavings s s' :
  rtc sysStep emptySys s -> rtc sysStep s s' ->
  logsGrow s s' /\
  (forall rid pid i r, storedLog (sysFS s') rid pid !! i = Some r ->
     rSequence r = Z.of_nat i + 1 /\ rRunID r = rid /\ rProducerID r = pid).
Proof.
  intros Hreach Hs. assert (Hok : sysOK s).
  { clear Hs. pose proof emptySys_ok as He. revert He. induction Hreach as [|s1 s2 s3 Hst _ IH]; [done|].
    intros Hs1. apply IH. by eapply sysStep_ok. }
  assert (Hgrow : sysOK s' /\ logsGrow s s').
  { clear Hreach. induction Hs as [s|s1 s2 s3 Hst _ IH]; [split; [done|by intros rid pid]|].
    destruct (sysStep_ok s1 s2 Hok Hst) as [Hok2 Hg]. destruct (IH Hok2) as [Hok3 Hg'].
    split; [done|]. intros rid pid. by trans (storedLog (sysFS s2) rid pid). }
  destruct Hgrow as [Hok' Hg]. split; [done|]. intros rid pid i r Hi.
  destruct (Hok' rid pid) as [[L HL] _].
  pose proof (chain_contiguous _ _ _ _ _ (st_chain _ _ _ _ _ HL)) as Hc.
  destruct (Hc i r Hi) as (H1 & H2 & H3). split_and!; [lia|done|done].
Qed.
End System.
