(* ===== verification/LogBudget.v ===== *)
(** The byte budget of a run: what the locked append may add to the files of a
    run, whatever the state of the store and whichever system calls fail. *)
From S2P Require Import Prelude GoStd GoText LogTypes LogManifest LogFS LogStore LogSegment.
From S2P Require Import LogDisk LogDurable LogSystem.

(** ** Sizes of directory trees *)

Lemma totalSize_insert_new fs p n :
  fs !! p = None -> totalSize (<[p := n]> fs) = nodeSize n + totalSize fs.
Proof.
  intros Hp. unfold totalSize. rewrite map_fold_insert_L; [done| |done].
  intros. lia.
Qed.

Lemma totalSize_insert fs p n :
  totalSize (<[p := n]> fs) = nodeSize n - nodeSize (default Dir (fs !! p)) + totalSize fs.
Proof.
  rewrite <- insert_delete_eq, totalSize_insert_new by apply lookup_delete_eq.
  destruct (fs !! p) as [m|] eqn:Hp; cbn.
  - rewrite <- (insert_delete_id fs p m Hp) at 2.
    rewrite totalSize_insert_new by apply lookup_delete_eq. lia.
  - rewrite delete_id by done. lia.
Qed.

Lemma dirBytes_insert fs dir p n :
  dir `prefix_of` p ->
  dirBytes (<[p := n]> fs) dir = nodeSize n - nodeSize (default Dir (fs !! p)) + dirBytes fs dir.
Proof.
  intros Hp. unfold dirBytes, below. rewrite map_filter_insert_True by done.
  rewrite totalSize_insert. do 3 f_equal. destruct (fs !! p) as [m|] eqn:Hm.
  - by rewrite (map_lookup_filter_Some_2 _ fs p m Hm).
  - by rewrite (proj2 (map_lookup_filter_None _ fs p) (or_introl Hm)).
Qed.

(** ** The budget *)

Section Budget.
Context `{JSON LogRecord} (rid pid : string).
Local Abbreviation dir := (producerPath rid pid).
Implicit Types (w : World).

Definition used (w : World) : Z := dirBytes (wFS w) (runPath rid).

Lemma run_prefix name : runPath rid `prefix_of` dir ++ [name].
Proof. by exists [producersDir; pid; name]. Qed.

Lemma used_write w name n :
  used (setFS (<[dir ++ [name] := n]> (wFS w)) w) =
    nodeSize n - nodeSize (default Dir (wFS w !! (dir ++ [name]))) + used w.
Proof. apply dirBytes_insert, run_prefix. Qed.

Lemma used_sameStore w w' : sameStore w w' -> used w' = used w.
Proof. intros [Hf _]. unfold used. by rewrite Hf. Qed.

(** Steps that do not add bytes. *)
Definition noMore {A} (m : St A) : Prop := forall w, used (m w).1 <= used w.

Lemma noMore_ret {A} (a : A) : noMore (ret a).
Proof. intros w. done. Qed.
Lemma noMore_get {A} (f : World -> A) : noMore (get f).
Proof. intros w. done. Qed.
Lemma noMore_bind {A B} (m : St A) (k : A -> St B) :
  noMore m -> (forall a, noMore (k a)) -> noMore (bind m k).
Proof. intros Hm Hk w. unfold bind. etrans; [apply Hk|apply Hm]. Qed.
Lemma noMore_ebind {A B} (m : St (goerr + A)) (k : A -> St (goerr + B)) :
  noMore m -> (forall a, noMore (k a)) -> noMore (ebind m k).
Proof. intros Hm Hk. apply noMore_bind; [done|]. intros [e|a]; [apply noMore_ret|done]. Qed.
Lemma noMore_sysFault : noMore sysFault.
Proof. intros w. unfold sysFault. destruct (wFaults w); done. Qed.
Lemma noMore_sys {A} ctx (m : St (goerr + A)) : noMore m -> noMore (sys ctx m).
Proof. intros Hm. apply noMore_bind; [apply noMore_sysFault|]. intros []; [apply noMore_ret|done]. Qed.
Lemma noMore_touches {A} (m : St A) : touches (fun _ => False) m -> noMore m.
Proof.
  intros Hm w. destruct (Hm w) as [_ Hp]. unfold used.
  replace (wFS (m w).1) with (wFS w); [done|]. apply map_eq. intros p. rewrite Hp; [done|]. by intros [].
Qed.
Lemma noMore_wp {A} (m : St A) w (Q : World -> A -> Prop) :
  noMore m -> (forall w' a, used w' <= used w -> Q w' a) -> wp m w Q.
Proof. intros Hm HQ. apply HQ, Hm. Qed.

Lemma noMore_checkRegular p : noMore (checkRegular p).
Proof. apply noMore_touches, touches_checkRegular. Qed.

Lemma len_take n s : len (string_take n s) <= len s.
Proof. unfold len. rewrite string_length_take. lia. Qed.

Lemma noMore_repairTail name : noMore (repairTail (dir ++ [name])).
Proof.
  unfold repairTail. apply noMore_ebind; [apply noMore_checkRegular|]. intros _. apply noMore_sys.
  intros w. unfold bind, lookupFS, get. cbn [fst snd].
  destruct (wFS w !! (dir ++ [name])) as [[|d|]|] eqn:Hd; try done.
  assert (Hbody : forall w', sameStore w w' ->
            used (bind (writeFS (dir ++ [name]) (File (string_take (Z.to_nat (len d - len (splitLines d).2)) d)))
                    (fun _ => ok (len d - len (splitLines d).2)) w').1 <= used w').
  { intros w' [Hf _]. unfold bind, writeFS, put, ok, ret. cbn [fst snd]. rewrite used_write, Hf, Hd.
    cbn [nodeSize default]. pose proof (len_take (Z.to_nat (len d - len (splitLines d).2)) d). cbn. lia. }
  apply (sys_wp "read segment" _ w (fun w' _ => used w' <= used w)).
  - intros w' e Hs. by rewrite (used_sameStore _ _ Hs).
  - intros w1 Hs1. cbv zeta. rewrite <- (used_sameStore _ _ Hs1).
    destruct (_ =? _); [by apply wp_ret|]. apply sys_wp.
    + intros w' e Hs. by rewrite (used_sameStore _ _ Hs).
    + intros w2 Hs2. rewrite <- (used_sameStore _ _ Hs2). apply Hbody. by trans w1.
Qed.

Lemma noMore_loadTail : noMore (loadTail dir).
Proof.
  unfold loadTail. apply noMore_ebind.
  { apply noMore_touches. unfold listSegments. touch. }
  intros segs. case_match; [apply noMore_ret|].
  apply noMore_ebind; [apply noMore_checkRegular|]. intros _.
  apply noMore_ebind; [apply noMore_touches; unfold statSize; touch|]. intros size.
  apply noMore_bind; [apply noMore_get|]. intros [t|]; [apply noMore_ret|].
  unfold rescanTail. apply noMore_ebind; [apply noMore_repairTail|]. intros keep.
  apply noMore_ebind; [|intros; apply noMore_ret].
  apply noMore_touches. unfold scanSegment. touch.
Qed.

Lemma noMore_openSegment name : noMore (openSegment dir name).
Proof.
  unfold openSegment. apply noMore_ebind; [apply noMore_checkRegular|]. intros _. apply noMore_sys.
  apply noMore_bind; [apply noMore_touches; touch|]. intros parent.
  intros w. unfold bind at 1, lookupFS, get. cbn [fst snd].
  destruct parent, (wFS w !! (dir ++ [name])) as [[|d|]|] eqn:Hd; try done.
  unfold bind, writeFS, put, ok, ret. cbn [fst snd]. rewrite used_write, Hd. cbn. unfold len. simpl. lia.
Qed.

Lemma noMore_openFor bw seq n : noMore (openFor dir bw seq n).
Proof.
  unfold openFor. cbv zeta. case_match; [apply noMore_ret|].
  apply noMore_ebind; [apply noMore_openSegment|]. intros _. apply noMore_ret.
Qed.

(** A line, or the part of it a failing write leaves, adds at most its length. *)
Lemma used_appendText name text w :
  used (appendText (dir ++ [name]) text w).1 <= used w + len text.
Proof.
  unfold appendText, bind, lookupFS, get. cbn [fst snd]. pose proof (len_nonneg text).
  destruct (wFS w !! (dir ++ [name])) as [[|d|]|] eqn:Hd; try (cbn; lia).
  unfold writeFS, put. cbn [fst]. rewrite used_write, Hd. cbn [nodeSize default].
  rewrite len_app. cbn. lia.
Qed.

Lemma used_writeLine name line w :
  used (writeLine (dir ++ [name]) line w).1 <= used w + len line.
Proof.
  apply (wp_bind sysFault _ w (fun w' _ => used w' <= used w + len line)), sysFault_wp.
  intros w1 [n|] Hs; rewrite <- (used_sameStore _ _ Hs).
  - unfold wp, bind, throw, ret. cbn [fst]. etrans; [apply used_appendText|].
    pose proof (len_take (Nat.min n (String.length line - 1)) line). lia.
  - unfold wp, bind, ok, ret. cbn [fst]. apply used_appendText.
Qed.

(** The bytes a record may bring the run to. *)
Definition budget (rec : LogRecord) : Z :=
  if bool_decide (rKind rec = KindOutput) then MaxRunBytes - finalStateReserve else MaxRunBytes.

Lemma encode_budget bw rec line stored :
  encode bw rec = inr (line, stored) -> bRunBytes bw + len line <= budget rec.
Proof.
  unfold encode, budget, marshalLine. destruct (Marshal _) as [s|]; [|done].
  destruct (bool_decide (rKind rec = KindOutput)).
  - unfold fitOutput, checkCapacity. destruct (MaxRunBytes - metadataReserve <? _) eqn:H1.
    + unfold marshalLine. destruct (Marshal (elide _)); [|done].
      destruct (MaxRunBytes - finalStateReserve <? _) eqn:H2; [done|].
      destruct (MaxRunBytes <? _); [done|]. intros [= <- <-]. lia.
    + destruct (MaxRunBytes <? _); [done|]. intros [= <- <-]. change metadataReserve with 262144 in H1. change finalStateReserve with 131072. lia.
  - unfold checkCapacity. destruct (MaxMetadataBytes <? _); [done|].
    destruct (MaxRunBytes <? _) eqn:H2; [done|].
    intros [= <- <-]. lia.
Qed.

Lemma write_budget bw rec w :
  used w <= bRunBytes bw ->
  used (write dir bw rec w).1 <= Z.max (used w) (budget rec) /\
  (forall bw' stored, (write dir bw rec w).2 = inr (bw', stored) ->
     used (write dir bw rec w).1 <= bRunBytes bw').
Proof.
  intros Hu. unfold write, lift. destruct (encode bw rec) as [e|[line stored]] eqn:He.
  { rewrite ebind_inl. cbn. split; [lia|by intros]. }
  apply encode_budget in He. rewrite ebind_inr.
  pose proof (noMore_openFor bw (rSequence stored) (len line) w) as Ho.
  assert (Hbytes : forall w1 bw1, openFor dir bw (rSequence stored) (len line) w = (w1, inr bw1) ->
                     bRunBytes bw1 = bRunBytes bw).
  { intros w1 bw1. unfold openFor. cbv zeta. case_match; [unfold ok, ret; by intros [= <- <-]|].
    unfold ebind, bind. destruct (openSegment _ _ w) as [w2 [e|[]]]; cbn; unfold ok, ret;
      intros Heq; by simplify_eq/=. }
  unfold ebind, bind.
  destruct (openFor dir bw (rSequence stored) (len line) w) as [w1 [e|bw1]]; cbn [fst snd] in *.
  { split; [cbn; lia|by intros]. }
  specialize (Hbytes w1 bw1 eq_refl).
  pose proof (used_writeLine (tName (bTail bw1)) line w1) as Hw.
  destruct (writeLine _ line w1) as [w2 [e|[]]]; cbn [fst snd ret ok] in *.
  - split; [lia|by intros].
  - split; [lia|]. intros bw' st [= <- <-]. cbn [bRunBytes]. lia.
Qed.

Definition batchBudget (records : list LogRecord) : Z :=
  if forallb (fun r => bool_decide (rKind r = KindOutput)) records
  then MaxRunBytes - finalStateReserve else MaxRunBytes.

Lemma budget_le_batch rec records : rec ∈ records -> budget rec <= batchBudget records.
Proof.
  intros Hin. unfold budget, batchBudget. change finalStateReserve with 131072.
  destruct (forallb _ records) eqn:Hall.
  - rewrite forallb_forall in Hall. rewrite Hall by (by apply list_elem_of_In). lia.
  - case_bool_decide; lia.
Qed.

Lemma appendLoop_budget B records : forall bw res applied w,
  (forall rec, rec ∈ records -> budget rec <= B) -> used w <= bRunBytes bw ->
  used (appendLoop dir bw res applied records w).1 <= Z.max (used w) B.
Proof.
  induction records as [|rec records IH]; intros bw res applied w HB Hu; [cbn; lia|].
  cbn [appendLoop]. cbv zeta. case_match; [apply IH; [set_solver|done]|].
  case_match; [cbn; lia|]. unfold bind. destruct (write_budget bw rec w Hu) as [Hle Hbytes].
  assert (budget rec <= B) by (apply HB; set_solver).
  destruct (write dir bw rec w) as [w1 [e|[bw1 stored]]]; cbn [fst snd] in *; [cbn; lia|].
  specialize (Hbytes bw1 stored eq_refl). etrans; [apply IH; [set_solver|done]|]. lia.
Qed.
End Budget.

(** C11: Whatever the store holds and whichever system calls fail, a locked append
    never takes the files of a run past [MaxRunBytes] (or past what they already
    hold), torn lines included; a batch of output leaves the final-state reserve
    free, so the outcome of the run can still be recorded. *)
Theorem append_within_budget `{JSON LogRecord} rid pid (records : list LogRecord) (w : World) :
  dirBytes (wFS (appendLocked (producerPath rid pid) records w).1) (runPath rid) <=
  Z.max (dirBytes (wFS w) (runPath rid)) (batchBudget records).
Proof.
  change (used rid (appendLocked (producerPath rid pid) records w).1 <=
          Z.max (used rid w) (batchBudget records)).
  unfold appendLocked, bind. pose proof (noMore_loadTail rid pid w) as Hl.
  destruct (loadTail (producerPath rid pid) w) as [w1 [e|t]]; cbn [fst snd] in *; [cbn; lia|].
  cbn [get fst snd]. set (bw := mkWriter t _ false). set (r0 := mkAppend _ _ _ _).
  assert (Hu : used rid w1 <= bRunBytes bw) by (cbn; done).
  pose proof (appendLoop_budget rid pid (batchBudget records) records bw r0 [] w1
                (fun r => budget_le_batch r records) Hu) as Hloop.
  destruct (appendLoop _ bw r0 [] records w1) as [w2 [[[e|bw'] res] applied]]; cbn [fst snd] in *;
    unfold used in *; cbn; lia.
Qed.
