(* ===== verification/LogCursor.v ===== *)
(** Page tokens of the log readers (src/pkg/workspacelogs/cursor.go): the
    unpadded URL alphabet of base64 and the bounded, typed cursor it carries. *)
From S2P Require Import Prelude GoStd GoText LogTypes LogFS.

(** ** base64.RawURLEncoding *)

Definition alphabet : string :=
  "ABCDEFGHIJKLMNOPQRSTUVWXYZabcdefghijklmnopqrstuvwxyz0123456789-_".
Definition sixChar (n : Z) : ascii := default "A"%char (String.get (Z.to_nat n) alphabet).
Fixpoint indexOf (c : ascii) (s : string) (i : Z) : option Z :=
  match s with
  | EmptyString => None
  | String d s' => if decide (c = d) then Some i else indexOf c s' (i + 1)
  end.
Definition sixValue (c : ascii) : option Z := indexOf c alphabet 0.
Definition ofByte (z : Z) : ascii := Ascii.ascii_of_nat (Z.to_nat z).

(** Three bytes become four characters; the rest of one or two bytes becomes two
    or three. *)
Fixpoint EncodeToString (s : string) : string :=
  match s with
  | EmptyString => ""
  | String a EmptyString =>
      String (sixChar (byte a / 4)) (String (sixChar (byte a mod 4 * 16)) "")
  | String a (String b EmptyString) =>
      String (sixChar (byte a / 4))
        (String (sixChar (byte a mod 4 * 16 + byte b / 16))
          (String (sixChar (byte b mod 16 * 4)) ""))
  | String a (String b (String c s')) =>
      String (sixChar (byte a / 4))
        (String (sixChar (byte a mod 4 * 16 + byte b / 16))
          (String (sixChar (byte b mod 16 * 4 + byte c / 64))
            (String (sixChar (byte c mod 64)) (EncodeToString s'))))
  end.

(** [DecodeString] of a text without line breaks (which it would skip; the
    selectors of a request admit none). *)
Fixpoint DecodeString (s : string) : option string :=
  match s with
  | EmptyString => Some ""
  | String w (String x EmptyString) =>
      w' ← sixValue w; x' ← sixValue x; Some (String (ofByte (w' * 4 + x' / 16)) "")
  | String w (String x (String y EmptyString)) =>
      w' ← sixValue w; x' ← sixValue x; y' ← sixValue y;
      Some (String (ofByte (w' * 4 + x' / 16)) (String (ofByte (x' mod 16 * 16 + y' / 4)) ""))
  | String w (String x (String y (String z s'))) =>
      w' ← sixValue w; x' ← sixValue x; y' ← sixValue y; z' ← sixValue z;
      rest ← DecodeString s';
      Some (String (ofByte (w' * 4 + x' / 16))
             (String (ofByte (x' mod 16 * 16 + y' / 4))
               (String (ofByte (y' mod 4 * 64 + z')) rest)))
  | _ => None
  end.

(** ** Cursors *)

Definition cursorRun := "run".
Definition cursorIndex := "index".

Record cursor := mkCursor {
  cVersion : Z;
  cKind : string;
  cRun : string;
  cFilter : string;
  cPos : gmap string Z;
  cGaps : bool;
  cContext : string;
  cUID : string;
  cAt : Z;
  cID : string;
}.

Definition startCursor (kind : string) : cursor :=
  mkCursor SchemaVersion kind "" "" ∅ false "" "" 0 "".

Section Cursor.
Context `{JSON cursor}.

Definition encodeCursor (c : cursor) : goerr + string :=
  if MaxProducers <? Z.of_nat (size (cPos c))
  then inl (wrap ErrInvalidCursor "too many producers" [])
  else match Marshal c with
       | None => inl (Errorf "encode cursor: %w" [AErr jsonError])
       | Some data =>
           let token := EncodeToString data in
           if MaxCursorBytes <? len token
           then inl (wrap ErrInvalidCursor "cursor exceeds %d bytes" [AInt MaxCursorBytes])
           else inr token
       end.

Definition decodeCursor (token kind : string) : goerr + cursor :=
  if decide (token = "") then inr (startCursor kind)
  else if MaxCursorBytes <? len token
  then inl (wrap ErrInvalidCursor "cursor exceeds %d bytes" [AInt MaxCursorBytes])
  else match DecodeString token with
       | None => inl (wrap ErrInvalidCursor "not a cursor" [])
       | Some data =>
           match Unmarshal data with
           | None => inl (wrap ErrInvalidCursor "not a cursor" [])
           | Some c =>
               if negb (cVersion c =? SchemaVersion) || negb (bool_decide (cKind c = kind)) ||
                  (MaxProducers <? Z.of_nat (size (cPos c)))
               then inl (wrap ErrInvalidCursor "wrong version, kind or size" [])
               else inr c
           end
       end.
End Cursor.

(** What JSON keeps of a cursor: its texts and the keys of its positions. *)
Definition cleanCursor (c : cursor) : cursor :=
  mkCursor (cVersion c) (coerceUTF8 (cKind c)) (coerceUTF8 (cRun c)) (coerceUTF8 (cFilter c))
    (kmap coerceUTF8 (cPos c)) (cGaps c) (coerceUTF8 (cContext c)) (coerceUTF8 (cUID c)) (cAt c)
    (coerceUTF8 (cID c)).

(** ** base64 round trip *)

(** Divisions by constants in [lia]. *)
#[local] Ltac Zify.zify_post_hook ::= Z.to_euclidean_division_equations.

Lemma byte_range a : 0 <= byte a < 256.
Proof. unfold byte. pose proof (Ascii.nat_ascii_bounded a). lia. Qed.

Lemma ofByte_byte a : ofByte (byte a) = a.
Proof. unfold ofByte, byte. rewrite Nat2Z.id. apply ascii_nat_embedding. Qed.

Lemma sixValue_char n : 0 <= n < 64 -> sixValue (sixChar n) = Some n.
Proof.
  intros Hn. assert (Hall : Forall (fun k => sixValue (sixChar (Z.of_nat k)) = Some (Z.of_nat k)) (seq 0 64))
    by (vm_compute; repeat constructor).
  rewrite Forall_forall in Hall. specialize (Hall (Z.to_nat n)). rewrite Z2Nat.id in Hall by lia.
  apply Hall, elem_of_seq. lia.
Qed.

(** Induction on a string three bytes at a time. *)
Lemma string_ind3 (P : string -> Prop) :
  P "" -> (forall a, P (String a "")) -> (forall a b, P (String a (String b ""))) ->
  (forall a b c s, P s -> P (String a (String b (String c s)))) -> forall s, P s.
Proof.
  intros H0 H1 H2 H3 s.
  assert (H : P s /\ (forall a, P (String a s)) /\ (forall a b, P (String a (String b s)))); [|apply H].
  induction s as [|c s (IH0 & IH1 & IH2)]; [done|]. split_and!; auto.
Qed.

Lemma DecodeString_Encode s : DecodeString (EncodeToString s) = Some s.
Proof.
  induction s as [|a|a b|a b c s IH] using string_ind3; [done|..]; cbn [EncodeToString DecodeString].
  - pose proof (byte_range a). rewrite !sixValue_char by lia. cbn. do 2 f_equal.
    rewrite <- (ofByte_byte a) at 3. f_equal. lia.
  - pose proof (byte_range a). pose proof (byte_range b). rewrite !sixValue_char by lia. cbn.
    do 2 f_equal; [rewrite <- (ofByte_byte a) at 3; f_equal; lia|].
    f_equal. rewrite <- (ofByte_byte b) at 3. f_equal. lia.
  - pose proof (byte_range a). pose proof (byte_range b). pose proof (byte_range c).
    rewrite !sixValue_char by lia. cbn. rewrite IH. cbn.
    do 2 f_equal; [rewrite <- (ofByte_byte a) at 3; f_equal; lia|].
    f_equal; [rewrite <- (ofByte_byte b) at 3; f_equal; lia|].
    f_equal. rewrite <- (ofByte_byte c) at 3. f_equal. lia.
Qed.

(** ** Cursors round trip *)

Lemma size_list_to_map_le {A} (l : list (string * A)) :
  (size (list_to_map l : gmap string A) <= length l)%nat.
Proof.
  induction l as [|[k x] l IH]; [done|]. cbn [list_to_map foldr length curry].
  rewrite map_size_insert. case_match; cbn in *; lia.
Qed.

Lemma size_kmap_le {A} (f : string -> string) (m : gmap string A) :
  (size (kmap f m : gmap string A) <= size m)%nat.
Proof.
  unfold kmap. etrans; [apply size_list_to_map_le|]. rewrite length_fmap. by rewrite length_map_to_list.
Qed.

Lemma kmap_clean {A} (m : gmap string A) :
  (forall k, is_Some (m !! k) -> coerceUTF8 k = k) -> kmap coerceUTF8 m = m.
Proof.
  intros Hm. unfold kmap. rewrite <- (list_to_map_to_list m) at 2. f_equal.
  rewrite <- (list_fmap_id (map_to_list m)) at 2. apply list_fmap_ext. intros i [k x] Hi.
  apply list_elem_of_lookup_2, elem_of_map_to_list in Hi. cbn. rewrite Hm; [done|by eexists].
Qed.

Lemma EncodeToString_nonempty s : s <> "" -> EncodeToString s <> "".
Proof. by destruct s as [|a [|b [|c s]]]. Qed.

Section RoundTrip.
Context `{JSONLaws cursor (clean := cleanCursor)}.

(** C10: A token the program hands out is within the token bound and decodes, for
    the kind it was made for, to the cursor it was made from, texts as JSON keeps
    them. *)
Theorem cursor_roundtrip c token :
  cVersion c = SchemaVersion -> cKind c = cursorRun \/ cKind c = cursorIndex ->
  encodeCursor c = inr token ->
  token <> "" /\ len token <= MaxCursorBytes /\ decodeCursor token (cKind c) = inr (cleanCursor c).
Proof.
  intros Hv Hk. unfold encodeCursor. destruct (Z.ltb_spec MaxProducers (Z.of_nat (size (cPos c)))); [done|].
  destruct (Marshal c) as [data|] eqn:Hd; [|done].
  destruct (Z.ltb_spec MaxCursorBytes (len (EncodeToString data))); [done|]. intros [= <-].
  assert (Hne : EncodeToString data <> "")
    by (apply EncodeToString_nonempty; by eapply marshal_nonempty).
  split_and!; [done|done|]. unfold decodeCursor. rewrite decide_False by done.
  rewrite (proj2 (Z.ltb_ge _ _)) by done. rewrite DecodeString_Encode.
  rewrite (marshal_roundtrip _ _ Hd). cbn [cleanCursor cVersion cKind cPos].
  assert (HcK : coerceUTF8 (cKind c) = cKind c) by (destruct Hk as [-> | ->]; done).
  rewrite Hv, HcK, bool_decide_true by done. cbn [negb orb].
  pose proof (size_kmap_le coerceUTF8 (cPos c)).
  by rewrite (proj2 (Z.ltb_ge _ _)) by lia.
Qed.
End RoundTrip.
