(* ===== verification/LogAck.v ===== *)
(** Acknowledged mirror positions (src/pkg/workspacelogs/ack.go): one small file
    per run, producer and hop below the directory of the acknowledgement store,
    replaced as a whole on every update. *)
From S2P Require Import Prelude GoStd GoText LogTypes LogFS LogStore.

Definition AckDirName := "mirror".
Definition HopInbound := "inbound".
Definition HopUpstream := "upstream".
Definition ackMaxBytes : Z := 4 * 1024.

Record AckKey := mkAckKey { kRunID : string; kProducerID : string; kHop : string }.
Record AckState := mkAckState {
  sAckVersion : Z;
  sAckRunID : string;
  sAckProducerID : string;
  sAckHop : string;
  sAcked : Z;
  sGapped : bool;
  sGapFirst : Z;
  sGapLast : Z;
}.
#[export] Instance AckState_eq_dec : EqDecision AckState.
Proof. solve_decision. Defined.

(** The store keeps its files in one directory. *)
Definition ackDir : path := [AckDirName].

Definition ackName (key : AckKey) : string :=
  kRunID key +:+ "." +:+ kProducerID key +:+ "." +:+ kHop key +:+ ".json".
Definition ackPath (key : AckKey) : goerr + path :=
  match andThen (requireID "runId" (kRunID key)) (requireID "producerId" (kProducerID key)) with
  | Some e => inl e
  | None =>
      if one_of (kHop key) [HopInbound; HopUpstream] then inr (ackDir ++ [ackName key])
      else inl (wrap ErrInvalidRecord "hop" [])
  end.

Definition keyOf (st : AckState) : AckKey :=
  mkAckKey (sAckRunID st) (sAckProducerID st) (sAckHop st).
Definition zeroAck (key : AckKey) : AckState :=
  mkAckState SchemaVersion (kRunID key) (kProducerID key) (kHop key) 0 false 0 0.

Definition withAcked (acked : Z) (st : AckState) : AckState :=
  mkAckState (sAckVersion st) (sAckRunID st) (sAckProducerID st) (sAckHop st)
    acked (sGapped st) (sGapFirst st) (sGapLast st).

(** The functions [Advance] and [RecordGap] pass to [update]. *)
Definition advanceAck (acked : Z) (st : AckState) : AckState :=
  withAcked (Z.max (sAcked st) acked) st.
Definition gapAck (first last : Z) (st : AckState) : AckState :=
  mkAckState (sAckVersion st) (sAckRunID st) (sAckProducerID st) (sAckHop st)
    (Z.max (sAcked st) last) true (if sGapped st then sGapFirst st else first)
    (Z.max (sGapLast st) last).

Section AckStore.
Context `{JSON AckState}.

(** [None] for a missing or an oversized file. *)
Definition readSmallFile (p : path) : St (goerr + option string) :=
  let! _ := checkRegular p in
  let! data := readFile "read ack" p in
  ok (match data with
      | Some d => if ackMaxBytes <? len d then None else Some d
      | None => None
      end).

Definition ackLoad (key : AckKey) : St (goerr + AckState) :=
  let! p := lift (ackPath key) in
  let! data := readSmallFile p in
  ok (match data with
      | None => zeroAck key
      | Some d =>
          match Unmarshal d with
          | Some st => if bool_decide (sAckRunID st = kRunID key) &&
                          bool_decide (sAckProducerID st = kProducerID key) &&
                          bool_decide (sAckHop st = kHop key) then st else zeroAck key
          | None => zeroAck key
          end
      end).

Definition ackWrite (st : AckState) : St (goerr + unit) :=
  let! _ := lift (ackPath (keyOf st)) in
  match Marshal st with
  | None => throw (Errorf "encode ack: %w" [AErr jsonError])
  | Some data => replaceFile "ack" ackDir "ack-" (ackName (keyOf st)) data
  end.

Definition ackUpdate (key : AckKey) (fn : AckState -> AckState) : St (goerr + unit) :=
  let! st := ackLoad key in ackWrite (fn st).

Definition Advance (key : AckKey) (acked : Z) : St (goerr + unit) :=
  ackUpdate key (advanceAck acked).
Definition RecordGap (key : AckKey) (first last : Z) : St (goerr + unit) :=
  ackUpdate key (gapAck first last).
End AckStore.
