(* ===== verification/LogRetention.v ===== *)
(** Retention (src/pkg/workspacelogs/retention.go): which runs a store keeps. *)
From S2P Require Import Prelude GoStd GoText LogTypes LogManifest LogFS LogStore LogSegment LogAck.

Definition pruneLock := "prune.lock".
Definition MaxGenerationBytes : Z := 50 * 1024 * 1024.
Definition MaxCompletedRuns : Z := 20.
(** 30 days in nanoseconds. *)
Definition RetentionAge : Z := 30 * 24 * 3600 * 10 ^ 9.

Record runInfo := mkRunInfo { iDir : path; iManifest : RunManifest; iBytes : Z }.

Definition generation (r : runInfo) : string :=
  mContext (iManifest r) +:+ String "000"%char EmptyString +:+
  default "" (mWorkspaceUID (iManifest r)).

(** Newest first; [slices.SortFunc] leaves the order of equal times open, the
    model keeps the directory's. *)
Definition newerFirst (a b : runInfo) : Prop := mCreatedAt (iManifest b) <= mCreatedAt (iManifest a).
#[export] Instance newerFirst_dec : RelDecision newerFirst.
Proof. intros a b. unfold newerFirst. apply _. Defined.

(** The names of the subdirectories that are run IDs, in directory order. *)
Definition runNames (fs : FS) : list string :=
  sortStrings (omap (fun e : string * node =>
    match e.2 with Dir => if ValidID e.1 then Some e.1 else None | _ => None end)
    (entries fs [runsDirName])).

(** The acknowledgement files of a run: [filepath.Glob] of "<run>.*.json". *)
Definition ackOf (runID name : string) : bool :=
  HasPrefix name (runID +:+ ".") && HasSuffix name ".json" &&
  (String.length (runID +:+ ".") + String.length ".json" <=? String.length name)%nat.
Definition ackFiles (fs : FS) (runID : string) : list path :=
  omap (fun e : string * node => if ackOf runID e.1 then Some (ackDir ++ [e.1]) else None)
    (entries fs ackDir).

(** [os.RemoveAll]: a failing one has removed some of the files. *)
Definition removeTree (dir : path) (fs : FS) : FS :=
  filter (fun p : path * node => ~ dir `prefix_of` p.1) fs.
Definition removeSome (n : nat) (dir : path) (fs : FS) : FS :=
  foldl (fun fs' p => delete p fs') fs (take n ((map_to_list (below dir fs)).*1)).

Section Retention.
Context `{JSON RunManifest}.

Fixpoint loadEach (names : list string) : St (list runInfo) :=
  match names with
  | [] => ret []
  | name :: rest =>
      let dir := runPath name in
      let* m := readManifest dir in
      let* runs := loadEach rest in
      ret (match m with inr m' => mkRunInfo dir m' 0 :: runs | inl _ => runs end)
  end.

Definition loadRuns : St (list runInfo) :=
  let* f := sysFault in
  match f with
  | Some _ => ret []
  | None =>
      let* fs := get wFS in
      let* runs := loadEach (runNames fs) in
      ret (merge_sort newerFirst runs)
  end.

Definition withRunBytes (fs : FS) (r : runInfo) : runInfo :=
  mkRunInfo (iDir r) (iManifest r) (dirBytes fs (iDir r)).
Definition scanRuns : St (list runInfo) :=
  let* runs := loadRuns in
  let* fs := get wFS in
  ret (map (withRunBytes fs) runs).

Definition expired (r : runInfo) : St bool :=
  let* t := now in ret (RetentionAge <? t - mUpdatedAt (iManifest r)).

Definition removable (r : runInfo) : St bool :=
  if negb (Active (iManifest r)) then ret true else expired r.

(** Removing the acknowledgements ignores failures. *)
Fixpoint removeEach (files : list path) : St unit :=
  match files with
  | [] => ret tt
  | p :: rest => let* _ := removeQuietly p in removeEach rest
  end.
Definition removeAcks (runID : string) : St unit :=
  let* fs := get wFS in removeEach (ackFiles fs runID).

Definition remove (r : runInfo) : St bool :=
  let* f1 := sysFault in
  let* n := lookupFS (iDir r) in
  match f1, n with
  | None, Some Dir =>
      let* f2 := sysFault in
      match f2 with
      | Some k => let* _ := put (fun w => setFS (removeSome k (iDir r) (wFS w)) w) in ret false
      | None =>
          let* _ := put (fun w => setFS (removeTree (iDir r) (wFS w)) w) in
          let* _ := removeAcks (mRunID (iManifest r)) in
          ret true
      end
  | _, _ => ret false
  end.

(** [slices.DeleteFunc] with an effectful predicate, asked once per element in
    order. *)
Fixpoint deleteRuns (pred : runInfo -> St bool) (runs : list runInfo) : St (list runInfo) :=
  match runs with
  | [] => ret []
  | r :: rest =>
      let* gone := pred r in
      let* kept := deleteRuns pred rest in
      ret (if gone then kept else r :: kept)
  end.

Definition pruneExpired (runs : list runInfo) : St (list runInfo) :=
  deleteRuns (fun r => let* e := expired r in if e then remove r else ret false) runs.

(** The maps [count] and [size] of the closure, threaded through the loop. *)
Fixpoint pruneGenerationsFrom (count size : gmap string Z) (runs : list runInfo)
    : St (list runInfo) :=
  match runs with
  | [] => ret []
  | r :: rest =>
      let key := generation r in
      let size' := <[key := default 0 (size !! key) + iBytes r]> size in
      if Active (iManifest r) then
        let* kept := pruneGenerationsFrom count size' rest in ret (r :: kept)
      else
        let count' := <[key := default 0 (count !! key) + 1]> count in
        let surplus := (MaxCompletedRuns <? default 0 (count' !! key)) ||
                       (MaxGenerationBytes <? default 0 (size' !! key)) in
        let* gone := (if surplus then remove r else ret false) in
        let* kept := pruneGenerationsFrom count' size' rest in
        ret (if gone then kept else r :: kept)
  end.
Definition pruneGenerations (runs : list runInfo) : St (list runInfo) :=
  pruneGenerationsFrom ∅ ∅ runs.

Definition totalBytes (runs : list runInfo) : Z := foldr (fun r acc => iBytes r + acc) 0 runs.

(** The loop of [pruneTotal] over the runs from the oldest on. *)
Fixpoint pruneTotalFrom (total : Z) (oldestFirst : list runInfo) : St unit :=
  match oldestFirst with
  | [] => ret tt
  | r :: rest =>
      if MaxStoreBytes <? total then
        let* can := removable r in
        let* gone := (if can then remove r else ret false) in
        pruneTotalFrom (if gone then total - iBytes r else total) rest
      else ret tt
  end.
Definition pruneTotal (runs : list runInfo) : St unit :=
  pruneTotalFrom (totalBytes runs) (reverse runs).

(** [Prune]: a lock held elsewhere makes it a no-op. *)
Definition Prune : St (goerr + unit) :=
  sys "lock" (
    let* busy := sysFault in
    match busy with
    | Some _ => ok tt
    | None =>
        let* _ := (let* n := lookupFS [pruneLock] in
                   match n with None => writeFS [pruneLock] (File "") | Some _ => ret tt end) in
        let* runs := scanRuns in
        let* runs := pruneExpired runs in
        let* runs := pruneGenerations runs in
        let* _ := pruneTotal runs in
        ok tt
    end).
End Retention.

(** ** What pruning may remove *)

Section PruneSafety.
Context `{JSON RunManifest}.
Implicit Types (fs : FS) (w : World) (r : runInfo).

Definition storedManifest fs (dir : path) : option RunManifest :=
  match fs !! (dir ++ [manifestName]) with Some (File d) => Unmarshal d | _ => None end.

(** A run may go at time [t]: nobody writes to it, or nobody has for long. *)
Definition droppable (t : Z) (m : RunManifest) : Prop :=
  Active m = false \/ RetentionAge < t - mUpdatedAt m.

(** The files of a droppable run of [fs], its acknowledgements included. *)
Definition doomed fs (t : Z) (p : path) : Prop :=
  exists name m, storedManifest fs (runPath name) = Some m /\ droppable t m /\
    (runPath name `prefix_of` p \/ exists file, p = ackDir ++ [file] /\ ackOf (mRunID m) file = true).

Lemma doomed_later fs t t' p : t <= t' -> doomed fs t p -> doomed fs t' p.
Proof.
  intros Ht (name & m & Hm & Hd & Hp). exists name, m. split_and!; [done| |done].
  destruct Hd; [by left|right; lia].
Qed.

Definition forwardClock w : Prop := Forall (fun d => 0 <= d) (wTicks w).

(** A stretch of pruning: the clock only moves on, and nothing that is not
    doomed changes. *)
Record pruned fs w w' : Prop := {
  pr_clock : wClock w <= wClock w';
  pr_ticks : forwardClock w';
  pr_files p : ~ doomed fs (wClock w') p -> wFS w' !! p = wFS w !! p;
}.

Lemma pruned_refl fs w : forwardClock w -> pruned fs w w.
Proof. by split. Qed.
Lemma pruned_trans fs w1 w2 w3 : pruned fs w1 w2 -> pruned fs w2 w3 -> pruned fs w1 w3.
Proof.
  intros [Hc1 Ht1 Hf1] [Hc2 Ht2 Hf2]. split; [lia|done|]. intros p Hp. rewrite Hf2, Hf1; [done| |done].
  intros Hd. apply Hp. by eapply doomed_later.
Qed.

(** [m] prunes from every state. *)
Definition prunes fs {A} (m : St A) : Prop := forall w, forwardClock w -> pruned fs w (m w).1.

Lemma prunes_ret fs {A} (a : A) : prunes fs (ret a).
Proof. intros w Hw. by apply pruned_refl. Qed.
Lemma prunes_get fs {A} (f : World -> A) : prunes fs (get f).
Proof. intros w Hw. by apply pruned_refl. Qed.
Lemma prunes_sysFault fs : prunes fs sysFault.
Proof. intros w Hw. unfold sysFault. destruct (wFaults w); by split. Qed.
Lemma prunes_bind fs {A B} (m : St A) (k : A -> St B) :
  prunes fs m -> (forall a, prunes fs (k a)) -> prunes fs (bind m k).
Proof.
  intros Hm Hk w Hw. unfold bind. pose proof (Hm w Hw) as Hp.
  eapply pruned_trans; [done|]. apply Hk, Hp.
Qed.
Lemma prunes_put fs (f : World -> World) :
  (forall w p, ~ doomed fs (wClock w) p -> wFS (f w) !! p = wFS w !! p) ->
  (forall w, wClock (f w) = wClock w /\ wTicks (f w) = wTicks w) -> prunes fs (put f).
Proof.
  intros Hf Hc w Hw. destruct (Hc w) as [Hcl Ht]. split; cbn; [lia| |].
  - unfold forwardClock. by rewrite Ht.
  - intros p. rewrite Hcl. apply Hf.
Qed.

Lemma now_pruned fs w : forwardClock w -> pruned fs w (now w).1 /\ (now w).2 = wClock (now w).1.
Proof.
  intros Hw. split; [|done]. unfold forwardClock in Hw. split; cbn; [| |done].
  - destruct Hw; cbn; lia.
  - destruct Hw; cbn; [constructor|done].
Qed.

(** *** Removing one run *)

Lemma removeTree_lookup dir fs p : ~ dir `prefix_of` p -> removeTree dir fs !! p = fs !! p.
Proof.
  intros Hp. unfold removeTree. destruct (fs !! p) as [n|] eqn:Hn.
  - by apply map_lookup_filter_Some_2.
  - apply map_lookup_filter_None. by left.
Qed.
Lemma foldl_delete_lookup (l : list path) fs p : p ∉ l -> foldl (fun fs' q => delete q fs') fs l !! p = fs !! p.
Proof.
  revert fs. induction l as [|q l IH]; intros fs Hp; [done|]. simpl.
  rewrite IH by set_solver. apply lookup_delete_ne. set_solver.
Qed.
Lemma removeSome_lookup n dir fs p : ~ dir `prefix_of` p -> removeSome n dir fs !! p = fs !! p.
Proof.
  intros Hp. apply foldl_delete_lookup. intros Hin. apply elem_of_take in Hin as (i & Hi & _).
  apply list_elem_of_lookup_2, list_elem_of_fmap in Hi as ([q m] & -> & Hin).
  by apply elem_of_map_to_list, map_lookup_filter_Some in Hin as [_ ?].
Qed.

Lemma prunes_removeQuietly fs p :
  (forall w, doomed fs (wClock w) p) -> prunes fs (removeQuietly p).
Proof.
  intros Hp. unfold removeQuietly. apply prunes_bind; [apply prunes_sysFault|].
  intros [n|]; [apply prunes_ret|]. apply prunes_put; [|done].
  intros w q Hq. cbn. apply lookup_delete_ne. intros ->. by apply Hq.
Qed.

Lemma elem_of_ackFiles fs runID p :
  p ∈ ackFiles fs runID -> exists file, p = ackDir ++ [file] /\ ackOf runID file = true.
Proof.
  unfold ackFiles. rewrite list_elem_of_omap. intros ([file n] & _ & Hf). cbn [fst] in Hf.
  destruct (ackOf runID file) eqn:Ha; simplify_eq. by exists file.
Qed.

(** A run the scan found, with the manifest it has on disk. *)
Definition foundIn fs r : Prop :=
  exists name, iDir r = runPath name /\ storedManifest fs (iDir r) = Some (iManifest r).

Lemma doomed_run fs t r p :
  foundIn fs r -> droppable t (iManifest r) -> iDir r `prefix_of` p -> doomed fs t p.
Proof. intros (name & Hd & Hm) Hdrop Hp. rewrite Hd in *. exists name, (iManifest r). eauto. Qed.

(** States from which a run that was droppable stays so. *)
Lemma droppable_later t t' m : t <= t' -> droppable t m -> droppable t' m.
Proof. intros Ht [?|?]; [by left|right; lia]. Qed.

Lemma pruned_removeEach fs r files w :
  foundIn fs r -> droppable (wClock w) (iManifest r) -> forwardClock w ->
  (forall p, p ∈ files -> exists file, p = ackDir ++ [file] /\ ackOf (mRunID (iManifest r)) file = true) ->
  pruned fs w (removeEach files w).1.
Proof.
  intros Hr. revert w. induction files as [|p files IH]; intros w Hd Hw Hp; [by apply pruned_refl|].
  cbn [removeEach]. assert (H1 : pruned fs w (removeQuietly p w).1).
  { unfold removeQuietly, bind. destruct (prunes_sysFault fs w Hw) as [Hc1 Ht1 Hf1].
    destruct (sysFault w) as [w1 [n|]]; cbn [fst snd] in *; [by split|].
    split; cbn; [done|done|]. intros q Hq. rewrite lookup_delete_ne; [by apply Hf1|].
    intros ->. apply Hq. destruct Hr as (name & Hdir & Hm). rewrite Hdir in Hm. exists name, (iManifest r).
    split_and!; [done|by eapply droppable_later|]. right. apply Hp. set_solver. }
  unfold bind. eapply pruned_trans; [exact H1|]. destruct H1. apply IH; [by eapply droppable_later|done|set_solver].
Qed.

Lemma remove_pruned fs w r :
  foundIn fs r -> droppable (wClock w) (iManifest r) -> forwardClock w -> pruned fs w (remove r w).1.
Proof.
  intros Hr Hd Hw. unfold remove, bind. pose proof (prunes_sysFault fs w Hw) as H1.
  destruct (sysFault w) as [w1 f1]; cbn [fst snd] in *.
  unfold lookupFS, get. cbn [fst snd].
  destruct f1 as [n1|]; [exact H1|]. destruct (wFS w1 !! iDir r) as [[]|]; try exact H1.
  assert (Hw1 : forwardClock w1) by apply H1.
  assert (Hd1 : droppable (wClock w1) (iManifest r)) by (eapply droppable_later; [apply H1|done]).
  pose proof (prunes_sysFault fs w1 Hw1) as H2. destruct (sysFault w1) as [w2 f2]; cbn [fst snd] in *.
  assert (Hw2 : forwardClock w2) by apply H2.
  assert (Hd2 : droppable (wClock w2) (iManifest r)) by (eapply droppable_later; [apply H2|done]).
  assert (H02 : pruned fs w w2) by (by eapply pruned_trans).
  destruct f2 as [n2|]; cbn [put fst snd].
  - eapply pruned_trans; [exact H02|]. split; cbn; [done|done|]. intros p Hp.
    apply removeSome_lookup. intros Hpre. apply Hp. by eapply doomed_run.
  - set (w3 := setFS (removeTree (iDir r) (wFS w2)) w2).
    assert (H23 : pruned fs w2 w3).
    { split; cbn; [done|done|]. intros p Hp. apply removeTree_lookup. intros Hpre. apply Hp.
      by eapply doomed_run. }
    eapply pruned_trans; [exact H02|]. eapply pruned_trans; [exact H23|].
    unfold removeAcks, bind, get. cbn [fst snd]. apply (pruned_removeEach fs r); [done|done|done|].
    intros p. apply elem_of_ackFiles.
Qed.

(** *** The passes *)

Lemma expired_spec fs w r :
  forwardClock w ->
  pruned fs w (expired r w).1 /\ ((expired r w).2 = true -> droppable (wClock (expired r w).1) (iManifest r)).
Proof.
  intros Hw. unfold expired, bind, ret. destruct (now_pruned fs w Hw) as [Hp Ht].
  destruct (now w) as [w1 t]; cbn [fst snd] in *. split; [done|]. subst t. intros Hlt%Z.ltb_lt. by right.
Qed.

Lemma pruned_if fs w (b : bool) r :
  foundIn fs r -> forwardClock w -> (b = true -> droppable (wClock w) (iManifest r)) ->
  pruned fs w ((if b then remove r else ret false) w).1.
Proof. intros Hr Hw Hd. destruct b; [apply remove_pruned; auto|by apply pruned_refl]. Qed.

Lemma deleteRuns_pruned fs (pred : runInfo -> St bool) runs :
  (forall w r, foundIn fs r -> forwardClock w -> pruned fs w (pred r w).1) ->
  forall w, Forall (foundIn fs) runs -> forwardClock w ->
  pruned fs w (deleteRuns pred runs w).1 /\ Forall (foundIn fs) (deleteRuns pred runs w).2.
Proof.
  intros Hpred. induction runs as [|r runs IH]; intros w Hall Hw; [split; [by apply pruned_refl|constructor]|].
  apply Forall_cons in Hall as [Hr Hall]. cbn [deleteRuns]. unfold bind.
  pose proof (Hpred w r Hr Hw) as H1. destruct (pred r w) as [w1 gone]; cbn [fst snd] in *.
  destruct (IH w1 Hall ltac:(apply H1)) as [H2 Hf]. destruct (deleteRuns pred runs w1) as [w2 kept].
  cbn in *. split; [by eapply pruned_trans|]. destruct gone; [done|by constructor].
Qed.

Lemma pruneExpired_pruned fs runs w :
  Forall (foundIn fs) runs -> forwardClock w ->
  pruned fs w (pruneExpired runs w).1 /\ Forall (foundIn fs) (pruneExpired runs w).2.
Proof.
  intros Hall Hw. apply deleteRuns_pruned; [|done|done]. clear w Hw. intros w r Hr Hw. unfold bind.
  destruct (expired_spec fs w r Hw) as [H1 Hd]. destruct (expired r w) as [w1 e]; cbn [fst snd] in *.
  eapply pruned_trans; [exact H1|]. apply pruned_if; [done|apply H1|done].
Qed.

Lemma pruneGenerations_pruned fs runs : forall count size w,
  Forall (foundIn fs) runs -> forwardClock w ->
  pruned fs w (pruneGenerationsFrom count size runs w).1 /\
  Forall (foundIn fs) (pruneGenerationsFrom count size runs w).2.
Proof.
  induction runs as [|r runs IH]; intros count size w Hall Hw; [split; [by apply pruned_refl|constructor]|].
  apply Forall_cons in Hall as [Hr Hall]. cbn [pruneGenerationsFrom]. cbv zeta.
  destruct (Active (iManifest r)) eqn:Ha; unfold bind.
  - destruct (IH count (<[generation r:=default 0 (size !! generation r) + iBytes r]> size) w Hall Hw) as [H1 Hf].
    destruct (pruneGenerationsFrom _ _ runs w) as [w1 kept]; cbn in *. split; [done|by constructor].
  - set (count' := <[_ := _]> count). set (size' := <[_ := _]> size). set (surplus := _ || _).
    pose proof (pruned_if fs w surplus r Hr Hw ltac:(by left)) as H1.
    destruct ((if surplus then remove r else ret false) w) as [w1 gone]; cbn [fst snd] in *.
    destruct (IH count' size' w1 Hall ltac:(apply H1)) as [H2 Hf].
    destruct (pruneGenerationsFrom count' size' runs w1) as [w2 kept]; cbn in *.
    split; [by eapply pruned_trans|]. destruct gone; [done|by constructor].
Qed.

Lemma removable_spec fs w r :
  forwardClock w ->
  pruned fs w (removable r w).1 /\
  ((removable r w).2 = true -> droppable (wClock (removable r w).1) (iManifest r)).
Proof.
  intros Hw. unfold removable. destruct (Active (iManifest r)) eqn:Ha; [by apply expired_spec|].
  split; [by apply pruned_refl|]. by left.
Qed.

Lemma pruneTotal_pruned fs runs : forall total w,
  Forall (foundIn fs) runs -> forwardClock w -> pruned fs w (pruneTotalFrom total runs w).1.
Proof.
  induction runs as [|r runs IH]; intros total w Hall Hw; [by apply pruned_refl|].
  apply Forall_cons in Hall as [Hr Hall]. cbn [pruneTotalFrom]. case_match; [|by apply pruned_refl].
  unfold bind. destruct (removable_spec fs w r Hw) as [H1 Hd].
  destruct (removable r w) as [w1 can]; cbn [fst snd] in *.
  pose proof (pruned_if fs w1 can r Hr ltac:(apply H1) Hd) as H2.
  destruct ((if can then remove r else ret false) w1) as [w2 gone]; cbn [fst snd] in *.
  eapply pruned_trans; [exact H1|]. eapply pruned_trans; [exact H2|]. apply IH; [done|apply H2].
Qed.

(** *** The scan *)

Lemma prunes_sys fs {A} ctx (m : St (goerr + A)) : prunes fs m -> prunes fs (sys ctx m).
Proof. intros Hm. apply prunes_bind; [apply prunes_sysFault|]. intros []; [apply prunes_ret|done]. Qed.
Lemma prunes_ebind fs {A B} (m : St (goerr + A)) (k : A -> St (goerr + B)) :
  prunes fs m -> (forall a, prunes fs (k a)) -> prunes fs (ebind m k).
Proof. intros Hm Hk. apply prunes_bind; [done|]. intros [e|a]; [apply prunes_ret|done]. Qed.

Lemma prunes_readManifest fs dir : prunes fs (readManifest dir).
Proof.
  unfold readManifest, checkRegular, readFile.
  repeat first [progress intros | apply prunes_ebind | apply prunes_sys | apply prunes_ret
               | apply prunes_get | apply prunes_bind | case_match].
Qed.

(** Reading touches no file, and what it read is on disk. *)
Lemma readManifest_wp dir w (Q : World -> goerr + RunManifest -> Prop) :
  (forall w' e, sameStore w w' -> Q w' (inl e)) ->
  (forall w' m, sameStore w w' -> storedManifest (wFS w) dir = Some m -> Q w' (inr m)) ->
  wp (readManifest dir) w Q.
Proof.
  intros He Hok. unfold readManifest. cbv zeta. apply wp_ebind, sys_wp; [done|]. intros w1 Hs1.
  apply wp_lookupFS. rewrite (proj1 Hs1). unfold storedManifest in Hok.
  destruct (wFS w !! (dir ++ [manifestName])) as [[|d|]|] eqn:Hd; try (by apply wp_ret, He).
  - apply wp_ret, wp_ebind, sys_wp; [intros; apply He; by trans w1|]. intros w2 Hs2.
    assert (Hs : sameStore w w2) by (by trans w1).
    apply wp_lookupFS. rewrite (proj1 Hs), Hd. apply wp_ret.
    destruct (Unmarshal d) as [m|] eqn:Hm; apply wp_ret; [by apply Hok|by apply He].
  - apply wp_ret, wp_ebind, sys_wp; [intros; apply He; by trans w1|]. intros w2 Hs2.
    assert (Hs : sameStore w w2) by (by trans w1).
    apply wp_lookupFS. rewrite (proj1 Hs), Hd. by apply wp_ret, wp_ret, He.
Qed.

Lemma loadEach_found names w :
  sameStore w (loadEach names w).1 /\ Forall (foundIn (wFS w)) (loadEach names w).2.
Proof.
  revert w. induction names as [|name names IH]; intros w; [by split|].
  cbn [loadEach]. unfold bind. pose proof (readManifest_wp (runPath name) w
    (fun w' res => sameStore w w' /\ forall m, res = inr m -> storedManifest (wFS w) (runPath name) = Some m)) as Hr.
  destruct Hr as [Hs Hm]; [by split|intros; split; naive_solver|].
  destruct (readManifest (runPath name) w) as [w1 r]; cbn [fst snd] in *.
  destruct (IH w1) as [Hs' Hf]. rewrite (proj1 Hs) in Hf.
  destruct (loadEach names w1) as [w2 runs]; cbn in *. split; [by trans w1|].
  destruct r as [e|m]; [done|]. constructor; [|done]. exists name. split; [done|]. by apply Hm.
Qed.

Lemma prunes_loadEach fs names : prunes fs (loadEach names).
Proof.
  induction names as [|name names IH]; [apply prunes_ret|]. cbn [loadEach].
  apply prunes_bind; [apply prunes_readManifest|]. intros m. apply prunes_bind; [done|].
  intros runs. apply prunes_ret.
Qed.

Lemma loadRuns_found w :
  forwardClock w ->
  sameStore w (loadRuns w).1 /\ pruned (wFS w) w (loadRuns w).1 /\ Forall (foundIn (wFS w)) (loadRuns w).2.
Proof.
  intros Hw. unfold loadRuns, bind. pose proof (prunes_sysFault (wFS w) w Hw) as H1.
  assert (Hs1 : sameStore w (sysFault w).1) by (unfold sysFault; destruct (wFaults w); by split).
  destruct (sysFault w) as [w1 [n|]]; cbn [fst snd get] in *; [split_and!; done|].
  destruct (loadEach_found (runNames (wFS w1)) w1) as [Hs Hf].
  pose proof (prunes_loadEach (wFS w) (runNames (wFS w1)) w1 ltac:(apply H1)) as H2.
  rewrite (proj1 Hs1) in *. destruct (loadEach (runNames (wFS w)) w1) as [w2 runs]; cbn in *.
  split_and!; [by trans w1|by eapply pruned_trans|]. by rewrite merge_sort_Permutation.
Qed.

Lemma scanRuns_found w :
  forwardClock w -> pruned (wFS w) w (scanRuns w).1 /\ Forall (foundIn (wFS w)) (scanRuns w).2.
Proof.
  intros Hw. unfold scanRuns, bind. destruct (loadRuns_found w Hw) as (_ & H1 & Hf).
  destruct (loadRuns w) as [w1 runs]; cbn [fst snd get ret] in *. split; [done|].
  apply Forall_map. eapply Forall_impl; [exact Hf|]. by intros r [name ?]; exists name.
Qed.

(** Everything after the lock. *)
Lemma prunePasses_pruned w :
  forwardClock w ->
  pruned (wFS w) w
    (bind scanRuns (fun runs => bind (pruneExpired runs) (fun runs =>
       bind (pruneGenerations runs) (fun runs => bind (pruneTotal runs) (fun _ => ok tt)))) w).1.
Proof.
  intros Hw. unfold bind. destruct (scanRuns_found w Hw) as [H1 Hf1].
  destruct (scanRuns w) as [w1 runs1]; cbn [fst snd] in *.
  destruct (pruneExpired_pruned _ runs1 w1 Hf1 ltac:(apply H1)) as [H2 Hf2].
  destruct (pruneExpired runs1 w1) as [w2 runs2]; cbn [fst snd] in *.
  destruct (pruneGenerations_pruned _ runs2 ∅ ∅ w2 Hf2 ltac:(apply H2)) as [H3 Hf3].
  unfold pruneGenerations. destruct (pruneGenerationsFrom ∅ ∅ runs2 w2) as [w3 runs3]; cbn [fst snd ok ret] in *.
  pose proof (pruneTotal_pruned _ (reverse runs3) (totalBytes runs3) w3
                ltac:(by rewrite reverse_Permutation) ltac:(apply H3)) as H4.
  unfold pruneTotal. eapply pruned_trans; [exact H1|]. eapply pruned_trans; [exact H2|].
  by eapply pruned_trans.
Qed.

(** C12: Pruning removes only what it may: a file other than the prune lock is
    unchanged unless it belongs to a run (or is an acknowledgement of a run) whose
    stored manifest shows no active writer or whose last update is more than
    [RetentionAge] ago - whichever system calls fail and whenever the pruning is
    cut short, as long as the clock does not go back. *)
Theorem Prune_spares_active_runs w :
  forwardClock w ->
  forall p, p <> [pruneLock] -> ~ doomed (wFS w) (wClock (Prune w).1) p ->
  wFS (Prune w).1 !! p = wFS w !! p.
Proof.
  intros Hw. change (wp Prune w (fun w' _ => forall p, p <> [pruneLock] ->
    ~ doomed (wFS w) (wClock w') p -> wFS w' !! p = wFS w !! p)).
  assert (Hfault : forall w', forwardClock w' -> sameStore w' (sysFault w').1 /\
            forwardClock (sysFault w').1).
  { intros w' Hw'. unfold sysFault. destruct (wFaults w'); by split. }
  unfold Prune, sys. apply wp_bind. unfold wp at 1.
  destruct (Hfault w Hw) as (Hs1 & Hw1). destruct (sysFault w) as [w1 [n1|]]; cbn [fst snd] in *.
  { apply wp_ret. intros p _ _. by rewrite (proj1 Hs1). }
  apply wp_bind. unfold wp at 1. destruct (Hfault w1 Hw1) as (Hs2 & Hw2).
  assert (Hs : sameStore w (sysFault w1).1) by (by trans w1).
  destruct (sysFault w1) as [w2 [n2|]]; cbn [fst snd] in *.
  { apply wp_ret. intros p _ _. by rewrite (proj1 Hs). }
  set (lockStep := bind (lookupFS [pruneLock]) _).
  assert (Hlock : wTicks (lockStep w2).1 = wTicks w2 /\
                  forall p, p <> [pruneLock] -> wFS (lockStep w2).1 !! p = wFS w !! p).
  { unfold lockStep, bind, lookupFS, get. rewrite <- (proj1 Hs). cbn [fst snd]. case_match; [done|].
    split; [done|]. intros p Hp. cbn. by apply lookup_insert_ne. }
  apply wp_bind. unfold wp at 1. destruct (lockStep w2) as [w3 u]; cbn [fst snd] in *.
  destruct Hlock as (Ht & Hf).
  assert (Hw3 : forwardClock w3) by (unfold forwardClock; by rewrite Ht).
  pose proof (prunePasses_pruned w3 Hw3) as H3. intros p Hp Hnd.
  rewrite <- (Hf p Hp). apply H3. intros (name & m & Hm & Hd & Hpre). apply Hnd.
  exists name, m. split; [|done]. unfold storedManifest in *. rewrite <- Hf; [done|].
  by unfold runPath, manifestName.
Qed.
End PruneSafety.
