(* ===== verification/LogReader.v ===== *)
(** Reading workspace logs in pages (src/pkg/workspacelogs/reader.go and
    selectors.go): filters, pages with positions and gaps, and the run index; and
    the setup log reader of the command line (src/cmd/workspace/setup_logs.go),
    which follows page tokens, binds a run to a workspace and prints a transcript. *)
From S2P Require Import Prelude GoStd GoText LogTypes LogManifest LogFS LogStore LogSegment LogCursor LogRetention.

Definition DefaultReadLimit : Z := 500.
Definition MaxReadLimit : Z := 2000.
Definition DefaultIndexLimit : Z := 20.
Definition MaxIndexLimit : Z := 100.
Definition envelopeReserve : Z := 4 * 1024.

Record ReadRequest := mkReadRequest {
  qRunID : string;
  qHook : string;
  qInvocationID : string;
  qAfter : string;
  qLimit : Z;
  qMaxBytes : Z;
}.

Record SourceAvailability := mkAvailability {
  avProducerID : string;
  avAvailable : bool;
  avReason : string;
}.

Record ReadResponse := mkResponse {
  respSchemaVersion : Z;
  respRun : RunSummary;
  respRecords : list LogRecord;
  respNextCursor : string;
  respHasMore : bool;
  respAvailability : list SourceAvailability;
  respComplete : bool;
}.

(** The hash behind [filterHash] (crypto/sha256), in hexadecimal. *)
Class SHA256 := sha256_hex : string -> string.
(** Hexadecimal digits, as encoding/hex writes them. *)
Class SHA256Laws `{SHA256} :=
  sha256_is_hex s : forallb is_lower_hex (String.list_ascii_of_string (sha256_hex s)) = true.
Definition filterHash `{SHA256} (parts : list string) : string :=
  string_take 16 (sha256_hex (Join (map (fun p => Itoa (len p) +:+ ":" +:+ p +:+ ";") parts) "")).

Definition readLimits (req : ReadRequest) : goerr + (Z * Z) :=
  let limit := if qLimit req =? 0 then DefaultReadLimit else qLimit req in
  let maxBytes := if qMaxBytes req <=? 0 then MaxPageBytes else qMaxBytes req in
  if (limit <? 0) || (MaxReadLimit <? limit)
  then inl (wrap ErrInvalidSelector "limit must be between 1 and %d" [AInt MaxReadLimit])
  else if (MaxPageBytes <? maxBytes) || (maxBytes <=? envelopeReserve)
  then inl (wrap ErrInvalidSelector "invalid byte cap" [])
  else inr (limit, maxBytes).

(** ** Selectors *)

Definition validateFilterSelectors (req : ReadRequest) : err :=
  if negb (bool_decide (qHook req = "")) && negb (ValidHook (qHook req))
  then Some (wrap ErrInvalidSelector "unknown hook %q" [AStr (qHook req)])
  else if bool_decide (qInvocationID req = "") then None
  else requireID "invocationId" (qInvocationID req).

(** [^[A-Za-z0-9_-]*$] *)
Definition is_cursor_char (c : ascii) : bool :=
  in_range 65 90 c || in_range 97 122 c || in_range 48 57 c ||
  bool_decide (c = "_"%char) || bool_decide (c = "-"%char).
Fixpoint cursorPattern (s : string) : bool :=
  match s with EmptyString => true | String c s' => is_cursor_char c && cursorPattern s' end.

Definition ValidateReadSelectors (req : ReadRequest) : err :=
  andThen (requireID "runId" (qRunID req))
    (andThen (validateFilterSelectors req)
      (if (MaxCursorBytes <? len (qAfter req)) || negb (cursorPattern (qAfter req))
       then Some (wrap ErrInvalidCursor "malformed cursor" [])
       else if (qLimit req <? 0) || (MaxReadLimit <? qLimit req)
       then Some (wrap ErrInvalidSelector "limit must be between 1 and %d" [AInt MaxReadLimit])
       else None)).

(** [BoundedBuffer.Write]: the kept bytes after writing [p]. *)
Definition boundedWrite (max : Z) (kept p : string) : string :=
  let room := max - len kept in
  if 0 <? room then kept +:+ string_take (Z.to_nat (Z.min room (len p))) p else kept.

(** ** Filters *)

Record filter := mkFilter { fActive : bool; fHash : string; fAllowed : gset string }.

Definition accept (f : filter) (rec : LogRecord) : bool :=
  if negb (fActive f) || bool_decide (rKind rec = KindCapture) then true
  else if bool_decide (rKind rec = KindProducer) then false
  else bool_decide (rInvocationID rec ∈ fAllowed f).

Definition matchInvocations (hooks : gmap string string) (req : ReadRequest) : gset string :=
  dom (base.filter (fun p : string * string =>
    (qHook req = "" \/ p.2 = qHook req) /\ (qInvocationID req = "" \/ p.1 = qInvocationID req)) hooks).

(** ** Streaming a producer's records *)

(** [firstSegmentFor] *)
Fixpoint firstSegmentFrom (i start : nat) (segs : list segment) (from : Z) : nat :=
  match segs with
  | [] => start
  | seg :: rest => firstSegmentFrom (S i) (if gFirst seg <=? from then i else start) rest from
  end.
Definition firstSegmentFor (segs : list segment) (from : Z) : nat := firstSegmentFrom 0 0 segs from.

Section Stream.
Context `{JSON LogRecord} {S : Type} (fn : S -> option LogRecord -> S * bool).

(** The callback of [scanFrom] over the lines of a segment; the result says
    whether [fn] stopped the scan. *)
Fixpoint scanLines (implied from : Z) (recs : list (option LogRecord)) (s : S) : S * bool :=
  match recs with
  | [] => (s, false)
  | rec :: rest =>
      let seq := match rec with Some r => rSequence r | None => implied end in
      let implied' := u64 (seq + 1) in
      if seq <? from then scanLines implied' from rest s
      else let '(s', go) := fn s rec in
           if go then scanLines implied' from rest s' else (s', true)
  end.

Definition scanFrom (p : path) (first from : Z) (s : S) : St (goerr + (S * bool)) :=
  let! recs := scanSegment p in ok (scanLines first from recs s).

Fixpoint scanSegments (dir : path) (segs : list segment) (from : Z) (s : S) : St (goerr + S) :=
  match segs with
  | [] => ok s
  | seg :: rest =>
      let! r := scanFrom (dir ++ [gName seg]) (gFirst seg) from s in
      let '(s', stopped) := r in
      if (stopped : bool) then ok s' else scanSegments dir rest from s'
  end.

Definition eachRecord (runID producerID : string) (from : Z) (s : S) : St (goerr + S) :=
  let! dir := lift (producerDir runID producerID) in
  let! segs := listSegments dir in
  scanSegments dir (drop (firstSegmentFor segs from) segs) from s.
End Stream.

(** ** Pages *)

Record page := mkPage {
  pgLimit : Z;
  pgMaxBytes : Z;
  pgUsed : Z;
  pgRecords : list LogRecord;
  pgPos : gmap string Z;
  pgFull : bool;
  pgGaps : bool;
}.

Definition newPage (limit maxBytes : Z) (pos : gmap string Z) (gaps : bool) : page :=
  mkPage limit maxBytes 0 [] pos false gaps.

Definition setFull (p : page) : page :=
  mkPage (pgLimit p) (pgMaxBytes p) (pgUsed p) (pgRecords p) (pgPos p) true (pgGaps p).
Definition pushRecord (rec : LogRecord) (size : Z) (p : page) : page :=
  mkPage (pgLimit p) (pgMaxBytes p) (pgUsed p + size) (pgRecords p ++ [rec]) (pgPos p) (pgFull p)
    (pgGaps p).
Definition setPos (producerID : string) (seq : Z) (p : page) : page :=
  mkPage (pgLimit p) (pgMaxBytes p) (pgUsed p) (pgRecords p) (<[producerID := seq]> (pgPos p))
    (pgFull p) (pgGaps p).
Definition setGaps (p : page) : page :=
  mkPage (pgLimit p) (pgMaxBytes p) (pgUsed p) (pgRecords p) (pgPos p) (pgFull p) true.

Definition posOf (p : page) (producerID : string) : Z := default 0 (pgPos p !! producerID).

(** A synthetic capture record, built at read time and never stored. *)
Definition capture (runID producerID : string) (seq : Z) (c detail : string) : LogRecord :=
  mkRecord SchemaVersion KindCapture runID producerID seq 0 "" "" "" false "" "" "" None "" "" ""
    "" None None "" "" "" 0 false c detail 0.

Section Pages.
Context `{JSON LogRecord}.

Definition addRecord (rec : LogRecord) (p : page) : page * bool :=
  match Marshal rec with
  | None => (setFull p, false)
  | Some data =>
      if (pgLimit p <=? Z.of_nat (length (pgRecords p))) ||
         (negb (bool_decide (pgRecords p = [])) && (pgMaxBytes p <? pgUsed p + len data + 1))
      then (setFull p, false)
      else (pushRecord rec (len data + 1) p, true)
  end.

Definition consumeMalformed (runID producerID : string) (seq : Z) (p : page) : page * bool :=
  let rec := capture runID producerID seq ConditionMalformedRecord
               "a stored record could not be decoded" in
  let '(p1, added) := addRecord rec p in
  if added then (setPos producerID seq (setGaps p1), true) else (p1, false).

Definition gapRecord (runID producerID : string) (next seq : Z) : LogRecord :=
  capture runID producerID next ConditionRetentionGap
    (sprintf "sequences %d-%d are not retained" [Itoa next; Itoa (u64 (seq - 1))]).

Definition consume (runID producerID : string) (f : filter) (p : page) (rec : option LogRecord)
    : page * bool :=
  let next := u64 (posOf p producerID + 1) in
  match rec with
  | None => consumeMalformed runID producerID next p
  | Some r =>
      let '(p1, going) :=
        if next <? rSequence r then
          let '(p', added) := addRecord (gapRecord runID producerID next (rSequence r)) p in
          if (added : bool) then (setPos producerID (u64 (rSequence r - 1)) (setGaps p'), true)
          else (p', false)
        else (p, true) in
      if negb going then (p1, false)
      else if accept f r then
        let '(p2, added) := addRecord r p1 in
        if (added : bool) then (setPos producerID (rSequence r) p2, true) else (p2, false)
      else (setPos producerID (rSequence r) p1, true)
  end.

Definition readProducer (runID producerID : string) (f : filter) (p : page) : St (goerr + page) :=
  eachRecord (consume runID producerID f) runID producerID (u64 (posOf p producerID + 1)) p.

Fixpoint readProducers (runID : string) (f : filter) (ps : list ProducerRef) (p : page)
    : St (goerr + page) :=
  match ps with
  | [] => ok p
  | ref :: rest =>
      let! p' := readProducer runID (pProducerID ref) f p in
      if pgFull p' then ok p' else readProducers runID f rest p'
  end.

(** The hook of every invocation of the run, later records winning. *)
Fixpoint invocationHooks (runID : string) (ps : list ProducerRef) (hooks : gmap string string)
    : St (goerr + gmap string string) :=
  match ps with
  | [] => ok hooks
  | ref :: rest =>
      let! hooks' := eachRecord (fun (hs : gmap string string) rec =>
          match rec with
          | Some r => if bool_decide (rKind r = KindInvocation)
                      then (<[rInvocationID r := rHook r]> hs, true) else (hs, true)
          | None => (hs, true)
          end) runID (pProducerID ref) 1 hooks in
      invocationHooks runID rest hooks'
  end.

Context `{JSON RunManifest} `{JSON cursor} `{SHA256}.

Definition newFilter (m : RunManifest) (req : ReadRequest) : St (goerr + filter) :=
  let hash := filterHash [qHook req; qInvocationID req] in
  if bool_decide (qHook req = "") && bool_decide (qInvocationID req = "")
  then ok (mkFilter false hash ∅)
  else
    let! _ := guard_err (validateFilterSelectors req) in
    let! hooks := invocationHooks (mRunID m) (mProducers m) ∅ in
    let allowed := matchInvocations hooks req in
    if negb (bool_decide (qInvocationID req = "")) && negb (bool_decide (qInvocationID req ∈ allowed))
    then throw (wrap ErrNotFound "invocation is not part of this run" [])
    else ok (mkFilter true hash allowed).

Record readPlan := mkPlan { plM : RunManifest; plF : filter; plCur : cursor }.

Definition prepareRead (req : ReadRequest) : St (goerr + readPlan) :=
  let! m := Manifest (qRunID req) in
  let! f := newFilter m req in
  let! cur := lift (decodeCursor (qAfter req) cursorRun) in
  if negb (bool_decide (qAfter req = "")) &&
     (negb (bool_decide (cRun cur = qRunID req)) || negb (bool_decide (cFilter cur = fHash f)))
  then throw (wrap ErrInvalidCursor "cursor does not match the selected run or filters" [])
  else ok (mkPlan m f cur).

Definition availability (p : ProducerRef) : SourceAvailability :=
  let available := negb (bool_decide (pState p = ProducerUnavailable)) in
  mkAvailability (pProducerID p) available (if available then "" else ConditionSourceUnavailable).

Definition response (m : RunManifest) (f : filter) (pg : page) : goerr + ReadResponse :=
  match encodeCursor (mkCursor SchemaVersion cursorRun (mRunID m) (fHash f) (pgPos pg) (pgGaps pg)
                        "" "" 0 "") with
  | inl e => inl e
  | inr token =>
      inr (mkResponse SchemaVersion (Summary m) (pgRecords pg) token (pgFull pg)
             (map availability (mProducers m)) (Complete m && negb (pgFull pg) && negb (pgGaps pg)))
  end.

Definition Read (req : ReadRequest) : St (goerr + ReadResponse) :=
  let! limits := lift (readLimits req) in
  let! plan := prepareRead req in
  let pg := newPage limits.1 (limits.2 - envelopeReserve) (cPos (plCur plan)) (cGaps (plCur plan)) in
  let! pg' := readProducers (mRunID (plM plan)) (plF plan) (mProducers (plM plan)) pg in
  lift (response (plM plan) (plF plan) pg').

(** ** The run index *)

Record IndexRequest := mkIndexRequest {
  ixContext : string;
  ixWorkspaceUID : string;
  ixAfter : string;
  ixLimit : Z;
}.
Record IndexResponse := mkIndexResponse {
  ixSchemaVersion : Z;
  ixRuns : list RunSummary;
  ixNextCursor : string;
  ixHasMore : bool;
}.

Definition indexLimit (req : IndexRequest) : goerr + Z :=
  let limit := if ixLimit req =? 0 then DefaultIndexLimit else ixLimit req in
  if bool_decide (ixContext req = "") || (limit <? 0) || (MaxIndexLimit <? limit)
  then inl (wrap ErrInvalidSelector "context and a limit up to %d are required" [AInt MaxIndexLimit])
  else inr limit.

Definition indexSelectors (req : IndexRequest) : goerr + (Z * cursor) :=
  match indexLimit req with
  | inl e => inl e
  | inr limit =>
      match decodeCursor (ixAfter req) cursorIndex with
      | inl e => inl e
      | inr cur =>
          if negb (bool_decide (ixAfter req = "")) &&
             (negb (bool_decide (cContext cur = ixContext req)) ||
              negb (bool_decide (cUID cur = ixWorkspaceUID req)))
          then inl (wrap ErrInvalidCursor "cursor does not match the selected context or workspace" [])
          else inr (limit, cur)
      end
  end.

Definition inIndex (m : RunManifest) (req : IndexRequest) : bool :=
  bool_decide (mContext m = ixContext req) &&
  (bool_decide (ixWorkspaceUID req = "") ||
   bool_decide (mWorkspaceUID m = Some (ixWorkspaceUID req))).

Definition olderThan (m : RunManifest) (cur : cursor) : bool :=
  if mCreatedAt m =? cAt cur then String.ltb (mRunID m) (cID cur) else mCreatedAt m <? cAt cur.

(** Newest first by creation time, then by descending run ID. *)
Definition indexBefore (a b : RunManifest) : Prop :=
  mCreatedAt b < mCreatedAt a \/ (mCreatedAt a = mCreatedAt b /\ String.le (mRunID b) (mRunID a)).
#[export] Instance indexBefore_dec : RelDecision indexBefore.
Proof. intros a b. unfold indexBefore. apply _. Defined.

Definition indexPage (found : list RunManifest) (req : IndexRequest) (limit : Z)
    : goerr + IndexResponse :=
  let sorted := merge_sort indexBefore found in
  let hasMore := limit <? Z.of_nat (length sorted) in
  let shown := if hasMore then take (Z.to_nat limit) sorted else sorted in
  match List.last (map Some shown) None, hasMore with
  | Some lastRun, true =>
      match encodeCursor (mkCursor SchemaVersion cursorIndex "" "" ∅ false (ixContext req)
                            (ixWorkspaceUID req) (mCreatedAt lastRun) (mRunID lastRun)) with
      | inl e => inl e
      | inr token => inr (mkIndexResponse SchemaVersion (map Summary shown) token true)
      end
  | _, _ => inr (mkIndexResponse SchemaVersion (map Summary shown) "" hasMore)
  end.

Definition ListRuns (req : IndexRequest) : St (goerr + IndexResponse) :=
  let! sel := lift (indexSelectors req) in
  let* runs := loadRuns in
  let matching := base.filter (fun m => inIndex m req = true /\
                                 (ixAfter req = "" \/ olderThan m sel.2 = true)) (map iManifest runs) in
  lift (indexPage matching req sel.1).
End Pages.

Record setupLogsFlags := mkSetupFlags {
  sfSource : string;
  sfList : bool;
  sfRunID : string;
  sfHook : string;
  sfInvocation : string;
  sfFollow : bool;
  sfAfter : string;
  sfLimit : Z;
}.

(** [setupReader.request] *)
Definition request (flags : setupLogsFlags) (runID after : string) : ReadRequest :=
  mkReadRequest runID (sfHook flags) (sfInvocation flags) after (sfLimit flags) 0.

Section Setup.
Context `{JSON LogRecord} `{JSON RunManifest} `{JSON cursor} `{SHA256}.

(** [drain]: every page available now, as the reader prints them, and the token
    to go on from.  The loop runs while the store has more; [None] is a loop
    that needs more than [fuel] pages. *)
Fixpoint drain (fuel : nat) (flags : setupLogsFlags) (runID after : string)
    : St (option (goerr + (list ReadResponse * string))) :=
  match fuel with
  | O => ret None
  | S fuel' =>
      let* r := Read (request flags runID after) in
      match r with
      | inl e => ret (Some (inl e))
      | inr resp =>
          if respHasMore resp then
            let* more := drain fuel' flags runID (respNextCursor resp) in
            ret (match more with
                 | Some (inr (pages, next)) => Some (inr (resp :: pages, next))
                 | other => other
                 end)
          else ret (Some (inr ([resp], respNextCursor resp)))
      end
  end.
End Setup.
