(* ===== verification/LogPaging.v ===== *)
(** Reading in pages: what a page of [Read] holds, and that following the page
    tokens shows every stored record exactly once and in order. *)
From S2P Require Import Prelude GoStd GoText LogTypes LogManifest LogFS LogStore LogSegment.
From S2P Require Import LogDisk LogDurable LogCursor LogRetention LogReader LogSystem.

(** ** Streaming a stored log *)

Section Streaming.
Context `{JSON LogRecord} {S : Type} (fn : S -> option LogRecord -> S * bool).
Implicit Types (recs : list LogRecord) (s : S).

(** [fn] applied to record after record until it stops. *)
Fixpoint runUntil recs s : S * bool :=
  match recs with
  | [] => (s, false)
  | r :: rest => let '(s', go) := fn s (Some r) in if go then runUntil rest s' else (s', true)
  end.

Lemma runUntil_app recs recs' s :
  runUntil (recs ++ recs') s =
    let '(s', stopped) := runUntil recs s in if stopped then (s', true) else runUntil recs' s'.
Proof.
  revert s. induction recs as [|r recs IH]; intros s; [done|]. cbn [app runUntil].
  destruct (fn s (Some r)) as [s' []]; [apply IH|done].
Qed.

Lemma scanLines_contiguous rid pid implied n from recs s :
  contiguous rid pid n recs ->
  scanLines fn implied from (map Some recs) s = runUntil (drop (Z.to_nat (from - n)) recs) s.
Proof.
  revert implied n s. induction recs as [|r recs IH]; intros implied n s Hc.
  { by rewrite drop_nil. }
  change (r :: recs) with ([r] ++ recs) in Hc. apply contiguous_app in Hc as [Hr Hc].
  apply contiguous_one in Hr as (Hseq & _). cbn [map scanLines]. cbv zeta. rewrite Hseq.
  specialize (IH (u64 (n + 1)) (n + 1)). cbn [length] in Hc.
  destruct (Z.ltb_spec n from) as [Hlt|Hge].
  - rewrite IH by done. by replace (Z.to_nat (from - n)) with (Datatypes.S (Z.to_nat (from - (n + 1)))) by lia.
  - replace (Z.to_nat (from - n)) with 0%nat by lia. cbn [drop runUntil].
    destruct (fn s (Some r)) as [s' []]; [|done]. rewrite IH by done.
    by replace (Z.to_nat (from - (n + 1))) with 0%nat by lia.
Qed.

Lemma scanSegment_reads w E p c :
  wFS w !! p = Some (File c) -> reads (scanSegment p) w (fun lns => lns = map decodeLine (lines c)) E.
Proof.
  intros Hp. unfold scanSegment. eapply reads_ebind; [apply reads_checkRegular; eauto|].
  intros w1 [] [[Hf1 _] _] _. apply reads_sys. intros w2 [[Hf2 _] _]. apply reads_lookupFS.
  rewrite Hf2, Hf1, Hp. apply reads_sys. intros w3 _. by apply reads_ok.
Qed.

Lemma scanSegments_reads w E rid pid dir from n L recs s :
  chain rid pid n L recs ->
  (forall f c, (f, c) ∈ L -> wFS w !! (dir ++ [segmentName f]) = Some (File c)) ->
  reads (scanSegments fn dir (map toSegment L) from s) w
    (fun s' => s' = (runUntil (drop (Z.to_nat (from - n)) recs) s).1) E.
Proof.
  intros Hc. revert w s. induction Hc as [n|n c rs L recs Hd Hr _ Hc IH]; intros w s Hfiles.
  { rewrite drop_nil. by apply reads_ok. }
  cbn [map scanSegments toSegment gName gFirst fst]. unfold scanFrom.
  eapply reads_ebind.
  { eapply reads_ebind; [apply scanSegment_reads, (Hfiles n c); set_solver|].
    intros w1 lns _ ->. rewrite Hd. apply reads_ok.
    exact (eq_refl (scanLines fn n from (map Some rs) s)). }
  intros w1 [s1 stopped] [[Hf1 _] _] Heq. rewrite (scanLines_contiguous rid pid n n) in Heq by done.
  rewrite drop_app, runUntil_app, Heq. destruct stopped; [by apply reads_ok|].
  replace (Z.to_nat (from - n) - length rs)%nat with (Z.to_nat (from - (n + Z.of_nat (length rs)))) by lia.
  apply IH. intros f d Hin. rewrite Hf1. apply Hfiles. set_solver.
Qed.

(** The segment a scan starts at. *)
Lemma firstSegmentFrom_spec segs : forall i start from,
  firstSegmentFrom i start segs from = start \/
  exists j seg, segs !! j = Some seg /\ firstSegmentFrom i start segs from = (i + j)%nat /\
    gFirst seg <= from.
Proof.
  induction segs as [|seg segs IH]; intros i start from; [by left|]. cbn [firstSegmentFrom].
  destruct (IH (Datatypes.S i) (if gFirst seg <=? from then i else start) from)
    as [Heq|(j & sg & Hj & Heq & Hle)].
  - rewrite Heq. destruct (Z.leb_spec (gFirst seg) from); [|by left].
    right. exists 0%nat, seg. split_and!; [done|lia|done].
  - right. exists (Datatypes.S j), sg. split_and!; [done|lia|done].
Qed.

Lemma chain_app rid pid n L1 L2 recs :
  chain rid pid n (L1 ++ L2) recs ->
  exists recs1 recs2, recs = recs1 ++ recs2 /\ chain rid pid (n + Z.of_nat (length recs1)) L2 recs2 /\
    contiguous rid pid n recs1.
Proof.
  revert n recs. induction L1 as [|[f c] L1 IH]; intros n recs Hc.
  { exists [], recs. rewrite Z.add_0_r. split_and!; [done|done|apply contiguous_nil]. }
  cbn [app] in Hc. inversion Hc as [|? ? rs ? recs' Hd Hr Ht Hc']; subst.
  destruct (IH _ _ Hc') as (recs1 & recs2 & -> & Hc2 & Hr1).
  exists (rs ++ recs1), recs2. rewrite length_app, Nat2Z.inj_add, Z.add_assoc, app_assoc.
  split_and!; [done|done|]. by apply contiguous_app.
Qed.

(** The scan may skip the segments before the one that holds [from]. *)
Lemma chain_skip rid pid L recs from :
  chain rid pid 1 L recs ->
  exists n recs2, chain rid pid n (drop (firstSegmentFor (map toSegment L) from) L) recs2 /\
    drop (Z.to_nat (from - n)) recs2 = drop (Z.to_nat (from - 1)) recs.
Proof.
  intros Hc. unfold firstSegmentFor.
  destruct (firstSegmentFrom_spec (map toSegment L) 0 0 from) as [->|(j & seg & Hj & -> & Hle)].
  { exists 1, recs. by rewrite drop_0. }
  cbn [Nat.add]. apply list_lookup_fmap_Some in Hj as ([f c] & -> & Hj). cbn in Hle.
  rewrite <- (take_drop_middle L j (f, c) Hj) in Hc.
  destruct (chain_app _ _ _ _ _ _ Hc) as (recs1 & recs2 & -> & Hc2 & _).
  rewrite (drop_S L (f, c) j Hj). assert (Hf : f = 1 + Z.of_nat (length recs1)) by by inversion Hc2.
  exists f, recs2. rewrite Hf at 1. split; [done|].
  rewrite drop_app, (drop_ge recs1) by lia. cbn. f_equal. lia.
Qed.

(** Nothing but a directory stands where the producer's directory belongs. *)
Definition dirOK (fs : FS) (rid pid : string) : Prop :=
  fs !! producerPath rid pid = None \/ fs !! producerPath rid pid = Some Dir.

Lemma eachRecord_reads w E rid pid from recs s :
  logAt rid pid (wFS w) recs -> dirOK (wFS w) rid pid -> ValidID rid = true -> ValidID pid = true ->
  reads (eachRecord fn rid pid from s) w
    (fun s' => s' = (runUntil (drop (Z.to_nat (from - 1)) recs) s).1) E.
Proof.
  intros [L HL] Hdir Hrid Hpid. unfold eachRecord, producerDir, runDir, requireID. rewrite Hrid, Hpid.
  eapply reads_ebind; [by apply (reads_lift _ _ _ (fun p => p = producerPath rid pid))|].
  intros w1 dir [[Hf1 _] _] ->. rewrite <- Hf1 in HL, Hdir.
  apply (reads_ebind _ _ _ _ (fun segs => segs = map toSegment L)).
  { apply reads_sys. intros w2 [[Hf2 _] _]. rewrite <- Hf2 in HL, Hdir. apply reads_lookupFS.
    destruct Hdir as [Hd|Hd]; rewrite Hd.
    - apply reads_ok. destruct (decide (L = [])) as [->|Hne]; [done|].
      rewrite (st_dir _ _ _ _ _ HL Hne) in Hd. done.
    - apply reads_get, reads_ok. exact (storedIn_segmentsIn _ _ _ _ _ HL). }
  intros w2 segs [[Hf2 _] _] ->. rewrite <- Hf2 in HL. destruct HL as [_ Hc Hfiles Hrange _].
  destruct (chain_skip _ _ _ _ from Hc) as (n & recs2 & Hc2 & <-).
  rewrite skipn_map. eapply scanSegments_reads; [done|]. intros f c Hin%subseteq_drop.
  apply (Hfiles (segmentName f) f c); [|done]. by eapply segmentName_parse, Hrange.
Qed.
End Streaming.

(** ** One page *)

Section Paging.
Context `{JSONLaws LogRecord (clean := cleanRecord)}.
Implicit Types (p : page) (recs : list LogRecord) (f : filter) (ps : list ProducerRef).

(** How reading [recs], the records of producer [pid] after its position,
    changes a page. *)
(** Records that can be written into a page. *)
Definition printable recs : Prop := Forall (fun r => is_Some (Marshal r)) recs.

(** The effect on page [p] of reading [recs], the records of producer [pid]
    after its position: the accepted ones of the first [j] are in the page, and
    unless it is full that is all of them. *)
Record pageStep f pid recs (j : nat) p p' : Prop := {
  ps_records : pgRecords p' = pgRecords p ++ base.filter (fun r => accept f r = true) (take j recs);
  ps_pos id : posOf p' id = posOf p id + (if decide (id = pid) then Z.of_nat j else 0);
  ps_le : (j <= length recs)%nat;
  ps_all : pgFull p' = false -> j = length recs;
  ps_full : pgFull p' = true -> pgRecords p' <> [];
  ps_limit : pgLimit p' = pgLimit p;
  ps_gaps : pgGaps p' = pgGaps p;
  ps_dom : dom (pgPos p') ⊆ dom (pgPos p) ∪ {[pid]};
}.

Lemma pageStep_nil f pid p : pgFull p = false -> pageStep f pid [] 0 p p.
Proof.
  intros Hp. split; cbn; try done; [by rewrite app_nil_r| |congruence|set_solver].
  intros id. case_decide; lia.
Qed.

Lemma posOf_setPos id pid n p : posOf (setPos pid n p) id = if decide (id = pid) then n else posOf p id.
Proof.
  unfold posOf. cbn. case_decide as Hid; [subst; by rewrite lookup_insert_eq|by rewrite lookup_insert_ne].
Qed.

Lemma addRecord_cases r p :
  is_Some (Marshal r) -> 0 < pgLimit p -> pgFull p = false ->
  (exists size, addRecord r p = (pushRecord r size p, true)) \/
  (addRecord r p = (setFull p, false) /\ pgRecords p <> []).
Proof.
  intros [data Hd] Hlim _. unfold addRecord. rewrite Hd. case_match eqn:Hc; [right|left; eauto].
  split; [done|]. intros Hr. rewrite Hr in Hc. cbn in Hc. rewrite orb_false_r in Hc.
  apply Z.leb_le in Hc. lia.
Qed.

(** The next record of a producer, without a hole before it. *)
Lemma consume_next rid pid f p r :
  rSequence r = posOf p pid + 1 -> 0 <= posOf p pid -> posOf p pid + 1 < 2 ^ 64 ->
  consume rid pid f p (Some r) =
    if accept f r
    then let '(p', added) := addRecord r p in
         if (added : bool) then (setPos pid (rSequence r) p', true) else (p', false)
    else (setPos pid (rSequence r) p, true).
Proof.
  intros Hs Hpos Hlt. unfold consume. replace (u64 (posOf p pid + 1)) with (rSequence r).
  - rewrite Z.ltb_irrefl. cbn [negb]. done.
  - unfold u64. rewrite Z.mod_small; lia.
Qed.

Lemma readRecords_step rid pid f recs : forall p,
  pgFull p = false -> 0 < pgLimit p -> 0 <= posOf p pid ->
  contiguous rid pid (posOf p pid + 1) recs -> printable recs ->
  posOf p pid + Z.of_nat (length recs) + 1 < 2 ^ 64 ->
  exists j, pageStep f pid recs j p (runUntil (consume rid pid f) recs p).1.
Proof.
  induction recs as [|r recs IH]; intros p Hfull Hlim Hpos Hc Hpr Hlt.
  { exists 0%nat. by apply pageStep_nil. }
  change (r :: recs) with ([r] ++ recs) in Hc. apply contiguous_app in Hc as [Hr Hc].
  apply contiguous_one in Hr as (Hs & _). apply Forall_cons in Hpr as [Hpr Hprs].
  cbn [length] in Hc, Hlt. cbn [runUntil]. rewrite consume_next by lia.
  (* going on from a page that has taken [r] *)
  assert (Hgo : forall q, pgFull q = false -> pgLimit q = pgLimit p -> pgGaps q = pgGaps p -> pgPos q = pgPos p ->
      (forall id, posOf q id = posOf p id) ->
      pgRecords q = pgRecords p ++ base.filter (fun r => accept f r = true) [r] ->
      exists j, pageStep f pid (r :: recs) j p
        (runUntil (consume rid pid f) recs (setPos pid (rSequence r) q)).1).
  { intros q Hqf Hql Hqg Hqd Hqp Hqr. set (q' := setPos pid (rSequence r) q).
    assert (Hq' : posOf q' pid = posOf p pid + 1)
      by (unfold q'; rewrite posOf_setPos, decide_True by done; lia).
    destruct (IH q') as [j [Hrec Hp Hle Hall Hf Hl Hg Hd]]; [done|cbn; lia|lia| |done|lia|].
    { rewrite Hq'. by replace (posOf p pid + 1 + 1) with (posOf p pid + 1 + Z.of_nat 1) by lia. }
    exists (Datatypes.S j). split.
    - rewrite Hrec. cbn [take]. unfold q'. cbn [setPos pgRecords]. rewrite Hqr, <- app_assoc.
      by rewrite <- filter_app.
    - intros id. rewrite Hp. unfold q'. rewrite posOf_setPos, Hqp. case_decide; subst; lia.
    - cbn. lia.
    - intros Hn. cbn. f_equal. by apply Hall.
    - done.
    - rewrite Hl. done.
    - rewrite Hg. done.
    - rewrite Hd. unfold q'. cbn [setPos pgPos]. rewrite Hqd. set_solver. }
  destruct (accept f r) eqn:Ha.
  - destruct (addRecord_cases r p Hpr Hlim Hfull) as [[size ->]|[-> Hne]].
    + apply Hgo; try done. by rewrite filter_cons_True.
    + exists 0%nat. split; cbn; try done; [by rewrite app_nil_r| |lia|set_solver].
      intros id. unfold posOf. cbn. case_decide; lia.
  - apply Hgo; try done. rewrite filter_cons_False by congruence. by rewrite app_nil_r.
Qed.
(** ** All producers *)

Definition logOf (fs : FS) (rid : string) (ref : ProducerRef) : list LogRecord :=
  storedLog fs rid (pProducerID ref).

(** What a reader at positions [pos] has not seen yet. *)
Definition unreadOf (fs : FS) rid f (pos : string -> Z) (ref : ProducerRef) : list LogRecord :=
  base.filter (fun r => accept f r = true) (drop (Z.to_nat (pos (pProducerID ref))) (logOf fs rid ref)).
Definition unread (fs : FS) rid f (pos : string -> Z) ps : list LogRecord :=
  concat (map (unreadOf fs rid f pos) ps).

(** A run whose producers all have a sound log. *)
Record readable (fs : FS) rid ps : Prop := {
  rd_run : ValidID rid = true;
  rd_ids : NoDup (pProducerID <$> ps);
  rd_valid ref : ref ∈ ps -> ValidID (pProducerID ref) = true;
  rd_log ref : ref ∈ ps -> logOK fs rid (pProducerID ref) /\ dirOK fs rid (pProducerID ref);
  rd_small ref : ref ∈ ps -> Z.of_nat (length (logOf fs rid ref)) + 1 < 2 ^ 64;
}.
Definition within (fs : FS) rid ps (pos : string -> Z) : Prop :=
  forall ref, ref ∈ ps -> 0 <= pos (pProducerID ref) <= Z.of_nat (length (logOf fs rid ref)).

Record pageRead (fs : FS) rid f ps (recs : list LogRecord) p p' : Prop := {
  pg_records : pgRecords p' = pgRecords p ++ recs;
  pg_unread : unread fs rid f (posOf p) ps = recs ++ unread fs rid f (posOf p') ps;
  pg_other id : id ∉ pProducerID <$> ps -> posOf p' id = posOf p id;
  pg_within : within fs rid ps (posOf p');
  pg_done : pgFull p' = false -> unread fs rid f (posOf p') ps = [];
  pg_full : pgFull p' = true -> pgRecords p' <> [];
  pg_gaps : pgGaps p' = pgGaps p;
  pg_dom : dom (pgPos p') ⊆ dom (pgPos p) ∪ list_to_set (pProducerID <$> ps);
}.

Lemma unread_ext fs rid f pos pos' ps :
  (forall ref, ref ∈ ps -> pos (pProducerID ref) = pos' (pProducerID ref)) ->
  unread fs rid f pos ps = unread fs rid f pos' ps.
Proof.
  intros Hpos. unfold unread. f_equal. apply map_ext_in. intros ref Hin%list_elem_of_In.
  unfold unreadOf. by rewrite (Hpos ref Hin).
Qed.

Lemma readable_cons fs rid ref ps :
  readable fs rid (ref :: ps) -> readable fs rid ps /\ pProducerID ref ∉ pProducerID <$> ps.
Proof.
  intros [Hr Hn Hv Hl Hs]. rewrite fmap_cons in Hn. apply NoDup_cons in Hn as [Hn Hnd].
  split; [|done]. split; [done|done|..]; intros ref' Hin; [apply Hv|apply Hl|apply Hs]; set_solver.
Qed.

Lemma storedLog_printable fs rid pid : logOK fs rid pid -> printable (storedLog fs rid pid).
Proof.
  intros [L HL]. destruct HL as [_ Hc _ _ _]. revert Hc. generalize (storedLog fs rid pid), 1.
  intros recs n. induction 1 as [|n c rs L recs Hd _ _ _ IH]; [constructor|].
  apply Forall_app. split; [|done]. apply Forall_forall. intros r Hin.
  assert (Hin' : Some r ∈ map decodeLine (lines c)) by (rewrite Hd; by apply list_elem_of_fmap_2).
  apply list_elem_of_fmap in Hin' as (line & Hline & _). unfold decodeLine in Hline.
  destruct (Unmarshal (TrimSpace line)) as [r'|] eqn:Hu; [|done]. destruct (Validate r'); simplify_eq.
  by eapply marshal_decoded.
Qed.

(** One producer, read from its position. *)
Lemma readProducer_reads w E rid f ref p :
  readable (wFS w) rid [ref] -> within (wFS w) rid [ref] (posOf p) ->
  pgFull p = false -> 0 < pgLimit p ->
  reads (readProducer rid (pProducerID ref) f p) w
    (fun p' => exists recs, pageRead (wFS w) rid f [ref] recs p p' /\ pgLimit p' = pgLimit p) E.
Proof.
  intros [Hrun _ Hid Hlog Hsmall] Hwith Hfull Hlim. assert (Href : ref ∈ [ref]) by set_solver.
  specialize (Hid ref Href). specialize (Hlog ref Href) as [Hlog Hdir].
  specialize (Hsmall ref Href). specialize (Hwith ref Href).
  unfold logOf in *. set (log := storedLog (wFS w) rid (pProducerID ref)) in *.
  set (pos := posOf p (pProducerID ref)) in *.
  assert (Hu : u64 (pos + 1) = pos + 1) by (unfold u64; rewrite Z.mod_small; lia).
  unfold readProducer. fold pos. rewrite Hu.
  eapply reads_mono; [by apply (eachRecord_reads _ _ _ _ _ _ log)|].
  intros p' ->. replace (pos + 1 - 1) with pos by lia.
  assert (Hc : contiguous rid (pProducerID ref) 1 log)
    by (destruct Hlog as [L [_ Hc _ _ _]]; by eapply chain_contiguous).
  assert (Hpr : printable log) by by apply storedLog_printable.
  rewrite <- (take_drop (Z.to_nat pos) log) in Hc, Hpr.
  apply contiguous_app in Hc as [_ Hc]. apply Forall_app in Hpr as [_ Hpr].
  rewrite length_take in Hc. replace (1 + _) with (pos + 1) in Hc by lia.
  destruct (readRecords_step rid (pProducerID ref) f (drop (Z.to_nat pos) log) p)
    as [j [Hrec Hpos Hle Hall Hf Hl Hg Hd]]; [done|done|lia|done|done|rewrite length_drop; lia|].
  rewrite length_drop in Hle, Hall. set (p' := (runUntil _ _ p).1) in *.
  assert (Hpos' : posOf p' (pProducerID ref) = pos + Z.of_nat j) by (by rewrite Hpos, decide_True).
  assert (Hun : unread (wFS w) rid f (posOf p') [ref] =
                base.filter (fun r => accept f r = true) (drop j (drop (Z.to_nat pos) log))).
  { unfold unread, unreadOf, logOf. cbn [map concat]. rewrite app_nil_r, Hpos', drop_drop. fold log.
    do 2 f_equal. lia. }
  eexists. split; [|exact Hl]. split; [exact Hrec| |..].
  - rewrite Hun, <- filter_app, take_drop. unfold unread, unreadOf, logOf. cbn [map concat].
    by rewrite app_nil_r.
  - intros id Hne. rewrite Hpos, decide_False by set_solver. lia.
  - intros ref' ->%list_elem_of_singleton. unfold logOf. fold log. rewrite Hpos'. lia.
  - intros Hn. rewrite Hun, drop_ge; [done|]. rewrite length_drop, (Hall Hn). lia.
  - done.
  - done.
  - rewrite Hd. set_solver.
Qed.

Lemma within_ext fs rid ps pos pos' :
  (forall ref, ref ∈ ps -> pos' (pProducerID ref) = pos (pProducerID ref)) ->
  within fs rid ps pos -> within fs rid ps pos'.
Proof. intros Hpos Hw ref Hin. rewrite (Hpos ref Hin). by apply Hw. Qed.

Lemma pID_in ref ps : ref ∈ ps -> pProducerID ref ∈ pProducerID <$> ps.
Proof. apply list_elem_of_fmap_2. Qed.

(** One producer, then the rest. *)
Lemma pageRead_cons fs rid f ref ps recs1 recs2 p p1 p2 :
  pProducerID ref ∉ pProducerID <$> ps ->
  pageRead fs rid f [ref] recs1 p p1 -> pgFull p1 = false ->
  pageRead fs rid f ps recs2 p1 p2 -> pageRead fs rid f (ref :: ps) (recs1 ++ recs2) p p2.
Proof.
  intros Hn [Hr1 Hu1 Ho1 Hw1 Hd1 Hf1 Hg1 Hm1] Hfull [Hr2 Hu2 Ho2 Hw2 Hd2 Hf2 Hg2 Hm2].
  assert (Hback : forall r, r ∈ ps -> posOf p1 (pProducerID r) = posOf p (pProducerID r)).
  { intros r Hin. apply Ho1. intros He%list_elem_of_singleton. apply Hn. rewrite <- He.
    by apply pID_in. }
  assert (Href : posOf p2 (pProducerID ref) = posOf p1 (pProducerID ref)) by by apply Ho2.
  assert (Hsplit : forall pos, unread fs rid f pos (ref :: ps) = unread fs rid f pos [ref] ++ unread fs rid f pos ps).
  { intros pos. unfold unread. cbn [map concat]. by rewrite app_nil_r. }
  assert (H0 : unread fs rid f (posOf p2) [ref] = []).
  { rewrite <- (Hd1 Hfull). apply unread_ext. intros r ->%list_elem_of_singleton. done. }
  split.
  - by rewrite Hr2, Hr1, app_assoc.
  - rewrite !Hsplit, H0, Hu1, (Hd1 Hfull), app_nil_r, <- app_assoc. cbn [app].
    rewrite <- Hu2. f_equal. apply unread_ext. intros r Hin. by rewrite Hback.
  - intros id Hid. rewrite fmap_cons in Hid. rewrite Ho2, Ho1 by set_solver. done.
  - intros r [-> |Hin]%elem_of_cons; [rewrite Href; apply Hw1; set_solver|by apply Hw2].
  - intros Hp. by rewrite Hsplit, H0, Hd2.
  - done.
  - congruence.
  - clear -Hm1 Hm2. rewrite fmap_cons, list_to_set_cons in Hm1 |- *. set_solver.
Qed.

(** A page that is full leaves the later producers alone. *)
Lemma pageRead_full fs rid f ref ps recs p p1 :
  pProducerID ref ∉ pProducerID <$> ps -> within fs rid ps (posOf p) ->
  pageRead fs rid f [ref] recs p p1 -> pgFull p1 = true -> pageRead fs rid f (ref :: ps) recs p p1.
Proof.
  intros Hn Hw [Hr1 Hu1 Ho1 Hw1 Hd1 Hf1 Hg1 Hm1] Hfull.
  assert (Hback : forall r, r ∈ ps -> posOf p1 (pProducerID r) = posOf p (pProducerID r)).
  { intros r Hin. apply Ho1. intros He%list_elem_of_singleton. apply Hn. rewrite <- He. by apply pID_in. }
  assert (Hsplit : forall pos, unread fs rid f pos (ref :: ps) = unread fs rid f pos [ref] ++ unread fs rid f pos ps).
  { intros pos. unfold unread. cbn [map concat]. by rewrite app_nil_r. }
  split; [done| | | |congruence|done|done|].
  - rewrite !Hsplit, Hu1, <- app_assoc. do 2 f_equal. apply unread_ext. intros r Hin. by rewrite Hback.
  - intros id Hid. rewrite fmap_cons in Hid. apply Ho1. set_solver.
  - intros r [-> |Hin]%elem_of_cons; [apply Hw1; set_solver|].
    rewrite (Hback r Hin). by apply Hw.
  - clear -Hm1. rewrite fmap_cons, list_to_set_cons in Hm1 |- *. set_solver.
Qed.

Lemma readProducers_reads w E rid f ps : forall p,
  readable (wFS w) rid ps -> within (wFS w) rid ps (posOf p) -> pgFull p = false -> 0 < pgLimit p ->
  reads (readProducers rid f ps p) w (fun p' => exists recs, pageRead (wFS w) rid f ps recs p p') E.
Proof.
  revert w. induction ps as [|ref ps IH]; intros w p Hr Hw Hfull Hlim.
  { apply reads_ok. exists []. split; try done; [by rewrite app_nil_r|congruence|set_solver]. }
  destruct (readable_cons _ _ _ _ Hr) as [Hrs Hn]. cbn [readProducers].
  assert (Hr1 : readable (wFS w) rid [ref]).
  { destruct Hr as [? _ Hv Hl Hs]. split; [done|apply NoDup_singleton|..];
      intros r ->%list_elem_of_singleton; [apply Hv|apply Hl|apply Hs]; set_solver. }
  assert (Hws : within (wFS w) rid ps (posOf p)) by (intros r Hin; apply Hw; set_solver).
  eapply reads_ebind.
  { apply readProducer_reads; [done| |done|done]. intros r ->%list_elem_of_singleton.
    apply Hw. set_solver. }
  intros w1 p1 [[Hf1 _] _] (recs1 & H1 & Hl1). destruct (pgFull p1) eqn:Hfull1.
  { apply reads_ok. exists recs1. by apply pageRead_full. }
  rewrite <- Hf1 in *. eapply reads_mono; [apply IH; [done| |done|by rewrite Hl1]|].
  - eapply within_ext; [|exact Hws]. intros r Hin. apply (pg_other _ _ _ _ _ _ _ H1).
    intros He%list_elem_of_singleton. apply Hn. rewrite <- He. by apply pID_in.
  - intros p2 [recs2 H2]. exists (recs1 ++ recs2). by eapply pageRead_cons.
Qed.

(** ** Filters *)

Definition addHook (hs : gmap string string) (r : LogRecord) : gmap string string :=
  if bool_decide (rKind r = KindInvocation) then <[rInvocationID r := rHook r]> hs else hs.
(** The hook of every invocation the stored logs mention. *)
Definition storedHooks (fs : FS) rid ps : gmap string string :=
  foldl addHook ∅ (concat (map (logOf fs rid) ps)).

Lemma runUntil_hooks recs hs :
  (runUntil (fun (hs : gmap string string) rec =>
     match rec with
     | Some r => if bool_decide (rKind r = KindInvocation)
                 then (<[rInvocationID r := rHook r]> hs, true) else (hs, true)
     | None => (hs, true)
     end) recs hs).1 = foldl addHook hs recs.
Proof.
  revert hs. induction recs as [|r recs IH]; intros hs; [done|]. cbn [runUntil foldl]. unfold addHook at 2.
  destruct (bool_decide (rKind r = KindInvocation)); apply IH.
Qed.

Lemma invocationHooks_reads w E rid ps : forall hs,
  readable (wFS w) rid ps ->
  reads (invocationHooks rid ps hs) w
    (fun hs' => hs' = foldl addHook hs (concat (map (logOf (wFS w) rid) ps))) E.
Proof.
  revert w. induction ps as [|ref ps IH]; intros w hs Hr; [by apply reads_ok|].
  destruct (readable_cons _ _ _ _ Hr) as [Hrs _]. cbn [invocationHooks map concat].
  assert (Href : ref ∈ ref :: ps) by set_solver.
  eapply reads_ebind.
  { apply (eachRecord_reads _ w E rid _ 1 (logOf (wFS w) rid ref)); apply Hr; done. }
  intros w1 hs1 [[Hf1 _] _] ->. rewrite runUntil_hooks, foldl_app, <- Hf1.
  apply IH. by rewrite Hf1.
Qed.

Context `{SHA256Laws} `{JSON RunManifest} {JC : JSON cursor} {LC : JSONLaws cursor cleanCursor}.

(** The filter of a request, from the stored logs. *)
Definition filterFor (fs : FS) (m : RunManifest) (req : ReadRequest) : goerr + filter :=
  let hash := filterHash [qHook req; qInvocationID req] in
  if bool_decide (qHook req = "") && bool_decide (qInvocationID req = "")
  then inr (mkFilter false hash ∅)
  else match validateFilterSelectors req with
       | Some e => inl e
       | None =>
           let allowed := matchInvocations (storedHooks fs (mRunID m) (mProducers m)) req in
           if negb (bool_decide (qInvocationID req = "")) &&
              negb (bool_decide (qInvocationID req ∈ allowed))
           then inl (wrap ErrNotFound "invocation is not part of this run" [])
           else inr (mkFilter true hash allowed)
       end.

Lemma newFilter_reads w m req :
  readable (wFS w) (mRunID m) (mProducers m) ->
  reads (newFilter m req) w (fun f => filterFor (wFS w) m req = inr f)
    (fun e => filterFor (wFS w) m req = inl e).
Proof.
  intros Hr. unfold newFilter, filterFor. cbv zeta. case_match; [by apply reads_ok|].
  destruct (validateFilterSelectors req) as [e|]; [by apply reads_throw|].
  change (guard_err None) with (ok tt : St (goerr + unit)).
  eapply reads_ebind; [by apply (reads_ok _ _ _ (fun _ => True))|]. intros w1 [] [[Hf1 _] _] _.
  eapply reads_ebind; [apply invocationHooks_reads; by rewrite Hf1|].
  intros w2 hooks _ ->. rewrite Hf1. fold (storedHooks (wFS w) (mRunID m) (mProducers m)).
  case_match; [by apply reads_throw|by apply reads_ok].
Qed.

(** ** Read *)

(** The start position of a request. *)
Definition startFor (req : ReadRequest) f : goerr + cursor :=
  match decodeCursor (qAfter req) cursorRun with
  | inl e => inl e
  | inr cur =>
      if negb (bool_decide (qAfter req = "")) &&
         (negb (bool_decide (cRun cur = qRunID req)) || negb (bool_decide (cFilter cur = fHash f)))
      then inl (wrap ErrInvalidCursor "cursor does not match the selected run or filters" [])
      else inr cur
  end.
Definition posAt (cur : cursor) (id : string) : Z := default 0 (cPos cur !! id).

(** The store holds the run [m] of the request, with sound logs. *)
Record served (fs : FS) (runID : string) (m : RunManifest) : Prop := {
  sv_manifest : storedManifest fs (runPath runID) = Some m;
  sv_run : mRunID m = runID;
  sv_logs : readable fs runID (mProducers m);
}.

Lemma Manifest_reads w E runID m :
  served (wFS w) runID m -> reads (Manifest runID) w (fun m' => m' = m) E.
Proof.
  intros [Hm _ [Hid _ _ _ _]]. unfold Manifest, runDir, requireID. rewrite Hid.
  eapply reads_ebind; [by apply (reads_lift _ _ _ (fun d => d = runPath runID))|].
  intros w1 dir [[Hf1 _] _] ->. unfold readManifest. cbv zeta. unfold storedManifest in Hm.
  destruct (wFS w !! (runPath runID ++ [manifestName])) as [[|d|]|] eqn:Hd; try done.
  eapply reads_ebind; [apply reads_checkRegular; right; exists d; by rewrite Hf1|].
  intros w2 [] [[Hf2 _] _] _. eapply reads_ebind.
  { apply (reads_readFile _ _ _ _ (fun o => o = Some d)). right. exists d. by rewrite Hf2, Hf1. }
  intros w3 data _ ->. rewrite Hm. by apply reads_ok.
Qed.

(** What [Read] refuses: the request's filter or its token. *)
Definition refused (fs : FS) m (req : ReadRequest) (e : goerr) : Prop :=
  filterFor fs m req = inl e \/ exists f, filterFor fs m req = inr f /\ startFor req f = inl e.

Lemma prepareRead_reads w req m :
  served (wFS w) (qRunID req) m ->
  reads (prepareRead req) w
    (fun plan => plM plan = m /\ filterFor (wFS w) m req = inr (plF plan) /\
                 startFor req (plF plan) = inr (plCur plan))
    (refused (wFS w) m req).
Proof.
  intros Hs. unfold prepareRead. eapply reads_ebind; [by apply Manifest_reads|].
  intros w1 m' [[Hf1 _] _] ->. eapply reads_ebind.
  { eapply reads_weaken; [apply newFilter_reads; rewrite Hf1, (sv_run _ _ _ Hs); apply Hs|].
    intros e. rewrite Hf1. by left. }
  intros w2 f [[Hf2 _] _] Hflt. rewrite Hf1 in Hflt. unfold startFor, refused. unfold startFor.
  destruct (decodeCursor (qAfter req) cursorRun) as [e|cur] eqn:Hcur.
  { unfold lift. rewrite ebind_inl. apply reads_throw.
    right. by exists f. }
  unfold lift. rewrite ebind_inr.
  destruct (negb (bool_decide (qAfter req = "")) && _) eqn:Hb; [|apply reads_ok; cbn; by rewrite Hb].
  apply reads_throw. right. exists f. by rewrite ?Hb.
Qed.

(** A position to go on from: not past the logs, its producers named in UTF-8. *)
Record resumable (fs : FS) m cur : Prop := {
  rs_within : within fs (mRunID m) (mProducers m) (posAt cur);
  rs_names id : is_Some (cPos cur !! id) -> coerceUTF8 id = id;
}.

(** [resp] is the page after [cur], and [next] where it ends. *)
Record pageOf (fs : FS) m f cur resp next : Prop := {
  po_records : unread fs (mRunID m) f (posAt cur) (mProducers m) =
    respRecords resp ++ unread fs (mRunID m) f (posAt next) (mProducers m);
  po_next : decodeCursor (respNextCursor resp) cursorRun = inr next;
  po_token : respNextCursor resp <> "" /\ cRun next = mRunID m /\ cFilter next = fHash f;
  po_resume : resumable fs m next;
  po_done : respHasMore resp = false -> unread fs (mRunID m) f (posAt next) (mProducers m) = [];
  po_more : respHasMore resp = true -> respRecords resp <> [];
  po_gaps : cGaps next = cGaps cur;
  po_complete : respComplete resp = Complete m && negb (respHasMore resp) && negb (cGaps cur);
}.

Lemma string_take_ascii (P : ascii -> Prop) n s :
  (forall c, c ∈ String.list_ascii_of_string s -> P c) ->
  forall c, c ∈ String.list_ascii_of_string (string_take n s) -> P c.
Proof.
  revert s. induction n as [|n IH]; intros [|d s] Hs c; cbn; set_solver.
Qed.

Lemma filterHash_clean parts : coerceUTF8 (filterHash parts) = filterHash parts.
Proof.
  apply coerceUTF8_valid, ascii_ValidString. unfold filterHash. apply string_take_ascii.
  intros c Hc. match type of Hc with context [sha256_hex ?s] => pose proof (sha256_is_hex s) as Hh end.
  rewrite forallb_forall in Hh. apply list_elem_of_In, Hh in Hc. unfold is_lower_hex, in_range in Hc.
  apply orb_true_iff in Hc as [Hc|Hc]; apply andb_true_iff in Hc as [_ Hc%Z.leb_le]; lia.
Qed.

Lemma filterFor_hash fs m req f :
  filterFor fs m req = inr f -> fHash f = filterHash [qHook req; qInvocationID req].
Proof.
  unfold filterFor. cbv zeta. case_match; [by intros [= <-]|].
  destruct (validateFilterSelectors req); [done|]. case_match; [done|]. by intros [= <-].
Qed.

Lemma readable_ids fs rid ps id : readable fs rid ps -> id ∈ pProducerID <$> ps -> coerceUTF8 id = id.
Proof. intros Hr (ref & -> & Hin)%list_elem_of_fmap. apply ValidID_clean. by apply Hr. Qed.

(** The response made of a page. *)
Lemma response_page fs m req f cur limit maxBytes recs p' :
  readable fs (mRunID m) (mProducers m) -> filterFor fs m req = inr f -> resumable fs m cur ->
  pageRead fs (mRunID m) f (mProducers m) recs
    (newPage limit maxBytes (cPos cur) (cGaps cur)) p' ->
  match response m f p' with
  | inl e => exists c, encodeCursor c = inl e
  | inr resp => exists next, pageOf fs m f cur resp next
  end.
Proof.
  intros Hr Hflt [Hwith Hnames] [Hrec Hun _ Hw Hd Hf Hg Hdom]. cbn in Hrec, Hg.
  change (posOf (newPage _ _ _ _)) with (posAt cur) in Hun.
  unfold response. set (c := mkCursor _ _ _ _ _ _ _ _ _ _).
  destruct (encodeCursor c) as [e|token] eqn:He; [by exists c|].
  destruct (cursor_roundtrip c token) as (Hne & _ & Hdec); [done|by left|done|].
  assert (Hkeys : forall id, is_Some (pgPos p' !! id) -> coerceUTF8 id = id).
  { intros id Hid%elem_of_dom. apply Hdom, elem_of_union in Hid as [Hid|Hid].
    - apply Hnames. by apply elem_of_dom in Hid.
    - apply elem_of_list_to_set in Hid. by eapply readable_ids. }
  assert (Hc : cleanCursor c = c).
  { unfold cleanCursor, c. cbn [cVersion cKind cRun cFilter cPos cGaps cContext cUID cAt cID].
    rewrite (kmap_clean _ Hkeys), (filterFor_hash _ _ _ _ Hflt), filterHash_clean.
    rewrite (ValidID_clean (mRunID m)) by apply Hr. done. }
  rewrite Hc in Hdec. exists c. split; cbn [respRecords respNextCursor respHasMore respComplete]; try done.
  - rewrite Hun, Hrec. done.
  - rewrite Hg. done.
Qed.

Lemma readLimits_pos req limits : readLimits req = inr limits -> 0 < limits.1.
Proof.
  unfold readLimits. destruct (Z.eqb_spec (qLimit req) 0) as [Hz|Hz]; cbv zeta.
  - case_match; [done|]. case_match; [done|]. intros [= <-]. done.
  - destruct ((qLimit req <? 0) || (MaxReadLimit <? qLimit req)) eqn:Hb; [done|].
    apply orb_false_iff in Hb as [Hb%Z.ltb_ge _]. case_match; [done|]. intros [= <-]. cbn. lia.
Qed.

Lemma Read_reads w req m f cur limits :
  served (wFS w) (qRunID req) m -> readLimits req = inr limits ->
  filterFor (wFS w) m req = inr f -> startFor req f = inr cur -> resumable (wFS w) m cur ->
  reads (Read req) w (fun resp => exists next, pageOf (wFS w) m f cur resp next)
    (fun e => exists c, encodeCursor c = inl e).
Proof.
  intros Hs Hlim Hflt Hcur Hres. pose proof (readLimits_pos _ _ Hlim) as Hpos.
  assert (Hr : readable (wFS w) (mRunID m) (mProducers m)) by (rewrite (sv_run _ _ _ Hs); apply Hs).
  unfold Read. rewrite Hlim. unfold lift at 1. rewrite ebind_inr. eapply reads_ebind.
  { eapply reads_weaken; [by apply prepareRead_reads|]. intros e [He|(f' & Hf' & He)]; congruence. }
  intros w1 plan [[Hf1 _] _] (Hm & Hf' & Hc').
  assert (plF plan = f) as -> by congruence. assert (plCur plan = cur) as -> by congruence.
  rewrite Hm. cbv zeta. eapply reads_ebind.
  { apply (readProducers_reads w1); [by rewrite Hf1| |done|done]. rewrite Hf1. exact (rs_within _ _ _ Hres). }
  intros w2 p' _ [recs Hp]. rewrite Hf1 in Hp. apply reads_lift. by eapply response_page.
Qed.

(** C8: A page of [Read] from a position of a sound run holds exactly the next
    accepted records of its producers, in order, and the page token it returns
    is the position right behind them: nothing is lost or shown twice.  A page
    that announces more is never empty, the page that does not is the last, and
    the page claims completeness only for a complete run read to its end without
    a gap.  The store is not changed; without failing system calls the only
    error is a token over the cursor bounds. *)
Theorem Read_page w req m f cur limits :
  served (wFS w) (qRunID req) m -> readLimits req = inr limits ->
  filterFor (wFS w) m req = inr f -> startFor req f = inr cur -> resumable (wFS w) m cur ->
  sameStore w (Read req w).1 /\
  match (Read req w).2 with
  | inr resp => exists next, pageOf (wFS w) m f cur resp next
  | inl e => wFaults w <> [] \/ exists c, encodeCursor c = inl e
  end.
Proof.
  intros Hs Hlim Hflt Hcur Hres. destruct (Read_reads w req m f cur limits) as [[Hc _] Hr]; try done.
Qed.

(** ** Following the tokens *)

Lemma startFor_next fs m f cur resp next flags runID :
  pageOf fs m f cur resp next -> mRunID m = runID ->
  startFor (request flags runID (respNextCursor resp)) f = inr next.
Proof.
  intros Hp Hrun. unfold startFor. cbn [request qAfter qRunID]. rewrite (po_next _ _ _ _ _ _ Hp).
  destruct (po_token _ _ _ _ _ _ Hp) as (_ & -> & ->). rewrite Hrun.
  rewrite (bool_decide_true (runID = runID)), (bool_decide_true (fHash f = fHash f)) by done.
  by rewrite andb_false_r.
Qed.

Lemma served_sameStore w w' runID m : sameStore w w' -> served (wFS w) runID m -> served (wFS w') runID m.
Proof. by intros [-> _]. Qed.

(** C9: Following the page tokens terminates: without failing system calls
    [drain] needs at most one page more than there are records left, and the
    pages together hold every accepted record behind the start position exactly
    once and in order; the only error is a token over the cursor bounds. *)
Theorem drain_complete flags runID m f limits : forall fuel w after cur,
  wFaults w = [] -> served (wFS w) runID m ->
  readLimits (request flags runID "") = inr limits ->
  filterFor (wFS w) m (request flags runID "") = inr f ->
  startFor (request flags runID after) f = inr cur -> resumable (wFS w) m cur ->
  (length (unread (wFS w) (mRunID m) f (posAt cur) (mProducers m)) < fuel)%nat ->
  exists r, (drain fuel flags runID after w).2 = Some r /\
    match r with
    | inl e => exists c, encodeCursor c = inl e
    | inr (pages, _) =>
        concat (map respRecords pages) = unread (wFS w) (mRunID m) f (posAt cur) (mProducers m) /\
        (respHasMore <$> last pages) = Some false
    end.
Proof.
  induction fuel as [|fuel IH]; intros w after cur Hw Hs Hlim Hflt Hcur Hres Hfuel; [lia|].
  destruct (Read_reads w (request flags runID after) m f cur limits) as [Hcalm Hread]; [done..|].
  cbn [drain]. unfold bind. destruct (Read (request flags runID after) w) as [w1 [e|resp]]; cbn [fst snd] in *.
  { destruct Hread as [Hn|He]; [done|]. by exists (inl e). }
  destruct Hread as [next Hpage]. destruct Hcalm as [Hsame Hcalm]. specialize (Hcalm Hw).
  destruct (respHasMore resp) eqn:Hmore; cbn [ret fst snd].
  - assert (Hlt : (length (unread (wFS w) (mRunID m) f (posAt next) (mProducers m)) < fuel)%nat).
    { pose proof (po_records _ _ _ _ _ _ Hpage) as Hrec. apply (f_equal length) in Hrec.
      rewrite length_app in Hrec. pose proof (po_more _ _ _ _ _ _ Hpage Hmore) as Hne.
      destruct (respRecords resp); [done|]. cbn in Hrec. lia. }
    destruct (IH w1 (respNextCursor resp) next) as (r & Hr & Hspec); rewrite ?(proj1 Hsame); try done.
    + by eapply startFor_next; [|apply (sv_run _ _ _ Hs)].
    + by apply (po_resume _ _ _ _ _ _ Hpage).
    + destruct (drain fuel flags runID (respNextCursor resp) w1) as [w2 o]. cbn [fst snd] in *. subst o.
      destruct r as [e|[pages tok]]; [by exists (inl e)|]. eexists. split; [done|]. cbn beta iota.
      rewrite (proj1 Hsame) in Hspec. destruct Hspec as [Hcat Hlast]. split.
      * cbn [map concat]. by rewrite Hcat, <- (po_records _ _ _ _ _ _ Hpage).
      * by destruct pages.
  - eexists. split; [done|]. cbn beta iota. split; [|by rewrite <- Hmore].
    cbn [map concat]. rewrite (po_records _ _ _ _ _ _ Hpage), (po_done _ _ _ _ _ _ Hpage Hmore). done.
Qed.
End Paging.
