(* ===== verification/LogMirror.v ===== *)
(** Mirroring of workspace logs (src/pkg/workspacelogs/mirror.go): reading a
    producer's records in batches at their source, and the sink that takes such
    batches in at the next host. *)
From S2P Require Import Prelude GoStd GoText LogTypes LogManifest LogFS LogStore LogSegment.
From S2P Require Import LogCursor LogAck LogRetention LogReader.

Definition ErrSourceGap := Sentinel "workspacelogs.ErrSourceGap" "source records are not retained".

(** ** Reading at the source *)

Record batchCollector := mkCollector {
  bcProducerID : string;
  bcAfter : Z;
  bcMaxBytes : Z;
  bcUsed : Z;
  bcOut : list LogRecord;
  bcBroken : bool;
}.
Definition setBroken (b : batchCollector) : batchCollector :=
  mkCollector (bcProducerID b) (bcAfter b) (bcMaxBytes b) (bcUsed b) (bcOut b) true.
Definition pushOut (rec : LogRecord) (size : Z) (b : batchCollector) : batchCollector :=
  mkCollector (bcProducerID b) (bcAfter b) (bcMaxBytes b) (bcUsed b + size) (bcOut b ++ [rec])
    (bcBroken b).

Definition gapOrBatch (out : list LogRecord) (broken : bool) : goerr + list LogRecord :=
  if broken && bool_decide (out = []) then inl ErrSourceGap else inr out.

Section Source.
Context `{JSON LogRecord}.

(** A record without a time is the zero time of this model, 0. *)
Definition add (rec : LogRecord) (b : batchCollector) : batchCollector * bool :=
  if negb (rSequence rec =? u64 (bcAfter b + Z.of_nat (length (bcOut b)) + 1)) || (rTime rec =? 0)
  then (setBroken b, true)
  else match Marshal rec with
       | None => (b, true)
       | Some data =>
           if (bcMaxBytes b <? bcUsed b + len data) && negb (bool_decide (bcOut b = []))
           then (b, true)
           else (pushOut rec (len data) b, false)
       end.

Definition wanted (b : batchCollector) (rec : LogRecord) : bool :=
  bool_decide (rProducerID rec = bcProducerID b) && (bcAfter b <? rSequence rec).
Fixpoint collect (page : list LogRecord) (b : batchCollector) : batchCollector * bool :=
  match page with
  | [] => (b, false)
  | rec :: rest =>
      if wanted b rec then
        let '(b', full) := add rec b in
        if (full : bool) then (b', true) else collect rest b'
      else collect rest b
  end.

Context `{JSON RunManifest} `{JSON cursor} `{SHA256}.

Definition sourceRequest (runID after : string) : ReadRequest :=
  mkReadRequest runID "" "" after MaxReadLimit 0.

(** The loop over the pages; [None] is a loop that needs more than [fuel] of
    them. *)
Fixpoint readLoop (fuel : nat) (runID token : string) (b : batchCollector)
    : St (option (goerr + list LogRecord)) :=
  match fuel with
  | O => ret None
  | S fuel' =>
      let* r := Read (sourceRequest runID token) in
      match r with
      | inl e => ret (Some (inl e))
      | inr resp =>
          let '(b', full) := collect (respRecords resp) b in
          if (full : bool) then ret (Some (gapOrBatch (bcOut b') (bcBroken b')))
          else if negb (respHasMore resp) then ret (Some (inr (bcOut b')))
          else readLoop fuel' runID (respNextCursor resp) b'
      end
  end.

Definition ReadAfter (fuel : nat) (runID producerID : string) (after maxBytes : Z)
    : St (option (goerr + list LogRecord)) :=
  readLoop fuel runID "" (mkCollector producerID after maxBytes 0 [] false).
End Source.

(** ** The sink *)

(** [MirrorUnset] is the empty text of a result that was never set. *)
Inductive MirrorResult := MirrorUnset | MirrorAccepted | MirrorRetentionGap | MirrorRejected.
#[export] Instance MirrorResult_eq_dec : EqDecision MirrorResult.
Proof. solve_decision. Defined.

Record BatchRequest := mkBatch {
  brSchemaVersion : Z;
  brRunID : string;
  brProducerID : string;
  brFirstSequence : Z;
  brLastSequence : Z;
  brRecords : list string;
}.
Record BatchResult := mkBatchResult {
  btResult : MirrorResult;
  btAccepted : Z;
  btGapFirst : Z;
  btGapLast : Z;
  btDetail : string;
}.

Definition batchOverhead : Z := 1024.

(** Whether the options name a store, an acknowledgement store and a callback;
    the stores themselves are the ones of the world the sink runs in. *)
Record SinkOptions := mkSinkOptions {
  soStore : bool;
  soSpec : RunSpec;
  soAcks : bool;
  soOnAccepted : bool;
}.
(** [siCalls] lists the calls of [OnAccepted], the last one first. *)
Record Sink := mkSink {
  siOpts : SinkOptions;
  siKnown : gset string;
  siCalls : list (string * Z);
}.
Definition know (producerID : string) (s : Sink) : Sink :=
  mkSink (siOpts s) ({[producerID]} ∪ siKnown s) (siCalls s).
Definition called (producerID : string) (accepted : Z) (s : Sink) : Sink :=
  mkSink (siOpts s) (siKnown s) ((producerID, accepted) :: siCalls s).
Definition RunID (s : Sink) : string := sRunID (soSpec (siOpts s)).

Definition rejected (accepted : Z) (detail : string) : BatchResult :=
  mkBatchResult MirrorRejected accepted 0 0 detail.
Definition accepted (n : Z) : BatchResult := mkBatchResult MirrorAccepted n 0 0 "".
Definition noResult : BatchResult := mkBatchResult MirrorUnset 0 0 0 "".

Definition inboundKey (req : BatchRequest) : AckKey :=
  mkAckKey (brRunID req) (brProducerID req) HopInbound.

(** The reason for which a batch is refused; the empty text when it is not. *)
Definition checkHeader (s : Sink) (req : BatchRequest) : string :=
  let n := Z.of_nat (length (brRecords req)) in
  if negb (brSchemaVersion req =? SchemaVersion) then "unsupported schema version"
  else if negb (bool_decide (brRunID req = RunID s)) then "unexpected run"
  else if negb (ValidID (brProducerID req)) then "invalid producer"
  else if (n =? 0) || (brFirstSequence req =? 0) || (brLastSequence req <? brFirstSequence req) ||
          negb (u64 (brLastSequence req - brFirstSequence req + 1) =? n)
  then "inconsistent sequence range"
  else "".

Section Sink.
Context `{JSON LogRecord} `{JSON RunManifest} `{JSON AckState} `{IDSource}.

Definition NewSink (opts : SinkOptions) : St (goerr + Sink) :=
  if negb (soStore opts) || bool_decide (sRunID (soSpec opts) = "")
  then throw (wrap ErrInvalidRecord "sink needs a store and a run ID" [])
  else let! _ := CreateRun (soSpec opts) in ok (mkSink opts ∅ []).

Definition decodeRecord (raw : string) (req : BatchRequest) (i : Z) : string + LogRecord :=
  match Unmarshal raw with
  | None => inl "undecodable record"
  | Some rec =>
      if negb (bool_decide (rRunID rec = brRunID req)) ||
         negb (bool_decide (rProducerID rec = brProducerID req)) ||
         negb (rSequence rec =? u64 (brFirstSequence req + i))
      then inl "record identity does not match the batch"
      else match Validate rec with
           | Some e => inl (error_text e)
           | None =>
               if negb (bool_decide (rKind rec = KindOutput)) && (MaxMetadataBytes <? len raw)
               then inl "metadata record is too large"
               else inr rec
           end
  end.

Fixpoint decodeRecords (req : BatchRequest) (i total : Z) (raws : list string)
    : string + list LogRecord :=
  match raws with
  | [] => inr []
  | raw :: rest =>
      if MaxPageBytes <? total + len raw then inl "batch exceeds page size"
      else match decodeRecord raw req i with
           | inl reason => inl reason
           | inr rec =>
               match decodeRecords req (i + 1) (total + len raw) rest with
               | inl reason => inl reason
               | inr recs => inr (rec :: recs)
               end
           end
  end.

Definition decode (s : Sink) (req : BatchRequest) : string + list LogRecord :=
  let reason := checkHeader s req in
  if bool_decide (reason = "") then decodeRecords req 0 batchOverhead (brRecords req)
  else inl reason.

Definition excluded (s : Sink) (req : BatchRequest) : St (option BatchResult) :=
  if negb (soAcks (siOpts s)) then ret None
  else
    let* r := ackLoad (inboundKey req) in
    ret (match r with
         | inl _ => None
         | inr st =>
             if negb (sGapped st) then None
             else
               let first := Z.max (brFirstSequence req) (u64 (sAcked st + 1)) in
               let detail := "producer excluded by retention" in
               if brLastSequence req <? first
               then Some (mkBatchResult MirrorRetentionGap (sAcked st) (sGapFirst st) (sGapLast st) detail)
               else Some (mkBatchResult MirrorRetentionGap (brLastSequence req) first
                            (brLastSequence req) detail)
         end).

Definition persisted (req : BatchRequest) (n : Z) (s : Sink) : St Sink :=
  if n =? 0 then ret s
  else
    let* _ := (if soAcks (siOpts s) then Advance (inboundKey req) n else ok tt) in
    ret (if soOnAccepted (siOpts s) then called (brProducerID req) n s else s).

Definition gap (req : BatchRequest) (n : Z) (s : Sink) : St (Sink * BatchResult) :=
  let* s' := persisted req n s in
  let first := Z.max (brFirstSequence req) (u64 (n + 1)) in
  let* _ := AddCondition (brRunID req) ConditionRetentionGap in
  let* _ := (if soAcks (siOpts s') then RecordGap (inboundKey req) first (brLastSequence req)
             else ok tt) in
  ret (s', mkBatchResult MirrorRetentionGap (brLastSequence req) first (brLastSequence req)
             "retention excluded the batch").

Definition withDetail (detail : string) (r : BatchResult) : BatchResult :=
  mkBatchResult (btResult r) (btAccepted r) (btGapFirst r) (btGapLast r) detail.

(** [Some] is [done]: the batch is answered without appending. *)
Definition register (req : BatchRequest) (first : LogRecord) (s : Sink)
    : St (Sink * option (BatchResult * err)) :=
  let producerID := brProducerID req in
  if bool_decide (producerID ∈ siKnown s) then ret (s, None)
  else
    let parent := if bool_decide (rKind first = KindProducer) then rParentProducerID first else "" in
    let* r := RegisterProducer (RunID s)
                (mkProducerRef producerID parent ProducerRunning (rLocation first) false) in
    match r with
    | inr _ => ret (know producerID s, None)
    | inl e =>
        if errorsIs e "workspacelogs.ErrProducerCap" then
          let* sg := gap req 0 s in
          ret (sg.1, Some (withDetail "producer limit reached" sg.2, None))
        else if errorsIs e "workspacelogs.ErrDiscoverySealed" ||
                errorsIs e "workspacelogs.ErrInvalidID"
        then ret (s, Some (rejected 0 (error_text e), None))
        else ret (s, Some (noResult, Some e))
    end.

Definition outcome (req : BatchRequest) (res : AppendResult) (e : err) (s : Sink)
    : St (Sink * (BatchResult * err)) :=
  match e with
  | None => let* s' := persisted req (aAccepted res) s in ret (s', (accepted (aAccepted res), None))
  | Some e' =>
      if errorsIs e' "workspacelogs.ErrSequenceGap" then ret (s, (accepted (aAccepted res), None))
      else if errorsIs e' "workspacelogs.ErrCapacity" then
        let* sg := gap req (aAccepted res) s in ret (sg.1, (sg.2, None))
      else if errorsIs e' "workspacelogs.ErrInvalidRecord" then
        ret (s, (rejected (aAccepted res) (error_text e'), None))
      else let* s' := persisted req (aAccepted res) s in ret (s', (noResult, Some e'))
  end.

(** [Sink.Append] *)
Definition Append (req : BatchRequest) (s : Sink) : St (Sink * (BatchResult * err)) :=
  match decode s req with
  | inl reject => ret (s, (rejected 0 reject, None))
  | inr [] => ret (s, (noResult, None)) (* not reached: a valid header has records *)
  | inr (first :: rest) =>
      let* ex := excluded s req in
      match ex with
      | Some r => ret (s, (r, None))
      | None =>
          let* reg := register req first s in
          match reg.2 with
          | Some answer => ret (reg.1, answer)
          | None =>
              let* res := LogSegment.Append (first :: rest) in
              outcome req res.1 res.2 reg.1
          end
      end
  end.
End Sink.
