(* ===== verification/LogSender.v ===== *)
(** Sending workspace logs to the next host: the server side of the call
    (src/pkg/agent/tunnelserver/setup_logs.go), the sender
    (src/pkg/agent/tunnel/setup_log_sender.go), and the network between them,
    which loses, delays and repeats calls. *)
From S2P Require Import Prelude GoStd GoText LogTypes LogManifest LogFS LogStore LogSegment.
From S2P Require Import LogCursor LogAck LogRetention LogReader LogMirror.

(** ** The call *)

Inductive SetupLogResult :=
| SETUP_LOG_RESULT_UNSPECIFIED
| SETUP_LOG_RESULT_ACCEPTED
| SETUP_LOG_RESULT_RETENTION_GAP
| SETUP_LOG_RESULT_REJECTED_INVALID.

Record AppendSetupLogsResponse := mkLogsResponse {
  rsAcceptedSequence : Z;
  rsResult : SetupLogResult;
  rsGapFirstSequence : Z;
  rsGapLastSequence : Z;
  rsDetail : string;
}.

(** The status of a call without a response. *)
Inductive status := Unimplemented | Unavailable.

Definition protoResult (r : MirrorResult) : SetupLogResult :=
  match r with
  | MirrorAccepted => SETUP_LOG_RESULT_ACCEPTED
  | MirrorRetentionGap => SETUP_LOG_RESULT_RETENTION_GAP
  | _ => SETUP_LOG_RESULT_REJECTED_INVALID
  end.
Definition rejectedBatch (detail : string) : AppendSetupLogsResponse :=
  mkLogsResponse 0 SETUP_LOG_RESULT_REJECTED_INVALID 0 0 detail.

(** The size of a request in protocol buffers ([proto.Size]). *)
Class ProtoSize := protoSize : BatchRequest -> Z.

Section Server.
Context `{JSON LogRecord} `{JSON RunManifest} `{JSON AckState} `{IDSource} `{ProtoSize}.

(** [tunnelServer.AppendSetupLogs]; the server may have no sink. *)
Definition AppendSetupLogs (req : BatchRequest) (sink : option Sink)
    : St (option Sink * (status + AppendSetupLogsResponse)) :=
  match sink with
  | None => ret (None, inl Unimplemented)
  | Some s =>
      if MaxPageBytes <? protoSize req
      then ret (Some s, inr (rejectedBatch "batch exceeds page size"))
      else
        let* r := LogMirror.Append req s in
        let '(s', (res, e)) := r in
        ret (Some s', match e with
                      | Some _ => inl Unavailable
                      | None => inr (mkLogsResponse (btAccepted res) (protoResult (btResult res))
                                       (btGapFirst res) (btGapLast res) (btDetail res))
                      end)
  end.
End Server.

(** ** Two hosts and a network *)

(** What the network does with a call: lose it, lose its answer, or deliver
    both.  A call that was given up may still arrive at any later time. *)
Inductive fate := Lost | AnswerLost | Delivered.

Record SenderOptions := mkSenderOptions {
  dRunID : string;
  dProducerID : string;
  dAcks : bool;
  dHop : string;
}.
Record Sender := mkSender { sdAcked : Z; sdDisabled : bool; sdIncomplete : bool }.

(** [hSrc] and [hDst] are the sending and the receiving host, [hSink] the sink
    of the receiving process, [hSent] every request ever sent, the last one
    first.  The next element of [hCalls] says what happens around the next
    call: what other processes do meanwhile, which earlier requests arrive
    (again), and the fate of the call itself. *)
Record Hosts := mkHosts {
  hSrc : World;
  hDst : World;
  hSink : option Sink;
  hSent : list BatchRequest;
  hSender : Sender;
}.
Record Call := mkCall {
  cMeanwhile : Hosts -> Hosts;
  cRepeated : list nat;
  cFate : fate;
}.
Record Net := mkNet { nHosts : Hosts; nCalls : list Call }.

Definition Prg (A : Type) : Type := Net -> Net * A.
Definition pret {A} (a : A) : Prg A := fun n => (n, a).
Definition pbind {A B} (m : Prg A) (k : A -> Prg B) : Prg B := fun n => let '(n', a) := m n in k a n'.
Notation "'net*' x ':=' m 'in' k" := (pbind m (fun x => k))
  (at level 10, x pattern, m at level 100, k at level 200) : devsy_scope.

Definition withSrc (w : World) (h : Hosts) : Hosts := mkHosts w (hDst h) (hSink h) (hSent h) (hSender h).
Definition withDst (w : World) (s : option Sink) (h : Hosts) : Hosts :=
  mkHosts (hSrc h) w s (hSent h) (hSender h).
Definition withSent (r : BatchRequest) (h : Hosts) : Hosts :=
  mkHosts (hSrc h) (hDst h) (hSink h) (r :: hSent h) (hSender h).
Definition withSender (s : Sender) (h : Hosts) : Hosts :=
  mkHosts (hSrc h) (hDst h) (hSink h) (hSent h) s.
Definition onHosts (f : Hosts -> Hosts) (n : Net) : Net := mkNet (f (nHosts n)) (nCalls n).

Definition modify (f : Hosts -> Hosts) : Prg unit := fun n => (onHosts f n, tt).
Definition look {A} (f : Hosts -> A) : Prg A := fun n => (n, f (nHosts n)).
(** Run a program of the store on the sending host. *)
Definition atSource {A} (m : St A) : Prg A := fun n =>
  let r := m (hSrc (nHosts n)) in (onHosts (withSrc r.1) n, r.2).

Section Network.
Context `{JSON LogRecord} `{JSON RunManifest} `{JSON AckState} `{IDSource} `{ProtoSize}.

(** A request arrives at the receiving host. *)
Definition arrive (req : BatchRequest) (h : Hosts) : Hosts * (status + AppendSetupLogsResponse) :=
  let '(w, (s, r)) := AppendSetupLogs req (hSink h) (hDst h) in (withDst w s h, r).

Definition arriveAgain (h : Hosts) (i : nat) : Hosts :=
  match hSent h !! i with Some req => (arrive req h).1 | None => h end.

(** A call of the client; [None] is an error that is not a status of the
    server. *)
Definition invoke (req : BatchRequest) : Prg (option (status + AppendSetupLogsResponse)) := fun n =>
  let c := match nCalls n with c :: _ => c | [] => mkCall id [] Delivered end in
  let h := foldl arriveAgain (cMeanwhile c (nHosts n)) (cRepeated c) in
  let h' := withSent req h in
  let calls := List.tl (nCalls n) in
  match cFate c with
  | Lost => (mkNet h' calls, None)
  | AnswerLost => (mkNet (arrive req h').1 calls, None)
  | Delivered => let '(h'', r) := arrive req h' in (mkNet h'' calls, Some r)
  end.
End Network.

(** ** The sender *)

Definition batchReserve : Z := 4 * 1024.
Definition errNoProgress := Errorf "peer acknowledged no new records" [].

Definition ackKey (o : SenderOptions) : AckKey := mkAckKey (dRunID o) (dProducerID o) (dHop o).
Definition setAcked (acked : Z) (s : Sender) : Sender := mkSender acked (sdDisabled s) (sdIncomplete s).
Definition setDisabled (s : Sender) : Sender := mkSender (sdAcked s) true (sdIncomplete s).
Definition setIncomplete (s : Sender) : Sender := mkSender (sdAcked s) (sdDisabled s) true.

Definition modifySender (f : Sender -> Sender) : Prg unit :=
  modify (fun h => withSender (f (hSender h)) h).
Definition sender : Prg Sender := look hSender.

(** Backoff in milliseconds. *)
Definition maxRetryBackoff : Z := 5000.
Definition nextBackoff (cur : Z) (e : err) : Z :=
  match e with
  | None => 0
  | Some _ => if cur =? 0 then 100 else Z.min (cur * 2) maxRetryBackoff
  end.

Section Sending.
Context `{JSON LogRecord} `{JSON RunManifest} `{JSON AckState} `{IDSource} `{ProtoSize}.
Context `{JSON cursor} `{SHA256}.
Variable o : SenderOptions.

(** The start of [NewSetupLogSender]: the position of an earlier sender. *)
Definition NewSetupLogSender : Prg unit :=
  if negb (dAcks o) then modify (withSender (mkSender 0 false false))
  else
    net* r := atSource (ackLoad (ackKey o)) in
    modify (withSender (match r with
                        | inr st => mkSender (sAcked st) false (sGapped st)
                        | inl _ => mkSender 0 false false
                        end)).

Fixpoint marshalAll (records : list LogRecord) : option (list string) :=
  match records with
  | [] => Some []
  | rec :: rest =>
      match Marshal rec, marshalAll rest with
      | Some data, Some datas => Some (data :: datas)
      | _, _ => None
      end
  end.

(** The first and the last of [records] are those of a list that is not empty. *)
Definition buildRequest (runID producerID : string) (records : list LogRecord)
    : goerr + BatchRequest :=
  match marshalAll records with
  | None => inl (Errorf "encode record: %w" [AErr jsonError])
  | Some datas =>
      inr (mkBatch SchemaVersion runID producerID
             (default 0 (rSequence <$> head records)) (default 0 (rSequence <$> last records)) datas)
  end.

Definition advance (acked : Z) : Prg err :=
  net* s := sender in
  if sdAcked s <? acked then
    net* _ := modifySender (setAcked acked) in
    if dAcks o then net* r := atSource (Advance (ackKey o) acked) in pret (errOf r)
    else pret None
  else pret (Some errNoProgress).

Definition apply (req : BatchRequest) (resp : AppendSetupLogsResponse) : Prg err :=
  let accepted := Z.min (rsAcceptedSequence resp) (brLastSequence req) in
  match rsResult resp with
  | SETUP_LOG_RESULT_ACCEPTED => advance accepted
  | SETUP_LOG_RESULT_RETENTION_GAP =>
      net* _ := modifySender setIncomplete in
      let last := Z.min (rsGapLastSequence resp) (brLastSequence req) in
      net* _ := (if dAcks o
                 then net* _ := atSource (RecordGap (ackKey o) (rsGapFirstSequence resp) last) in pret tt
                 else pret tt) in
      advance (Z.max accepted last)
  | _ =>
      net* _ := modifySender (fun s => setDisabled (setIncomplete s)) in
      pret None
  end.

Definition callFailed := Errorf "rpc error" [].

Definition send (records : list LogRecord) : Prg err :=
  match buildRequest (dRunID o) (dProducerID o) records with
  | inl e =>
      net* _ := modifySender (fun s => setDisabled (setIncomplete s)) in
      pret (Some e)
  | inr req =>
      net* r := invoke req in
      match r with
      | Some (inl Unimplemented) => net* _ := modifySender setDisabled in pret None
      | Some (inl Unavailable) | None => pret (Some callFailed)
      | Some (inr resp) => apply req resp
      end
  end.

(** The loop of [drain]; [pages] is the fuel of [ReadAfter]. *)
Fixpoint drain (fuel pages : nat) : Prg (option (bool * err)) :=
  match fuel with
  | O => pret None
  | S fuel' =>
      net* s := sender in
      if sdDisabled s then pret (Some (false, None))
      else
        net* r := atSource (ReadAfter pages (dRunID o) (dProducerID o) (sdAcked s)
                              (MaxPageBytes - batchReserve)) in
        match r with
        | None => pret None
        | Some (inl e) =>
            if errorsIs e "workspacelogs.ErrSourceGap" then
              net* _ := modifySender (fun s => setDisabled (setIncomplete s)) in
              pret (Some (false, None))
            else pret (Some (false, Some (Errorf "read source: %w" [AErr e])))
        | Some (inr []) => pret (Some (true, None))
        | Some (inr (rec :: rest)) =>
            net* e := send (rec :: rest) in
            match e with
            | Some e' => pret (Some (false, Some e'))
            | None => drain fuel' pages
            end
        end
  end.

Definition drainOnce (fuel pages : nat) : Prg (option bool) :=
  net* r := drain fuel pages in
  match r with
  | None => pret None
  | Some (done, e) =>
      net* s := sender in
      pret (Some (bool_decide (e = None) && done || sdDisabled s))
  end.

(** One wake-up of the worker ([workerDrain]); [false] ends the worker.
    [locked] says whether the drain lock was taken before the sender was
    closed. *)
Definition workerDrain (fuel pages : nat) (locked : bool) : Prg (option (bool * err)) :=
  net* s := sender in
  if sdDisabled s || negb locked then pret (Some (false, None))
  else
    net* r := drain fuel pages in
    pret (match r with Some (_, e) => Some (true, e) | None => None end).

(** The worker over the wake-ups that come before it is closed. *)
Fixpoint worker (fuel pages wakeups : nat) : Prg (option unit) :=
  match wakeups with
  | O => pret (Some tt)
  | S wakeups' =>
      net* r := workerDrain fuel pages true in
      match r with
      | None => pret None
      | Some (false, _) => pret (Some tt)
      | Some (true, _) => worker fuel pages wakeups'
      end
  end.

(** The loop of [Flush]; [retries] is the number of pauses before its deadline. *)
Fixpoint flushLoop (fuel pages retries : nat) : Prg (option bool) :=
  net* r := drainOnce fuel pages in
  match r with
  | None => pret None
  | Some true =>
      net* s := sender in pret (Some (negb (sdIncomplete s) && negb (sdDisabled s)))
  | Some false =>
      net* s := sender in
      if sdDisabled s then pret (Some false)
      else match retries with
           | O => pret (Some false)
           | S retries' => flushLoop fuel pages retries'
           end
  end.

Definition Flush (fuel pages retries : nat) (locked : bool) : Prg (option bool) :=
  net* s := sender in
  if sdDisabled s then pret (Some false)
  else if negb locked then pret (Some false)
  else flushLoop fuel pages retries.
End Sending.
