(* ===== verification/LogSink.v ===== *)
(** The sink against the log it fills: what a batch leaves in the store, that
    batches cut from a log only ever build a copy of it, and what the sink does
    to the store of its host for every batch a peer may send. *)
From S2P Require Import Prelude GoStd GoText LogTypes LogManifest LogFS LogStore LogSegment LogDisk LogDurable LogSystem LogCursor LogAck LogRetention LogReader LogMirror.

(** ** Copies of records *)

(** The record another host stores for [r]: itself, or without its text when
    that host is short of space. *)
Definition copied (r r' : LogRecord) : Prop := r' = r \/ (rKind r = KindOutput /\ r' = elide r).

(** Records as a store holds them: storing one again changes nothing. *)
Definition settled (r : LogRecord) : Prop := cleanRecord (withBytes r) = r.

Lemma cleanRecord_idem r : cleanRecord (cleanRecord r) = cleanRecord r.
Proof. unfold cleanRecord. cbn. by rewrite !coerceUTF8_idem. Qed.
Lemma cleanRecord_elide r : cleanRecord (elide r) = elide (cleanRecord r).
Proof. reflexivity. Qed.
Lemma elide_elide r : elide (elide r) = elide r.
Proof. reflexivity. Qed.

Lemma settled_clean r : settled r -> cleanRecord r = r.
Proof. unfold settled. intros Hr. rewrite <- Hr at 1. by rewrite cleanRecord_idem. Qed.

Lemma settled_copied r s : settled r -> storedAs r s -> copied r (cleanRecord s).
Proof.
  intros Hr [->|[Hk ->]]; [by left|right]. split; [done|]. by rewrite cleanRecord_elide, Hr.
Qed.

Lemma withBytes_settled r :
  (rKind r = KindOutput -> rBytes r = 0 -> rText r = "") -> withBytes r = r.
Proof.
  unfold withBytes. case_bool_decide as Hk; [|done]. destruct (Z.eqb_spec (rBytes r) 0) as [Hb|]; [|done].
  intros Ht. specialize (Ht Hk Hb). cbn [andb]. destruct r. cbn in *. by subst.
Qed.

(** What the writer stores of a valid record is settled. *)
Lemma storedAs_settled r s : Validate r = None -> storedAs r s -> settled (cleanRecord s).
Proof.
  intros Hv Hs. destruct (storedAs_fields _ _ Hs) as (_ & _ & _ & Hk & Hvs). specialize (Hvs Hv).
  destruct (cleanRecord_ids _ Hvs) as (_ & _ & Hkc). unfold settled.
  rewrite withBytes_settled; [apply cleanRecord_idem|]. rewrite Hkc. cbn [cleanRecord rBytes rText].
  intros Hout Hb. apply coerceUTF8_empty. rewrite Hout in Hk. revert Hb.
  assert (Hr : rBytes (withBytes r) = 0 -> rText (withBytes r) = "").
  { unfold withBytes. rewrite <- Hk, bool_decide_true by done. cbn [andb].
    destruct (Z.eqb_spec (rBytes r) 0); [|done]. cbn [setBytes rBytes rText].
    unfold len. destruct (rText r); [done|]. cbn [String.length]. lia. }
  by destruct Hs as [->|[_ ->]].
Qed.

(** ** Logs and batches cut from them *)

Section Batches.
Context `{JSONLaws LogRecord (clean := cleanRecord)} (rid pid : string).
Implicit Types (log recs : list LogRecord).

Lemma logOK_contiguous fs : logOK fs rid pid -> contiguous rid pid 1 (storedLog fs rid pid).
Proof. intros [L HL]. eapply chain_contiguous, (st_chain _ _ _ _ _ HL). Qed.

Lemma contiguous_seq log i r :
  contiguous rid pid 1 log -> log !! i = Some r -> rSequence r = Z.of_nat i + 1.
Proof. intros Hc Hi. destruct (Hc i r Hi). lia. Qed.

(** [recs] is cut from [log]. *)
Definition cutFrom log recs : Prop := exists l1 l2, log = l1 ++ recs ++ l2.

Lemma cutFrom_prefix log log' recs : log `prefix_of` log' -> cutFrom log recs -> cutFrom log' recs.
Proof. intros [l ->] (l1 & l2 & ->). exists l1, (l2 ++ l). by rewrite <- !app_assoc. Qed.
Lemma cutFrom_lookup log recs r : cutFrom log recs -> r ∈ recs -> exists i, log !! i = Some r.
Proof. intros (l1 & l2 & ->) Hin. apply list_elem_of_lookup. set_solver. Qed.

(** [dst] copies the beginning of [src]. *)
Definition copies src dst : Prop := exists l, l `prefix_of` src /\ Forall2 copied l dst.

Lemma copies_length src dst : copies src dst -> (length dst <= length src)%nat.
Proof. intros (l & Hl & Hc). rewrite <- (Forall2_length _ _ _ Hc). by apply prefix_length. Qed.
Lemma copies_grow src src' dst : src `prefix_of` src' -> copies src dst -> copies src' dst.
Proof. intros Hs (l & Hl & Hc). exists l. split; [by trans src|done]. Qed.
Lemma copies_all src dst : copies src dst -> (length src <= length dst)%nat -> Forall2 copied src dst.
Proof.
  intros (l & [k ->] & Hc) Hl. rewrite length_app, (Forall2_length _ _ _ Hc) in Hl.
  destruct k; [by rewrite app_nil_r|]. cbn in Hl. lia.
Qed.
Lemma copies_nil src : copies src [].
Proof. exists []. split; [apply prefix_nil|done]. Qed.

Lemma copies_snoc src dst r r' :
  copies src dst -> src !! length dst = Some r -> copied r r' -> copies src (dst ++ [r']).
Proof.
  intros (l & [k ->] & Hc) Hr Hcp. pose proof (Forall2_length _ _ _ Hc) as Hl.
  rewrite <- Hl, lookup_app_r, Nat.sub_diag in Hr by lia. destruct k as [|x k]; [done|]. simplify_eq/=.
  exists (l ++ [r]). split; [|apply Forall2_app; auto]. exists k. by rewrite <- app_assoc.
Qed.

(** A store that holds a copy and takes in a batch cut from the source holds a
    longer copy: the records of a log say where they belong. *)
Lemma copies_extend src dst batch stored :
  contiguous rid pid 1 src -> Forall settled src -> cutFrom src batch ->
  contiguous rid pid 1 (dst ++ map cleanRecord stored) -> copies src dst ->
  Forall2 storedAs (take (length stored) (missing dst batch)) stored ->
  Forall (fun r => Validate r = None) batch ->
  copies src (dst ++ map cleanRecord stored).
Proof.
  intros Hsrc Hset Hcut Hdst Hcp Hst Hval.
  assert (Hin : forall r, r ∈ take (length stored) (missing dst batch) -> r ∈ batch).
  { intros r Hr%subseteq_take. unfold missing in Hr. by apply list_elem_of_filter in Hr as [_ Hr]. }
  revert Hin Hst. generalize (take (length stored) (missing dst batch)) as todo. intros todo Hin Hst.
  revert dst Hdst Hcp. induction Hst as [|r s todo stored Hrs Hst IH]; intros dst Hdst Hcp.
  { by rewrite app_nil_r. }
  cbn [map] in Hdst |- *. rewrite cons_middle, app_assoc in Hdst |- *.
  apply IH; [set_solver|done|]. assert (Hr : r ∈ batch) by set_solver.
  destruct (cutFrom_lookup _ _ _ Hcut Hr) as (i & Hi). rewrite Forall_forall in Hval, Hset.
  eapply copies_snoc; [done| |apply settled_copied; [|exact Hrs]].
  - destruct (storedAs_fields _ _ Hrs) as (Hseq & _). pose proof (contiguous_seq _ _ _ Hsrc Hi) as Hri.
    assert (Hsi : rSequence (cleanRecord s) = Z.of_nat (length dst) + 1).
    { eapply (contiguous_seq _ (length dst)); [exact Hdst|].
      by rewrite lookup_app_l, lookup_app_r, Nat.sub_diag by (rewrite ?length_app; cbn; lia). }
    cbn [cleanRecord rSequence] in Hsi. assert (length dst = i) as -> by lia. done.
  - apply Hset. by eapply list_elem_of_lookup_2.
Qed.
End Batches.

(** ** Acknowledgements touch no log *)

Section AckFiles.
Context `{JSON AckState}.

Definition ackFile (p : path) : Prop := exists name, p = ackDir ++ [name].
Lemma ackFile_other p : ackFile p -> otherFile p.
Proof. intros [name ->] rid pid. split; [by intros (n & ? & _)|done]. Qed.

Lemma replaced_ackFile name p : replaced ackDir "ack-" name p -> ackFile p.
Proof. intros [->|[k ->]]; by eexists. Qed.

Lemma touches_ackLoad P key : touches P (ackLoad key).
Proof. unfold ackLoad, lift, readSmallFile. touch. Qed.
Lemma touches_ackWrite st : touches ackFile (ackWrite st).
Proof.
  unfold ackWrite, lift. apply touches_ebind; [apply touches_ret|]. intros _.
  case_match; [|apply touches_ret].
  eapply touches_mono; [|apply touches_replaceFile]. apply replaced_ackFile.
Qed.
Lemma touches_ackUpdate key fn : touches ackFile (ackUpdate key fn).
Proof. apply touches_ebind; [apply touches_ackLoad|]. intros. apply touches_ackWrite. Qed.

Lemma harmless_ackLoad key : harmless (ackLoad key).
Proof. apply (harmless_touches (fun _ => False)); [done|]. apply touches_ackLoad. Qed.
Lemma harmless_Advance key n : harmless (Advance key n).
Proof. apply (harmless_touches _ _ ackFile_other), touches_ackUpdate. Qed.
Lemma harmless_RecordGap key first last : harmless (RecordGap key first last).
Proof. apply (harmless_touches _ _ ackFile_other), touches_ackUpdate. Qed.
End AckFiles.
#[export] Hint Resolve harmless_ackLoad harmless_Advance harmless_RecordGap
  harmless_RegisterProducer : quiet.

(** ** Decoding a batch *)

Section Decoding.
Context `{JSONLaws LogRecord (clean := cleanRecord)}.

Lemma decodeRecord_inr raw req i rec :
  decodeRecord raw req i = inr rec ->
  Unmarshal raw = Some rec /\ Validate rec = None /\ rRunID rec = brRunID req /\
  rProducerID rec = brProducerID req /\ rSequence rec = u64 (brFirstSequence req + i).
Proof.
  unfold decodeRecord. destruct (Unmarshal raw) as [r|]; [|done].
  destruct (_ || _) eqn:Hb; [done|]. destruct (Validate r) eqn:Hv; [done|]. case_match; [done|].
  intros [= <-]. apply orb_false_iff in Hb as [[Hr Hp]%orb_false_iff Hs].
  apply negb_false_iff in Hr, Hp, Hs. apply bool_decide_eq_true in Hr, Hp. apply Z.eqb_eq in Hs. done.
Qed.

(** The records of a decoded batch: valid, of the run and producer the batch
    names, and what its texts decode to. *)
Record fromBatch (req : BatchRequest) (raws : list string) (recs : list LogRecord) : Prop := {
  fb_decoded : Forall2 (fun raw rec => Unmarshal raw = Some rec) raws recs;
  fb_valid : Forall (fun r => Validate r = None) recs;
  fb_typed : Forall typedRecord recs;
  fb_ids : Forall (fun r => rRunID r = brRunID req /\ rProducerID r = brProducerID req) recs;
}.

Lemma decodeRecords_inr req raws : forall i total recs,
  decodeRecords req i total raws = inr recs -> fromBatch req raws recs.
Proof.
  induction raws as [|raw raws IH]; intros i total recs; cbn [decodeRecords]; [intros [= <-]; by split|].
  case_match; [done|]. destruct (decodeRecord raw req i) as [|rec] eqn:Hd; [done|].
  destruct (decodeRecords _ _ _ raws) as [|recs'] eqn:Hr; [done|]. intros [= <-].
  apply decodeRecord_inr in Hd as (Hu & Hv & Hri & Hpi & Hs). apply IH in Hr as [H1 H2 H3 H4].
  split; constructor; try done. unfold typedRecord. rewrite Hs. apply Z.mod_pos_bound. lia.
Qed.

Lemma decode_inr s req recs : decode s req = inr recs -> fromBatch req (brRecords req) recs.
Proof. unfold decode. case_bool_decide; [|done]. apply decodeRecords_inr. Qed.

(** A batch with a good header has records. *)
Lemma decode_nonempty s req : decode s req <> inr [].
Proof.
  intros Hd. pose proof (decode_inr _ _ _ Hd) as [Hf _ _ _]. revert Hd. unfold decode.
  case_bool_decide as Hh; [|done]. intros _. apply Forall2_nil_inv_r in Hf. revert Hh. unfold checkHeader.
  rewrite Hf. cbn. repeat case_match; try done.
Qed.
End Decoding.

(** ** Taking in a batch *)

Section Taking.
Context `{JSONLaws LogRecord (clean := cleanRecord)} `{JSON RunManifest} `{JSON AckState} `{IDSource}.
Implicit Types (s : Sink) (req : BatchRequest) (w : World).

Lemma harmless_AddCondition runID c : harmless (AddCondition runID c).
Proof. apply (harmless_runFile runID), touches_AddCondition. Qed.
Lemma harmless_persisted req n s : harmless (persisted req n s).
Proof.
  unfold persisted. case_match; [apply harmless_ret|]. apply harmless_bind; [|intros; apply harmless_ret].
  case_match; [apply harmless_Advance|apply harmless_ret].
Qed.
Lemma harmless_gap req n s : harmless (gap req n s).
Proof.
  unfold gap. apply harmless_bind; [apply harmless_persisted|]. intros s'. cbv zeta.
  apply harmless_bind; [apply harmless_AddCondition|]. intros _.
  apply harmless_bind; [|intros; apply harmless_ret]. case_match; [apply harmless_RecordGap|apply harmless_ret].
Qed.
Lemma harmless_excluded s req : harmless (excluded s req).
Proof.
  unfold excluded. case_match; [apply harmless_ret|].
  apply harmless_bind; [apply harmless_ackLoad|]. intros. apply harmless_ret.
Qed.
Lemma harmless_register req first s : harmless (register req first s).
Proof.
  unfold register. case_bool_decide; [apply harmless_ret|]. cbv zeta.
  apply harmless_bind; [apply harmless_RegisterProducer|]. intros [e|_]; [|apply harmless_ret].
  case_match; [|case_match; apply harmless_ret].
  apply harmless_bind; [apply harmless_gap|]. intros. apply harmless_ret.
Qed.

(** What the sink leaves behind after a batch whose records are [recs]: the log
    is longer by stored forms of missing records, and what it acknowledges as
    accepted is in the log. *)
Definition took (w w' : World) (req : BatchRequest) (recs : list LogRecord) (r : BatchResult) : Prop :=
  (exists applied, extendedBy w w' (brRunID req) (brProducerID req) recs applied) /\
  (btResult r = MirrorAccepted ->
     0 <= btAccepted r <= Z.of_nat (length (storedLog (wFS w') (brRunID req) (brProducerID req)))).

Lemma took_nothing w w' req recs r :
  storeOK w (brRunID req) (brProducerID req) -> quiet w w' -> btResult r <> MirrorAccepted ->
  took w w' req recs r.
Proof. intros Hok Hq Hr. split; [|done]. exists []. by apply quiet_unchanged. Qed.

(** The result of an answer that does not come from appending. *)
Lemma excluded_result s req w :
  match (excluded s req w).2 with Some r => btResult r = MirrorRetentionGap | None => True end.
Proof.
  unfold excluded. destruct (soAcks (siOpts s)); [|done]. unfold bind, ret. cbn [negb fst snd].
  destruct (ackLoad (inboundKey req) w) as [w' [e|st]]; cbn [fst snd]; [done|].
  destruct (sGapped st); cbn [negb]; [|done]. cbv zeta. by destruct (brLastSequence req <? _).
Qed.
Lemma gap_wp req n s w (Q : World -> Sink * BatchResult -> Prop) :
  (forall w' s' r, quiet w w' -> btResult r = MirrorRetentionGap -> Q w' (s', r)) ->
  wp (gap req n s) w Q.
Proof.
  intros HQ. pose proof (harmless_gap req n s w) as Hq. unfold wp. revert Hq. unfold gap, bind, ret.
  cbn [fst snd]. intros Hq. by apply HQ.
Qed.
Lemma register_result req first s w :
  match (register req first s w).2.2 with Some (r, _) => btResult r <> MirrorAccepted | None => True end.
Proof.
  unfold register. case_bool_decide; [done|]. unfold bind. cbv zeta.
  destruct (RegisterProducer _ _ w) as [w' [e|u]]; cbn [fst snd ret]; [|done].
  destruct (errorsIs e _); [done|]. by destruct (_ || _).
Qed.

Lemma outcome_wp req res e s w w1 recs :
  took w w1 req recs (accepted (aAccepted res)) ->
  wp (outcome req res e s) w1 (fun w' r => took w w' req recs r.2.1).
Proof.
  intros [[applied Hext] Hacc]. cbn in Hacc.
  assert (Hlater : forall w' r, quiet w1 w' -> (btResult r = MirrorAccepted -> r = accepted (aAccepted res)) ->
    took w w' req recs r).
  { intros w' r Hq Hr. split.
    - exists applied. destruct Hext as [Ha Hb Hc]. split; [by eapply quiet_storeOK| |done].
      by rewrite (quiet_storedLog _ _ _ _ Hq Ha).
    - intros Ha. rewrite (Hr Ha). cbn [accepted btAccepted].
      rewrite (quiet_storedLog _ _ _ _ Hq (ext_ok _ _ _ _ _ _ Hext)). auto. }
  unfold outcome. destruct e as [e|].
  - destruct (errorsIs e "workspacelogs.ErrSequenceGap"); [by apply wp_ret, Hlater|].
    destruct (errorsIs e "workspacelogs.ErrCapacity").
    { apply wp_bind, gap_wp. intros w' s' r Hq Hr. apply wp_ret, Hlater; [done|]. cbn [fst snd].
      by rewrite Hr. }
    destruct (errorsIs e "workspacelogs.ErrInvalidRecord"); [by apply wp_ret, Hlater|].
    apply wp_bind, harmless_wp; [apply harmless_persisted|]. intros w' s' Hq. by apply wp_ret, Hlater.
  - apply wp_bind, harmless_wp; [apply harmless_persisted|]. intros w' s' Hq. by apply wp_ret, Hlater.
Qed.

(** Appending a batch that was let in. *)
Lemma append_took w w1 w2 req first rest res e :
  fromBatch req (brRecords req) (first :: rest) -> quiet w w1 ->
  storeOK w (brRunID req) (brProducerID req) -> accounted w1 w2 first rest res e ->
  took w w2 req (first :: rest) (accepted (aAccepted res)).
Proof.
  intros [_ _ _ Hids] Hq Hok (applied & Hext & Hacc & _).
  apply Forall_inv in Hids as [Hr Hp]. rewrite Hr, Hp in *. split; [|destruct Hacc as [->|(-> & _)]; cbn; lia].
  exists applied. by eapply quiet_extendedBy.
Qed.

Lemma Append_took req s w :
  storeOK w (brRunID req) (brProducerID req) ->
  wp (LogMirror.Append req s) w (fun w' r =>
    match decode s req with
    | inl reason => w' = w /\ r.2 = (rejected 0 reason, None)
    | inr recs => took w w' req recs r.2.1
    end).
Proof.
  intros Hok. unfold LogMirror.Append. destruct (decode s req) as [reason|[|first rest]] eqn:Hd; [done| |].
  { by destruct (decode_nonempty _ _ Hd). }
  pose proof (decode_inr _ _ _ Hd) as Hb. apply wp_bind.
  pose proof (harmless_excluded s req w) as Hq1. pose proof (excluded_result s req w) as Hr1.
  unfold wp at 1. destruct (excluded s req w) as [w1 [r|]]; cbn [fst snd] in *.
  { apply wp_ret. cbn [fst snd]. apply took_nothing; [done|done|by rewrite Hr1]. }
  apply wp_bind. pose proof (harmless_register req first s w1) as Hq2.
  pose proof (register_result req first s w1) as Hr2. unfold wp at 1.
  destruct (register req first s w1) as [w2 [s2 [[r e]|]]]; cbn [fst snd] in *.
  { apply wp_ret. cbn [fst snd]. apply took_nothing; [done|by trans w1|done]. }
  assert (Hq : quiet w w2) by (by trans w1). apply wp_bind.
  assert (Hids : rRunID first = brRunID req /\ rProducerID first = brProducerID req)
    by apply (Forall_inv (fb_ids _ _ _ Hb)).
  eapply wp_mono; [apply (Append_wp w2 first rest (fb_typed _ _ _ Hb)); destruct Hids as [-> ->];
                   by eapply quiet_storeOK|].
  intros w3 [res e] Hacc. cbn [fst snd] in Hacc |- *. apply outcome_wp. by eapply append_took.
Qed.
End Taking.

(** The log of the producer a batch names. *)
Definition logFor `{JSON LogRecord} (w : World) (req : BatchRequest) : list LogRecord :=
  storedLog (wFS w) (brRunID req) (brProducerID req).

