(* ===== verification/LogPull.v ===== *)
(** Reading batches at the source of a mirror: what [ReadAfter] returns. *)
From S2P Require Import Prelude GoStd GoText LogTypes LogManifest LogFS LogStore LogSegment.
From S2P Require Import LogDisk LogDurable LogSystem.
From S2P Require Import LogCursor LogRetention LogReader LogPaging LogMirror LogSink.

Section Pull.
Context `{JSONLaws LogRecord (clean := cleanRecord)}.
Implicit Types (b : batchCollector) (log recs : list LogRecord).

(** ** Collecting *)

Lemma collect_app l1 : forall l2 b,
  collect (l1 ++ l2) b =
    let '(b', full) := collect l1 b in if (full : bool) then (b', true) else collect l2 b'.
Proof.
  induction l1 as [|r l1 IH]; intros l2 b; cbn [collect app]; [done|].
  destruct (wanted b r); [|apply IH]. destruct (add r b) as [b' []]; [done|apply IH].
Qed.

Lemma collect_unwanted l b : Forall (fun r => wanted b r = false) l -> collect l b = (b, false).
Proof. induction 1 as [|r l Hr _ IH]; cbn [collect]; [done|]. by rewrite Hr. Qed.

(** [b] holds the records of producer [pid] from [after] on up to [k]. *)
Definition holding pid after (k : nat) b : Prop :=
  bcProducerID b = pid /\ bcAfter b = after /\ length (bcOut b) = k.

(** The records behind [k]: some are taken, all of them unless the batch is
    full; the first one is left only when it has no time. *)
Lemma collect_contiguous rid pid after recs : forall k b,
  contiguous rid pid (after + Z.of_nat k + 1) recs -> printable recs -> 0 <= after ->
  after + Z.of_nat k + Z.of_nat (length recs) < 2 ^ 64 -> holding pid after k b ->
  bcBroken b = false ->
  exists j, let '(b', full) := collect recs b in
    bcOut b' = bcOut b ++ take j recs /\
    (full = false -> (length recs <= j)%nat /\ bcBroken b' = false) /\
    (full = true -> bcOut b' = [] ->
       bcBroken b' = true /\ exists r rest, recs = r :: rest /\ rTime r = 0).
Proof.
  induction recs as [|r recs IH]; intros k b Hc Hp Ha Hlt (Hid & Haf & Hk) Hbr.
  { exists 0%nat. cbn. by rewrite app_nil_r. }
  apply (contiguous_app rid pid _ [r]) in Hc as [Hr Hc].
  apply contiguous_one in Hr as (Hs & Hrid & Hpid). apply Forall_cons in Hp as [[data Hm] Hp].
  cbn [length collect] in *. unfold wanted. rewrite bool_decide_true by congruence.
  rewrite Haf. destruct (Z.ltb_spec after (rSequence r)); [|lia]. cbn [andb].
  unfold add. rewrite Haf, Hk, Hs.
  replace (u64 (after + Z.of_nat k + 1)) with (after + Z.of_nat k + 1)
    by (symmetry; apply Z.mod_small; lia).
  rewrite Z.eqb_refl. cbn [negb orb]. destruct (Z.eqb_spec (rTime r) 0) as [Ht|Ht].
  { exists 0%nat. cbn [take]. rewrite app_nil_r. split_and!; try done. intros _ _. split; [done|by eauto]. }
  rewrite Hm. destruct (_ && _) eqn:Hfull.
  { exists 0%nat. cbn [take]. rewrite app_nil_r. split_and!; try done. intros _ Hnil.
    rewrite Hnil, andb_false_r in Hfull. done. }
  destruct (IH (S k) (pushOut r (len data) b)) as [j Hj].
  - by replace (after + Z.of_nat (S k) + 1) with (after + Z.of_nat k + 1 + Z.of_nat (length [r])) by (cbn; lia).
  - done.
  - done.
  - lia.
  - split_and!; [done|done|]. cbn [pushOut bcOut]. rewrite length_app, Hk. cbn. lia.
  - done.
  - exists (S j). destruct (collect recs _) as [b' full]. destruct Hj as (Ho & Hn & Hf).
    cbn [pushOut bcOut] in Ho. rewrite <- app_assoc in Ho. cbn [take app] in *. split_and!; [done| |].
    + intros Hfl. destruct (Hn Hfl). split; [lia|done].
    + intros _ Hnil. rewrite Hnil in Ho. by destruct (bcOut b).
Qed.

(** ** The records of a run *)

Definition allRecords (fs : FS) rid (ps : list ProducerRef) : list LogRecord :=
  concat (map (logOf fs rid) ps).

Lemma allRecords_app fs rid ps1 ps2 :
  allRecords fs rid (ps1 ++ ps2) = allRecords fs rid ps1 ++ allRecords fs rid ps2.
Proof. unfold allRecords. by rewrite map_app, concat_app. Qed.
Lemma allRecords_one fs rid ref : allRecords fs rid [ref] = storedLog fs rid (pProducerID ref).
Proof. apply app_nil_r. Qed.

Lemma collect_other fs rid pid ps b :
  readable fs rid ps -> pid ∉ pProducerID <$> ps -> bcProducerID b = pid ->
  collect (allRecords fs rid ps) b = (b, false).
Proof.
  intros Hr Hn Hb. apply collect_unwanted, Forall_concat, Forall_map, Forall_forall. intros ref Hin.
  apply Forall_forall. intros r Hlog. unfold wanted. rewrite bool_decide_false; [done|].
  destruct (rd_log _ _ _ Hr ref Hin) as [Hl%logOK_contiguous _].
  apply list_elem_of_lookup in Hlog as [i Hi]. destruct (Hl i r Hi) as (_ & _ & ->).
  rewrite Hb. intros <-. apply Hn. by apply list_elem_of_fmap_2.
Qed.

Lemma collect_before rid pid log after b :
  contiguous rid pid 1 log -> bcAfter b = Z.of_nat after -> collect (take after log) b = (b, false).
Proof.
  intros Hc Hb. apply collect_unwanted, Forall_forall. intros r [i Hi]%list_elem_of_lookup.
  apply lookup_take_Some in Hi as [Hi Hlt]. pose proof (contiguous_seq _ _ _ _ _ Hc Hi) as Hs.
  unfold wanted. rewrite Hb. destruct (Z.ltb_spec (Z.of_nat after) (rSequence r)); [lia|].
  by rewrite andb_false_r.
Qed.

Lemma collect_producer l : forall b, bcProducerID (collect l b).1 = bcProducerID b.
Proof.
  induction l as [|r l IH]; intros b; cbn [collect]; [done|]. destruct (wanted b r); [|apply IH].
  assert (Ha : bcProducerID (add r b).1 = bcProducerID b).
  { unfold add. destruct (_ || _); [done|]. destruct (Marshal r); [|done]. by destruct (_ && _). }
  destruct (add r b) as [b' []]; cbn [fst] in *; [done|]. by rewrite IH.
Qed.
(** Collecting from a whole run is collecting from the producer's log. *)
Lemma collect_run fs rid pid ps b after :
  readable fs rid ps -> pid ∈ pProducerID <$> ps -> bcProducerID b = pid -> bcAfter b = Z.of_nat after ->
  collect (allRecords fs rid ps) b = collect (drop after (storedLog fs rid pid)) b.
Proof.
  intros Hr (ref & Hpid & Hin)%list_elem_of_fmap Hb Ha.
  apply list_elem_of_split in Hin as (ps1 & ps2 & ->). destruct Hr as [Hrun Hnd Hv Hl Hs].
  rewrite fmap_app, fmap_cons in Hnd. apply NoDup_app in Hnd as (Hnd1 & Hdis & Hnd2).
  apply NoDup_cons in Hnd2 as [Hn2 Hnd2].
  assert (Hn1 : pid ∉ pProducerID <$> ps1) by (rewrite Hpid; intros H1%Hdis; set_solver).
  assert (Hr1 : readable fs rid ps1) by (split; [done|done|..]; intros; [apply Hv|apply Hl|apply Hs]; set_solver).
  assert (Hr2 : readable fs rid ps2) by (split; [done|done|..]; intros; [apply Hv|apply Hl|apply Hs]; set_solver).
  assert (Hc : contiguous rid pid 1 (storedLog fs rid pid)).
  { apply logOK_contiguous. rewrite Hpid. apply Hl. set_solver. }
  change (ref :: ps2) with ([ref] ++ ps2). rewrite !allRecords_app, !collect_app, allRecords_one, <- Hpid.
  rewrite (collect_other fs rid pid ps1 b) by done. cbv beta iota.
  assert (Hown : collect (storedLog fs rid pid) b = collect (drop after (storedLog fs rid pid)) b).
  { trans (collect (take after (storedLog fs rid pid) ++ drop after (storedLog fs rid pid)) b).
    - by rewrite take_drop.
    - by rewrite collect_app, (collect_before rid pid). }
  rewrite collect_app, Hown.
  pose proof (collect_producer (drop after (storedLog fs rid pid)) b) as Hkeep.
  destruct (collect (drop after (storedLog fs rid pid)) b) as [b' []]; [done|].
  apply (collect_other fs rid pid ps2); [done|by rewrite Hpid|by rewrite <- Hb].
Qed.

(** ** The loop over the pages *)

Context `{SHA256Laws} `{JSON RunManifest} {JC : JSON cursor} {LC : JSONLaws cursor cleanCursor}.

(** The filter of a request without selectors accepts everything. *)
Definition noFilter : filter := mkFilter false (filterHash [""; ""]) ∅.
Lemma noFilter_for fs m rid after : filterFor fs m (sourceRequest rid after) = inr noFilter.
Proof. reflexivity. Qed.
Lemma noFilter_limits rid after : readLimits (sourceRequest rid after) = inr (MaxReadLimit, MaxPageBytes).
Proof. reflexivity. Qed.
Lemma unread_all fs rid ps : unread fs rid noFilter (posAt (startCursor cursorRun)) ps = allRecords fs rid ps.
Proof.
  unfold unread, allRecords. f_equal. apply map_ext. intros ref. unfold unreadOf.
  change (Z.to_nat (posAt (startCursor cursorRun) (pProducerID ref))) with 0%nat. rewrite drop_0.
  induction (logOf fs rid ref) as [|r l IH]; [done|]. by rewrite filter_cons_True, IH.
Qed.

(** The result of collecting a run's records. *)
Definition batchOf (r : batchCollector * bool) : goerr + list LogRecord :=
  if r.2 then gapOrBatch (bcOut r.1) (bcBroken r.1) else inr (bcOut r.1).

Lemma readLoop_reads m rid fuel : forall w token b cur,
  served (wFS w) rid m -> startFor (sourceRequest rid token) noFilter = inr cur -> resumable (wFS w) m cur ->
  wp (readLoop fuel rid token b) w (fun w' r =>
    calm w w' /\
    match r with
    | None => (fuel <= length (unread (wFS w) rid noFilter (posAt cur) (mProducers m)))%nat
    | Some r => r = batchOf (collect (unread (wFS w) rid noFilter (posAt cur) (mProducers m)) b) \/
                exists e, r = inl e /\ (wFaults w <> [] \/ exists c, encodeCursor c = inl e)
    end).
Proof.
  induction fuel as [|fuel IH]; intros w token b cur Hs Hcur Hres; cbn [readLoop].
  { apply wp_ret. split; [done|lia]. }
  apply wp_bind. pose proof (Read_reads w (sourceRequest rid token) m noFilter cur _ Hs
    (noFilter_limits rid token) (noFilter_for _ _ _ _) Hcur Hres) as Hread.
  apply (reads_wp _ _ _ _ _ Hread). intros w1 [e|resp] Hcalm HR.
  { apply wp_ret. split; [done|]. right. by exists e. }
  destruct HR as [next Hpage]. pose proof (po_records _ _ _ _ _ _ Hpage) as Hrec.
  rewrite (sv_run _ _ _ Hs) in Hrec. rewrite Hrec, collect_app.
  destruct (collect (respRecords resp) b) as [b' []]; [by apply wp_ret; split; [|left]|].
  destruct (respHasMore resp) eqn:Hmore; cbn [negb].
  - assert (Hfs : wFS w1 = wFS w) by apply Hcalm. eapply wp_mono.
    + apply (IH w1 (respNextCursor resp) b' next); rewrite ?Hfs; [done| |by apply (po_resume _ _ _ _ _ _ Hpage)].
      eapply (startFor_next _ _ _ _ _ _ (mkSetupFlags "" false "" "" "" false "" MaxReadLimit) rid Hpage).
      apply Hs.
    + rewrite Hfs. intros w2 r [Hc2 Hr]. split; [by trans w1|]. destruct r as [r|].
      * destruct Hr as [->|(e & -> & [Hf|Hc])]; [by left|right; exists e; split; [done|left]|right; eauto].
        intros Hn. by apply Hf, Hcalm.
      * rewrite length_app. pose proof (po_more _ _ _ _ _ _ Hpage Hmore).
        destruct (respRecords resp); [done|]. cbn. lia.
  - apply wp_ret. split; [done|left].
    pose proof (po_done _ _ _ _ _ _ Hpage Hmore) as Hd. rewrite (sv_run _ _ _ Hs) in Hd. rewrite Hd.
    cbn [collect]. by unfold batchOf.
Qed.

(** A host that can be mirrored: it serves the run, and the producer is one of it. *)
Definition sourceOK (w : World) (rid pid : string) : Prop :=
  (exists m, served (wFS w) rid m /\ pid ∈ pProducerID <$> mProducers m) /\
  Forall settled (storedLog (wFS w) rid pid).

Lemma sourceOK_log w rid pid :
  sourceOK w rid pid ->
  contiguous rid pid 1 (storedLog (wFS w) rid pid) /\ printable (storedLog (wFS w) rid pid) /\
  Z.of_nat (length (storedLog (wFS w) rid pid)) + 1 < 2 ^ 64.
Proof.
  intros [(m & Hs & (ref & -> & Hin)%list_elem_of_fmap) _]. pose proof (sv_logs _ _ _ Hs) as Hr.
  destruct (rd_log _ _ _ Hr ref Hin) as [Hl _]. split_and!.
  - by apply logOK_contiguous.
  - by apply storedLog_printable.
  - by apply (rd_small _ _ _ Hr).
Qed.

(** The records of a run that are read at least once by [ReadAfter]. *)
Definition runLength (w : World) (rid : string) : nat :=
  match storedManifest (wFS w) (runPath rid) with
  | Some m => length (allRecords (wFS w) rid (mProducers m))
  | None => 0
  end.

(** What [ReadAfter] may answer for the records [rest] behind a position. *)
Definition batchFor (w : World) (rest : list LogRecord) (r : goerr + list LogRecord) : Prop :=
  match r with
  | inr out => (exists j, out = take j rest) /\ (out = [] -> rest = [])
  | inl e =>
      (e = ErrSourceGap /\ exists r0 rest', rest = r0 :: rest' /\ rTime r0 = 0) \/
      wFaults w <> [] \/ exists c, encodeCursor c = inl e
  end.

Lemma collect_batchFor w rid pid after rest maxBytes :
  contiguous rid pid (Z.of_nat after + 1) rest -> printable rest ->
  Z.of_nat after + Z.of_nat (length rest) < 2 ^ 64 ->
  batchFor w rest (batchOf (collect rest (mkCollector pid (Z.of_nat after) maxBytes 0 [] false))).
Proof.
  intros Hc Hp Hlt.
  destruct (collect_contiguous rid pid (Z.of_nat after) rest 0
    (mkCollector pid (Z.of_nat after) maxBytes 0 [] false)) as [j Hj];
    [by rewrite Z.add_0_r|done|lia|lia|done|done|].
  destruct (collect rest _) as [b' full]. destruct Hj as (Ho & Hn & Hf). cbn [bcOut app] in Ho.
  unfold batchOf. cbn [fst snd]. rewrite Ho in *. destruct full.
  - unfold gapOrBatch. destruct (decide (take j rest = [])) as [He|He].
    + destruct (Hf eq_refl He) as (-> & r & rest' & -> & Ht). rewrite bool_decide_true by done.
      left. eauto.
    + rewrite bool_decide_false, andb_false_r by done. split; [by eauto|done].
  - split; [by eauto|]. intros He. destruct (Hn eq_refl) as [Hle _].
    rewrite take_ge in He by done. done.
Qed.

Lemma ReadAfter_reads w rid pid after maxBytes fuel :
  sourceOK w rid pid -> (after <= length (storedLog (wFS w) rid pid))%nat ->
  wp (ReadAfter fuel rid pid (Z.of_nat after) maxBytes) w (fun w' r =>
    calm w w' /\
    match r with
    | None => (fuel <= runLength w rid)%nat
    | Some r => batchFor w (drop after (storedLog (wFS w) rid pid)) r
    end).
Proof.
  intros Hsrc Hle. destruct (sourceOK_log _ _ _ Hsrc) as (Hcont & Hprint & Hlen).
  destruct Hsrc as [(m & Hs & Hin) _]. pose proof (sv_logs _ _ _ Hs) as Hr.
  set (log := storedLog (wFS w) rid pid) in *. unfold ReadAfter.
  assert (Hres : resumable (wFS w) m (startCursor cursorRun)).
  { split; [|by intros id [? ?]]. intros ref _. change (posAt _ _) with 0. lia. }
  eapply wp_mono; [by apply (readLoop_reads m rid fuel w "" _ (startCursor cursorRun) Hs)|].
  rewrite unread_all. intros w' r [Hcalm Hres']. split; [done|]. destruct r as [r|].
  - destruct Hres' as [->|(e & -> & He)]; [|by right].
    rewrite (collect_run _ _ _ _ _ after Hr Hin) by done. fold log.
    apply (collect_batchFor _ rid).
    + rewrite <- (take_drop after log) in Hcont. apply contiguous_app in Hcont as [_ Hcont].
      rewrite length_take_le in Hcont by done. by rewrite Z.add_comm.
    + by apply Forall_drop.
    + rewrite length_drop. lia.
  - unfold runLength. by rewrite (sv_manifest _ _ _ Hs).
Qed.

(** Reading a batch at the source, from a position the log has reached and
    with one page of fuel per record of the run: the loop over the pages ends,
    the store is not changed, and without failing system calls the batch is a
    beginning of the records behind the position, empty only when there are
    none; the gap error means that the very next record carries no time. *)
Theorem ReadAfter_batch w rid pid after maxBytes fuel :
  sourceOK w rid pid -> (after <= length (storedLog (wFS w) rid pid))%nat ->
  (runLength w rid < fuel)%nat ->
  sameStore w (ReadAfter fuel rid pid (Z.of_nat after) maxBytes w).1 /\
  exists r, (ReadAfter fuel rid pid (Z.of_nat after) maxBytes w).2 = Some r /\
    batchFor w (drop after (storedLog (wFS w) rid pid)) r.
Proof.
  intros Hsrc Hle Hfuel. destruct (ReadAfter_reads w rid pid after maxBytes fuel Hsrc Hle) as [[Hs _] Hr].
  split; [done|]. destruct (ReadAfter fuel rid pid _ maxBytes w) as [w' [r|]]; cbn [fst snd] in *; [by exists r|lia].
Qed.
End Pull.
