(* ===== verification/LogMirroring.v ===== *)
(** Mirroring end to end: a sender and a sink over a network that loses, delays
    and repeats calls.  The receiving host always holds a copy of the beginning
    of the sender's log, and a flush that reports success means it holds all. *)
From S2P Require Import Prelude GoStd GoText LogTypes LogManifest LogFS LogStore LogSegment.
From S2P Require Import LogDisk LogDurable LogSystem.
From S2P Require Import LogCursor LogAck LogRetention LogReader LogPaging LogMirror LogSink LogPull.
From S2P Require Import LogSender.

(** ** Acknowledgements and what is served *)

(** The worlds have the same runs; acknowledgement files are elsewhere. *)
Definition onlyAcks (w w' : World) : Prop := forall p, head p = Some runsDirName -> wFS w' !! p = wFS w !! p.

Lemma touches_onlyAcks {A} (m : St A) w : touches ackFile m -> onlyAcks w (m w).1.
Proof. intros Hm p Hp. apply (proj2 (Hm w)). intros [name ->]. by vm_compute in Hp. Qed.

Section Acks.
Context `{JSONLaws LogRecord (clean := cleanRecord)} `{JSON RunManifest}.

Lemma onlyAcks_run w w' p : onlyAcks w w' -> head p = Some runsDirName -> wFS w' !! p = wFS w !! p.
Proof. auto. Qed.
Lemma onlyAcks_segment w w' rid pid p : onlyAcks w w' -> segmentPath rid pid p -> wFS w' !! p = wFS w !! p.
Proof. intros Hw (name & -> & _). by apply onlyAcks_run. Qed.

Lemma onlyAcks_logAt w w' rid pid recs :
  onlyAcks w w' -> logAt rid pid (wFS w) recs -> logAt rid pid (wFS w') recs.
Proof.
  intros Hw [L HL]. exists L. apply (storedIn_frame rid pid (wFS w)); [|by rewrite (onlyAcks_run w w')|exact HL].
  intros p. by apply onlyAcks_segment.
Qed.
Lemma onlyAcks_log w w' rid pid :
  onlyAcks w w' -> logOK (wFS w) rid pid ->
  logOK (wFS w') rid pid /\ storedLog (wFS w') rid pid = storedLog (wFS w) rid pid.
Proof.
  intros Hw Hl. pose proof (onlyAcks_logAt _ _ _ _ _ Hw Hl) as Hl'.
  split; [by eapply logAt_logOK|by eapply logAt_storedLog].
Qed.

Lemma onlyAcks_served w w' rid m : onlyAcks w w' -> served (wFS w) rid m ->
  served (wFS w') rid m /\ allRecords (wFS w') rid (mProducers m) = allRecords (wFS w) rid (mProducers m).
Proof.
  intros Hw [Hm Hrun [Hr Hn Hv Hl Hs]].
  assert (Hlog : forall ref, ref ∈ mProducers m -> logOf (wFS w') rid ref = logOf (wFS w) rid ref).
  { intros ref Hin. apply (onlyAcks_log _ _ _ _ Hw), (Hl ref Hin). }
  split; [split; [|done|split]|]; try done.
  - unfold storedManifest in *. by rewrite (onlyAcks_run w w').
  - intros ref Hin. destruct (Hl ref Hin) as [Hok Hdir]. split; [by apply (onlyAcks_log w w')|].
    unfold dirOK in *. by rewrite (onlyAcks_run w w').
  - intros ref Hin. rewrite (Hlog ref Hin). by apply Hs.
  - unfold allRecords. f_equal. apply map_ext_in. intros ref Hin%list_elem_of_In. by apply Hlog.
Qed.

Lemma onlyAcks_source w w' rid pid : onlyAcks w w' -> sourceOK w rid pid ->
  sourceOK w' rid pid /\ storedLog (wFS w') rid pid = storedLog (wFS w) rid pid /\
  runLength w' rid = runLength w rid.
Proof.
  intros Hw [(m & Hs & Hin) Hset]. destruct (onlyAcks_served _ _ _ _ Hw Hs) as [Hs' Hall].
  assert (Hlog : logOK (wFS w) rid pid).
  { apply list_elem_of_fmap in Hin as (ref & -> & Hin). by apply (rd_log _ _ _ (sv_logs _ _ _ Hs)). }
  destruct (onlyAcks_log _ _ _ _ Hw Hlog) as [_ Heq]. rewrite Heq. split_and!; [|done|].
  - split; [by exists m|]. by rewrite Heq.
  - unfold runLength. by rewrite (sv_manifest _ _ _ Hs), (sv_manifest _ _ _ Hs'), Hall.
Qed.
End Acks.

(** ** The hosts *)

Section Mirroring.
Context `{JSONLaws LogRecord (clean := cleanRecord)} `{JSON RunManifest} `{JSON AckState} `{IDSource}.
Context `{ProtoSize} `{SHA256Laws} {JC : JSON cursor} {LC : JSONLaws cursor cleanCursor}.
Variable o : SenderOptions.
Local Abbreviation rid := (dRunID o).
Local Abbreviation pid := (dProducerID o).
Implicit Types (h : Hosts) (n : Net) (req : BatchRequest).

Definition srcLog h : list LogRecord := storedLog (wFS (hSrc h)) rid pid.
Definition dstLog h : list LogRecord := storedLog (wFS (hDst h)) rid pid.

(** A request the sender may have made. *)
Definition isRequest h req : Prop :=
  exists recs, cutFrom (srcLog h) recs /\ buildRequest rid pid recs = inr req.

Record hostsOK h : Prop := {
  ho_source : sourceOK (hSrc h) rid pid;
  ho_store : storeOK (hDst h) rid pid;
  ho_copy : copies (srcLog h) (dstLog h);
  ho_sent : Forall (isRequest h) (hSent h);
}.

(** The sender's position: within its own log, and within the log of its peer
    unless it knows of a gap. *)
Definition positionOK h : Prop :=
  0 <= sdAcked (hSender h) <= Z.of_nat (length (srcLog h)) /\
  (sdIncomplete (hSender h) = false -> sdAcked (hSender h) <= Z.of_nat (length (dstLog h))).
Definition mirrored h : Prop := hostsOK h /\ positionOK h.

(** What happens besides the sender: the logs grow. *)
Record goesOn h h' : Prop := {
  go_hosts : hostsOK h';
  go_source : srcLog h `prefix_of` srcLog h';
  go_copy : dstLog h `prefix_of` dstLog h';
  go_sender : hSender h' = hSender h;
}.
Lemma goesOn_refl h : hostsOK h -> goesOn h h.
Proof. by split. Qed.
Lemma goesOn_trans h1 h2 h3 : goesOn h1 h2 -> goesOn h2 h3 -> goesOn h1 h3.
Proof.
  intros [_ Hs Hd He] [Hok Hs' Hd' He']. split; [done|by trans (srcLog h2)|by trans (dstLog h2)|congruence].
Qed.
Lemma goesOn_position h h' : goesOn h h' -> positionOK h -> positionOK h'.
Proof.
  intros [_ Hs%prefix_length Hd%prefix_length He] [Ha Hb]. unfold positionOK. rewrite He.
  split; [lia|]. intros Hi. specialize (Hb Hi). lia.
Qed.

Lemma isRequest_grow h h' req : srcLog h `prefix_of` srcLog h' -> isRequest h req -> isRequest h' req.
Proof. intros Hs (recs & Hc & Hb). exists recs. split; [by eapply cutFrom_prefix|done]. Qed.

(** Other processes: producers append at the source, the receiving process may
    be restarted, anything else may be written anywhere but to this log. *)
Record meanwhile h h' : Prop := {
  mw_source : sourceOK (hSrc h') rid pid;
  mw_grows : srcLog h `prefix_of` srcLog h';
  mw_store : storeOK (hDst h') rid pid;
  mw_log : dstLog h' = dstLog h;
  mw_sent : hSent h' = hSent h;
  mw_sender : hSender h' = hSender h;
}.
Lemma meanwhile_goesOn h h' : hostsOK h -> meanwhile h h' -> goesOn h h'.
Proof.
  intros [_ _ Hc Hs] [Ha Hb Hd He Hf Hg]. split; [|done|by rewrite He|done].
  split; [done|done| |].
  - rewrite He. by eapply copies_grow.
  - rewrite Hf. eapply Forall_impl; [exact Hs|]. intros req. by apply isRequest_grow.
Qed.

(** ** A request arrives *)

Lemma marshalAll_decoded recs datas :
  marshalAll recs = Some datas -> Forall settled recs ->
  Forall2 (fun raw rec => Unmarshal raw = Some rec) datas recs.
Proof.
  revert datas. induction recs as [|r recs IH]; intros datas; cbn [marshalAll]; [by intros [= <-]|].
  destruct (Marshal r) as [s|] eqn:Hm; [|done]. destruct (marshalAll recs) as [ss|]; [|done].
  intros [= <-] [Hr Hrs]%Forall_cons. constructor; [|by apply IH].
  rewrite (marshal_roundtrip r s Hm). by rewrite settled_clean.
Qed.

Lemma isRequest_records h req s recs :
  hostsOK h -> isRequest h req -> decode s req = inr recs -> cutFrom (srcLog h) recs.
Proof.
  intros Hok (recs0 & Hcut & Hb) Hd. replace recs with recs0; [done|].
  destruct (decode_inr _ _ _ Hd) as [Hdec _ _ _]. unfold buildRequest in Hb.
  destruct (marshalAll recs0) as [datas|] eqn:Hm; [|done]. injection Hb as <-. cbn [brRecords] in Hdec.
  assert (Hset : Forall settled recs0).
  { destruct Hcut as (l1 & l2 & Heq). pose proof (proj2 (ho_source _ Hok)) as Hset.
    change (storedLog _ _ _) with (srcLog h) in Hset. rewrite Heq in Hset.
    apply Forall_app in Hset as [_ Hset]. by apply Forall_app in Hset as [Hset _]. }
  pose proof (marshalAll_decoded _ _ Hm Hset) as Hdec'. clear -Hdec Hdec'. revert recs Hdec.
  induction Hdec' as [|raw rec raws recs0 Hr _ IH]; intros recs Hdec; inversion Hdec; subst; [done|].
  f_equal; [congruence|by apply IH].
Qed.

Lemma isRequest_ids h req : isRequest h req -> brRunID req = rid /\ brProducerID req = pid.
Proof. intros (recs & _ & Hb). unfold buildRequest in Hb. destruct (marshalAll recs); [|done]. by injection Hb as <-. Qed.

Definition truthful h (r : status + AppendSetupLogsResponse) : Prop :=
  match r with
  | inr resp => rsResult resp = SETUP_LOG_RESULT_ACCEPTED ->
                rsAcceptedSequence resp <= Z.of_nat (length (dstLog h))
  | inl _ => True
  end.

Lemma AppendSetupLogs_keeps req sink h :
  hostsOK h -> isRequest h req ->
  wp (AppendSetupLogs req sink) (hDst h) (fun w' r =>
    goesOn h (withDst w' r.1 h) /\ truthful (withDst w' r.1 h) r.2).
Proof.
  intros Hok Hreq. destruct (isRequest_ids _ _ Hreq) as [Hr Hp].
  assert (Hsame : forall s, goesOn h (withDst (hDst h) s h)) by (intros s; split; [by destruct Hok; split|reflexivity..]).
  unfold AppendSetupLogs. destruct sink as [s|]; [|by apply wp_ret].
  destruct (_ <? _); [by apply wp_ret|]. apply wp_bind.
  eapply wp_mono; [apply Append_took; rewrite Hr, Hp; apply Hok|].
  intros w' [s' [res e]] Htook. apply wp_ret. cbn [fst snd] in *.
  destruct (decode s req) as [reason|recs] eqn:Hd.
  { destruct Htook as [-> [= -> ->]]. split; [done|]. by cbn. }
  destruct Htook as [[applied Hext] Hacc]. rewrite Hr, Hp in Hext, Hacc.
  pose proof (isRequest_records _ _ _ _ Hok Hreq Hd) as Hcut. destruct Hok as [Hsrc Hst Hcp Hsent].
  destruct Hext as [Hst' Hlog' Has]. split.
  - split; [split|done| |done]; try done.
    + unfold dstLog. cbn [withDst hDst]. change (srcLog (withDst w' _ h)) with (srcLog h). rewrite Hlog'.
      destruct (sourceOK_log _ _ _ Hsrc) as (Hcont & _).
      eapply copies_extend; [exact Hcont|apply Hsrc|exact Hcut| |exact Hcp|exact Has|apply (decode_inr _ _ _ Hd)].
      change (storedLog (wFS (hDst h)) rid pid) with (dstLog h) in Hlog' |- *. rewrite <- Hlog'.
      apply logOK_contiguous, Hst'.
    + unfold dstLog. cbn [withDst hDst]. rewrite Hlog'. by apply prefix_app_r.
  - destruct e; [done|]. cbn [truthful rsResult rsAcceptedSequence]. unfold dstLog. cbn [withDst hDst].
    intros Hres. destruct (btResult res) eqn:Hb; try done. apply Hacc. done.
Qed.

Lemma arrive_keeps req h :
  hostsOK h -> isRequest h req -> goesOn h (arrive req h).1 /\ truthful (arrive req h).1 (arrive req h).2.
Proof.
  intros Hok Hreq. pose proof (AppendSetupLogs_keeps req (hSink h) h Hok Hreq) as Hw. unfold wp in Hw.
  unfold arrive. by destruct (AppendSetupLogs req (hSink h) (hDst h)) as [w [s r]].
Qed.

Lemma arriveAgain_keeps h i : hostsOK h -> goesOn h (arriveAgain h i).
Proof.
  intros Hok. unfold arriveAgain. destruct (hSent h !! i) as [req|] eqn:Hi; [|by apply goesOn_refl].
  apply arrive_keeps; [done|]. eapply Forall_lookup_1; [apply (ho_sent _ Hok)|exact Hi].
Qed.
Lemma repeated_keeps l : forall h, hostsOK h -> goesOn h (foldl arriveAgain h l).
Proof.
  induction l as [|i l IH]; intros h Hok; cbn [foldl]; [by apply goesOn_refl|].
  pose proof (arriveAgain_keeps h i Hok) as Hg. eapply goesOn_trans; [exact Hg|]. apply IH, Hg.
Qed.

Lemma withSent_keeps req h : hostsOK h -> isRequest h req -> goesOn h (withSent req h).
Proof.
  intros [Ha Hb Hc Hd] Hreq. split; [|reflexivity..].
  split; [exact Ha|exact Hb|exact Hc|]. constructor; [exact Hreq|exact Hd].
Qed.

(** ** Programs of the sender *)

(** [P] is what the other processes leave true of the source, as does the
    sender when it writes its acknowledgements. *)
Variable P : World -> Prop.
Hypothesis P_acks : forall w w', onlyAcks w w' -> P w -> P w'.

Definition callOK (c : Call) : Prop :=
  forall h, hostsOK h -> P (hSrc h) -> meanwhile h (cMeanwhile c h) /\ P (hSrc (cMeanwhile c h)).

Record netOK n : Prop := {
  no_mirrored : mirrored (nHosts n);
  no_P : P (hSrc (nHosts n));
  no_calls : Forall callOK (nCalls n);
}.

Definition pwp {A} (m : Prg A) n (Q : Net -> A -> Prop) : Prop := Q (m n).1 (m n).2.
Lemma pwp_bind {A B} (m : Prg A) (k : A -> Prg B) n Q :
  pwp m n (fun n' a => pwp (k a) n' Q) -> pwp (pbind m k) n Q.
Proof. unfold pwp, pbind. by destruct (m n). Qed.
Lemma pwp_ret {A} (a : A) n (Q : Net -> A -> Prop) : Q n a -> pwp (pret a) n Q.
Proof. done. Qed.
Lemma pwp_mono {A} (m : Prg A) n (Q Q' : Net -> A -> Prop) :
  pwp m n Q -> (forall n' a, Q n' a -> Q' n' a) -> pwp m n Q'.
Proof. unfold pwp. auto. Qed.
Lemma pwp_sender n (Q : Net -> Sender -> Prop) : Q n (hSender (nHosts n)) -> pwp sender n Q.
Proof. done. Qed.

Lemma foldl_source l h : hSrc (foldl arriveAgain h l) = hSrc h.
Proof.
  revert h. induction l as [|i l IH]; intros h; cbn [foldl]; [done|]. rewrite IH. unfold arriveAgain.
  destruct (hSent h !! i) as [req|]; [|done]. unfold arrive.
  by destruct (AppendSetupLogs req (hSink h) (hDst h)) as [w [s r]].
Qed.
Lemma arrive_source req h : hSrc (arrive req h).1 = hSrc h.
Proof. unfold arrive. by destruct (AppendSetupLogs req (hSink h) (hDst h)) as [w [s r]]. Qed.

(** A call: the hosts go on, and an answer is truthful. *)
Lemma invoke_keeps req n :
  netOK n -> isRequest (nHosts n) req ->
  pwp (invoke req) n (fun n' r =>
    netOK n' /\ goesOn (nHosts n) (nHosts n') /\
    match r with Some r => truthful (nHosts n') r | None => True end).
Proof.
  intros [[Hok Hpos] HP Hcalls] Hreq. unfold invoke, pwp.
  set (c := match nCalls n with c :: _ => c | [] => _ end).
  assert (Hc : meanwhile (nHosts n) (cMeanwhile c (nHosts n)) /\ P (hSrc (cMeanwhile c (nHosts n)))).
  { subst c. destruct Hcalls as [|c calls Hc _]; [|by apply Hc].
    cbn [cMeanwhile]. split; [|done]. split; try done; apply Hok. }
  destruct Hc as [Hmw HP']. assert (Hcalls' : Forall callOK (List.tl (nCalls n)))
    by (by destruct Hcalls).
  pose proof (meanwhile_goesOn _ _ Hok Hmw) as Hg1.
  pose proof (repeated_keeps (cRepeated c) _ (go_hosts _ _ Hg1)) as Hg2.
  set (h := foldl arriveAgain _ _) in *. assert (HPh : P (hSrc h)) by (subst h; by rewrite foldl_source).
  assert (Hg : goesOn (nHosts n) h) by (by eapply goesOn_trans).
  pose proof (isRequest_grow _ _ _ (go_source _ _ Hg) Hreq) as Hreq'.
  pose proof (withSent_keeps req h (go_hosts _ _ Hg) Hreq') as Hg3.
  assert (Hg' : goesOn (nHosts n) (withSent req h)) by (by eapply goesOn_trans).
  destruct (arrive_keeps req (withSent req h) (go_hosts _ _ Hg') Hreq') as [Hg4 Ht].
  assert (Hg'' : goesOn (nHosts n) (arrive req (withSent req h)).1) by (by eapply goesOn_trans).
  pose proof (arrive_source req (withSent req h)) as Hsrc.
  assert (Hnet : forall h', goesOn (nHosts n) h' -> P (hSrc h') -> netOK (mkNet h' (List.tl (nCalls n)))).
  { intros h' Hgo HPh'. split; [|done|done]. split; [apply Hgo|by eapply goesOn_position]. }
  destruct (cFate c).
  - split_and!; [by apply Hnet|done|done].
  - split_and!; [apply Hnet; [done|]|done|done]. by rewrite Hsrc.
  - destruct (arrive req (withSent req h)) as [h'' r]. cbn [fst snd] in *.
    split_and!; [apply Hnet; [done|]|done|done]. by rewrite Hsrc.
Qed.

(** *** The sender's own steps *)

Lemma withSender_hosts s h : hostsOK h -> hostsOK (withSender s h).
Proof. by intros [Ha Hb Hc Hd]. Qed.
Lemma withSender_net s n :
  netOK n -> positionOK (withSender s (nHosts n)) -> netOK (onHosts (withSender s) n).
Proof. intros [[Hok _] HP Hc] Hpos. split; [|done|done]. split; [by apply withSender_hosts|done]. Qed.

(** The source log never shrinks while the sender works. *)
Definition srcGrows n n' : Prop := srcLog (nHosts n) `prefix_of` srcLog (nHosts n').
#[local] Instance srcGrows_preorder : PreOrder srcGrows.
Proof. split; [by intros n; unfold srcGrows|]. intros n1 n2 n3 Ha Hb. unfold srcGrows in *. by trans (srcLog (nHosts n2)). Qed.

Lemma atSource_keeps {A} (m : St A) n (Q : Net -> A -> Prop) :
  netOK n -> onlyAcks (hSrc (nHosts n)) (m (hSrc (nHosts n))).1 ->
  (forall n', netOK n' -> srcLog (nHosts n') = srcLog (nHosts n) -> hSender (nHosts n') = hSender (nHosts n) ->
     nCalls n' = nCalls n -> hDst (nHosts n') = hDst (nHosts n) ->
     Q n' (m (hSrc (nHosts n))).2) ->
  pwp (atSource m) n Q.
Proof.
  intros [[[Hsrc Hst Hcp Hsent] Hpos] HP Hcalls] Hm HQ. unfold pwp, atSource. cbn [fst snd].
  destruct (onlyAcks_source _ _ _ _ Hm Hsrc) as (Hsrc' & Hlog & _).
  set (h := withSrc (m (hSrc (nHosts n))).1 (nHosts n)).
  assert (Heq : srcLog h = srcLog (nHosts n)) by exact Hlog.
  apply (HQ (mkNet h (nCalls n))); try done. split; [|by eapply P_acks|done]. split.
  - split; [done|done| |].
    + cbn [nHosts]. rewrite Heq. exact Hcp.
    + eapply Forall_impl; [exact Hsent|]. intros req. apply isRequest_grow. cbn [nHosts]. by rewrite Heq.
  - unfold positionOK in *. cbn [nHosts]. rewrite Heq. exact Hpos.
Qed.

(** The position moves up to what is known to be held. *)
Definition reachable n (acked : Z) : Prop :=
  acked <= Z.of_nat (length (srcLog (nHosts n))) /\
  (sdIncomplete (hSender (nHosts n)) = false -> acked <= Z.of_nat (length (dstLog (nHosts n)))).

Definition ackedOf n : Z := sdAcked (hSender (nHosts n)).
Definition disabledIn n : bool := sdDisabled (hSender (nHosts n)).

Lemma advance_keeps acked n :
  netOK n -> reachable n acked ->
  pwp (advance o acked) n (fun n' e =>
    netOK n' /\ srcGrows n n' /\ (e = None -> ackedOf n < ackedOf n')).
Proof.
  intros Hn [Hs Hd]. unfold advance. apply pwp_bind, pwp_sender.
  destruct (Z.ltb_spec (sdAcked (hSender (nHosts n))) acked) as [Hlt|]; [|by apply pwp_ret; split_and!].
  assert (Hn' : netOK (onHosts (fun h => withSender (setAcked acked (hSender h)) h) n)).
  { apply (withSender_net (setAcked acked (hSender (nHosts n))) n Hn).
    destruct (no_mirrored _ Hn) as [_ [Hp _]].
    split; cbn [withSender hSender setAcked sdAcked sdIncomplete]; [|exact Hd].
    change (srcLog (withSender _ _)) with (srcLog (nHosts n)). lia. }
  apply pwp_bind. unfold modifySender, modify, pwp at 1. cbn [fst snd].
  destruct (dAcks o); [|apply pwp_ret; split_and!; [exact Hn'|by unfold srcGrows|intros _; exact Hlt]].
  apply pwp_bind, atSource_keeps; [exact Hn'|apply touches_onlyAcks, touches_ackUpdate|].
  intros n2 Hn2 Hlog Hsd _ _. apply pwp_ret. split_and!; [done| |].
  - unfold srcGrows. by rewrite Hlog.
  - intros _. unfold ackedOf. by rewrite Hsd.
Qed.

Lemma disable_keeps n (Q : Net -> unit -> Prop) :
  netOK n ->
  (forall n', netOK n' -> srcGrows n n' -> disabledIn n' = true -> Q n' tt) ->
  pwp (modifySender (fun s => setDisabled (setIncomplete s))) n Q.
Proof.
  intros Hn HQ. apply HQ; [|by unfold srcGrows|done].
  apply (withSender_net (setDisabled (setIncomplete (hSender (nHosts n)))) n Hn).
  destruct (no_mirrored _ Hn) as [_ [Hp _]]. by split.
Qed.

Lemma isRequest_last h req :
  hostsOK h -> isRequest h req -> brLastSequence req <= Z.of_nat (length (srcLog h)).
Proof.
  intros Hok (recs & (l1 & l2 & Heq) & Hb). unfold buildRequest in Hb.
  destruct (marshalAll recs); [|done]. injection Hb as <-. cbn [brLastSequence].
  destruct (last recs) as [r|] eqn:Hl; cbn; [|lia].
  destruct (sourceOK_log _ _ _ (ho_source _ Hok)) as (Hc & _). change (storedLog _ _ _) with (srcLog h) in Hc.
  apply last_Some in Hl as [recs' ->].
  assert (Hi : srcLog h !! (length l1 + length recs')%nat = Some r).
  { rewrite Heq, lookup_app_r by lia. rewrite <- app_assoc, lookup_app_r by lia.
    by replace (length l1 + length recs' - length l1 - length recs')%nat with 0%nat by lia. }
  rewrite (contiguous_seq _ _ _ _ _ Hc Hi). apply lookup_lt_Some in Hi. lia.
Qed.

Lemma apply_keeps req resp n :
  netOK n -> isRequest (nHosts n) req -> truthful (nHosts n) (inr resp) ->
  pwp (apply o req resp) n (fun n' e =>
    netOK n' /\ srcGrows n n' /\ (e = None -> disabledIn n' = true \/ ackedOf n < ackedOf n')).
Proof.
  intros Hn Hreq Ht. pose proof (isRequest_last _ _ (proj1 (no_mirrored _ Hn)) Hreq) as Hlast.
  assert (Hdis : pwp (pbind (modifySender (fun s => setDisabled (setIncomplete s))) (fun _ => pret None)) n
    (fun n' e => netOK n' /\ srcGrows n n' /\ ((e : err) = None -> disabledIn n' = true \/ ackedOf n < ackedOf n'))).
  { apply pwp_bind, disable_keeps; [done|]. intros n' Hn' Hg Hd. apply pwp_ret. auto. }
  unfold apply. cbv zeta. cbn [truthful] in Ht. destruct (rsResult resp) eqn:Hr; [exact Hdis| | |exact Hdis].
  - eapply pwp_mono; [apply (advance_keeps _ n Hn)|].
    + split; [lia|]. intros _. specialize (Ht eq_refl). lia.
    + intros n' e (Ha & Hb & Hc). auto.
  - apply pwp_bind. unfold modifySender, modify, pwp at 1. cbn [fst snd].
    set (n1 := onHosts _ n).
    assert (Hn1 : netOK n1).
    { apply (withSender_net (setIncomplete (hSender (nHosts n))) n Hn).
      destruct (no_mirrored _ Hn) as [_ [Hp _]]. by split. }
    assert (Hgo : forall n2, netOK n2 -> srcLog (nHosts n2) = srcLog (nHosts n1) ->
      hSender (nHosts n2) = hSender (nHosts n1) ->
      pwp (advance o (Z.max (Z.min (rsAcceptedSequence resp) (brLastSequence req))
                            (Z.min (rsGapLastSequence resp) (brLastSequence req)))) n2
        (fun n' e => netOK n' /\ srcGrows n n' /\ (e = None -> disabledIn n' = true \/ ackedOf n < ackedOf n'))).
    { intros n2 Hn2 Hlog Hsd. change (srcLog (nHosts n1)) with (srcLog (nHosts n)) in Hlog.
      eapply pwp_mono; [apply (advance_keeps _ n2 Hn2)|].
      - split; [rewrite Hlog; lia|]. by rewrite Hsd.
      - intros n' e (Ha & Hb & Hc). unfold srcGrows in *. rewrite Hlog in Hb. split_and!; [done|done|].
        intros He. right. specialize (Hc He). unfold ackedOf in *. by rewrite Hsd in Hc. }
    apply pwp_bind. destruct (dAcks o); [|apply pwp_ret; by apply Hgo].
    apply pwp_bind, atSource_keeps; [done|apply touches_onlyAcks, touches_ackUpdate|].
    intros n2 Hn2 Hlog Hsd _ _. apply pwp_ret. by apply Hgo.
Qed.

Lemma marshalAll_printable recs : printable recs -> is_Some (marshalAll recs).
Proof.
  induction 1 as [|r recs [s Hs] _ [ss Hss]]; cbn [marshalAll]; [done|]. rewrite Hs, Hss. done.
Qed.

Lemma send_keeps recs n :
  netOK n -> cutFrom (srcLog (nHosts n)) recs ->
  pwp (send o recs) n (fun n' e =>
    netOK n' /\ srcGrows n n' /\ (e = None -> disabledIn n' = true \/ ackedOf n < ackedOf n')).
Proof.
  intros Hn Hcut. unfold send. destruct (buildRequest rid pid recs) as [e|req] eqn:Hb.
  { apply pwp_bind, disable_keeps; [done|]. intros n' Hn' Hg Hd. apply pwp_ret. by split_and!. }
  assert (Hreq : isRequest (nHosts n) req) by (by exists recs).
  apply pwp_bind. eapply pwp_mono; [by apply invoke_keeps|]. intros n1 r (Hn1 & Hg1 & Hr).
  assert (Hgrow : srcGrows n n1) by apply Hg1.
  destruct r as [[[]|resp]|].
  - apply pwp_bind. unfold modifySender, modify, pwp at 1. cbn [fst snd]. apply pwp_ret. split_and!; [|done|by left].
    apply (withSender_net (setDisabled (hSender (nHosts n1))) n1 Hn1). by destruct (no_mirrored _ Hn1).
  - by apply pwp_ret; split_and!.
  - eapply pwp_mono; [apply (apply_keeps req resp n1 Hn1)|]; [|done|].
    + eapply isRequest_grow; [exact Hgrow|done].
    + intros n' e (Ha & Hb' & Hc). split_and!; [done|by trans n1|]. unfold ackedOf in *.
      by rewrite <- (go_sender _ _ Hg1).
  - by apply pwp_ret; split_and!.
Qed.

(** *** Draining *)

(** How a drain may run out of fuel: the run is longer than the pages allow, or
    the log has more records behind the position than there are rounds. *)
Definition exhausted (fuel pages : nat) (acked : Z) : Prop :=
  exists w, P w /\
    ((pages <= runLength w rid)%nat \/
     Z.of_nat fuel <= Z.of_nat (length (storedLog (wFS w) rid pid)) - acked + 1).

Definition drained n n' (fuel pages : nat) (r : option (bool * err)) : Prop :=
  match r with
  | None => exhausted fuel pages (ackedOf n)
  | Some (true, e) => e = None /\ Z.of_nat (length (srcLog (nHosts n'))) <= ackedOf n'
  | Some (false, _) => True
  end.

Lemma exhausted_round fuel pages acked acked' :
  acked < acked' -> exhausted fuel pages acked' -> exhausted (S fuel) pages acked.
Proof. intros Hlt (w & HP & [Hp|Hf]); exists w; split; [done|by left|done|right; lia]. Qed.

Lemma drain_disabled fuel pages n :
  disabledIn n = true -> drain o (S fuel) pages n = (n, Some (false, None)).
Proof. unfold disabledIn. intros Hd. cbn [drain]. unfold pbind, sender, look. cbn [fst snd]. by rewrite Hd. Qed.

Lemma drain_keeps fuel pages : forall n,
  netOK n ->
  pwp (drain o fuel pages) n (fun n' r => netOK n' /\ srcGrows n n' /\ drained n n' fuel pages r).
Proof.
  induction fuel as [|fuel IH]; intros n Hn.
  { apply pwp_ret. split_and!; [done|done|]. exists (hSrc (nHosts n)). split; [apply Hn|]. right.
    destruct (no_mirrored _ Hn) as [_ [Hp _]]. unfold ackedOf. change (storedLog _ _ _) with (srcLog (nHosts n)). lia. }
  cbn [drain]. apply pwp_bind, pwp_sender.
  destruct (sdDisabled (hSender (nHosts n))) eqn:Hdis; [by apply pwp_ret|].
  pose proof (no_mirrored _ Hn) as [Hok [Hpos _]]. apply pwp_bind.
  pose proof (ReadAfter_reads (hSrc (nHosts n)) rid pid (Z.to_nat (sdAcked (hSender (nHosts n))))
    (MaxPageBytes - batchReserve) pages (ho_source _ Hok)) as Hread.
  change (storedLog _ _ _) with (srcLog (nHosts n)) in Hread. specialize (Hread ltac:(lia)).
  rewrite Z2Nat.id in Hread by lia. destruct Hread as [Hcalm Hread].
  apply atSource_keeps; [done| |].
  { intros p _. by rewrite (proj1 (proj1 Hcalm)). }
  intros n1 Hn1 Hlog Hsd _ _.
  assert (Hg1 : srcGrows n n1) by (unfold srcGrows; by rewrite Hlog).
  destruct (ReadAfter _ _ _ _ _ _) as [w' [r|]]; cbn [fst snd] in *; [|apply pwp_ret].
  2: { split_and!; [done|done|]. exists (hSrc (nHosts n)). split; [apply Hn|by left]. }
  destruct r as [e|[|rec rest]].
  - destruct (errorsIs e _); [|by apply pwp_ret; split_and!].
    apply pwp_bind, disable_keeps; [done|]. intros n' Hn' Hg Hd. apply pwp_ret. split_and!; [done|by trans n1|done].
  - apply pwp_ret. split_and!; [done|done|]. split; [done|]. rewrite Hlog. unfold ackedOf. rewrite Hsd.
    destruct Hread as [_ Hnil]. specialize (Hnil eq_refl). apply (f_equal length) in Hnil.
    rewrite length_drop in Hnil. cbn in Hnil. lia.
  - destruct Hread as [[j Hj] _]. apply pwp_bind. eapply pwp_mono.
    { apply (send_keeps (rec :: rest) n1 Hn1). rewrite Hlog, Hj.
      eexists (take _ (srcLog (nHosts n))), _. rewrite take_drop. symmetry. apply take_drop. }
    intros n2 e (Hn2 & Hg2 & He). assert (Hg : srcGrows n n2) by (by trans n1).
    destruct e as [e|]; [by apply pwp_ret|].
    assert (Hacked : ackedOf n1 = ackedOf n) by (unfold ackedOf; by rewrite Hsd).
    destruct (He eq_refl) as [Hd|Hlt].
    + destruct fuel as [|fuel]; [|unfold pwp; rewrite drain_disabled by done; by split_and!].
      apply pwp_ret. split_and!; [done|done|]. exists (hSrc (nHosts n)). split; [apply Hn|]. right.
      unfold ackedOf. change (storedLog _ _ _) with (srcLog (nHosts n)). lia.
    + eapply pwp_mono; [by apply IH|]. intros n3 r (Hn3 & Hg3 & Hr). split_and!; [done|by trans n2|].
      destruct r as [[[] e]|]; [done|done|]. rewrite Hacked in Hlt. by eapply exhausted_round.
Qed.

(** *** Flushing, the worker, the life of a sender *)

Lemma exhausted_0 fuel pages acked : 0 <= acked -> exhausted fuel pages acked -> exhausted fuel pages 0.
Proof. intros Ha (w & HP & [Hp|Hf]); exists w; split; [done|by left|done|right; lia]. Qed.
Lemma ackedOf_nonneg n : netOK n -> 0 <= ackedOf n.
Proof. intros Hn. destruct (no_mirrored _ Hn) as [_ [Hp _]]. unfold ackedOf. lia. Qed.

(** Everything at the source is at the destination. *)
Definition complete h : Prop := Forall2 copied (srcLog h) (dstLog h).

Lemma mirrored_complete h :
  mirrored h -> Z.of_nat (length (srcLog h)) <= sdAcked (hSender h) -> sdIncomplete (hSender h) = false ->
  complete h.
Proof.
  intros [Hok [Hp Hi]] Hle Hinc. specialize (Hi Hinc). apply copies_all; [apply Hok|lia].
Qed.

Lemma drainOnce_keeps fuel pages n :
  netOK n ->
  pwp (drainOnce o fuel pages) n (fun n' r => netOK n' /\ srcGrows n n' /\
    match r with
    | None => exhausted fuel pages 0
    | Some true => disabledIn n' = true \/ Z.of_nat (length (srcLog (nHosts n'))) <= ackedOf n'
    | Some false => True
    end).
Proof.
  intros Hn. unfold drainOnce. apply pwp_bind. eapply pwp_mono; [by apply drain_keeps|].
  intros n1 r (Hn1 & Hg1 & Hr). destruct r as [[done e]|]; cbn [drained] in Hr.
  - apply pwp_bind, pwp_sender, pwp_ret. split_and!; [assumption..|]. fold (disabledIn n1).
    destruct done; [|rewrite andb_false_r; cbn [orb]; by destruct (disabledIn n1) eqn:Hd; [left|]].
    destruct Hr as [-> Hr]. cbn. by right.
  - apply pwp_ret. split_and!; [assumption..|]. eapply exhausted_0; [|exact Hr]. by apply ackedOf_nonneg.
Qed.

Definition flushed fuel pages n' (r : option bool) : Prop :=
  match r with
  | None => exhausted fuel pages 0
  | Some true => complete (nHosts n')
  | Some false => True
  end.

Lemma flushLoop_keeps fuel pages retries : forall n,
  netOK n ->
  pwp (flushLoop o fuel pages retries) n (fun n' r => netOK n' /\ srcGrows n n' /\ flushed fuel pages n' r).
Proof.
  induction retries as [|retries IH]; intros n Hn; cbn [flushLoop]; apply pwp_bind;
    (eapply pwp_mono; [by apply drainOnce_keeps|]); intros n1 [[]|] (Hn1 & Hg1 & Hr);
    try (by apply pwp_ret); apply pwp_bind, pwp_sender.
  1, 3: apply pwp_ret; split_and!; [done|done|].
  1, 2: destruct (sdIncomplete _) eqn:Hi, (sdDisabled _) eqn:Hd; try done; cbn [flushed negb andb];
    destruct Hr as [Hr|Hr]; [unfold disabledIn in Hr; congruence|]; apply mirrored_complete; try done; apply Hn1.
  - destruct (sdDisabled _); by apply pwp_ret.
  - destruct (sdDisabled _); [by apply pwp_ret|].
    eapply pwp_mono; [by apply IH|]. intros n2 r2 (? & ? & ?). split_and!; [done|by trans n1|done].
Qed.

Lemma Flush_keeps fuel pages retries locked n :
  netOK n ->
  pwp (Flush o fuel pages retries locked) n (fun n' r => netOK n' /\ srcGrows n n' /\ flushed fuel pages n' r).
Proof.
  intros Hn. unfold Flush. apply pwp_bind, pwp_sender. destruct (sdDisabled _); [by apply pwp_ret; split_and!|].
  destruct locked; [by apply flushLoop_keeps|by apply pwp_ret; split_and!].
Qed.

Lemma worker_keeps fuel pages wakeups : forall n,
  netOK n ->
  pwp (worker o fuel pages wakeups) n (fun n' r =>
    netOK n' /\ srcGrows n n' /\ (r = None -> exhausted fuel pages 0)).
Proof.
  induction wakeups as [|wakeups IH]; intros n Hn; cbn [worker]; [by apply pwp_ret; split_and!|].
  apply pwp_bind. unfold workerDrain. apply pwp_bind, pwp_sender.
  destruct (sdDisabled _); cbn [orb negb]; [by apply pwp_ret, pwp_ret; split_and!|].
  apply pwp_bind. eapply pwp_mono; [by apply drain_keeps|]. intros n1 r (Hn1 & Hg1 & Hr). apply pwp_ret.
  destruct r as [[b e]|].
  - eapply pwp_mono; [by apply IH|]. intros n2 r2 (? & ? & ?). split_and!; [done|by trans n1|done].
  - apply pwp_ret. split_and!; [done|done|]. intros _. eapply exhausted_0; [|exact Hr]. by apply ackedOf_nonneg.
Qed.

(** The position a new sender starts from, if an earlier one left one. *)
Definition startOK h : Prop :=
  dAcks o = true ->
  match (ackLoad (ackKey o) (hSrc h)).2 with
  | inr st => positionOK (withSender (mkSender (sAcked st) false (sGapped st)) h)
  | inl _ => True
  end.

Lemma NewSetupLogSender_keeps n :
  hostsOK (nHosts n) -> P (hSrc (nHosts n)) -> Forall callOK (nCalls n) -> startOK (nHosts n) ->
  pwp (NewSetupLogSender o) n (fun n' _ => netOK n' /\ srcGrows n n').
Proof.
  intros Hok HP Hcalls Hstart.
  assert (Hn0 : forall s, positionOK (withSender s (nHosts n)) -> netOK (onHosts (withSender s) n)).
  { intros s Hpos. split; [|done|done]. split; [by apply withSender_hosts|exact Hpos]. }
  assert (Hzero : positionOK (withSender (mkSender 0 false false) (nHosts n))) by (split; cbn; lia).
  unfold NewSetupLogSender. destruct (dAcks o) eqn:Ha; cbn [negb].
  2: { split; [by apply Hn0|by unfold srcGrows]. }
  specialize (Hstart Ha). set (m := ackLoad (ackKey o)) in *. unfold pwp, pbind, atSource, modify. cbn [fst snd].
  set (s := match (m (hSrc (nHosts n))).2 with inr st => _ | inl _ => _ end).
  assert (Hs : positionOK (withSender s (nHosts n))) by (subst s; by destruct (m (hSrc (nHosts n))).2).
  assert (Hm : onlyAcks (hSrc (nHosts n)) (m (hSrc (nHosts n))).1) by apply touches_onlyAcks, touches_ackLoad.
  apply (atSource_keeps m (onHosts (withSender s) n) (fun n1 _ => netOK n1 /\ srcGrows n n1) (Hn0 s Hs) Hm).
  intros n1 Hn1 Hl _ _ _. split; [done|]. unfold srcGrows. by rewrite Hl.
Qed.

(** The life of a sender: it starts, its worker runs, and it is flushed. *)
Definition session (fuel pages wakeups retries : nat) (locked : bool) : Prg (option bool) :=
  net* _ := NewSetupLogSender o in
  net* r := worker o fuel pages wakeups in
  match r with
  | None => pret None
  | Some _ => Flush o fuel pages retries locked
  end.

Record ready n : Prop := {
  rdy_hosts : hostsOK (nHosts n);
  rdy_P : P (hSrc (nHosts n));
  rdy_calls : Forall callOK (nCalls n);
  rdy_start : startOK (nHosts n);
}.

Lemma session_keeps fuel pages wakeups retries locked n :
  ready n ->
  pwp (session fuel pages wakeups retries locked) n (fun n' r =>
    netOK n' /\ srcGrows n n' /\ flushed fuel pages n' r).
Proof.
  intros [Ha Hb Hc Hd]. unfold session. apply pwp_bind.
  eapply pwp_mono; [by apply NewSetupLogSender_keeps|]. intros n1 [] [Hn1 Hg1].
  apply pwp_bind. eapply pwp_mono; [by apply worker_keeps|]. intros n2 r (Hn2 & Hg2 & Hr).
  assert (Hg : srcGrows n n2) by (by trans n1).
  destruct r as [[]|]; [|apply pwp_ret; split_and!; [done|done|by apply Hr]].
  eapply pwp_mono; [by apply Flush_keeps|]. intros n3 r3 (? & ? & ?). split_and!; [done|by trans n2|done].
Qed.
End Mirroring.

(** ** The theorems *)

Section Theorems.
Context `{JSONLaws LogRecord (clean := cleanRecord)} `{JSON RunManifest} `{JSON AckState} `{IDSource}.
Context `{ProtoSize} `{SHA256Laws} {JC : JSON cursor} {LC : JSONLaws cursor cleanCursor}.
Variable o : SenderOptions.

Definition anyWorld (w : World) : Prop := True.

(** C3: In the run of a sender that is [ready] - the receiver has a copy of a
    beginning of the source's log, and the position an earlier sender stored, if
    any, is not past it or is stored with a gap - the receiver's log stays such a
    copy and the sender's position stays within it unless the sender knows that
    records were left out.  This holds whatever the network does with the calls -
    losing them, losing their answers, delivering old ones again at any time - and
    whichever system calls fail on either host, while other processes append at the
    source and restart the receiver.  That the next sender is ready again is not
    claimed: when recording a gap fails, the stored position forgets it (the
    example [gap_is_forgotten]). *)
Theorem mirror_is_copy n fuel pages wakeups retries locked :
  ready o anyWorld n ->
  mirrored o (nHosts (session o fuel pages wakeups retries locked n).1).
Proof.
  intros Hr. apply (no_mirrored o anyWorld).
  apply (session_keeps o anyWorld (fun _ _ _ _ => I) fuel pages wakeups retries locked n Hr).
Qed.

(** C2: In the run of a sender that is [ready] (as for [mirror_is_copy]: the
    position it starts from is not past the receiver's log, or is stored with a
    gap), a flush that reports success tells the truth, whatever the network and the
    file systems do during the run: the receiving host then holds a copy of every
    record the source has, each as it is or without its text where the receiver was
    short of space. *)
Theorem Flush_complete n fuel pages wakeups retries locked :
  ready o anyWorld n ->
  (session o fuel pages wakeups retries locked n).2 = Some true ->
  complete o (nHosts (session o fuel pages wakeups retries locked n).1).
Proof.
  intros Hr Hs. pose proof (session_keeps o anyWorld (fun _ _ _ _ => I) fuel pages wakeups retries locked n Hr)
    as (_ & _ & Hf). by rewrite Hs in Hf.
Qed.

(** At most [records] records in the log and [total] in the whole run. *)
Definition small (records total : nat) (w : World) : Prop :=
  sourceOK w (dRunID o) (dProducerID o) /\
  (length (storedLog (wFS w) (dRunID o) (dProducerID o)) <= records)%nat /\ (runLength w (dRunID o) <= total)%nat.

(** C18: A sender that is [ready] (as for [mirror_is_copy]) ends: with a source that
    stays within a bound, however the network and the receiver behave, the worker's
    drains and the final flush come to an end, after at most one round per record
    and one page per record of the run. *)
Theorem session_ends n fuel pages wakeups retries locked records total :
  ready o (small records total) n ->
  (total < pages)%nat -> (S records < fuel)%nat ->
  is_Some (session o fuel pages wakeups retries locked n).2.
Proof.
  intros Hr Hp Hf. assert (Hacks : forall w w', onlyAcks w w' -> small records total w -> small records total w').
  { intros w w' Hw (Hs & Hl & Ht). destruct (onlyAcks_source _ _ _ _ Hw Hs) as (Hs' & Hl' & Ht').
    split; [done|]. by rewrite Hl', Ht'. }
  pose proof (session_keeps o (small records total) Hacks fuel pages wakeups retries locked n Hr) as (_ & _ & Hd).
  revert Hd. destruct (session o fuel pages wakeups retries locked n).2 as [b|]; [by exists b|].
  intros Hd. destruct Hd as (w & (_ & Hl & Ht) & [Hle|Hle]); lia.
Qed.
End Theorems.
