(* ===== verification/LogRecorder.v ===== *)
(** The recorder of a producer (src/pkg/workspacelogs/recorder.go): numbered
    records, its error state, and the writers that turn a command's output into
    records. *)
From S2P Require Import Prelude GoStd GoText Redact LogTypes LogManifest LogFS LogStore LogSegment LogReader.

(** ** The persistence a recorder writes to *)

Class Backend := {
  bRegisterProducer : string -> ProducerRef -> St (goerr + unit);
  bAppend : list LogRecord -> St (AppendResult * err);
  bAddCondition : string -> string -> St (goerr + unit);
}.
#[export] Instance storeBackend `{JSON LogRecord} `{JSON RunManifest} : Backend := {
  bRegisterProducer := RegisterProducer;
  bAppend := LogSegment.Append;
  bAddCondition := AddCondition;
}.

Record RecorderOptions := mkRecorderOptions {
  oRunID : string;
  oLocation : string;
  oProducerID : string;
  oResumed : bool;
  oParentProducerID : string;
  oRedactor : option Redactor;
}.

(** One hook or build step transition; the duration is in nanoseconds. *)
Record Invocation := mkInvocation {
  vID : string;
  vPhase : string;
  vHook : string;
  vIndex : option Z;
  vKey : string;
  vState : string;
  vReason : string;
  vExitCode : option Z;
  vSignal : string;
  vDuration : Z;
}.

Record Recorder := mkRecorder {
  rcOpts : RecorderOptions;
  rcProducerID : string;
  rcSeq : Z;
  rcPersisted : Z;
  rcErr : err;
  rcDisabled : bool;
}.
Definition withSeq (seq persisted : Z) (r : Recorder) : Recorder :=
  mkRecorder (rcOpts r) (rcProducerID r) seq persisted (rcErr r) (rcDisabled r).
Definition withFailure (e : err) (r : Recorder) : Recorder :=
  mkRecorder (rcOpts r) (rcProducerID r) (rcSeq r) (rcPersisted r) e true.

(** ** Records a recorder builds *)

(** A record whose schema version, run, producer, sequence and time
    [appendLocked] fills in. *)
Definition stamp (runID producerID : string) (seq time : Z) (r : LogRecord) : LogRecord :=
  mkRecord SchemaVersion (rKind r) runID producerID seq time
    (rParentProducerID r) (rChildProducerID r) (rProducerState r) (rDiscoverySealed r)
    (rInvocationID r) (rPhase r) (rHook r) (rHookIndex r) (rHookKey r) (rLocation r) (rState r)
    (rReason r) (rDurationMillis r) (rExitCode r) (rSignal r) (rStream r) (rText r) (rBytes r)
    (rElided r) (rCondition r) (rDetail r) (rDroppedBytes r).

Definition producerRecord (parent child state location detail : string) (sealed : bool) : LogRecord :=
  mkRecord 0 KindProducer "" "" 0 0 parent child state sealed "" "" "" None "" location "" ""
    None None "" "" "" 0 false "" detail 0.
Definition captureRecord (c detail : string) (dropped : Z) : LogRecord :=
  mkRecord 0 KindCapture "" "" 0 0 "" "" "" false "" "" "" None "" "" "" ""
    None None "" "" "" 0 false c detail dropped.
Definition outputRecord (invocationID stream chunk : string) : LogRecord :=
  mkRecord 0 KindOutput "" "" 0 0 "" "" "" false invocationID "" "" None "" "" "" ""
    None None "" stream chunk (len chunk) false "" "" 0.

Definition truncateDetail (s : string) : string :=
  if len s <=? MaxDetailBytes then s
  else string_take (backToRuneStart (Z.to_nat MaxDetailBytes) s) s.

Definition planSkipReasons : list string :=
  ["no_command_configured"; "explicit_skip"; "prebuild_excluded"; "recovery_excluded"].
Definition repeatsPlan (inv : Invocation) : bool :=
  if one_of (vState inv) [InvocationPending; InvocationDeferred] then true
  else if bool_decide (vState inv = InvocationSkipped) then one_of (vReason inv) planSkipReasons
  else false.

Definition invocationRecord (opts : RecorderOptions) (inv : Invocation) : LogRecord :=
  mkRecord 0 KindInvocation "" "" 0 0 "" "" "" false
    (vID inv) (vPhase inv) (vHook inv) (vIndex inv) (truncateDetail (vKey inv)) (oLocation opts)
    (vState inv) (truncateDetail (vReason inv))
    (if 0 <? vDuration inv then Some (vDuration inv / 1000000) else None)
    (vExitCode inv) (vSignal inv) "" "" 0 false "" "" 0.

(** The record [Close] writes; a producer whose first record it is names its
    parent and location. *)
Definition closeRecord (r : Recorder) (state : string) (sealed : bool) : LogRecord :=
  if rcPersisted r =? 0
  then producerRecord (oParentProducerID (rcOpts r)) "" state (oLocation (rcOpts r)) "" sealed
  else producerRecord "" "" state "" "" sealed.

(** ** Text *)

(** [strings.ToValidUTF8] with U+FFFD: one for every run of invalid bytes. *)
Fixpoint toValidFrom (invalid : bool) (s : string) : string :=
  match s with
  | EmptyString => ""
  | String b0 s1 =>
      match rune_len s, s1 with
      | 1%nat, _ => String b0 (toValidFrom false s1)
      | 2%nat, String b1 s2 => String b0 (String b1 (toValidFrom false s2))
      | 3%nat, String b1 (String b2 s3) => String b0 (String b1 (String b2 (toValidFrom false s3)))
      | 4%nat, String b1 (String b2 (String b3 s4)) =>
          String b0 (String b1 (String b2 (String b3 (toValidFrom false s4))))
      | _, _ => (if invalid then "" else replacement) +:+ toValidFrom true s1
      end
  end.
Definition ToValidUTF8 (s : string) : string := toValidFrom false s.

(** [utf8.FullRune]: an invalid encoding is full. *)
Definition FullRune (s : string) : bool :=
  match s with
  | EmptyString => false
  | String b0 s1 =>
      (Nat.max 1 (rune_size b0) <=? String.length s)%nat ||
      match s1 with
      | EmptyString => false
      | String b1 s2 =>
          negb (second_ok b0 b1) || match s2 with String b2 _ => negb (is_cont b2) | EmptyString => false end
      end
  end.

(** The loop of [completeUTF8] from the [back]-th byte before the end. *)
Fixpoint completeLoop (n back : nat) (data : string) : nat :=
  match n with
  | O => String.length data
  | S n' =>
      if (back <=? String.length data)%nat then
        let i := (String.length data - back)%nat in
        match String.get i data with
        | Some c =>
            if RuneStart c then (if FullRune (string_drop i data) then String.length data else i)
            else completeLoop n' (S back) data
        | None => String.length data
        end
      else String.length data
  end.
Definition completeUTF8 (data : string) : nat := completeLoop 3 1 data.

(** ** The operations *)

Section Recorder.
Context `{Backend}.

(** [r.mu] is held; a record is appended on its own. *)
Definition appendLocked (r : Recorder) (rec : LogRecord) : St (Recorder * err) :=
  let seq := u64 (rcSeq r + 1) in
  let* time := now in
  let* out := bAppend [stamp (oRunID (rcOpts r)) (rcProducerID r) seq time rec] in
  let '(res, e) := out in
  let persisted := Z.max (rcPersisted r) (aAccepted res) in
  ret (withSeq (match e with None => seq | Some _ => persisted end) persisted r, e).

Definition failLocked (r : Recorder) (e : goerr) : St Recorder :=
  match rcErr r with
  | None => let* _ := bAddCondition (oRunID (rcOpts r)) ConditionWriteError in ret (withFailure (Some e) r)
  | Some e0 => ret (withFailure (Some e0) r)
  end.

Definition emit (r : Recorder) (rec : LogRecord) : St Recorder :=
  if rcDisabled r then ret r
  else
    let* out := appendLocked r rec in
    match out with
    | (r', None) => ret r'
    | (r', Some e) =>
        if bool_decide (rKind rec = KindOutput) && errorsIs e "workspacelogs.ErrCapacity"
        then let* _ := bAddCondition (oRunID (rcOpts r)) ConditionCapacity in ret r'
        else failLocked r' e
    end.

Fixpoint emitAll (r : Recorder) (recs : list LogRecord) : St Recorder :=
  match recs with
  | [] => ret r
  | rec :: rest => let* r' := emit r rec in emitAll r' rest
  end.

Definition recordInvocation (r : Recorder) (inv : Invocation) : St Recorder :=
  if oResumed (rcOpts r) && repeatsPlan inv then ret r
  else emit r (invocationRecord (rcOpts r) inv).

Definition Capture (r : Recorder) (c detail : string) (dropped : Z) : St Recorder :=
  emit r (captureRecord c (truncateDetail detail) dropped).

Definition MarkChild (r : Recorder) (id state reason : string) : St Recorder :=
  emit r (producerRecord "" id state "" (truncateDetail reason) false).

Definition SealDiscovery (r : Recorder) : St Recorder :=
  emit r (producerRecord "" "" "" "" "" true).

Definition Close (r : Recorder) (state : string) (sealed : bool) : St Recorder :=
  let* out := appendLocked r (closeRecord r state sealed) in
  match out with
  | (r', Some e) => if rcDisabled r' then ret r' else failLocked r' e
  | (r', None) => ret r'
  end.

Context `{IDSource}.

Definition ReserveChild (r : Recorder) (location : string) : St (Recorder * string) :=
  let* id := NewID in
  let* r' := emit r (producerRecord "" id ProducerReserved location "" false) in
  ret (r', id).

Definition newRecorder (opts : RecorderOptions) (id : string) : Recorder :=
  mkRecorder opts id 0 0 None false.
Definition NewRecorder (opts : RecorderOptions) : St (Recorder * err) :=
  let* id := (if ValidID (oProducerID opts) then ret (oProducerID opts) else NewID) in
  let r := newRecorder opts id in
  let* registered := bRegisterProducer (oRunID opts)
                       (mkProducerRef id (oParentProducerID opts) ProducerRunning (oLocation opts) false) in
  match registered with
  | inl e => let* r' := failLocked r e in ret (r', Some e)
  | inr _ =>
      let* r' := emit r (producerRecord (oParentProducerID opts) "" ProducerRunning (oLocation opts) "" false) in
      ret (r', None)
  end.

(** ** Writers *)

Record DiagnosticWriter := mkDiagnosticWriter {
  dwInvocationID : string;
  dwStream : string;
  dwRedactor : StreamingRedactor;
  dwPartial : string;
  dwClosed : bool;
}.

Definition WriterRedacting (r : Recorder) (invocationID stream : string) (extra : option Redactor)
    : DiagnosticWriter :=
  let redactor := match extra with
                  | None => oRedactor (rcOpts r)
                  | Some _ => Some (Combine [oRedactor (rcOpts r); extra])
                  end in
  mkDiagnosticWriter invocationID stream (NewStreamingRedactor redactor) "" false.
Definition Writer (r : Recorder) (invocationID stream : string) : DiagnosticWriter :=
  WriterRedacting r invocationID stream None.

(** The records of a text. *)
Definition textRecords (w : DiagnosticWriter) (text : string) : list LogRecord :=
  map (outputRecord (dwInvocationID w) (dwStream w)) (SplitText text MaxChunkBytes).
Definition record (w : DiagnosticWriter) (r : Recorder) (text : string) : St Recorder :=
  emitAll r (textRecords w text).

Section Writing.
Context (lowerRune : string -> string).

(** The writer after a write and the text it records; [None] is a panic of the
    redactor. *)
Definition writeText (w : DiagnosticWriter) (p : string) : option (DiagnosticWriter * string) :=
  if dwClosed w then Some (w, "")
  else
    let data := dwPartial w +:+ p in
    let cut := completeUTF8 data in
    '(red, text) ← RedactChunk lowerRune (dwRedactor w) (ToValidUTF8 (string_take cut data));
    Some (mkDiagnosticWriter (dwInvocationID w) (dwStream w) red (string_drop cut data) false, text).
Definition closeText (w : DiagnosticWriter) : option (DiagnosticWriter * string) :=
  if dwClosed w then Some (w, "")
  else
    '(red, tail) ← RedactChunk lowerRune (dwRedactor w) (ToValidUTF8 (dwPartial w));
    let '(red', rest) := Flush red in
    Some (mkDiagnosticWriter (dwInvocationID w) (dwStream w) red' "" true, tail +:+ rest).

Definition recorded (r : Recorder) (x : option (DiagnosticWriter * string))
    : St (option (Recorder * DiagnosticWriter)) :=
  match x with
  | None => ret None
  | Some (w', text) => let* r' := record w' r text in ret (Some (r', w'))
  end.
Definition Write (w : DiagnosticWriter) (r : Recorder) (p : string) : St (option (Recorder * DiagnosticWriter)) :=
  recorded r (writeText w p).
Definition CloseWriter (w : DiagnosticWriter) (r : Recorder) : St (option (Recorder * DiagnosticWriter)) :=
  recorded r (closeText w).

(** Everything a writer records of an output that is written in pieces. *)
Fixpoint writeTexts (w : DiagnosticWriter) (chunks : list string) : option (DiagnosticWriter * list string) :=
  match chunks with
  | [] => '(w', text) ← closeText w; Some (w', SplitText text MaxChunkBytes)
  | p :: rest =>
      '(w1, text) ← writeText w p;
      '(w2, texts) ← writeTexts w1 rest;
      Some (w2, SplitText text MaxChunkBytes ++ texts)
  end.
End Writing.
End Recorder.
