(* ===== verification/LogRecorded.v ===== *)
(** What a recorder leaves in the store, and what a writer records of an output. *)
From S2P Require Import Prelude GoStd GoText Redact RedactMask RedactStream LogTypes LogManifest LogFS LogStore LogSegment LogDisk LogDurable LogSystem LogReader LogRecorder.

(** ** What a recorder relies on *)

(** The promises of the persistence about one producer's log: [sound] is the
    state it is in between operations, [log] what is stored. *)
Class BackendLaws `{Backend} (sound : World -> string -> string -> Prop)
    (log : World -> string -> string -> list LogRecord) := {
  law_small w rid pid : sound w rid pid -> Z.of_nat (length (log w rid pid)) < 2 ^ 64;
  law_clock w w' rid pid : sameStore w w' -> sound w rid pid ->
    sound w' rid pid /\ log w' rid pid = log w rid pid;
  law_register run ref w rid pid : sound w rid pid ->
    let w' := (bRegisterProducer run ref w).1 in sound w' rid pid /\ log w' rid pid = log w rid pid;
  law_condition run c w rid pid : sound w rid pid ->
    let w' := (bAddCondition run c w).1 in sound w' rid pid /\ log w' rid pid = log w rid pid;
  law_append rec w : typedRecord rec -> sound w (rRunID rec) (rProducerID rec) ->
    let out := bAppend [rec] w in
    sound out.1 (rRunID rec) (rProducerID rec) /\
    (out.2.2 = None -> Validate rec = None) /\
    exists applied,
      log out.1 (rRunID rec) (rProducerID rec) =
        log w (rRunID rec) (rProducerID rec) ++ map cleanRecord applied /\
      Forall2 storedAs
        (take (length applied) (missing (log w (rRunID rec) (rProducerID rec)) [rec])) applied /\
      (aAccepted out.2.1 = Z.of_nat (length (log out.1 (rRunID rec) (rProducerID rec))) \/
       (aAccepted out.2.1 = 0 /\ applied = [])) /\
      (out.2.2 = None ->
         length applied = length (missing (log w (rRunID rec) (rProducerID rec)) [rec]));
}.

Section Store.
Context `{JSONLaws LogRecord (clean := cleanRecord)} `{JSON RunManifest}.

Lemma sameStore_quiet w w' : sameStore w w' -> quiet w w'.
Proof. intros [Hf Ht]. by split; rewrite ?Hf. Qed.
Lemma Append_valid rec w : (LogSegment.Append [rec] w).2.2 = None -> Validate rec = None.
Proof.
  unfold LogSegment.Append. destruct (validateBatch [rec]) as [e|] eqn:Hv; [done|]. intros _.
  cbn [validateBatch validateBatchFrom] in Hv. by apply andThen_None in Hv as [? _].
Qed.

#[export] Instance storeBackend_laws :
  BackendLaws storeOK (fun w rid pid => storedLog (wFS w) rid pid).
Proof.
  assert (Hquiet : forall w w' rid pid, quiet w w' -> storeOK w rid pid ->
    storeOK w' rid pid /\ storedLog (wFS w') rid pid = storedLog (wFS w) rid pid).
  { intros w w' rid pid Hq Hok. split; [by eapply quiet_storeOK|by apply quiet_storedLog]. }
  split.
  - intros w rid pid [[L HL] _]. apply HL.
  - intros w w' rid pid Hs. by apply Hquiet, sameStore_quiet.
  - intros run ref w rid pid. apply Hquiet, harmless_RegisterProducer.
  - intros run c w rid pid. apply Hquiet. eapply harmless_runFile, touches_AddCondition.
  - intros rec w Ht Hok. cbn [bAppend storeBackend].
    pose proof (Append_wp w rec [] (Forall_cons_2 _ _ _ Ht (Forall_nil_2 _)) Hok) as (applied & Hext & Hacc & Hdone).
    split; [apply Hext|]. split; [apply Append_valid|]. exists applied. destruct Hext as [_ Hlog Hst].
    split_and!; [done|done|naive_solver|]. intros He. by apply Hdone.
Qed.
End Store.

(** ** A recorder and its log *)

(** The calls on a recorder; [CRecord] is what the writers of its streams do. *)
Inductive Call :=
  | CInvocation (inv : Invocation)
  | CCapture (c detail : string) (dropped : Z)
  | CReserveChild (location : string)
  | CMarkChild (id state reason : string)
  | CSealDiscovery
  | CRecord (w : DiagnosticWriter) (text : string)
  | CClose (state : string) (sealed : bool).

Section Recorded.
Context `{BackendLaws} `{IDSource}.

Definition runCall (c : Call) (r : Recorder) : St Recorder :=
  match c with
  | CInvocation inv => recordInvocation r inv
  | CCapture c detail dropped => Capture r c detail dropped
  | CReserveChild location => let* x := ReserveChild r location in ret x.1
  | CMarkChild id state reason => MarkChild r id state reason
  | CSealDiscovery => LogRecorder.SealDiscovery r
  | CRecord w text => record w r text
  | CClose state sealed => Close r state sealed
  end.

(** The records a call means to store. *)
Definition sentBy (c : Call) (r : Recorder) (w : World) : list LogRecord :=
  match c with
  | CInvocation inv =>
      if oResumed (rcOpts r) && repeatsPlan inv then [] else [invocationRecord (rcOpts r) inv]
  | CCapture c detail dropped => [captureRecord c (truncateDetail detail) dropped]
  | CReserveChild location => [producerRecord "" (NewID w).2 ProducerReserved location "" false]
  | CMarkChild id state reason => [producerRecord "" id state "" (truncateDetail reason) false]
  | CSealDiscovery => [producerRecord "" "" "" "" "" true]
  | CRecord dw text => textRecords dw text
  | CClose state sealed => [closeRecord r state sealed]
  end.

(** Calls on a recorder, between which anything may happen to the world that
    leaves the log of this producer alone. *)
Inductive recording : Recorder -> World -> list LogRecord -> Recorder -> World -> Prop :=
| rec_end r w : recording r w [] r w
| rec_call c r w sent r' w' :
    recording (runCall c r w).2 (runCall c r w).1 sent r' w' ->
    recording r w (sentBy c r w ++ sent) r' w'
| rec_others r w w1 sent r' w' :
    sound w1 (oRunID (rcOpts r)) (rcProducerID r) ->
    log w1 (oRunID (rcOpts r)) (rcProducerID r) = log w (oRunID (rcOpts r)) (rcProducerID r) ->
    recording r w1 sent r' w' -> recording r w sent r' w'.

(** The records of a log are what is stored of [kept], numbered from 1. *)
Definition storedRecords (rid pid : string) (kept stored : list LogRecord) : Prop :=
  length stored = length kept /\
  forall i rec s, kept !! i = Some rec -> stored !! i = Some s ->
    exists time st, storedAs (stamp rid pid (Z.of_nat i + 1) time rec) st /\ s = cleanRecord st.

Lemma storedRecords_snoc rid pid kept stored rec time st :
  storedRecords rid pid kept stored ->
  storedAs (stamp rid pid (Z.of_nat (length stored) + 1) time rec) st ->
  storedRecords rid pid (kept ++ [rec]) (stored ++ [cleanRecord st]).
Proof.
  intros [Hl Hs] Hst. split; [rewrite !length_app; cbn; lia|]. intros i x s.
  rewrite !lookup_snoc_Some. intros [[? Hi]|[-> <-]] [[? Hj]|[? <-]]; [by eapply Hs|lia|lia|].
  exists time, st. by rewrite <- Hl.
Qed.

(** The recorder agrees with the store, which holds what is stored of [kept]. *)
Record holds (rid pid : string) (r : Recorder) (w : World) (kept : list LogRecord) : Prop := {
  h_run : oRunID (rcOpts r) = rid;
  h_producer : rcProducerID r = pid;
  h_sound : sound w rid pid;
  h_seq : rcSeq r = Z.of_nat (length (log w rid pid));
  h_persisted : rcPersisted r = Z.of_nat (length (log w rid pid));
  h_stored : storedRecords rid pid kept (log w rid pid);
  h_disabled : rcDisabled r = true -> rcErr r <> None;
}.

Lemma holds_world rid pid r w w' kept :
  holds rid pid r w kept -> sound w' rid pid -> log w' rid pid = log w rid pid -> holds rid pid r w' kept.
Proof. intros [] Hs Hl. by split; rewrite ?Hl. Qed.

Lemma stamp_fields rid pid seq time rec :
  rRunID (stamp rid pid seq time rec) = rid /\ rProducerID (stamp rid pid seq time rec) = pid /\
  rSequence (stamp rid pid seq time rec) = seq.
Proof. done. Qed.

(** One append: the record is stored or it is not, and the next sequence number
    is one behind the log in both cases. *)
Lemma appendLocked_holds rid pid r w kept rec :
  holds rid pid r w kept ->
  wp (LogRecorder.appendLocked r rec) w (fun w' out => exists more,
    holds rid pid out.1 w' (kept ++ more) /\ (more = [] \/ more = [rec]) /\
    (out.2 = None -> more = [rec]) /\
    rcErr out.1 = rcErr r /\ rcDisabled out.1 = rcDisabled r).
Proof.
  intros [Hr Hp Hs Hseq Hper Hst Hd]. unfold LogRecorder.appendLocked. rewrite Hr, Hp.
  apply wp_bind, now_wp. intros w1 time Hsame. destruct (law_clock _ _ _ _ Hsame Hs) as [Hs1 Hl1].
  pose proof (law_small _ _ _ Hs) as Hsmall. rewrite <- Hl1 in *.
  set (seq := u64 (rcSeq r + 1)). set (x := stamp rid pid seq time rec).
  apply wp_bind. unfold wp at 1.
  assert (Ht : typedRecord x) by (apply Z.mod_pos_bound; lia).
  destruct (law_append x w1 Ht Hs1) as (Hs2 & Hvalid & applied & Hlog & Happ & Hacc & Hall).
  destruct (bAppend [x] w1) as [w2 [res e]]. cbn [fst snd] in *. apply wp_ret. cbn [fst snd].
  change (rRunID x) with rid in *. change (rProducerID x) with pid in *.
  assert (Hone : applied = [] \/ exists st, applied = [st] /\ storedAs x st /\
                   seq = Z.of_nat (length (log w1 rid pid)) + 1).
  { unfold missing in Happ, Hall. destruct applied as [|st rest]; [by left|right].
    rewrite filter_cons in Happ. case_decide as Hlt; [|by inversion Happ].
    cbn in Happ. inversion Happ as [|? ? ? ? Hst1 Hrest]; subst. rewrite take_nil in Hrest.
    inversion Hrest; subst. exists st. split_and!; [done|done|].
    change (rSequence x) with seq in Hlt. unfold seq, u64 in *.
    destruct (decide (rcSeq r + 1 < 2 ^ 64)); [rewrite Z.mod_small in * by lia; lia|].
    replace (rcSeq r + 1) with (2 ^ 64) in Hlt by lia. rewrite Z.mod_same in Hlt by done. lia. }
  assert (Hne : e = None -> applied <> []).
  { intros -> ->. specialize (Hall eq_refl). specialize (Hvalid eq_refl).
    apply Validate_None in Hvalid as (_ & _ & _ & Hpos & _). change (rSequence x) with seq in Hpos.
    unfold missing in Hall. rewrite filter_cons in Hall. case_decide as Hlt; [done|].
    change (rSequence x) with seq in Hlt. unfold seq, u64 in *.
    destruct (decide (rcSeq r + 1 < 2 ^ 64)); [rewrite Z.mod_small in Hlt by lia; lia|].
    replace (rcSeq r + 1) with (2 ^ 64) in Hpos by lia. rewrite Z.mod_same in Hpos by done. lia. }
  destruct Hone as [->|(st & -> & Hst1 & Hseq1)].
  - exists []. rewrite app_nil_r. rewrite app_nil_r in Hlog. destruct e as [e|]; [|by destruct Hne].
    split_and!; [|by left|done|done|done]. split; cbn [withSeq rcOpts rcProducerID rcSeq rcPersisted rcErr rcDisabled];
      rewrite ?Hlog in *; try done; destruct Hacc as [->|[-> _]]; lia.
  - exists [rec]. split_and!; [|by right|done|done|done].
    rewrite Hlog, length_app in Hacc. cbn [length map] in Hacc.
    assert (Hper' : Z.max (rcPersisted r) (aAccepted res) = seq) by (destruct Hacc as [->|[_ ?]]; [lia|done]).
    split; cbn [withSeq rcOpts rcProducerID rcSeq rcPersisted rcErr rcDisabled];
      rewrite ?Hlog, ?length_app; cbn [length map]; try done; try lia; [destruct e; lia|].
    apply (storedRecords_snoc _ _ _ _ _ time); [done|]. by rewrite <- Hseq1.
Qed.

Lemma failLocked_holds rid pid r w kept e :
  holds rid pid r w kept ->
  wp (failLocked r e) w (fun w' r' => holds rid pid r' w' kept /\ rcErr r' <> None).
Proof.
  intros Hh. unfold failLocked. destruct (rcErr r) as [e0|] eqn:He.
  - apply wp_ret. split; [|done]. by destruct Hh.
  - apply wp_bind. unfold wp at 1. rewrite (h_run _ _ _ _ _ Hh).
    destruct (law_condition rid ConditionWriteError w rid pid (h_sound _ _ _ _ _ Hh)) as [Hs Hl].
    apply wp_ret. split; [|done]. apply (holds_world _ _ _ w); [|done..]. by destruct Hh.
Qed.

(** ** What an operation stores *)

Definition notOutput (r : LogRecord) : Prop := rKind r <> KindOutput.

(** Of the records [recs] some are stored, in this order; as long as the
    recorder has no error, all but output records are. *)
Definition outcome (rid pid : string) (r : Recorder) (kept recs : list LogRecord) (w' : World) (r' : Recorder) : Prop :=
  exists more, holds rid pid r' w' (kept ++ more) /\ more `sublist_of` recs /\
    (rcErr r' = None -> rcErr r = None /\ base.filter notOutput more = base.filter notOutput recs).

Lemma outcome_none rid pid r w kept : holds rid pid r w kept -> outcome rid pid r kept [] w r.
Proof. intros Hh. exists []. rewrite app_nil_r. by split_and!. Qed.

Lemma failed_outcome rid pid r r' w kept more recs :
  holds rid pid r' w (kept ++ more) -> more `sublist_of` recs -> rcErr r' <> None -> outcome rid pid r kept recs w r'.
Proof. intros Hh Hm He. by exists more. Qed.

Lemma emit_outcome rid pid r w kept rec :
  holds rid pid r w kept -> wp (emit r rec) w (outcome rid pid r kept [rec]).
Proof.
  intros Hh. unfold emit. destruct (rcDisabled r) eqn:Hd.
  { apply wp_ret, (failed_outcome _ _ _ _ _ _ []); [by rewrite app_nil_r|apply sublist_nil_l|].
    by apply (h_disabled _ _ _ _ _ Hh). }
  apply wp_bind. eapply wp_mono; [by apply appendLocked_holds|].
  intros w1 [r1 e] (more & Hh1 & Hmore & Hdone & He & _). cbn [fst snd] in *.
  assert (Hsub : more `sublist_of` [rec]) by (destruct Hmore as [->| ->]; [apply sublist_nil_l|done]).
  destruct e as [e|].
  - destruct (bool_decide (rKind rec = KindOutput) && errorsIs e "workspacelogs.ErrCapacity") eqn:Hcap.
    + apply andb_true_iff in Hcap as [Hk%bool_decide_eq_true _]. apply wp_bind. unfold wp at 1.
      rewrite (h_run _ _ _ _ _ Hh).
      destruct (law_condition rid ConditionCapacity w1 rid pid (h_sound _ _ _ _ _ Hh1)) as [Hs Hl].
      apply wp_ret. exists more. split_and!; [by eapply holds_world|done|]. intros Hnone. split; [congruence|].
      assert (Hno : ~ notOutput rec) by (unfold notOutput; tauto).
      destruct Hmore as [->| ->]; by rewrite ?filter_cons_False, ?filter_nil by done.
    + eapply wp_mono; [by apply failLocked_holds|]. intros w2 r2 [Hh2 Hne]. by eapply failed_outcome.
  - apply wp_ret. exists more. split_and!; [done|done|]. intros Hnone. split; [congruence|].
    by rewrite (Hdone eq_refl).
Qed.

Lemma outcome_trans rid pid r1 r2 kept recs1 recs2 more w :
  more `sublist_of` recs1 ->
  (rcErr r2 = None -> rcErr r1 = None /\ base.filter notOutput more = base.filter notOutput recs1) ->
  forall r3, outcome rid pid r2 (kept ++ more) recs2 w r3 -> outcome rid pid r1 kept (recs1 ++ recs2) w r3.
Proof.
  intros Hs He r3 (more2 & Hh & Hs2 & He2). exists (more ++ more2). rewrite (assoc_L (++)).
  split_and!; [done|by apply sublist_app|]. intros H3. destruct (He2 H3) as [Hr2 Hf2]. destruct (He Hr2) as [Hr1 Hf1].
  split; [done|]. by rewrite !filter_app, Hf1, Hf2.
Qed.

Lemma emitAll_outcome rid pid recs : forall r w kept,
  holds rid pid r w kept -> wp (emitAll r recs) w (outcome rid pid r kept recs).
Proof.
  induction recs as [|rec recs IH]; intros r w kept Hh; cbn [emitAll].
  { by apply wp_ret, outcome_none. }
  apply wp_bind. eapply wp_mono; [by apply emit_outcome|]. intros w1 r1 (more & Hh1 & Hs & He).
  eapply wp_mono; [by apply IH|]. intros w2 r2. by apply (outcome_trans _ _ _ _ _ [rec]).
Qed.

Lemma Close_outcome rid pid r w kept state sealed :
  holds rid pid r w kept ->
  wp (Close r state sealed) w (outcome rid pid r kept [closeRecord r state sealed]).
Proof.
  intros Hh. unfold Close. apply wp_bind. eapply wp_mono; [by apply appendLocked_holds|].
  intros w1 [r1 e] (more & Hh1 & Hmore & Hdone & He & Hd). cbn [fst snd] in *.
  assert (Hsub : more `sublist_of` [closeRecord r state sealed])
    by (destruct Hmore as [->| ->]; [apply sublist_nil_l|done]).
  destruct e as [e|].
  - destruct (rcDisabled r1) eqn:Hd1.
    + apply wp_ret. eapply failed_outcome; [done..|]. by apply (h_disabled _ _ _ _ _ Hh1).
    + eapply wp_mono; [by apply failLocked_holds|]. intros w2 r2 [Hh2 Hne]. by eapply failed_outcome.
  - apply wp_ret. exists more. split_and!; [done|done|]. intros Hnone. split; [congruence|].
    by rewrite (Hdone eq_refl).
Qed.

Lemma runCall_outcome rid pid c r w kept :
  holds rid pid r w kept -> wp (runCall c r) w (outcome rid pid r kept (sentBy c r w)).
Proof.
  intros Hh. destruct c as [inv|c detail dropped|location|id state reason| |dw text|state sealed];
    cbn [runCall sentBy]; try by apply emit_outcome.
  - unfold recordInvocation. destruct (_ && _); [by apply wp_ret, outcome_none|by apply emit_outcome].
  - apply wp_bind, wp_bind. unfold wp at 1. cbn [NewID fst snd]. apply wp_bind.
    match goal with |- wp _ ?w1 _ => assert (Hw1 : sameStore w w1) by done end.
    destruct (law_clock _ _ _ _ Hw1 (h_sound _ _ _ _ _ Hh)) as [Hs Hl].
    eapply wp_mono; [by apply emit_outcome; eapply holds_world|]. intros w2 r2 Ho. by do 2 apply wp_ret.
  - by apply emitAll_outcome.
  - by apply Close_outcome.
Qed.

Lemma recording_outcome rid pid r w sent r' w' :
  recording r w sent r' w' -> forall kept, holds rid pid r w kept -> outcome rid pid r kept sent w' r'.
Proof.
  induction 1 as [r w|c r w sent r' w' _ IH|r w w1 sent r' w' Hs Hl _ IH]; intros kept Hh.
  - by apply outcome_none.
  - destruct (runCall_outcome _ _ c _ _ _ Hh) as (more & Hh1 & Hsub & He).
    eapply outcome_trans; [done..|]. by apply IH.
  - apply IH. rewrite (h_run _ _ _ _ _ Hh), (h_producer _ _ _ _ _ Hh) in Hs, Hl. by eapply holds_world.
Qed.

(** C30: Whatever calls a recorder of a new producer gets, whatever system calls
    fail under them and whatever other processes do in between: the log of the
    producer is a selection of the records that were sent, in their order,
    numbered 1, 2, ... without gap; the recorder's own counters are the length
    of that log; and as long as the recorder has no error, every record that is
    not output was stored. *)
Theorem recorder_accounts opts id w sent r w' :
  sound w (oRunID opts) id -> log w (oRunID opts) id = [] ->
  recording (newRecorder opts id) w sent r w' ->
  exists kept,
    storedRecords (oRunID opts) id kept (log w' (oRunID opts) id) /\ kept `sublist_of` sent /\
    (rcErr r = None -> base.filter notOutput kept = base.filter notOutput sent) /\
    rcSeq r = Z.of_nat (length kept) /\ rcPersisted r = Z.of_nat (length kept).
Proof.
  intros Hs Hl Hrun.
  assert (Hh : holds (oRunID opts) id (newRecorder opts id) w []).
  { split; cbn [newRecorder rcOpts rcProducerID rcSeq rcPersisted rcErr rcDisabled]; rewrite ?Hl; by try split. }
  destruct (recording_outcome _ _ _ _ _ _ _ Hrun _ Hh) as (kept & [_ _ _ Hseq Hper Hst _] & Hsub & He).
  exists kept. pose proof (proj1 Hst) as Hlen. cbn [app] in *. rewrite Hlen in *.
  split_and!; [done|done|naive_solver|done|done].
Qed.
End Recorded.

(** ** Encoded characters *)

Lemma in_range_iff lo hi c : in_range lo hi c = true <-> lo <= byte c <= hi.
Proof. unfold in_range. rewrite andb_true_iff, !Z.leb_le. done. Qed.
Lemma second_ok_cont b0 b1 : second_ok b0 b1 = true -> RuneStart b1 = false.
Proof.
  unfold RuneStart, second_ok, is_cont. intros H. apply negb_false_iff, in_range_iff.
  repeat case_match; apply in_range_iff in H; lia.
Qed.
Lemma is_cont_RuneStart c : is_cont c = true -> RuneStart c = false.
Proof. unfold RuneStart. by intros ->. Qed.
Lemma rune_size_RuneStart b : rune_size b <> 0%nat -> RuneStart b = true.
Proof.
  unfold rune_size, RuneStart, is_cont. intros H. apply negb_true_iff, not_true_iff_false.
  rewrite in_range_iff. intros Hb. revert H.
  assert (Hr : forall lo hi, (hi < 128 \/ 191 < lo) -> in_range lo hi b = false).
  { intros lo hi Hlh. apply not_true_iff_false. rewrite in_range_iff. lia. }
  rewrite !Hr by lia. destruct (Z.ltb_spec (byte b) 128); [lia|]. done.
Qed.

(** The bytes of a text by position. *)
Definition startsAt (s : string) (i : nat) : bool :=
  match String.get i s with Some c => RuneStart c | None => false end.
Lemma startsAt_drop s i j : startsAt (string_drop i s) j = startsAt s (i + j).
Proof. revert s. induction i as [|i IH]; intros [|c s]; try done. cbn [string_drop Nat.add]. rewrite IH. done. Qed.
Lemma startsAt_lt s i : startsAt s i = true -> (i < String.length s)%nat.
Proof.
  revert i. induction s as [|c s IH]; intros i; [by destruct i|]. destruct i as [|i]; cbn [String.length]; [lia|].
  intros H. specialize (IH i H). lia.
Qed.
Lemma startsAt_app s t i : (i < String.length s)%nat -> startsAt (s +:+ t) i = startsAt s i.
Proof.
  revert i. induction s as [|c s IH]; intros i Hi; cbn [String.length] in Hi; [lia|]. rewrite string_app_cons.
  destruct i as [|i]; [done|]. apply (IH i). lia.
Qed.

Lemma rune_positions s :
  (0 < rune_len s)%nat ->
  (rune_len s <= 4)%nat /\ (rune_len s <= String.length s)%nat /\ startsAt s 0 = true /\
  forall i, (0 < i < rune_len s)%nat -> startsAt s i = false.
Proof.
  destruct s as [|b0 s1]; [cbn; lia|]. unfold rune_len. intros Hpos.
  assert (Hstart : startsAt (String b0 s1) 0 = true).
  { apply rune_size_RuneStart. intros Hz. rewrite Hz in Hpos. destruct s1; lia. }
  destruct (rune_size b0) as [|[|[|[|[|k]]]]] eqn:Hk; [destruct s1; lia| | | | |destruct s1; lia].
  - destruct s1; split_and!; cbn [String.length]; lia || done || (intros; lia).
  - destruct s1 as [|b1 s2]; [lia|]. destruct (second_ok b0 b1) eqn:H2; [|lia].
    split_and!; cbn [String.length]; try lia; [done|]. intros i Hi. assert (i = 1%nat) as -> by lia.
    by eapply second_ok_cont.
  - destruct s1 as [|b1 [|b2 s3]]; [lia..|]. destruct (second_ok b0 b1 && is_cont b2) eqn:H2; [|lia].
    apply andb_true_iff in H2 as [Hb1 Hb2]. split_and!; cbn [String.length]; try lia; [done|]. intros i Hi.
    assert (i = 1%nat \/ i = 2%nat) as [->| ->] by lia; [by eapply second_ok_cont|by apply is_cont_RuneStart].
  - destruct s1 as [|b1 [|b2 [|b3 s4]]]; [lia..|]. destruct (second_ok b0 b1 && is_cont b2 && is_cont b3) eqn:H2; [|lia].
    apply andb_true_iff in H2 as [[Hb1 Hb2]%andb_true_iff Hb3]. split_and!; cbn [String.length]; try lia; [done|]. intros i Hi.
    assert (i = 1%nat \/ i = 2%nat \/ i = 3%nat) as [->|[->| ->]] by lia;
      [by eapply second_ok_cont|by apply is_cont_RuneStart..].
Qed.

(** A valid text can be cut where a character starts. *)
Lemma ValidString_cut s i :
  ValidString s = true -> startsAt s i = true ->
  ValidString (string_take i s) = true /\ ValidString (string_drop i s) = true.
Proof.
  intros Hv. revert i.
  apply (ValidString_ind (fun s => forall i, startsAt s i = true -> ValidString (string_take i s) = true /\ ValidString (string_drop i s) = true)); [|clear s Hv; intros s Hv Hne Hpos Hv' IH i Hi|done].
  { intros i. by destruct i. }
  destruct (rune_positions s Hpos) as (_ & Hlen & _ & Hcont). set (n := rune_len s) in *.
  destruct (decide (i = 0%nat)) as [->|Hi0]; [done|].
  destruct (decide (i < n)%nat) as [Hlt|Hge]; [by rewrite Hcont in Hi by lia|].
  replace i with (n + (i - n))%nat in Hi by lia. rewrite <- startsAt_drop in Hi.
  destruct (IH _ Hi) as [Ht Hd]. split.
  - destruct (rune_len_prefix s (string_take (i - n) (string_drop n s)) n eq_refl Hpos) as [Hl Hll].
    assert (Heq : string_take i s = string_take n s +:+ string_take (i - n) (string_drop n s)).
    { rewrite <- (string_take_drop n s) at 1. by rewrite string_take_length_app, Hll by (rewrite Hll; lia). }
    rewrite Heq, ValidString_step, Hl, bool_decide_true; [|lia|].
    + cbn [andb]. rewrite <- Hll at 1. by rewrite string_drop_app.
    + intros Hnil. apply (f_equal String.length) in Hnil. rewrite string_length_app in Hnil. cbn in Hnil. lia.
  - rewrite string_drop_drop in Hd. by replace (i - n + n)%nat with i in Hd by lia.
Qed.

(** A valid text that is not empty starts with a character. *)
Lemma ValidString_rune s : ValidString s = true -> s <> "" -> (0 < rune_len s)%nat /\ ValidString (string_drop (rune_len s) s) = true.
Proof. intros Hv Hne. rewrite ValidString_step in Hv by done. apply andb_true_iff in Hv as [Hn%bool_decide_eq_true Hv]. split; [lia|done]. Qed.
Lemma ValidString_starts s : ValidString s = true -> s <> "" -> startsAt s 0 = true.
Proof. intros Hv Hne. destruct (ValidString_rune s Hv Hne) as [Hpos _]. by destruct (rune_positions s Hpos) as (_ & _ & ? & _). Qed.

(** ** Splitting a text into chunks *)

Lemma backToRuneStart_spec cut text :
  (cut < String.length text)%nat ->
  (backToRuneStart cut text <= cut)%nat /\
  (backToRuneStart cut text <> 0%nat -> startsAt text (backToRuneStart cut text) = true) /\
  forall j, (backToRuneStart cut text < j <= cut)%nat -> startsAt text j = false.
Proof.
  intros Hc. induction cut as [|cut IH]; cbn [backToRuneStart]; [split_and!; [lia|done|intros; lia]|].
  destruct (String.get (S cut) text) as [c|] eqn:Hg.
  - destruct (RuneStart c) eqn:Hr.
    + split_and!; [lia| |intros; lia]. intros _. unfold startsAt. by rewrite Hg.
    + destruct (IH ltac:(lia)) as (H1 & H2 & H3). split_and!; [lia|done|]. intros j Hj.
      destruct (decide (j = S cut)) as [->|]; [unfold startsAt; by rewrite Hg|apply H3; lia].
  - exfalso. revert Hg. clear IH. revert Hc. generalize (S cut) as k. clear cut.
    induction text as [|c text IH]; intros k Hk; cbn in Hk; [lia|]. destruct k; [done|]. apply IH. lia.
Qed.

Record piecesOf (max : nat) (text : string) (pieces : list string) : Prop := {
  pc_cat : cat pieces = text;
  pc_size : Forall (fun t => t <> "" /\ (String.length t <= max)%nat) pieces;
  pc_valid : ValidString text = true -> Forall (fun t => ValidString t = true) pieces;
}.

Lemma splitLoop_pieces fuel : forall text max,
  (String.length text < fuel)%nat -> (4 <= max)%nat -> piecesOf max text (splitLoop fuel text max).
Proof.
  induction fuel as [|fuel IH]; intros text max Hf Hmax; [lia|]. cbn [splitLoop].
  destruct (Nat.ltb_spec max (String.length text)) as [Hlong|Hshort].
  - set (back := backToRuneStart max text). set (cut := if (back =? 0)%nat then max else back).
    destruct (backToRuneStart_spec max text Hlong) as (Hb & Hst & Hno). fold back in Hb, Hst, Hno.
    assert (Hcut : (0 < cut <= max)%nat) by (unfold cut; destruct (Nat.eqb_spec back 0); lia).
    destruct (IH (string_drop cut text) max) as [Hcat Hsize Hvalid]; [rewrite string_length_drop; lia|done|].
    split.
    + cbn [cat]. by rewrite Hcat, string_take_drop.
    + constructor; [|done]. rewrite string_length_take. split; [|lia].
      intros Hnil. apply (f_equal String.length) in Hnil. rewrite string_length_take in Hnil. cbn in Hnil. lia.
    + intros Hv. assert (Hne : text <> "") by (intros ->; cbn in Hlong; lia).
      assert (Hback : back <> 0%nat).
      { intros Hz. destruct (ValidString_rune text Hv Hne) as [Hpos Hv'].
        destruct (rune_positions text Hpos) as (Hn4 & _). set (n := rune_len text) in *.
        rewrite Hz in Hno. specialize (Hno n ltac:(lia)).
        assert (startsAt (string_drop n text) 0 = true) as Hs.
        { apply ValidString_starts; [done|]. intros Hnil. apply (f_equal String.length) in Hnil.
          rewrite string_length_drop in Hnil. cbn in Hnil. lia. }
        rewrite startsAt_drop, Nat.add_0_r in Hs. congruence. }
      assert (cut = back) as -> by (unfold cut; by destruct (Nat.eqb_spec back 0)).
      destruct (ValidString_cut text back Hv (Hst Hback)). constructor; auto.
  - destruct (decide (text = "")) as [->|Hne]; split; cbn [cat]; rewrite ?string_app_nil_r; try done; by repeat constructor.
Qed.
Lemma SplitText_pieces text : piecesOf (Z.to_nat MaxChunkBytes) text (SplitText text MaxChunkBytes).
Proof. apply (splitLoop_pieces _ _ (Z.to_nat 8192)); lia. Qed.

(** ** Cutting an output at characters *)

Lemma ToValidUTF8_valid s : ValidString s = true -> ToValidUTF8 s = s.
Proof.
  unfold ToValidUTF8. intros Hv. apply (ValidString_ind (fun s => toValidFrom false s = s)); [done| |done].
  clear s Hv. intros [|b0 s1] Hv Hne Hpos Hv' IH; [done|].
  cbn [toValidFrom]. destruct (rune_len (String b0 s1)) as [|[|[|[|[|k]]]]] eqn:Hk; [lia|..].
  - cbn in IH. by rewrite IH.
  - destruct s1 as [|b1 s2]; cbn in IH; [|by rewrite IH]. exfalso. destruct (rune_positions (String b0 "")) as (_ & Hl & _); rewrite Hk in *; cbn in *; lia.
  - destruct s1 as [|b1 [|b2 s3]]; cbn in IH; [..|by rewrite IH]; exfalso;
      match type of Hk with rune_len ?s = _ => destruct (rune_positions s) as (_ & Hl & _); rewrite Hk in *; cbn in *; lia end.
  - destruct s1 as [|b1 [|b2 [|b3 s4]]]; cbn in IH; [..|by rewrite IH]; exfalso;
      match type of Hk with rune_len ?s = _ => destruct (rune_positions s) as (_ & Hl & _); rewrite Hk in *; cbn in *; lia end.
  - destruct (rune_positions (String b0 s1)) as (Hl & _); rewrite Hk in *; lia.
Qed.

Lemma FullRune_take s n :
  (0 < n <= rune_len s)%nat -> FullRune (string_take n s) = (n =? rune_len s)%nat.
Proof.
  destruct s as [|b0 s1]; [cbn; lia|]. unfold rune_len. intros Hn.
  destruct (rune_size b0) as [|[|[|[|[|k]]]]] eqn:Hk; [destruct s1; lia| | | | |destruct s1; lia].
  - assert (n = 1%nat) as -> by (destruct s1; lia). cbn. rewrite Hk. by destruct s1.
  - destruct s1 as [|b1 s2]; [lia|]. destruct (second_ok b0 b1) eqn:H2; [|lia].
    destruct n as [|[|[|n]]]; try lia; cbn; by rewrite Hk.
  - destruct s1 as [|b1 [|b2 s3]]; [lia..|]. destruct (second_ok b0 b1 && is_cont b2) eqn:H2; [|lia].
    apply andb_true_iff in H2 as [Hb1 Hb2].
    destruct n as [|[|[|[|n]]]]; try lia; cbn; by rewrite Hk, ?Hb1.
  - destruct s1 as [|b1 [|b2 [|b3 s4]]]; [lia..|]. destruct (second_ok b0 b1 && is_cont b2 && is_cont b3) eqn:H2; [|lia].
    apply andb_true_iff in H2 as [[Hb1 Hb2]%andb_true_iff Hb3].
    destruct n as [|[|[|[|[|n]]]]]; try lia; cbn; by rewrite Hk, ?Hb1, ?Hb2.
Qed.

Lemma get_app_r x y k : String.get (String.length x + k) (x +:+ y) = String.get k y.
Proof. induction x as [|c x IH]; [done|]. exact IH. Qed.
Lemma completeLoop_app n x y : forall back,
  startsAt y 0 = true -> (1 <= back <= String.length y)%nat ->
  completeLoop n back (x +:+ y) = (String.length x + completeLoop n back y)%nat.
Proof.
  induction n as [|n IH]; intros back Hy Hb; cbn [completeLoop]; [apply string_length_app|].
  rewrite string_length_app. rewrite !(proj2 (Nat.leb_le _ _)) by lia. cbv zeta.
  replace (String.length x + String.length y - back)%nat with (String.length x + (String.length y - back))%nat by lia.
  rewrite get_app_r. destruct (String.get (String.length y - back) y) as [c|] eqn:Hg; [|lia].
  destruct (RuneStart c) eqn:Hr.
  - assert (Hd : string_drop (String.length x + (String.length y - back)) (x +:+ y) = string_drop (String.length y - back) y).
    { rewrite Nat.add_comm, <- string_drop_drop. by rewrite string_drop_app. }
    rewrite Hd. destruct (FullRune _); lia.
  - apply IH; [done|]. split; [lia|]. destruct (decide (back = String.length y)) as [Heq|]; [|lia].
    rewrite Heq, Nat.sub_diag in Hg. unfold startsAt in Hy. rewrite Hg in Hy. congruence.
Qed.

(** One character that is not complete yet, or just complete. *)
Lemma completeLoop_one n data : forall back,
  startsAt data 0 = true -> (forall i, (0 < i < String.length data)%nat -> startsAt data i = false) ->
  (1 <= back <= String.length data)%nat ->
  completeLoop n back data =
    if (String.length data - back <? n)%nat && negb (FullRune data) then 0%nat else String.length data.
Proof.
  induction n as [|n IH]; intros back H0 Hno Hb; cbn [completeLoop]; [done|].
  rewrite (proj2 (Nat.leb_le _ _)) by lia. cbv zeta.
  destruct (decide (back = String.length data)) as [->|Hne].
  - rewrite Nat.sub_diag. unfold startsAt in H0. destruct (String.get 0 data) as [c|]; [|done]. rewrite H0.
    cbn [string_drop]. by destruct (FullRune data).
  - specialize (Hno (String.length data - back)%nat ltac:(lia)) as Hs. unfold startsAt in Hs.
    destruct (String.get (String.length data - back) data) as [c|] eqn:Hg.
    + rewrite Hs, IH by (done || lia).
      replace (String.length data - S back <? n)%nat with (String.length data - back <? S n)%nat; [done|].
      destruct (Nat.ltb_spec (String.length data - back) (S n)), (Nat.ltb_spec (String.length data - S back) n); lia || done.
    + exfalso. assert (Hlt : (String.length data - back < String.length data)%nat) by lia. revert Hg Hlt. clear.
      generalize (String.length data - back)%nat as k. induction data as [|c data IH]; intros k; cbn; [lia|].
      destruct k; [done|]. intros Hg Hk. apply (IH k Hg). lia.
Qed.

Lemma ValidString_prepend s t :
  (0 < rune_len s)%nat -> ValidString t = true -> ValidString (string_take (rune_len s) s +:+ t) = true.
Proof.
  intros Hpos Ht. destruct (rune_len_prefix s t _ eq_refl Hpos) as [Hl Hll]. rewrite ValidString_step.
  - rewrite Hl, bool_decide_true by lia. cbn [andb]. rewrite <- Hll at 1. by rewrite string_drop_app.
  - intros Hnil. apply (f_equal String.length) in Hnil. rewrite string_length_app in Hnil. cbn in Hnil. lia.
Qed.

(** The cut leaves complete characters in front of it, and at most the beginning
    of one behind it. *)
Lemma completeUTF8_valid t :
  ValidString t = true -> forall n, (n <= String.length t)%nat ->
  let data := string_take n t in
  ValidString (string_take (completeUTF8 data) data) = true /\ ValidString (string_drop (completeUTF8 data) t) = true /\
  (completeUTF8 data <= n)%nat.
Proof.
  intros Hv. apply (ValidString_ind (fun t => forall n, (n <= String.length t)%nat -> let data := string_take n t in
    ValidString (string_take (completeUTF8 data) data) = true /\ ValidString (string_drop (completeUTF8 data) t) = true /\
    (completeUTF8 data <= n)%nat)); [|clear t Hv; intros t Hv Hne Hpos Hv' IH n Hn; cbv zeta|done].
  { intros n Hn. cbn in Hn. assert (n = 0%nat) as -> by lia. by split_and!. }
  destruct (rune_positions t Hpos) as (H4 & Hlen & H0 & Hcont). set (r := rune_len t) in *.
  assert (Hpre : forall k i, (i < k)%nat -> startsAt (string_take k t) i = startsAt t i).
  { intros k i Hi. destruct (decide (i < String.length t)%nat) as [Hl|Hl].
    - rewrite <- (string_take_drop k t) at 2. symmetry. apply startsAt_app. rewrite string_length_take. lia.
    - by rewrite string_take_all by lia. }
  destruct (decide (n <= r)%nat) as [Hle|Hgt].
  - destruct (decide (n = 0%nat)) as [->|Hn0]; [done|].
    assert (Hdl : String.length (string_take n t) = n) by (rewrite string_length_take; lia).
    assert (Hc : completeUTF8 (string_take n t) = if (n =? r)%nat then n else 0%nat).
    { unfold completeUTF8. rewrite completeLoop_one; rewrite ?Hdl.
      - rewrite FullRune_take by lia. fold r. destruct (Nat.eqb_spec n r); [by rewrite andb_false_r|].
        by rewrite (proj2 (Nat.ltb_lt _ _)) by lia.
      - by rewrite Hpre by lia.
      - intros i Hi. rewrite Hpre by lia. apply Hcont. lia.
      - lia. }
    rewrite Hc. destruct (Nat.eqb_spec n r) as [->|]; [|split_and!; [done|done|lia]]. split_and!; [|done|lia].
    rewrite string_take_take, Nat.min_id, <- (string_app_nil_r (string_take r t)). by apply ValidString_prepend.
  - set (y := string_take (n - r) (string_drop r t)).
    assert (Hll : String.length (string_take r t) = r) by (rewrite string_length_take; lia).
    assert (Hdata : string_take n t = string_take r t +:+ y).
    { rewrite <- (string_take_drop r t) at 1. by rewrite string_take_length_app, Hll by lia. }
    assert (Hyl : String.length y = (n - r)%nat) by (unfold y; rewrite string_length_take, string_length_drop; lia).
    destruct (IH (n - r)%nat ltac:(rewrite string_length_drop; lia)) as (H1 & H2 & H3). fold y in H1, H2, H3.
    assert (Hc : completeUTF8 (string_take n t) = (r + completeUTF8 y)%nat).
    { unfold completeUTF8. rewrite Hdata, completeLoop_app, Hll; [done| |lia].
      unfold y. destruct (n - r)%nat as [|k] eqn:Hk; [lia|].
      assert (Hs : startsAt (string_drop r t) 0 = true).
      { apply ValidString_starts; [done|]. intros Hnil. apply (f_equal String.length) in Hnil.
        rewrite string_length_drop in Hnil. cbn in Hnil. lia. }
      destruct (string_drop r t); [done|exact Hs]. }
    rewrite Hc. split_and!; [| |lia].
    + rewrite Hdata, string_take_length_app, Hll by lia. replace (r + completeUTF8 y - r)%nat with (completeUTF8 y) by lia.
      by apply ValidString_prepend.
    + rewrite Nat.add_comm, <- string_drop_drop. done.
Qed.

(** ** What a writer records *)

#[local] Arguments SplitText : simpl never.
#[local] Arguments RedactChunk : simpl never.
Definition redactRest (lowerRune : string -> string) (s : StreamingRedactor) (frags : list string) : option string :=
  '(s', out) ← redactChunks lowerRune s frags; Some (out +:+ (Flush s').2).

Lemma redactRest_cons lowerRune s frag frags :
  redactRest lowerRune s (frag :: frags) =
    ('(s1, out) ← RedactChunk lowerRune s frag; (fun rest => out +:+ rest) <$> redactRest lowerRune s1 frags).
Proof.
  unfold redactRest. cbn [redactChunks]. destruct (RedactChunk lowerRune s frag) as [[s1 out]|]; [|done]. cbn.
  destruct (redactChunks lowerRune s1 frags) as [[s2 outs]|]; [|done]. cbn. by rewrite string_app_assoc.
Qed.

(** The output reaches the redactor in pieces that end where characters end. *)
Lemma writeTexts_frags lowerRune inv stream chunks : forall red part,
  ValidString (part +:+ cat chunks) = true ->
  exists frags, cat frags = part +:+ cat chunks /\ Forall (fun f => ValidString f = true) frags /\
    (cat <$> (snd <$> writeTexts lowerRune (mkDiagnosticWriter inv stream red part false) chunks)) =
      redactRest lowerRune red frags /\
    forall w' texts, writeTexts lowerRune (mkDiagnosticWriter inv stream red part false) chunks = Some (w', texts) ->
      exists outs, texts = concat ((fun out => SplitText out MaxChunkBytes) <$> outs) /\
        (sBase red = None -> sPending red = "" -> Forall (fun out => ValidString out = true) outs).
Proof.
  induction chunks as [|p chunks IH]; intros red part Hv.
  - exists [part]. cbn [cat] in *. rewrite string_app_nil_r in Hv. split_and!; [done|by repeat constructor| |].
    + cbn [writeTexts]. unfold closeText. cbn [dwClosed dwPartial dwRedactor]. rewrite ToValidUTF8_valid by done.
      rewrite redactRest_cons. destruct (RedactChunk lowerRune red part) as [[red' out]|]; [|done]. cbn.
      by rewrite (pc_cat _ _ _ (SplitText_pieces _)).
    + cbn [writeTexts]. unfold closeText. cbn [dwClosed dwPartial dwRedactor]. rewrite ToValidUTF8_valid by done.
      intros w' texts. destruct (RedactChunk lowerRune red part) as [[red' out]|] eqn:Hr; [|done]. cbn.
      intros [= <- <-]. eexists [_]. cbn. rewrite app_nil_r. split; [done|]. intros Hb Hp.
      unfold RedactChunk in Hr. rewrite Hb, Hp in Hr. cbn in Hr. injection Hr as <- <-. cbn.
      rewrite string_app_nil_r. by repeat constructor.
  - set (t := part +:+ cat (p :: chunks)) in *. set (data := part +:+ p).
    assert (Ht : t = data +:+ cat chunks) by (unfold t, data; cbn [cat]; by rewrite string_app_assoc).
    assert (Hd : data = string_take (String.length data) t).
    { rewrite Ht. by rewrite string_take_app. }
    destruct (completeUTF8_valid t Hv (String.length data)) as (H1 & H2 & H3).
    { rewrite Ht, string_length_app. lia. }
    rewrite <- Hd in H1, H2, H3. set (cut := completeUTF8 data) in *.
    assert (Hrest : string_drop cut t = string_drop cut data +:+ cat chunks).
    { rewrite Ht. by rewrite string_drop_app_le by lia. }
    rewrite Hrest in H2. cbn [writeTexts]. unfold writeText. cbn [dwClosed dwPartial dwRedactor dwInvocationID dwStream].
    change (part +:+ p) with data. fold cut. rewrite (ToValidUTF8_valid (string_take cut data)) by done.
    destruct (RedactChunk lowerRune red (string_take cut data)) as [[red1 out]|] eqn:Hr.
    + destruct (IH red1 (string_drop cut data) H2) as (frags & Hcat & Hval & Heq & Hout).
      exists (string_take cut data :: frags). cbn [cat]. split_and!.
      * rewrite Hcat, string_app_assoc, string_take_drop. done.
      * by constructor.
      * rewrite redactRest_cons, Hr. cbn [mbind option_bind]. rewrite <- Heq.
        destruct (writeTexts lowerRune _ chunks) as [[w2 texts]|]; [|done]. cbn.
        by rewrite cat_app, (pc_cat _ _ _ (SplitText_pieces _)).
      * intros w' texts. cbn [mbind option_bind]. destruct (writeTexts lowerRune _ chunks) as [[w2 texts2]|] eqn:Hw; [|done].
        cbn. intros [= <- <-]. destruct (Hout _ _ eq_refl) as (outs & -> & Ho). exists (out :: outs). split; [done|].
        intros Hb Hp. unfold RedactChunk in Hr. rewrite Hb, Hp in Hr. injection Hr as <- <-. constructor; [done|by apply Ho].
    + exists (string_take cut data :: [string_drop cut data +:+ cat chunks]). cbn [cat].
      rewrite string_app_nil_r. split_and!.
      * by rewrite string_app_assoc, string_take_drop.
      * by repeat constructor.
      * by rewrite redactRest_cons, Hr.
      * done.
Qed.

(** Redaction of ASCII text gives ASCII text. *)
Lemma isASCII_drop n s : isASCII s = true -> isASCII (string_drop n s) = true.
Proof. intros Hs. rewrite <- (string_take_drop n s), isASCII_app in Hs. by apply andb_true_iff in Hs as [_ ?]. Qed.
Lemma isASCII_take n s : isASCII s = true -> isASCII (string_take n s) = true.
Proof. intros Hs. rewrite <- (string_take_drop n s), isASCII_app in Hs. by apply andb_true_iff in Hs as [? _]. Qed.
Lemma isASCII_replaceAll m s :
  (forall x n y, isASCII x = true -> m x = Some (n, y) -> isASCII y = true) ->
  isASCII s = true -> isASCII (replaceAll m s) = true.
Proof.
  intros Hm. unfold replaceAll. generalize 0%nat as skip. induction s as [|c s IH]; intros skip Hs; [done|].
  pose proof Hs as Hs'. cbn [isASCII] in Hs. apply andb_true_iff in Hs as [Hc Hs]. cbn [replaceFrom].
  destruct skip as [|k]; [|by apply IH]. destruct (m (String c s)) as [[[|n] y]|] eqn:Hy.
  - cbn [isASCII]. by rewrite Hc, IH.
  - by rewrite isASCII_app, (Hm _ _ _ Hs' Hy), IH.
  - cbn [isASCII]. by rewrite Hc, IH.
Qed.
Lemma isASCII_keeping kept secret mask x n y :
  isASCII mask = true -> isASCII x = true -> keeping kept secret mask x = Some (n, y) -> isASCII y = true.
Proof.
  intros Hmask Hx. unfold keeping. repeat case_match; try done. intros [= _ <-].
  rewrite isASCII_app, Hmask, isASCII_take by done. done.
Qed.
Lemma isASCII_Redact r s : isASCII s = true -> isASCII (Redact r s) = true.
Proof.
  intros Hs. unfold Redact, formatMask.
  do 2 (apply isASCII_replaceAll; [intros x n y Hx Hy; by eapply isASCII_keeping; [|done|exact Hy]|]).
  destruct r as [r|]; [|done]. unfold maskValues. destruct (rMatcher r); [|done]. apply isASCII_replaceAll; [|done].
  intros x n y _. induction (rValues r) as [|v vs IH]; cbn [firstValue]; [done|]. destruct (HasPrefix x v); [by intros [= _ <-]|done].
Qed.

Lemma isASCII_valid s : isASCII s = true -> ValidString s = true.
Proof.
  induction s as [|c s IH]; [done|]. cbn [isASCII]. intros [Hc Hs]%andb_true_iff. rewrite ValidString_step by done.
  assert (rune_len (String c s) = 1%nat) as -> by (cbn; unfold rune_size; by rewrite Hc). cbn. by apply IH.
Qed.
Lemma isASCII_cat l : isASCII (cat l) = true -> Forall (fun s => isASCII s = true) l.
Proof. induction l as [|s l IH]; cbn [cat]; [by constructor|]. rewrite isASCII_app. intros [? ?]%andb_true_iff. constructor; auto. Qed.

Lemma redactRest_total lowerRune r frags :
  r = None \/ isASCII (cat frags) = true -> is_Some (redactRest lowerRune (NewStreamingRedactor r) frags).
Proof.
  intros [->|Ha]; [|by apply stream_never_panics, isASCII_cat]. change (NewStreamingRedactor None) with (mkStreaming None "").
  induction frags as [|f frags IH]; [by eexists|]. rewrite redactRest_cons. cbn. by apply fmap_is_Some.
Qed.
Lemma redactRest_none lowerRune frags : redactRest lowerRune (NewStreamingRedactor None) frags = Some (cat frags).
Proof.
  change (NewStreamingRedactor None) with (mkStreaming None "").
  induction frags as [|f frags IH]; [done|]. rewrite redactRest_cons.
  change (RedactChunk lowerRune (mkStreaming None "") f) with (Some (mkStreaming None "", f)).
  cbn [mbind option_bind]. by rewrite IH.
Qed.

Lemma split_sizes outs :
  Forall (fun t => t <> "" /\ len t <= MaxChunkBytes) (concat ((fun out => SplitText out MaxChunkBytes) <$> outs)).
Proof.
  induction outs as [|out outs IH]; cbn; [constructor|]. apply Forall_app. split; [|done].
  eapply Forall_impl; [apply (pc_size _ _ _ (SplitText_pieces out))|]. intros t [? Hl]. split; [done|].
  unfold len. rewrite <- (Z2Nat.id MaxChunkBytes) by done. lia.
Qed.
Lemma split_valid outs :
  Forall (fun out => ValidString out = true) outs ->
  Forall (fun t => ValidString t = true) (concat ((fun out => SplitText out MaxChunkBytes) <$> outs)).
Proof.
  induction 1 as [|out outs Ho _ IH]; cbn; [constructor|]. apply Forall_app. split; [|done].
  by apply (pc_valid _ _ _ (SplitText_pieces out)).
Qed.
Lemma output_accepted inv stream t :
  ValidID inv = true -> one_of stream [StreamStdout; StreamStderr; StreamCombined] = true ->
  len t <= MaxChunkBytes -> ValidString t = true -> validateOutput (outputRecord inv stream t) = None.
Proof.
  intros Hid Hs Hl Hv. unfold validateOutput, requireID. cbn [outputRecord rInvocationID rStream rText].
  rewrite Hid, Hs, Hv. cbn [andThen negb]. by rewrite (proj2 (Z.ltb_ge _ _)).
Qed.

(** A chunk a record has room for. *)
Definition fitsRecord (t : string) : Prop := t <> "" /\ len t <= MaxChunkBytes.
Definition wholeText (chunks : list string) : Prop := ValidString (cat chunks) = true.

(** C31: An output that is valid UTF-8 as a whole, written in whatever pieces: the
    chunks that are recorded are not empty and not longer than a record may hold.
    Without a redactor they are together the output.  With one they are together the
    output redacted in pieces, in which the known values of the environment are
    masked exactly as in the whole output; that is what redacting the whole output
    gives when it, its values masked, holds no credential in a URL or a header
    (one of those that is split across writes may escape, as in the example
    [split_credential_escapes]).  Without a redactor, or when the output is ASCII,
    the writer does not fail and the store accepts every chunk. *)
Theorem writer_records lowerRune r env inv stream chunks :
  wholeText chunks -> oRedactor (rcOpts r) = NewRedactor <$> env ->
  let out := writeTexts lowerRune (Writer r inv stream) chunks in
  (env = None \/ isASCII (cat chunks) = true -> exists w' texts, out = Some (w', texts) /\
     (ValidID inv = true -> one_of stream [StreamStdout; StreamStderr; StreamCombined] = true ->
      Forall (fun t => validateOutput (outputRecord inv stream t) = None) texts)) /\
  (forall w' texts, out = Some (w', texts) ->
     Forall fitsRecord texts /\
     match NewRedactor <$> env with
     | None => cat texts = cat chunks
     | Some red =>
         (exists pieces, cat pieces = cat chunks /\ cat texts = cat (Redact (Some red) <$> pieces) /\
            cat (maskValues red <$> pieces) = maskValues red (cat chunks)) /\
         (unformatted (maskValues red (cat chunks)) = true -> cat texts = Redact (Some red) (cat chunks))
     end).
Proof.
  intros Hv Hred out. destruct (writeTexts_frags lowerRune inv stream chunks (NewStreamingRedactor (oRedactor (rcOpts r))) "" Hv)
    as (frags & Hcat & _ & Heq & Hout).
  change ("" +:+ cat chunks) with (cat chunks) in Hcat. fold out in Heq, Hout.
  change (writeTexts lowerRune _ chunks) with out in Heq, Hout. rewrite Hred in *.
  assert (Hmask : forall w' texts, out = Some (w', texts) ->
    redactRest lowerRune (NewStreamingRedactor (NewRedactor <$> env)) frags = Some (cat texts)).
  { intros w' texts Ho. by rewrite <- Heq, Ho. }
  assert (Hall : forall w' texts, out = Some (w', texts) ->
     match NewRedactor <$> env with
     | None => cat texts = cat chunks
     | Some red => exists pieces, cat pieces = cat chunks /\ cat texts = cat (Redact (Some red) <$> pieces) /\
            cat (maskValues red <$> pieces) = maskValues red (cat chunks)
     end).
  { intros w' texts Ho. specialize (Hmask _ _ Ho). destruct env as [e|].
    - rewrite <- Hcat. cbn [fmap option_fmap option_map] in Hmask |- *. unfold redactRest in Hmask.
      apply (redactStream_pieces lowerRune _ _ _ (NewRedactor_wellMade e)). unfold redactStream. exact Hmask.
    - rewrite redactRest_none in Hmask. by injection Hmask as <-. }
  split.
  - intros Hok. destruct (redactRest_total lowerRune (NewRedactor <$> env) frags) as [text Ht].
    { rewrite Hcat. destruct Hok as [->|?]; [by left|by right]. }
    rewrite Ht in Heq. destruct out as [[w' texts]|] eqn:Ho; [|done]. exists w', texts. split; [done|].
    intros Hid Hst. destruct (Hout _ _ eq_refl) as (outs & Htexts & Hvalid).
    assert (Hsize := split_sizes outs). rewrite <- Htexts in Hsize.
    assert (Hvalids : Forall (fun t => ValidString t = true) texts).
    { destruct Hok as [->|Ha]; [by rewrite Htexts; apply split_valid, Hvalid|].
      cut (isASCII (cat texts) = true).
      { intros Hc%isASCII_cat. apply (Forall_impl (fun s => isASCII s = true) _ _ Hc). intros t. apply isASCII_valid. }
      specialize (Hall _ _ eq_refl). destruct env as [e|]; [|by rewrite Hall].
      destruct Hall as (pieces & Hp & -> & _). rewrite <- Hp in Ha. apply isASCII_cat in Ha. clear -Ha.
      induction Ha as [|p pieces Hp _ IH]; [done|]. cbn [fmap list_fmap cat]. by rewrite isASCII_app, isASCII_Redact, IH. }
    clear -Hid Hst Hsize Hvalids. induction Hvalids as [|t texts Ht _ IH]; [constructor|].
    apply Forall_cons in Hsize as [[_ Hl] Hsize]. constructor; [by apply output_accepted|by apply IH].
  - intros w' texts Ho. split; [destruct (Hout _ _ Ho) as (outs & -> & _); apply split_sizes|].
    specialize (Hall _ _ Ho). destruct env as [e|]; [|done]. cbn [fmap option_fmap option_map] in *. split; [done|].
    destruct Hall as (pieces & _ & -> & Hm). by apply pieces_unformatted.
Qed.
