(* ===== verification/LogImport.v ===== *)
(** What a host keeps of a run another host recorded (src/pkg/workspacelogs):
    positions and the import of remote pages (import.go), the reasons a spool
    gives for having no history and the identity it checks (spool.go).  Importing
    a page extends the logs it names and no other. *)
From S2P Require Import Prelude GoStd GoText LogTypes LogManifest LogFS LogStore LogSegment LogDisk LogDurable LogSystem LogCursor LogRetention LogReader.

(** ** Unavailable history *)

Definition unavailableMarker : string := "devsy-setup-logs-unavailable: ".
Definition maxMarkerBytes : Z := 256.
Definition ReasonRefreshUnsupported : string := "refresh_unsupported".
Definition ReasonSourceOffline : string := "source_offline".
Definition ReasonRefreshFailed : string := "refresh_failed".
Definition ReasonNoSpool : string := "no_spool".

Definition FormatUnavailable (reason : string) : string := unavailableMarker +:+ reason +:+ nl.
Definition ParseUnavailable (stderr : string) : option string :=
  match Cut stderr unavailableMarker with
  | None => None
  | Some (_, rest) =>
      let reason := TrimSpace (match Cut rest nl with Some (line, _) => line | None => rest end) in
      if bool_decide (reason = "") || (maxMarkerBytes <? len reason) then None else Some reason
  end.

(** ** Identity *)

Definition checkRunIdentity (m : RunManifest) (contextName uid : string) : err :=
  if negb (bool_decide (mContext m = contextName))
  then Some (wrap ErrIdentityConflict "run belongs to another context" [])
  else match mWorkspaceUID m with
       | Some bound => if bool_decide (bound = uid) then None
                       else Some (wrap ErrIdentityConflict "run belongs to another workspace" [])
       | None => None
       end.

(** ** Pages of another host *)

Record ImportRequest := mkImportRequest {
  iRunID : string;
  iContext : string;
  iWorkspaceUID : string;
  iResponse : option ReadResponse;
}.
Record ImportResult := mkImportResult {
  imWritten : Z;
  imDuplicates : Z;
  imStalled : list string;
}.
Definition emptyImport : ImportResult := mkImportResult 0 0 [].

(** A capture note built at read time; stored records carry a time. *)
Definition isSynthetic (rec : LogRecord) : bool := bool_decide (rKind rec = KindCapture) && (rTime rec =? 0).

Definition validateImportRecord (rec : LogRecord) (runID : string) : err :=
  if negb (bool_decide (rRunID rec = runID))
  then Some (wrap ErrIdentityConflict "record belongs to another run" [])
  else if isSynthetic rec then None
  else Validate rec.

Definition validateResponseIdentity (m : RunManifest) (req : ImportRequest) (run : RunSummary) : err :=
  if negb (bool_decide (smRunID run = iRunID req)) || negb (bool_decide (smContext run = iContext req))
  then Some (wrap ErrIdentityConflict "response is for another run or context" [])
  else
    andThen (checkRunIdentity m (iContext req) (iWorkspaceUID req))
      (match smWorkspaceUID run with
       | Some uid => if bool_decide (uid = iWorkspaceUID req) then None
                     else Some (wrap ErrIdentityConflict "response is for another workspace" [])
       | None => None
       end).

Fixpoint validateImportRecords (records : list LogRecord) (runID : string) : err :=
  match records with
  | [] => None
  | rec :: rest => andThen (validateImportRecord rec runID) (validateImportRecords rest runID)
  end.

(** The response of the request, once it is there and of this version. *)
Definition responseOf (req : ImportRequest) : option ReadResponse :=
  match iResponse req with
  | Some resp => if respSchemaVersion resp =? SchemaVersion then Some resp else None
  | None => None
  end.
Definition validateImport (m : RunManifest) (req : ImportRequest) : err :=
  match responseOf req with
  | None => Some (wrap ErrInvalidRecord "missing or unsupported response" [])
  | Some resp =>
      andThen (validateResponseIdentity m req (respRun resp))
        (if MaxReadLimit <? Z.of_nat (length (respRecords resp))
         then Some (wrap ErrInvalidRecord "page has too many records" [])
         else validateImportRecords (respRecords resp) (iRunID req))
  end.

(** The records by producer, producers in the order they appear in. *)
Fixpoint groupByProducer (records : list LogRecord) (groups : gmap string (list LogRecord)) (order : list string)
    : gmap string (list LogRecord) * list string :=
  match records with
  | [] => (groups, order)
  | rec :: rest =>
      let id := rProducerID rec in
      let order' := match groups !! id with Some _ => order | None => order ++ [id] end in
      groupByProducer rest (<[id := default [] (groups !! id) ++ [rec]]> groups) order'
  end.

(** The records before the first note, and the condition the note stands for. *)
Fixpoint storedPrefix (records : list LogRecord) : list LogRecord * string :=
  match records with
  | [] => ([], "")
  | rec :: rest =>
      if isSynthetic rec then ([], rCondition rec)
      else let '(batch, cond) := storedPrefix rest in (rec :: batch, cond)
  end.

Section Importing.
Context `{JSON LogRecord} `{JSON RunManifest}.

Definition joinErr (cause : err) (e : goerr) : goerr :=
  Joined (match cause with Some c => [c; e] | None => [e] end).
(** Whether the producer stalled, and an error. *)
Definition stall (runID : string) (cause : err) (c : string) : St (bool * err) :=
  let* r := AddCondition runID c in
  ret (true, match r with inl e => Some (joinErr cause e) | inr _ => None end).

Definition stallOnAppendError (runID : string) (e : goerr) : St (bool * err) :=
  if errorsIs e "workspacelogs.ErrSequenceGap" then stall runID (Some e) ConditionRetentionGap
  else if errorsIs e "workspacelogs.ErrCapacity" then stall runID (Some e) ConditionCapacity
  else if errorsIs e "workspacelogs.ErrInvalidRecord" then stall runID (Some e) ConditionMalformedRecord
  else ret (false, Some e).

Definition ensureProducer (runID producerID : string) (first : LogRecord) : St (goerr + unit) :=
  RegisterProducer runID
    (mkProducerRef producerID
       (if bool_decide (rKind first = KindProducer) then rParentProducerID first else "")
       ProducerRunning LocationContainer false).

(** The result is that of the import so far, with this producer's counts. *)
Definition mergeProducer (runID producerID : string) (records : list LogRecord) (res : ImportResult)
    : St (ImportResult * (bool * err)) :=
  match requireID "producerId" producerID with
  | Some e => ret (res, (false, Some e))
  | None =>
      let '(batch, cond) := storedPrefix records in
      let* ensured := ensureProducer runID producerID (default zeroRecord (head records)) in
      match ensured with
      | inl e => let* out := stall runID (Some e) ConditionSourceUnavailable in ret (res, out)
      | inr _ =>
          let* appended :=
            (match batch with
             | [] => ret (zeroAppend, None)
             | _ => LogSegment.Append batch
             end) in
          let '(out, e) := appended in
          let res' := mkImportResult (imWritten res + aWritten out) (imDuplicates res + aDuplicates out)
                        (imStalled res) in
          match e with
          | Some e => let* x := stallOnAppendError runID e in ret (res', x)
          | None =>
              if bool_decide (cond = "") then ret (res', (false, None))
              else let* x := stall runID None cond in ret (res', x)
          end
      end
  end.

Definition importProducer (m : RunManifest) (producerID : string) (records : list LogRecord) (res : ImportResult)
    : St (ImportResult * (bool * err)) :=
  let foreign := match producer m producerID with
                 | Some i => match mProducers m !! i with
                             | Some ref => negb (bool_decide (pLocation ref = LocationContainer))
                             | None => false
                             end
                 | None => false
                 end in
  if (foreign : bool) then let* out := stall (mRunID m) None ConditionMalformedRecord in ret (res, out)
  else mergeProducer (mRunID m) producerID records res.

Fixpoint importEach (m : RunManifest) (groups : gmap string (list LogRecord)) (order : list string)
    (res : ImportResult) : St (ImportResult * err) :=
  match order with
  | [] => ret (res, None)
  | producerID :: rest =>
      let* out := importProducer m producerID (default [] (groups !! producerID)) res in
      let '(res', (stalled, e)) := out in
      match e with
      | Some e => ret (res', Some e)
      | None =>
          importEach m groups rest
            (if (stalled : bool)
             then mkImportResult (imWritten res') (imDuplicates res') (imStalled res' ++ [producerID])
             else res')
      end
  end.

Definition ImportRemote (req : ImportRequest) : St (ImportResult * err) :=
  let* r := Manifest (iRunID req) in
  match r with
  | inl e => ret (emptyImport, Some e)
  | inr m =>
      match validateImport m req with
      | Some e => ret (emptyImport, Some e)
      | None =>
          let records := match responseOf req with Some resp => respRecords resp | None => [] end in
          let '(groups, order) := groupByProducer records ∅ [] in
          importEach m groups order emptyImport
      end
  end.

(** ** Positions *)

(** The last committed sequence; nothing is repaired. *)
Definition lastCommitted (runID producerID : string) : St (goerr + Z) :=
  let! dir := lift (producerDir runID producerID) in
  let! segs := listSegments dir in
  match List.last segs (mkSegment "" 0), segs with
  | _, [] => ok 0
  | last, _ =>
      let p := dir ++ [gName last] in
      let! _ := statSize p in
      let! recs := scanSegment p in
      ok (foldLast (u64 (gFirst last - 1)) recs)
  end.

Fixpoint positionsOf (runID : string) (ps : list ProducerRef) (pos : gmap string Z) : St (goerr + gmap string Z) :=
  match ps with
  | [] => ok pos
  | ref :: rest =>
      let! last := lastCommitted runID (pProducerID ref) in
      positionsOf runID rest (<[pProducerID ref := last]> pos)
  end.
Definition LocalPositions (runID : string) : St (goerr + gmap string Z) :=
  let! m := Manifest runID in positionsOf runID (mProducers m) ∅.

Context `{JSON cursor} `{SHA256}.

Definition PositionCursor (runID : string) (pos : gmap string Z) : goerr + string :=
  encodeCursor (mkCursor SchemaVersion cursorRun runID (filterHash [""; ""]) pos false "" "" 0 "").

(** One page of a spooled run; the store over an existing root is this one. *)
Definition ReadSpoolPage (contextName uid : string) (req : ReadRequest) : St (goerr + ReadResponse) :=
  let! _ := guard_err (requireID "runId" (qRunID req)) in
  let! m := Manifest (qRunID req) in
  let! _ := guard_err (checkRunIdentity m contextName uid) in
  Read req.
End Importing.

(** ** Grouping *)

(** The records of one producer. *)
Definition ofProducer (id : string) (records : list LogRecord) : list LogRecord :=
  base.filter (fun r => rProducerID r = id) records.

Record grouped (records : list LogRecord) (groups : gmap string (list LogRecord)) (order : list string) : Prop := {
  gr_group id : default [] (groups !! id) = ofProducer id records;
  gr_seen id : id ∈ order <-> is_Some (groups !! id);
  gr_nonempty id l : groups !! id = Some l -> l <> [];
  gr_nodup : NoDup order;
}.

Lemma groupByProducer_grouped rest : forall records groups order,
  grouped records groups order ->
  grouped (records ++ rest) (groupByProducer rest groups order).1 (groupByProducer rest groups order).2.
Proof.
  induction rest as [|rec rest IH]; intros records groups order Hg; [by rewrite app_nil_r|].
  cbn [groupByProducer]. rewrite cons_middle, (assoc_L (++)). apply IH. destruct Hg as [Hgroup Hseen Hne Hnd].
  set (id := rProducerID rec). split.
  - intros id'. unfold ofProducer. rewrite filter_app, filter_cons, filter_nil.
    fold (ofProducer id' records).
    destruct (decide (id' = id)) as [->|Hd].
    + rewrite lookup_insert_eq. cbn [default]. rewrite Hgroup. by case_decide.
    + rewrite lookup_insert_ne, Hgroup by done. case_decide; [by subst id; congruence|by rewrite app_nil_r].
  - intros id'. rewrite lookup_insert_is_Some'. destruct (groups !! id) as [l|] eqn:Hl.
    + rewrite Hseen. split; [by right|]. intros [<-|?]; [by rewrite Hl|done].
    + rewrite elem_of_app, list_elem_of_singleton, Hseen. naive_solver.
  - intros id' l. rewrite lookup_insert_Some. intros [[_ <-]|[_ Hl]]; [by destruct (default [] _)|by eapply Hne].
  - destruct (groups !! id) as [l|] eqn:Hl; [done|]. apply NoDup_app. split_and!; [done| |by apply NoDup_singleton].
    intros x Hx ->%list_elem_of_singleton. apply Hseen in Hx. rewrite Hl in Hx. by destruct Hx.
Qed.
Lemma groupByProducer_page records :
  grouped records (groupByProducer records ∅ []).1 (groupByProducer records ∅ []).2.
Proof.
  apply (groupByProducer_grouped records []). split; [done| |done|constructor].
  intros id. rewrite lookup_empty. split; [by intros ?%elem_of_nil|by intros []].
Qed.

(** The records a note follows are a prefix without notes. *)
Lemma storedPrefix_spec records :
  (storedPrefix records).1 `prefix_of` records /\
  ((forall r, r ∈ records -> isSynthetic r = true -> rCondition r <> "") ->
   (storedPrefix records).2 = "" -> (storedPrefix records).1 = records).
Proof.
  induction records as [|rec rest [IH1 IH2]]; [done|]. cbn [storedPrefix].
  destruct (isSynthetic rec) eqn:Hs; cbn.
  { split; [apply prefix_nil|]. intros Hc He. destruct (Hc rec ltac:(set_solver) Hs He). }
  destruct (storedPrefix rest) as [batch cond]; cbn in *. split; [by apply prefix_cons|].
  intros Hc He. f_equal. apply IH2; [|done]. intros r Hr. apply Hc. set_solver.
Qed.

Section Imported.
Context `{JSONLaws LogRecord (clean := cleanRecord)} `{JSON RunManifest}.

(** ** Other producers *)

Definition untouched (w w' : World) (rid pid : string) : Prop :=
  storeOK w rid pid -> storeOK w' rid pid /\ storedLog (wFS w') rid pid = storedLog (wFS w) rid pid.
Lemma untouched_quiet w w' rid pid : quiet w w' -> untouched w w' rid pid.
Proof. intros Hq Hok. split; [by eapply quiet_storeOK|by apply quiet_storedLog]. Qed.
Lemma untouched_trans w1 w2 w3 rid pid : untouched w1 w2 rid pid -> untouched w2 w3 rid pid -> untouched w1 w3 rid pid.
Proof. intros H1 H2 Hok. destruct (H1 Hok) as [Hok2 <-]. by apply H2. Qed.
Lemma untouched_extended w w1 w2 w3 rid pid batch applied :
  untouched w w1 rid pid -> storeOK w rid pid -> extendedBy w1 w2 rid pid batch applied -> untouched w2 w3 rid pid ->
  extendedBy w w3 rid pid batch applied.
Proof.
  intros Hq Hok [H1 H2 H3] Hq'. destruct (Hq Hok) as [_ Hl]. destruct (Hq' H1) as [Hok3 Hl3].
  rewrite Hl in H2, H3. split; [done|by rewrite Hl3|done].
Qed.
Lemma untouched_nothing w w' rid pid batch : untouched w w' rid pid -> storeOK w rid pid -> extendedBy w w' rid pid batch [].
Proof. intros Hu Hok. destruct (Hu Hok) as [? Hl]. split; [done|by rewrite Hl, app_nil_r|constructor]. Qed.

Lemma Append_other w first rest rid pid :
  (rid, pid) <> (rRunID first, rProducerID first) -> untouched w (LogSegment.Append (first :: rest) w).1 rid pid.
Proof.
  intros Hne Hok. change (wp (LogSegment.Append (first :: rest)) w
    (fun w' _ => storeOK w' rid pid /\ storedLog (wFS w') rid pid = storedLog (wFS w) rid pid)).
  unfold LogSegment.Append. destruct (validateBatch (first :: rest)) as [ve|]; [by apply wp_ret|].
  apply wp_bind, prepareProducer_wp; [intros w1 e Hq1; by apply wp_ret, untouched_quiet|].
  intros w1 Hq1. apply wp_bind, withLock_wp.
  { intros w2 e Hq2. apply wp_bind, harmless_wp; [apply harmless_applyToManifest|].
    intros w3 r Hq3. apply wp_ret, untouched_quiet; [|done]. trans w1; [done|]. by trans w2. }
  intros w2 Hq2. assert (Hq : quiet w w2) by by trans w1.
  destruct (untouched_quiet _ _ rid pid Hq Hok) as [Hok2 Hl2].
  destruct (appendLocked_other_log w2 (rRunID first) (rProducerID first) rid pid (first :: rest)) as (Hl & Hc & Ht);
    [unfold producerPath; naive_solver|done|].
  apply wp_bind. unfold wp at 1. destruct (appendLocked _ _ w2) as [w3 out]. cbn [fst snd] in *. apply wp_ret.
  assert (Hok3 : storeOK w3 rid pid).
  { split; [by eapply logAt_logOK|]. intros t Hg. rewrite Ht in Hg. by apply (Hc _ (proj2 Hok2)). }
  assert (Hl3 : storedLog (wFS w3) rid pid = storedLog (wFS w) rid pid) by (rewrite <- Hl2; by apply logAt_storedLog).
  destruct out as [[res applied] e]. apply wp_bind, harmless_wp; [apply harmless_applyToManifest|]. intros w4 r Hq4. apply wp_ret.
  rewrite <- Hl3. by apply untouched_quiet.
Qed.

(** ** One producer *)

Lemma stall_wp run cause c w (Q : World -> bool * err -> Prop) :
  (forall w' e, quiet w w' -> Q w' (true, e)) -> wp (stall run cause c) w Q.
Proof.
  intros HQ. unfold stall. apply wp_bind, harmless_wp; [eapply harmless_runFile, touches_AddCondition|].
  intros w' r Hq. by apply wp_ret, HQ.
Qed.
Lemma stallOnAppendError_wp run e w (Q : World -> bool * err -> Prop) :
  (forall w' e, quiet w w' -> Q w' (true, e)) -> Q w (false, Some e) -> wp (stallOnAppendError run e) w Q.
Proof. intros H1 H2. unfold stallOnAppendError. repeat case_match; by apply stall_wp || apply wp_ret. Qed.

(** What importing the records of one producer leaves behind. *)
Record merged (w w' : World) (rid pid : string) (records : list LogRecord) (stalled : bool) (e : err) : Prop := {
  mg_log : exists applied, extendedBy w w' rid pid (storedPrefix records).1 applied /\
    (e = None -> stalled = false ->
       (storedPrefix records).2 = "" /\
       length applied = length (missing (storedLog (wFS w) rid pid) (storedPrefix records).1));
  mg_others rid' pid' : (rid', pid') <> (rid, pid) -> untouched w w' rid' pid';
}.
Lemma merged_quiet w w' rid pid records stalled e :
  quiet w w' -> storeOK w rid pid -> stalled = true \/ e <> None -> merged w w' rid pid records stalled e.
Proof.
  intros Hq Hok Hs. split; [|intros; by apply untouched_quiet]. exists []. split; [|naive_solver].
  apply untouched_nothing; [by apply untouched_quiet|done].
Qed.
Lemma merged_later w w1 w2 rid pid records stalled e stalled' e' :
  merged w w1 rid pid records stalled e -> quiet w1 w2 -> stalled' = true \/ e' <> None ->
  merged w w2 rid pid records stalled' e'.
Proof.
  intros [(applied & [H1 H2 H3] & _) Ho] Hq Hs. split.
  - exists applied. split; [|naive_solver]. destruct (untouched_quiet _ _ rid pid Hq H1) as [H1' Hl].
    split; [done|by rewrite Hl|done].
  - intros rid' pid' Hne. eapply untouched_trans; [by apply Ho|by apply untouched_quiet].
Qed.

Definition belongs (rid pid : string) (r : LogRecord) : Prop := rRunID r = rid /\ rProducerID r = pid /\ typedRecord r.

Lemma mergeProducer_merged run rid pid records res w :
  Forall (belongs rid pid) records -> storeOK w rid pid ->
  wp (mergeProducer run pid records res) w (fun w' out => merged w w' rid pid records out.2.1 out.2.2).
Proof.
  intros Hb Hok. unfold mergeProducer. destruct (requireID "producerId" pid) as [e|].
  { apply wp_ret. apply merged_quiet; [done|done|by right]. }
  destruct (storedPrefix records) as [batch cond] eqn:Hsp.
  apply wp_bind, harmless_wp; [apply harmless_RegisterProducer|]. intros w1 [e|[]] Hq1.
  { apply wp_bind, stall_wp. intros w2 e2 Hq2. apply wp_ret. apply merged_quiet; [by trans w1|done|by left]. }
  assert (Hbatch : Forall (belongs rid pid) batch).
  { destruct (proj1 (storedPrefix_spec records)) as [k Hk]. rewrite Hsp in Hk. rewrite Hk in Hb. by apply Forall_app in Hb as [? _]. }
  apply wp_bind. eapply (wp_mono _ _ (fun w2 out => merged w w2 rid pid records (negb (bool_decide (cond = ""))) out.2)).
  { destruct batch as [|first rest].
    - apply wp_ret. split; [|intros; by apply untouched_quiet]. exists []. rewrite Hsp. cbn [fst snd].
      split; [apply untouched_nothing; [by apply untouched_quiet|done]|]. intros _ Hs%negb_false_iff%bool_decide_eq_true. done.
    - apply Forall_cons in Hbatch as [(Hr & Hp & Ht) Hrest].
      assert (Htyped : Forall typedRecord (first :: rest)).
      { constructor; [done|]. eapply Forall_impl; [exact Hrest|]. by intros r (_ & _ & ?). }
      pose proof (quiet_storeOK _ _ _ _ Hq1 Hok) as Hok1.
      pose proof (Append_wp w1 first rest Htyped ltac:(by rewrite Hr, Hp)) as Hw.
      unfold wp in *. pose proof (fun rid' pid' Hne => Append_other w1 first rest rid' pid' Hne) as Hother.
      destruct (LogSegment.Append (first :: rest) w1) as [w2 [out e]]. cbn [fst snd] in *.
      destruct Hw as (applied & Hext & _ & Hdone). rewrite Hr, Hp in *. split.
      + exists applied. rewrite Hsp. cbn [fst snd]. rewrite <- (quiet_storedLog _ _ _ _ Hq1 Hok).
        split; [eapply untouched_extended; [by apply untouched_quiet|done|done|by apply untouched_quiet]|].
        intros -> Hs%negb_false_iff%bool_decide_eq_true. split; [done|]. by apply Hdone.
      + intros rid' pid' Hne. eapply untouched_trans; [by apply untouched_quiet|by apply Hother]. }
  intros w2 [out e] Hm. cbn [fst snd] in Hm. destruct e as [e|].
  { apply wp_bind, stallOnAppendError_wp.
    - intros w3 e3 Hq3. apply wp_ret. eapply merged_later; [done|done|by left].
    - apply wp_ret. eapply merged_later; [done|done|by right]. }
  destruct (bool_decide (cond = "")) eqn:Hc; [by apply wp_ret|].
  apply wp_bind, stall_wp. intros w3 e3 Hq3. apply wp_ret. eapply merged_later; [done|done|by left].
Qed.

Lemma importProducer_merged m rid pid records res w :
  Forall (belongs rid pid) records -> storeOK w rid pid ->
  wp (importProducer m pid records res) w (fun w' out => merged w w' rid pid records out.2.1 out.2.2).
Proof.
  intros Hb Hok. unfold importProducer. cbv zeta.
  match goal with |- wp (if ?f then _ else _) _ _ => destruct f end; [|by apply mergeProducer_merged].
  apply wp_bind, stall_wp. intros w' e Hq. apply wp_ret. apply merged_quiet; [done|done|by left].
Qed.
Lemma importProducer_stalled m pid records res w :
  imStalled (importProducer m pid records res w).2.1 = imStalled res.
Proof.
  unfold importProducer, mergeProducer, bind, ret. repeat case_match; done.
Qed.

(** ** The page *)

(** What the page holds for a log. *)
Definition pageFor (rid : string) (groups : gmap string (list LogRecord)) (order : list string) (rid' pid : string)
    : list LogRecord :=
  if decide (rid' = rid /\ pid ∈ order) then (storedPrefix (default [] (groups !! pid))).1 else [].
Lemma pageFor_in rid groups order pid :
  pid ∈ order -> pageFor rid groups order rid pid = (storedPrefix (default [] (groups !! pid))).1.
Proof. intros Hin. unfold pageFor. by rewrite decide_True. Qed.
Lemma pageFor_cons rid groups order id rid' pid :
  (rid', pid) <> (rid, id) -> pageFor rid groups (id :: order) rid' pid = pageFor rid groups order rid' pid.
Proof.
  intros Hne. unfold pageFor. apply decide_ext. rewrite elem_of_cons. naive_solver.
Qed.

Definition extendsAll (rid : string) (groups : gmap string (list LogRecord)) (order : list string) w w' (out : ImportResult * err) : Prop :=
  forall rid' pid, exists applied,
    extendedBy w w' rid' pid (pageFor rid groups order rid' pid) applied /\
    (out.2 = None -> rid' = rid -> pid ∈ order -> pid ∉ imStalled out.1 ->
       (storedPrefix (default [] (groups !! pid))).2 = "" /\
       length applied = length (missing (storedLog (wFS w) rid' pid) (storedPrefix (default [] (groups !! pid))).1)).

Lemma importEach_extends m rid groups order : forall res w,
  NoDup order -> (forall id, id ∈ order -> Forall (belongs rid id) (default [] (groups !! id))) ->
  (forall rid' pid, storeOK w rid' pid) ->
  wp (importEach m groups order res) w (fun w' out =>
    extendsAll rid groups order w w' out /\ imStalled res ⊆ imStalled out.1).
Proof.
  induction order as [|id order IH]; intros res w Hnd Hb Hok; cbn [importEach].
  { apply wp_ret. split; [|done]. intros rid' pid. exists []. split; [|by intros _ _ ?%elem_of_nil].
    unfold pageFor. case_decide; by apply untouched_nothing. }
  apply NoDup_cons in Hnd as [Hnew Hnd]. apply wp_bind.
  pose proof (importProducer_merged m rid id (default [] (groups !! id)) res w (Hb id ltac:(set_solver)) (Hok rid id)) as Hm.
  pose proof (importProducer_stalled m id (default [] (groups !! id)) res w) as Hst.
  unfold wp in Hm |- * at 1. destruct (importProducer m id _ res w) as [w1 [res1 [stalled e]]]. cbn [fst snd] in *.
  destruct Hm as [(applied & Hext & Hdone) Hothers].
  assert (Hu : forall rid' pid, (rid', pid) <> (rid, id) -> untouched w w1 rid' pid) by done.
  destruct e as [e|].
  { apply wp_ret. split; [|cbn [fst]; by rewrite Hst]. intros rid' pid. destruct (decide ((rid', pid) = (rid, id))) as [[= -> ->]|Hne].
    - exists applied. split; [|done]. by rewrite pageFor_in by set_solver.
    - exists []. split; [|done]. apply untouched_nothing; [by apply Hu|done]. }
  set (res2 := if stalled then _ else _).
  assert (Hok1 : forall rid' pid, storeOK w1 rid' pid).
  { intros rid' pid. destruct (decide ((rid', pid) = (rid, id))) as [[= -> ->]|Hne]; [apply Hext|]. by apply Hu. }
  eapply wp_mono; [apply IH; [done|intros x Hx; apply Hb; set_solver|done]|].
  intros w2 out [Hall Hsub]. assert (Hsub1 : imStalled res ⊆ imStalled res2).
  { subst res2. rewrite <- Hst. destruct stalled; [cbn; set_solver|done]. }
  split; [|by trans (imStalled res2)]. intros rid' pid. destruct (decide ((rid', pid) = (rid, id))) as [[= -> ->]|Hne].
  - destruct (Hall rid id) as (none & Hnone & _). unfold pageFor in Hnone. rewrite decide_False in Hnone by naive_solver.
    assert (none = []) as ->.
    { pose proof (ext_stored _ _ _ _ _ _ Hnone) as Hf. unfold missing in Hf. rewrite filter_nil, take_nil in Hf. by inversion Hf. }
    exists applied. rewrite pageFor_in by set_solver. split.
    + destruct Hext as [H1 H2 H3], Hnone as [H4 H5 _]. split; [done| |done]. rewrite app_nil_r in H5. by rewrite H5.
    + intros Hout _ _ Hns. apply Hdone; [done|]. destruct stalled; [|done]. destruct Hns. apply Hsub. subst res2. cbn. set_solver.
  - destruct (Hall rid' pid) as (applied' & Hext' & Hdone'). exists applied'.
    destruct (Hu _ _ Hne (Hok rid' pid)) as [_ Hl]. split.
    + rewrite pageFor_cons by done. destruct Hext' as [H1 H2 H3]. rewrite Hl in H2, H3. by split.
    + rewrite <- Hl. intros Hout -> Hin Hns. apply Hdone'; [done|done| |done]. set_solver.
Qed.

Definition pageRecords (req : ImportRequest) : list LogRecord :=
  match responseOf req with Some resp => respRecords resp | None => [] end.
(** What a request may add to a log. *)
Definition batchOf (req : ImportRequest) (rid pid : string) : list LogRecord :=
  if decide (rid = iRunID req) then (storedPrefix (ofProducer pid (pageRecords req))).1 else [].

Lemma validateImport_runs m req :
  validateImport m req = None -> Forall (fun r => rRunID r = iRunID req) (pageRecords req).
Proof.
  unfold validateImport, pageRecords. destruct (responseOf req) as [resp|]; [|done].
  intros [_ Hv]%andThen_None. apply if_Some_None in Hv as [_ Hv].
  induction (respRecords resp) as [|rec rest IH]; [constructor|]. cbn in Hv. apply andThen_None in Hv as [Hr Hv].
  constructor; [|by apply IH]. unfold validateImportRecord in Hr. case_bool_decide; done.
Qed.
Lemma Manifest_keeps run w : wFS (Manifest run w).1 = wFS w.
Proof.
  assert (Ht : touches (fun _ => False) (Manifest run)).
  { apply touches_ebind; [apply touches_ret|]. intros dir. apply touches_readManifest. }
  apply map_eq. intros p. apply (proj2 (Ht w) p). tauto.
Qed.
Lemma extendedBy_quiet w w1 w2 rid pid batch applied :
  quiet w w1 -> storeOK w rid pid -> extendedBy w1 w2 rid pid batch applied -> extendedBy w w2 rid pid batch applied.
Proof. intros Hq Hok He. by eapply untouched_extended; [apply untouched_quiet|..|apply untouched_quiet]. Qed.

(** C32: Importing a page of a run that another host recorded into a store with
    sound logs ([storeOK]): whichever system calls fail, the log of every producer stays contiguous and grows by nothing
    but the stored form of the page's records of that producer up to the first
    note, those it does not hold yet and in order; other runs are left alone.
    When no error is returned, a producer that is not listed as stalled has all
    of them.  A page that does not validate - for another run, context or
    workspace, too long, or with an invalid record - changes no file. *)
Theorem ImportRemote_merges req w :
  (forall rid pid, storeOK w rid pid) -> Forall typedRecord (pageRecords req) ->
  let w' := (ImportRemote req w).1 in
  let res := (ImportRemote req w).2.1 in
  let e := (ImportRemote req w).2.2 in
  (forall rid pid, exists applied, extendedBy w w' rid pid (batchOf req rid pid) applied /\
     (e = None -> rid = iRunID req -> pid ∉ imStalled res ->
        length applied = length (missing (storedLog (wFS w) rid pid) (batchOf req rid pid)) /\
        ((forall r, r ∈ pageRecords req -> isSynthetic r = true -> rCondition r <> "") ->
           batchOf req rid pid = ofProducer pid (pageRecords req)))) /\
  (forall m, (Manifest (iRunID req) w).2 = inr m -> validateImport m req <> None ->
     wFS w' = wFS w /\ e <> None).
Proof.
  intros Hok Ht. cbv zeta. unfold ImportRemote, bind.
  pose proof (harmless_Manifest (iRunID req) w) as Hq. pose proof (Manifest_keeps (iRunID req) w) as Hsame.
  destruct (Manifest (iRunID req) w) as [w1 [e|m]]; cbn [fst snd] in *.
  { split; [|done]. intros rid pid. exists []. split; [by apply quiet_unchanged|done]. }
  destruct (validateImport m req) as [e|] eqn:Hv; cbn [fst snd ret].
  { split; [|done]. intros rid pid. exists []. split; [by apply quiet_unchanged|done]. }
  split; [|by intros m' [= <-]]. fold (pageRecords req).
  pose proof (groupByProducer_page (pageRecords req)) as [Hgroup Hseen _ Hnd].
  destruct (groupByProducer (pageRecords req) ∅ []) as [groups order]. cbn [fst snd] in *.
  assert (Hb : forall id, id ∈ order -> Forall (belongs (iRunID req) id) (default [] (groups !! id))).
  { intros id _. rewrite Hgroup. apply Forall_forall. intros r [Hid Hin]%list_elem_of_filter.
    apply validateImport_runs in Hv. rewrite Forall_forall in Hv, Ht. split; [by apply Hv|]. split; [done|by apply Ht]. }
  assert (Hok1 : forall rid pid, storeOK w1 rid pid) by (intros; by eapply quiet_storeOK).
  pose proof (importEach_extends m (iRunID req) groups order emptyImport w1 Hnd Hb Hok1) as [Hall _]. unfold wp in Hall.
  destruct (importEach m groups order emptyImport w1) as [w2 [res e]]. cbn [fst snd] in *.
  assert (Hpage : forall rid pid, pageFor (iRunID req) groups order rid pid = batchOf req rid pid).
  { intros rid pid. unfold pageFor, batchOf. rewrite <- Hgroup. destruct (decide (rid = iRunID req)) as [->|Hd].
    - destruct (decide (pid ∈ order)) as [Hin|Hout]; [by rewrite decide_True|]. rewrite decide_False by naive_solver.
      rewrite Hseen, <- eq_None_not_Some in Hout. by rewrite Hout.
    - by rewrite decide_False by naive_solver. }
  intros rid pid. destruct (Hall rid pid) as (applied & Hext & Hdone). rewrite Hpage in Hext. exists applied.
  split; [by eapply extendedBy_quiet|]. intros He -> Hns. cbn in He. rewrite <- (quiet_storedLog w w1) by done.
  destruct (decide (pid ∈ order)) as [Hin|Hout].
  - destruct (Hdone He eq_refl Hin Hns) as [Hcond Hlen]. rewrite <- Hpage, pageFor_in by done. split; [done|].
    intros Hnotes. rewrite Hgroup in *. apply storedPrefix_spec; [|done]. intros r [_ Hr]%list_elem_of_filter. by apply Hnotes.
  - assert (Hnil : ofProducer pid (pageRecords req) = []).
    { rewrite <- Hgroup. rewrite Hseen, <- eq_None_not_Some in Hout. by rewrite Hout. }
    assert (Hbatch : batchOf req (iRunID req) pid = []) by (unfold batchOf; by rewrite decide_True, Hnil).
    rewrite Hbatch in *. split; [|by rewrite Hnil]. pose proof (ext_stored _ _ _ _ _ _ Hext) as Hf.
    unfold missing in *. rewrite filter_nil in *. rewrite take_nil in Hf. by inversion Hf.
Qed.
End Imported.
