(* ===== verification/LogFailed.v ===== *)
(** Which invocations of a run failed (src/pkg/workspacelogs/failed.go): the
    latest state of every invocation over the logs of all producers, and the
    error context made of it; and the session of a process (session.go). *)
From S2P Require Import Prelude GoStd GoText Redact LogTypes LogManifest LogFS LogStore LogSegment LogDisk LogDurable LogSystem.
From S2P Require Import LogCursor LogRetention LogReader LogPaging LogRecorder.

Definition ContextRunID : string := "runId".
Definition ContextFailedInvocationID : string := "failedInvocationId".

Record transitionMark := mkMark {
  tmProducerID : string;
  tmSequence : Z;
  tmRank : Z;
  tmTime : Z;
}.
Definition supersedes (next prior : transitionMark) : bool :=
  if bool_decide (tmProducerID prior = tmProducerID next) then tmSequence prior <=? tmSequence next
  else if negb (tmRank prior =? tmRank next) then tmRank prior <? tmRank next
  else negb (tmTime next <? tmTime prior).

Definition rank (s : string) : Z :=
  if bool_decide (s = InvocationPending) then 0
  else if bool_decide (s = InvocationDeferred) then 1
  else if bool_decide (s = InvocationRunning) then 2
  else if bool_decide (s = InvocationSkipped) then 3
  else 4.
Definition inFlight (s : string) : bool :=
  one_of s [InvocationPending; InvocationDeferred; InvocationRunning].

Record stateFold := mkFold {
  sfState : gmap string string;
  sfLatest : gmap string transitionMark;
  sfOrder : list string;
}.
Definition emptyFold : stateFold := mkFold ∅ ∅ [].
Definition markOf (producerID : string) (rec : LogRecord) : transitionMark :=
  mkMark producerID (rSequence rec) (rank (rState rec)) (rTime rec).

Definition add (producerID : string) (f : stateFold) (rec : LogRecord) : stateFold :=
  let next := markOf producerID rec in
  let id := rInvocationID rec in
  let store (order : list string) :=
    mkFold (<[id := rState rec]> (sfState f)) (<[id := next]> (sfLatest f)) order in
  match sfLatest f !! id with
  | None => store (sfOrder f ++ [id])
  | Some prior => if supersedes next prior then store (sfOrder f) else f
  end.

Section Failed.
Context `{JSON LogRecord} `{JSON RunManifest}.

(** The callback of [eachRecord]. *)
Definition addRecordState (producerID : string) (f : stateFold) (rec : option LogRecord) : stateFold * bool :=
  match rec with
  | Some r => if bool_decide (rKind r = KindInvocation) then (add producerID f r, true) else (f, true)
  | None => (f, true)
  end.
Fixpoint foldProducers (runID : string) (ps : list ProducerRef) (f : stateFold) : St (goerr + stateFold) :=
  match ps with
  | [] => ok f
  | ref :: rest =>
      let! f' := eachRecord (addRecordState (pProducerID ref)) runID (pProducerID ref) 1 f in
      foldProducers runID rest f'
  end.

Definition settle (m : RunManifest) (states : gmap string string) : gmap string string :=
  if Active m then states
  else (fun st => if inFlight st then InvocationUnknown else st) <$> states.
Definition latestStates (m : RunManifest) : St (goerr + (gmap string string * list string)) :=
  let! f := foldProducers (mRunID m) (mProducers m) emptyFold in
  ok (settle m (sfState f), sfOrder f).

Definition failedIn (states : gmap string string) (order : list string) : list string :=
  take (Z.to_nat MaxProducers) (base.filter (fun id => states !! id = Some InvocationFailed) order).
Definition FailedInvocations (runID : string) : St (goerr + list string) :=
  let! m := Manifest runID in
  let! x := latestStates m in
  ok (failedIn x.1 x.2).

(** [nil] is a map without entries. *)
Definition FailureContext (runID : string) : St (gmap string string) :=
  if bool_decide (runID = "") then ret ∅
  else
    let values := {[ ContextRunID := runID ]} in
    let* r := FailedInvocations runID in
    ret (match r with
         | inr [id] => <[ContextFailedInvocationID := id]> values
         | _ => values
         end).

(** ** Sessions *)

Record SessionOptions := mkSessionOptions {
  soRunID : string;
  soParentProducerID : string;
  soProducerID : string;
  soResumed : bool;
  soRun : RunSpec;
  soLocation : string;
  soRedactor : option Redactor;
}.
Record Session := mkSession { sesRecorder : Recorder; sesRunID : string }.

Context `{IDSource}.

(** [None] is the nil session, which does nothing. *)
Definition StartSessionIn (opts : SessionOptions) : St (option Session) :=
  let* created := CreateRun (withRunID (soRun opts) (soRunID opts)) in
  match created with
  | inl _ => ret None
  | inr m =>
      let* out := NewRecorder (mkRecorderOptions (mRunID m) (soLocation opts) (soProducerID opts) (soResumed opts)
                                 (soParentProducerID opts) (soRedactor opts)) in
      match out with
      | (r, None) => ret (Some (mkSession r (mRunID m)))
      | (_, Some _) =>
          if bool_decide (soParentProducerID opts = "") then
            let* _ := SetCommandState (mRunID m) CommandFailed in
            let* _ := LogStore.SealDiscovery (mRunID m) in
            ret None
          else ret None
      end
  end.

Definition commandStateFor (e : err) : string :=
  match e with
  | None => CommandSucceeded
  | Some e => if errorsIs e "context.Canceled" then CommandCanceled else CommandFailed
  end.

Definition Session_BindWorkspace (s : option Session) (uid idAtStart : string) : St unit :=
  match s with
  | Some s => if bool_decide (uid = "") then ret tt
              else let* _ := BindWorkspace (sesRunID s) uid idAtStart in ret tt
  | None => ret tt
  end.
Definition Finish (s : option Session) (e : err) (sealDiscovery : bool) : St (option Session) :=
  match s with
  | None => ret None
  | Some s =>
      let* r := Close (sesRecorder s) ProducerTerminal sealDiscovery in
      let s' := Some (mkSession r (sesRunID s)) in
      if sealDiscovery
      then let* _ := SetCommandState (sesRunID s) (commandStateFor e) in ret s'
      else ret s'
  end.
Definition Session_FailureContext (s : option Session) : St (gmap string string) :=
  match s with None => ret ∅ | Some s => FailureContext (sesRunID s) end.
End Failed.

(** ** The furthest record of an invocation *)

Definition atMost (r r' : LogRecord) : Prop :=
  rank (rState r) < rank (rState r') \/ (rank (rState r) = rank (rState r') /\ rTime r <= rTime r').
#[export] Instance atMost_dec r r' : Decision (atMost r r').
Proof. unfold atMost. apply _. Defined.
Lemma atMost_refl r : atMost r r.
Proof. right. lia. Qed.
Lemma atMost_trans r1 r2 r3 : atMost r1 r2 -> atMost r2 r3 -> atMost r1 r3.
Proof. unfold atMost. lia. Qed.

(** Records with their producers, as the fold sees them. *)
Abbreviation entry := (string * LogRecord)%type.
Definition about (id : string) (es : list entry) : list entry :=
  base.filter (fun e : entry => rInvocationID e.2 = id) es.
(** A producer reports the steps of an invocation in order. *)
Definition orderly (id : string) (es : list entry) : Prop :=
  StronglySorted (fun x y : entry => x.1 = y.1 -> atMost x.2 y.2) (about id es).
Definition furthest (id : string) (es : list entry) (x : entry) : Prop :=
  x ∈ about id es /\ forall y, y ∈ about id es -> atMost y.2 x.2.
Definition sequenced (es : list entry) : Prop :=
  StronglySorted (fun x y : entry => x.1 = y.1 -> rSequence x.2 <= rSequence y.2) es.

Definition addEntry (f : stateFold) (x : entry) : stateFold := add x.1 f x.2.

(** What the fold knows after the entries [es]. *)
Record folded (es : list entry) (f : stateFold) : Prop := {
  fo_order : NoDup (sfOrder f);
  fo_seen id : id ∈ sfOrder f <-> exists x, x ∈ about id es;
  fo_mark id : sfLatest f !! id = None <-> about id es = [];
  fo_entry id mark : sfLatest f !! id = Some mark ->
    exists x, mark = markOf x.1 x.2 /\ sfState f !! id = Some (rState x.2) /\ x ∈ about id es /\
      (orderly id es -> furthest id es x);
}.

Lemma about_snoc id es x :
  about id (es ++ [x]) = about id es ++ (if decide (rInvocationID x.2 = id) then [x] else []).
Proof. unfold about. rewrite filter_app, filter_cons, filter_nil. by case_decide. Qed.

Lemma supersedes_furthest x y :
  (x.1 = y.1 -> rSequence x.2 <= rSequence y.2) -> (x.1 = y.1 -> atMost x.2 y.2) ->
  if supersedes (markOf y.1 y.2) (markOf x.1 x.2) then atMost x.2 y.2 else atMost y.2 x.2.
Proof.
  intros Hseq Hle. unfold supersedes, markOf, atMost in *. cbn [tmProducerID tmSequence tmRank tmTime].
  case_bool_decide as Heq.
  - rewrite (proj2 (Z.leb_le _ _)) by auto. auto.
  - destruct (Z.eqb_spec (rank (rState x.2)) (rank (rState y.2))); cbn [negb].
    + destruct (Z.ltb_spec (rTime y.2) (rTime x.2)); cbn [negb]; lia.
    + destruct (Z.ltb_spec (rank (rState x.2)) (rank (rState y.2))); lia.
Qed.

Lemma orderly_app id es es' : orderly id (es ++ es') -> orderly id es.
Proof. unfold orderly, about. rewrite filter_app. apply StronglySorted_app_1_l. Qed.
Lemma sorted_last {A} (R : A -> A -> Prop) l x y : StronglySorted R (l ++ [x]) -> y ∈ l -> R y x.
Proof. intros Hs Hy. eapply StronglySorted_app_1_elem_of; [exact Hs|done|by apply list_elem_of_singleton]. Qed.

(** One more entry. *)
Lemma folded_step es x f : folded es f -> sequenced (es ++ [x]) -> folded (es ++ [x]) (addEntry f x).
Proof.
  intros [Hord Hseen Hmark Hentry] Hs. set (id0 := rInvocationID x.2).
  assert (Hab : about id0 (es ++ [x]) = about id0 es ++ [x]) by (rewrite about_snoc; by rewrite decide_True).
  assert (Hother : forall id, id <> id0 -> about id (es ++ [x]) = about id es).
  { intros id Hne. rewrite about_snoc, decide_False by done. apply app_nil_r. }
  assert (Hkeep : forall id mark, id <> id0 -> sfLatest f !! id = Some mark ->
    exists y, mark = markOf y.1 y.2 /\ sfState f !! id = Some (rState y.2) /\ y ∈ about id (es ++ [x]) /\
      (orderly id (es ++ [x]) -> furthest id (es ++ [x]) y)).
  { intros id mark Hne Hl. destruct (Hentry id mark Hl) as (y & H1 & H2 & H3 & H4). exists y.
    unfold furthest, orderly. rewrite Hother by done. done. }
  assert (Hnew : forall y, sfLatest f !! id0 = Some (markOf y.1 y.2) -> y ∈ about id0 es -> (orderly id0 es -> furthest id0 es y) ->
    let z := if supersedes (markOf x.1 x.2) (markOf y.1 y.2) then x else y in
    z ∈ about id0 (es ++ [x]) /\ (orderly id0 (es ++ [x]) -> furthest id0 (es ++ [x]) z)).
  { intros y _ Hy Hfar z. assert (Hz : z ∈ about id0 (es ++ [x])).
    { rewrite Hab. subst z. destruct (supersedes _ _); set_solver. }
    split; [done|]. intros Ho. split; [done|]. specialize (Hfar (orderly_app _ _ _ Ho)) as [_ Hmost].
    assert (Hcmp : if supersedes (markOf x.1 x.2) (markOf y.1 y.2) then atMost y.2 x.2 else atMost x.2 y.2).
    { apply supersedes_furthest.
      - apply (sorted_last _ _ _ _ Hs). by apply list_elem_of_filter in Hy as [_ ?].
      - unfold orderly in Ho. rewrite Hab in Ho. by apply (sorted_last _ _ _ _ Ho). }
    intros w. rewrite Hab, elem_of_app, list_elem_of_singleton. subst z.
    destruct (supersedes _ _); intros [Hw| ->]; eauto using atMost_trans, atMost_refl. }
  unfold addEntry, add. fold id0. destruct (sfLatest f !! id0) as [prior|] eqn:Hprior.
  - destruct (Hentry id0 prior Hprior) as (y & -> & Hst & Hy & Hfar). destruct (Hnew y eq_refl Hy Hfar) as [Hz Hfz].
    assert (Hin : id0 ∈ sfOrder f) by (apply Hseen; by exists y).
    destruct (supersedes (markOf x.1 x.2) (markOf y.1 y.2)) eqn:Hsup; split; cbn [sfState sfLatest sfOrder]; try done.
    + intros id. destruct (decide (id = id0)) as [->|Hne]; [|by rewrite Hseen, Hother]. split; [by exists x|done].
    + intros id. destruct (decide (id = id0)) as [->|Hne]; [|by rewrite lookup_insert_ne, Hmark, Hother].
      rewrite lookup_insert_eq, Hab. split; [done|]. by intros [_ ?]%app_eq_nil.
    + intros id mark. destruct (decide (id = id0)) as [->|Hne].
      * rewrite !lookup_insert_eq. intros [= <-]. by exists x.
      * rewrite !lookup_insert_ne by done. by apply Hkeep.
    + intros id. destruct (decide (id = id0)) as [->|Hne]; [|by rewrite Hseen, Hother]. split; [by exists y|done].
    + intros id. destruct (decide (id = id0)) as [->|Hne]; [|by rewrite Hmark, Hother].
      rewrite Hprior, Hab. split; [done|]. by intros [_ ?]%app_eq_nil.
    + intros id mark. destruct (decide (id = id0)) as [->|Hne]; [|by apply Hkeep].
      rewrite Hprior. intros [= <-]. by exists y.
  - assert (Hnone : about id0 es = []) by by apply Hmark.
    assert (Hx : about id0 (es ++ [x]) = [x]) by by rewrite Hab, Hnone.
    split; cbn [sfState sfLatest sfOrder].
    + apply NoDup_app. split_and!; [done| |by apply NoDup_singleton]. intros id Hid ->%list_elem_of_singleton.
      apply Hseen in Hid as [y Hy]. by rewrite Hnone in Hy; apply elem_of_nil in Hy.
    + intros id. rewrite elem_of_app, list_elem_of_singleton. destruct (decide (id = id0)) as [->|Hne].
      * split; [|by right]. intros _. exists x. rewrite Hx. set_solver.
      * rewrite Hseen, Hother by done. naive_solver.
    + intros id. destruct (decide (id = id0)) as [->|Hne]; [by rewrite lookup_insert_eq, Hx|].
      by rewrite lookup_insert_ne, Hmark, Hother.
    + intros id mark. destruct (decide (id = id0)) as [->|Hne].
      * rewrite !lookup_insert_eq. intros [= <-]. exists x. unfold furthest. rewrite Hx.
        split_and!; [done|done|set_solver|]. intros _. split; [set_solver|]. intros y ->%list_elem_of_singleton. apply atMost_refl.
      * rewrite !lookup_insert_ne by done. by apply Hkeep.
Qed.

Lemma folded_entries es : sequenced es -> folded es (foldl addEntry emptyFold es).
Proof.
  induction es as [|x es IH] using rev_ind; intros Hs.
  { split; [constructor|..]; intros id; cbn; [|by rewrite lookup_empty..].
    split; [by intros ?%elem_of_nil|by intros [x ?%elem_of_nil]]. }
  rewrite foldl_app. cbn [foldl].
  assert (Hs1 : sequenced es) by (by eapply StronglySorted_app_1_l).
  exact (folded_step es x _ (IH Hs1) Hs).
Qed.

(** ** Reading the states of a run *)

Section Theorems.
Context `{JSONLaws LogRecord (clean := cleanRecord)} `{JR : JSON RunManifest}.

Definition invocationsOf (pid : string) (log : list LogRecord) : list entry :=
  pair pid <$> base.filter (fun r => rKind r = KindInvocation) log.
(** The transitions of a run, producer by producer. *)
Definition entriesOf (fs : FS) (rid : string) (ps : list ProducerRef) : list entry :=
  concat (map (fun ref => invocationsOf (pProducerID ref) (logOf fs rid ref)) ps).

Lemma runUntil_states pid recs : forall f,
  (runUntil (addRecordState pid) recs f).1 = foldl addEntry f (invocationsOf pid recs).
Proof.
  unfold invocationsOf. induction recs as [|r recs IH]; intros f; [done|]. cbn [runUntil addRecordState].
  rewrite filter_cons. case_bool_decide; case_decide; try done; by rewrite IH.
Qed.
Lemma foldProducers_reads w E rid ps : forall f,
  readable (wFS w) rid ps ->
  reads (foldProducers rid ps f) w (fun f' => f' = foldl addEntry f (entriesOf (wFS w) rid ps)) E.
Proof.
  revert w. induction ps as [|ref ps IH]; intros w f Hr; [by apply reads_ok|].
  destruct (readable_cons _ _ _ _ Hr) as [Hrs _]. cbn [foldProducers].
  assert (Href : ref ∈ ref :: ps) by set_solver. eapply reads_ebind.
  { apply (eachRecord_reads _ w E rid _ 1 (logOf (wFS w) rid ref)); apply Hr; done. }
  intros w1 f1 [[Hf1 _] _] ->. cbn [Z.to_nat drop Z.sub]. rewrite drop_0, runUntil_states.
  unfold entriesOf. cbn [map concat]. rewrite foldl_app. rewrite <- Hf1. apply IH. by rewrite Hf1.
Qed.

Lemma entriesOf_producer fs rid ps x : x ∈ entriesOf fs rid ps -> x.1 ∈ pProducerID <$> ps.
Proof.
  unfold entriesOf. rewrite list_elem_of_In, in_concat. intros (l & Hl & Hx).
  apply in_map_iff in Hl as (ref & <- & Href). apply list_elem_of_In in Href, Hx.
  unfold invocationsOf in Hx. apply list_elem_of_fmap in Hx as (r & -> & _). by apply (list_elem_of_fmap_2 pProducerID).
Qed.
Lemma sequenced_producer pid log :
  (forall i r, log !! i = Some r -> rSequence r = Z.of_nat i + 1) -> sequenced (invocationsOf pid log).
Proof.
  intros Hseq. unfold sequenced, invocationsOf.
  assert (Hs : StronglySorted (fun r r' => rSequence r <= rSequence r') log).
  { clear pid. revert Hseq. generalize 1. induction log as [|r log IH]; intros n Hseq; constructor.
    - apply (IH (n + 1)). intros i x Hi. specialize (Hseq (Datatypes.S i) x Hi). lia.
    - apply Forall_lookup. intros i x Hi. pose proof (Hseq 0%nat r eq_refl). specialize (Hseq (Datatypes.S i) x Hi). lia. }
  induction log as [|r log IH]; [constructor|]. apply StronglySorted_inv in Hs as [Hs Hr]. rewrite filter_cons.
  assert (Hrest : StronglySorted (fun x y : entry => x.1 = y.1 -> rSequence x.2 <= rSequence y.2)
      (pair pid <$> base.filter (fun r => rKind r = KindInvocation) log)).
  { clear -Hs. induction Hs as [|r log Hs IH Hr]; [constructor|]. rewrite filter_cons. case_decide; [|done].
    cbn [fmap list_fmap]. constructor; [done|]. apply Forall_forall. intros y (r' & -> & [_ Hin]%list_elem_of_filter)%list_elem_of_fmap.
    intros _. rewrite Forall_forall in Hr. by apply Hr. }
  case_decide; [|done]. cbn [fmap list_fmap]. constructor; [done|]. apply Forall_forall.
  intros y (r' & -> & [_ Hin]%list_elem_of_filter)%list_elem_of_fmap _. rewrite Forall_forall in Hr. by apply Hr.
Qed.
Lemma logOK_sequence fs rid pid i r :
  logOK fs rid pid -> storedLog fs rid pid !! i = Some r -> rSequence r = Z.of_nat i + 1.
Proof.
  intros [L HL] Hi. pose proof (chain_contiguous _ _ _ _ _ (st_chain _ _ _ _ _ HL)) as Hc. destruct (Hc i r Hi). lia.
Qed.
Lemma entriesOf_sequenced fs rid ps : readable fs rid ps -> sequenced (entriesOf fs rid ps).
Proof.
  induction ps as [|ref ps IH]; intros Hr; [constructor|]. unfold entriesOf. cbn [map concat].
  destruct (readable_cons _ _ _ _ Hr) as [Hrs Hnew]. apply StronglySorted_app_2.
  - intros x y Hx Hy Heq. exfalso. apply entriesOf_producer in Hy. rewrite <- Heq in Hy.
    unfold invocationsOf in Hx. apply list_elem_of_fmap in Hx as (r & -> & _). done.
  - apply sequenced_producer. intros i r Hi. apply (logOK_sequence fs rid (pProducerID ref)); [|done].
    apply (rd_log _ _ _ Hr). set_solver.
  - by apply IH.
Qed.

Lemma settle_failed m states id :
  settle m states !! id = Some InvocationFailed <-> states !! id = Some InvocationFailed.
Proof.
  unfold settle. destruct (Active m); [done|]. rewrite lookup_fmap.
  destruct (states !! id) as [st|]; [|done]. cbn. destruct (inFlight st) eqn:Hf; [|done].
  split; [by intros [=]|]. intros [= Heq]. by rewrite Heq in Hf.
Qed.
Lemma settle_settled m states id st :
  Active m = false -> settle m states !! id = Some st -> inFlight st = false.
Proof.
  intros Hm. unfold settle. rewrite Hm, lookup_fmap. destruct (states !! id) as [st0|]; [|done]. cbn.
  destruct (inFlight st0) eqn:Hf; intros [= <-]; [done|done].
Qed.

Lemma latestStates_reads w E rid m :
  served (wFS w) rid m ->
  let f := foldl addEntry emptyFold (entriesOf (wFS w) rid (mProducers m)) in
  reads (latestStates m) w (fun x => x = (settle m (sfState f), sfOrder f)) E.
Proof.
  intros Hm f. unfold latestStates. rewrite (sv_run _ _ _ Hm). eapply reads_ebind; [apply foldProducers_reads, (sv_logs _ _ _ Hm)|].
  intros w1 f1 _ ->. by apply reads_ok.
Qed.

(** C33: The failed invocations of a run, read from its stored logs: no
    invocation is listed twice and at most as many as a run has producers; an
    invocation that each producer reports in order is listed only if its
    furthest record - the latest of those in the last phase, over all producers
    - says that it failed, and it is listed when that is so, unless the list is
    full.  Reading changes nothing, and fails only when a system call does. *)
Theorem FailedInvocations_furthest w rid m :
  served (wFS w) rid m ->
  let es := entriesOf (wFS w) rid (mProducers m) in
  reads (FailedInvocations rid) w (fun l =>
    NoDup l /\ Z.of_nat (length l) <= MaxProducers /\
    (forall id, id ∈ l -> orderly id es -> exists x, furthest id es x /\ rState x.2 = InvocationFailed) /\
    (forall id x, orderly id es -> x ∈ about id es ->
       (forall y, furthest id es y -> rState y.2 = InvocationFailed) ->
       id ∈ l \/ Z.of_nat (length l) = MaxProducers)) (fun _ => False).
Proof.
  intros Hm es. unfold FailedInvocations. eapply reads_ebind; [by apply Manifest_reads|].
  intros w1 m1 [[Hf1 _] _] ->. eapply reads_ebind; [apply (latestStates_reads _ _ rid); by rewrite Hf1|].
  intros w2 x _ ->. rewrite Hf1. fold es. cbn [fst snd]. set (f := foldl addEntry emptyFold es).
  assert (Hfold : folded es f) by (apply folded_entries, entriesOf_sequenced, (sv_logs _ _ _ Hm)).
  destruct Hfold as [Hord Hseen Hmark Hentry]. apply reads_ok. unfold failedIn.
  set (all := base.filter _ (sfOrder f)). assert (Hall : NoDup all) by by apply NoDup_filter.
  split_and!.
  - eapply sublist_NoDup; [exact Hall|apply sublist_take].
  - rewrite length_take. unfold MaxProducers. lia.
  - intros id Hin%elem_of_take Ho. destruct Hin as (i & Hi%list_elem_of_lookup_2 & _).
    apply list_elem_of_filter in Hi as [Hst%settle_failed Hin]. apply Hseen in Hin as [y Hy].
    destruct (sfLatest f !! id) as [mark|] eqn:Hl; [|by apply Hmark in Hl; rewrite Hl in Hy; apply elem_of_nil in Hy].
    destruct (Hentry id mark Hl) as (x & _ & Hs & _ & Hfar). exists x. split; [by apply Hfar|]. rewrite Hs in Hst. by injection Hst.
  - intros id y Ho Hy Hfail. assert (Hin : id ∈ all).
    { apply list_elem_of_filter. split; [|apply Hseen; by exists y]. apply settle_failed.
      destruct (sfLatest f !! id) as [mark|] eqn:Hl; [|by apply Hmark in Hl; rewrite Hl in Hy; apply elem_of_nil in Hy].
      destruct (Hentry id mark Hl) as (x & _ & Hs & _ & Hfar). rewrite Hs. f_equal. by apply Hfail, Hfar. }
    rewrite length_take. destruct (decide (length all <= Z.to_nat MaxProducers)%nat) as [Hle|Hgt].
    + left. by rewrite take_ge.
    + right. unfold MaxProducers in *. lia.
Qed.
End Theorems.
