(* ===== verification/SshConfig.v ===== *)
(** The managed blocks of an OpenSSH client configuration (src/pkg/ssh/config.go,
    config_block_owner.go, config_conflicts.go, config_alias.go, config_lock.go):
    adding, replacing and removing the block of a workspace, who owns a block,
    which hosts another part of the configuration already names, and the aliases
    of a block. *)
From S2P Require Import Prelude GoStd GoText GoPath GoState.

(** ** The environment *)

(** What the code asks the system for.  [swLstat] is the target of a symbolic
    link, if the path is one; [swGlob] is [filepath.Glob], in its order. *)
Class SshWorld := {
  swHome : goerr + string;
  swConfigDir : goerr + string;
  swHomeVariable : string;
  swExecutable : goerr + string;
  swAbs : string -> goerr + string;
  swLstat : string -> goerr + option string;
  swGlob : string -> goerr + list string;
  swLockError : string -> err;
  swWriteError : string -> err;
  swSha256 : string -> string;
  swLower : string -> string;
  swFold : string -> string;
}.

(** The files the code reads and replaces. *)
Inductive fileNode := Regular (content : string) | Directory | Unreadable (e : goerr).
Definition SshFiles : Type := gmap string fileNode.

(** ** Text *)

Definition MarkerStartPrefix : string := "# Devsy Start ".
Definition MarkerEndPrefix : string := "# Devsy End ".
Definition OwnerLinePrefix : string := "# Devsy Owner ".
Definition SSHHostSuffix : string := ".devsy".
Definition flag (name : string) : string := "--" +:+ name.

Definition isTab (c : ascii) : bool := bool_decide (c = "009"%char).
Definition isBlank (c : ascii) : bool := bool_decide (c = " "%char) || isTab c.
Definition isBlankOrCR (c : ascii) : bool := isBlank c || bool_decide (c = "013"%char).

(** [strings.TrimLeft] and [strings.TrimRight] with a set of characters. *)
Fixpoint TrimLeftIn (f : ascii -> bool) (s : string) : string :=
  match s with String c s' => if f c then TrimLeftIn f s' else s | EmptyString => "" end.
Definition TrimRightIn (f : ascii -> bool) (s : string) : string := string_rev (TrimLeftIn f (string_rev s)).
Definition CutPrefix (s prefix : string) : option string :=
  if HasPrefix s prefix then Some (string_drop (String.length prefix) s) else None.

Definition isMarkerLine (text marker : string) : bool :=
  match CutPrefix (TrimRightIn isBlankOrCR text) marker with
  | None => false
  | Some EmptyString => true
  | Some (String c _) => isBlank c
  end.

(** Up to the first character in the set. *)
Fixpoint untilIn (f : ascii -> bool) (s : string) : string :=
  match s with String c s' => if f c then "" else String c (untilIn f s') | EmptyString => "" end.
Definition isSeparator (c : ascii) : bool := isBlank c || bool_decide (c = "="%char).
Definition sshConfigKeyword (line : string) : string :=
  let trimmed := TrimSpace line in
  if bool_decide (trimmed = "") || HasPrefix trimmed "#" then "" else untilIn isSeparator trimmed.

(** The encoded characters of a text ([range]); U+FFFD for an invalid byte. *)
Fixpoint runesOf (s : string) : list string :=
  match s with
  | EmptyString => []
  | String b0 s1 =>
      match rune_len s, s1 with
      | 1%nat, _ => String b0 "" :: runesOf s1
      | 2%nat, String b1 s2 => String b0 (String b1 "") :: runesOf s2
      | 3%nat, String b1 (String b2 s3) => String b0 (String b1 (String b2 "")) :: runesOf s3
      | 4%nat, String b1 (String b2 (String b3 s4)) => String b0 (String b1 (String b2 (String b3 ""))) :: runesOf s4
      | _, _ => replacement :: runesOf s1
      end
  end.

Record argState := mkArgState { asDone : list string; asCurrent : string; asQuote : bool; asToken : bool }.
Definition argStep (st : argState) (r : string) : argState :=
  if bool_decide (r = String "034" "") then mkArgState (asDone st) (asCurrent st) (negb (asQuote st)) true
  else if negb (asQuote st) && one_of r spaceEncodings then
    if asToken st then mkArgState (asDone st ++ [asCurrent st]) "" (asQuote st) false else st
  else mkArgState (asDone st) (asCurrent st +:+ r) (asQuote st) true.
Definition splitQuotedArguments (rest : string) : list string :=
  let st := foldl argStep (mkArgState [] "" false false) (runesOf rest) in
  if asToken st then asDone st ++ [asCurrent st] else asDone st.
Definition configArguments (line : string) : list string :=
  let trimmed := TrimSpace line in
  let keyword := sshConfigKeyword trimmed in
  let rest := TrimSpace (string_drop (String.length keyword) trimmed) in
  splitQuotedArguments (TrimSpace (TrimPrefix rest "=")).

(** ** Lines *)

Definition errTooLong : goerr := Sentinel "bufio.ErrTooLong" "bufio.Scanner: token too long".
Definition lastLine (rest : string) : list string := if bool_decide (rest = "") then [] else [rest].
(** The lines of a text (src/pkg/scanner/scanner.go: a carriage return is kept);
    a line that does not fit in the buffer ends the scan with an error. *)
Definition scan (maxSize : Z) (content : string) : goerr + list string :=
  let '(ls, rest) := splitLines content in
  let all := ls ++ lastLine rest in
  if existsb (fun l => maxSize <=? len l) all then inl errTooLong else inr all.
Definition ScanLines (content : string) : goerr + list string := scan (1024 * 1024) content.
(** [bufio.ScanLines]: without the carriage return, and with a smaller buffer. *)
Definition dropCR (line : string) : string := TrimSuffix line (String "013" "").
Definition bufioLines (content : string) : goerr + list string :=
  match scan (64 * 1024) content with inl e => inl e | inr ls => inr (map dropCR ls) end.

(** ** Ownership *)

Record Owner := mkOwner { owHome : string; owContext : string; owUID : string }.

Record blockPolicy := mkPolicy {
  plOwner : Owner;
  plHash : string;
  plWorkspaceID : string;
  plImpliedHome : string;
}.

Definition cleanOwnerHome (home : string) : string := if bool_decide (home = "") then "" else Clean home.
Definition hashPart (part : string) : string := Itoa (len part) +:+ ":" +:+ part +:+ ";".

Section Config.
Context `{SshWorld}.

Definition fold (s : string) : string :=
  mapRunes (foldCase to_lower (fun r => if decide (r = u8 [226; 132; 170]%nat) then "k"
                                       else if decide (r = u8 [197; 191]%nat) then "s" else swFold r)) s.
Definition EqualFold (s t : string) : bool := bool_decide (fold s = fold t).
Definition ToLower (s : string) : string := mapRunes (foldCase to_lower swLower) s.

Definition isSSHSectionStart (line : string) : bool :=
  let keyword := sshConfigKeyword line in EqualFold keyword "host" || EqualFold keyword "match".

Definition Hash (o : Owner) : string :=
  string_take 32 (swSha256 (hashPart "devsy-ssh-block-owner-v1" +:+ hashPart (cleanOwnerHome (owHome o)) +:+
                            hashPart (owContext o) +:+ hashPart (owUID o))).
Definition Line (o : Owner) : string := OwnerLinePrefix +:+ Hash o.

Definition newBlockPolicy (owner : Owner) (workspaceID explicitHome : string) : blockPolicy :=
  mkPolicy owner (Hash owner) workspaceID
    (if bool_decide (explicitHome = "") && bool_decide (swHomeVariable = "")
     then cleanOwnerHome (owHome owner) else "").

(** The hash a block records: the line after the start marker that is not blank. *)
Fixpoint firstOwner (lines : list string) : option string :=
  match lines with
  | [] => None
  | line :: rest =>
      let trimmed := TrimSpace line in
      if bool_decide (trimmed = "") then firstOwner rest else TrimSpace <$> CutPrefix trimmed OwnerLinePrefix
  end.
Definition blockOwnerHash (block : list string) : option string := firstOwner (drop 1 block).

Definition isLoopbackHostname (host : string) : bool := one_of (ToLower host) ["127.0.0.1"; "localhost"; "::1"].
Fixpoint tunnelLines (hostname : string) (hasPort : bool) (lines : list string) : bool :=
  match lines with
  | [] => hasPort && isLoopbackHostname hostname
  | line :: rest =>
      match configArguments line with
      | [arg] =>
          let keyword := ToLower (sshConfigKeyword line) in
          if bool_decide (keyword = "hostname")
          then tunnelLines (if bool_decide (hostname = "") then arg else hostname) hasPort rest
          else if bool_decide (keyword = "port") then tunnelLines hostname true rest
          else tunnelLines hostname hasPort rest
      | _ => tunnelLines hostname hasPort rest
      end
  end.
Definition tunnelEvidence (block : list string) : bool := tunnelLines "" false (drop 1 block).

(** [slices.Index] and the elements behind it. *)
Fixpoint after (args : list string) (x : string) : option (list string) :=
  match args with
  | [] => None
  | a :: rest => if decide (a = x) then Some rest else after rest x
  end.
Definition flagValue (args : list string) (name : string) : option string :=
  match after args name with Some (v :: _) => Some v | _ => None end.
Definition workspaceSSHArgs (args : list string) : option (list string) :=
  match after args "workspace" with
  | Some (a :: rest) => if decide (a = "ssh") then
                          if bool_decide (flag "stdio" ∈ rest) then Some rest else None
                        else None
  | _ => None
  end.
Definition workspaceEvidence (p : blockPolicy) (args : list string) : bool :=
  match after args (flag "user") with Some (_ :: w :: _) => bool_decide (w = plWorkspaceID p) | _ => false end.
Definition homeEvidence (p : blockPolicy) (args : list string) : bool :=
  match flagValue args (flag "home") with
  | None => negb (bool_decide (plImpliedHome p = ""))
  | Some home => bool_decide (cleanOwnerHome home = cleanOwnerHome (owHome (plOwner p)))
  end.
Definition proxyEvidence (p : blockPolicy) (args : list string) : bool :=
  match workspaceSSHArgs args with
  | None => false
  | Some rest =>
      match flagValue rest (flag "context") with
      | Some c => bool_decide (c = owContext (plOwner p)) && homeEvidence p rest && workspaceEvidence p rest
      | None => false
      end
  end.
Fixpoint legacyLines (p : blockPolicy) (block lines : list string) : bool :=
  match lines with
  | [] => tunnelEvidence block
  | line :: rest =>
      if EqualFold (sshConfigKeyword line) "proxycommand" then proxyEvidence p (configArguments line)
      else legacyLines p block rest
  end.
Definition legacyEvidence (p : blockPolicy) (block : list string) : bool := legacyLines p block block.

Definition ownershipError (host file reason : string) : goerr :=
  Errorf "ssh config block %q in %s %s; repair or remove it manually" [AStr host; AStr file; AStr reason].
Definition claim (policy : option blockPolicy) (file host : string) (block : list string) : err :=
  match policy with
  | None => None
  | Some p =>
      match blockOwnerHash block with
      | Some recorded =>
          if bool_decide (recorded = plHash p) then None
          else Some (ownershipError host file
            (sprintf "belongs to a different devsy owner (%s), not home %q context %q workspace uid %q"
               [recorded; Quote (owHome (plOwner p)); Quote (owContext (plOwner p)); Quote (owUID (plOwner p))]))
      | None =>
          if legacyEvidence p block then None
          else Some (ownershipError host file
            (sprintf "has no ownership record and no proxy command evidence for home %q context %q workspace %q"
               [Quote (owHome (plOwner p)); Quote (owContext (plOwner p)); Quote (plWorkspaceID p)]))
      end
  end.
Definition owns (policy : option blockPolicy) (file host : string) (block : list string) : bool :=
  match claim policy file host block with None => true | Some _ => false end.

(** ** Blocks *)

(** The lines behind a start marker, up to the end marker or to the end of the
    file, and the lines behind them. *)
Fixpoint managedBlockEnd (lines : list string) (endMarker : string) : list string * list string :=
  match lines with
  | [] => ([], [])
  | line :: rest =>
      if isMarkerLine line endMarker then ([line], rest)
      else let '(block, behind) := managedBlockEnd rest endMarker in (line :: block, behind)
  end.

(** The loop over the lines; each turn takes at least one. *)
Fixpoint dropBlocks (fuel : nat) (lines : list string) (path host : string) (policy : option blockPolicy)
    : goerr + list string :=
  match fuel with
  | O => inr []
  | S fuel' =>
      match lines with
      | [] => inr []
      | line :: rest =>
          if isMarkerLine line (MarkerStartPrefix +:+ host) then
            let '(block, behind) := managedBlockEnd rest (MarkerEndPrefix +:+ host) in
            match claim policy path host (line :: block) with
            | Some e => inl e
            | None => dropBlocks fuel' behind path host policy
            end
          else if isMarkerLine line (MarkerEndPrefix +:+ host) then dropBlocks fuel' rest path host policy
          else match dropBlocks fuel' rest path host policy with
               | inl e => inl e
               | inr kept => inr (line :: kept)
               end
      end
  end.
Definition dropManagedBlocks (lines : list string) (path host : string) (policy : option blockPolicy)
    : goerr + list string := dropBlocks (S (length lines)) lines path host policy.

Definition withoutFirstBlank (lines : list string) : list string :=
  match lines with EmptyString :: rest => rest | _ => lines end.

(** ** Writing a block *)

Record SSHConfigParams := mkSSHConfigParams {
  spConfigPath : string;
  spIncludePath : string;
  spContext : string;
  spWorkspace : string;
  spUser : string;
  spWorkdir : string;
  spCommand : string;
  spGPGAgent : bool;
  spAgentForwarding : bool;
  spDevsyHome : string;
  spProvider : string;
  spTunnelPort : Z;
  spPreferredHost : string;
  spResolvedHost : option string;
  spOwner : Owner;
}.

(** [^[a-z0-9]([a-z0-9-]*[a-z0-9])?\.devsy$] without regard to case. *)
Definition isAlnum (c : ascii) : bool := in_range 97 122 c || in_range 48 57 c.
Definition foldASCII (s : string) : string :=
  mapRunes (foldCase to_lower (fun r => if decide (r = u8 [226; 132; 170]%nat) then "k"
                                       else if decide (r = u8 [197; 191]%nat) then "s" else r)) s.
Definition edgeAlnum (s : string) : bool := match s with String c _ => isAlnum c | EmptyString => false end.
Definition preferredHostPattern (s : string) : bool :=
  let t := foldASCII s in
  HasSuffix t SSHHostSuffix &&
  (let body := TrimSuffix t SSHHostSuffix in
   edgeAlnum body && edgeAlnum (string_rev body) &&
   forallb (fun c => isAlnum c || bool_decide (c = "-"%char)) (String.list_ascii_of_string body)).

Definition hostLine (canonicalHost preferredHost : string) : string :=
  if bool_decide (preferredHost = "") || EqualFold preferredHost canonicalHost || negb (preferredHostPattern preferredHost)
  then "Host " +:+ canonicalHost
  else "Host " +:+ preferredHost +:+ " " +:+ canonicalHost.

Definition quoted (s : string) : string := String "034" (s +:+ String "034" "").
Definition newProxyCommand (execPath context user workspace : string) : string :=
  quoted execPath +:+ " workspace ssh " +:+ flag "stdio" +:+ " " +:+ flag "context" +:+ " " +:+ context +:+ " " +:+
  flag "user" +:+ " " +:+ user +:+ " " +:+ workspace.
Definition buildProxyCommand (execPath : string) (p : SSHConfigParams) : string :=
  if negb (bool_decide (spCommand p = "")) then "  ProxyCommand " +:+ quoted (spCommand p)
  else
    let base := newProxyCommand execPath (spContext p) (spUser p) (spWorkspace p) in
    let options :=
      (if bool_decide (spDevsyHome p = "") then [] else [flag "home" +:+ " " +:+ quoted (spDevsyHome p)]) ++
      (if bool_decide (spWorkdir p = "") then [] else [flag "workdir" +:+ " " +:+ quoted (spWorkdir p)]) ++
      (if spGPGAgent p then [flag "ssh-gpg-forwarding"] else []) in
    match options with
    | [] => "  ProxyCommand " +:+ base
    | _ => "  ProxyCommand " +:+ base +:+ " " +:+ Join options " "
    end.

Definition sshOptions (provider : string) (agentForwarding : bool) : list string :=
  ["  ForwardAgent " +:+ (if agentForwarding then "yes" else "no");
   "  LogLevel error";
   "  StrictHostKeyChecking no";
   "  UserKnownHostsFile /dev/null";
   "  HostKeyAlgorithms rsa-sha2-256,rsa-sha2-512,ssh-rsa"] ++
  (if Contains provider "aws" then ["  ConnectTimeout 60"] else []).
Definition canonicalHost (p : SSHConfigParams) : string := spWorkspace p +:+ SSHHostSuffix.
Definition blockStart (host preferredHost ownerLine : string) : list string :=
  [MarkerStartPrefix +:+ host] ++ (if bool_decide (ownerLine = "") then [] else [ownerLine]) ++
  [hostLine host preferredHost].
Definition blockEnd (user host : string) : list string := ["  User " +:+ user; MarkerEndPrefix +:+ host].
Definition buildTunnelConfigLines (p : SSHConfigParams) (preferredHost ownerLine : string) : list string :=
  blockStart (canonicalHost p) preferredHost ownerLine ++ sshOptions (spProvider p) (spAgentForwarding p) ++
  ["  Hostname 127.0.0.1"; "  Port " +:+ Itoa (spTunnelPort p)] ++ blockEnd (spUser p) (canonicalHost p).
Definition buildSSHConfigLines (p : SSHConfigParams) (preferredHost ownerLine proxyCmd : string) : list string :=
  blockStart (canonicalHost p) preferredHost ownerLine ++ sshOptions (spProvider p) (spAgentForwarding p) ++
  [proxyCmd] ++ blockEnd (spUser p) (canonicalHost p).
Definition newLines (p : SSHConfigParams) (preferredHost ownerLine execPath : string) : list string :=
  if 0 <? spTunnelPort p then buildTunnelConfigLines p preferredHost ownerLine
  else buildSSHConfigLines p preferredHost ownerLine (buildProxyCommand execPath p).

(** Back over the comments in front of a position. *)
Fixpoint backOverComments (position : nat) (lines : list string) : nat :=
  match position with
  | O => O
  | S p => match lines !! p with
           | Some line => if HasPrefix (TrimSpace line) "#" then backOverComments p lines else position
           | None => position
           end
  end.
Fixpoint firstSection (i : nat) (lines : list string) : option nat :=
  match lines with
  | [] => None
  | line :: rest => if isSSHSectionStart line then Some i else firstSection (S i) rest
  end.
Definition insertPosition (lines : list string) : nat :=
  match firstSection 0 lines with
  | Some i => backOverComments i lines
  | None => length lines
  end.
Definition findInsertPosition (config : string) : goerr + (nat * list string) :=
  match bufioLines config with inl e => inl e | inr lines => inr (insertPosition lines, lines) end.
Definition mergeSSHConfig (lines new : list string) (position : nat) : string :=
  Join (take position lines ++ new ++ drop position lines) nl.
Definition addHostSection (config : string) (new : list string) : goerr + string :=
  match findInsertPosition config with
  | inl e => inl e
  | inr (position, lines) => inr (mergeSSHConfig lines new position)
  end.

(** ** Files *)

Abbreviation M := (Go SshFiles).

Definition NewOwner (contextName uid : string) : goerr + Owner :=
  match swConfigDir with
  | inl e => inl (Errorf "resolve devsy home: %w" [AErr e])
  | inr home => inr (mkOwner home contextName uid)
  end.
Definition resolveOwner (owner : Owner) (fallbackContext : string) : goerr + Owner :=
  let context := if bool_decide (owContext owner = "") then fallbackContext else owContext owner in
  if bool_decide (owHome owner = "") then
    match NewOwner context (owUID owner) with
    | inl e => inl e
    | inr defaults => inr (mkOwner (cleanOwnerHome (owHome defaults)) context (owUID owner))
    end
  else inr (mkOwner (cleanOwnerHome (owHome owner)) context (owUID owner)).
Definition newResolvedBlockPolicy (owner : Owner) (workspaceID explicitHome : string) : goerr + blockPolicy :=
  match resolveOwner owner "" with
  | inl e => inl e
  | inr resolved => inr (newBlockPolicy resolved workspaceID explicitHome)
  end.

Definition ResolveSSHConfigPath (sshConfigPath : string) : goerr + string :=
  match swHome with
  | inl e => inl (Errorf "get home dir: %w" [AErr e])
  | inr home =>
      if bool_decide (sshConfigPath = "") then inr (JoinPath [home; ".ssh"; "config"])
      else swAbs (if HasPrefix sshConfigPath "~/" then home +:+ string_drop 1 sshConfigPath else sshConfigPath)
  end.
Fixpoint followLinks (n : nat) (path current : string) : goerr + string :=
  match n with
  | O => inl (Errorf "resolve ssh config link %s: too many levels of symbolic links" [AStr path])
  | S n' =>
      match swLstat current with
      | inl e => inl (Errorf "stat ssh config: %w" [AErr e])
      | inr None => inr current
      | inr (Some link) => followLinks n' path (if IsAbs link then link else JoinPath [Dir current; link])
      end
  end.
Definition resolveSymlinkTarget (path : string) : goerr + string := followLinks 16 path path.
(** The configuration file the options name: the include file if there is one. *)
Definition configTarget (sshConfigPath includePath : string) : goerr + string :=
  match ResolveSSHConfigPath sshConfigPath with
  | inl e => inl (Errorf "invalid ssh config path: %w" [AErr e])
  | inr target =>
      if bool_decide (includePath = "") then inr target
      else match ResolveSSHConfigPath includePath with
           | inl e => inl (Errorf "invalid ssh config include path: %w" [AErr e])
           | inr target => inr target
           end
  end.
Definition resolveWriteTarget (sshConfigPath includePath : string) : goerr + string :=
  match configTarget sshConfigPath includePath with inl e => inl e | inr target => resolveSymlinkTarget target end.

Definition fsErrNotExist : goerr := Sentinel "fs.ErrNotExist" "file does not exist".
Definition readConfigLines (files : SshFiles) (path : string) : goerr + list string :=
  match files !! Clean path with
  | None => inl fsErrNotExist
  | Some Directory => inr []
  | Some (Unreadable e) => inl e
  | Some (Regular content) => ScanLines content
  end.
Definition lockConfigFile (target : string) : M () :=
  match swLockError target with Some e => refuse (Errorf "lock ssh config: %w" [AErr e]) | None => yield () end.
(** The file is replaced as a whole or stays as it is. *)
Definition writeFileAtomic (target data : string) : M () := fun files =>
  match swWriteError target, files !! target with
  | Some e, _ => refuse e files
  | None, Some Directory => refuse (Errorf "replace ssh config: %w" [AErr (Sentinel "os.EISDIR" "file exists")]) files
  | None, _ => update (<[target := Regular data]>) files
  end.
Definition writeSSHConfig (path content : string) : M () := fun files =>
  match writeFileAtomic path content files with
  | (files', inl (Failed e)) => refuse (Errorf "write ssh config: %w" [AErr e]) files'
  | out => out
  end.

Definition removeFromConfigOwned (files : SshFiles) (path host : string) (policy : option blockPolicy) : goerr + string :=
  let lines := match readConfigLines files path with
               | inl e => if errorsIs e "fs.ErrNotExist" then inr [] else inl (Errorf "parse ssh config: %w" [AErr e])
               | inr lines => inr lines
               end in
  match lines with
  | inl e => inl e
  | inr lines =>
      match dropManagedBlocks lines path host policy with
      | inl e => inl e
      | inr kept => inr (Join (withoutFirstBlank kept) nl)
      end
  end.

Definition addHost (files : SshFiles) (path : string) (p : SSHConfigParams) (preferredHost ownerLine : string)
    (policy : option blockPolicy) : goerr + string :=
  match removeFromConfigOwned files path (canonicalHost p) policy with
  | inl e => inl e
  | inr newConfig =>
      match swExecutable with
      | inl e => inl e
      | inr execPath => addHostSection newConfig (newLines p preferredHost ownerLine execPath)
      end
  end.

Definition ConfigureSSHConfig (p : SSHConfigParams) : M () :=
  go! owner := orErr (resolveOwner (spOwner p) (spContext p)) in
  go! target := orErr (resolveWriteTarget (spConfigPath p) (spIncludePath p)) in
  go! _ := lockConfigFile target in
  let preferredHost := default (spPreferredHost p) (spResolvedHost p) in
  go! files := read id in
  go! newFile := orRefuse "parse ssh config: %w" []
                   (addHost files target p preferredHost (Line owner)
                      (Some (newBlockPolicy owner (spWorkspace p) (spDevsyHome p)))) in
  writeSSHConfig target newFile.

Definition removeManagedBlock (workspaceID sshConfigPath includePath : string) (policy : option blockPolicy) : M () :=
  go! target := orErr (resolveWriteTarget sshConfigPath includePath) in
  go! _ := lockConfigFile target in
  go! files := read id in
  go! newFile := orRefuse "parse ssh config: %w" []
                   (removeFromConfigOwned files target (workspaceID +:+ SSHHostSuffix) policy) in
  writeSSHConfig target newFile.
Definition RemoveFromConfig (workspaceID sshConfigPath includePath : string) : M () :=
  removeManagedBlock workspaceID sshConfigPath includePath None.
Definition RemoveFromConfigForOwner (owner : Owner) (workspaceID sshConfigPath includePath : string) : M () :=
  go! policy := orErr (newResolvedBlockPolicy owner workspaceID "") in
  removeManagedBlock workspaceID sshConfigPath includePath (Some policy).

(** ** The user of a block *)

Definition isQuote (c : ascii) : bool := bool_decide (c = "034"%char).
(** [strings.Trim] with the quote. *)
Definition trimQuotes (s : string) : string := TrimRightIn isQuote (TrimLeftIn isQuote s).
Definition userOf (line : string) (user : string) : string :=
  match SplitChar " " (ToLower (TrimSpace line)) with
  | [a; b] => if decide (a = "user") then trimQuotes b else user
  | _ => user
  end.
(** [scanHostSection] with the callback of [GetUser]: the last user in the blocks
    of the host. *)
Fixpoint sectionUser (host : string) (inSection : bool) (user : string) (lines : list string) : string :=
  match lines with
  | [] => user
  | line :: rest =>
      if isMarkerLine line (MarkerStartPrefix +:+ host) then sectionUser host true user rest
      else if isMarkerLine line (MarkerEndPrefix +:+ host) then sectionUser host false user rest
      else if inSection then sectionUser host true (userOf line user) rest
      else sectionUser host false user rest
  end.
Definition GetUser (workspaceID sshConfigPath includePath : string) (files : SshFiles) : goerr + string :=
  match configTarget sshConfigPath includePath with
  | inl e => inl e
  | inr target =>
      let scanned (r : goerr + list string) :=
        match r with
        | inl e => inl (Errorf "parse ssh config: %w" [AErr e])
        | inr lines => inr (sectionUser (workspaceID +:+ SSHHostSuffix) false "root" lines)
        end in
      match files !! target with
      | None => inr "root"
      | Some Directory => scanned (inl (Sentinel "os.EISDIR" "is a directory"))
      | Some (Unreadable e) => inl e
      | Some (Regular content) => scanned (ScanLines content)
      end
  end.

(** ** Conflicts *)

Definition maxIncludeDepth : nat := 5.
Definition maxIncludeFiles : Z := 64.

Record HostConflict := mkConflict { hcHost : string; hcFile : string }.
#[export] Instance HostConflict_eq_dec : EqDecision HostConflict.
Proof. solve_decision. Defined.

(** What stays the same during a scan, and what it collects; a conflict is seen
    when it is among those collected. *)
Record conflictQuery := mkQuery {
  cqHosts : list string;
  cqOwnHost : string;
  cqPolicy : option blockPolicy;
  cqHomeDir : string;
  cqFiles : SshFiles;
}.
Record conflictScan := mkScan { csVisited : list string; csConflicts : list HostConflict }.
Abbreviation C := (Go conflictScan).

Definition visit (path : string) : C () := update (fun s => mkScan (csVisited s ++ [path]) (csConflicts s)).
Definition addConflict (c : HostConflict) (s : conflictScan) : conflictScan :=
  if bool_decide (c ∈ csConflicts s) then s else mkScan (csVisited s) (csConflicts s ++ [c]).

Definition isPattern (token : string) : bool :=
  HasPrefix token "!" || ContainsAny token ["*"%char; "?"%char].
Definition tokenConflicts (q : conflictQuery) (path token : string) : list HostConflict :=
  if isPattern token then []
  else map (fun host => mkConflict host path)
         (base.filter (fun host => negb (bool_decide (host = "")) && EqualFold host token) (cqHosts q)).
Definition recordHosts (q : conflictQuery) (path line : string) : C () :=
  update (fun s => foldl (fun s c => addConflict c s) s (concat (map (tokenConflicts q path) (configArguments line)))).

Definition expandIncludePattern (q : conflictQuery) (pattern : string) : string :=
  if bool_decide (pattern = "~") then cqHomeDir q
  else if HasPrefix pattern "~/" then JoinPath [cqHomeDir q; string_drop 2 pattern]
  else if IsAbs pattern then pattern
  else JoinPath [cqHomeDir q; ".ssh"; pattern].

(** A match of an include; [os.Stat] follows what the file map holds. *)
Definition isFile (q : conflictQuery) (path : string) : bool :=
  match cqFiles q !! Clean path with None | Some Directory => false | _ => true end.

Section Scan.
Context (q : conflictQuery).

(** [deeper] scans an included file, unless the depth limit is reached. *)
Definition followIncludes (deeper : option (string -> C ())) (path line : string) : C () :=
  match deeper with
  | None => refuse (Errorf "ssh config include depth limit of %d exceeded at %s" [AInt (Z.of_nat maxIncludeDepth); AStr path])
  | Some scanFile =>
      eachGo (fun pattern =>
        match swGlob (expandIncludePattern q pattern) with
        | inl e => refuse (Errorf "invalid ssh config include %q in %s: %w" [AStr pattern; AStr path; AErr e])
        | inr matches => eachGo (fun m => if isFile q m then scanFile m else yield ()) matches
        end) (configArguments line)
  end.
Definition scanLine (deeper : option (string -> C ())) (path line : string) : C () :=
  let keyword := ToLower (sshConfigKeyword line) in
  if bool_decide (keyword = "host") then recordHosts q path line
  else if bool_decide (keyword = "include") then followIncludes deeper path line
  else yield ().

(** The lines outside the blocks the policy owns, and without end markers. *)
Fixpoint scannedLines (fuel : nat) (path : string) (lines : list string) : list string :=
  match fuel with
  | O => []
  | S fuel' =>
      match lines with
      | [] => []
      | line :: rest =>
          if isMarkerLine line (MarkerStartPrefix +:+ cqOwnHost q) then
            let '(block, behind) := managedBlockEnd rest (MarkerEndPrefix +:+ cqOwnHost q) in
            if owns (cqPolicy q) path (cqOwnHost q) (line :: block) then scannedLines fuel' path behind
            else scannedLines fuel' path rest
          else if isMarkerLine line (MarkerEndPrefix +:+ cqOwnHost q) then scannedLines fuel' path rest
          else line :: scannedLines fuel' path rest
      end
  end.
Definition scanLines (deeper : option (string -> C ())) (path : string) (lines : list string) : C () :=
  eachGo (scanLine deeper path) (scannedLines (S (length lines)) path lines).

(** [room] levels of includes are left. *)
Fixpoint scanFile (room : nat) (path : string) : C () :=
  go! visited := read csVisited in
  if bool_decide (path ∈ visited) then yield ()
  else if maxIncludeFiles <=? Z.of_nat (length visited)
  then refuse (Errorf "ssh config include limit of %d files exceeded at %s" [AInt maxIncludeFiles; AStr path])
  else match readConfigLines (cqFiles q) path with
       | inl e => if errorsIs e "fs.ErrNotExist" then yield ()
                  else refuse (Errorf "read ssh config %s: %w" [AStr path; AErr e])
       | inr lines =>
           go! _ := visit path in
           scanLines (match room with O => None | S r => Some (scanFile r) end) path lines
       end.
End Scan.

Record HostConflictQuery := mkConflictQuery {
  hqConfigPath : string;
  hqIncludePath : string;
  hqHosts : list string;
  hqCanonicalHost : string;
  hqOwner : Owner;
}.
Definition scanRoots (query : HostConflictQuery) : goerr + list string :=
  match ResolveSSHConfigPath (hqConfigPath query) with
  | inl e => inl (Errorf "invalid ssh config path: %w" [AErr e])
  | inr root =>
      if bool_decide (hqIncludePath query = "") then inr [root]
      else match ResolveSSHConfigPath (hqIncludePath query) with
           | inl e => inl (Errorf "invalid ssh config include path: %w" [AErr e])
           | inr include => inr [root; include]
           end
  end.
Definition findHostConflicts (query : HostConflictQuery) (policy : option blockPolicy) (files : SshFiles)
    : conflictScan * (failure + list HostConflict) :=
  (go! home := orRefuse "get home dir: %w" [] swHome in
   go! roots := orErr (scanRoots query) in
   go! _ := eachGo (scanFile (mkQuery (hqHosts query) (hqCanonicalHost query) policy home files) maxIncludeDepth) roots in
   read csConflicts) (mkScan [] []).
Definition workspaceIDFromHost (host : string) : string := TrimSuffix host SSHHostSuffix.
Definition FindHostConflictsForOwner (query : HostConflictQuery) (files : SshFiles)
    : conflictScan * (failure + list HostConflict) :=
  match newResolvedBlockPolicy (hqOwner query) (workspaceIDFromHost (hqCanonicalHost query)) "" with
  | inl e => (mkScan [] [], inl (Failed e))
  | inr policy => findHostConflicts query (Some policy) files
  end.

(** ** Aliases *)

(** The results of the callbacks. *)
Record AliasReplacement := mkAlias {
  arConfigPath : string;
  arIncludePath : string;
  arCanonicalHost : string;
  arPreferredHost : string;
  arVerify : err;
}.

Definition replacementHostLine (line canonicalHost preferredHost : string) : string :=
  string_take (String.length line - String.length (TrimLeftIn isBlank line)) line +:+
  hostLine canonicalHost preferredHost +:+
  (if HasSuffix line (String "013" "") then String "013" "" else "").
Definition stampOwnerLine (startLine ownerLine : string) : string :=
  startLine +:+ nl +:+ ownerLine +:+ (if HasSuffix startLine (String "013" "") then String "013" "" else "").

(** [firstHostLine] and [applyHostLine] on the lines between the markers;
    [None] when there is no Host line. *)
Fixpoint applyHostLine (lines : list string) (canonicalHost preferredHost : string) : option (list string) :=
  match lines with
  | [] => None
  | line :: rest =>
      if EqualFold (sshConfigKeyword line) "host"
      then Some (replacementHostLine line canonicalHost preferredHost :: rest)
      else (fun rest' => line :: rest') <$> applyHostLine rest canonicalHost preferredHost
  end.

(** The block from its start marker to its end marker. *)
Definition rewriteClosedBlock (start : string) (inner : list string) (end_ path : string) (r : AliasReplacement)
    (policy : option blockPolicy) : goerr + (bool * list string) :=
  let block := start :: inner ++ [end_] in
  match claim policy path (arCanonicalHost r) block with
  | Some e => inl e
  | None =>
      match applyHostLine inner (arCanonicalHost r) (arPreferredHost r) with
      | None => inr (false, block)
      | Some inner' =>
          let start' := match policy, blockOwnerHash block with
                        | Some p, None => stampOwnerLine start (Line (plOwner p))
                        | _, _ => start
                        end in
          inr (true, start' :: inner' ++ [end_])
      end
  end.

(** [opened] is the last start marker that no end marker has followed yet, with
    the lines behind it. *)
Definition flushed (opened : option (string * list string)) : list string :=
  match opened with Some (start, inner) => start :: inner | None => [] end.
Fixpoint rewriteLines (lines : list string) (path : string) (r : AliasReplacement) (policy : option blockPolicy)
    (opened : option (string * list string)) : goerr + (bool * list string) :=
  match lines with
  | [] => inr (false, flushed opened)
  | line :: rest =>
      if isMarkerLine line (MarkerStartPrefix +:+ arCanonicalHost r) then
        match rewriteLines rest path r policy (Some (line, [])) with
        | inl e => inl e
        | inr (found, out) => inr (found, flushed opened ++ out)
        end
      else
        match opened with
        | Some (start, inner) =>
            if isMarkerLine line (MarkerEndPrefix +:+ arCanonicalHost r) then
              match rewriteClosedBlock start inner line path r policy with
              | inl e => inl e
              | inr (applied, block) =>
                  match rewriteLines rest path r policy None with
                  | inl e => inl e
                  | inr (found, out) => inr (applied || found, block ++ out)
                  end
              end
            else rewriteLines rest path r policy (Some (start, inner ++ [line]))
        | None =>
            match rewriteLines rest path r policy None with
            | inl e => inl e
            | inr (found, out) => inr (found, line :: out)
            end
        end
  end.
Definition rewriteHostLines (content path : string) (r : AliasReplacement) (policy : option blockPolicy)
    : goerr + (string * bool) :=
  match rewriteLines (SplitChar "010" content) path r policy None with
  | inl e => inl e
  | inr (found, lines) => inr (Join lines nl, found)
  end.

Definition rollbackAliasTarget (target original : string) (commitErr : goerr) : M bool := fun files =>
  match writeFileAtomic target original files with
  | (files', inl (Failed e)) => refuse (Joined [commitErr; Errorf "restore ssh config: %w" [AErr e]]) files'
  | (files', inl f) => (files', inl f)
  | (files', inr _) => refuse commitErr files'
  end.
(** [commit] is what the caller's commit returns. *)
Definition committing (commit : err) : M bool :=
  match commit with Some e => refuse e | None => yield false end.
Definition rewriteAliasTarget (target : string) (r : AliasReplacement) (policy : option blockPolicy) (commit : err)
    : M bool :=
  go! node := read (fun files : SshFiles => files !! Clean target) in
  match node with
  | None => committing commit
  | Some Directory => refuse (Errorf "read ssh config: %w" [AErr (Sentinel "os.EISDIR" "is a directory")])
  | Some (Unreadable e) => refuse (Errorf "read ssh config: %w" [AErr e])
  | Some (Regular original) =>
      go! x := orErr (rewriteHostLines original target r policy) in
      let '(rewritten, found) := x in
      if negb found || bool_decide (rewritten = original) then committing commit
      else
        go! _ := writeSSHConfig target rewritten in
        match commit with
        | Some e => rollbackAliasTarget target original e
        | None => yield true
        end
  end.
Definition replaceHostAliases (r : AliasReplacement) (policy : option blockPolicy) (commit : err) : M bool :=
  go! target := orErr (resolveWriteTarget (arConfigPath r) (arIncludePath r)) in
  go! _ := lockConfigFile target in
  match arVerify r with
  | Some e => refuse e
  | None => rewriteAliasTarget target r policy commit
  end.
Definition ReplaceHostAliasesForOwner (r : AliasReplacement) (owner : Owner) (commit : err) : M bool :=
  go! policy := orErr (newResolvedBlockPolicy owner (workspaceIDFromHost (arCanonicalHost r)) "") in
  replaceHostAliases r (Some policy) commit.
End Config.
