(* ===== verification/SshBlocks.v ===== *)
(** The managed blocks of an OpenSSH client configuration: what replacing and
    removing the block of a workspace does to the other lines, that a block that
    was written can be removed again, and what the search for conflicting hosts
    finds. *)
From S2P Require Import Prelude GoStd GoText GoPath GoState SshConfig.

(** ** Text *)

Lemma prefix_app p s : HasPrefix (p +:+ s) p = true.
Proof. apply HasPrefix_spec. by eexists. Qed.
Lemma CutPrefix_app p s : CutPrefix (p +:+ s) p = Some s.
Proof. unfold CutPrefix. by rewrite prefix_app, string_drop_app. Qed.

Lemma TrimLeftIn_app f s : exists t, s = t +:+ TrimLeftIn f s.
Proof.
  induction s as [|c s [t IH]]; [by exists ""|]. cbn. destruct (f c); [|by exists ""].
  exists (String c t). rewrite string_app_cons. by rewrite <- IH.
Qed.
Lemma TrimRightIn_app f s : exists t, s = TrimRightIn f s +:+ t.
Proof.
  destruct (TrimLeftIn_app f (string_rev s)) as [t Ht]. exists (string_rev t). unfold TrimRightIn.
  rewrite <- string_rev_concat, <- Ht. by rewrite string_rev_involutive.
Qed.
Lemma TrimRightIn_keep f s c : f c = false -> TrimRightIn f (s +:+ String c "") = s +:+ String c "".
Proof.
  intros Hc. unfold TrimRightIn. rewrite string_rev_concat.
  change (string_rev (String c "") +:+ ?x) with (String c x). cbn [TrimLeftIn]. rewrite Hc.
  by rewrite string_rev_cons, string_rev_involutive.
Qed.

(** A character that is neither white space nor part of a longer encoding. *)
Definition solid (c : ascii) : bool := in_range 33 126 c.
Definition solidText (s : string) : bool := forallb solid (String.list_ascii_of_string s).
Definition startsSoft (e : string) : bool := match e with String d _ => negb (solid d) | EmptyString => false end.

Lemma trimLeft_solid encodings fuel c s :
  forallb startsSoft encodings = true -> solid c = true -> trimLeft encodings fuel (String c s) = String c s.
Proof.
  intros He Hc. destruct fuel as [|fuel]; [done|]. cbn [trimLeft].
  replace (base.filter (fun e => HasPrefix (String c s) e = true) encodings) with (@nil string); [done|].
  symmetry. induction encodings as [|e l IH]; [done|]. cbn in He. apply andb_true_iff in He as [He Hl].
  rewrite filter_cons_False; [by apply IH|]. destruct e as [|d e]; [done|]. intros Hp.
  apply HasPrefix_spec in Hp as [t Ht]. injection Ht as -> _. cbn in He. by rewrite Hc in He.
Qed.
Lemma TrimSpace_solid c s d t :
  String c s = t +:+ String d "" -> solid c = true -> solid d = true -> TrimSpace (String c s) = String c s.
Proof.
  intros Heq Hc Hd. unfold TrimSpace, TrimLeftSpace. rewrite trimLeft_solid by done.
  unfold TrimRightSpace. rewrite Heq, string_rev_concat. change (string_rev (String d "")) with (String d "").
  change (String d "" +:+ string_rev t) with (String d (string_rev t)).
  rewrite trimLeft_solid by done. rewrite string_rev_cons, string_rev_involutive. done.
Qed.
Lemma solidText_last s : s <> "" -> solidText s = true -> exists t d, s = t +:+ String d "" /\ solid d = true.
Proof.
  induction s as [|c s IH]; [done|]. intros _ H. cbn in H. apply andb_true_iff in H as [Hc Hs].
  destruct (decide (s = "")) as [->|Hne]; [by exists "", c|].
  destruct (IH Hne Hs) as (t & d & -> & Hd). by exists (String c t), d.
Qed.
Lemma solidText_take n s : solidText s = true -> solidText (string_take n s) = true.
Proof.
  unfold solidText. revert s. induction n as [|n IH]; intros [|c s]; try done. cbn.
  rewrite !andb_true_iff. intros [? ?]. auto.
Qed.
Lemma TrimSpace_text s : solidText s = true -> TrimSpace s = s.
Proof.
  intros H. destruct s as [|c s]; [done|].
  destruct (solidText_last (String c s)) as (t & d & Ht & Hd); [done..|].
  eapply TrimSpace_solid; [done| |done]. cbn in H. by apply andb_true_iff in H as [].
Qed.

(** *** Lines *)

Definition oneLine (s : string) : bool := negb (hasChar "010" s).

Lemma splitLines_oneLine s : oneLine s = true -> splitLines s = ([], s).
Proof.
  unfold oneLine. induction s as [|c s IH]; [done|]. cbn [hasChar]. rewrite negb_orb.
  rewrite andb_true_iff. intros [Hc Hs]. cbn [splitLines]. rewrite (IH Hs). rewrite decide_False; [done|].
  intros ->. done.
Qed.
Lemma splitLines_oneLines s : Forall (fun l => oneLine l = true) ((splitLines s).1 ++ lastLine (splitLines s).2).
Proof.
  unfold oneLine, lastLine. induction s as [|c s IH]; [constructor|]. rewrite splitLines_cons.
  assert (Hhas : forall t, c <> "010"%char -> hasChar "010" (String c t) = hasChar "010" t).
  { intros t Hc. cbn [hasChar]. by rewrite bool_decide_false. }
  destruct (decide (c = "010"%char)) as [Hc|Hc]; [by constructor|].
  destruct (splitLines s) as [[|l ls] rest]; cbn [fst snd app] in *.
  - rewrite bool_decide_false by done. constructor; [|constructor]. rewrite Hhas by done.
    case_bool_decide; [by subst|]. by inversion IH.
  - inversion IH; subst. constructor; [|done]. by rewrite Hhas.
Qed.
Lemma splitLines_Join l ls :
  Forall (fun l => oneLine l = true) (l :: ls) -> last (l :: ls) <> Some "" ->
  (splitLines (Join (l :: ls) nl)).1 ++ lastLine (splitLines (Join (l :: ls) nl)).2 = l :: ls.
Proof.
  revert l. induction ls as [|l' ls IH]; intros l Hl Hlast.
  - inversion Hl; subst. cbn [Join]. rewrite splitLines_oneLine by done. unfold lastLine. cbn in *.
    by rewrite bool_decide_false by congruence.
  - inversion Hl; subst. rewrite Join_cons. rewrite string_app_assoc.
    erewrite splitLines_app by (apply splitLines_line, splitLines_oneLine; done). cbn [fst snd].
    cbn [app]. f_equal. apply IH; [done|]. done.
Qed.

Definition fits (maxSize : Z) (l : string) : Prop := len l < maxSize.
Lemma scan_Join maxSize ls :
  Forall (fun l => oneLine l = true) ls -> last ls <> Some "" -> Forall (fits maxSize) ls ->
  scan maxSize (Join ls nl) = inr ls.
Proof.
  intros Hl Hlast Hf. destruct ls as [|l ls]; [done|]. unfold scan.
  pose proof (splitLines_Join l ls Hl Hlast) as Hs. destruct (splitLines (Join (l :: ls) nl)) as [a b]. cbn in Hs.
  rewrite Hs. replace (existsb _ (l :: ls)) with false; [done|]. symmetry. apply not_true_iff_false.
  intros (x & Hx%list_elem_of_In & Hb%Z.leb_le)%existsb_exists. rewrite Forall_forall in Hf.
  specialize (Hf x Hx). unfold fits in Hf. lia.
Qed.
Lemma scan_oneLines maxSize s ls : scan maxSize s = inr ls -> Forall (fun l => oneLine l = true) ls.
Proof.
  unfold scan. pose proof (splitLines_oneLines s) as H. destruct (splitLines s) as [a b]. case_match; [done|].
  by intros [= <-].
Qed.

(** *** Markers *)

Lemma isMarkerLine_prefix s m : isMarkerLine s m = true -> HasPrefix s m = true.
Proof.
  unfold isMarkerLine, CutPrefix. destruct (HasPrefix (TrimRightIn isBlankOrCR s) m) eqn:Hp; [|done]. intros _.
  apply HasPrefix_spec in Hp as [t Ht]. destruct (TrimRightIn_app isBlankOrCR s) as [u Hu].
  rewrite Hu, Ht, <- string_app_assoc. apply prefix_app.
Qed.
Lemma isMarkerLine_self s c : isBlankOrCR c = false -> isMarkerLine (s +:+ String c "") (s +:+ String c "") = true.
Proof.
  intros Hc. unfold isMarkerLine. rewrite TrimRightIn_keep by done.
  by rewrite <- (string_app_nil_r (s +:+ _)) at 1; rewrite CutPrefix_app.
Qed.

(** ** The blocks of a host *)

Section Blocks.
Context `{SshWorld} (host : string).

Definition isStart (line : string) : bool := isMarkerLine line (MarkerStartPrefix +:+ host).
Definition isEnd (line : string) : bool := isMarkerLine line (MarkerEndPrefix +:+ host).
Definition unmarked (line : string) : Prop := isStart line = false /\ isEnd line = false.

(** A file is made of lines that belong to nobody's block of the host, of end
    markers without a start, and of blocks: from a start marker to the next end
    marker, or to the end of the file when there is none. *)
Inductive segment := Kept (line : string) | Stray (line : string) | Block (lines : list string).
Inductive cut : list string -> list segment -> Prop :=
| cut_nil : cut [] []
| cut_kept line lines segs : unmarked line -> cut lines segs -> cut (line :: lines) (Kept line :: segs)
| cut_stray line lines segs :
    isStart line = false -> isEnd line = true -> cut lines segs -> cut (line :: lines) (Stray line :: segs)
| cut_closed start inner end_ lines segs :
    isStart start = true -> Forall (fun l => isEnd l = false) inner -> isEnd end_ = true -> cut lines segs ->
    cut (start :: inner ++ end_ :: lines) (Block (start :: inner ++ [end_]) :: segs)
| cut_open start inner :
    isStart start = true -> Forall (fun l => isEnd l = false) inner ->
    cut (start :: inner) [Block (start :: inner)].

Definition kept (segs : list segment) : list string :=
  omap (fun sg => match sg with Kept line => Some line | _ => None end) segs.
(** The first block that somebody else owns. *)
Fixpoint refusal (policy : option blockPolicy) (path : string) (segs : list segment) : err :=
  match segs with
  | [] => None
  | Block block :: rest => andThen (claim policy path host block) (refusal policy path rest)
  | _ :: rest => refusal policy path rest
  end.

Lemma managedBlockEnd_spec lines block behind :
  managedBlockEnd lines (MarkerEndPrefix +:+ host) = (block, behind) ->
  (exists inner end_, lines = inner ++ end_ :: behind /\ block = inner ++ [end_] /\
     Forall (fun l => isEnd l = false) inner /\ isEnd end_ = true) \/
  (lines = block /\ behind = [] /\ Forall (fun l => isEnd l = false) block).
Proof.
  revert block. induction lines as [|line lines IH]; intros block; cbn [managedBlockEnd].
  - intros [= <- <-]. right. by repeat constructor.
  - fold (isEnd line). destruct (isEnd line) eqn:He.
    + intros [= <- <-]. left. exists [], line. by repeat constructor.
    + destruct (managedBlockEnd lines _) as [b r]. intros [= <- <-].
      destruct (IH b eq_refl) as [(inner & e & -> & -> & Hi & Hend)|(-> & -> & Hb)].
      * left. exists (line :: inner), e. repeat split; [by constructor|done].
      * right. repeat split. by constructor.
Qed.

Lemma dropBlocks_cut policy path fuel : forall lines,
  (length lines < fuel)%nat ->
  exists segs, cut lines segs /\
    dropBlocks fuel lines path host policy = match refusal policy path segs with Some e => inl e | None => inr (kept segs) end.
Proof.
  induction fuel as [|fuel IH]; intros lines Hf; [lia|].
  destruct lines as [|line rest]; [exists []; by repeat constructor|]. cbn [dropBlocks].
  fold (isStart line) (isEnd line). cbn in Hf. destruct (isStart line) eqn:Hs; [|destruct (isEnd line) eqn:He].
  - destruct (managedBlockEnd rest _) as [block behind] eqn:Hm. apply managedBlockEnd_spec in Hm.
    destruct Hm as [(inner & e & -> & -> & Hi & Hend)|(-> & -> & Hb)].
    + rewrite length_app in Hf. cbn in Hf. destruct (IH behind) as (segs & Hc & Hd); [lia|].
      exists (Block (line :: inner ++ [e]) :: segs). split; [by constructor|]. cbn [refusal].
      destruct (claim policy path host _); [done|]. exact Hd.
    + exists [Block (line :: block)]. split; [by constructor|]. cbn [refusal].
      destruct (claim policy path host _); [done|]. cbn. by destruct fuel.
  - destruct (IH rest) as (segs & Hc & ->); [lia|]. exists (Stray line :: segs). by split; [constructor|].
  - destruct (IH rest) as (segs & Hc & ->); [lia|]. exists (Kept line :: segs). split; [by repeat constructor|].
    cbn [refusal]. by destruct (refusal policy path segs).
Qed.
Lemma dropManagedBlocks_cut policy path lines :
  exists segs, cut lines segs /\
    dropManagedBlocks lines path host policy = match refusal policy path segs with Some e => inl e | None => inr (kept segs) end.
Proof. apply dropBlocks_cut. lia. Qed.

(** There is one way to cut a file. *)
Lemma inner_unique inner1 inner2 e1 e2 (rest1 rest2 : list string) :
  Forall (fun l => isEnd l = false) inner1 -> Forall (fun l => isEnd l = false) inner2 ->
  isEnd e1 = true -> isEnd e2 = true -> inner1 ++ e1 :: rest1 = inner2 ++ e2 :: rest2 ->
  inner1 = inner2 /\ e1 = e2 /\ rest1 = rest2.
Proof.
  intros H1 H2 He1 He2. revert inner2 H2. induction H1 as [|x inner1 Hx H1 IH]; intros inner2 H2 Heq.
  - destruct H2 as [|y inner2 Hy H2]; [by simplify_eq|]. cbn in Heq. simplify_eq. congruence.
  - destruct H2 as [|y inner2 Hy H2]; injection Heq as -> Heq; [congruence|].
    by destruct (IH _ H2 Heq) as (-> & -> & ->).
Qed.
Lemma inner_open inner e (rest : list string) :
  Forall (fun l => isEnd l = false) (inner ++ e :: rest) -> isEnd e = true -> False.
Proof. intros [_ H1]%Forall_app He. inversion H1. congruence. Qed.
Lemma cut_unique lines segs1 segs2 : cut lines segs1 -> cut lines segs2 -> segs1 = segs2.
Proof.
  unfold unmarked. intros H1. revert segs2.
  induction H1 as [|line lines segs [Hs He] Hc IH|line lines segs Hs He Hc IH|start inner e lines segs Hs Hi He Hc IH|
                   start inner Hs Hi]; intros segs2 H2.
  - by inversion H2.
  - inversion H2; subst; unfold unmarked in *; try (exfalso; intuition congruence). f_equal. by apply IH.
  - inversion H2; subst; unfold unmarked in *; try (exfalso; intuition congruence). f_equal. by apply IH.
  - inversion H2; subst; unfold unmarked in *; try (exfalso; intuition congruence).
    + match goal with Heq : _ ++ _ :: _ = _ ++ _ :: _ |- _ =>
        destruct (inner_unique _ _ _ _ _ _ ltac:(eassumption) Hi ltac:(eassumption) He Heq) as (-> & -> & ->) end.
      f_equal. by apply IH.
    + exfalso. by eapply inner_open.
  - inversion H2; subst; unfold unmarked in *; try (exfalso; intuition congruence).
    + exfalso. by eapply inner_open.
    + done.
Qed.

Lemma cut_kept_all lines : Forall unmarked lines -> cut lines (map Kept lines).
Proof. induction 1; by constructor. Qed.
Lemma cut_app lines1 lines2 segs2 : Forall unmarked lines1 -> cut lines2 segs2 -> cut (lines1 ++ lines2) (map Kept lines1 ++ segs2).
Proof. intros H1 H2. induction H1; [done|]. by constructor. Qed.
Lemma kept_map lines : kept (map Kept lines) = lines.
Proof. induction lines as [|l lines IH]; [done|]. unfold kept in *. cbn. by rewrite IH. Qed.
Lemma kept_app segs1 segs2 : kept (segs1 ++ segs2) = kept segs1 ++ kept segs2.
Proof. apply omap_app. Qed.
Lemma refusal_kept policy path lines segs : refusal policy path (map Kept lines ++ segs) = refusal policy path segs.
Proof. by induction lines. Qed.
Lemma kept_unmarked lines segs : cut lines segs -> Forall unmarked (kept segs).
Proof. induction 1; unfold kept in *; cbn; try done. by constructor. Qed.
Lemma kept_sublist lines segs : cut lines segs -> kept segs `sublist_of` lines.
Proof.
  induction 1; unfold kept in *; cbn.
  - constructor.
  - by constructor.
  - by constructor.
  - constructor. apply sublist_inserts_l. by constructor.
  - apply sublist_nil_l.
Qed.

(** A block behind unmarked lines, and unmarked lines behind it. *)
Lemma drop_inserted policy path before start inner end_ behind :
  Forall unmarked before -> Forall unmarked behind ->
  isStart start = true -> Forall (fun l => isEnd l = false) inner -> isEnd end_ = true ->
  claim policy path host (start :: inner ++ [end_]) = None ->
  dropManagedBlocks (before ++ (start :: inner ++ [end_]) ++ behind) path host policy = inr (before ++ behind).
Proof.
  intros Hb Ha Hs Hi He Hc.
  destruct (dropManagedBlocks_cut policy path (before ++ (start :: inner ++ [end_]) ++ behind)) as (segs & Hcut & ->).
  assert (segs = map Kept before ++ Block (start :: inner ++ [end_]) :: map Kept behind) as ->.
  { eapply cut_unique; [done|]. apply cut_app; [done|]. cbn. rewrite <- app_assoc. cbn. constructor; try done.
    by apply cut_kept_all. }
  rewrite refusal_kept. cbn [refusal]. rewrite Hc. cbn [andThen].
  rewrite <- (app_nil_r (map Kept behind)), refusal_kept. cbn [refusal].
  change (Block (start :: inner ++ [end_]) :: map Kept behind ++ [])
    with ([Block (start :: inner ++ [end_])] ++ map Kept behind ++ []).
  by rewrite !kept_app, !kept_map, app_nil_r.
Qed.
End Blocks.

(** ** The block of a workspace *)

(** A SHA-256 checksum is written with 64 hexadecimal digits. *)
Class HexDigests `{SshWorld} : Prop :=
  hex_digest : forall s, String.length (swSha256 s) = 64%nat /\ solidText (swSha256 s) = true.

Section Written.
Context `{HS : SshWorld}.

(** A line that is not a comment is no marker. *)
Definition uncommented (line : string) : Prop := HasPrefix line "#" = false.
Lemma uncommented_unmarked host line : uncommented line -> unmarked host line.
Proof.
  intros Hu. assert (Hno : forall m, HasPrefix m "#" = true -> isMarkerLine line m = false).
  { intros m Hm. apply not_true_iff_false. intros Hl%isMarkerLine_prefix. apply HasPrefix_spec in Hl as [t ->].
    apply HasPrefix_spec in Hm as [u ->]. unfold uncommented in Hu. by rewrite <- string_app_assoc, prefix_app in Hu. }
  split; apply Hno; by vm_compute.
Qed.

Lemma isStart_owner host hash : isStart host (OwnerLinePrefix +:+ hash) = false.
Proof.
  unfold isStart. apply not_true_iff_false. intros Hl%isMarkerLine_prefix. apply HasPrefix_spec in Hl as [t Ht]. by vm_compute in Ht.
Qed.
Lemma isEnd_owner host hash : isEnd host (OwnerLinePrefix +:+ hash) = false.
Proof.
  unfold isEnd. apply not_true_iff_false. intros Hl%isMarkerLine_prefix. apply HasPrefix_spec in Hl as [t Ht]. by vm_compute in Ht.
Qed.
Lemma marker_self prefix workspace :
  isMarkerLine (prefix +:+ workspace +:+ SSHHostSuffix) (prefix +:+ workspace +:+ SSHHostSuffix) = true.
Proof.
  change SSHHostSuffix with (".devs" +:+ String "y" ""). rewrite !string_app_assoc. by apply isMarkerLine_self.
Qed.
Lemma isStart_own p : isStart (canonicalHost p) (MarkerStartPrefix +:+ canonicalHost p) = true.
Proof. apply marker_self. Qed.
Lemma isEnd_own p : isEnd (canonicalHost p) (MarkerEndPrefix +:+ canonicalHost p) = true.
Proof. apply marker_self. Qed.

Lemma buildProxyCommand_uncommented execPath p : uncommented (buildProxyCommand execPath p).
Proof. unfold buildProxyCommand, uncommented. case_match; [by vm_compute|]. case_match; by vm_compute. Qed.
Lemma sshOptions_uncommented provider forwarding : Forall uncommented (sshOptions provider forwarding).
Proof. unfold sshOptions, uncommented. destruct (Contains provider "aws"); repeat constructor; by vm_compute. Qed.
Lemma hostLine_uncommented c h : uncommented (hostLine c h).
Proof. unfold hostLine, uncommented. case_match; by vm_compute. Qed.

(** What is written: the markers, the owner, and lines that are no comments. *)
Lemma newLines_shape p preferredHost hash execPath :
  exists inner,
    newLines p preferredHost (OwnerLinePrefix +:+ hash) execPath =
      (MarkerStartPrefix +:+ canonicalHost p) :: (OwnerLinePrefix +:+ hash) :: inner ++ [MarkerEndPrefix +:+ canonicalHost p] /\
    Forall uncommented inner.
Proof.
  unfold newLines, buildTunnelConfigLines, buildSSHConfigLines, blockStart, blockEnd.
  rewrite bool_decide_false by (vm_compute; done).
  exists (hostLine (canonicalHost p) preferredHost :: sshOptions (spProvider p) (spAgentForwarding p) ++
          (if 0 <? spTunnelPort p then ["  Hostname 127.0.0.1"; "  Port " +:+ Itoa (spTunnelPort p)]
           else [buildProxyCommand execPath p]) ++ ["  User " +:+ spUser p]). split.
  - case_match; cbn [app]; by rewrite <- !app_assoc.
  - constructor; [apply hostLine_uncommented|]. apply Forall_app; split; [apply sshOptions_uncommented|].
    apply Forall_app; split; [|by repeat constructor].
    case_match; repeat constructor; [..|apply buildProxyCommand_uncommented]; by vm_compute.
Qed.

Context `{!HexDigests}.

Lemma Hash_solid o : Hash o <> "" /\ solidText (Hash o) = true.
Proof.
  unfold Hash. destruct (hex_digest (hashPart "devsy-ssh-block-owner-v1" +:+ hashPart (cleanOwnerHome (owHome o)) +:+
                            hashPart (owContext o) +:+ hashPart (owUID o))) as [Hl Hs].
  split; [|by apply solidText_take]. destruct (swSha256 _); [done|]. done.
Qed.

(** Its writer owns a block. *)
Lemma claim_own o workspaceID home path host start rest :
  claim (Some (newBlockPolicy o workspaceID home)) path host (start :: Line o :: rest) = None.
Proof.
  destruct (Hash_solid o) as [Hne Hs]. destruct (solidText_last _ Hne Hs) as (t & d & Ht & Hd).
  assert (Htrim : TrimSpace (Line o) = Line o).
  { apply (TrimSpace_solid "#" (" Devsy Owner " +:+ Hash o) d (OwnerLinePrefix +:+ t)); [|done..].
    by rewrite <- string_app_assoc, <- Ht. }
  unfold claim. replace (blockOwnerHash _) with (Some (Hash o)).
  - cbn. by rewrite bool_decide_true.
  - unfold blockOwnerHash. cbn [drop firstOwner]. rewrite Htrim. rewrite bool_decide_false by (by vm_compute).
    unfold Line. rewrite CutPrefix_app. symmetry. unfold fmap, option_fmap, option_map. by rewrite TrimSpace_text.
Qed.

Lemma unmarked_notEnd host lines : Forall (unmarked host) lines -> Forall (fun l => isEnd host l = false) lines.
Proof. intros Hl. eapply Forall_impl; [exact Hl|]. by intros l []. Qed.

(** A block between lines of others can be removed again. *)
Lemma drop_written p o preferredHost execPath workspaceID home path lines position :
  Forall (unmarked (canonicalHost p)) lines ->
  dropManagedBlocks (take position lines ++ newLines p preferredHost (Line o) execPath ++ drop position lines)
    path (canonicalHost p) (Some (newBlockPolicy o workspaceID home)) = inr lines.
Proof.
  intros Hl. destruct (newLines_shape p preferredHost (Hash o) execPath) as (inner & Hshape & Hi).
  unfold Line at 1. rewrite Hshape. rewrite <- (take_drop position lines) at 3. rewrite app_comm_cons.
  apply drop_inserted.
  - by apply Forall_take.
  - by apply Forall_drop.
  - apply isStart_own.
  - constructor; [apply isEnd_owner|]. apply unmarked_notEnd. eapply Forall_impl; [exact Hi|].
    intros; by apply uncommented_unmarked.
  - apply isEnd_own.
  - apply claim_own.
Qed.
End Written.

(** ** The file *)

Definition withoutLastBlank (lines : list string) : list string :=
  if decide (last lines = Some "") then removelast lines else lines.

Lemma splitLines_joinLines ls : Forall (fun l => oneLine l = true) ls -> splitLines (joinLines ls) = (ls, "").
Proof.
  induction 1 as [|l ls Hl Hls IH]; [done|]. cbn [joinLines foldr]. rewrite string_app_assoc.
  erewrite splitLines_app by (apply splitLines_line, splitLines_oneLine; done).
  change (foldr _ "" ls) with (joinLines ls). by rewrite IH.
Qed.
Lemma Join_blank ls : ls <> [] -> Join (ls ++ [""]) nl = joinLines ls.
Proof.
  induction ls as [|l ls IH]; [done|]. intros _. destruct ls as [|l' ls].
  - done.
  - change ((l :: l' :: ls) ++ [""]) with (l :: l' :: (ls ++ [""])). rewrite Join_cons.
    change (l' :: ls ++ [""]) with ((l' :: ls) ++ [""]). by rewrite IH.
Qed.
Lemma scan_lines maxSize ls out :
  Forall (fun l => oneLine l = true) ls -> scan maxSize (Join ls nl) = inr out -> out = withoutLastBlank ls.
Proof.
  intros Hl. unfold withoutLastBlank, scan. case_decide as Hlast.
  - destruct ls as [|l ls _] using rev_ind; [done|]. rewrite last_snoc in Hlast. injection Hlast as ->.
    rewrite removelast_last. apply Forall_app in Hl as [Hl _]. destruct (decide (ls = [])) as [->|Hne].
    + cbn. by intros [= <-].
    + rewrite Join_blank, splitLines_joinLines by done. unfold lastLine. rewrite bool_decide_true, app_nil_r by done.
      case_match; [done|]. by intros [= <-].
  - destruct ls as [|l ls]; [cbn; by intros [= <-]|].
    pose proof (splitLines_Join l ls Hl Hlast) as Hs. destruct (splitLines (Join (l :: ls) nl)) as [a b]. cbn in Hs.
    rewrite Hs. case_match; [done|]. by intros [= <-].
Qed.
Lemma bufioLines_Join ls out :
  Forall (fun l => oneLine l = true) ls -> bufioLines (Join ls nl) = inr out -> out = map dropCR (withoutLastBlank ls).
Proof.
  intros Hl. unfold bufioLines. destruct (scan _ _) as [e|x] eqn:Hs; [done|]. intros [= <-].
  by rewrite (scan_lines _ _ _ Hl Hs).
Qed.

Section Files.
Context `{HS : SshWorld}.

(** The lines there were; a file that is not there has none. *)
Definition oldLines (files : SshFiles) (path : string) : option (list string) :=
  match readConfigLines files path with
  | inr lines => Some lines
  | inl e => if errorsIs e "fs.ErrNotExist" then Some [] else None
  end.
Lemma oldLines_oneLine files path lines : oldLines files path = Some lines -> Forall (fun l => oneLine l = true) lines.
Proof.
  unfold oldLines, readConfigLines. destruct (files !! Clean path) as [[content| |e]|].
  - unfold ScanLines. destruct (scan _ _) eqn:Hs; [|intros [= <-]; by eapply scan_oneLines].
    case_match; [|done]. by intros [= <-].
  - by intros [= <-].
  - case_match; [|done]. by intros [= <-].
  - cbn. by intros [= <-].
Qed.
Lemma removeFromConfigOwned_lines files path host policy text :
  removeFromConfigOwned files path host policy = inr text ->
  exists old segs, oldLines files path = Some old /\ cut host old segs /\
    refusal host policy path segs = None /\ text = Join (withoutFirstBlank (kept segs)) nl /\
    Forall (fun l => oneLine l = true) (withoutFirstBlank (kept segs)).
Proof.
  unfold removeFromConfigOwned. cbn zeta. intros Hr.
  assert (exists old, oldLines files path = Some old /\
    match dropManagedBlocks old path host policy with inl e => inl e | inr x => inr (Join (withoutFirstBlank x) nl) end = inr text)
    as (old & Hold & Hd).
  { revert Hr. unfold oldLines. destruct (readConfigLines files path) as [e|old]; [destruct (errorsIs _ _)|]; [eauto|done|eauto]. }
  destruct (dropManagedBlocks_cut host policy path old) as (segs & Hcut & Heq). rewrite Heq in Hd.
  destruct (refusal host policy path segs) eqn:Href; [done|]. injection Hd as <-.
  exists old, segs. repeat split; try done.
  assert (Hk : Forall (fun l => oneLine l = true) (kept segs)).
  { pose proof (oldLines_oneLine _ _ _ Hold) as Hl. rewrite Forall_forall in Hl |- *. intros l Hin. apply Hl.
    eapply elem_of_submseteq; [exact Hin|]. apply sublist_submseteq. eapply kept_sublist, Hcut. }
  destruct Hk as [|[|c s] l]; by repeat constructor.
Qed.

Lemma writeSSHConfig_out target content files :
  let '(files', r) := writeSSHConfig target content files in
  match r with
  | inl _ => files' = files
  | inr _ => files' = <[target := Regular content]> files
  end.
Proof.
  unfold writeSSHConfig, writeFileAtomic. destruct (swWriteError target) as [e|]; [done|].
  by destruct (files !! target) as [[]|].
Qed.

(** C34: Adding the block of a workspace to an OpenSSH configuration changes no file
    but the one it is written to, and none when it fails.  What is written holds,
    in their order, the lines outside the workspace's own blocks, where every block
    that was dropped is one the owner has a claim to, and the new block at the
    insert position; of the other lines only a blank first and last line and
    carriage returns are lost. *)
Theorem ConfigureSSHConfig_own p files :
  let '(files', r) := ConfigureSSHConfig p files in
  match r with
  | inl _ => files' = files
  | inr _ =>
      exists o target old segs execPath,
        resolveOwner (spOwner p) (spContext p) = inr o /\
        resolveWriteTarget (spConfigPath p) (spIncludePath p) = inr target /\
        swExecutable = inr execPath /\
        oldLines files target = Some old /\ cut (canonicalHost p) old segs /\
        Forall (fun sg => match sg with
                          | Block block => claim (Some (newBlockPolicy o (spWorkspace p) (spDevsyHome p))) target (canonicalHost p) block = None
                          | _ => True
                          end) segs /\
        let lines := map dropCR (withoutLastBlank (withoutFirstBlank (kept segs))) in
        files' = <[target := Regular (Join (take (insertPosition lines) lines ++
                    newLines p (default (spPreferredHost p) (spResolvedHost p)) (Line o) execPath ++
                    drop (insertPosition lines) lines) nl)]> files
  end.
Proof.
  unfold ConfigureSSHConfig, bindGo, orErr, orRefuse, lockConfigFile, read.
  destruct (resolveOwner _ _) as [e|o] eqn:Ho; [done|]. cbn [yield].
  destruct (resolveWriteTarget _ _) as [e|target] eqn:Ht; [done|]. cbn [yield].
  destruct (swLockError target); [done|]. cbn [yield id].
  destruct (addHost _ _ _ _ _ _) as [e|text] eqn:Ha; [done|]. cbn [yield].
  pose proof (writeSSHConfig_out target text files) as Hw. destruct (writeSSHConfig target text files) as [files' [f|[]]]; [done|].
  subst files'. unfold addHost in Ha. destruct (removeFromConfigOwned _ _ _ _) as [e|body] eqn:Hr; [done|].
  destruct swExecutable as [e|execPath] eqn:He; [done|].
  apply removeFromConfigOwned_lines in Hr as (old & segs & Hold & Hcut & Href & -> & Hone).
  unfold addHostSection, findInsertPosition in Ha. destruct (bufioLines _) as [e|lines] eqn:Hb; [done|].
  injection Ha as <-. apply bufioLines_Join in Hb as ->; [|done].
  exists o, target, old, segs, execPath. repeat split; try done.
  clear -Href. induction segs as [|[l|l|b] segs IH]; [constructor|..]; cbn [refusal] in Href.
  - constructor; [done|]. by apply IH.
  - constructor; [done|]. by apply IH.
  - apply andThen_None in Href as [? ?]. constructor; [done|]. by apply IH.
Qed.

(** *** Removing what was written *)

Lemma removeFromConfigOwned_text files path host policy content old dropped :
  files !! Clean path = Some (Regular content) -> ScanLines content = inr old ->
  dropManagedBlocks old path host policy = inr dropped ->
  removeFromConfigOwned files path host policy = inr (Join (withoutFirstBlank dropped) nl).
Proof. intros Hf Hs Hd. unfold removeFromConfigOwned, readConfigLines. rewrite Hf, Hs. cbn zeta. by rewrite Hd. Qed.
Lemma drop_unmarked policy path host lines :
  Forall (unmarked host) lines -> dropManagedBlocks lines path host policy = inr lines.
Proof.
  intros Hl. destruct (dropManagedBlocks_cut host policy path lines) as (segs & Hcut & ->).
  rewrite (cut_unique _ _ _ _ Hcut (cut_kept_all _ _ Hl)).
  rewrite <- (app_nil_r (map Kept lines)), refusal_kept. cbn [refusal]. by rewrite app_nil_r, kept_map.
Qed.

(** A scan gives the lines that were joined, but for a blank last one. *)
Lemma scan_joined maxSize ls : Forall (fun l => oneLine l = true) ls -> Forall (fits maxSize) ls ->
  scan maxSize (Join ls nl) = inr (withoutLastBlank ls).
Proof.
  intros Hl Hf. unfold withoutLastBlank. case_decide as Hlast; [|by apply scan_Join].
  destruct ls as [|l ls _] using rev_ind; [done|]. rewrite last_snoc in Hlast. injection Hlast as ->.
  rewrite removelast_last. apply Forall_app in Hl as [Hl _]. apply Forall_app in Hf as [Hf _].
  destruct (decide (ls = [])) as [->|Hne]; [done|]. rewrite Join_blank by done. unfold scan. rewrite splitLines_joinLines by done.
  unfold lastLine. rewrite bool_decide_true, app_nil_r by done. replace (existsb _ ls) with false; [done|].
  symmetry. apply not_true_iff_false. intros (x & Hx%list_elem_of_In & Hb%Z.leb_le)%existsb_exists. rewrite Forall_forall in Hf.
  specialize (Hf x Hx). unfold fits in Hf. lia.
Qed.
Lemma withoutLastBlank_Forall (P : string -> Prop) ls : Forall P ls -> Forall P (withoutLastBlank ls).
Proof.
  unfold withoutLastBlank. case_decide; [|done]. destruct ls as [|l ls _] using rev_ind; [done|]. rewrite removelast_last. by intros [? _]%Forall_app.
Qed.
Lemma withoutFirstBlank_Forall (P : string -> Prop) ls : Forall P ls -> Forall P (withoutFirstBlank ls).
Proof. destruct ls as [|[|c s] ls]; [done|by intros [_ ?]%Forall_cons|done]. Qed.
Lemma withoutLastBlank_app ls ls' : last ls <> Some "" -> withoutLastBlank (ls ++ ls') = ls ++ withoutLastBlank ls'.
Proof.
  intros Hl. unfold withoutLastBlank. destruct ls' as [|l ls' _] using rev_ind.
  - rewrite app_nil_r, decide_False by done. by rewrite app_nil_r.
  - rewrite app_assoc, !last_snoc. case_decide; [|by rewrite app_assoc]. by rewrite !removelast_last.
Qed.

(** A carriage return at the end of a line does not matter to a marker. *)
Lemma dropCR_cases l : dropCR l = l \/ l = dropCR l +:+ String "013" "".
Proof.
  unfold dropCR. destruct (HasSuffix l (String "013" "")) eqn:H.
  - right. apply HasSuffix_spec in H as [t ->]. by rewrite TrimSuffix_app.
  - left. unfold TrimSuffix. by rewrite H.
Qed.
Lemma isMarkerLine_dropCR l m : isMarkerLine (dropCR l) m = isMarkerLine l m.
Proof.
  destruct (dropCR_cases l) as [->|E]; [done|]. rewrite E at 2. unfold isMarkerLine, TrimRightIn. by rewrite string_rev_concat.
Qed.
(** A line that is no marker and that can be read. *)
Definition plainLine (host line : string) : Prop := oneLine line = true /\ unmarked host line /\ fits (64 * 1024) line.
Lemma plain_dropCR host l : plainLine host l -> plainLine host (dropCR l).
Proof.
  intros (Hl & [Hs He] & Hf). split_and!.
  - destruct (dropCR_cases l) as [->|E]; [done|]. rewrite E in Hl. unfold oneLine in *. rewrite hasChar_app in Hl.
    by destruct (hasChar "010" (dropCR l)).
  - unfold unmarked, isStart, isEnd in *. by rewrite !isMarkerLine_dropCR.
  - destruct (dropCR_cases l) as [->|E]; [done|]. rewrite E in Hf. unfold fits in *. rewrite len_app in Hf.
    change (len (String "013" "")) with 1 in Hf. lia.
Qed.
Lemma plain_unmarked host lines : Forall (plainLine host) lines -> Forall (unmarked host) lines.
Proof. intros Hl. eapply Forall_impl; [exact Hl|]. by intros l (_ & ? & _). Qed.
Lemma plain_oneLine host lines : Forall (plainLine host) lines -> Forall (fun l => oneLine l = true) lines.
Proof. intros Hl. eapply Forall_impl; [exact Hl|]. by intros l []. Qed.
Lemma plain_fits host n lines : 64 * 1024 <= n -> Forall (plainLine host) lines -> Forall (fits n) lines.
Proof. intros Hn Hl. eapply Forall_impl; [exact Hl|]. intros l (_ & _ & Hf). unfold fits in *. lia. Qed.

(** What is left of lines that are written with a block and read again: adding
    takes the carriage returns and a blank line at either end, and so does removing
    when the block does not lie there. *)
Definition shortened (old : list string) : list string := map dropCR (withoutLastBlank (withoutFirstBlank old)).
Definition trimmed (old : list string) : list string :=
  let lines := shortened old in
  withoutFirstBlank (take (insertPosition lines) lines ++ withoutLastBlank (drop (insertPosition lines) lines)).
Definition tidyEdges (old : list string) : Prop :=
  Forall (fun l => dropCR l = l) old /\ head old <> Some "" /\ last old <> Some "".
Lemma withoutLastBlank_tidy ls : last ls <> Some "" -> withoutLastBlank ls = ls.
Proof. intros Hl. unfold withoutLastBlank. by rewrite decide_False. Qed.
Lemma withoutFirstBlank_tidy ls : head ls <> Some "" -> withoutFirstBlank ls = ls.
Proof. by destruct ls as [|[|c s] ls]. Qed.
Lemma trimmed_tidy old : tidyEdges old -> trimmed old = old.
Proof.
  intros (Hcr & Hh & Hl). assert (E : shortened old = old).
  { unfold shortened. rewrite withoutFirstBlank_tidy, withoutLastBlank_tidy by done. clear -Hcr. induction Hcr as [|l ls E _ IH]; [done|]. cbn. by rewrite E, IH. }
  unfold trimmed. rewrite E. rewrite withoutLastBlank_tidy, take_drop; [by apply withoutFirstBlank_tidy|].
  intros Hd. apply Hl. rewrite <- (take_drop (insertPosition old) old), last_app, Hd. done.
Qed.
Lemma shortened_plain host old : Forall (plainLine host) old -> Forall (plainLine host) (shortened old).
Proof.
  intros Hl. unfold shortened. apply Forall_map. eapply Forall_impl; [|intros l; apply plain_dropCR].
  by apply withoutLastBlank_Forall, withoutFirstBlank_Forall.
Qed.
Lemma newLines_last p preferredHost o execPath :
  last (newLines p preferredHost (Line o) execPath) <> Some "" /\ newLines p preferredHost (Line o) execPath <> [].
Proof.
  destruct (newLines_shape p preferredHost (Hash o) execPath) as (inner & Hs & _). unfold Line. rewrite Hs.
  split; [|done]. change (?a :: ?b :: inner ++ [?c]) with ((a :: b :: inner) ++ [c]). rewrite last_snoc.
  by intros [= ?].
Qed.
Lemma newBlockPolicy_resolved o workspaceID home :
  owContext o <> "" -> owHome o <> "" ->
  newResolvedBlockPolicy o workspaceID home =
    inr (newBlockPolicy (mkOwner (cleanOwnerHome (owHome o)) (owContext o) (owUID o)) workspaceID home).
Proof. intros Hc Hh. unfold newResolvedBlockPolicy, resolveOwner. by rewrite !bool_decide_false. Qed.

Context `{!HexDigests}.

(** A configuration with the block of a workspace, without it. *)
Lemma drop_inserted_block p o preferredHost execPath workspaceID home path before behind :
  Forall (unmarked (canonicalHost p)) before -> Forall (unmarked (canonicalHost p)) behind ->
  dropManagedBlocks (before ++ newLines p preferredHost (Line o) execPath ++ behind)
    path (canonicalHost p) (Some (newBlockPolicy o workspaceID home)) = inr (before ++ behind).
Proof.
  intros Hb Ha. pose proof (drop_written p o preferredHost execPath workspaceID home path (before ++ behind) (length before)) as Hd.
  rewrite take_app_length, drop_app_length in Hd. apply Hd. by apply Forall_app.
Qed.

(** C35: The block of a workspace can be removed again.  When the target can be
    locked and written, the configuration has no marker of the workspace and no
    line of 64 KiB or more, and the new lines are lines and fit too, then adding
    the block succeeds, whatever its parameters are, and removing it for the same
    owner leaves the lines there were, but for their carriage returns and up to two
    blank lines at the beginning and at the end ([trimmed]); where there are none of
    these, it leaves exactly the lines there were. *)
Theorem ConfigureSSHConfig_removed p files target content old execPath :
  owContext (spOwner p) <> "" -> owHome (spOwner p) <> "" ->
  resolveWriteTarget (spConfigPath p) (spIncludePath p) = inr target -> Clean target = target ->
  swLockError target = None -> swWriteError target = None -> swExecutable = inr execPath ->
  files !! target = Some (Regular content) -> ScanLines content = inr old ->
  Forall (plainLine (canonicalHost p)) old ->
  Forall (fun l => oneLine l = true /\ fits (1024 * 1024) l)
    (newLines p (default (spPreferredHost p) (spResolvedHost p))
       (Line (mkOwner (cleanOwnerHome (owHome (spOwner p))) (owContext (spOwner p)) (owUID (spOwner p)))) execPath) ->
  (exists files',
    ConfigureSSHConfig p files = (files', inr ()) /\
    RemoveFromConfigForOwner (spOwner p) (spWorkspace p) (spConfigPath p) (spIncludePath p) files' =
      (<[target := Regular (Join (trimmed old) nl)]> files, inr ())) /\
  (tidyEdges old -> trimmed old = old).
Proof.
  intros Hctx Hhome Ht Hclean Hlock Hwrite Hexec Hfile Hscan Hplain Hnew. split; [|apply trimmed_tidy].
  set (o := mkOwner _ _ _) in *. set (ph := default _ _) in *. set (new := newLines p ph (Line o) execPath) in *.
  set (host := canonicalHost p) in *. pose proof (shortened_plain host old Hplain) as Hlines.
  unfold trimmed. set (lines := shortened old) in *. set (pos := insertPosition lines).
  assert (Ho : resolveOwner (spOwner p) (spContext p) = inr o) by (unfold resolveOwner; by rewrite !bool_decide_false).
  set (text := Join (take pos lines ++ new ++ drop pos lines) nl).
  assert (Hadd : addHost files target p ph (Line o) (Some (newBlockPolicy o (spWorkspace p) (spDevsyHome p))) = inr text).
  { unfold addHost. erewrite removeFromConfigOwned_text; [|by rewrite Hclean|done|by apply drop_unmarked, plain_unmarked].
    rewrite Hexec. unfold addHostSection, findInsertPosition, bufioLines. fold host.
    assert (Hp : Forall (plainLine host) (withoutFirstBlank old)) by by apply withoutFirstBlank_Forall.
    rewrite scan_joined; [done|by eapply plain_oneLine|eapply plain_fits; [|done]; lia]. }
  assert (Hnewfile : (<[target := Regular text]> files : SshFiles) !! target = Some (Regular text)) by apply (lookup_insert_eq (M:=gmap string)).
  destruct (newLines_last p ph o execPath) as [Hlast Hne]. fold new in Hlast, Hne.
  assert (Hback : ScanLines text = inr (take pos lines ++ new ++ withoutLastBlank (drop pos lines))).
  { unfold ScanLines, text. rewrite scan_joined.
    - f_equal. rewrite !app_assoc. apply withoutLastBlank_app. rewrite last_app.
      destruct (last new) eqn:El; [done|]. by apply last_None in El.
    - apply Forall_app; split; [|apply Forall_app; split]; [by eapply Forall_take, plain_oneLine| |by eapply Forall_drop, plain_oneLine].
      eapply Forall_impl; [exact Hnew|]. by intros l [].
    - apply Forall_app; split; [|apply Forall_app; split]; [eapply Forall_take, plain_fits; [lia|done]| |eapply Forall_drop, plain_fits; [lia|done]].
      eapply Forall_impl; [exact Hnew|]. by intros l []. }
  exists (<[target := Regular text]> files). split.
  - unfold ConfigureSSHConfig, bindGo, orErr, orRefuse, lockConfigFile, read. rewrite Ho. cbn [yield].
    rewrite Ht. cbn [yield]. rewrite Hlock. cbn [yield id]. fold ph. rewrite Hadd. cbn [yield].
    unfold writeSSHConfig, writeFileAtomic. by rewrite Hwrite, Hfile.
  - unfold RemoveFromConfigForOwner, removeManagedBlock, bindGo, orErr, orRefuse, lockConfigFile, read.
    rewrite newBlockPolicy_resolved by done. fold o. cbn [yield]. rewrite Ht. cbn [yield]. rewrite Hlock. cbn [yield id].
    rewrite (removeFromConfigOwned_text _ _ _ _ text (take pos lines ++ new ++ withoutLastBlank (drop pos lines)) (take pos lines ++ withoutLastBlank (drop pos lines)));
      [|by rewrite Hclean|exact Hback|apply drop_inserted_block; [by apply Forall_take, plain_unmarked|by apply withoutLastBlank_Forall, Forall_drop, plain_unmarked]].
    cbn [yield]. unfold writeSSHConfig, writeFileAtomic. rewrite Hwrite, Hnewfile.
    unfold update. cbn. f_equal. apply (insert_insert_eq (M:=gmap string)).
Qed.
End Files.

(** ** Conflicts *)

Lemma elem_of_concat {A B} (f : A -> list B) l y : y ∈ concat (map f l) <-> exists x, x ∈ l /\ y ∈ f x.
Proof.
  induction l as [|x l IH]; cbn; [set_solver|]. rewrite elem_of_app, IH. set_solver.
Qed.

Section Conflicts.
Context `{HS : SshWorld} (q : conflictQuery) (roots : list string).

Definition keywordOf (line : string) : string := SshConfig.ToLower (sshConfigKeyword line).
Definition lineConflicts (path line : string) : list HostConflict :=
  if bool_decide (keywordOf line = "host") then concat (map (tokenConflicts q path) (configArguments line)) else [].
Definition patternFiles (pattern : string) : list string :=
  match swGlob (expandIncludePattern q pattern) with
  | inr matches => base.filter (fun m => isFile q m = true) matches
  | inl _ => []
  end.
Definition lineIncludes (line : string) : list string :=
  if bool_decide (keywordOf line = "include") then concat (map patternFiles (configArguments line)) else [].

(** What a file holds outside the blocks of the workspace that its owner may
    replace: the names in its Host lines that are among those asked for, and the
    files its Include lines name. *)
Definition linesOf (path : string) : list string :=
  match readConfigLines (cqFiles q) path with
  | inr lines => scannedLines q (S (length lines)) path lines
  | inl _ => []
  end.
Definition fileConflicts (path : string) : list HostConflict := concat (map (lineConflicts path) (linesOf path)).
Definition fileIncludes (path : string) : list string := concat (map lineIncludes (linesOf path)).
Definition readable (path : string) : Prop := is_Some (match readConfigLines (cqFiles q) path with inr l => Some l | inl _ => None end).

(** The files of the configuration. *)
Inductive reached : string -> Prop :=
| reached_root path : path ∈ roots -> reached path
| reached_include path included : reached path -> included ∈ fileIncludes path -> reached included.

Record scanned (s : conflictScan) : Prop := mkScanned {
  sc_files : NoDup (csVisited s);
  sc_bound : (length (csVisited s) <= 64)%nat;
  sc_reached : forall f, f ∈ csVisited s -> reached f /\ readable f;
  sc_unique : NoDup (csConflicts s);
  sc_sound : forall c, c ∈ csConflicts s -> exists f, f ∈ csVisited s /\ c ∈ fileConflicts f;
}.
Definition grows (s s' : conflictScan) : Prop :=
  csVisited s ⊆ csVisited s' /\ csConflicts s ⊆ csConflicts s'.
#[export] Instance grows_preorder : PreOrder grows.
Proof. unfold grows. split; [by intros s|]. intros s1 s2 s3 [] []. split; set_solver. Qed.

(** All that a file holds has been found. *)
Definition complete (f : string) (s : conflictScan) : Prop :=
  fileConflicts f ⊆ csConflicts s /\ forall m, m ∈ fileIncludes f -> readable m -> m ∈ csVisited s.
Definition covered (s s' : conflictScan) : Prop := forall f, f ∈ csVisited s' -> f ∈ csVisited s \/ complete f s'.

Lemma complete_grows f s s' : grows s s' -> complete f s -> complete f s'.
Proof. intros [Hv Hc] [H1 H2]. split; [set_solver|]. intros m Hm Hr. by apply Hv, H2. Qed.
Lemma covered_trans s1 s2 s3 : grows s2 s3 -> covered s1 s2 -> covered s2 s3 -> covered s1 s3.
Proof.
  intros Hg H12 H23 f Hf. destruct (H23 f Hf) as [Hf2|]; [|by right].
  destruct (H12 f Hf2) as [|Hc]; [by left|]. right. by eapply complete_grows.
Qed.

(** A part of the scan of the file [path]; [Q] is what it finds when it succeeds. *)
Definition finds (path : option string) (m : Go conflictScan ()) (Q : conflictScan -> Prop) : Prop :=
  forall s, scanned s -> (forall p, path = Some p -> p ∈ csVisited s) ->
    scanned (m s).1 /\ grows s (m s).1 /\ ((m s).2 = inr () -> covered s (m s).1 /\ Q (m s).1).
Definition lasting (Q : conflictScan -> Prop) : Prop := forall s s', grows s s' -> Q s -> Q s'.

Definition outcome (s : conflictScan) (out : conflictScan * (failure + ())) (Q : conflictScan -> Prop) : Prop :=
  scanned out.1 /\ grows s out.1 /\ (out.2 = inr () -> covered s out.1 /\ Q out.1).
Lemma outcome_same s (Q : conflictScan -> Prop) : scanned s -> Q s -> outcome s (s, inr ()) Q.
Proof. intros Hs HQ. split; [done|]. split; [done|]. intros _. split; [by left|done]. Qed.
Lemma outcome_refused s e Q : scanned s -> outcome s (s, inl e) Q.
Proof. intros Hs. by split. Qed.
Lemma finds_yield path (Q : conflictScan -> Prop) : (forall s, scanned s -> Q s) -> finds path (yield ()) Q.
Proof. intros HQ s Hs _. by apply outcome_same, HQ. Qed.
Lemma finds_refuse path e Q : finds path (refuse e) Q.
Proof. intros s Hs _. by apply outcome_refused. Qed.
Lemma finds_each {A} path (body : A -> Go conflictScan ()) (Q : A -> conflictScan -> Prop) l :
  (forall x, lasting (Q x)) -> (forall x, x ∈ l -> finds path (body x) (Q x)) ->
  finds path (eachGo body l) (fun s => forall x, x ∈ l -> Q x s).
Proof.
  intros HQ Hb. induction l as [|x l IH]; [apply finds_yield; intros s _ x Hx; by apply elem_of_nil in Hx|].
  cbn [eachGo]. intros s Hs Hp. destruct (Hb x (list_elem_of_here _ _) s Hs Hp) as (H1 & H2 & H3).
  unfold bindGo. destruct (body x s) as [s1 [f|[]]]; cbn in *; [done|]. destruct (H3 eq_refl) as [Hcov Hq].
  destruct (IH ltac:(intros y Hy; apply Hb; by right) s1 H1) as (H4 & H5 & H6).
  { intros p Hpp. apply H2. by apply Hp. }
  split; [done|]. split; [by trans s1|]. intros Hr. destruct (H6 Hr) as [Hcov' Hq']. split.
  - by eapply covered_trans.
  - intros y [->|Hy]%elem_of_cons; [|by apply Hq']. by eapply HQ.
Qed.

Lemma addConflict_elem c s : csConflicts (addConflict c s) ⊆ csConflicts s ++ [c] /\ c ∈ csConflicts (addConflict c s) /\
  csConflicts s ⊆ csConflicts (addConflict c s) /\ csVisited (addConflict c s) = csVisited s.
Proof. unfold addConflict. case_bool_decide; cbn; repeat split; set_solver. Qed.
Lemma addConflicts_grow cs : forall s,
  csVisited (foldl (fun s c => addConflict c s) s cs) = csVisited s /\
  csConflicts s ⊆ csConflicts (foldl (fun s c => addConflict c s) s cs) /\
  cs ⊆ csConflicts (foldl (fun s c => addConflict c s) s cs) /\
  csConflicts (foldl (fun s c => addConflict c s) s cs) ⊆ csConflicts s ++ cs /\
  (NoDup (csConflicts s) -> NoDup (csConflicts (foldl (fun s c => addConflict c s) s cs))).
Proof.
  induction cs as [|c cs IH]; intros s; cbn [foldl].
  - rewrite app_nil_r. repeat split; set_solver.
  - destruct (addConflict_elem c s) as (Ha & Hb & Hc & Hd). destruct (IH (addConflict c s)) as (H1 & H2 & H3 & H4 & H5).
    split; [congruence|]. split; [by trans (csConflicts (addConflict c s))|].
    split; [intros x [->|Hx]%elem_of_cons; [by apply H2|by apply H3]|].
    split.
    { intros x Hx%H4. apply elem_of_app in Hx as [Hx%Ha|Hx]; [|set_solver].
      apply elem_of_app in Hx as [Hx|Hx]; set_solver. } intros Hn. apply H5. unfold addConflict. case_bool_decide as Hin; [done|].
    cbn. apply NoDup_app. repeat split; [done| |apply NoDup_singleton]. intros x Hx ->%list_elem_of_singleton. done.
Qed.
Lemma recordHosts_finds path line :
  line ∈ linesOf path -> keywordOf line = "host" ->
  finds (Some path) (recordHosts q path line) (fun s => lineConflicts path line ⊆ csConflicts s).
Proof.
  intros Hline Hk s Hs Hp. unfold recordHosts, update. cbn [fst snd].
  assert (Heq : concat (map (tokenConflicts q path) (configArguments line)) = lineConflicts path line).
  { unfold lineConflicts. by rewrite bool_decide_true. }
  rewrite Heq. destruct (addConflicts_grow (lineConflicts path line) s) as (H1 & H2 & H3 & H4 & H5).
  split; [|split].
  - destruct Hs. split; [by rewrite H1|by rewrite H1|by rewrite H1|auto|].
    intros c Hc. rewrite H1. apply H4 in Hc. apply elem_of_app in Hc as [Hc|Hc]; [by apply sc_sound0|].
    exists path. split; [by apply Hp|]. apply elem_of_concat. eauto.
  - split; [by rewrite H1|done].
  - intros _. split; [|done]. intros f Hf. left. by rewrite H1 in Hf.
Qed.

Lemma finds_weaken path m (Q Q' : conflictScan -> Prop) :
  finds None m Q -> (forall s, Q s -> Q' s) -> finds path m Q'.
Proof.
  intros Hm HQ s Hs _. destruct (Hm s Hs ltac:(done)) as (H1 & H2 & H3). split; [done|]. split; [done|].
  intros Hr. destruct (H3 Hr). auto.
Qed.
Lemma lasting_visited (P : string -> Prop) (ms : list string) : lasting (fun s => forall m, m ∈ ms -> P m -> m ∈ csVisited s).
Proof. intros s s' [Hv _] H m Hm HP. by apply Hv, H. Qed.

Lemma followIncludes_finds scanFile' path line :
  reached path -> line ∈ linesOf path -> keywordOf line = "include" ->
  (forall m, reached m -> finds None (scanFile' m) (fun s => readable m -> m ∈ csVisited s)) ->
  finds (Some path) (followIncludes q (Some scanFile') path line)
    (fun s => forall m, m ∈ lineIncludes line -> readable m -> m ∈ csVisited s).
Proof.
  intros Hreach Hline Hk Hscan. cbn [followIncludes].
  assert (Hinc : forall pattern m, pattern ∈ configArguments line -> m ∈ patternFiles pattern -> m ∈ lineIncludes line).
  { intros pattern m Hp Hm. unfold lineIncludes. rewrite bool_decide_true by done. apply elem_of_concat. eauto. }
  eapply finds_weaken.
  - eapply (finds_each None _ (fun pattern s => forall m, m ∈ patternFiles pattern -> readable m -> m ∈ csVisited s));
      [intros; apply lasting_visited|].
    intros pattern Hp. destruct (swGlob (expandIncludePattern q pattern)) as [e|matches] eqn:Hg; [apply finds_refuse|].
    eapply finds_weaken.
    + eapply (finds_each None _ (fun m s => isFile q m = true -> readable m -> m ∈ csVisited s)).
      { intros m s s' [Hv _] H Hf Hr. by apply Hv, H. }
      intros m Hm. destruct (isFile q m) eqn:Hf; [|by apply finds_yield].
      eapply finds_weaken; [apply Hscan|auto]. eapply reached_include; [exact Hreach|].
      apply elem_of_concat. exists line. split; [done|]. eapply Hinc; [exact Hp|]. unfold patternFiles. rewrite Hg.
      by apply list_elem_of_filter.
    + intros s H m Hm. unfold patternFiles in Hm. rewrite Hg in Hm. apply list_elem_of_filter in Hm as [Hf Hin]. by apply H.
  - intros s H m Hm. unfold lineIncludes in Hm. rewrite bool_decide_true in Hm by done.
    apply elem_of_concat in Hm as (pattern & Hp & Hm). by eapply H.
Qed.

Lemma scanLine_finds deeper path line :
  reached path -> line ∈ linesOf path ->
  match deeper with
  | Some scanFile' => forall m, reached m -> finds None (scanFile' m) (fun s => readable m -> m ∈ csVisited s)
  | None => True
  end ->
  finds (Some path) (scanLine q deeper path line)
    (fun s => lineConflicts path line ⊆ csConflicts s /\ forall m, m ∈ lineIncludes line -> readable m -> m ∈ csVisited s).
Proof.
  intros Hreach Hline Hdeep. unfold scanLine. fold (keywordOf line).
  assert (Hno : forall kw, keywordOf line <> kw -> bool_decide (keywordOf line = kw) = false).
  { intros kw Hkw. by apply bool_decide_false. }
  case_bool_decide as Hh; [|case_bool_decide as Hi].
  - intros s Hs Hp. destruct (recordHosts_finds path line Hline Hh s Hs Hp) as (H1 & H2 & H3).
    split; [done|]. split; [done|]. intros Hr. destruct (H3 Hr) as [Hcov Hsub]. split; [done|]. split; [done|].
    unfold lineIncludes. rewrite Hno by (by rewrite Hh). intros m Hm. by apply elem_of_nil in Hm.
  - destruct deeper as [scanFile'|]; [|apply finds_refuse].
    intros s Hs Hp. destruct (followIncludes_finds scanFile' path line Hreach Hline Hi Hdeep s Hs Hp) as (H1 & H2 & H3).
    split; [done|]. split; [done|]. intros Hr. destruct (H3 Hr) as [Hcov Hsub]. split; [done|]. split; [|done].
    unfold lineConflicts. rewrite Hno by (by rewrite Hi). apply list_subseteq_nil.
  - apply finds_yield. intros s _. unfold lineConflicts, lineIncludes. rewrite !Hno by done.
    split; [apply list_subseteq_nil|]. intros m Hm. by apply elem_of_nil in Hm.
Qed.

Lemma scanFile_finds room : forall path, reached path -> finds None (scanFile q room path) (fun s => readable path -> path ∈ csVisited s).
Proof.
  assert (Hbody : forall deeper path, reached path ->
    match deeper with
    | Some scanFile' => forall m, reached m -> finds None (scanFile' m) (fun s => readable m -> m ∈ csVisited s)
    | None => True
    end ->
    finds None (go! visited := read csVisited in
      if bool_decide (path ∈ visited) then yield ()
      else if maxIncludeFiles <=? Z.of_nat (length visited)
      then refuse (Errorf "ssh config include limit of %d files exceeded at %s" [AInt maxIncludeFiles; AStr path])
      else match readConfigLines (cqFiles q) path with
           | inl e => if errorsIs e "fs.ErrNotExist" then yield ()
                      else refuse (Errorf "read ssh config %s: %w" [AStr path; AErr e])
           | inr lines => go! _ := visit path in scanLines q deeper path lines
           end) (fun s => readable path -> path ∈ csVisited s)).
  { intros deeper path Hreach Hdeep s Hs _. unfold bindGo at 1 2 3, read. 
    match goal with |- scanned ?o.1 /\ _ => change (outcome s o (fun s => readable path -> path ∈ csVisited s)) end.
    case_bool_decide as Hin; [by apply outcome_same|].
    destruct (maxIncludeFiles <=? _) eqn:Hlimit; [by apply outcome_refused|].
    apply Z.leb_gt in Hlimit. unfold maxIncludeFiles in Hlimit. destruct (readConfigLines (cqFiles q) path) as [e|lines] eqn:Hread.
    { destruct (errorsIs _ _); [|by apply outcome_refused]. apply outcome_same; [done|]. unfold readable. rewrite Hread.
      by intros [x Hx]. }
    unfold bindGo, visit, update. set (s1 := mkScan _ _).
    assert (Hs1 : scanned s1).
    { destruct Hs. split; cbn; [|rewrite length_app; cbn; lia| |done|].
      - apply NoDup_app. repeat split; [done| |apply NoDup_singleton]. by intros x Hx ->%list_elem_of_singleton.
      - intros f Hf. apply elem_of_app in Hf as [Hf|Hf%list_elem_of_singleton]; [by apply sc_reached0|]. subst f. split; [done|].
        unfold readable. by rewrite Hread.
      - intros c Hc. destruct (sc_sound0 c Hc) as (f & Hf & Hcf). exists f. split; [set_solver|done]. }
    assert (Hlines : linesOf path = scannedLines q (S (length lines)) path lines).
    { unfold linesOf. by rewrite Hread. }
    unfold scanLines. rewrite <- Hlines.
    pose proof (finds_each (Some path) (scanLine q deeper path)
      (fun line s => lineConflicts path line ⊆ csConflicts s /\ forall m, m ∈ lineIncludes line -> readable m -> m ∈ csVisited s)
      (linesOf path)) as Heach.
    destruct (Heach ltac:(intros line t t' Hg [Ha Hb]; split; [destruct Hg; set_solver|by eapply lasting_visited])
                    ltac:(intros line Hl; by apply scanLine_finds) s1 Hs1) as (H1 & H2 & H3).
    { intros p [= <-]. cbn. set_solver. }
    split; [done|]. split.
    { trans s1; [|done]. split; cbn; set_solver. }
    intros Hr. destruct (H3 Hr) as [Hcov HQ]. split.
    - intros f Hf. destruct (Hcov f Hf) as [Hf1|]; [|by right]. cbn in Hf1.
      apply elem_of_app in Hf1 as [|Hf1%list_elem_of_singleton]; [by left|]. subst f. right. split.
      + intros c (line & Hl & Hc)%elem_of_concat. by apply (HQ line Hl).
      + intros m (line & Hl & Hm)%elem_of_concat. by apply (HQ line Hl).
    - intros _. apply H2. cbn. set_solver. }
  induction room as [|room IH]; intros path Hreach.
  - exact (Hbody None path Hreach I).
  - exact (Hbody (Some (scanFile q room)) path Hreach IH).
Qed.
End Conflicts.

(** C36: The search for hosts that another part of the configuration already names,
    when the home directory and the paths of the configuration are known, reads
    every file of the configuration once and at most 64 of them, and when it does
    not fail its answer is exact: a host is reported for a file when that file is reached from
    the two roots by Include lines and one of its Host lines, outside the blocks
    of the workspace that its owner may replace, names the host. *)
Theorem findHostConflicts_exact `{HS : SshWorld} query policy files home roots s r :
  swHome = inr home -> scanRoots query = inr roots ->
  findHostConflicts query policy files = (s, r) ->
  let q := mkQuery (hqHosts query) (hqCanonicalHost query) policy home files in
  NoDup (csVisited s) /\ (length (csVisited s) <= 64)%nat /\ (forall f, f ∈ csVisited s -> reached q roots f) /\
  match r with
  | inr found =>
      NoDup found /\ forall c, c ∈ found <-> exists f, reached q roots f /\ c ∈ fileConflicts q f
  | inl _ => True
  end.
Proof.
  intros Hhome Hroots Hfind q. unfold findHostConflicts, bindGo, orRefuse, orErr in Hfind.
  rewrite Hhome, Hroots in Hfind. cbn [yield] in Hfind. fold q in Hfind.
  assert (H0 : scanned q roots (mkScan [] [])).
  { split; cbn; [constructor|lia| |constructor|]; intros x Hx; by apply elem_of_nil in Hx. }
  destruct (finds_each q roots None (scanFile q maxIncludeDepth) (fun p s => readable q p -> p ∈ csVisited s) roots
    ltac:(intros p t t' [Hv _] Hq Hr; by apply Hv, Hq)
    ltac:(intros p Hp; by apply scanFile_finds, reached_root) _ H0 ltac:(done)) as (H1 & _ & H3).
  destruct (eachGo (scanFile q maxIncludeDepth) roots (mkScan [] [])) as [s1 [f|[]]]; cbn in *; injection Hfind as <- <-.
  - destruct H1. split; [done|]. split; [done|]. split; [|done]. intros f' Hf. by apply sc_reached0.
  - destruct (H3 eq_refl) as [Hcov Hroot]. pose proof H1 as [].
    assert (Hall : forall f, reached q roots f -> readable q f -> f ∈ csVisited s1).
    { intros f Hf. induction Hf as [f Hf|f m Hf IH Hm]; intros Hr; [by apply Hroot|].
      assert (Hrf : readable q f).
      { unfold readable. unfold fileIncludes, linesOf in Hm. destruct (readConfigLines _ f); [|done].
        by apply elem_of_nil in Hm. }
      destruct (Hcov f (IH Hrf)) as [Hn|[_ Hc]]; [by apply elem_of_nil in Hn|]. by apply Hc. }
    split; [done|]. split; [done|]. split; [intros f Hf; by apply sc_reached0|]. split; [done|]. intros c. split.
    + intros Hc. destruct (sc_sound0 _ Hc) as (f & Hf & Hcf). exists f. split; [by apply sc_reached0|done].
    + intros (f & Hf & Hcf). assert (Hrf : readable q f).
      { unfold readable. unfold fileConflicts, linesOf in Hcf. destruct (readConfigLines _ f); [|done].
        by apply elem_of_nil in Hcf. }
      destruct (Hcov f (Hall f Hf Hrf)) as [Hn|[Hc' _]]; [by apply elem_of_nil in Hn|]. by apply Hc'.
Qed.

(** ** On concrete files *)

Module Sample.

(** A system with a home directory and no links; a checksum that is as long as the
    real one. *)
Definition digest (s : string) : string := padDigits 32 (len s) +:+ padDigits 32 0.
Definition world : SshWorld := {|
  swHome := inr "/home/ann";
  swConfigDir := inr "/home/ann/.devsy";
  swHomeVariable := "";
  swExecutable := inr "/usr/bin/devsy";
  swAbs := inr;
  swLstat := fun _ => inr None;
  swGlob := fun pattern => inr [pattern];
  swLockError := fun _ => None;
  swWriteError := fun _ => None;
  swSha256 := digest;
  swLower := fun r => r;
  swFold := fun r => r;
|}.
#[export] Existing Instance world.

Lemma solidText_app s t : solidText (s +:+ t) = solidText s && solidText t.
Proof. induction s as [|c s IH]; [done|]. rewrite string_app_cons. cbn. fold (solidText (s +:+ t)) (solidText s). by rewrite IH, andb_assoc. Qed.
Lemma padDigits_solid k n : solidText (padDigits k n) = true.
Proof.
  revert n. induction k as [|k IH]; intros n; [done|]. cbn [padDigits]. rewrite solidText_app, IH.
  assert (Hd : 0 <= n mod 10 < 10) by (apply Z.mod_pos_bound; lia). revert Hd. generalize (n mod 10). intros d Hd.
  assert (d = 0 \/ d = 1 \/ d = 2 \/ d = 3 \/ d = 4 \/ d = 5 \/ d = 6 \/ d = 7 \/ d = 8 \/ d = 9) as Hc by lia.
  by destruct_or! Hc; subst.
Qed.
#[export] Instance digest_hex : HexDigests.
Proof.
  intros s. change (swSha256 s) with (padDigits 32 (len s) +:+ padDigits 32 0).
  rewrite string_length_app, !padDigits_length. split; [done|].
  by rewrite solidText_app, !padDigits_solid.
Qed.

Lemma writable_spec ls :
  forallb (fun l => oneLine l && (len l <? 1024 * 1024)) ls = true -> Forall (fun l => oneLine l = true /\ fits (1024 * 1024) l) ls.
Proof.
  intros Hl. apply Forall_forall. intros l Hin. rewrite forallb_forall in Hl.
  specialize (Hl l ltac:(by apply list_elem_of_In)). apply andb_true_iff in Hl as [H1 H2%Z.ltb_lt]. by split.
Qed.

Definition ann : Owner := mkOwner "/home/ann/.devsy" "default" "1".
Definition params : SSHConfigParams := {|
  spConfigPath := ""; spIncludePath := ""; spContext := "default"; spWorkspace := "web"; spUser := "Ann"; spWorkdir := "";
  spCommand := ""; spGPGAgent := true; spAgentForwarding := true; spDevsyHome := ""; spProvider := "docker";
  spTunnelPort := 0; spPreferredHost := ""; spResolvedHost := Some "web-app.devsy"; spOwner := ann |}.
Definition config : string := "# my hosts" +:+ nl +:+ "Host github.com" +:+ nl +:+ "  User git" +:+ nl.
Definition path : string := "/home/ann/.ssh/config".
Definition files : SshFiles := {[ path := Regular config ]}.

Example configured :
  (ConfigureSSHConfig params files).1 !! path = Some (Regular (Join
    ["# Devsy Start web.devsy";
     "# Devsy Owner 00000000000000000000000000000062";
     "Host web-app.devsy web.devsy";
     "  ForwardAgent yes"; "  LogLevel error"; "  StrictHostKeyChecking no"; "  UserKnownHostsFile /dev/null";
     "  HostKeyAlgorithms rsa-sha2-256,rsa-sha2-512,ssh-rsa";
     "  ProxyCommand " +:+ quoted "/usr/bin/devsy" +:+
       " workspace ssh --stdio --context default --user Ann web --ssh-gpg-forwarding";
     "  User Ann";
     "# Devsy End web.devsy";
     "# my hosts"; "Host github.com"; "  User git"] nl)).
Proof. vm_compute. reflexivity. Qed.

(** The user comes back in lower case. *)
Example user_lowered :
  GetUser "web" "" "" (ConfigureSSHConfig params files).1 = inr "ann".
Proof. vm_compute. reflexivity. Qed.

(** Another owner is refused, and the file stays as it is. *)
Example foreign_refused :
  let configured := (ConfigureSSHConfig params files).1 in
  let out := RemoveFromConfigForOwner (mkOwner "/home/bob/.devsy" "team" "1") "web" "" "" configured in
  out.1 !! path = configured !! path /\ match out.2 with inl (Failed _) => true | _ => false end = true.
Proof. split; vm_compute; reflexivity. Qed.

(** Without an end marker everything behind the start marker is dropped. *)
Example unclosed_dropped :
  removeFromConfigOwned {[ path := Regular (Join ["# Devsy Start web.devsy"; "Host web.devsy"; "Host github.com"] nl) ]}
    path "web.devsy" None = inr "".
Proof. vm_compute. reflexivity. Qed.

(** The lines keep their carriage return. *)
Example carriage_kept : ScanLines ("a" +:+ String "013" nl +:+ "b") = inr ["a" +:+ String "013" ""; "b"].
Proof. vm_compute. reflexivity. Qed.

(** A configuration as an editor leaves it: a blank line at either end, and
    carriage returns. *)
Definition cr (l : string) : string := l +:+ String "013" "".
Definition edited : list string := [""; cr "# my hosts"; cr "Host github.com"; "  User git"; ""].
Definition editedFiles : SshFiles := {[path := Regular (Join edited nl +:+ nl)]}.
Lemma ConfigureSSHConfig_removed_witness :
  (exists files',
    ConfigureSSHConfig params editedFiles = (files', inr ()) /\
    RemoveFromConfigForOwner ann "web" "" "" files' = (<[path := Regular (Join (trimmed edited) nl)]> editedFiles, inr ())) /\
  trimmed edited = ["# my hosts"; "Host github.com"; "  User git"].
Proof.
  split; [|vm_compute; reflexivity].
  apply (ConfigureSSHConfig_removed params editedFiles path (Join edited nl +:+ nl) edited "/usr/bin/devsy").
  1, 2: discriminate.
  1-5: reflexivity.
  1, 2: vm_compute; reflexivity.
  - repeat (apply List.Forall_cons; [vm_compute; repeat split|]). apply List.Forall_nil.
  - apply writable_spec. vm_compute. reflexivity.
Defined.
(** The same with nothing at the edges. *)
Example lines_come_back :
  let old := ["# my hosts"; "Host github.com"; "  User git"] in trimmed old = old.
Proof. vm_compute. reflexivity. Qed.

(** A name of the workspace in an included file. *)
Definition query : HostConflictQuery := mkConflictQuery "" "" ["web-app.devsy"; "db"] "web.devsy" ann.
Definition included : SshFiles :=
  {[ path := Regular (Join ["Include /etc/ssh/extra"; "Host *"] nl);
     "/etc/ssh/extra" := Regular (Join ["Host DB other"; "Include /home/ann/.ssh/config"] nl) ]}.
Example found_conflict :
  (findHostConflicts query None included).2 = inr [mkConflict "db" "/etc/ssh/extra"].
Proof. vm_compute. reflexivity. Qed.

Lemma findHostConflicts_exact_witness :
  let q := mkQuery (hqHosts query) "web.devsy" None "/home/ann" included in
  let out := findHostConflicts query None included in
  NoDup (csVisited out.1) /\ (length (csVisited out.1) <= 64)%nat /\ (forall f, f ∈ csVisited out.1 -> reached q [path] f) /\
  match out.2 with
  | inr found => NoDup found /\ forall c, c ∈ found <-> exists f, reached q [path] f /\ c ∈ fileConflicts q f
  | inl _ => True
  end.
Proof.
  intros q out. apply (findHostConflicts_exact query None included "/home/ann" [path] out.1 out.2);
    [reflexivity..|]. apply surjective_pairing.
Defined.

End Sample.
