(* ===== verification/EnvStore.v ===== *)
(** Managed environment values (src/pkg/envstore/store.go, batch.go): a file of
    values by context and name, the migration of values an older release kept in
    the catalog of secrets, and the operations on them.  Whatever fails, an
    operation has its effect at one point or none, and migrating loses nothing. *)
From S2P Require Import Prelude GoStd GoText GoConv GoState Json.

Definition EnvFileName : string := "env.yaml".
Definition ErrNotFound : goerr := Sentinel "envstore.ErrNotFound" "environment variable not found".

(** ** Names *)

Definition isLetter (c : ascii) : bool := in_range 65 90 c || in_range 97 122 c || bool_decide (c = "_"%char).
Definition isNameChar (c : ascii) : bool := isLetter c || in_range 48 57 c.
(** [^[A-Za-z_][A-Za-z0-9_]*$] *)
Definition namePattern (name : string) : bool :=
  match name with
  | String c rest => isLetter c && forallb isNameChar (String.list_ascii_of_string rest)
  | EmptyString => false
  end.
Definition ValidateName (name : string) : err :=
  if namePattern name then None
  else Some (Errorf "invalid environment variable name %q: must start with a letter or underscore and contain only letters, digits, and underscores" [AStr (Quote name)]).
Fixpoint validateNames (names : list string) : err :=
  match names with [] => None | name :: rest => andThen (ValidateName name) (validateNames rest) end.

(** ** Data *)

Record EnvValue := mkEnvValue {
  evName : string;
  evContext : string;
  evValue : string;
  evCreated : Z;
  evLastUsed : Z;
}.
(** A context without values and a missing one are told apart only by the text of
    the file. *)
Abbreviation contexts := (gmap string (gmap string EnvValue)).
Record data := mkData { dSchemaVersion : Z; dContexts : contexts }.

Definition valueIn (cs : contexts) (contextName name : string) : option EnvValue :=
  cs !! contextName ≫= fun values => values !! name.
Definition setValue (contextName name : string) (v : EnvValue) (cs : contexts) : contexts :=
  <[contextName := <[name := v]> (default ∅ (cs !! contextName))]> cs.
(** [delete(d.Contexts[c], name)] and the removal of an empty context. *)
Definition deleteValues (contextName : string) (names : list string) (cs : contexts) : contexts :=
  let values := foldl (fun m name => delete name m) (default ∅ (cs !! contextName)) names in
  if bool_decide (values = ∅) then delete contextName cs else <[contextName := values]> cs.

Abbreviation fields := (list (string * json)).

(** The encodings of sigs.k8s.io/yaml. *)
Class EnvYAML := {
  encodeData : data -> option string;
  (** Into a value of version 1 without contexts. *)
  decodeData : string -> option data;
  encodeCatalog : fields -> option string;
  (** [Some None] is a text without a value. *)
  decodeCatalog : string -> option (option fields);
  (** An entry of the catalog, encoded and decoded as a value. *)
  decodeLegacy : json -> option EnvValue;
  (** What a value keeps in the file. *)
  cleanValue : EnvValue -> EnvValue;
}.
Definition yamlError : goerr := Sentinel "yaml.Error" "yaml: unsupported or invalid value".

(** ** The catalog *)

Definition objectOf (v : option json) : fields := match v with Some (JObject fs) => fs | _ => [] end.
Definition isObject (v : json) : bool := match v with JObject _ => true | _ => false end.
Definition isEnvEntry (entry : json) : bool :=
  match field "kind" (objectOf (Some entry)) with Some (JString kind) => bool_decide (kind = "env") | _ => false end.
Definition catalogContexts (catalog : option fields) : fields := objectOf (field "contexts" (default [] catalog)).
Definition hasLegacyEnv (catalog : option fields) : bool :=
  existsb (fun c => existsb (fun e => isEnvEntry e.2) (objectOf (Some c.2))) (catalogContexts catalog).

Definition equalsNumber (x : SpecFloat.spec_float) (z : Z) : bool :=
  match SpecFloat.SFcompare x (toFloat z) with Some Eq => true | _ => false end.
Definition supportedMigrationSchema (catalog : option fields) : bool :=
  match field "schemaVersion" (default [] catalog) with
  | None => true
  | Some (JNumber x) => equalsNumber x 0 || equalsNumber x 1 || equalsNumber x 2
  | Some _ => false
  end.

Section Migration.
Context `{EnvYAML}.

(** The entries that stay, in the contexts that stay; the number of those that
    move. *)
Fixpoint migrateEnvEntries (contextName : string) (entries : fields) (cs : contexts)
    : goerr + (contexts * fields * nat) :=
  match entries with
  | [] => inr (cs, [], O)
  | (name, entry) :: rest =>
      if isEnvEntry entry then
        match decodeLegacy entry with
        | None => inl (Errorf "parse legacy environment entry %s/%s: %w" [AStr contextName; AStr name; AErr yamlError])
        | Some value =>
            let cs' := match valueIn cs contextName name with
                       | Some _ => cs
                       | None => setValue contextName name value cs
                       end in
            match migrateEnvEntries contextName rest cs' with
            | inl e => inl e
            | inr (cs'', kept, removed) => inr (cs'', kept, S removed)
            end
        end
      else match migrateEnvEntries contextName rest cs with
           | inl e => inl e
           | inr (cs', kept, removed) => inr (cs', (name, entry) :: kept, removed)
           end
  end.
Fixpoint migrateEnvContexts (contextFields : fields) (cs : contexts) : goerr + (contexts * fields * nat) :=
  match contextFields with
  | [] => inr (cs, [], O)
  | (contextName, raw) :: rest =>
      match raw with
      | JObject entries =>
          match migrateEnvEntries contextName entries cs with
          | inl e => inl e
          | inr (cs1, kept, removed) =>
              match migrateEnvContexts rest cs1 with
              | inl e => inl e
              | inr (cs2, keptContexts, more) =>
                  let gone := (0 <? Z.of_nat removed) && bool_decide (kept = []) in
                  inr (cs2, if (gone : bool) then keptContexts else (contextName, JObject kept) :: keptContexts,
                       (removed + more)%nat)
              end
          end
      | _ =>
          match migrateEnvContexts rest cs with
          | inl e => inl e
          | inr (cs', keptContexts, more) => inr (cs', (contextName, raw) :: keptContexts, more)
          end
      end
  end.
End Migration.

(** The value of a field replaced where it is. *)
Definition replaceField (name : string) (v : json) (fs : fields) : fields :=
  map (fun f => if decide (f.1 = name) then (name, v) else f) fs.

(** ** The files *)

(** The two files, the system calls that will fail, and the times the clock will
    show.  [None] is a file that is not there. *)
Record EnvFiles := mkEnvFiles {
  efEnv : option string;
  efCatalog : option string;
  efFaults : list bool;
  efTimes : list Z;
}.
Definition withEnv (text : string) (w : EnvFiles) : EnvFiles := mkEnvFiles (Some text) (efCatalog w) (efFaults w) (efTimes w).
Definition withCatalog (text : string) (w : EnvFiles) : EnvFiles := mkEnvFiles (efEnv w) (Some text) (efFaults w) (efTimes w).

Abbreviation EnvGo := (Go EnvFiles).

Definition osFailure (what : string) : goerr := Errorf (what +:+ ": %w") [AErr (Sentinel "os.EIO" "input/output error")].
(** A system call that may fail without a change. *)
Definition attempt (e : goerr) : EnvGo () := fun w =>
  match efFaults w with
  | true :: rest => (mkEnvFiles (efEnv w) (efCatalog w) rest (efTimes w), inl (Failed e))
  | _ :: rest => (mkEnvFiles (efEnv w) (efCatalog w) rest (efTimes w), inr ())
  | [] => (w, inr ())
  end.
Definition envNow : EnvGo Z := fun w =>
  (mkEnvFiles (efEnv w) (efCatalog w) (efFaults w) (List.tl (efTimes w)), inr (default 0 (head (efTimes w)))).

(** Locks, taken in this order; they are released when the operation ends. *)
Definition lockUnavailable (name : string) : goerr :=
  Errorf "lock %s: %w" [AStr name; AErr (Joined [Sentinel "context.DeadlineExceeded" "context deadline exceeded";
                                                  Sentinel "errors.New" "environment store lock unavailable"])].
Fixpoint acquireLocks (names : list string) : EnvGo () :=
  match names with
  | [] => yield ()
  | name :: rest => go! _ := attempt (lockUnavailable name) in acquireLocks rest
  end.

Section Store.
Context `{EnvYAML}.
(** What other processes do to the files while the lock is released. *)
Context (others : EnvFiles -> EnvFiles).

Definition loadMigrationCatalog : EnvGo (option fields) :=
  go! _ := attempt (osFailure "read") in
  go! text := read efCatalog in
  match text with
  | None => yield None
  | Some raw =>
      match decodeCatalog raw with
      | None => yield None
      | Some catalog => yield (if supportedMigrationSchema catalog then catalog else None)
      end
  end.

(** The lock is held from here to the end of an operation. *)
Definition locked : EnvGo (option fields) :=
  go! _ := attempt (osFailure "mkdir") in
  go! _ := acquireLocks [EnvFileName +:+ ".lock"] in
  go! catalog := loadMigrationCatalog in
  if negb (hasLegacyEnv catalog) then yield catalog
  else
    go! _ := update others in
    go! _ := acquireLocks ["secrets.yaml.lock"; EnvFileName +:+ ".lock"] in
    loadMigrationCatalog.

(** [s.write]: the file is replaced as a whole or stays. *)
Definition save (cs : contexts) : EnvGo () :=
  match encodeData (mkData 1 cs) with
  | None => refuse yamlError
  | Some raw => go! _ := attempt (osFailure "replace environment file") in update (withEnv raw)
  end.

Definition saveMigrated (cs : contexts) : EnvGo () := fun w =>
  match save cs w with
  | (w', inl (Failed e)) => (w', inl (Failed (Errorf "migrate environment values: %w" [AErr e])))
  | out => out
  end.
Definition migrate (cs : contexts) (catalog : option fields) : EnvGo contexts :=
  if negb (hasLegacyEnv catalog) then yield cs
  else
    match migrateEnvContexts (catalogContexts catalog) cs with
    | inl e => refuse e
    | inr (cs', kept, removed) =>
        if bool_decide (removed = O) then yield cs'
        else
          go! _ := saveMigrated cs' in
          let catalog' := setField "schemaVersion" (JNumber (toFloat 2))
                            (replaceField "contexts" (JObject kept) (default [] catalog)) in
          match encodeCatalog catalog' with
          | None => refuse yamlError
          | Some text =>
              go! _ := attempt (osFailure "replace environment file") in
              go! _ := update (withCatalog text) in
              yield cs'
          end
    end.

Definition load (catalog : option fields) : EnvGo contexts :=
  go! _ := attempt (osFailure "read") in
  go! text := read efEnv in
  match text with
  | None => migrate ∅ catalog
  | Some raw =>
      match decodeData raw with
      | None => refuse (Errorf "parse environment store: %w" [AErr yamlError])
      | Some d =>
          if negb (dSchemaVersion d =? 1)
          then refuse (Errorf "unsupported environment schema version %d" [AInt (dSchemaVersion d)])
          else migrate (dContexts d) catalog
      end
  end.

Definition checked {A} (e : err) (m : EnvGo A) : EnvGo A := match e with Some e => refuse e | None => m end.
(** What every operation begins with. *)
Definition opened : EnvGo contexts := go! catalog := locked in load catalog.

Definition Set_ (contextName name value : string) : EnvGo () :=
  checked (ValidateName name)
    (go! cs := opened in
     match valueIn cs contextName name with
     | Some entry => save (setValue contextName name (mkEnvValue (evName entry) (evContext entry) value (evCreated entry) (evLastUsed entry)) cs)
     | None => go! created := envNow in save (setValue contextName name (mkEnvValue "" "" value created 0) cs)
     end).
Definition named (contextName name : string) (v : EnvValue) : EnvValue :=
  mkEnvValue name contextName (evValue v) (evCreated v) (evLastUsed v).
Definition Meta (contextName name : string) : EnvGo EnvValue :=
  checked (ValidateName name)
    (go! cs := opened in
     match valueIn cs contextName name with
     | None => refuse ErrNotFound
     | Some value => yield (named contextName name value)
     end).
Definition usedAt (time : Z) (v : EnvValue) : EnvValue := mkEnvValue (evName v) (evContext v) (evValue v) (evCreated v) time.
Definition Get (contextName name : string) : EnvGo string :=
  checked (ValidateName name)
    (go! cs := opened in
     match valueIn cs contextName name with
     | None => refuse ErrNotFound
     | Some value =>
         go! time := envNow in
         go! _ := save (setValue contextName name (usedAt time value) cs) in
         yield (evValue value)
     end).
Definition nameLe (a b : EnvValue) : Prop := String.le (evName a) (evName b).
#[export] Instance nameLe_dec : RelDecision nameLe.
Proof. intros a b. unfold nameLe. apply _. Defined.
Definition List_ (contextName : string) : EnvGo (list EnvValue) :=
  go! cs := opened in
  yield (merge_sort nameLe (map (fun nv => named contextName nv.1 nv.2) (map_to_list (default ∅ (cs !! contextName))))).
Definition Delete (contextName name : string) : EnvGo () :=
  checked (ValidateName name)
    (go! cs := opened in save (deleteValues contextName [name] cs)).

Definition DeleteValues (contextName : string) (names : list string) : EnvGo () :=
  match names with
  | [] => yield ()
  | _ => checked (validateNames names) (go! cs := opened in save (deleteValues contextName names cs))
  end.
Definition RestoreValues (contextName : string) (values : list EnvValue) : EnvGo () :=
  match values with
  | [] => yield ()
  | _ => checked (validateNames (map evName values))
           (go! cs := opened in save (foldl (fun cs v => setValue contextName (evName v) v cs) cs values))
  end.
End Store.

(** ** What the files mean *)

(** JSON as a decoder gives it: texts are valid and keys are distinct. *)
Fixpoint validJson (v : json) : bool :=
  match v with
  | JString s => ValidString s
  | JArray l => forallb validJson l
  | JObject fs => bool_decide (NoDup (map fst fs)) && forallb (fun f => ValidString f.1 && validJson f.2) fs
  | _ => true
  end.
Definition textual (cs : contexts) : Prop :=
  forall c n v, valueIn cs c n = Some v -> ValidString c = true /\ ValidString n = true.
Definition entryAt (catalog : option fields) (contextName name : string) : option json :=
  field name (objectOf (field contextName (catalogContexts catalog))).

(** What sigs.k8s.io/yaml documents: what is encoded is decoded again, with values
    cleaned; what was decoded is clean already and has valid texts. *)
Class EnvYAMLLaws `{EnvYAML} := {
  data_roundtrip cs raw : textual cs -> encodeData (mkData 1 cs) = Some raw ->
    exists d, decodeData raw = Some d /\ dSchemaVersion d = 1 /\
      forall c n, valueIn (dContexts d) c n = cleanValue <$> valueIn cs c n;
  data_decoded raw d : decodeData raw = Some d ->
    textual (dContexts d) /\ forall c n v, valueIn (dContexts d) c n = Some v -> cleanValue v = v;
  legacy_decoded entry v : decodeLegacy entry = Some v -> cleanValue v = v;
  clean_value v : evValue (cleanValue v) = coerceUTF8 (evValue v) /\ evCreated (cleanValue v) = evCreated v /\
    evLastUsed (cleanValue v) = evLastUsed v;
  catalog_roundtrip fs text : validJson (JObject fs) = true -> encodeCatalog fs = Some text ->
    exists fs', decodeCatalog text = Some (Some fs') /\ field "schemaVersion" fs' = field "schemaVersion" fs /\
      forall c n, entryAt (Some fs') c n = entryAt (Some fs) c n;
  catalog_decoded text fs : decodeCatalog text = Some (Some fs) -> validJson (JObject fs) = true;
}.

Section View.
Context `{EnvYAML}.

Definition storedContexts (w : EnvFiles) : option contexts :=
  match efEnv w with
  | None => Some ∅
  | Some raw => match decodeData raw with
                | Some d => if dSchemaVersion d =? 1 then Some (dContexts d) else None
                | None => None
                end
  end.
Definition storedCatalog (w : EnvFiles) : option fields :=
  match efCatalog w with
  | None => None
  | Some raw => match decodeCatalog raw with
                | Some catalog => if supportedMigrationSchema catalog then catalog else None
                | None => None
                end
  end.
Definition legacyOf (entry : option json) : option EnvValue :=
  match entry with Some e => if isEnvEntry e then decodeLegacy e else None | None => None end.
Definition overlay (cs : contexts) (catalog : option fields) (c n : string) : option EnvValue :=
  match valueIn cs c n with Some v => Some v | None => legacyOf (entryAt catalog c n) end.
(** The value of a name: the one in the file of values, or else the one the
    catalog still has.  [None] when the file of values cannot be read. *)
Definition valueAt (w : EnvFiles) (c n : string) : option (option EnvValue) :=
  (fun cs => overlay cs (storedCatalog w) c n) <$> storedContexts w.
End View.

(** ** Contexts of values *)

Lemma valueIn_setValue c0 n0 v cs c n :
  valueIn (setValue c0 n0 v cs) c n = if decide (c = c0 /\ n = n0) then Some v else valueIn cs c n.
Proof.
  unfold valueIn, setValue. destruct (decide (c = c0)) as [->|Hc].
  - rewrite lookup_insert_eq. cbn. destruct (decide (n = n0)) as [->|Hn].
    + rewrite lookup_insert_eq. by rewrite decide_True.
    + rewrite lookup_insert_ne by done. rewrite decide_False by tauto. by destruct (cs !! c0).
  - rewrite lookup_insert_ne by done. by rewrite decide_False by tauto.
Qed.
Lemma lookup_deletes names : forall (m : gmap string EnvValue) n,
  foldl (fun m name => delete name m) m names !! n = if decide (n ∈ names) then None else m !! n.
Proof.
  induction names as [|name names IH]; intros m n; cbn [foldl].
  - rewrite decide_False; [done|]. apply not_elem_of_nil.
  - rewrite IH. destruct (decide (n = name)) as [->|Hne].
    + rewrite lookup_delete_eq. rewrite (decide_True _ _ (list_elem_of_here name names)). by case_decide.
    + rewrite lookup_delete_ne by done. destruct (decide (n ∈ names)) as [Hin|Hin].
      * rewrite decide_True; [done|by right].
      * rewrite decide_False; [done|]. rewrite elem_of_cons. tauto.
Qed.
Lemma valueIn_deleteValues c0 names cs c n :
  valueIn (deleteValues c0 names cs) c n = if decide (c = c0 /\ n ∈ names) then None else valueIn cs c n.
Proof.
  assert (Hl : default ∅ (cs !! c0) !! n = valueIn cs c0 n).
  { unfold valueIn. destruct (cs !! c0); [done|]. apply lookup_empty. }
  pose proof (lookup_deletes names (default ∅ (cs !! c0)) n) as Hd. rewrite Hl in Hd.
  unfold deleteValues. set (values := foldl _ _ names) in *. destruct (decide (c = c0)) as [->|Hc].
  - assert (Hv : valueIn (if bool_decide (values = ∅) then delete c0 cs else <[c0 := values]> cs) c0 n = values !! n).
    { unfold valueIn. case_bool_decide as He.
      - rewrite lookup_delete_eq. rewrite He. by rewrite lookup_empty.
      - by rewrite lookup_insert_eq. }
    rewrite Hv, Hd. destruct (decide (n ∈ names)).
    + by rewrite decide_True.
    + by rewrite decide_False by tauto.
  - rewrite decide_False by tauto. unfold valueIn. case_bool_decide.
    + by rewrite lookup_delete_ne.
    + by rewrite lookup_insert_ne.
Qed.

(** ** Migration *)

Lemma field_none name fs : field name fs = None <-> name ∉ map fst fs.
Proof.
  induction fs as [|[k v] fs IH]; cbn; [split; [intros _; apply not_elem_of_nil|done]|].
  rewrite not_elem_of_cons. case_decide; [naive_solver|]. rewrite IH. naive_solver.
Qed.
Lemma field_filter (P : string * json -> Prop) `{!forall x, Decision (P x)} fs name :
  NoDup (map fst fs) ->
  field name (base.filter P fs) = match field name fs with Some v => if decide (P (name, v)) then Some v else None | None => None end.
Proof.
  induction fs as [|[k v] fs IH]; [done|]. cbn [map fst]. intros [Hk Hnd]%NoDup_cons. rewrite filter_cons. cbn [field].
  destruct (decide (k = name)) as [->|Hne].
  - case_decide as HP; cbn [field]; [by rewrite decide_True|]. rewrite IH by done.
    by rewrite (proj2 (field_none name fs)).
  - case_decide; cbn [field]; [rewrite decide_False by done|]; by apply IH.
Qed.

Section Migrating.
Context `{EnvYAMLLaws}.

Lemma legacyOf_entry name entry rest n :
  legacyOf (field n ((name, entry) :: rest)) =
    if decide (name = n) then legacyOf (Some entry) else legacyOf (field n rest).
Proof. cbn [field]. by case_decide. Qed.

Lemma migrateEnvEntries_spec c0 entries : forall cs cs' keep removed,
  migrateEnvEntries c0 entries cs = inr (cs', keep, removed) -> NoDup (map fst entries) ->
  (forall c n, valueIn cs' c n = match valueIn cs c n with
                                 | Some v => Some v
                                 | None => if decide (c = c0) then legacyOf (field n entries) else None
                                 end) /\
  keep = base.filter (fun e : string * json => isEnvEntry e.2 = false) entries /\
  (existsb (fun e : string * json => isEnvEntry e.2) entries = negb (bool_decide (removed = O))).
Proof.
  induction entries as [|[name entry] rest IH]; intros cs cs' keep removed; cbn [migrateEnvEntries map fst].
  - intros [= <- <- <-] _. split; [|done]. intros c n. cbn. destruct (valueIn cs c n); [done|]. by case_decide.
  - intros Hm [Hfresh Hnd]%NoDup_cons. pose proof (proj2 (field_none name rest) Hfresh) as Hno.
    rewrite filter_cons. cbn [existsb snd]. destruct (isEnvEntry entry) eqn:Henv.
    + destruct (decodeLegacy entry) as [v|] eqn:Hdec; [|done].
      set (cs1 := match valueIn cs c0 name with Some _ => cs | None => _ end) in *.
      destruct (migrateEnvEntries c0 rest cs1) as [e|[[cs2 keep2] removed2]] eqn:Hrest; [done|]. injection Hm as <- <- <-.
      destruct (IH _ _ _ _ Hrest Hnd) as (Hval & -> & _). split; [|by rewrite decide_False by done].
      assert (Hcs1 : forall c n, valueIn cs1 c n = match valueIn cs c n with
                                                  | Some v => Some v
                                                  | None => if decide (c = c0 /\ n = name) then Some v else None
                                                  end).
      { intros c n. unfold cs1. destruct (valueIn cs c0 name) eqn:Hold.
        - destruct (valueIn cs c n) eqn:Hv; [done|]. rewrite decide_False; [done|]. intros [-> ->]. congruence.
        - rewrite valueIn_setValue. case_decide as Hc; [destruct Hc as [-> ->]; by rewrite Hold|]. by destruct (valueIn cs c n). }
      intros c n. rewrite Hval, Hcs1. destruct (valueIn cs c n); [done|]. rewrite legacyOf_entry.
      destruct (decide (c = c0)) as [->|Hc].
      * destruct (decide (name = n)) as [->|Hn].
        -- rewrite decide_True by done. cbn [legacyOf]. by rewrite Henv, Hdec.
        -- rewrite decide_False by naive_solver. done.
      * by rewrite decide_False by tauto.
    + destruct (migrateEnvEntries c0 rest cs) as [e|[[cs2 keep2] removed2]] eqn:Hrest; [done|]. injection Hm as <- <- <-.
      destruct (IH _ _ _ _ Hrest Hnd) as (Hval & -> & Hcount). split; [|by rewrite decide_True by done].
      intros c n. rewrite Hval. destruct (valueIn cs c n); [done|]. rewrite legacyOf_entry.
      destruct (decide (name = n)) as [->|Hn]; [|done]. rewrite Hno. cbn [legacyOf]. rewrite Henv. by case_decide.
Qed.

Definition contextEntries (cfs : fields) (c : string) : fields := objectOf (field c cfs).
Definition distinctKeys (cfs : fields) : Prop :=
  NoDup (map fst cfs) /\ forall c raw, (c, raw) ∈ cfs -> NoDup (map fst (objectOf (Some raw))).

Lemma migrateEnvContexts_spec cfs : forall cs cs' keep removed,
  migrateEnvContexts cfs cs = inr (cs', keep, removed) -> distinctKeys cfs ->
  (forall c n, valueIn cs' c n = match valueIn cs c n with
                                 | Some v => Some v
                                 | None => legacyOf (field n (contextEntries cfs c))
                                 end) /\
  (forall c, contextEntries keep c = base.filter (fun e : string * json => isEnvEntry e.2 = false) (contextEntries cfs c)) /\
  (existsb (fun c => existsb (fun e : string * json => isEnvEntry e.2) (objectOf (Some c.2))) cfs = negb (bool_decide (removed = O))).
Proof.
  induction cfs as [|[c0 raw] rest IH]; intros cs cs' keep removed; cbn [migrateEnvContexts].
  { intros [= <- <- <-] _. unfold contextEntries. cbn. split; [|done]. intros c n. by destruct (valueIn cs c n). }
  intros Hm [Hnd Hent]. cbn [map fst] in Hnd. apply NoDup_cons in Hnd as [Hfresh Hnd].
  assert (Hrestd : distinctKeys rest) by (split; [done|]; intros c r Hin; apply (Hent c r); by right).
  assert (Hno : contextEntries rest c0 = []).
  { unfold contextEntries. by rewrite (proj2 (field_none c0 rest) Hfresh). }
  assert (Hhead : contextEntries ((c0, raw) :: rest) c0 = objectOf (Some raw)).
  { unfold contextEntries. cbn [field]. by rewrite decide_True. }
  assert (Htail : forall c, c <> c0 -> contextEntries ((c0, raw) :: rest) c = contextEntries rest c).
  { intros c Hc. unfold contextEntries. cbn [field]. by rewrite decide_False. }
  assert (Hkeep : forall v keep0 c, contextEntries ((c0, v) :: keep0) c =
    if decide (c0 = c) then objectOf (Some v) else contextEntries keep0 c).
  { intros v keep0 c. unfold contextEntries. cbn [field]. by case_decide. }
  assert (Hnever : isObject raw = false -> objectOf (Some raw) = []) by by destruct raw.
  cbn [existsb snd].
  destruct (isObject raw) eqn:Hobj.
  - destruct raw as [| | | | |entries]; try done.
    destruct (migrateEnvEntries c0 entries cs) as [e|[[cs1 kept] rem1]] eqn:He; [done|].
    destruct (migrateEnvContexts rest cs1) as [e|[[cs2 keptC] more]] eqn:Hc; [done|]. injection Hm as <- <- <-.
    assert (Hndent : NoDup (map fst entries)) by (apply (Hent c0 (JObject entries)); by left).
    destruct (migrateEnvEntries_spec _ _ _ _ _ _ He Hndent) as (Hv1 & -> & Hn1).
    destruct (IH _ _ _ _ Hc Hrestd) as (Hv2 & Hk2 & Hn2). split; [|split].
    + intros c n. rewrite Hv2, Hv1. destruct (valueIn cs c n); [done|]. destruct (decide (c = c0)) as [->|Hcne].
      * rewrite Hno, Hhead. cbn [objectOf field legacyOf]. by destruct (legacyOf (field n entries)).
      * by rewrite Htail.
    + intros c. destruct (decide (c0 = c)) as [<-|Hcne].
      * rewrite Hhead. cbn [objectOf]. case_match eqn:Hgone.
        -- apply andb_true_iff in Hgone as [_ Hnil%bool_decide_eq_true]. rewrite Hk2, Hno, Hnil. done.
        -- rewrite Hkeep, decide_True by done. done.
      * rewrite Htail by done. case_match; [by rewrite Hk2|]. rewrite Hkeep, decide_False by done. by rewrite Hk2.
    + change (objectOf (Some (JObject entries))) with entries. rewrite Hn1, Hn2. destruct rem1; cbn; by destruct more.
  - assert (Hm' : match migrateEnvContexts rest cs with inl e => inl e | inr (cs'0, keptContexts, more) => inr (cs'0, (c0, raw) :: keptContexts, more) end
      = inr (cs', keep, removed)) by by destruct raw.
    clear Hm. destruct (migrateEnvContexts rest cs) as [e|[[cs2 keptC] more]] eqn:Hc; [done|]. injection Hm' as <- <- <-.
    destruct (IH _ _ _ _ Hc Hrestd) as (Hv2 & Hk2 & Hn2). rewrite Hnever by done. split; [|split].
    + intros c n. rewrite Hv2. destruct (valueIn cs c n); [done|]. destruct (decide (c = c0)) as [->|Hcne]; [|by rewrite Htail].
      by rewrite Hno, Hhead, Hnever.
    + intros c. rewrite Hkeep. destruct (decide (c0 = c)) as [<-|Hcne]; [by rewrite Hhead, Hnever|]. by rewrite Htail by done.
    + by rewrite Hn2.
Qed.

Definition validFields (fs : fields) : Prop :=
  NoDup (map fst fs) /\ Forall (fun f : string * json => ValidString f.1 = true /\ validJson f.2 = true) fs.
Lemma validJson_fields fs : validJson (JObject fs) = true <-> validFields fs.
Proof.
  cbn [validJson]. rewrite andb_true_iff, bool_decide_eq_true. unfold validFields.
  assert (Hf : forallb (fun f : string * json => ValidString f.1 && validJson f.2) fs = true <->
    Forall (fun f : string * json => ValidString f.1 = true /\ validJson f.2 = true) fs); [|tauto].
  rewrite forallb_forall, Forall_forall. split; intros Hx f Hin.
  - apply andb_true_iff, Hx. by apply list_elem_of_In.
  - apply andb_true_iff, Hx. by apply list_elem_of_In.
Qed.
Lemma validFields_filter (P : string * json -> Prop) `{!forall x, Decision (P x)} fs :
  validFields fs -> validFields (base.filter P fs).
Proof.
  intros [Hnd Hf]. split.
  - eapply sublist_NoDup; [exact Hnd|]. clear -Hnd. induction fs as [|f fs IH]; [constructor|]. rewrite filter_cons.
    cbn [map] in Hnd. apply NoDup_cons in Hnd as [_ Hnd]. case_decide; cbn [map]; constructor; by apply IH.
  - rewrite Forall_forall in Hf |- *. intros f [_ Hin]%list_elem_of_filter. by apply Hf.
Qed.
Lemma validFields_object fs c : validFields fs -> validFields (objectOf (field c fs)).
Proof.
  intros [_ Hf]. destruct (field c fs) as [v|] eqn:Hv; [|by repeat constructor].
  assert (Hin : (c, v) ∈ fs).
  { clear Hf. induction fs as [|[k x] fs IH]; [done|]. cbn in Hv. case_decide as Hk; [|right; by apply IH].
    injection Hv as ->. subst k. by left. }
  rewrite Forall_forall in Hf. destruct (Hf _ Hin) as [_ Hval]. cbn [snd] in Hval.
  destruct v; try by repeat constructor. by apply validJson_fields.
Qed.
Lemma validFields_distinct cfs : validFields cfs -> distinctKeys cfs.
Proof.
  intros [Hnd Hf]. split; [done|]. intros c raw Hin. rewrite Forall_forall in Hf. destruct (Hf _ Hin) as [_ Hval].
  cbn [snd] in Hval. destruct raw; try constructor. by apply validJson_fields in Hval as [? _].
Qed.
Lemma migrateEnvContexts_valid cfs : forall cs cs' keep removed,
  migrateEnvContexts cfs cs = inr (cs', keep, removed) -> validFields cfs ->
  validFields keep /\ map fst keep `sublist_of` map fst cfs.
Proof.
  induction cfs as [|[c0 raw] rest IH]; intros cs cs' keep removed; cbn [migrateEnvContexts].
  { intros [= <- <- <-] _. by repeat constructor. }
  intros Hm [Hnd Hf]. cbn [map fst] in Hnd. apply NoDup_cons in Hnd as [Hfresh Hnd]. inversion Hf as [|? ? [Hs Hv] Hfr]; subst.
  assert (Hcons : forall v keepC, validFields keepC -> map fst keepC `sublist_of` map fst rest -> validJson v = true ->
    validFields ((c0, v) :: keepC) /\ c0 :: map fst keepC `sublist_of` c0 :: map fst rest).
  { intros v keepC [Hnd' Hf'] Hsub Hval. split; [split; [|by constructor]|by constructor]. cbn [map fst]. constructor; [|done].
    intros Hin. apply Hfresh. eapply elem_of_submseteq; [exact Hin|by apply sublist_submseteq]. }
  destruct raw as [| | | | |entries].
  6: { destruct (migrateEnvEntries c0 entries cs) as [e|[[cs1 kept] rem1]] eqn:He; [done|].
       destruct (migrateEnvContexts rest cs1) as [e|[[cs2 keptC] more]] eqn:Hc; [done|]. injection Hm as <- <- <-.
       destruct (IH _ _ _ _ Hc (conj Hnd Hfr)) as [Hk Hsub]. cbn [snd] in Hv. apply validJson_fields in Hv.
       destruct (migrateEnvEntries_spec _ _ _ _ _ _ He (proj1 Hv)) as (_ & -> & _).
       case_match; [split; [done|by constructor]|]. apply Hcons; [done|done|]. by apply validJson_fields, validFields_filter. }
  all: destruct (migrateEnvContexts rest cs) as [e|[[cs2 keptC] more]] eqn:Hc; [done|]; injection Hm as <- <- <-;
       destruct (IH _ _ _ _ Hc (conj Hnd Hfr)) as [Hk Hsub]; by apply Hcons.
Qed.

Lemma replaceField_keys name v fs : map fst (replaceField name v fs) = map fst fs.
Proof. unfold replaceField. induction fs as [|[k x] fs IH]; [done|]. cbn. case_decide; cbn; [subst|]; by rewrite IH. Qed.
Lemma field_replaceField name v fs k :
  field k (replaceField name v fs) = if decide (k = name) then (fun _ => v) <$> field name fs else field k fs.
Proof.
  unfold replaceField. induction fs as [|[k' x] fs IH]; [cbn; by case_decide|]. cbn [map field fst].
  destruct (decide (k' = name)) as [->|Hk']; cbn [field]; destruct (decide (k = name)) as [->|Hk].
  - by rewrite decide_True.
  - by rewrite !decide_False by done.
  - by rewrite decide_False by done.
  - case_decide; [done|]. done.
Qed.

(** The catalog that a migration writes. *)
Definition migratedCatalog (kept fs : fields) : fields :=
  setField "schemaVersion" (JNumber (toFloat 2)) (replaceField "contexts" (JObject kept) fs).
Lemma migratedCatalog_valid kept fs : validFields kept -> validFields fs -> validFields (migratedCatalog kept fs).
Proof.
  intros Hk [Hnd Hf]. unfold migratedCatalog, setField.
  assert (Hr : validFields (replaceField "contexts" (JObject kept) fs)).
  { split; [by rewrite replaceField_keys|]. unfold replaceField. rewrite Forall_map. eapply Forall_impl; [exact Hf|].
    intros [k x] [H1 H2]. cbn [fst]. case_decide; [|done]. split; [by vm_compute|]. by apply validJson_fields. }
  apply (validFields_filter (fun f : string * json => f.1 <> "schemaVersion")) in Hr as [Hnd' Hf']. split.
  - rewrite map_app. apply NoDup_app. split_and!; [done| |by apply NoDup_singleton].
    intros x Hx ->%list_elem_of_singleton. apply list_elem_of_fmap in Hx as ([k v] & Heq & Hin).
    apply list_elem_of_filter in Hin as [Hne _]. cbn in *. congruence.
  - apply Forall_app; split; [done|]. constructor; [|constructor]. by vm_compute.
Qed.
Lemma migratedCatalog_entries kept fs c n :
  is_Some (field "contexts" fs) -> entryAt (Some (migratedCatalog kept fs)) c n = field n (contextEntries kept c).
Proof.
  intros [v Hv]. unfold entryAt, catalogContexts, migratedCatalog. change (default [] (Some ?x)) with x. rewrite field_setField, decide_False by done.
  rewrite field_replaceField, decide_True by done. by rewrite Hv.
Qed.
Lemma hasLegacyEnv_false catalog c n : hasLegacyEnv catalog = false -> legacyOf (entryAt catalog c n) = None.
Proof.
  unfold hasLegacyEnv, entryAt. intros Hno. destruct (field n _) as [e|] eqn:He; [|done]. cbn. destruct (isEnvEntry e) eqn:Henv; [|done].
  exfalso. apply not_true_iff_false in Hno. apply Hno. clear Hno.
  assert (Hin : forall k v fs, field k fs = Some v -> (k, v) ∈ fs).
  { intros k v fs. induction fs as [|[k' x] fs IH]; [done|]. cbn. case_decide; [|right; auto]. intros [= ->]. subst. by left. }
  destruct (field c (catalogContexts catalog)) as [raw|] eqn:Hraw; [|done]. destruct raw as [| | | | |entries]; try done.
  apply existsb_exists. exists (c, JObject entries). split; [by apply list_elem_of_In, Hin|].
  apply existsb_exists. exists (n, e). split; [by apply list_elem_of_In, Hin|done].
Qed.

(** ** What the operations do *)

Definition sameFiles (w w' : EnvFiles) : Prop := efEnv w' = efEnv w /\ efCatalog w' = efCatalog w.
#[export] Instance sameFiles_preorder : PreOrder sameFiles.
Proof. split; [done|]. intros x y z [] []. split; congruence. Qed.
Lemma attempt_runs what w Q :
  (forall w' f, sameFiles w w' -> Q w' (inl f)) -> (forall w', sameFiles w w' -> Q w' (inr ())) -> runs (attempt what) w Q.
Proof. intros H1 H2. unfold runs, attempt. destruct (efFaults w) as [|[] ?]; [by apply H2|by apply H1|by apply H2]. Qed.
Lemma acquireLocks_runs names : forall w (Q : EnvFiles -> failure + () -> Prop),
  (forall w' f, sameFiles w w' -> Q w' (inl f)) -> (forall w', sameFiles w w' -> Q w' (inr ())) -> runs (acquireLocks names) w Q.
Proof.
  induction names as [|name names IH]; intros w Q H1 H2; cbn [acquireLocks]; [by apply H2|].
  apply runs_bind, attempt_runs; [exact H1|]. intros w1 Hs.
  apply IH; intros; [apply H1|apply H2]; by trans w1.
Qed.
Lemma sameFiles_value w w' c n : sameFiles w w' -> valueAt w' c n = valueAt w c n.
Proof. intros [H1 H2]. unfold valueAt, storedContexts, storedCatalog. by rewrite H1, H2. Qed.
Lemma sameFiles_catalog w w' : sameFiles w w' -> storedCatalog w' = storedCatalog w.
Proof. intros [_ H2]. unfold storedCatalog. by rewrite H2. Qed.
Lemma sameFiles_contexts w w' : sameFiles w w' -> storedContexts w' = storedContexts w.
Proof. intros [H1 _]. unfold storedContexts. by rewrite H1. Qed.

Lemma storedCatalog_valid w fs : storedCatalog w = Some fs -> validFields fs.
Proof.
  unfold storedCatalog. destruct (efCatalog w) as [raw|]; [|done]. destruct (decodeCatalog raw) as [catalog|] eqn:Hd; [|done].
  case_match; [|done]. intros ->. apply validJson_fields. by eapply catalog_decoded.
Qed.
Lemma storedContexts_good w cs :
  storedContexts w = Some cs -> textual cs /\ forall c n v, valueIn cs c n = Some v -> cleanValue v = v.
Proof.
  unfold storedContexts. destruct (efEnv w) as [raw|].
  - destruct (decodeData raw) as [d|] eqn:Hd; [|done]. case_match; [|done]. intros [= <-]. by eapply data_decoded.
  - intros [= <-]. unfold textual, valueIn. split; intros c n v; by rewrite lookup_empty.
Qed.

Lemma loadMigrationCatalog_runs w Q :
  (forall w' f, sameFiles w w' -> Q w' (inl f)) -> (forall w', sameFiles w w' -> Q w' (inr (storedCatalog w))) ->
  runs loadMigrationCatalog w Q.
Proof.
  intros He Hok. apply runs_bind, attempt_runs; [exact He|]. intros w1 Hs. apply runs_bind. unfold runs at 1, read. cbn [fst snd].
  pose proof (sameFiles_catalog _ _ Hs) as Hcat. specialize (Hok w1 Hs). rewrite <- Hcat in Hok.
  unfold storedCatalog in Hok. destruct (efCatalog w1) as [raw|]; [|done]. destruct (decodeCatalog raw); done.
Qed.

(** Where an operation has its effect. *)
Definition startOf (others : EnvFiles -> EnvFiles) (w p : EnvFiles) : Prop :=
  p = w \/ exists w1, sameFiles w w1 /\ p = others w1.

Lemma locked_runs others w Q :
  (forall p w' f, startOf others w p -> sameFiles p w' -> Q w' (inl f)) ->
  (forall p w', startOf others w p -> sameFiles p w' -> Q w' (inr (storedCatalog p))) ->
  runs (locked others) w Q.
Proof.
  intros He Hok. assert (Hw : startOf others w w) by by left. unfold locked.
  apply runs_bind, attempt_runs; [by intros; eapply He|]. intros w1 H1.
  apply runs_bind, acquireLocks_runs; [intros w2 f H2; eapply (He w); [done|by trans w1]|]. intros w2 H2.
  assert (H02 : sameFiles w w2) by by trans w1.
  apply runs_bind, loadMigrationCatalog_runs; [intros w3 f H3; eapply (He w); [done|by trans w2]|]. intros w3 H3.
  assert (H03 : sameFiles w w3) by by trans w2. rewrite (sameFiles_catalog _ _ H02).
  destruct (negb (hasLegacyEnv (storedCatalog w))); [by apply (Hok w)|].
  apply runs_bind. unfold runs at 1, update. cbn [fst snd]. set (p := others w3).
  assert (Hp : startOf others w p) by (right; by exists w3).
  apply runs_bind, acquireLocks_runs; [by intros; eapply He|]. intros w5 Hp5. apply loadMigrationCatalog_runs.
  - intros w6 f H6. eapply (He p); [done|by trans w5].
  - intros w6 H6. rewrite (sameFiles_catalog _ _ Hp5). apply (Hok p); [done|by trans w5].
Qed.

Definition keepsSecrets (p w : EnvFiles) : Prop := forall c n e,
  entryAt (storedCatalog p) c n = Some e -> isEnvEntry e = false -> entryAt (storedCatalog w) c n = Some e.
Lemma keepsSecrets_same p w : sameFiles p w -> keepsSecrets p w.
Proof. intros Hs c n e. by rewrite (sameFiles_catalog _ _ Hs). Qed.

Lemma save_runs cs w :
  textual cs ->
  runs (save cs) w (fun w' r => efCatalog w' = efCatalog w /\
    match r with
    | inl _ => sameFiles w w'
    | inr _ => exists cs', storedContexts w' = Some cs' /\ forall c n, valueIn cs' c n = cleanValue <$> valueIn cs c n
    end).
Proof.
  intros Ht. unfold save. destruct (encodeData (mkData 1 cs)) as [raw|] eqn:He; [|by split].
  apply runs_bind, attempt_runs; intros w1.
  - intros f Hs. split; [apply Hs|done].
  - intros Hs. unfold runs, update. cbn [fst snd]. split; [apply Hs|].
    destruct (data_roundtrip _ _ Ht He) as (d & Hd & Hv & Hval). exists (dContexts d). split; [|done].
    unfold storedContexts. cbn [withEnv efEnv]. rewrite Hd, Hv. done.
Qed.

(** What is known of the values an operation works on. *)
Definition cleanContexts (cs : contexts) : Prop :=
  textual cs /\ forall c n v, valueIn cs c n = Some v -> cleanValue v = v.
Lemma migrated_clean cs fs cs' kept removed :
  cleanContexts cs -> validFields fs -> migrateEnvContexts (catalogContexts (Some fs)) cs = inr (cs', kept, removed) ->
  cleanContexts cs'.
Proof.
  intros [Ht Hc] Hf Hm. pose proof (validFields_object _ "contexts" Hf) as Hcf. change (objectOf _) with (catalogContexts (Some fs)) in Hcf.
  destruct (migrateEnvContexts_spec _ _ _ _ _ Hm (validFields_distinct _ Hcf)) as (Hval & _).
  assert (Hkey : forall k v (l : fields), field k l = Some v -> validFields l -> ValidString k = true).
  { intros k v l Hk [_ Hl]. rewrite Forall_forall in Hl. assert (Hin : (k, v) ∈ l).
    { clear Hl. induction l as [|[k' x] l IH]; [done|]. cbn in Hk. case_decide; [|right; auto].
      injection Hk as ->. subst. by left. }
    by destruct (Hl _ Hin). }
  split; intros c n v; rewrite Hval; destruct (valueIn cs c n) as [v0|] eqn:Hv.
  - intros _. by apply (Ht _ _ _ Hv).
  - unfold contextEntries. intros Hleg. destruct (field n _) as [e|] eqn:He; [|done].
    destruct (field c (catalogContexts (Some fs))) as [raw|] eqn:Hraw; [|done]. split; [by eapply Hkey|].
    eapply Hkey; [exact He|]. rewrite <- Hraw. by apply validFields_object.
  - intros [= <-]. by eapply Hc.
  - intros Hleg. unfold legacyOf in Hleg. destruct (field n _); [|done]. destruct (isEnvEntry _); [|done]. by eapply legacy_decoded.
Qed.

Definition migratedFrom (w w' : EnvFiles) (cs : contexts) : Prop :=
  cleanContexts cs /\ (forall c n, valueAt w c n = Some (valueIn cs c n)) /\ (forall c n, valueAt w' c n = Some (valueIn cs c n)) /\
  forall c n, legacyOf (entryAt (storedCatalog w') c n) = None.
Lemma saveMigrated_runs cs w Q :
  runs (save cs) w (fun w' r => match r with inl _ => forall f, Q w' (inl f) | inr x => Q w' (inr x) end) -> runs (saveMigrated cs) w Q.
Proof. unfold runs, saveMigrated. destruct (save cs w) as [w' [[e|]|x]]; cbn; auto. Qed.

(** What the catalog has once it is written. *)
Lemma catalog_written cs fs cs1 kept removed text w :
  validFields fs -> is_Some (field "contexts" fs) -> migrateEnvContexts (catalogContexts (Some fs)) cs = inr (cs1, kept, removed) ->
  encodeCatalog (migratedCatalog kept fs) = Some text ->
  exists fs', storedCatalog (withCatalog text w) = Some fs' /\ forall c n,
    entryAt (Some fs') c n = match entryAt (Some fs) c n with Some e => if isEnvEntry e then None else Some e | None => None end.
Proof.
  intros Hvalid Hctx Hm Henc.
  pose proof (validFields_object _ "contexts" Hvalid) as Hcf. change (objectOf _) with (catalogContexts (Some fs)) in Hcf.
  destruct (migrateEnvContexts_spec _ _ _ _ _ Hm (validFields_distinct _ Hcf)) as (_ & Hk1 & _).
  destruct (migrateEnvContexts_valid _ _ _ _ _ Hm Hcf) as [Hkv _].
  destruct (catalog_roundtrip _ _ (proj2 (validJson_fields _) (migratedCatalog_valid _ _ Hkv Hvalid)) Henc) as (fs' & Hdec & Hschema & Hent).
  exists fs'. split.
  - unfold storedCatalog. cbn [withCatalog efCatalog]. rewrite Hdec. unfold supportedMigrationSchema. change (default [] (Some fs')) with fs'.
    rewrite Hschema. unfold migratedCatalog. rewrite field_setField, decide_True by done. by vm_compute.
  - intros c n. rewrite Hent, migratedCatalog_entries by done. rewrite Hk1.
    rewrite field_filter by (apply (validFields_object _ c) in Hcf; apply Hcf). cbn [snd]. unfold entryAt, contextEntries.
    destruct (field n _) as [e|]; [|done]. by destruct (isEnvEntry e).
Qed.
Lemma migrate_runs cs w :
  storedContexts w = Some cs ->
  runs (migrate cs (storedCatalog w)) w (fun w' r => keepsSecrets w w' /\
    match r with
    | inl _ => forall c n, valueAt w' c n = valueAt w c n
    | inr cs' => migratedFrom w w' cs'
    end).
Proof.
  intros Hcs. pose proof (storedContexts_good _ _ Hcs) as Hgood.
  assert (Hval : forall c n, valueAt w c n = Some (overlay cs (storedCatalog w) c n)).
  { intros c n. unfold valueAt. by rewrite Hcs. }
  unfold migrate. destruct (hasLegacyEnv (storedCatalog w)) eqn:Hleg; cbn [negb].
  2: { split; [by apply keepsSecrets_same|]. assert (Hno : forall c n, overlay cs (storedCatalog w) c n = valueIn cs c n).
       { intros c n. unfold overlay. rewrite hasLegacyEnv_false by done. by destruct (valueIn cs c n). }
       split; [done|]. split; [intros c n; by rewrite Hval, Hno|]. split; [intros c n; by rewrite Hval, Hno|].
       intros c n. by apply hasLegacyEnv_false. }
  destruct (storedCatalog w) as [fs|] eqn:Hcat; [|done]. pose proof (storedCatalog_valid _ _ Hcat) as Hvalid.
  destruct (migrateEnvContexts _ cs) as [e|[[cs1 kept] removed]] eqn:Hm; [by split; [apply keepsSecrets_same|]|].
  pose proof (validFields_object _ "contexts" Hvalid) as Hcf. change (objectOf _) with (catalogContexts (Some fs)) in Hcf.
  destruct (migrateEnvContexts_spec _ _ _ _ _ Hm (validFields_distinct _ Hcf)) as (Hv1 & Hk1 & Hn1).
  unfold hasLegacyEnv in Hleg. rewrite Hleg in Hn1.
  case_bool_decide as Hrem; [done|]. clear Hn1 Hrem. pose proof (migrated_clean _ _ _ _ _ Hgood Hvalid Hm) as Hclean.
  assert (Hov : forall c n, overlay cs (Some fs) c n = valueIn cs1 c n).
  { intros c n. unfold overlay. rewrite Hv1. done. }
  assert (Hcl : forall c n, cleanValue <$> valueIn cs1 c n = valueIn cs1 c n).
  { intros c n. destruct (valueIn cs1 c n) eqn:Hv; [|done]. cbn. by rewrite (proj2 Hclean _ _ _ Hv). }
  assert (Hctx : is_Some (field "contexts" fs)).
  { destruct (field "contexts" fs) eqn:Hf; [by eexists|]. unfold catalogContexts in Hleg. cbn in Hleg. by rewrite Hf in Hleg. }
  apply runs_bind, saveMigrated_runs. eapply runs_mono; [apply save_runs, Hclean|]. intros w1 r [Hcat1 Hr].
  assert (Hsc : storedCatalog w1 = Some fs) by (unfold storedCatalog in *; by rewrite Hcat1).
  assert (Hsec : forall w2, storedCatalog w2 = storedCatalog w1 -> keepsSecrets w w2).
  { intros w2 H2 c n e. by rewrite H2, Hsc, Hcat. }
  destruct r as [f|[]]; [intros f'; split; [by apply Hsec|]; intros c n; by rewrite (sameFiles_value _ _ _ _ Hr)|].
  destruct Hr as (cs2 & Hcs2 & Hin2). assert (Heq : forall c n, valueIn cs2 c n = valueIn cs1 c n) by (intros c n; by rewrite Hin2, Hcl).
  assert (Hsame : forall w2, sameFiles w1 w2 -> forall c n, valueAt w2 c n = valueAt w c n).
  { intros w2 H2 c n. rewrite (sameFiles_value _ _ _ _ H2), Hval, Hov. unfold valueAt. rewrite Hcs2, Hsc. cbn. f_equal.
    unfold overlay. rewrite Heq. rewrite Hv1. unfold entryAt, contextEntries. destruct (valueIn cs c n); [done|]. by destruct (legacyOf _). }
  change (setField _ _ _) with (migratedCatalog kept fs).
  destruct (encodeCatalog (migratedCatalog kept fs)) as [text|] eqn:Henc; [|split; [by apply Hsec|exact (Hsame w1 (reflexivity w1))]].
  apply runs_bind, attempt_runs.
  { intros w2 f Hs. split; [apply Hsec; by rewrite (sameFiles_catalog _ _ Hs)|by apply Hsame]. }
  intros w2 Hs. apply runs_bind. unfold runs, update. cbn [fst snd yield].
  destruct (catalog_written _ _ _ _ _ _ w2 Hvalid Hctx Hm Henc) as (fs' & Hcat' & Hkept).
  split.
  - intros c n e. rewrite Hcat, Hcat', Hkept. intros -> He. by rewrite He.
  - assert (Hnone : forall c n, legacyOf (entryAt (storedCatalog (withCatalog text w2)) c n) = None).
    { intros c n. rewrite Hcat', Hkept. destruct (entryAt (Some fs) c n) as [e|]; [|done]. destruct (isEnvEntry e) eqn:He; [done|].
      cbn. by rewrite He. }
    split; [done|]. split; [intros c n; by rewrite Hval, Hov|]. split; [|done]. intros c n.
    unfold valueAt. change (storedContexts (withCatalog text w2)) with (storedContexts w2).
    rewrite (sameFiles_contexts _ _ Hs), Hcs2. cbn. f_equal. unfold overlay. rewrite Hnone, Heq. by destruct (valueIn cs1 c n).
Qed.

Lemma opened_runs others w :
  runs (opened others) w (fun w' r => exists p, startOf others w p /\ keepsSecrets p w' /\
    match r with
    | inl _ => forall c n, valueAt w' c n = valueAt p c n
    | inr cs => migratedFrom p w' cs
    end).
Proof.
  apply runs_bind, locked_runs.
  { intros p w' f Hp Hs. exists p. split; [done|]. split; [by apply keepsSecrets_same|]. intros c n. by apply sameFiles_value. }
  intros p w0 Hp Hs0. unfold load. apply runs_bind, attempt_runs.
  { intros w1 f Hs. assert (Hs1 : sameFiles p w1) by by trans w0. exists p. split; [done|]. split; [by apply keepsSecrets_same|].
    intros c n. by apply sameFiles_value. }
  intros w1 Hs. assert (Hs1 : sameFiles p w1) by by trans w0. apply runs_bind. unfold runs at 1, read. cbn [fst snd].
  rewrite <- (sameFiles_catalog _ _ Hs1).
  assert (Hgo : forall cs, storedContexts w1 = Some cs -> runs (migrate cs (storedCatalog w1)) w1 (fun w' r => exists p, startOf others w p /\ keepsSecrets p w' /\
    match r with
    | inl _ => forall c n, valueAt w' c n = valueAt p c n
    | inr cs => migratedFrom p w' cs
    end)).
  { intros cs Hcs. eapply runs_mono; [by apply migrate_runs|]. intros w' r [Hsec Hr]. exists p. split; [done|].
    split; [intros c n e; rewrite <- (sameFiles_catalog _ _ Hs1); apply Hsec|].
    assert (Hv : forall c n, valueAt w1 c n = valueAt p c n) by (intros c n; by apply sameFiles_value). destruct r as [f|cs'].
    - intros c n. by rewrite Hr.
    - destruct Hr as (H1 & H2 & H3 & H4). split; [done|]. split; [|done]. intros c n. by rewrite <- Hv. }
  assert (Hrefuse : forall e, runs (refuse (A := contexts) e) w1 (fun w' r => exists p, startOf others w p /\ keepsSecrets p w' /\
    match r with
    | inl _ => forall c n, valueAt w' c n = valueAt p c n
    | inr cs => migratedFrom p w' cs
    end)).
  { intros e. exists p. split; [done|]. split; [by apply keepsSecrets_same|]. intros c n. by apply sameFiles_value. }
  destruct (efEnv w1) as [raw|] eqn:Henv.
  - destruct (decodeData raw) as [d|] eqn:Hd; [|apply Hrefuse]. destruct (dSchemaVersion d =? 1) eqn:Hv; cbn [negb]; [|apply Hrefuse].
    apply Hgo. unfold storedContexts. by rewrite Henv, Hd, Hv.
  - apply Hgo. unfold storedContexts. by rewrite Henv.
Qed.

(** ** The operations as one step each *)

Inductive operation :=
| OpSet (contextName name value : string)
| OpGet (contextName name : string)
| OpMeta (contextName name : string)
| OpList (contextName : string)
| OpDelete (contextName name : string)
| OpDeleteValues (contextName : string) (names : list string)
| OpRestoreValues (contextName : string) (values : list EnvValue).
Definition perform (others : EnvFiles -> EnvFiles) (op : operation) : EnvGo () :=
  match op with
  | OpSet c n v => Set_ others c n v
  | OpGet c n => go! _ := Get others c n in yield ()
  | OpMeta c n => go! _ := Meta others c n in yield ()
  | OpList c => go! _ := List_ others c in yield ()
  | OpDelete c n => Delete others c n
  | OpDeleteValues c ns => DeleteValues others c ns
  | OpRestoreValues c vs => RestoreValues others c vs
  end.
(** Context names are text. *)
Definition textualOp (op : operation) : Prop :=
  match op with OpSet c _ _ | OpRestoreValues c _ => ValidString c = true | _ => True end.

(** What becomes of the value of a name when an operation succeeds at time [t]. *)
Definition effect (op : operation) (t : Z) (c n : string) (old : option EnvValue) : option EnvValue :=
  match op with
  | OpSet c0 n0 value =>
      if decide (c = c0 /\ n = n0)
      then Some (cleanValue match old with
                            | Some v => mkEnvValue (evName v) (evContext v) value (evCreated v) (evLastUsed v)
                            | None => mkEnvValue "" "" value t 0
                            end)
      else old
  | OpGet c0 n0 => if decide (c = c0 /\ n = n0) then (fun v => cleanValue (usedAt t v)) <$> old else old
  | OpMeta _ _ | OpList _ => old
  | OpDelete c0 n0 => if decide (c = c0 /\ n = n0) then None else old
  | OpDeleteValues c0 ns => if decide (c = c0 /\ n ∈ ns) then None else old
  | OpRestoreValues c0 vs =>
      match last (base.filter (fun v => c = c0 /\ evName v = n) vs) with
      | Some v => Some (cleanValue v)
      | None => old
      end
  end.

Lemma ValidString_name s : forallb isNameChar (String.list_ascii_of_string s) = true -> ValidString s = true.
Proof.
  induction s as [|c s IH]; [done|]. cbn [String.list_ascii_of_string forallb]. rewrite andb_true_iff. intros [Hc Hs].
  assert (Hsize : rune_size c = 1%nat).
  { clear -Hc. destruct c as [[] [] [] [] [] [] [] []]; vm_compute in Hc |- *; first [reflexivity|discriminate]. }
  assert (Hlen : rune_len (String c s) = 1%nat) by (cbn [rune_len]; by rewrite Hsize).
  cbn [ValidString]. rewrite Hlen. by apply IH.
Qed.
Lemma ValidateName_text n : ValidateName n = None -> ValidString n = true.
Proof.
  unfold ValidateName. destruct (namePattern n) eqn:Hn; [|done]. intros _. apply ValidString_name. destruct n as [|c n]; [done|].
  cbn in Hn |- *. unfold isNameChar at 1. apply andb_true_iff in Hn as [-> ->]. done.
Qed.
Lemma validateNames_all ns : validateNames ns = None -> Forall (fun n => ValidateName n = None) ns.
Proof. induction ns as [|n ns IH]; [constructor|]. cbn. intros [H1 H2]%andThen_None. constructor; auto. Qed.

Definition took (others : EnvFiles -> EnvFiles) (op : operation) (w w' : EnvFiles) (succeeded : bool) : Prop :=
  exists p, startOf others w p /\ keepsSecrets p w' /\
    if succeeded then exists t, forall c n, valueAt w' c n = effect op t c n <$> valueAt p c n
    else forall c n, valueAt w' c n = valueAt p c n.

(** An operation that reads the values and saves others. *)
Lemma opened_save others op w (k : contexts -> EnvGo ()) :
  (forall cs w1 w0, migratedFrom w0 w1 cs ->
     runs (k cs) w1 (fun w' r => efCatalog w' = efCatalog w1 /\
       match r with
       | inl _ => sameFiles w1 w'
       | inr _ => exists t cs', storedContexts w' = Some cs' /\ forall c n, valueIn cs' c n = effect op t c n (valueIn cs c n)
       end)) ->
  runs (go! cs := opened others in k cs) w (fun w' r => took others op w w' (isDone r)).
Proof.
  intros Hk. apply runs_bind. eapply runs_mono; [apply opened_runs|]. intros w1 r (p & Hp & Hsec & Hr).
  destruct r as [f|cs]; [by exists p|]. eapply runs_mono; [by eapply Hk|]. intros w2 r [Hcat Hr2].
  assert (Hsc : storedCatalog w2 = storedCatalog w1) by (unfold storedCatalog; by rewrite Hcat).
  exists p. split; [done|]. split; [intros c n e; rewrite Hsc; apply Hsec|].
  destruct Hr as (_ & Hvp & Hv1 & Hno). destruct r as [f|x]; cbn [isDone].
  - intros c n. rewrite (sameFiles_value _ _ _ _ Hr2), Hv1. by rewrite Hvp.
  - destruct Hr2 as (t & cs' & Hcs' & Hin). exists t. intros c n. rewrite Hvp. unfold valueAt. rewrite Hcs'. cbn. f_equal.
    unfold overlay. rewrite Hsc, Hno, Hin. by destruct (effect _ _ _ _ _).
Qed.
(** One that only reads. *)
Lemma opened_only {A} others op w (k : contexts -> EnvGo A) :
  (forall t c n old, effect op t c n old = old) ->
  (forall cs w1, sameFiles w1 (k cs w1).1) ->
  runs (go! cs := opened others in k cs) w (fun w' r => took others op w w' (isDone r)).
Proof.
  intros He Hk. apply runs_bind. eapply runs_mono; [apply opened_runs|]. intros w1 r (p & Hp & Hsec & Hr).
  destruct r as [f|cs]; [by exists p|]. destruct Hr as (_ & Hvp & Hv1 & _). unfold runs. specialize (Hk cs w1).
  exists p. split; [done|]. split; [intros c n e; rewrite (sameFiles_catalog _ _ Hk); apply Hsec|].
  destruct (k cs w1) as [w2 [f|x]]; cbn [isDone fst snd] in *.
  - intros c n. rewrite (sameFiles_value _ _ _ _ Hk), Hv1. by rewrite Hvp.
  - exists 0. intros c n. rewrite (sameFiles_value _ _ _ _ Hk), Hv1, Hvp. cbn. by rewrite He.
Qed.
Lemma saved_effect op cs cs2 w1 t :
  textual cs2 -> (forall c n, cleanValue <$> valueIn cs2 c n = effect op t c n (valueIn cs c n)) ->
  runs (save cs2) w1 (fun w' r => efCatalog w' = efCatalog w1 /\
    match r with
    | inl _ => sameFiles w1 w'
    | inr _ => exists t cs', storedContexts w' = Some cs' /\ forall c n, valueIn cs' c n = effect op t c n (valueIn cs c n)
    end).
Proof.
  intros Ht He. eapply runs_mono; [by apply save_runs|]. intros w' r [Hcat Hr]. split; [done|]. destruct r; [done|].
  destruct Hr as (cs' & Hcs & Hv). exists t, cs'. split; [done|]. intros c n. by rewrite Hv, He.
Qed.
Lemma cleanContexts_value cs c n : cleanContexts cs -> cleanValue <$> valueIn cs c n = valueIn cs c n.
Proof. intros [_ Hc]. destruct (valueIn cs c n) eqn:Hv; [|done]. cbn. by rewrite (Hc _ _ _ Hv). Qed.
Lemma took_unopened others op w : (forall t c n old, effect op t c n old = old) -> took others op w w true.
Proof.
  intros He. exists w. split; [by left|]. split; [by apply keepsSecrets_same|]. exists 0. intros c n.
  destruct (valueAt w c n); [|done]. cbn. by rewrite He.
Qed.
Lemma checked_runs {A} others op e (m : EnvGo A) w :
  (e = None -> runs m w (fun w' r => took others op w w' (isDone r))) ->
  runs (checked e m) w (fun w' r => took others op w w' (isDone r)).
Proof.
  intros Hm. destruct e; [|by apply Hm]. exists w. split; [by left|]. split; [by apply keepsSecrets_same|]. done.
Qed.
Lemma textual_setValue c n v cs : textual cs -> ValidString c = true -> ValidString n = true -> textual (setValue c n v cs).
Proof.
  intros Ht Hc Hn c' n' v'. rewrite valueIn_setValue. case_decide as Hd; [destruct Hd as [-> ->]; done|]. apply Ht.
Qed.
Lemma envNow_runs {A} (k : Z -> EnvGo A) w Q :
  (forall t w1, sameFiles w w1 -> runs (k t) w1 Q) -> runs (go! t := envNow in k t) w Q.
Proof. intros Hk. apply runs_bind. unfold runs at 1, envNow. cbn [fst snd]. by apply Hk. Qed.
Lemma restored_values c0 vs : forall cs c n,
  valueIn (foldl (fun cs v => setValue c0 (evName v) v cs) cs vs) c n =
    match last (base.filter (fun v => c = c0 /\ evName v = n) vs) with Some v => Some v | None => valueIn cs c n end.
Proof.
  induction vs as [|v vs IH]; intros cs c n; [done|]. cbn [foldl]. rewrite IH, valueIn_setValue, filter_cons.
  destruct (decide (c = c0 /\ evName v = n)) as [[-> <-]|Hne].
  - destruct (base.filter _ vs) as [|x l]; [cbn [last]; by rewrite decide_True by done|].
    change (last (v :: x :: l)) with (last (x :: l)). destruct (last (x :: l)) eqn:Hl; [done|]. by apply last_None in Hl.
  - rewrite (decide_False (P := c = c0 /\ n = evName v)) by naive_solver. done.
Qed.
Lemma textual_restored c0 vs : forall cs,
  textual cs -> ValidString c0 = true -> Forall (fun v => ValidateName (evName v) = None) vs ->
  textual (foldl (fun cs v => setValue c0 (evName v) v cs) cs vs).
Proof.
  induction vs as [|v vs IH]; intros cs Ht Hc Hn; [done|]. inversion Hn; subst. cbn [foldl]. apply IH; [|done|done].
  apply textual_setValue; [done|done|by apply ValidateName_text].
Qed.
Lemma textual_deleteValues c0 ns cs : textual cs -> textual (deleteValues c0 ns cs).
Proof. intros Ht c n v. rewrite valueIn_deleteValues. case_decide; [done|]. apply Ht. Qed.
Lemma took_yield {A} others op w (m : EnvGo A) :
  runs m w (fun w' r => took others op w w' (isDone r)) ->
  runs (go! _ := m in yield ()) w (fun w' r => took others op w w' (isDone r)).
Proof. intros Hm. apply runs_bind. eapply runs_mono; [exact Hm|]. intros w' [f|x]; done. Qed.
Lemma deleted_took others op c0 ns w :
  (forall t c n old, effect op t c n old = if decide (c = c0 /\ n ∈ ns) then None else old) ->
  runs (go! cs := opened others in save (deleteValues c0 ns cs)) w (fun w' r => took others op w w' (isDone r)).
Proof.
  intros He. apply opened_save. intros cs w1 w0 (Hclean & _). apply (saved_effect op _ _ _ 0).
  - apply textual_deleteValues, Hclean.
  - intros c n. rewrite He, valueIn_deleteValues. case_decide; [done|]. by apply cleanContexts_value.
Qed.
Lemma took_get others c0 n0 w :
  runs (go! cs := opened others in
        match valueIn cs c0 n0 with
        | None => refuse ErrNotFound
        | Some value =>
            go! time := envNow in
            go! _ := save (setValue c0 n0 (usedAt time value) cs) in
            yield (evValue value)
        end) w (fun w' r => took others (OpGet c0 n0) w w' (isDone r)).
Proof.
  apply runs_bind. eapply runs_mono; [apply opened_runs|]. intros w1 r (p & Hp & Hsec & Hr).
  destruct r as [f|cs]; [by exists p|]. destruct Hr as (Hclean & Hvp & Hv1 & Hno).
  assert (Hfail : took others (OpGet c0 n0) w w1 false).
  { exists p. split; [done|]. split; [done|]. intros c n. by rewrite Hv1, Hvp. }
  destruct (valueIn cs c0 n0) as [value|] eqn:Hold; [|exact Hfail]. apply envNow_runs. intros t w2 Hs2.
  assert (Ht : textual (setValue c0 n0 (usedAt t value) cs)).
  { intros c n v. rewrite valueIn_setValue. case_decide as Hd; [destruct Hd as [-> ->]|]; intros; by eapply (proj1 Hclean). }
  apply runs_bind. eapply runs_mono; [by apply save_runs|]. intros w3 r [Hcat Hr].
  assert (Hsc : storedCatalog w3 = storedCatalog w1).
  { rewrite <- (sameFiles_catalog _ _ Hs2). unfold storedCatalog. by rewrite Hcat. }
  assert (Hsec3 : keepsSecrets p w3) by (intros c n e; rewrite Hsc; apply Hsec).
  destruct r as [f|x].
  - exists p. split; [done|]. split; [done|]. cbn [isDone]. intros c n.
    rewrite (sameFiles_value _ _ _ _ Hr), (sameFiles_value _ _ _ _ Hs2), Hv1. by rewrite Hvp.
  - exists p. split; [done|]. split; [done|]. destruct Hr as (cs' & Hcs' & Hin). exists t. intros c n. rewrite Hvp.
    change (valueAt w3 c n = Some (effect (OpGet c0 n0) t c n (valueIn cs c n))).
    unfold valueAt. rewrite Hcs'. cbn [fmap option_fmap option_map effect]. f_equal.
    unfold overlay. rewrite Hsc, Hno, Hin, valueIn_setValue. case_decide as Hd.
    + destruct Hd as [-> ->]. by rewrite Hold.
    + rewrite cleanContexts_value by done. by destruct (valueIn cs c n).
Qed.

(** C37: Whatever fails and whatever other processes do while the lock is released,
    an operation on environment values (for a context whose name is valid UTF-8,
    when it sets or restores) takes its effect at one point or not at
    all: afterwards every name has the value the operation gives it, by what it
    had at that point, and an operation that fails changes no value.  Moving
    values out of the catalog of secrets changes no value either, and every other
    entry of the catalog stays. *)
Theorem operations_take_effect_once others op w :
  textualOp op ->
  let '(w', r) := perform others op w in
  exists p, startOf others w p /\ keepsSecrets p w' /\
    match r with
    | inr _ => exists t, forall c n, valueAt w' c n = effect op t c n <$> valueAt p c n
    | inl _ => forall c n, valueAt w' c n = valueAt p c n
    end.
Proof.
  intros Hop. assert (Hgoal : runs (perform others op) w (fun w' r => took others op w w' (isDone r))).
  { destruct op as [c0 n0 value|c0 n0|c0 n0|c0|c0 n0|c0 ns|c0 vs]; cbn [perform].
    - apply checked_runs. intros Hn%ValidateName_text. apply opened_save. intros cs w1 w0 (Hclean & _).
      destruct (valueIn cs c0 n0) as [entry|] eqn:Hold.
      + apply (saved_effect _ _ _ _ 0); [by apply textual_setValue; [apply Hclean| |]|]. intros c n. cbn [effect].
        rewrite valueIn_setValue. case_decide as Hd; [destruct Hd as [-> ->]; by rewrite Hold|]. by apply cleanContexts_value.
      + apply envNow_runs. intros t w2 Hs. eapply runs_mono.
        * apply (saved_effect (OpSet c0 n0 value) cs _ _ t); [by apply textual_setValue; [apply Hclean| |]|]. intros c n. cbn [effect].
          rewrite valueIn_setValue. case_decide as Hd; [destruct Hd as [-> ->]; by rewrite Hold|]. by apply cleanContexts_value.
        * intros w' r [Hcat Hr]. split; [rewrite Hcat; apply Hs|]. destruct r; [by trans w2|done].
    - apply took_yield, checked_runs. intros Hn%ValidateName_text. apply took_get.
    - apply took_yield, checked_runs. intros _. apply opened_only; [done|]. intros cs w1. by destruct (valueIn cs c0 n0).
    - apply took_yield, opened_only; [done|]. done.
    - apply checked_runs. intros _. apply deleted_took. intros t c n old. cbn [effect]. 
      destruct (decide (c = c0 /\ n = n0)) as [[-> ->]|Hne]; [by rewrite decide_True by (split; [done|by apply list_elem_of_singleton])|].
      rewrite decide_False; [done|]. rewrite list_elem_of_singleton. tauto.
    - destruct ns as [|n ns]; [apply took_unopened; intros t c n old; cbn [effect]; rewrite decide_False; [done|]; intros [_ Hin]; by apply elem_of_nil in Hin|].
      apply checked_runs. intros _. by apply deleted_took.
    - destruct vs as [|v vs]; [by apply took_unopened|].
      apply checked_runs. intros Hn%validateNames_all. rewrite Forall_map in Hn. apply opened_save. intros cs w1 w0 (Hclean & _).
      apply (saved_effect _ _ _ _ 0); [by apply textual_restored; [apply Hclean| |]|]. intros c n. cbn [effect].
      rewrite restored_values. destruct (last _); [done|]. by apply cleanContexts_value. }
  unfold runs, took in Hgoal. destruct (perform others op w) as [w' r]. cbn [fst snd] in Hgoal. by destruct r.
Qed.
End Migrating.

(** ** On concrete files *)

Module EnvSample.

(** Equality of JSON values. *)
#[local] Instance spec_float_eq_dec : EqDecision SpecFloat.spec_float.
Proof. solve_decision. Defined.
Fixpoint eqJson (a b : json) : bool :=
  match a, b with
  | JNull, JNull => true
  | JBool x, JBool y => bool_decide (x = y)
  | JNumber x, JNumber y => bool_decide (x = y)
  | JString x, JString y => bool_decide (x = y)
  | JArray l, JArray k =>
      (fix go l k := match l, k with
                     | [], [] => true
                     | x :: l', y :: k' => eqJson x y && go l' k'
                     | _, _ => false
                     end) l k
  | JObject l, JObject k =>
      (fix go l k := match l, k with
                     | [], [] => true
                     | x :: l', y :: k' => bool_decide (x.1 = y.1) && eqJson x.2 y.2 && go l' k'
                     | _, _ => false
                     end) l k
  | _, _ => false
  end.
Lemma eqJson_eq a : forall b, eqJson a b = true -> a = b.
Proof.
  induction a as [|x|x|x|l IH|l IH] using json_nested_ind; intros b; destruct b as [|y|y|y|k|k]; try done; cbn [eqJson].
  1-3: by intros ->%bool_decide_eq_true.
  - intros Heq. f_equal. revert k Heq. induction IH as [|x l Hx Hl IHl]; intros [|y k]; try done.
    intros [Hxy Hlk]%andb_true_iff. f_equal; [by apply Hx|by apply IHl].
  - intros Heq. f_equal. revert k Heq. induction IH as [|[n x] l Hx Hl IHl]; intros [|[m y] k]; try done.
    intros [[Hn%bool_decide_eq_true Hxy]%andb_true_iff Hlk]%andb_true_iff. cbn in *. subst m.
    f_equal; [f_equal; by apply Hx|by apply IHl].
Qed.

#[local] Instance EnvValue_eq_dec : EqDecision EnvValue.
Proof. solve_decision. Defined.

(** An encoding that knows a few files. *)
Definition clean (v : EnvValue) : EnvValue := mkEnvValue "" "" (coerceUTF8 (evValue v)) (evCreated v) (evLastUsed v).
Definition entry (kind value : string) : json := JObject [("kind", JString kind); ("value", JString value)].
Definition catalogWith (version : Z) (entries : fields) : fields :=
  [("contexts", JObject [("default", JObject entries)]); ("schemaVersion", JNumber (toFloat version))].
Definition editor : EnvValue := mkEnvValue "" "" "vi" 3 0.
Definition pager : EnvValue := mkEnvValue "" "" "less" 7 0.
Definition moved : contexts := {[ "default" := {[ "EDITOR" := editor ]} ]}.
Definition added : contexts := {[ "default" := {[ "EDITOR" := editor; "PAGER" := pager ]} ]}.
Definition oldCatalog : fields := catalogWith 1 [("TOKEN", entry "secret" ""); ("EDITOR", entry "env" "vi")].
Definition newCatalog : fields := catalogWith 2 [("TOKEN", entry "secret" "")].
Definition dataTable : list (string * contexts) := [("moved", moved); ("added", added)].
Definition catalogTable : list (string * fields) := [("old", oldCatalog); ("new", newCatalog)].
Definition lookupText {A} (text : string) (table : list (string * A)) : option A :=
  option_map snd (List.find (fun x => bool_decide (x.1 = text)) table).

Definition sampleEncode (d : data) : option string :=
  option_map fst (List.find (fun x : string * contexts => bool_decide (dSchemaVersion d = 1 /\ x.2 = (fmap (fmap clean) (dContexts d) : contexts))) dataTable).
Definition sampleCatalog (fs : fields) : option string :=
  option_map fst (List.find (fun x : string * fields => eqJson (JObject x.2) (JObject fs)) catalogTable).
#[export] Instance sampleYAML : EnvYAML := {|
  encodeData := sampleEncode;
  decodeData := fun text => option_map (mkData 1) (lookupText text dataTable);
  encodeCatalog := sampleCatalog;
  decodeCatalog := fun text => option_map Some (lookupText text catalogTable);
  decodeLegacy := fun e => match field "value" (objectOf (Some e)) with
                           | Some (JString value) => Some (mkEnvValue "" "" (coerceUTF8 value) 3 0)
                           | _ => None
                           end;
  cleanValue := clean;
|}.

Definition goodContexts (cs : contexts) : Prop :=
  map_Forall (fun c (m : gmap string EnvValue) =>
    map_Forall (fun n v => ValidString c = true /\ ValidString n = true /\ clean v = v) m) cs.
Lemma goodContexts_values cs c n v : goodContexts cs -> valueIn cs c n = Some v -> ValidString c = true /\ ValidString n = true /\ clean v = v.
Proof.
  unfold valueIn. intros Hg. destruct (cs !! c) as [m|] eqn:Hc; [|done]. cbn. intros Hn. exact (Hg c m Hc n v Hn).
Qed.
Lemma dataTable_good x : x ∈ dataTable -> goodContexts x.2 /\ lookupText x.1 dataTable = Some x.2.
Proof.
  assert (Hall : Forall (fun x => goodContexts x.2 /\ lookupText x.1 dataTable = Some x.2) dataTable).
  { unfold goodContexts. apply Forall_cons; split; [|apply Forall_cons; split; [|by apply Forall_nil]];
      (split; [|reflexivity]); apply (bool_decide_unpack _); vm_compute; exact I. }
  rewrite Forall_forall in Hall. apply Hall.
Qed.
Lemma catalogTable_good x : x ∈ catalogTable -> validJson (JObject x.2) = true /\ lookupText x.1 catalogTable = Some x.2.
Proof.
  assert (Hall : Forall (fun x => validJson (JObject x.2) = true /\ lookupText x.1 catalogTable = Some x.2) catalogTable).
  { apply Forall_cons; split; [|apply Forall_cons; split; [|by apply Forall_nil]]; split; vm_compute; reflexivity. }
  rewrite Forall_forall in Hall. apply Hall.
Qed.
Lemma lookupText_in {A} text (table : list (string * A)) a : lookupText text table = Some a -> (text, a) ∈ table.
Proof.
  unfold lookupText. destruct (List.find _ table) as [[k x]|] eqn:Hf; [|done]. apply List.find_some in Hf as [Hin Hk].
  apply bool_decide_eq_true in Hk. cbn in *. intros [= ->]. subst k. by apply list_elem_of_In.
Qed.

#[export] Instance sampleYAML_laws : EnvYAMLLaws.
Proof.
  split.
  - intros cs raw _ He. cbn [encodeData sampleYAML] in He. unfold sampleEncode in He. destruct (List.find _ dataTable) as [x|] eqn:Hf; [|done]. injection He as <-.
    apply List.find_some in Hf as [Hin Hx]. apply bool_decide_eq_true in Hx as [_ Hx]. cbn [dContexts] in Hx.
    apply list_elem_of_In in Hin. destruct (dataTable_good _ Hin) as [_ Hl]. exists (mkData 1 x.2). cbn. rewrite Hl.
    split; [done|]. split; [done|]. intros c n. rewrite Hx. unfold valueIn. rewrite lookup_fmap.
    destruct (cs !! c) as [m|]; [|done]. cbn. by rewrite lookup_fmap.
  - intros raw d. cbn. destruct (lookupText raw dataTable) as [cs|] eqn:Hl; [|done]. intros [= <-]. cbn [dContexts].
    apply lookupText_in in Hl. destruct (dataTable_good _ Hl) as [Hg _]. cbn [snd] in Hg. split.
    + intros c n v Hv. by destruct (goodContexts_values _ _ _ _ Hg Hv) as (? & ? & _).
    + intros c n v Hv. by destruct (goodContexts_values _ _ _ _ Hg Hv) as (_ & _ & ?).
  - intros e v. cbn. destruct (field "value" _) as [[]|]; try done. intros [= <-]. unfold clean. cbn. by rewrite coerceUTF8_idem.
  - done.
  - intros fs text _ He. cbn [encodeCatalog sampleYAML] in He. unfold sampleCatalog in He. destruct (List.find _ catalogTable) as [x|] eqn:Hf; [|done]. injection He as <-.
    apply List.find_some in Hf as [Hin Hx]. apply eqJson_eq in Hx. injection Hx as Hx. apply list_elem_of_In in Hin.
    destruct (catalogTable_good _ Hin) as [_ Hl]. exists x.2. cbn. rewrite Hl, Hx. done.
  - intros text fs. cbn. destruct (lookupText text catalogTable) as [x|] eqn:Hl; [|done]. intros [= <-].
    apply lookupText_in in Hl. by destruct (catalogTable_good _ Hl).
Qed.

(** A value of an older release, moved while another one is set. *)
Definition before (faults : list bool) : EnvFiles := mkEnvFiles None (Some "old") faults [7].
Definition setPager : operation := OpSet "default" "PAGER" "less".
Example moved_and_set :
  let w' := (perform id setPager (before [])).1 in
  (efEnv w', efCatalog w') = (Some "added", Some "new").
Proof. vm_compute. reflexivity. Qed.
(** The write of the catalog fails: both files have the old value. *)
Example moved_twice :
  let out := perform id setPager (before [false; false; false; false; false; false; false; false; true]) in
  (efEnv out.1, efCatalog out.1, isDone out.2) = (Some "moved", Some "old", false).
Proof. vm_compute. reflexivity. Qed.

Lemma operations_take_effect_once_witness :
  exists p, startOf id (before []) p /\ keepsSecrets p (perform id setPager (before [])).1.
Proof.
  pose proof (operations_take_effect_once id setPager (before []) eq_refl) as Hr.
  destruct (perform id setPager (before [])) as [w' r]. destruct Hr as (p & Hp & Hs & _). exists p. split; [exact Hp|exact Hs].
Defined.
End EnvSample.
