(* ===== verification/Journal.v ===== *)
(** Progress of operations: the reports of a running operation
    (src/pkg/status/status.go) and the journal of workspace events on disk
    (src/pkg/workspacejournal/journal.go), a window of segment files that several
    processes append to. *)
From S2P Require Import Prelude GoStd GoText GoConv Clierr Redact TaskState LogFS GoState.

(** ** Reporting (status.go) *)

Definition ErrorFrom (e : err) : option ErrorInfo :=
  match e with
  | None => None
  | Some e =>
      let c := Classify e in Some (mkErrorInfo (eCode c) (eMessage c) (eHint c) (eContext c))
  end.
Definition PhaseFailed := "failed".
Definition ValidState (s : string) : bool := one_of s [StateStarted; StateSucceeded; StateFailed; StateSkipped].

(** What a reporter is: what it does to the events reported so far.  A [nil]
    reporter is the one that does nothing. *)
Definition Reporter : Type := Event -> list Event -> list Event.
Definition Nop : Reporter := fun _ events => events.
Definition memoryReporter : Reporter := fun e events => events ++ [e].
Definition ForPipeline (r : Reporter) (pipeline : string) : Reporter := fun e =>
  r (mkEvent pipeline (evOperationID e) (evParentOperationID e) (evPhase e) (evStep e) (evState e) (evDuration e) (evError e)).
Definition Tee (reporters : list Reporter) : Reporter := fun e events => foldl (fun events (r : Reporter) => r e events) events reporters.
Definition reportState (r : Reporter) (phase step state : string) (error : option ErrorInfo) : list Event -> list Event :=
  r (mkEvent "" "" "" phase step state 0 error).
Definition Enter (r : Reporter) (phase step : string) := reportState r phase step StateStarted None.
Definition Leave (r : Reporter) (phase step : string) := reportState r phase step StateSucceeded None.
Definition Skip (r : Reporter) (phase step : string) := reportState r phase step StateSkipped None.
Definition Fail_ (r : Reporter) (phase : string) (e : err) : list Event -> list Event :=
  match e with None => fun events => events | Some _ => reportState r PhaseFailed phase StateFailed (ErrorFrom e) end.

Record Operation := mkOperation { opPipeline : string; opPhase : string; opStep : string }.
(** The counter of operations, what was reported, and the times the clock will
    show. *)
Record Progress := mkProgress { pgSequence : Z; pgReported : list Event; pgTimes : list Z }.
(** How a callback ends. *)
Inductive ending := Returned (e : err) | Panicked (value : string).
Definition Callback : Type := string -> Progress -> Progress * ending.

Definition reported (f : list Event -> list Event) (p : Progress) : Progress := mkProgress (pgSequence p) (f (pgReported p)) (pgTimes p).
Definition tick (p : Progress) : Z * Progress := (default 0 (head (pgTimes p)), mkProgress (pgSequence p) (pgReported p) (List.tl (pgTimes p))).
(** The context is the operation's ID; the callback gets its own. *)
Definition Run (parent : string) (r : Reporter) (op : Operation) (fn : Callback) (p : Progress) : Progress * ending :=
  let sequence := u64 (pgSequence p + 1) in
  let id := "op-" +:+ Itoa sequence in
  let event state duration error := mkEvent (opPipeline op) id parent (opPhase op) (opStep op) state duration error in
  let p1 := reported (r (event StateStarted 0 None)) (mkProgress sequence (pgReported p) (pgTimes p)) in
  let '(start, p2) := tick p1 in
  let '(p3, e) := fn id p2 in
  let '(now, p4) := tick p3 in
  match e with
  | Panicked value =>
      (reported (r (event StateFailed (now - start) (ErrorFrom (Some (Errorf "panic: %v" [AStr value]))))) p4, e)
  | Returned (Some error) => (reported (r (event StateFailed (now - start) (ErrorFrom (Some error)))) p4, e)
  | Returned None => (reported (r (event StateSucceeded (now - start) None)) p4, e)
  end.

(** ** The journal: data *)

Definition JournalSchemaVersion : Z := 1.
Definition DefaultMaxBytes : Z := 5 * 1024 * 1024.
Definition DefaultMaxSegmentBytes : Z := 512 * 1024.
Definition JournalDefaultLimit : Z := 100.
Definition JournalMaxLimit : Z := 1000.
Definition journalRecordBytes : Z := DefaultMaxSegmentBytes.
Definition appendLockName : string := "append.lock".

(** Times are nanoseconds since Go's zero time, so [0] is the zero time. *)
Record JournalEvent := mkJournalEvent {
  jeSchemaVersion : Z;
  jeTimestamp : Z;
  jeWorkspaceID : string;
  jePipeline : string;
  jeOperationID : string;
  jeParentOperationID : string;
  jePhase : string;
  jeStep : string;
  jeState : string;
  jeDurationMillis : Z;
  jeError : option ErrorInfo;
}.
Record Journal := mkJournal { joMaxBytes : Z; joMaxSegmentBytes : Z; joRedactor : Redactor }.
(** [NewJournal]: a limit of 0 is the default. *)
Definition NewJournal (maxBytes maxSegmentBytes : Z) (env : list string) : Journal :=
  mkJournal (if maxBytes =? 0 then DefaultMaxBytes else maxBytes)
    (if maxSegmentBytes =? 0 then DefaultMaxSegmentBytes else maxSegmentBytes) (NewEnvironmentRedactor env).

(** The regular files of the journal's directory by name, the system calls that
    will fail, with how much of a write still reaches the file, and the times the
    clock will show. *)
Record JournalDir := mkJournalDir { jdFiles : gmap string string; jdFaults : list (option nat); jdTimes : list Z }.
Definition withFiles (files : gmap string string) (w : JournalDir) : JournalDir := mkJournalDir files (jdFaults w) (jdTimes w).

Abbreviation JGo := (Go JournalDir).
Definition ioError (call : string) : goerr := Errorf (call +:+ ": %w") [AErr (Sentinel "os.EIO" "input/output error")].
Definition syscall (call : string) : JGo () := fun w =>
  match jdFaults w with
  | Some _ :: rest => (mkJournalDir (jdFiles w) rest (jdTimes w), inl (Failed (ioError call)))
  | _ :: rest => (mkJournalDir (jdFiles w) rest (jdTimes w), inr ())
  | [] => (w, inr ())
  end.
Definition journalNow : JGo Z := fun w =>
  (mkJournalDir (jdFiles w) (jdFaults w) (List.tl (jdTimes w)), inr (default 0 (head (jdTimes w)))).
(** [f.Write] on a file opened for appending. *)
Definition writeTo (name data : string) : JGo () := fun w =>
  let append text := <[name := default "" (jdFiles w !! name) +:+ text]> (jdFiles w) in
  match jdFaults w with
  | Some n :: rest => (mkJournalDir (append (string_take n data)) rest (jdTimes w), inl (Failed (ioError "write")))
  | _ :: rest => (mkJournalDir (append data) rest (jdTimes w), inr ())
  | [] => (withFiles (append data) w, inr ())
  end.

(** ** Segments *)

Definition journalPrefix : string := "events-".
Definition journalSuffix : string := ".ndjson".
(** [%06d] of a positive number *)
Definition sixDigits (n : Z) : string := if n <? 10 ^ 6 then padDigits 6 n else Itoa n.
Definition journalSegment (n : Z) : string := journalPrefix +:+ sixDigits n +:+ journalSuffix.
Definition isJournalSegment (name : string) : bool := HasPrefix name journalPrefix && HasSuffix name journalSuffix.
Definition segmentNames (files : gmap string string) : list string :=
  sortStrings (List.filter isJournalSegment ((map_to_list files).*1)).
Definition segmentPaths : JGo (list string) := go! _ := syscall "readdir" in read (fun w => segmentNames (jdFiles w)).

Definition segmentNumber (name : string) : Z :=
  match ParseInt (TrimSuffix (TrimPrefix name journalPrefix) journalSuffix) with Some n => n | None => 0 end.
Definition nextSegmentNumber (names : list string) : Z :=
  match names with [] => 1 | _ => foldl (fun maxNumber name => Z.max maxNumber (segmentNumber name)) 0 names + 1 end.
Definition sizeOf (files : gmap string string) (name : string) : Z := len (default "" (files !! name)).
Definition stat (name : string) : JGo Z := go! _ := syscall "stat" in read (fun w => sizeOf (jdFiles w) name).

Section Journaling.
Context (j : Journal).

Definition activeSegment (next : Z) : JGo string :=
  go! names := segmentPaths in
  match last names with
  | None => yield (journalSegment (nextSegmentNumber names))
  | Some name =>
      go! size := stat name in
      yield (if size + next <=? joMaxSegmentBytes j then name else journalSegment (nextSegmentNumber names))
  end.

Fixpoint statAll (names : list string) : JGo (list (string * Z)) :=
  match names with
  | [] => yield []
  | name :: rest => go! size := stat name in go! sizes := statAll rest in yield ((name, size) :: sizes)
  end.
Fixpoint removeOldest (segments : list (string * Z)) (total : Z) : JGo () :=
  match segments with
  | [] | [_] => yield ()
  | (name, size) :: rest =>
      if joMaxBytes j <? total then
        go! _ := syscall "remove" in
        go! _ := update (fun w => withFiles (delete name (jdFiles w)) w) in
        removeOldest rest (total - size)
      else yield ()
  end.
Definition prune : JGo () :=
  go! names := segmentPaths in
  go! segments := statAll names in
  removeOldest segments (foldr (fun s total => s.2 + total) 0 segments).

(** Creating, making private, writing and closing the file; a file that cannot be
    written is closed, whatever that returns. *)
Definition appendTo (name data : string) : JGo () :=
  go! _ := syscall "open" in
  go! _ := update (fun w => withFiles (<[name := default "" (jdFiles w !! name)]> (jdFiles w)) w) in
  go! _ := syscall "chmod" in
  go! _ := writeTo name data in
  syscall "close".
Definition journalAppendLocked (data : string) : JGo () :=
  go! name := activeSegment (len data) in
  go! _ := appendTo name data in
  prune.

Definition redactError (e : option ErrorInfo) : option ErrorInfo :=
  (fun e => mkErrorInfo (iCode e) (Redact (Some (joRedactor j)) (iMessage e)) (Redact (Some (joRedactor j)) (iHint e))
              (Redact (Some (joRedactor j)) <$> iContext e)) <$> e.
Definition journalEvent (now : Z) (workspaceID : string) (e : Event) : JournalEvent :=
  mkJournalEvent JournalSchemaVersion now workspaceID (evPipeline e) (evOperationID e) (evParentOperationID e) (evPhase e)
    (Redact (Some (joRedactor j)) (evStep e)) (evState e) (evDuration e `quot` 1000000) (redactError (evError e)).
Definition recordLimit : Z := Z.min (joMaxSegmentBytes j) journalRecordBytes.

Section Codec.
Context `{JSON JournalEvent}.

(** The lock orders the appends of all processes, so each is one step. *)
Definition JournalAppend (workspaceID : string) (e : Event) : JGo () :=
  go! now := journalNow in
  match Marshal (journalEvent now workspaceID e) with
  | None => refuse jsonError
  | Some text =>
      if recordLimit <? len (text +:+ nl) then yield ()
      else go! _ := syscall appendLockName in journalAppendLocked (text +:+ nl)
  end.
End Codec.
End Journaling.

(** ** Reading *)

Definition validPipeline (pipeline : string) : bool := one_of pipeline ["workspace_up"; "provider"].
Definition validPhase (phase : string) : bool := one_of phase
  ["cloning_repository"; "resolving_config"; "initialize_command"; "preparing_devcontainer"; "building_image"; "starting_container";
   "injecting_agent"; "running_lifecycle_hook"; "waiting_for"; "running_command"; "configuring_workspace"; "configuring_ssh";
   "starting_ssh_tunnel"; "launching_ide"; "stopping_workspace"; "deleting_workspace"; "rebuilding_workspace"; "resetting_workspace";
   "importing_workspace"; "ready"; "failed"; "installing_provider"; "resolving_options"; "running_init"].
Definition complete (e : JournalEvent) : bool :=
  negb (jeTimestamp e =? 0) && validPipeline (jePipeline e) && validPhase (jePhase e) && ValidState (jeState e).

(** The records of a text: its lines and what follows the last, without those that
    do not fit in the reader's buffer. *)
Definition journalRecords (content : string) : list string :=
  let '(ls, rest) := splitLines content in
  List.filter (fun line => len line <? journalRecordBytes) (ls ++ if bool_decide (rest = "") then [] else [rest]).
Definition recentEvents {A} (events : list A) (limit : Z) : list A :=
  let limit := if limit <=? 0 then JournalDefaultLimit else limit in
  let limit := if JournalMaxLimit <? limit then JournalMaxLimit else limit in
  drop (length events - Z.to_nat limit) events.

Section Reading.
Context `{JSON JournalEvent}.
(** What other processes do between two calls. *)
Context (others : JournalDir -> JournalDir).

(** The newline of a record is white space to the decoder. *)
Definition decodeEvent (workspaceID data : string) : option JournalEvent :=
  match Unmarshal data with
  | None => None
  | Some e =>
      if negb (jeSchemaVersion e =? JournalSchemaVersion) then None
      else if negb (bool_decide (workspaceID = "")) && negb (bool_decide (jeWorkspaceID e = workspaceID)) then None
      else if complete e then Some e else None
  end.
Definition readJournalSegment (workspaceID name : string) : JGo (list JournalEvent) :=
  go! _ := syscall "read" in
  read (fun w => match jdFiles w !! name with
                 | Some content => omap (decodeEvent workspaceID) (journalRecords content)
                 | None => []
                 end).
Fixpoint readSegments (workspaceID : string) (names : list string) : JGo (list JournalEvent) :=
  match names with
  | [] => yield []
  | name :: rest =>
      go! _ := update others in
      go! events := readJournalSegment workspaceID name in
      go! more := readSegments workspaceID rest in
      yield (events ++ more)
  end.
Definition JournalRead (workspaceID : string) (limit : Z) : JGo (list JournalEvent) :=
  go! names := segmentPaths in
  go! events := readSegments workspaceID names in
  yield (recentEvents events limit).

Definition isFinished (e : JournalEvent) : bool :=
  bool_decide (jeState e = StateSucceeded) || bool_decide (jeState e = StateFailed).
(** The last event that ends an operation, or else the last. *)
Definition Last (workspaceID : string) : JGo (option JournalEvent) :=
  go! events := JournalRead workspaceID JournalMaxLimit in
  yield (match List.find isFinished (rev events) with Some e => Some e | None => last events end).
End Reading.

(** ** Names of segments *)

Lemma compare_same_length a b x y : String.length a = String.length b ->
  String.compare (a +:+ x) (b +:+ y) = match String.compare a b with Eq => String.compare x y | c => c end.
Proof.
  revert b. induction a as [|c a IH]; intros [|d b]; try done. intros [= Hl]. rewrite !string_app_cons. cbn [String.compare].
  destruct (Ascii.compare c d); [by apply IH|done|done].
Qed.
Lemma digit_compare a b : 0 <= a < 10 -> 0 <= b < 10 -> Ascii.compare (digit_char a) (digit_char b) = (a ?= b).
Proof.
  intros Ha Hb. unfold Ascii.compare, digit_char.
  assert (Hd : forall d, 0 <= d < 10 -> Ascii.N_of_ascii (Ascii.ascii_of_nat (Z.to_nat (48 + d))) = Z.to_N (48 + d)).
  { intros d Hd. unfold Ascii.ascii_of_nat. rewrite Ascii.N_ascii_embedding; lia. }
  rewrite !Hd by done. rewrite <- N2Z.inj_compare, !Z2N.id by lia. by rewrite Z.add_compare_mono_l.
Qed.
Lemma padDigits_compare k : forall m n, 0 <= m < 10 ^ Z.of_nat k -> 0 <= n < 10 ^ Z.of_nat k ->
  String.compare (padDigits k m) (padDigits k n) = (m ?= n).
Proof.
  induction k as [|k IH]; intros m n Hm Hn.
  - cbn in *. replace m with 0 by lia. by replace n with 0 by lia.
  - rewrite Nat2Z.inj_succ, Z.pow_succ_r in Hm, Hn by lia. cbn [padDigits].
    pose proof (Z.div_mod m 10). pose proof (Z.div_mod n 10). pose proof (Z.mod_pos_bound m 10). pose proof (Z.mod_pos_bound n 10).
    rewrite compare_same_length by (by rewrite !padDigits_length).
    rewrite IH by (split; [apply Z.div_pos|apply Z.div_lt_upper_bound]; lia). cbn [String.compare]. rewrite digit_compare by lia.
    destruct (Z.compare_spec (m / 10) (n / 10)); [destruct (Z.compare_spec (m mod 10) (n mod 10))|..]; symmetry;
      [apply Z.compare_eq_iff|apply Z.compare_lt_iff|apply Z.compare_gt_iff|apply Z.compare_lt_iff|apply Z.compare_gt_iff]; lia.
Qed.
Lemma journalSegment_compare a b : 0 <= a < 10 ^ 6 -> 0 <= b < 10 ^ 6 ->
  String.compare (journalSegment a) (journalSegment b) = (a ?= b).
Proof.
  intros Ha Hb. unfold journalSegment, sixDigits. rewrite !(proj2 (Z.ltb_lt _ _)) by lia.
  rewrite compare_same_length by done. replace (String.compare journalPrefix journalPrefix) with Eq by done.
  rewrite compare_same_length by (by rewrite !padDigits_length). rewrite padDigits_compare by (cbn; lia). by destruct (a ?= b).
Qed.
Lemma journalSegment_le a b : 0 <= a < 10 ^ 6 -> 0 <= b < 10 ^ 6 -> String.le (journalSegment a) (journalSegment b) <-> a <= b.
Proof.
  intros Ha Hb. unfold String.le, String.leb. rewrite journalSegment_compare by done. 
  destruct (Z.compare_spec a b); split; intros; try done; lia.
Qed.
Lemma journalSegment_number n : 1 <= n < 10 ^ 6 -> segmentNumber (journalSegment n) = n.
Proof.
  intros Hn. unfold segmentNumber, journalSegment. rewrite TrimPrefix_app, TrimSuffix_app. unfold sixDigits.
  rewrite (proj2 (Z.ltb_lt _ _)) by lia.
  assert (Hp : ParseUint (padDigits 6 n) = Some n) by (apply ParseUint_padDigits; cbn; lia).
  unfold ParseInt. assert (Hs : signOf (padDigits 6 n) = (false, padDigits 6 n)).
  { pose proof (padDigits_length 6 n). destruct (padDigits 6 n) as [|c s] eqn:Hd; [done|]. unfold signOf.
    unfold ParseUint in Hp. cbn [parse_digits] in Hp. destruct (digit_of c) as [d|] eqn:Hc; [|done].
    unfold digit_of in Hc. by destruct c as [[] [] [] [] [] [] [] []]. }
  rewrite Hs, Hp. by rewrite (proj2 (Z.leb_gt _ _)) by lia.
Qed.
Lemma journalSegment_is n : isJournalSegment (journalSegment n) = true.
Proof.
  unfold isJournalSegment, journalSegment. apply andb_true_iff. split; [apply HasPrefix_spec; by eexists|].
  rewrite string_app_assoc. apply HasSuffix_spec. by eexists.
Qed.

Lemma segmentNames_in files name : name ∈ segmentNames files <-> isJournalSegment name = true /\ is_Some (files !! name).
Proof.
  unfold segmentNames, sortStrings. rewrite merge_sort_Permutation, list_elem_of_In, List.filter_In, <- list_elem_of_In, list_elem_of_fmap.
  split.
  - intros [([n c] & -> & Hin%elem_of_map_to_list) Hf]. split; [done|by eexists].
  - intros [Hf [c Hc]]. split; [|done]. exists (name, c). split; [done|]. by apply elem_of_map_to_list.
Qed.
Lemma List_filter_NoDup {A} (f : A -> bool) l : NoDup l -> NoDup (List.filter f l).
Proof.
  induction 1 as [|x l Hx Hl IH]; [constructor|]. cbn. destruct (f x); [|done]. constructor; [|done].
  intros Hin%list_elem_of_In. apply List.filter_In in Hin as [Hin _]. by apply Hx, list_elem_of_In.
Qed.
Lemma segmentNames_nodup files : NoDup (segmentNames files).
Proof. unfold segmentNames, sortStrings. rewrite merge_sort_Permutation. apply List_filter_NoDup, NoDup_fst_map_to_list. Qed.
(** The names are listed in the only order there is. *)
Lemma segmentNames_unique files l : StronglySorted String.le l -> NoDup l ->
  (forall name, name ∈ l <-> isJournalSegment name = true /\ is_Some (files !! name)) -> segmentNames files = l.
Proof.
  intros Hs Hnd Hin. apply (StronglySorted_unique String.le); [apply (StronglySorted_merge_sort String.le)|done|].
  apply NoDup_Permutation; [apply segmentNames_nodup|done|]. intros name. by rewrite segmentNames_in, Hin.
Qed.
Lemma segmentNames_same files files' : (forall name, is_Some (files !! name) <-> is_Some (files' !! name)) ->
  segmentNames files' = segmentNames files.
Proof.
  intros Hs. apply segmentNames_unique; [apply (StronglySorted_merge_sort String.le)|apply segmentNames_nodup|].
  intros name. by rewrite segmentNames_in, Hs.
Qed.
Lemma segmentNames_add files name content :
  isJournalSegment name = true -> files !! name = None -> Forall (fun n => String.le n name) (segmentNames files) ->
  segmentNames (<[name := content]> files) = segmentNames files ++ [name].
Proof.
  intros Hname Hnew Hle. apply segmentNames_unique.
  - assert (Hs : StronglySorted String.le (segmentNames files)) by apply (StronglySorted_merge_sort String.le).
    induction Hs as [|x l Hl IH Hx]; [repeat constructor|]. apply Forall_cons in Hle as [Hle1 Hle2]. constructor; [by apply IH|].
    apply Forall_app. split; [done|by constructor].
  - apply NoDup_app. split; [apply segmentNames_nodup|]. split; [|apply NoDup_singleton].
    intros n [_ [c Hc]]%segmentNames_in ->%list_elem_of_singleton. by rewrite Hnew in Hc.
  - intros n. rewrite elem_of_app, list_elem_of_singleton, segmentNames_in. destruct (decide (n = name)) as [->|Hne].
    + rewrite lookup_insert_eq. split; [intros _; split; [done|by eexists]|by right].
    + rewrite lookup_insert_ne by done. naive_solver.
Qed.
Lemma segmentNames_first files name rest : segmentNames files = name :: rest -> segmentNames (delete name files) = rest.
Proof.
  intros He. pose proof (segmentNames_nodup files) as Hnd. assert (Hs : StronglySorted String.le (segmentNames files))
    by apply (StronglySorted_merge_sort String.le). rewrite He in Hnd, Hs. inversion Hs as [|? ? Hs' Hall]. apply NoDup_cons in Hnd as [Hx Hnd].
  subst. apply segmentNames_unique; [done|done|]. intros n. pose proof (segmentNames_in files n) as Hn. rewrite He, elem_of_cons in Hn.
  destruct (decide (n = name)) as [->|Hne].
  - rewrite lookup_delete_eq. split; [done|]. intros [_ [? ?]]. done.
  - rewrite lookup_delete_ne by done. rewrite <- Hn. naive_solver.
Qed.

(** ** What is recorded *)

Definition linesOf (files : gmap string string) (name : string) : list string := (splitLines (default "" (files !! name))).1.
Definition recordedLines (files : gmap string string) : list string := concat (map (linesOf files) (segmentNames files)).
Definition totalBytes (files : gmap string string) : Z := foldr (fun name total => sizeOf files name + total) 0 (segmentNames files).

Definition isSegmentOf (name : string) : Prop := exists n, 1 <= n < 10 ^ 6 /\ name = journalSegment n.
(** Segments have the names the journal gives, complete records that can be read,
    and their size. *)
Definition tidySegment (j : Journal) (content : string) : Prop :=
  (splitLines content).2 = "" /\ len content <= joMaxSegmentBytes j /\
  Forall (fun line => len line < journalRecordBytes) (splitLines content).1.
Definition tidy (j : Journal) (files : gmap string string) : Prop :=
  forall name content, files !! name = Some content -> isJournalSegment name = true ->
    isSegmentOf name /\ tidySegment j content.

Lemma nextSegmentNumber_max names : Forall isSegmentOf names ->
  Forall (fun name => 1 <= segmentNumber name < nextSegmentNumber names) names /\ 1 <= nextSegmentNumber names /\
  (forall name, last names = Some name -> StronglySorted String.le names -> nextSegmentNumber names = segmentNumber name + 1).
Proof.
  intros Hall. assert (Hnum : forall name, isSegmentOf name -> 1 <= segmentNumber name < 10 ^ 6).
  { intros name (n & Hn & ->). by rewrite journalSegment_number. }
  assert (Hfold : forall l m, m <= foldl (fun k name => Z.max k (segmentNumber name)) m l /\
            Forall (fun name => segmentNumber name <= foldl (fun k name => Z.max k (segmentNumber name)) m l) l /\
            (foldl (fun k name => Z.max k (segmentNumber name)) m l = m \/
             exists name, name ∈ l /\ foldl (fun k name => Z.max k (segmentNumber name)) m l = segmentNumber name)).
  { induction l as [|x l IH]; intros m; cbn [foldl]; [split; [lia|split; [constructor|by left]]|].
    destruct (IH (Z.max m (segmentNumber x))) as (H1 & H2 & H3). split; [lia|]. split; [constructor; [lia|done]|].
    destruct H3 as [H3|(name & Hin & H3)]; [|right; exists name; split; [by right|done]].
    destruct (Z.max_spec m (segmentNumber x)) as [[_ Hm]|[_ Hm]]; rewrite Hm in H3 at 2; [right; exists x; split; [left|done]|by left]. }
  unfold nextSegmentNumber. destruct names as [|x l]; [split; [constructor|]; split; [lia|done]|].
  destruct (Hfold (x :: l) 0) as (H1 & H2 & H3). set (m := foldl _ 0 (x :: l)) in *. split; [|split; [lia|]].
  - rewrite Forall_forall in *. intros name Hin. specialize (H2 _ Hin). specialize (Hnum _ (Hall _ Hin)). lia.
  - intros name Hlast Hs. f_equal. rewrite Forall_forall in H2, Hall.
    assert (Hin : name ∈ x :: l) by (by apply last_Some_elem_of). pose proof (H2 _ Hin).
    destruct H3 as [H3|(name' & Hin' & H3)]; [specialize (Hnum _ (Hall _ Hin)); lia|].
    assert (segmentNumber name' <= segmentNumber name); [|lia].
    assert (Hle : String.le name' name).
    { clear -Hs Hlast Hin'. induction Hs as [|y k Hk IH Hy]; [done|]. destruct k as [|z k].
      - injection Hlast as ->. by apply list_elem_of_singleton in Hin' as ->.
      - change (last (y :: z :: k)) with (last (z :: k)) in Hlast. apply elem_of_cons in Hin' as [->|Hin']; [|by apply IH].
        rewrite Forall_forall in Hy. apply Hy. by apply last_Some_elem_of. }
    destruct (Hall _ Hin) as (a & Ha & ->), (Hall _ Hin') as (b & Hb & ->). apply journalSegment_le in Hle; [|lia|lia].
    by rewrite !journalSegment_number.
Qed.

(** ** What the steps of an append do *)

Definition extended (files : gmap string string) (name text : string) : gmap string string :=
  <[name := default "" (files !! name) +:+ text]> files.
(** The segment an append of [next] bytes goes to: the last one, or a new one
    behind it. *)
Definition isTarget (j : Journal) (files : gmap string string) (next : Z) (name : string) : Prop :=
  isSegmentOf name /\
  ((last (segmentNames files) = Some name /\ sizeOf files name + next <= joMaxSegmentBytes j) \/
   (files !! name = None /\ Forall (fun n => String.le n name) (segmentNames files))).

Lemma isSegmentOf_name name : isSegmentOf name -> isJournalSegment name = true.
Proof. intros (n & _ & ->). apply journalSegment_is. Qed.
Lemma tidy_names j files : tidy j files -> Forall isSegmentOf (segmentNames files).
Proof. intros Ht. apply Forall_forall. intros name [Hn [c Hc]]%segmentNames_in. by apply (Ht name c). Qed.
Lemma isTarget_listed j files next name : isTarget j files next name -> exists init,
  name ∉ init /\ (segmentNames files = init ++ [name] \/ (segmentNames files = init /\ files !! name = None)) /\
  forall text, segmentNames (extended files name text) = init ++ [name].
Proof.
  intros [Hseg%isSegmentOf_name [[Hlast _]|[Hnew Hle]]].
  - apply last_Some in Hlast as [init Hinit]. pose proof (segmentNames_nodup files) as Hnd. rewrite Hinit in Hnd.
    apply NoDup_app in Hnd as (_ & Hnd & _). exists init. split; [intros Hin; apply (Hnd _ Hin); by left|]. split; [by left|].
    intros text. rewrite <- Hinit. apply segmentNames_same. intros n. unfold extended. destruct (decide (n = name)) as [->|Hne].
    + rewrite lookup_insert_eq. split; [by eexists|]. intros _. assert (Hin : name ∈ segmentNames files) by (rewrite Hinit; apply elem_of_app; right; by left).
      by apply segmentNames_in in Hin as [_ ?].
    + by rewrite lookup_insert_ne.
  - exists (segmentNames files). split; [intros [_ [c Hc]]%segmentNames_in; by rewrite Hnew in Hc|]. split; [by right|].
    intros text. by apply segmentNames_add.
Qed.
Lemma extended_content files name text : default "" (extended files name text !! name) = default "" (files !! name) +:+ text.
Proof. unfold extended. by rewrite lookup_insert_eq. Qed.
Lemma linesOf_other files name text n : n <> name -> linesOf (extended files name text) n = linesOf files n /\
  sizeOf (extended files name text) n = sizeOf files n.
Proof. intros Hne. unfold linesOf, sizeOf, extended. by rewrite lookup_insert_ne. Qed.
Lemma total_app (f : string -> Z) l1 l2 :
  foldr (fun name total => f name + total) 0 (l1 ++ l2) =
    foldr (fun name total => f name + total) 0 l1 + foldr (fun name total => f name + total) 0 l2.
Proof. induction l1 as [|x l1 IH]; [done|]. cbn. rewrite IH. lia. Qed.
Lemma total_ext (f g : string -> Z) l : Forall (fun name => f name = g name) l ->
  foldr (fun name total => f name + total) 0 l = foldr (fun name total => g name + total) 0 l.
Proof. induction 1 as [|x l Hx Hl IH]; [done|]. cbn. by rewrite Hx, IH. Qed.

(** An extended journal has the lines of the text behind the others. *)
Lemma extended_spec j files next name text : tidy j files -> isTarget j files next name ->
  recordedLines (extended files name text) = recordedLines files ++ (splitLines text).1 /\
  totalBytes (extended files name text) = totalBytes files + len text /\
  (tidySegment j text -> len text <= next -> tidy j (extended files name text)) /\
  exists init, segmentNames (extended files name text) = init ++ [name] /\
    (length (concat (map (linesOf (extended files name text)) init)) <= length (recordedLines files))%nat.
Proof.
  intros Ht Htarget. destruct (isTarget_listed _ _ _ _ Htarget) as (init & Hfresh & Hnames & Hnew).
  assert (Hold : (splitLines (default "" (files !! name))).2 = "").
  { destruct (files !! name) as [c|] eqn:Hc; [|done]. destruct Htarget as [Hseg _]. by destruct (Ht _ _ Hc (isSegmentOf_name _ Hseg)) as [_ [Hs _]]. }
  assert (Hinit : map (linesOf (extended files name text)) init = map (linesOf files) init).
  { apply map_ext_in. intros n Hin%list_elem_of_In. apply linesOf_other. by intros ->. }
  assert (Hsize : Forall (fun n => sizeOf (extended files name text) n = sizeOf files n) init).
  { apply Forall_forall. intros n Hin. apply linesOf_other. by intros ->. }
  assert (Hsplit : splitLines (default "" (files !! name) +:+ text) = (linesOf files name ++ (splitLines text).1, (splitLines text).2)).
  { apply splitLines_app. unfold linesOf. destruct (splitLines (default "" (files !! name))) eqn:Hs. cbn in Hold |- *. by rewrite Hold. }
  assert (Hname : linesOf (extended files name text) name = linesOf files name ++ (splitLines text).1).
  { unfold linesOf at 1. by rewrite extended_content, Hsplit. }
  assert (Hbytes : sizeOf (extended files name text) name = sizeOf files name + len text).
  { unfold sizeOf. rewrite extended_content. apply len_app. }
  assert (Hrec : recordedLines files = concat (map (linesOf files) init) ++ linesOf files name /\
                 totalBytes files = foldr (fun n total => sizeOf files n + total) 0 init + sizeOf files name).
  { unfold recordedLines, totalBytes. destruct Hnames as [->|[-> Hnone]].
    - rewrite map_app, concat_app, total_app. cbn. rewrite app_nil_r. by rewrite Z.add_0_r.
    - assert (Hz : linesOf files name = [] /\ sizeOf files name = 0) by (unfold linesOf, sizeOf; by rewrite Hnone).
      destruct Hz as [-> ->]. rewrite app_nil_r. split; [done|lia]. }
  destruct Hrec as [Hlines Htotal]. split; [|split; [|split]].
  - unfold recordedLines at 1. rewrite Hnew, map_app, concat_app, Hinit, Hlines. cbn. by rewrite Hname, app_nil_r, <- app_assoc.
  - unfold totalBytes at 1. rewrite Hnew, total_app, Htotal. cbn. rewrite Hbytes, (total_ext _ _ _ Hsize). lia.
  - intros (Hcomplete & Hlen & Hfits) Hnext n c. unfold extended. destruct (decide (n = name)) as [->|Hne].
    + rewrite lookup_insert_eq. intros [= <-] _. destruct Htarget as [Hseg Hwhere]. split; [done|]. unfold tidySegment.
      rewrite Hsplit. cbn [fst snd]. split; [done|]. rewrite len_app. unfold linesOf.
      destruct (files !! name) as [c|] eqn:Hc.
      * change (default "" (Some c)) with c. destruct (Ht _ _ Hc (isSegmentOf_name _ Hseg)) as (_ & _ & Hc2 & Hc3). split; [|by apply Forall_app].
        destruct Hwhere as [[_ Hs]|[Hnone _]]; [|by rewrite Hnone in Hc]. unfold sizeOf in Hs. rewrite Hc in Hs. change (default "" (Some c)) with c in Hs. lia.
      * change (default "" None) with "". split; [change (len "") with 0; lia|done].
    + rewrite lookup_insert_ne by done. apply Ht.
  - exists init. split; [done|]. rewrite Hinit, Hlines, length_app. lia.
Qed.

(** ** Appending *)

Lemma syscall_runs call w (Q : JournalDir -> failure + () -> Prop) :
  (forall w' f, jdFiles w' = jdFiles w -> Q w' (inl f)) -> (forall w', jdFiles w' = jdFiles w -> Q w' (inr ())) -> runs (syscall call) w Q.
Proof. intros H1 H2. unfold runs, syscall. destruct (jdFaults w) as [|[n|] rest]; [by apply H2|by apply H1|by apply H2]. Qed.
Lemma read_runs {A} (f : JournalDir -> A) w (Q : JournalDir -> failure + A -> Prop) : Q w (inr (f w)) -> runs (read f) w Q.
Proof. done. Qed.
Lemma segmentPaths_runs w (Q : JournalDir -> failure + list string -> Prop) :
  (forall w' f, jdFiles w' = jdFiles w -> Q w' (inl f)) ->
  (forall w', jdFiles w' = jdFiles w -> Q w' (inr (segmentNames (jdFiles w)))) -> runs segmentPaths w Q.
Proof. intros H1 H2. apply runs_bind, syscall_runs; [done|]. intros w' Hw. apply read_runs. rewrite Hw. by apply H2. Qed.
Lemma stat_runs name w (Q : JournalDir -> failure + Z -> Prop) :
  (forall w' f, jdFiles w' = jdFiles w -> Q w' (inl f)) ->
  (forall w', jdFiles w' = jdFiles w -> Q w' (inr (sizeOf (jdFiles w) name))) -> runs (stat name) w Q.
Proof. intros H1 H2. apply runs_bind, syscall_runs; [done|]. intros w' Hw. apply read_runs. rewrite Hw. by apply H2. Qed.
Lemma statAll_runs names : forall w (Q : JournalDir -> failure + list (string * Z) -> Prop),
  (forall w' f, jdFiles w' = jdFiles w -> Q w' (inl f)) ->
  (forall w', jdFiles w' = jdFiles w -> Q w' (inr (map (fun name => (name, sizeOf (jdFiles w) name)) names))) -> runs (statAll names) w Q.
Proof.
  induction names as [|name names IH]; intros w Q H1 H2; cbn [statAll]; [by apply H2|].
  apply runs_bind, stat_runs; [done|]. intros w1 Hw1. apply runs_bind, IH; [intros; apply H1; congruence|].
  intros w2 Hw2. specialize (H2 w2 ltac:(congruence)). rewrite <- Hw1 in H2 |- *. exact H2.
Qed.

Section Appending.
Context (j : Journal).

(** The number of segments stays below a million. *)
Definition roomy (files : gmap string string) : Prop := nextSegmentNumber (segmentNames files) < 10 ^ 6.
Lemma newSegment_target files next : tidy j files -> roomy files ->
  isTarget j files next (journalSegment (nextSegmentNumber (segmentNames files))).
Proof.
  intros Ht Hroom. pose proof (tidy_names _ _ Ht) as Hnames. destruct (nextSegmentNumber_max _ Hnames) as (Hless & Hpos & _).
  set (n := nextSegmentNumber (segmentNames files)) in *. unfold roomy in Hroom. split; [by exists n|]. right. split.
  - destruct (files !! journalSegment n) as [c|] eqn:Hc; [|done]. exfalso. rewrite Forall_forall in Hless.
    assert (Hin : journalSegment n ∈ segmentNames files) by (apply segmentNames_in; split; [apply journalSegment_is|by eexists]).
    specialize (Hless _ Hin). rewrite journalSegment_number in Hless; lia.
  - rewrite Forall_forall in *. intros name Hin. specialize (Hless _ Hin). destruct (Hnames _ Hin) as (k & Hk & ->).
    rewrite journalSegment_number in Hless by done. apply journalSegment_le; lia.
Qed.
Lemma activeSegment_runs next w (Q : JournalDir -> failure + string -> Prop) : tidy j (jdFiles w) -> roomy (jdFiles w) ->
  (forall w' f, jdFiles w' = jdFiles w -> Q w' (inl f)) ->
  (forall w' name, jdFiles w' = jdFiles w -> isTarget j (jdFiles w) next name -> Q w' (inr name)) -> runs (activeSegment j next) w Q.
Proof.
  intros Ht Hroom H1 H2. apply runs_bind, segmentPaths_runs; [done|]. intros w1 Hw1.
  destruct (last (segmentNames (jdFiles w))) as [name|] eqn:Hlast; [|apply H2; [done|by apply newSegment_target]].
  apply runs_bind, stat_runs; [intros; apply H1; congruence|]. intros w2 Hw2. apply (H2 w2); [congruence|]. rewrite Hw1.
  destruct (Z.leb_spec (sizeOf (jdFiles w) name + next) (joMaxSegmentBytes j)); [|by apply newSegment_target].
  split; [|by left]. pose proof (tidy_names _ _ Ht) as Hnames. rewrite Forall_forall in Hnames. by apply Hnames, last_Some_elem_of.
Qed.

(** A text that was only begun to be written. *)
Definition begun (data text : string) : Prop := exists n, text = string_take n data.
Lemma extended_nothing files name c : files !! name = Some c -> extended files name "" = files.
Proof. intros Hc. unfold extended. rewrite Hc. cbn. rewrite string_app_nil_r. by apply insert_id. Qed.
Lemma extended_created files name data :
  extended (<[name := default "" (files !! name)]> files) name data = extended files name data.
Proof. unfold extended. rewrite lookup_insert_eq. by rewrite insert_insert_eq. Qed.
Lemma appendTo_runs name data w (Q : JournalDir -> failure + () -> Prop) :
  (forall w' f, jdFiles w' = jdFiles w \/ (exists text, begun data text /\ jdFiles w' = extended (jdFiles w) name text) -> Q w' (inl f)) ->
  (forall w', jdFiles w' = extended (jdFiles w) name data -> Q w' (inr ())) -> runs (appendTo name data) w Q.
Proof.
  intros H1 H2. apply runs_bind, syscall_runs; [intros; apply H1; by left|]. intros w1 Hw1.
  apply runs_bind. unfold runs at 1, update. cbn [fst snd]. set (w2 := withFiles _ w1).
  assert (Hw2 : jdFiles w2 = <[name := default "" (jdFiles w !! name)]> (jdFiles w)) by (cbn; by rewrite Hw1).
  assert (Hempty : jdFiles w2 = extended (jdFiles w) name "") by (rewrite Hw2; unfold extended; by rewrite string_app_nil_r).
  apply runs_bind, syscall_runs.
  { intros w3 f Hw3. apply H1. right. exists "". split; [by exists 0%nat; destruct data|]. congruence. }
  intros w3 Hw3. assert (Hext : forall text, extended (jdFiles w3) name text = extended (jdFiles w) name text).
  { intros text. rewrite Hw3, Hw2. apply extended_created. }
  assert (Hdone : forall w4, jdFiles w4 = extended (jdFiles w3) name data -> runs (syscall "close") w4 Q).
  { intros w4 Hw4. rewrite Hext in Hw4. apply syscall_runs; [|intros w5 Hw5; apply H2; congruence].
    intros w5 f Hw5. apply H1. right. exists data. split; [|congruence]. exists (String.length data).
    by rewrite <- (string_app_nil_r data) at 3; rewrite string_take_app. }
  apply runs_bind. unfold runs at 1, writeTo. destruct (jdFaults w3) as [|[n|] rest]; cbn [fst snd].
  - by apply Hdone.
  - apply H1. right. exists (string_take n data). split; [by exists n|]. apply Hext.
  - by apply Hdone.
Qed.

(** ** Pruning *)

(** Old segments are gone, never the last. *)
Definition pruned (files files' : gmap string string) : Prop :=
  tidy j files' /\
  (exists dropped, recordedLines files' = drop dropped (recordedLines files) /\
     (forall init name, segmentNames files = init ++ [name] -> dropped <= length (concat (map (linesOf files) init)))%nat /\
     (segmentNames files = [] -> dropped = 0%nat)) /\
  (totalBytes files <= joMaxBytes j -> files' = files).
Lemma pruned_same files : tidy j files -> pruned files files.
Proof. intros Ht. split; [done|]. split; [|done]. exists 0%nat. split; [by rewrite drop_0|]. split; [lia|done]. Qed.
Lemma pruned_first files files' name rest : segmentNames files = name :: rest -> rest <> [] -> joMaxBytes j < totalBytes files ->
  pruned (delete name files) files' -> pruned files files'.
Proof.
  intros Hnames Hrest Hmany (Ht & (dropped & Hlines & Hbound & _) & _). split; [done|]. split; [|lia].
  pose proof (segmentNames_first _ _ _ Hnames) as Hdel. pose proof (segmentNames_nodup files) as Hnd. rewrite Hnames in Hnd.
  apply NoDup_cons in Hnd as [Hfresh _].
  assert (Hmap : forall l, name ∉ l -> map (linesOf (delete name files)) l = map (linesOf files) l).
  { intros l Hl. apply map_ext_in. intros n Hin%list_elem_of_In. unfold linesOf. rewrite lookup_delete_ne; [done|]. by intros ->. }
  exists (length (linesOf files name) + dropped)%nat. split; [|split; [|by rewrite Hnames]].
  - rewrite Hlines. unfold recordedLines. rewrite Hdel, Hnames, Hmap by done. cbn. by rewrite <- drop_drop, drop_app_length.
  - intros init last_ Heq. rewrite Hnames in Heq. destruct init as [|n init]; [injection Heq as _ ->; done|].
    injection Heq as <- ->. cbn. rewrite length_app. specialize (Hbound init last_ Hdel). rewrite Hmap in Hbound; [lia|].
    intros Hin. apply Hfresh, elem_of_app. by left.
Qed.
Lemma removeOldest_runs names : forall w (Q : JournalDir -> failure + () -> Prop),
  tidy j (jdFiles w) -> segmentNames (jdFiles w) = names ->
  (forall w' f, pruned (jdFiles w) (jdFiles w') -> Q w' (inl f)) ->
  (forall w', pruned (jdFiles w) (jdFiles w') ->
     totalBytes (jdFiles w') <= joMaxBytes j \/ (length (segmentNames (jdFiles w')) <= 1)%nat -> Q w' (inr ())) ->
  runs (removeOldest j (map (fun name => (name, sizeOf (jdFiles w) name)) names) (totalBytes (jdFiles w))) w Q.
Proof.
  induction names as [|name names IH]; intros w Q Ht Hnames H1 H2; cbn [map removeOldest].
  { apply (H2 w); [by apply pruned_same|right]. rewrite Hnames. cbn. lia. }
  destruct names as [|name' rest] eqn:Hrest; cbn [map].
  { apply (H2 w); [by apply pruned_same|right]. rewrite Hnames. cbn. lia. }
  change ((name', sizeOf (jdFiles w) name') :: map (fun name => (name, sizeOf (jdFiles w) name)) rest)
    with (map (fun name => (name, sizeOf (jdFiles w) name)) (name' :: rest)). rewrite <- Hrest in *.
  destruct (Z.ltb_spec (joMaxBytes j) (totalBytes (jdFiles w))) as [Hmany|Hfew]; [|apply (H2 w); [by apply pruned_same|by left]].
  apply runs_bind, syscall_runs; [intros w1 f Hw1; apply H1; rewrite Hw1; by apply pruned_same|]. intros w1 Hw1.
  apply runs_bind. unfold runs at 1, update. cbn [fst snd]. set (w2 := withFiles _ w1).
  assert (Hw2 : jdFiles w2 = delete name (jdFiles w)) by (cbn; by rewrite Hw1).
  pose proof (segmentNames_first _ _ _ Hnames) as Hdel. pose proof (segmentNames_nodup (jdFiles w)) as Hnd. rewrite Hnames in Hnd.
  apply NoDup_cons in Hnd as [Hfresh _].
  assert (Hsize : Forall (fun n => sizeOf (jdFiles w) n = sizeOf (jdFiles w2) n) names).
  { apply Forall_forall. intros n Hin. rewrite Hw2. unfold sizeOf. rewrite lookup_delete_ne; [done|]. by intros ->. }
  assert (Hsegs : map (fun n => (n, sizeOf (jdFiles w) n)) names = map (fun n => (n, sizeOf (jdFiles w2) n)) names).
  { apply map_ext_in. intros n Hin%list_elem_of_In. rewrite Forall_forall in Hsize. by rewrite (Hsize _ Hin). }
  assert (Htotal : totalBytes (jdFiles w) - sizeOf (jdFiles w) name = totalBytes (jdFiles w2)).
  { unfold totalBytes. rewrite Hnames, Hw2, Hdel, <- Hw2. rewrite <- (total_ext _ _ _ Hsize). cbn [foldr]. lia. }
  assert (Hfirst : forall files', pruned (jdFiles w2) files' -> pruned (jdFiles w) files').
  { intros files'. rewrite Hw2. apply (pruned_first _ _ _ names); [done|by rewrite Hrest|done]. }
  rewrite Hsegs, Htotal. apply IH.
  - rewrite Hw2. intros n c Hc. apply lookup_delete_Some in Hc as [_ Hc]. by apply Ht.
  - by rewrite Hw2.
  - intros w3 f Hp. by apply H1, Hfirst.
  - intros w3 Hp Hq. apply H2; [by apply Hfirst|done].
Qed.
Lemma prune_runs w (Q : JournalDir -> failure + () -> Prop) : tidy j (jdFiles w) ->
  (forall w' f, pruned (jdFiles w) (jdFiles w') -> Q w' (inl f)) ->
  (forall w', pruned (jdFiles w) (jdFiles w') ->
     totalBytes (jdFiles w') <= joMaxBytes j \/ (length (segmentNames (jdFiles w')) <= 1)%nat -> Q w' (inr ())) ->
  runs (prune j) w Q.
Proof.
  intros Ht H1 H2. apply runs_bind, segmentPaths_runs; [intros w1 f Hw1; apply H1; rewrite Hw1; by apply pruned_same|].
  intros w1 Hw1. apply runs_bind, statAll_runs; [intros w2 f Hw2; apply H1; rewrite Hw2, Hw1; by apply pruned_same|].
  intros w2 Hw2. assert (Hw : jdFiles w2 = jdFiles w) by congruence.
  replace (foldr _ 0 (map _ (segmentNames (jdFiles w)))) with (totalBytes (jdFiles w2)).
  - rewrite Hw1, <- Hw. apply removeOldest_runs; rewrite ?Hw; done.
  - unfold totalBytes. rewrite Hw, Hw1. induction (segmentNames (jdFiles w)) as [|n l IH]; [done|]. cbn. by rewrite IH.
Qed.
End Appending.

(** ** Reading what is recorded *)

Section Window.
Context (j : Journal) `{JSON JournalEvent} {clean : JournalEvent -> JournalEvent} `{!JSONLaws JournalEvent clean}.

Lemma journalRecords_tidy content : tidySegment j content -> journalRecords content = (splitLines content).1.
Proof.
  intros (Hrest & _ & Hfits). unfold journalRecords. destruct (splitLines content) as [ls rest]. cbn in *. subst rest.
  rewrite bool_decide_true, app_nil_r by done. induction Hfits as [|l ls Hl Hls IH]; [done|]. cbn. rewrite (proj2 (Z.ltb_lt _ _)) by done.
  by rewrite IH.
Qed.
Lemma readSegments_tidy workspaceID names : forall w, jdFaults w = [] -> tidy j (jdFiles w) ->
  Forall (fun name => name ∈ segmentNames (jdFiles w)) names ->
  (readSegments id workspaceID names w).2 = inr (omap (decodeEvent workspaceID) (concat (map (linesOf (jdFiles w)) names))).
Proof.
  intros w Hfaults Ht. destruct w as [files faults times]. cbn in *. subst faults.
  induction names as [|name names IH]; intros Hin; [done|]. apply Forall_cons in Hin as [Hname Hin]. specialize (IH Hin).
  cbn [readSegments map concat]. rewrite omap_app. unfold bindGo, update, readJournalSegment, syscall, read in *. cbn in *.
  destruct (readSegments id workspaceID names _) as [w' r]. cbn in *. subst r. cbn. f_equal. f_equal.
  apply segmentNames_in in Hname as [Hseg [c Hc]]. unfold linesOf. rewrite Hc. cbn. rewrite journalRecords_tidy; [done|]. by apply (Ht name c).
Qed.
Lemma JournalRead_tidy workspaceID limit w : jdFaults w = [] -> tidy j (jdFiles w) ->
  (JournalRead id workspaceID limit w).2 = inr (recentEvents (omap (decodeEvent workspaceID) (recordedLines (jdFiles w))) limit).
Proof.
  intros Hfaults Ht. pose proof (readSegments_tidy workspaceID (segmentNames (jdFiles w)) w Hfaults Ht) as Hread.
  unfold JournalRead, segmentPaths, bindGo, syscall, read. rewrite Hfaults. cbn.
  destruct (readSegments id workspaceID (segmentNames (jdFiles w)) w) as [w' r]. cbn in *. rewrite Hread; [done|].
  by apply Forall_forall.
Qed.

(** What an append did to a journal whose next record is [text]. *)
Definition appended (files files' : gmap string string) (text : string) (succeeded : bool) : Prop :=
  exists written dropped, recordedLines files' = drop dropped (recordedLines files ++ written) /\
    (dropped <= length (recordedLines files))%nat /\ (written = [] \/ written = [text]) /\
    (dropped <> 0%nat -> joMaxBytes j < totalBytes files + len text + 1) /\
    (tidy j files' \/ (succeeded = false /\ exists name part, begun (text +:+ nl) part /\ files' = extended files name part)) /\
    (succeeded = true -> written = [text] /\ tidy j files' /\ (totalBytes files' <= joMaxBytes j \/ (length (segmentNames files') <= 1)%nat)).
Lemma appended_nothing files text : tidy j files -> appended files files text false.
Proof.
  intros Ht. exists [], 0%nat. rewrite drop_0, app_nil_r. split; [done|]. split; [lia|]. split; [by left|]. split; [done|]. split; [by left|done].
Qed.
Lemma begun_lines text part : splitLines text = ([], text) -> begun (text +:+ nl) part ->
  (splitLines part).1 = [] \/ (splitLines part).1 = [text].
Proof.
  intros Hline (n & ->). destruct (decide (n <= String.length text)%nat) as [Hle|Hgt].
  - left. rewrite string_take_app_le by done. by rewrite (splitLines_take _ _ Hline).
  - right. rewrite string_take_all; [by rewrite splitLines_line|]. rewrite string_length_app. cbn. lia.
Qed.
Lemma appended_pruned files name text files' succeeded : tidy j files -> isTarget j files (len (text +:+ nl)) name ->
  splitLines text = ([], text) -> len (text +:+ nl) <= recordLimit j ->
  pruned j (extended files name (text +:+ nl)) files' ->
  (succeeded = true -> totalBytes files' <= joMaxBytes j \/ (length (segmentNames files') <= 1)%nat) ->
  appended files files' text succeeded.
Proof.
  intros Ht Htarget Hline Hlimit (Ht' & (dropped & Hlines & Hbound & _) & Hfew) Hend.
  destruct (extended_spec j _ _ _ (text +:+ nl) Ht Htarget) as (Hext & Htotal & _ & init & Hinit & Hlast).
  rewrite (splitLines_line _ Hline) in Hext. cbn [fst] in Hext. exists [text], (if decide (files' = extended files name (text +:+ nl)) then 0%nat else dropped).
  assert (Hn : (dropped <= length (recordedLines files))%nat) by (specialize (Hbound _ _ Hinit); lia). split; [|split; [|split; [by right|split; [|split; [by left|]]]]].
  - rewrite <- Hext. case_decide as He; [by rewrite He, drop_0|done].
  - case_decide; [lia|done].
  - case_decide as He; [done|]. intros _. rewrite len_app in Htotal. change (len nl) with 1 in Htotal.
    destruct (Z.leb_spec (totalBytes files + len text + 1) (joMaxBytes j)); [|done]. exfalso. apply He, Hfew. lia.
  - intros Hs. split; [done|]. split; [done|by apply Hend].
Qed.
Lemma journalAppendLocked_runs text w : tidy j (jdFiles w) -> roomy (jdFiles w) -> splitLines text = ([], text) ->
  len (text +:+ nl) <= recordLimit j ->
  runs (journalAppendLocked j (text +:+ nl)) w (fun w' r => appended (jdFiles w) (jdFiles w') text (isDone r)).
Proof.
  intros Ht Hroom Hline Hlimit. assert (Hlen : len text + 1 <= joMaxSegmentBytes j /\ len text < journalRecordBytes).
  { unfold recordLimit in Hlimit. rewrite len_app in Hlimit. change (len nl) with 1 in Hlimit. lia. }
  apply runs_bind, (activeSegment_runs j); [done|done|intros w1 f ->; by apply appended_nothing|]. intros w1 name Hw1 Htarget.
  apply runs_bind, appendTo_runs.
  - intros w2 f [->|(part & Hpart & ->)]; rewrite Hw1; [by apply appended_nothing|].
    destruct (extended_spec j _ _ _ part Ht Htarget) as (Hext & _ & _ & _).
    exists (splitLines part).1, 0%nat. rewrite drop_0. split; [done|]. split; [lia|]. split; [by eapply begun_lines|]. split; [done|].
    split; [right; split; [done|]; by exists name, part|done].
  - intros w2 Hw2. rewrite Hw1 in Hw2. destruct (extended_spec j _ _ _ (text +:+ nl) Ht Htarget) as (_ & _ & Htidy & _).
    assert (Htidy2 : tidy j (jdFiles w2)).
    { rewrite Hw2. apply Htidy; [|lia]. unfold tidySegment. rewrite (splitLines_line _ Hline). cbn [fst snd]. split; [done|].
      rewrite len_app. change (len nl) with 1. split; [lia|]. constructor; [lia|constructor]. }
    apply prune_runs; [done| |]; rewrite Hw2.
    + intros w3 f Hp. by eapply appended_pruned.
    + intros w3 Hp Hend. by eapply appended_pruned.
Qed.

(** C40: The journal is a window of what was appended, as long as its files are
    tidy: they have the names the journal gives, below a million of them, and hold
    whole lines that fit.  Whatever system calls fail, an append to such a journal
    adds its record at the end or nothing, only records from the beginning go, and
    only when the journal would be too long; and the files stay tidy unless the
    append fails and its write reached a file in part.  (That is not repaired: the
    record of the next append stands behind the part and is never read, as in the
    example [lost_append].)  An append that succeeds has added the record, unless it
    is too long for one, and leaves the files, but for the last segment, within the
    bound; reading them gives the last of the records that decode, in order. *)
Theorem JournalAppend_window workspaceID e w :
  tidy j (jdFiles w) -> roomy (jdFiles w) ->
  let '(w', r) := JournalAppend j workspaceID e w in
  let text := Marshal (journalEvent j (default 0 (head (jdTimes w))) workspaceID e) in
  (jdFiles w' = jdFiles w /\ (isDone r = true -> exists t, text = Some t /\ recordLimit j < len t + 1)) \/
  exists t, text = Some t /\ appended (jdFiles w) (jdFiles w') t (isDone r) /\
    (isDone r = true -> forall reader limit w'', jdFiles w'' = jdFiles w' -> jdFaults w'' = [] ->
       (JournalRead id reader limit w'').2 = inr (recentEvents (omap (decodeEvent reader) (recordedLines (jdFiles w'))) limit)).
Proof.
  intros Ht Hroom. set (event := journalEvent j _ workspaceID e).
  assert (Hgoal : runs (JournalAppend j workspaceID e) w (fun w' r =>
    (jdFiles w' = jdFiles w /\ (isDone r = true -> exists t, Marshal event = Some t /\ recordLimit j < len t + 1)) \/
    exists t, Marshal event = Some t /\ appended (jdFiles w) (jdFiles w') t (isDone r))).
  { unfold JournalAppend. apply runs_bind. unfold runs at 1, journalNow. cbn [fst snd]. fold event. set (w1 := mkJournalDir _ _ _).
    destruct (Marshal event) as [text|] eqn:Hm; [|by left]. destruct (Z.ltb_spec (recordLimit j) (len (text +:+ nl))) as [Hlong|Hfits].
    - left. split; [done|]. intros _. exists text. split; [done|]. rewrite len_app in Hlong. by change (len nl) with 1 in Hlong.
    - apply runs_bind, syscall_runs; [intros w2 f Hw2; by left|]. intros w2 Hw2. change (jdFiles w1) with (jdFiles w) in Hw2.
      eapply runs_mono; [apply (journalAppendLocked_runs text); rewrite ?Hw2; try done; by apply (marshal_one_line event)|].
      intros w3 r Ha. rewrite Hw2 in Ha. right. by exists text. }
  unfold runs in Hgoal. destruct (JournalAppend j workspaceID e w) as [w' r]. cbn [fst snd] in Hgoal.
  destruct Hgoal as [?|(t & Hm & Ha)]; [by left|]. right. exists t. split; [done|]. split; [done|].
  intros Hr reader limit w'' Hfiles Hfaults. rewrite Hr in Ha. destruct Ha as (written & dropped & _ & _ & _ & _ & _ & Hend).
  destruct (Hend eq_refl) as (_ & Htidy & _). rewrite <- Hfiles in Htidy |- *. by apply JournalRead_tidy.
Qed.
End Window.

(** ** Reports of an operation *)

(** A callback that only adds reports. *)
Definition adds (fn : Callback) : Prop := forall id p, exists more, pgReported (fn id p).1 = pgReported p ++ more.
(** An operation is reported as started and, whether its callback returns or
    panics, as ended, with the reports of the callback in between. *)
Lemma Run_reports parent op fn p : adds fn ->
  let '(p', e) := Run parent memoryReporter op fn p in
  exists id started inner ended, pgReported p' = pgReported p ++ [started] ++ inner ++ [ended] /\
    evOperationID started = id /\ evOperationID ended = id /\ evState started = StateStarted /\
    evState ended = match e with Returned None => StateSucceeded | _ => StateFailed end /\
    (evError ended = None <-> e = Returned None).
Proof.
  intros Hadds. unfold Run. set (sequence := u64 _). set (id := "op-" +:+ Itoa sequence). unfold tick at 1.
  set (p2 := reported _ _). destruct (fn id _) as [p3 e] eqn:Hfn. unfold tick.
  match type of Hfn with fn id ?q = _ => destruct (Hadds id q) as [inner Hinner] end. rewrite Hfn in Hinner. cbn [fst] in Hinner.
  assert (Hp3 : exists started, evOperationID started = id /\ evState started = StateStarted /\ pgReported p3 = pgReported p ++ [started] ++ inner).
  { eexists. rewrite Hinner. split; [|split]; [| |cbn; rewrite <- app_assoc; reflexivity]; done. }
  destruct Hp3 as (started & Hid & Hst & Hp3).
  destruct e as [[error|]|value]; eexists id, started, inner, _; cbn [reported pgReported memoryReporter];
    (split; [unfold reported, memoryReporter; cbn [pgReported]; rewrite Hp3; cbn; rewrite <- !app_assoc; reflexivity|]);
    (split; [exact Hid|]); (split; [done|]); (split; [exact Hst|]); (split; [done|]); done.
Qed.

(** ** A concrete journal *)

Module JournalSample.
#[local] Instance ErrorInfo_eq_dec : EqDecision ErrorInfo.
Proof. solve_decision. Defined.
#[local] Instance JournalEvent_eq_dec : EqDecision JournalEvent.
Proof. solve_decision. Defined.

Definition small : Journal := NewJournal 15 12 [].
Definition step (name : string) : Event := mkEvent "provider" "op-1" "" "running_init" name StateStarted 2500000 None.
Definition at_ (time : Z) (name : string) : JournalEvent := journalEvent small time "ws" (step name).
Definition eventTable : list (string * JournalEvent) := [("first", at_ 1 "a"); ("second", at_ 2 "b"); ("third", at_ 3 "c")].
(** An encoding that knows these events. *)
#[export] Instance sampleJSON : JSON JournalEvent := mkJSON
  (fun e => option_map fst (List.find (fun x => bool_decide (x.2 = e)) eventTable))
  (fun s => option_map snd (List.find (fun x => bool_decide (x.1 = s)) eventTable)).
#[export] Instance sampleJSON_laws : JSONLaws JournalEvent id.
Proof.
  assert (Hgood : forall x, x ∈ eventTable -> Unmarshal x.1 = Some x.2 /\ splitLines x.1 = ([], x.1) /\ TrimSpace x.1 = x.1 /\ x.1 <> "" /\
            Marshal x.2 = Some x.1).
  { intros x Hx. repeat (apply elem_of_cons in Hx as [->|Hx]; [repeat split; vm_compute; congruence|]). by apply elem_of_nil in Hx. }
  assert (Hm : forall e s, Marshal e = Some s -> (s, e) ∈ eventTable).
  { intros e s. unfold Marshal, sampleJSON. destruct (List.find _ eventTable) as [[t x]|] eqn:Hf; [|done]. intros [= <-].
    apply List.find_some in Hf as [Hin He]. apply bool_decide_eq_true in He. cbn in He. subst x. by apply list_elem_of_In. }
  split.
  - intros e s He. by apply (Hgood (s, e)), Hm.
  - intros e s He. by apply (Hgood (s, e)), Hm.
  - intros e s He. by apply (Hgood (s, e)), Hm.
  - intros e s He. by apply (Hgood (s, e)), Hm.
  - intros s e. unfold Unmarshal, sampleJSON at 1. destruct (List.find _ eventTable) as [[t x]|] eqn:Hf; [|done]. intros [= <-].
    apply List.find_some in Hf as [Hin _]. apply list_elem_of_In in Hin. destruct (Hgood _ Hin) as (_ & _ & _ & _ & Hm'). by eexists.
Qed.

Definition empty (faults : list (option nat)) : JournalDir := mkJournalDir ∅ faults [1; 2; 3].
Definition appendAll (w : JournalDir) : JournalDir :=
  (JournalAppend small "ws" (step "c") (JournalAppend small "ws" (step "b") (JournalAppend small "ws" (step "a") w).1).1).1.
Definition steps (w : JournalDir) : failure + list string :=
  match (JournalRead id "ws" 0 w).2 with inl f => inl f | inr events => inr (map jeStep events) end.
(** One record fits in a segment, and two segments in the journal. *)
Example window_moves :
  let w := appendAll (empty []) in
  (segmentNames (jdFiles w), steps w) = (["events-000002.ndjson"; "events-000003.ndjson"], inr ["b"; "c"]).
Proof. vm_compute. reflexivity. Qed.
(** The first write reaches the file in part.  The next append succeeds, but its
    record stands behind the part and is never read. *)
Example lost_append :
  let w1 := (JournalAppend small "ws" (step "a") (empty [None; None; None; None; Some 2%nat])).1 in
  let '(w2, r) := JournalAppend small "ws" (step "b") w1 in
  (jdFiles w2 !! "events-000001.ndjson", isDone r, steps w2) = (Some ("fisecond" +:+ nl), true, inr []).
Proof. vm_compute. reflexivity. Qed.
Example latest :
  (Last id "ws" (appendAll (empty []))).2 = inr (Some (at_ 3 "c")).
Proof. vm_compute. reflexivity. Qed.
Example nested_operations :
  let inner := fun id p => Run id memoryReporter (mkOperation "provider" "running_init" "b") (fun _ p => (p, Panicked "oops")) p in
  let p := (Run "" (ForPipeline memoryReporter "workspace_up") (mkOperation "" "ready" "a") inner (mkProgress 0 [] [])).1 in
  map (fun e => (evOperationID e, evParentOperationID e, evState e)) (pgReported p) =
    [("op-1", "", "started"); ("op-2", "op-1", "started"); ("op-2", "op-1", "failed"); ("op-1", "", "failed")].
Proof. vm_compute. reflexivity. Qed.

Lemma JournalAppend_window_witness :
  let '(w', r) := JournalAppend small "ws" (step "b") (appendAll (mkJournalDir ∅ [] [1; 4; 5; 2])) in
  isDone r = true /\ exists reader, (JournalRead id reader 0 w').2 = inr [at_ 1 "a"; at_ 2 "b"].
Proof.
  set (w := appendAll _). assert (Ht : tidy small (jdFiles w)).
  { intros name content Hc. vm_compute in Hc. revert Hc.
    change (<["events-000001.ndjson" := "first" +:+ nl]> (∅ : gmap string string) !! name = Some content ->
            isJournalSegment name = true -> isSegmentOf name /\ tidySegment small content).
    rewrite lookup_insert_Some, lookup_empty. intros [[<- <-]|[_ ?]]; [|done]. intros _. split; [by exists 1|].
    split; [vm_compute; reflexivity|]. split; [vm_compute; discriminate|]. vm_compute. constructor; [reflexivity|constructor]. }
  assert (Hroom : roomy (jdFiles w)) by (vm_compute; reflexivity).
  pose proof (JournalAppend_window small "ws" (step "b") w Ht Hroom) as Hwin.
  destruct (JournalAppend small "ws" (step "b") w) as [w' r] eqn:He. vm_compute in He. injection He as <- <-. split; [reflexivity|].
  destruct Hwin as [[_ Hlong]|(t & _ & _ & Hread)].
  - exfalso. destruct (Hlong eq_refl) as (t & Ht' & Hlt). vm_compute in Ht'. injection Ht' as <-. vm_compute in Hlt. discriminate.
  - exists "ws". rewrite (Hread eq_refl "ws" 0 _ eq_refl eq_refl). vm_compute. reflexivity.
Defined.
End JournalSample.
