(* ===== verification/LogExamples.v ===== *)
(** Concrete runs of the workspace log store: a fresh store, a run with one
    producer, a run of two records read page by page, and the instances of the
    theorems on logs and on reading at them; a recorder and a writer, the import of
    a remote page, and the failed invocations of a run. *)
From S2P Require Import Prelude GoStd GoText Redact LogTypes LogManifest LogFS LogStore LogSegment LogDisk LogDurable LogCodec LogSystem LogCursor LogRetention LogReader LogPaging.
From S2P Require Import RedactMask RedactStream LogRecorder LogRecorded LogImport LogFailed.

#[export] Instance recordJSON : JSON LogRecord := binJSON cleanRecord.
#[export] Instance recordJSON_laws : JSONLaws LogRecord cleanRecord := binJSON_laws cleanRecord.
#[export] Instance manifestJSON : JSON RunManifest := binJSON cleanManifest.
#[export] Instance fixedIDs : IDSource := fun _ => "00000000-0000-0000-0000-000000000000".

Definition run1 := "11111111-2222-3333-4444-555555555555".
Definition producer1 := "aaaaaaaa-2222-3333-4444-555555555555".
Definition invocation1 := "bbbbbbbb-2222-3333-4444-555555555555".
Definition spec1 := mkRunSpec run1 "default" "" "" "up" "".

(** The producer introduces itself, then writes one line of output. *)
Definition running1 : LogRecord :=
  mkRecord 1 KindProducer run1 producer1 1 7 "" "" ProducerRunning false "" "" "" None "" "" "" ""
           None None "" "" "" 0 false "" "" 0.
Definition output1 : LogRecord :=
  mkRecord 1 KindOutput run1 producer1 2 8 "" "" "" false invocation1 "" "" None "" "" "" ""
           None None "" StreamStdout "hello" 0 false "" "" 0.
Definition batch1 := [running1; output1].

(** Files as a new installation has them; the schedule of failures is a
    parameter. *)
Definition freshWorld (faults : list fault) : World := mkWorld {[ [] := Dir ]} ∅ faults 5 [1; 2] 0.
Definition runWorld : World := (CreateRun spec1 (freshWorld [])).1.

Lemma freshWorld_storeOK faults : storeOK (freshWorld faults) run1 producer1.
Proof. destruct (emptySys_ok run1 producer1) as [Hl _]. split; [exact Hl|apply cacheAt_empty]. Qed.
Lemma runWorld_storeOK : storeOK runWorld run1 producer1.
Proof.
  eapply quiet_storeOK; [apply harmless_CreateRun|apply freshWorld_storeOK].
Qed.
Lemma batch1_typed : Forall typedRecord batch1.
Proof. repeat constructor; cbn; lia. Qed.

Lemma eta3 {A B C} (x : A * (B * C)) : x = (x.1, (x.2.1, x.2.2)).
Proof. by destruct x as [? [? ?]]. Qed.
Lemma eta4 {A B C D} (x : A * (B * C * D)) : x = (x.1, (x.2.1.1, x.2.1.2, x.2.2)).
Proof. by destruct x as [? [[? ?] ?]]. Qed.

(** ** Appending *)

(** The world after [prepareProducer], with a torn write scheduled at the second
    record: the third system call from the end of the first write. *)
Definition preparedWorld : World := (prepareProducer running1 runWorld).1.
Definition tornWorld : World :=
  mkWorld (wFS preparedWorld) (wTails preparedWorld)
    [NoFault; NoFault; NoFault; NoFault; Fault 10] 9 [] 0.
Lemma tornWorld_storeOK : storeOK tornWorld run1 producer1.
Proof.
  assert (H : storeOK preparedWorld run1 producer1)
    by (eapply quiet_storeOK; [apply harmless_prepareProducer|apply runWorld_storeOK]).
  exact H.
Qed.

Definition tornRun := LogSegment.appendLocked (producerPath run1 producer1) batch1 tornWorld.

Lemma appendLocked_durable_witness :
  tornRun.2.1.1 = mkAppend 1 1 0 0 /\ is_Some tornRun.2.2 /\
  extendedBy tornWorld tornRun.1 run1 producer1 batch1 tornRun.2.1.2.
Proof.
  split; [vm_compute; reflexivity|]. split; [vm_compute; eauto|].
  assert (Hv : validateBatch batch1 = None) by (vm_compute; reflexivity).
  refine (proj1 (appendLocked_durable tornWorld running1 [output1] Hv batch1_typed
            tornWorld_storeOK tornRun.1 tornRun.2.1.1 tornRun.2.1.2 tornRun.2.2 _)).
  exact (eta4 tornRun).
Defined.

Definition appendRun := Append batch1 runWorld.

Lemma Append_durable_witness :
  appendRun.2 = (mkAppend 2 2 0 0, None) /\
  accounted runWorld appendRun.1 running1 [output1] (mkAppend 2 2 0 0) None.
Proof.
  assert (He : appendRun.2 = (mkAppend 2 2 0 0, None)) by (vm_compute; reflexivity).
  split; [exact He|].
  apply (Append_durable runWorld running1 [output1] batch1_typed runWorld_storeOK appendRun.1).
  rewrite <- He. exact (surjective_pairing appendRun).
Defined.

(** ** Several processes *)

Definition sys1 : Sys := after emptySys 0 runWorld.
Definition sys2 : Sys := after sys1 0 preparedWorld.
Definition sys3 : Sys := after sys2 0 tornRun.1.
Definition sys4 : Sys := mkSys (sysFS sys3) (delete 0%nat (sysTails sys3)).

Lemma step1 : sysStep emptySys sys1.
Proof.
  refine (step_other emptySys 0 (freshWorld []) (CreateRun spec1) _ _).
  - split; reflexivity.
  - apply harmless_CreateRun.
Qed.
Lemma step2 : sysStep sys1 sys2.
Proof.
  refine (step_other sys1 0 runWorld (prepareProducer running1) _ _).
  - exact (runsIn_after emptySys 0 runWorld).
  - apply harmless_prepareProducer.
Qed.
Lemma tornWorld_runsIn : runsIn sys2 0 tornWorld.
Proof.
  destruct (runsIn_after sys1 0 preparedWorld) as [Hf Ht]. split; [exact Hf|exact Ht].
Qed.
Lemma step3 : sysStep sys2 sys3.
Proof.
  refine (step_append sys2 0 tornWorld running1 [output1] tornWorld_runsIn _ batch1_typed).
  vm_compute. reflexivity.
Qed.

Lemma reach2 : rtc sysStep emptySys sys2.
Proof. exact (rtc_l _ _ _ _ step1 (rtc_once _ _ step2)). Qed.
Lemma reach4 : rtc sysStep sys2 sys4.
Proof. exact (rtc_l _ _ _ _ step3 (rtc_once _ _ (step_crash sys3 0))). Qed.

Lemma logs_survive_interleavings_witness :
  storedLog (sysFS sys4) run1 producer1 = [running1] /\ logsGrow sys2 sys4.
Proof.
  split; [vm_compute; reflexivity|].
  exact (proj1 (logs_survive_interleavings sys2 sys4 reach2 reach4)).
Defined.

(** ** Retention *)

(** A day after the append, and forty days after it. *)
Definition dayNs : Z := 24 * 3600 * 10 ^ 9.
Definition laterWorld (days : Z) : World :=
  mkWorld (wFS appendRun.1) ∅ [] (wClock appendRun.1) [days * dayNs] 0.
Definition manifestPath : path := runPath run1 ++ [manifestName].

Example expired_run_goes : wFS (Prune (laterWorld 40)).1 !! manifestPath = None.
Proof. vm_compute. reflexivity. Qed.

Lemma Prune_spares_active_runs_witness :
  is_Some (wFS (laterWorld 1) !! manifestPath) /\
  wFS (Prune (laterWorld 1)).1 !! manifestPath = wFS (laterWorld 1) !! manifestPath.
Proof.
  split; [vm_compute; eauto|].
  apply (Prune_spares_active_runs (laterWorld 1)).
  - repeat constructor. vm_compute. discriminate.
  - discriminate.
  - intros (name & m & Hm & Hd & [[rest Hp]|[file [Hp _]]]); [|discriminate].
    injection Hp as <- _. vm_compute in Hm. injection Hm as <-.
    destruct Hd as [Hd|Hd]; vm_compute in Hd; discriminate.
Defined.

#[export] Instance cursor_eq_dec : EqDecision cursor.
Proof. solve_decision. Defined.
Definition cursorFields (c : cursor) : list field * list (string * Z) :=
  ([fInt (cVersion c); fStr (cKind c); fStr (cRun c); fStr (cFilter c); fBool (cGaps c);
    fStr (cContext c); fStr (cUID c); fInt (cAt c); fStr (cID c)], map_to_list (cPos c)).
Definition fieldsCursor (x : list field * list (string * Z)) : option cursor :=
  match x with
  | ([inr a; inl b; inl c; inl d; inr e; inl f; inl g; inr h; inl i], l) =>
      Some (mkCursor a b c d (list_to_map l) (gBool e) f g h i)
  | _ => None
  end.
Lemma fields_cursor c : fieldsCursor (cursorFields c) = Some c.
Proof. destruct c as [? ? ? ? ? [] ? ? ? ?]; unfold cursorFields, fieldsCursor; cbn; by rewrite list_to_map_to_list. Qed.
#[export] Instance cursor_countable : Countable cursor :=
  inj_countable cursorFields fieldsCursor fields_cursor.
#[export] Instance cursorJSON : JSON cursor := binJSON cleanCursor.
#[export] Instance cursorJSON_laws : JSONLaws cursor cleanCursor := binJSON_laws cleanCursor.

(** A stand-in for the hash: the selectors of these examples need not differ. *)
#[export] Instance constSHA : SHA256 := fun _ => "0123456789abcdef0123456789abcdef".
#[export] Instance constSHA_laws : SHA256Laws.
Proof. intros s. vm_compute. reflexivity. Qed.

(** The run after [batch1]: two records of one producer. *)
Definition atRest (w : World) : World := mkWorld (wFS w) ∅ [] 100 [] 0.
Lemma atRest_fs w : wFS (atRest w) = wFS w.
Proof. reflexivity. Qed.
Definition filledWorld : World := atRest appendRun.1.
Definition manifest1 : RunManifest :=
  default (newManifest spec1 0 false) (storedManifest (wFS filledWorld) (runPath run1)).
Definition flags1 : setupLogsFlags := mkSetupFlags "setup" false run1 "" "" false "" 1.
Definition filter1 : filter := mkFilter false (filterHash [""; ""]) ∅.

Lemma Append_keeps_log `{JSONLaws LogRecord (clean := cleanRecord)} `{JSON RunManifest} `{IDSource}
    w first rest :
  Forall typedRecord (first :: rest) -> storeOK w (rRunID first) (rProducerID first) ->
  logOK (wFS (Append (first :: rest) w).1) (rRunID first) (rProducerID first).
Proof.
  intros Ht Hok. destruct (Append_wp w first rest Ht Hok) as (applied & Hext & _).
  apply (ext_ok _ _ _ _ _ _ Hext).
Qed.
Lemma filled_log : logOK (wFS filledWorld) run1 producer1.
Proof.
  pose proof (Append_keeps_log runWorld running1 [output1] batch1_typed runWorld_storeOK) as Hl.
  unfold filledWorld. rewrite atRest_fs. exact Hl.
Qed.
(** A run of one producer. *)
Lemma one_producer_served w m :
  storedManifest (wFS w) (runPath run1) = Some m -> mRunID m = run1 -> pProducerID <$> mProducers m = [producer1] ->
  logOK (wFS w) run1 producer1 -> wFS w !! producerPath run1 producer1 = Some Dir ->
  Z.of_nat (length (storedLog (wFS w) run1 producer1)) + 1 < 2 ^ 64 -> served (wFS w) run1 m.
Proof.
  intros Hm Hrun Hps Hlog Hdir Hsmall.
  assert (Href : forall ref, ref ∈ mProducers m -> pProducerID ref = producer1).
  { intros ref Hin%(list_elem_of_fmap_2 pProducerID). rewrite Hps in Hin. by apply list_elem_of_singleton in Hin. }
  split; [done|done|]. split.
  - vm_compute. reflexivity.
  - rewrite Hps. apply NoDup_singleton.
  - intros ref ->%Href. vm_compute. reflexivity.
  - intros ref Hin. rewrite (Href _ Hin). split; [done|]. by right.
  - intros ref Hin. unfold logOf. by rewrite (Href _ Hin).
Qed.
Lemma filled_producers : pProducerID <$> mProducers manifest1 = [producer1].
Proof. vm_compute. reflexivity. Qed.
Lemma filled_served : served (wFS filledWorld) run1 manifest1.
Proof. apply one_producer_served; try exact filled_log; vm_compute; reflexivity. Qed.
Lemma filled_start : resumable (wFS filledWorld) manifest1 (startCursor cursorRun).
Proof.
  split; [|by intros id [? ?]]. intros ref _. change (posAt _ _) with 0. split; [lia|apply Nat2Z.is_nonneg].
Qed.

Lemma filled_request : served (wFS filledWorld) (qRunID (request flags1 run1 "")) manifest1.
Proof. exact filled_served. Qed.
Lemma filled_filter : filterFor (wFS filledWorld) manifest1 (request flags1 run1 "") = inr filter1.
Proof. vm_compute. reflexivity. Qed.
Lemma filled_limits : readLimits (request flags1 run1 "") = inr (1, MaxPageBytes).
Proof. vm_compute. reflexivity. Qed.
Lemma filled_cursor : startFor (request flags1 run1 "") filter1 = inr (startCursor cursorRun).
Proof. vm_compute. reflexivity. Qed.

Definition recordsOf (r : goerr + ReadResponse) : list LogRecord :=
  match r with inr resp => respRecords resp | inl _ => [] end.
Definition firstPage := (Read (request flags1 run1 "") filledWorld).2.
Lemma firstPage_records : recordsOf firstPage = [running1].
Proof. vm_compute. reflexivity. Qed.

Lemma Read_page_witness :
  exists resp next, firstPage = inr resp /\ respRecords resp = [running1] /\
    pageOf (wFS filledWorld) manifest1 filter1 (startCursor cursorRun) resp next.
Proof.
  pose proof (Read_page filledWorld (request flags1 run1 "") manifest1 filter1
    (startCursor cursorRun) (1, MaxPageBytes) filled_request filled_limits filled_filter
    filled_cursor filled_start) as [_ Hr].
  pose proof firstPage_records as Hrec. fold firstPage in Hr.
  destruct firstPage as [e|resp]; [discriminate|].
  destruct Hr as [next Hr]. exists resp, next. split; [reflexivity|]. split; [exact Hrec|exact Hr].
Defined.

Definition drained := (drain 3 flags1 run1 "" filledWorld).2.
Lemma drained_pages :
  match drained with Some (inr (pages, _)) => length pages | _ => 0%nat end = 2%nat.
Proof. vm_compute. reflexivity. Qed.
Lemma filled_unread :
  unread (wFS filledWorld) (mRunID manifest1) filter1 (posAt (startCursor cursorRun)) (mProducers manifest1)
    = [running1; setBytes 5 output1].
Proof. vm_compute. reflexivity. Qed.
Lemma filled_fuel :
  (length (unread (wFS filledWorld) (mRunID manifest1) filter1 (posAt (startCursor cursorRun))
     (mProducers manifest1)) < 3)%nat.
Proof. rewrite filled_unread. cbn. lia. Qed.

Lemma drain_complete_witness :
  exists pages tok, drained = Some (inr (pages, tok)) /\
    concat (map respRecords pages) = [running1; setBytes 5 output1].
Proof.
  pose proof (drain_complete flags1 run1 manifest1 filter1 (1, MaxPageBytes) 3 filledWorld ""
    (startCursor cursorRun) eq_refl filled_served filled_limits filled_filter filled_cursor
    filled_start filled_fuel) as Hr.
  fold drained in Hr. pose proof drained_pages as Hp. destruct Hr as (r & Hr & Hspec).
  rewrite Hr in Hp. destruct r as [e|[pages tok]]; [discriminate|].
  exists pages, tok. split; [exact Hr|]. rewrite (proj1 Hspec). exact filled_unread.
Defined.

Definition cursor1 : cursor :=
  mkCursor SchemaVersion cursorRun run1 "0123" {[ producer1 := 7 ]} false "" "" 0 "".
Lemma cursor_roundtrip_witness :
  exists token, encodeCursor cursor1 = inr token /\ decodeCursor token cursorRun = inr (cleanCursor cursor1).
Proof.
  assert (He : exists token, encodeCursor cursor1 = inr token) by (vm_compute; eauto).
  destruct He as [token He]. exists token. split; [exact He|].
  exact (proj2 (proj2 (cursor_roundtrip cursor1 token eq_refl (or_introl eq_refl) He))).
Defined.

(** ** A recorder *)

Definition recorderOptions1 : RecorderOptions := mkRecorderOptions run1 "" producer1 false "" None.
Definition writer1 : DiagnosticWriter := mkDiagnosticWriter invocation1 StreamStdout (NewStreamingRedactor None) "" false.
Definition failed1 : Invocation :=
  mkInvocation invocation1 "setup" "postCreateCommand" (Some 0) "" InvocationFailed "exit" (Some 1) "" 2000000.
Definition calls1 : list Call := [CSealDiscovery; CRecord writer1 "hello"; CInvocation failed1].

(** The calls one after the other. *)
Fixpoint runCalls (cs : list Call) (r : Recorder) (w : World) : list LogRecord * (World * Recorder) :=
  match cs with
  | [] => ([], (w, r))
  | c :: rest =>
      let out := runCall c r w in
      let next := runCalls rest out.2 out.1 in
      (sentBy c r w ++ next.1, next.2)
  end.
Lemma runCalls_recording cs : forall r w,
  recording (sound := storeOK) (log := fun w rid pid => storedLog (wFS w) rid pid) r w
    (runCalls cs r w).1 (runCalls cs r w).2.2 (runCalls cs r w).2.1.
Proof. induction cs as [|c cs IH]; intros r w; [apply rec_end|]. cbn [runCalls fst snd]. apply rec_call, IH. Qed.

Definition recorded1 := runCalls calls1 (newRecorder recorderOptions1 producer1) runWorld.
Example recorded1_kinds :
  rKind <$> storedLog (wFS recorded1.2.1) run1 producer1 = [KindProducer; KindOutput; KindInvocation].
Proof. vm_compute. reflexivity. Qed.
Example recorded1_stored :
  (fun r => (rSequence r, rText r)) <$> storedLog (wFS recorded1.2.1) run1 producer1 = [(1, ""); (2, "hello"); (3, "")].
Proof. vm_compute. reflexivity. Qed.

Lemma recorder_accounts_witness :
  exists kept,
    storedRecords run1 producer1 kept (storedLog (wFS recorded1.2.1) run1 producer1) /\ kept `sublist_of` recorded1.1 /\
    (rcErr recorded1.2.2 = None -> base.filter notOutput kept = base.filter notOutput recorded1.1) /\
    rcSeq recorded1.2.2 = Z.of_nat (length kept) /\ rcPersisted recorded1.2.2 = Z.of_nat (length kept).
Proof.
  assert (Hempty : storedLog (wFS runWorld) run1 producer1 = []) by (vm_compute; reflexivity).
  exact (recorder_accounts (log := fun w rid pid => storedLog (wFS w) rid pid) recorderOptions1 producer1 runWorld
           recorded1.1 recorded1.2.2 recorded1.2.1 runWorld_storeOK Hempty (runCalls_recording calls1 _ runWorld)).
Defined.

(** A secret that the pieces cut in two. *)
Definition secretEnv : list string := ["TOKEN=hunter2-hunter2"].
Definition recorder2 : Recorder :=
  newRecorder (mkRecorderOptions run1 "" producer1 false "" (Some (NewRedactor secretEnv))) producer1.
Definition chunks2 : list string := ["key hunter2-"; "hunter2 ok" +:+ nl].
Lemma writer_records_witness :
  exists w texts, writeTexts (fun r => r) (Writer recorder2 invocation1 StreamStdout) chunks2 = Some (w, texts) /\
    cat texts = Redact (Some (NewRedactor secretEnv)) (cat chunks2).
Proof.
  destruct (writer_records (fun r => r) recorder2 (Some secretEnv) invocation1 StreamStdout chunks2 eq_refl eq_refl) as [H1 H2].
  destruct (H1 (or_intror eq_refl)) as (w & texts & Hout & _). exists w, texts. split; [exact Hout|].
  destruct (H2 w texts Hout) as (_ & _ & Hred). apply Hred. vm_compute. reflexivity.
Defined.

(** ** Importing a page *)

Definition remoteOutput : LogRecord := setBytes 5 (mkRecord 1 KindOutput run1 producer1 2 8 "" "" "" false invocation1 "" "" None "" "" "" ""
           None None "" StreamStdout "hello" 0 false "" "" 0).
Definition remoteRunning : LogRecord := running1.
Definition gapNote : LogRecord :=
  mkRecord 1 KindCapture run1 producer1 0 0 "" "" "" false "" "" "" None "" "" "" ""
           None None "" "" "" 0 false ConditionRetentionGap "" 0.
Definition namelessNote : LogRecord :=
  mkRecord 1 KindCapture run1 producer1 0 0 "" "" "" false "" "" "" None "" "" "" ""
           None None "" "" "" 0 false "" "" 0.
Definition page1 : ReadResponse :=
  mkResponse SchemaVersion (Summary (newManifest spec1 0 false)) [remoteRunning; remoteOutput; gapNote] "" false [] false.
Definition import1 : ImportRequest := mkImportRequest run1 "default" "" (Some page1).
Definition imported1 := ImportRemote import1 runWorld.

Example imported1_result : imported1.2 = (mkImportResult 2 0 [producer1], None).
Proof. vm_compute. reflexivity. Qed.

Lemma freshWorld_allOK faults rid pid : storeOK (freshWorld faults) rid pid.
Proof. destruct (emptySys_ok rid pid) as [Hl _]. split; [exact Hl|apply cacheAt_empty]. Qed.
Lemma runWorld_allOK rid pid : storeOK runWorld rid pid.
Proof. eapply quiet_storeOK; [apply harmless_CreateRun|apply freshWorld_allOK]. Qed.

Lemma ImportRemote_merges_witness :
  exists applied, extendedBy runWorld imported1.1 run1 producer1 [remoteRunning; remoteOutput] applied.
Proof.
  assert (Ht : Forall typedRecord (pageRecords import1)) by (repeat constructor; cbn; lia).
  pose proof (ImportRemote_merges import1 runWorld runWorld_allOK Ht) as [H _].
  destruct (H run1 producer1) as (applied & Hext & _). exists applied. exact Hext.
Defined.

(** A note that names no condition ends the prefix, and its producer is not
    listed as stalled. *)
Example nameless_note :
  (ImportRemote (mkImportRequest run1 "default" ""
     (Some (mkResponse SchemaVersion (Summary (newManifest spec1 0 false))
        [remoteRunning; namelessNote; remoteOutput] "" false [] false))) runWorld).2
  = (mkImportResult 1 0 [], None).
Proof. vm_compute. reflexivity. Qed.

(** A secret that ends inside a character leaves the rest of the character, and
    no store accepts what is left. *)
Definition halfSecret : list string := ["TOKEN=hunter2-" +:+ u8 [195]%nat].
Definition recorder3 : Recorder :=
  newRecorder (mkRecorderOptions run1 "" producer1 false "" (Some (NewRedactor halfSecret))) producer1.
Example half_character :
  match writeTexts (fun r => r) (Writer recorder3 invocation1 StreamStdout) ["key hunter2-" +:+ u8 [195; 169]%nat +:+ nl] with
  | Some (_, texts) => (fun t => (ValidString t, Is (validateOutput (outputRecord invocation1 StreamStdout t)) "workspacelogs.ErrInvalidRecord")) <$> texts
  | None => []
  end = [(false, true)].
Proof. vm_compute. reflexivity. Qed.

(** ** Failed invocations *)

Definition invocationStep (seq time : Z) (state : string) : LogRecord :=
  mkRecord 1 KindInvocation run1 producer1 seq time "" "" "" false invocation1 "setup" "postCreateCommand" (Some 0) "" LocationHost
           state "" None None "" "" "" 0 false "" "" 0.
Definition batch4 : list LogRecord := [invocationStep 2 8 InvocationRunning; invocationStep 3 9 InvocationFailed].
Definition appendRun4 := Append (running1 :: batch4) runWorld.
Definition failedWorld : World := atRest appendRun4.1.
Definition manifest4 : RunManifest :=
  default (newManifest spec1 0 false) (storedManifest (wFS failedWorld) (runPath run1)).
Lemma failed_served : served (wFS failedWorld) run1 manifest4.
Proof.
  assert (Hlog : logOK (wFS failedWorld) run1 producer1).
  { unfold failedWorld. rewrite atRest_fs.
    exact (Append_keeps_log runWorld running1 batch4 ltac:(repeat constructor; cbn; lia) runWorld_storeOK). }
  apply one_producer_served; try exact Hlog; vm_compute; reflexivity.
Qed.

Example failed_listed : (FailedInvocations run1 failedWorld).2 = inr [invocation1].
Proof. vm_compute. reflexivity. Qed.
Lemma FailedInvocations_furthest_witness :
  NoDup [invocation1] /\ Z.of_nat (length [invocation1]) <= MaxProducers /\
  (orderly invocation1 (entriesOf (wFS failedWorld) run1 (mProducers manifest4)) ->
   exists x, furthest invocation1 (entriesOf (wFS failedWorld) run1 (mProducers manifest4)) x /\ rState x.2 = InvocationFailed).
Proof.
  pose proof (FailedInvocations_furthest failedWorld run1 manifest4 failed_served) as [_ Hr].
  pose proof failed_listed as Hl. destruct (FailedInvocations run1 failedWorld) as [w' r]. cbn [snd] in *. subst r.
  destruct Hr as (H1 & H2 & H3 & _). split; [exact H1|]. split; [exact H2|]. apply H3. by apply list_elem_of_singleton.
Defined.
