(* ===== verification/LogMirrorExamples.v ===== *)
(** A concrete mirror: a source with a run of two records, a receiving host with
    an empty run, and a network that loses an answer and repeats a call; the
    theorems on mirroring at these hosts. *)
From S2P Require Import Prelude GoStd GoText LogTypes LogManifest LogFS LogStore LogSegment.
From S2P Require Import LogDisk LogDurable LogCodec LogSystem LogCursor LogAck.
From S2P Require Import LogRetention LogReader LogPaging LogMirror LogSink LogPull.
From S2P Require Import LogSender LogMirroring LogExamples.

Definition ackFields (s : AckState) : list field :=
  [fInt (sAckVersion s); fStr (sAckRunID s); fStr (sAckProducerID s); fStr (sAckHop s);
   fInt (sAcked s); fBool (sGapped s); fInt (sGapFirst s); fInt (sGapLast s)].
Definition fieldsAck (l : list field) : option AckState :=
  match l with
  | [inr a; inl b; inl c; inl d; inr e; inr f; inr g; inr h] => Some (mkAckState a b c d e (gBool f) g h)
  | _ => None
  end.
Lemma fields_ack s : fieldsAck (ackFields s) = Some s.
Proof. by destruct s as [? ? ? ? ? [] ? ?]. Qed.
#[export] Instance AckState_countable : Countable AckState := inj_countable ackFields fieldsAck fields_ack.
#[export] Instance ackJSON : JSON AckState := binJSON id.
#[export] Instance sumSize : ProtoSize := fun req => foldr (fun d n => len d + n) 100 (brRecords req).

(** ** The hosts *)

Definition options1 : SenderOptions := mkSenderOptions run1 producer1 false HopUpstream.
Definition sinkOptions1 : SinkOptions := mkSinkOptions true spec1 true true.
Definition sink1 : Sink := mkSink sinkOptions1 ∅ [].
Definition hosts1 : Hosts :=
  mkHosts filledWorld runWorld (Some sink1) [] (mkSender 0 false false).
(** The receiving process is restarted: a new sink, and no cached tail. *)
Definition restart (h : Hosts) : Hosts := withDst (setTails ∅ (hDst h)) (Some sink1) h.
(** The first answer is lost; then the receiver is restarted, and the first call
    arrives once more before the second one. *)
Definition calls1 : list Call := [mkCall id [] AnswerLost; mkCall restart [0%nat] Delivered].
Definition net1 : Net := mkNet hosts1 calls1.
Abbreviation session1 := (session options1 4 4 1 0 true net1).

Lemma filled_length : length (storedLog (wFS filledWorld) run1 producer1) = 2%nat.
Proof. vm_compute. reflexivity. Qed.
Lemma filled_total : runLength filledWorld run1 = 2%nat.
Proof. vm_compute. reflexivity. Qed.
Lemma filled_source : sourceOK filledWorld run1 producer1.
Proof.
  split.
  - exists manifest1. split; [exact filled_served|]. rewrite filled_producers. set_solver.
  - assert (Hl : storedLog (wFS filledWorld) run1 producer1 = [running1; setBytes 5 output1])
      by (vm_compute; reflexivity).
    rewrite Hl. repeat constructor; vm_compute; reflexivity.
Qed.
Lemma hosts1_ok : hostsOK options1 hosts1.
Proof.
  split; [exact filled_source|exact runWorld_storeOK| |constructor].
  assert (Hl : dstLog options1 hosts1 = []) by (vm_compute; reflexivity). rewrite Hl. apply copies_nil.
Qed.

Lemma restart_meanwhile o h : hostsOK o h -> meanwhile o h (restart h).
Proof.
  intros [Hs Hd Hc Hr]. split; try done. split; [apply Hd|]. apply cacheAt_empty.
Qed.
Lemma id_meanwhile o h : hostsOK o h -> meanwhile o h (id h).
Proof. intros [Hs Hd Hc Hr]. by split. Qed.

Lemma calls1_ok o (P : World -> Prop) : Forall (callOK o P) calls1.
Proof.
  unfold calls1. apply Forall_cons. split; [|apply Forall_cons; split; [|apply Forall_nil_2]]; unfold callOK; cbn [cMeanwhile]; intros h Hh HPh.
  - exact (conj (id_meanwhile _ _ Hh) HPh).
  - exact (conj (restart_meanwhile _ _ Hh) HPh).
Qed.
Lemma net1_ready (P : World -> Prop) : P filledWorld -> ready options1 P net1.
Proof. intros HP. split; [exact hosts1_ok|exact HP|apply calls1_ok|]. intros Hd. discriminate Hd. Qed.

(** ** A sender that goes on where an earlier one stopped *)

(** The sender of this example keeps its position in a store of its own: an
    earlier one was told that the receiver has the first record. *)
Definition options2 : SenderOptions := mkSenderOptions run1 producer1 true HopUpstream.
Definition withAckDir (w : World) : World := setFS (<[ackDir := Dir]> (wFS w)) w.
Definition ackedWorld : World := (Advance (ackKey options2) 1 (withAckDir filledWorld)).1.
Lemma acked_source : sourceOK ackedWorld run1 producer1.
Proof.
  apply (onlyAcks_source filledWorld); [|exact filled_source]. intros p Hp.
  assert (Hne : ackDir <> p) by (intros <-; discriminate Hp).
  transitivity (wFS (withAckDir filledWorld) !! p).
  - exact (touches_onlyAcks (Advance (ackKey options2) 1) (withAckDir filledWorld) (touches_ackUpdate _ _) p Hp).
  - exact (lookup_insert_ne (wFS filledWorld) ackDir p Dir Hne).
Qed.
Definition hosts0 : Hosts := mkHosts ackedWorld runWorld (Some sink1) [] (mkSender 0 false false).
Lemma hosts0_ok : hostsOK options2 hosts0.
Proof.
  split; [exact acked_source|exact runWorld_storeOK| |constructor].
  assert (Hl : dstLog options2 hosts0 = []) by (vm_compute; reflexivity). rewrite Hl. apply copies_nil.
Qed.
Definition request0 : BatchRequest :=
  match buildRequest run1 producer1 [running1] with inr req => req | inl _ => mkBatch 0 "" "" 0 0 [] end.
Lemma request0_made : isRequest options2 hosts0 request0.
Proof.
  exists [running1]. split; [|vm_compute; reflexivity]. exists [], [setBytes 5 output1]. vm_compute. reflexivity.
Qed.
Definition hosts2 : Hosts := (arrive request0 hosts0).1.
Lemma positionOK_at o s h (a b : nat) : length (srcLog o h) = a -> length (dstLog o h) = b ->
  0 <= sdAcked s <= Z.of_nat a -> (sdIncomplete s = false -> sdAcked s <= Z.of_nat b) -> positionOK o (withSender s h).
Proof. by intros <- <- H1 H2. Qed.
Definition net2 : Net := mkNet hosts2 calls1.
Abbreviation session2 := (session options2 4 4 1 0 true net2).
Lemma net2_ready : ready options2 anyWorld net2.
Proof.
  split; [|exact I|apply calls1_ok|].
  - exact (go_hosts _ _ _ (proj1 (arrive_keeps options2 request0 hosts0 hosts0_ok request0_made))).
  - intros _. assert (Hst : (ackLoad (ackKey options2) (hSrc (nHosts net2))).2 =
      inr (mkAckState SchemaVersion run1 producer1 HopUpstream 1 false 0 0)) by (vm_compute; reflexivity).
    rewrite Hst. apply (positionOK_at options2 _ hosts2 2 1); [vm_compute; reflexivity..|cbn; lia|cbn; lia].
Qed.

Lemma session2_true : session2.2 = Some true.
Proof. vm_compute. reflexivity. Qed.

Lemma mirror_is_copy_witness : mirrored options2 (nHosts session2.1).
Proof. exact (mirror_is_copy options2 net2 4 4 1 0 true net2_ready). Defined.

Lemma Flush_complete_witness :
  session2.2 = Some true /\ complete options2 (nHosts session2.1) /\
  dstLog options2 (nHosts session2.1) = [running1; setBytes 5 output1].
Proof.
  split; [exact session2_true|]. split.
  - exact (Flush_complete options2 net2 4 4 1 0 true net2_ready session2_true).
  - vm_compute. reflexivity.
Defined.

Lemma filled_small : small options1 2 2 filledWorld.
Proof.
  unfold small, options1. cbn [dRunID dProducerID]. split; [exact filled_source|].
  rewrite filled_length, filled_total. split; lia.
Qed.
Lemma session_ends_witness : is_Some session1.2.
Proof.
  apply (session_ends options1 net1 4 4 1 0 true 2 2 (net1_ready _ filled_small)); lia.
Defined.

(** ** Reading at the source *)

Lemma ReadAfter_batch_witness :
  sameStore filledWorld (ReadAfter 3 run1 producer1 1 200000 filledWorld).1 /\
  (ReadAfter 3 run1 producer1 1 200000 filledWorld).2 = Some (inr [setBytes 5 output1]) /\
  batchFor filledWorld (drop 1 (storedLog (wFS filledWorld) run1 producer1)) (inr [setBytes 5 output1]).
Proof.
  assert (Hlen : (1 <= length (storedLog (wFS filledWorld) run1 producer1))%nat) by (rewrite filled_length; lia).
  assert (Hrun : (runLength filledWorld run1 < 3)%nat) by (rewrite filled_total; lia).
  assert (Hr : (ReadAfter 3 run1 producer1 1 200000 filledWorld).2 = Some (inr [setBytes 5 output1]))
    by (vm_compute; reflexivity).
  destruct (ReadAfter_batch filledWorld run1 producer1 1 200000 3 filled_source Hlen Hrun) as [Hs (r & Hr' & Hb)].
  change (Z.of_nat 1) with 1 in Hr', Hs. rewrite Hr in Hr'. injection Hr' as <-.
  split; [exact Hs|]. split; [exact Hr|exact Hb].
Defined.

(** ** The sink *)

Definition sent1 : BatchRequest :=
  match buildRequest run1 producer1 [running1; setBytes 5 output1] with
  | inr req => req
  | inl _ => mkBatch 0 "" "" 0 0 []
  end.
Definition taken1 := LogMirror.Append sent1 sink1 runWorld.


(** ** A forgotten gap *)

(** The receiver gave up on the producer earlier: its retention excluded both
    records, and it answers so.  While it does, the next system call of the
    source's host fails, which is the one that would record the gap. *)
Definition gappedWorld : World :=
  (RecordGap (mkAckKey run1 producer1 HopInbound) 1 2 (withAckDir runWorld)).1.
Definition failNext (w : World) : World :=
  mkWorld (wFS w) (wTails w) [Fault 0] (wClock w) (wTicks w) (wIDs w).
Definition net3 : Net :=
  mkNet (mkHosts (withAckDir filledWorld) gappedWorld (Some sink1) [] (mkSender 0 false false))
    [mkCall (fun h => withSrc (failNext (hSrc h)) h) [] Delivered].

(** The first sender knows of the gap and says so; the one that replaces it
    after a restart finds a position without one and reports success, although
    the receiver holds nothing. *)
Example gap_is_forgotten :
  let first := session options2 4 4 1 0 true net3 in
  let second := session options2 4 4 0 0 true first.1 in
  first.2 = Some false /\ second.2 = Some true /\ dstLog options2 (nHosts second.1) = [].
Proof. vm_compute. split_and!; reflexivity. Qed.
