(* ===== verification/OptExamples.v ===== *)
(** Option resolution on concrete providers: the theorems at inputs where their
    hypotheses hold, and two runs that lose or keep a value they should not. *)
From S2P Require Import Prelude GoStd GoText GoConv OptVars Graph OptResolver OptConsistent OptResolved.

Definition plain (d : string) : Option :=
  mkOption "" "" false false "" "" "" [] [] false false false d "" "" "" false.
Definition oneOf (choices : list string) : Option :=
  mkOption "" "" true false "" "" "" [] (map (fun v => mkEnum v "") choices) false false false "" "" "" "" false.
Definition fromCommand (c : string) : Option :=
  mkOption "" "" false false "" "" "" [] [] false false false "" "" c "" false.
Definition withSubOptions (c : string) (o : Option) : Option :=
  mkOption "" "" false false "" "" "" [] [] false false false (oDefault o) "" "" c false.

Definition subOptions : OptionDefinitions :=
  {["A" := Some (plain "x"); "B" := Some (plain "${A}-suffix")]}.

(** Commands print the value of [A]; a sub options command prints two options;
    maps are walked in the order of their names, or backwards. *)
Definition outside (backwards : bool) : Outside := {|
  runShell n c env := inr (default "" (env !! "A"));
  unmarshalSubOptions _ := inr subOptions;
  timeNow n := Z.of_nat n;
  IsTerminalIn := true;
  askUser _ _ _ := inr "q";
  mapOrder n l := if backwards then reverse (sortStrings l) else sortStrings l;
|}.
#[local] Instance anyPattern : Regexp := fun _ _ => Some true.
Lemma outside_laws b : @OutsideLaws (outside b).
Proof.
  intros n l. unfold mapOrder, outside, sortStrings. destruct b; [|apply merge_sort_Permutation].
  by rewrite reverse_Permutation, merge_sort_Permutation.
Qed.

Definition resolver (subs : bool) : Resolver := mkResolver {["HOME" := "/h"]} true true subs false.
(** Names and values of a result. *)
Definition shown (x : failure + (gmap string OptionValue * OptionDefinitions)) : option (gmap string string) :=
  match x with
  | inr (vs, _) => Some (vValue <$> vs)
  | inl _ => None
  end.

Definition someOptions : OptionDefinitions := {["A" := Some (plain "$HOME/x"); "B" := Some (plain "${A}-y");
  "C" := Some (fromCommand "echo $A"); "D" := Some (oneOf ["p"; "q"]); "E" := Some (plain "$B$D")]}.
Definition someUser : gmap string string := {["A" := "u"]}.

Lemma Resolve_consistent_witness :
  shown (@Resolve (outside true) anyPattern (resolver false) 0 someUser ∅ someOptions ∅).2 =
    Some {["A" := "u"; "B" := "u-y"; "C" := "u"; "D" := "q"; "E" := "u-yq"]} /\
  match (@Resolve (outside true) anyPattern (resolver false) 0 someUser ∅ someOptions ∅).2 with
  | inl f => f <> OutOfFuel
  | inr (vs, dynamic) =>
      dynamic = ∅ /\ @fitsTogether (outside true) anyPattern (resolver false) someUser someOptions vs
  end.
Proof.
  split; [vm_compute; reflexivity|].
  exact (@Resolve_consistent (outside true) anyPattern (outside_laws true) (resolver false) 0 someUser someOptions (or_introl eq_refl)).
Defined.

Lemma Resolve_dependencies_witness :
  exists result, (@Resolve (outside false) anyPattern (resolver false) 0 ∅ ∅ someOptions ∅).2 = inr result /\
    (let all := mergeMaps ∅ someOptions in
     (forall dep k option d, dep <> rootID -> uses all dep k ->
        all !! k = Some (Some option) -> all !! dep = Some (Some d) ->
        (oGlobal option = true -> oGlobal d = true) /\ (oLocal d = true -> oLocal option = true)) /\
     ~ (exists k, tc (uses all) k k)).
Proof.
  eexists. split; [vm_compute; reflexivity|].
  eapply (@Resolve_dependencies (outside false) anyPattern (outside_laws false) (resolver false) 0 ∅ ∅ someOptions ∅).
  vm_compute. reflexivity.
Defined.

(** Options that need each other are an error. *)
Example cyclic_options :
  match (@Resolve (outside false) anyPattern (resolver false) 0 ∅ ∅
           {["A" := Some (plain "$B"); "B" := Some (plain "$A")]} ∅).2 with inl (Failed _) => True | _ => False end.
Proof. vm_compute. done. Qed.

Definition withSubs : OptionDefinitions := {["S" := Some (withSubOptions "list" (plain "s"))]}.

Lemma Resolve_ends_witness :
  (@Resolve (outside false) anyPattern (resolver true) 6 ∅ ∅ withSubs ∅).2 <> inl OutOfFuel.
Proof.
  apply (@Resolve_ends (outside false) anyPattern (outside_laws false) (resolver true) 6 ∅ ∅ _ ∅ {["A"; "B"]}).
  - intros out defs [= <-]. vm_compute. intros x. set_solver.
  - vm_compute. lia.
Defined.

(** ** Order of sub options *)



(** Walked in the order [A], [B] every sub option has its value; with [B] first
    its value is computed without [A], dropped when [A] gets a value, and not
    computed again. *)
Example sub_options_in_order :
  shown (@Resolve (outside false) anyPattern (resolver true) 6 ∅ ∅ withSubs ∅).2 =
    Some {["S" := "s"; "A" := "x"; "B" := "x-suffix"]}.
Proof. vm_compute. reflexivity. Qed.
Example sub_option_lost :
  shown (@Resolve (outside true) anyPattern (resolver true) 6 ∅ ∅ withSubs ∅).2 =
    Some {["S" := "s"; "A" := "x"]}.
Proof. vm_compute. reflexivity. Qed.

(** ** A stored value that is no longer valid *)

(** [A] held "old", which is no choice any more: it is emptied, but its emptied
    value is compared with the empty value, so [B] keeps what it had from "old". *)
Definition optional (choices : list string) : Option :=
  mkOption "" "" false false "" "" "" [] (map (fun v => mkEnum v "") choices) false false false "" "" "" "" false.
Example stale_child :
  shown (@Resolve (outside false) anyPattern (resolver false) 0 ∅ ∅
           {["A" := Some (optional ["p"; "q"]); "B" := Some (plain "${A}-y")]}
           {["A" := mkValue "old" true None []; "B" := mkValue "old-y" false None []]}).2 =
    Some {["A" := ""; "B" := "old-y"]}.
Proof. vm_compute. reflexivity. Qed.
