(* ===== verification/DevExamples.v ===== *)
(** Concrete dev container configurations: the hypotheses of the theorems hold of
    them, and the outcomes worth knowing. *)
From S2P Require Import Prelude GoStd GoText GoConv GoPath GoState Json DevTypes DevSubst DevSubstitution DevMerge DevMerging DevExtends DevLineage.

(** ** Substitution *)

Definition hostContext : SubstitutionContext :=
  mkSubstitutionContext "id7" "/home/u/app" "/workspaces/${localWorkspaceFolderBasename}" {["USER" := "u"]} "" "" [] [].
Definition appConfig : list (string * json) :=
  [("name", JString "${localEnv:USER} at ${containerWorkspaceFolder}");
   ("containerEnv", JObject [("HERE", JString "${localWorkspaceFolder}"); ("P", JString "${containerEnv:PATH}")]);
   ("postCreateCommand", JArray [JString "echo"; JString "${containerEnv:PATH:none}"])].
Definition inContainer : gmap string string := {["PATH" := "/bin"]}.

Lemma hostContext_quiet : quiet (resolveContext hostContext).
Proof.
  split; try reflexivity. intros k v. change (Env (resolveContext hostContext)) with ({["USER" := "u"]} : gmap string string).
  intros [<- <-]%lookup_singleton_Some. reflexivity.
Qed.
Lemma Substitute_then_container_witness :
  SubstituteContainerEnv inContainer <$> field "postCreateCommand" (Substitute hostContext appConfig).2 =
  Some (JArray [JString "echo"; JString "/bin"]).
Proof.
  refine (eq_trans (Substitute_then_container hostContext inContainer appConfig hostContext_quiet _ _) _).
  - intros k v. unfold appConfig. cbn [field].
    repeat (case_decide; [intros [= <-]; vm_compute; reflexivity|]). discriminate.
  - vm_compute. reflexivity.
Defined.

Definition someEnv : gmap string string := {["A" := "x=y"; "B" := ""]}.
Lemma environment_roundtrip_witness : ListToObject (ObjectToList ["B"; "A"] someEnv) = someEnv.
Proof.
  apply environment_roundtrip.
  - vm_compute. first [reflexivity | apply perm_swap].
  - intros k v. unfold someEnv. intros [[<- _]|[_ [<- _]%lookup_singleton_Some]]%lookup_insert_Some; reflexivity.
Defined.

#[local] Instance plainHash : IDHash := {|
  sha256Number s := Z.of_nat (String.length s) mod 2 ^ 256;
  marshalString s := String "034"%char s +:+ String "034"%char "";
|}.
#[local] Instance plainHash_laws : IDHashLaws.
Proof. intros s. apply Z.mod_pos_bound. reflexivity. Qed.
Lemma ComputeDevContainerID_exact_witness :
  String.length (ComputeDevContainerID (DefaultIDLabels "/a" "/a/b")) = specDevContainerIDWidth.
Proof. apply (ComputeDevContainerID_exact (HH := plainHash)). Defined.

(** ** Inheritance *)

(** A world of files, each decoded into a configuration. *)
Definition worldOf (files : gmap string DevContainerConfig) : ConfigWorld := {|
  ReadFile p := match files !! p with Some _ => inr p | None => inl (Errorf "no such file" []) end;
  pullOCIExtendsJSON b := inl (Errorf "no registry" []);
  Standardize text := inr text;
  decodeConfig p := match files !! p with Some c => inr c | None => inl (Errorf "no configuration" []) end;
  decodeFields text := inr [];
  LookupEnv _ := None;
  Getwd := inr "/w";
  decodeVSCode v := inr (mkVSCode ∅ [] 0);
  encodeVSCode v := JArray (map JString (VExtensions v));
|}.
#[local] Instance worldOf_directory files : WorkingDirectory (CW := worldOf files).
Proof. by intros wd [= <-]. Qed.
#[local] Instance worldOf_finite files : FiniteWorld (CW := worldOf files) (dom files).
Proof.
  split; cbn; [|done]. intros p x. destruct (files !! p) eqn:Hp; [|done]. intros _. by eapply elem_of_dom_2.
Qed.

Definition configWith (extends : list string) (ports : slice string) (user : string) (extensions : slice string)
    : DevContainerConfig :=
  mkConfig (mkBase (Some extends) "" ∅ None ports ∅ None None ∅ user ∅ "" "" "" None None "" ∅ extensions 0 ∅)
    (cActions noConfig) (cNonCompose noConfig) (cImage noConfig) (cCompose noConfig) (cDockerfile noConfig)
    (cRunning noConfig) None "".
Definition userOf (r : failure + DevContainerConfig) : option string :=
  match r with inr c => Some (RemoteUser (cBase c)) | inl _ => None end.
Definition cycleAt (p : string) : failure + DevContainerConfig :=
  inl (Failed (Errorf "extends: cycle detected, %q already in chain" [AStr p])).
Definition chainFiles : gmap string DevContainerConfig :=
  {["/w/a.json" := configWith ["b.json"] None "" None;
    "/w/b.json" := configWith ["sub/c.json"] (Some ["1"]) "me" None;
    "/w/sub/c.json" := configWith [] (Some ["2"]) "you" None]}.

Lemma resolveExtends_lineage_witness :
  exists r ancestors, resolveExtends (H := worldOf chainFiles) 3 (configWith ["b.json"] None "" None) "/w/a.json" = inr r /\
    inherits (ancestors ++ [configWith ["b.json"] None "" None]) r /\ RemoteUser (cBase r) = "me".
Proof.
  destruct (resolveExtends (H := worldOf chainFiles) 3 (configWith ["b.json"] None "" None) "/w/a.json") as [f|r] eqn:Hr;
    [vm_compute in Hr; discriminate|].
  destruct (resolveExtends_lineage (CW := worldOf chainFiles) 3 _ _ r Hr) as (ancestors & _ & Hi).
  exists r, ancestors. split; [reflexivity|split; [exact Hi|]].
  vm_compute in Hr. injection Hr as <-. reflexivity.
Defined.

(** Two files that extend each other. *)
Definition circleFiles : gmap string DevContainerConfig :=
  {["/w/a.json" := configWith ["b.json"] None "" None; "/w/b.json" := configWith ["./a.json"] None "" None]}.
Lemma ParseDevContainerJSONFile_ends_witness :
  ParseDevContainerJSONFile (H := worldOf circleFiles) 3 "a.json" <> inl OutOfFuel.
Proof.
  apply (ParseDevContainerJSONFile_ends (CW := worldOf circleFiles) (dom circleFiles) 3 3 "a.json").
  all: unfold enoughFuel; assert (Hs : size (dom circleFiles) = 2%nat) by (rewrite size_dom; vm_compute; reflexivity); rewrite Hs; lia.
Defined.
Example circle_refused :
  ParseDevContainerJSONFile (H := worldOf circleFiles) 3 "a.json" = cycleAt "/w/a.json".
Proof. vm_compute. reflexivity. Qed.

(** Two files that both extend a third are refused as a cycle, although none of
    them extends itself: what one branch has read counts as seen in the other. *)
Definition diamondFiles : gmap string DevContainerConfig :=
  {["/w/a.json" := configWith ["b.json"; "c.json"] None "" None;
    "/w/b.json" := configWith ["base.json"] None "" None;
    "/w/c.json" := configWith ["base.json"] None "" None;
    "/w/base.json" := configWith [] None "me" None]}.
Example diamond_refused :
  ParseDevContainerJSONFile (H := worldOf diamondFiles) 9 "/w/a.json" = cycleAt "/w/base.json" /\
  userOf (ParseDevContainerJSONFile (H := worldOf diamondFiles) 9 "/w/b.json") = Some "me".
Proof. vm_compute. split; reflexivity. Qed.

(** The deprecated [extensions] of a file are kept when it stands alone and lost
    when it extends another, even an empty one. *)
Definition legacyFiles : gmap string DevContainerConfig :=
  {["/w/alone.json" := configWith [] None "" (Some ["ext"]);
    "/w/child.json" := configWith ["empty.json"] None "" (Some ["ext"]);
    "/w/empty.json" := configWith [] None "" None]}.
Definition vscodeOf (r : failure + DevContainerConfig) : option json :=
  match r with inr c => Customizations (cActions c) !! "vscode" | inl _ => None end.
Example legacy_lost :
  vscodeOf (ParseDevContainerJSONFile (H := worldOf legacyFiles) 9 "/w/alone.json") = Some (JArray [JString "ext"]) /\
  vscodeOf (ParseDevContainerJSONFile (H := worldOf legacyFiles) 9 "/w/child.json") = None.
Proof. vm_compute. split; reflexivity. Qed.

(** An empty array replaces the one of a parent, but not when another file lies
    between: the copy of the parent drops it. *)
Definition emptyArrayFiles : gmap string DevContainerConfig :=
  {["/w/top.json" := configWith ["mid.json"] None "" None;
    "/w/two.json" := configWith ["base.json"; "mid.json"] None "" None;
    "/w/mid.json" := configWith [] (Some []) "" None;
    "/w/base.json" := configWith [] (Some ["80"]) "" None;
    "/w/clear.json" := configWith ["base.json"] (Some []) "" None;
    "/w/over.json" := configWith ["base.json"; "again.json"] None "" None;
    "/w/again.json" := configWith ["mid.json"] None "" None]}.
Definition portsOf (r : failure + DevContainerConfig) : option (slice string) :=
  match r with inr c => Some (ForwardPorts (cBase c)) | inl _ => None end.
Example empty_array_dropped :
  portsOf (ParseDevContainerJSONFile (H := worldOf emptyArrayFiles) 9 "/w/two.json") = Some None /\
  portsOf (ParseDevContainerJSONFile (H := worldOf emptyArrayFiles) 9 "/w/over.json") = Some (Some ["80"]).
Proof. vm_compute. split; reflexivity. Qed.
