(* ===== verification/FeatureExamples.v ===== *)
(** Concrete features: the hypotheses of the theorems hold of them, and the
    outcomes worth knowing. *)
From S2P Require Import Prelude GoStd GoText GoConv GoPath GoState Json DevTypes DevSubst DevExtends Graph Features FeatureOrder FeatureOptions FeatureLock FeatureDeps FeatureClosure.

(** ** References with a tag behind a colon *)

Definition parseTag : References := fun id =>
  match CutChar ":" id with
  | Some (a, t) => if bool_decide (a = "") then None else Some (TagReference a t)
  | None => if bool_decide (id = "") then None else Some (TagReference id "latest")
  end.
#[local] Existing Instance parseTag.
#[local] Instance inOrder : Walks := fun A _ m => map_to_list m.
#[local] Instance inOrder_laws : WalkLaws.
Proof. by intros A at_ m. Qed.
(** The other way round. *)
Definition backwards : Walks := fun A _ m => reverse (map_to_list m).

Definition firstPart (s : string) : string := match CutChar ":" s with Some (a, _) => a | None => s end.
Lemma keyFor_parsed id :
  (ParseReference id = None /\ normalizeFeatureID id = id /\ keyFor id = id /\ (firstPart id = "")) \/
  (firstPart (keyFor id) = normalizeFeatureID id /\ normalizeFeatureID id <> "" /\ keyFor id <> "").
Proof.
  unfold keyFor, featureDeduplicationKey, normalizeFeatureID, extractVersionFromFeatureID, ParseReference, parseTag, firstPart.
  pose proof (CutChar_spec ":" id) as Hcut. destruct (CutChar ":" id) as [[a t]|] eqn:Hid.
  - destruct Hcut as [-> Ha]. case_bool_decide as Hempty; [left; by subst|]. right.
    case_decide; [|change (":" +:+ ?x) with (String ":" x); rewrite CutChar_app by done].
    + pose proof (CutChar_spec ":" a) as Hcut. destruct (CutChar ":" a) as [[b u]|]; [|done].
      destruct Hcut as [-> _]. rewrite hasChar_app in Ha. cbn in Ha. by rewrite orb_true_r in Ha.
    + split_and!; [done..|]. by destruct a.
  - case_bool_decide as Hempty; [left; by subst|]. right. change (normalizeVersion "latest") with "".
    rewrite decide_True by done. by rewrite Hid.
Qed.

(** ** A registry of manifests *)

Definition manifestPath (id : string) : string := "/cache/" +:+ id +:+ "/devcontainer-feature.json".
Section Registry.
Context (manifests : gmap string FeatureConfig).
Definition manifestText (p : string) : goerr + string :=
  match manifests !! p with Some _ => inr p | None => inl (Errorf "no such file" []) end.
Definition registryFiles : ConfigWorld := {|
  ReadFile := manifestText;
  pullOCIExtendsJSON b := inl (Errorf "no registry" []);
  Standardize text := inr text;
  decodeConfig p := inl (Errorf "no configuration" []);
  decodeFields text := inr [];
  LookupEnv _ := None;
  Getwd := inr "/w";
  decodeVSCode v := inr (mkVSCode ∅ [] 0);
  encodeVSCode v := JNull;
|}.
Definition registry : FeatureSources := {|
  fetchOCI id := inr ("/cache/" +:+ id, id, "sha256:" +:+ id);
  processDirectTarFeature id headers force pinned := inl (Errorf "no download" []);
  downloadHeaders _ := ∅;
  FileExists p := bool_decide (is_Some (manifests !! p));
  decodeFeatureConfig p := match manifests !! p with Some c => inr c | None => inl (Errorf "no manifest" []) end;
  LoadOCIAnnotations _ := None;
|}.
Lemma registry_names : (forall p c, manifests !! p = Some c -> DependsOn c !! "" = None) -> @FeatureNames parseTag registry.
Proof.
  intros Hm. split.
  - intros id1 id2 E.
    destruct (keyFor_parsed id1) as [(_ & N1 & E1 & F1)|(F1 & N1 & _)], (keyFor_parsed id2) as [(_ & N2 & E2 & F2)|(F2 & N2 & _)];
      [congruence|exfalso..|congruence]; [apply N2; rewrite <- F2, <- E, E1|apply N1; rewrite <- F1, E, E2]; done.
  - intros id Hid. destruct (keyFor_parsed id) as [(_ & _ & -> & _)|(_ & _ & Hk)]; done.
  - intros text c. cbn. destruct (manifests !! text) eqn:Hc; [|done]. intros [= <-]. by eapply Hm.
Qed.
Lemma registry_finite : @FiniteManifests registry (⋃ map (fun p => dom (DependsOn p.2)) (map_to_list manifests)).
Proof.
  intros text c. cbn. destruct (manifests !! text) as [c'|] eqn:Hc; [|done]. intros [= <-] id Hid.
  apply elem_of_union_list. exists (dom (DependsOn c')). split; [|done].
  apply list_elem_of_fmap. exists (text, c'). by rewrite elem_of_map_to_list.
Qed.
End Registry.
#[local] Instance noSecrets : SecretWorld := {| Getenv _ := ""; parseFeatureSecretsFile _ := inr ∅ |}.

(** ** Installing features *)

Definition manifest (id : string) (installsAfter : list string) (dependsOn : list string) (legacy : list string) : FeatureConfig :=
  mkFeatureConfig id "" "1.0.0" "" "" false legacy ∅ "" "" None None None None None installsAfter
    (list_to_map (map (fun d => (d, JObject [])) dependsOn)) ∅ noActions ∅ "" [].
Definition asking (ids : list string) (override : slice string) : DevContainerConfig :=
  mkConfig (mkBase None "" (list_to_map (map (fun d => (d, JObject [])) ids)) override None ∅ None None ∅ "" ∅ "" "" "" None None "" ∅ None 0 ∅)
    (cActions noConfig) (cNonCompose noConfig) (cImage noConfig) (cCompose noConfig) (cDockerfile noConfig)
    (cRunning noConfig) None "/w/.devcontainer/devcontainer.json".
Definition published (l : list (string * FeatureConfig)) : gmap string FeatureConfig :=
  list_to_map (map (fun p => (manifestPath p.1, p.2)) l).

(** Lockfiles with nothing and with one entry. *)
Definition oneEntry : gmap string LockedFeature := {["app" := mkLocked "1.0.0" "app" "sha256:app" ["lib:1"]]}.
#[local] Instance entry_eq_dec : EqDecision LockedFeature.
Proof. solve_decision. Defined.
#[local] Instance smallFiles : LockWorld := {|
  readError _ := None;
  writeOutcome _ _ := None;
  decodeLockfile t := if bool_decide (t = "{1}" +:+ nl) then inr oneEntry else inr ∅;
  encodeLockfile m :=
    if bool_decide (m = ∅) then inr "{}" else if bool_decide (m = oneEntry) then inr "{1}" else inl (Errorf "too large" []);
  compactJSON t :=
    if bool_decide (t = "{1}" +:+ nl) then Some "{1}" else if bool_decide (t = "{}" +:+ nl) then Some "{}" else None;
|}.
#[local] Instance smallFiles_laws : LockLaws.
Proof.
  split; cbn.
  - intros m text. case_bool_decide; [intros [= <-]; subst; reflexivity|].
    case_bool_decide; [intros [= <-]; subst; reflexivity|discriminate].
  - intros t1 t2 c. repeat case_bool_decide; subst; congruence.
  - intros t c. repeat case_bool_decide; subst; intros [= <-]; split; vm_compute; discriminate.
  - intros m text E. assert (Ht : text = "{}" \/ text = "{1}").
    { revert E. case_bool_decide; [intros [= <-]; auto|]. case_bool_decide; [intros [= <-]; auto|discriminate]. }
    destruct Ht as [-> | ->]; eexists; vm_compute; reflexivity.
Qed.
Definition noLock : lockfileMode := mkMode false false true.

(** [app] depends on [lib], which asks to come after [base]. *)
Definition shelf : gmap string FeatureConfig :=
  published [("app", manifest "app" [] ["lib:1"] []); ("lib:1", manifest "lib" ["base"] [] []);
             ("base", manifest "base" [] [] []); ("lib", manifest "lib" [] [] [])].
Definition fetchedNames (manifests : gmap string FeatureConfig) (cfg : DevContainerConfig) (fuel : nat) : failure + list string :=
  match (@fetchFeatures parseTag inOrder (registryFiles manifests) noSecrets smallFiles (registry manifests)
           cfg false None fuel ∅ noLock).2 with
  | inl f => inl f
  | inr sorted => inr (map keyOf sorted)
  end.
Example shelf_order : fetchedNames shelf (asking ["app"; "base"] None) 9 = inr ["base"; "lib:1"; "app"].
Proof. vm_compute. reflexivity. Qed.

Definition namedB (manifests : gmap string FeatureConfig) : bool :=
  forallb (fun p => match DependsOn p.2 !! "" with None => true | Some _ => false end) (map_to_list manifests).
Lemma namedB_ok manifests p c : namedB manifests = true -> manifests !! p = Some c -> DependsOn c !! "" = None.
Proof.
  unfold namedB. rewrite forallb_forall. intros Hall Hc.
  specialize (Hall (p, c) (proj1 (list_elem_of_In _ _) (proj2 (elem_of_map_to_list _ _ _) Hc))). cbn in Hall.
  by destruct (DependsOn c !! "").
Qed.
Definition shelfNames : @FeatureNames parseTag (registry shelf) :=
  registry_names shelf (fun p c => namedB_ok shelf p c ltac:(vm_compute; reflexivity)).

Definition shelfConfig : DevContainerConfig := asking ["app"; "base"] None.

(** Features that depend on each other. *)
Definition ring : gmap string FeatureConfig :=
  published [("a", manifest "a" [] ["b"] []); ("b", manifest "b" [] ["c"] []); ("c", manifest "c" [] ["a"] [])].
Definition ringConfig : DevContainerConfig := asking ["a"] None.
Lemma fetchFeatures_ends_witness :
  (@fetchFeatures parseTag inOrder (registryFiles ring) noSecrets smallFiles (registry ring) ringConfig false None 4 ∅ noLock).2
    <> inl OutOfFuel.
Proof.
  apply (@fetchFeatures_ends parseTag inOrder inOrder_laws (registryFiles ring) noSecrets smallFiles (registry ring)
           ringConfig false None _ (registry_finite ring) 4 4 ∅ noLock); vm_compute; repeat constructor.
Defined.

(** ** Sorting *)

Definition featureOf (id : string) (c : FeatureConfig) : FeatureSet :=
  mkFeatureSet (normalizeFeatureID id) (extractVersionFromFeatureID id) ("/cache/" +:+ id) c JNull.
Definition ringFeatures : list FeatureSet :=
  [featureOf "a" (manifest "a" [] ["b"] []); featureOf "b" (manifest "b" [] ["a"] [])].
Lemma getSortedFeatureSets_refuses_witness :
  exists e, getSortedFeatureSets ringConfig ringFeatures = Some (inl e) /\
    exists f, tc (fun a b => needs ringFeatures a b \/ asksFor ringFeatures a b) f f.
Proof.
  assert (Hnd : NoDup (map keyOf ringFeatures)).
  { change (NoDup ["a"; "b"]). apply NoDup_cons. split; [set_solver|apply NoDup_singleton]. }
  destruct (getSortedFeatureSets_refuses ringFeatures Hnd ringConfig) as [[sorted Hs]|(e & He & [Hv|Hc])].
  - vm_compute in Hs. discriminate.
  - vm_compute in Hv. discriminate.
  - exists e. split; [exact He|exact Hc].
Defined.

(** What depends on whether one feature asks for another that depends on it: the
    one order of the features gives an install order, the other a cycle. *)
Definition editor : FeatureSet := featureOf "editor" (manifest "editor" ["theme"] [] []).
Definition theme : FeatureSet := featureOf "theme" (manifest "theme" [] ["editor"] []).
Definition namesOf (r : option (goerr + list FeatureSet)) : option (list string) :=
  match r with Some (inr l) => Some (map keyOf l) | _ => None end.
Example order_decides :
  namesOf (getSortedFeatureSets (asking [] None) [theme; editor]) = Some ["editor"; "theme"] /\
  getSortedFeatureSets (asking [] None) [editor; theme] = Some (inl (cycleError ["editor"; "theme"])).
Proof. vm_compute. split; reflexivity. Qed.

(** A dependency by a former name is found but not installed first. *)
Definition renamed : gmap string FeatureConfig :=
  published [("a", manifest "a" [] ["old"] []); ("new", manifest "new" [] [] ["old"])].
Example legacy_not_first : fetchedNames renamed (asking ["a"; "new"] None) 9 = inr ["a"; "new"].
Proof. vm_compute. reflexivity. Qed.

(** Of two versions of a feature, the one that is depended on may come last: the
    edge goes to whichever the walk over the map meets first. *)
Definition base : FeatureSet := featureOf "base" (manifest "base" [] [] []).
Definition tool1 : FeatureSet := featureOf "tool:1" (manifest "tool" [] [] []).
Definition tool2 : FeatureSet := featureOf "tool:2" (manifest "tool" [] ["base"] []).
Definition gadget : FeatureSet := featureOf "gadget" (manifest "gadget" [] ["tool:2"] []).
Example versions_confused :
  namesOf (@getSortedFeatureSets parseTag inOrder (asking [] None) [gadget; tool1; tool2; base]) =
    Some ["base"; "tool:1"; "gadget"; "tool:2"] /\
  namesOf (@getSortedFeatureSets parseTag backwards (asking [] None) [gadget; tool1; tool2; base]) =
    Some ["base"; "tool:1"; "tool:2"; "gadget"].
Proof. vm_compute. split; reflexivity. Qed.

(** ** Secrets *)

Definition token : FeatureConfig :=
  mkFeatureConfig "token" "Token" "" "" "" false []
    {["key" := mkFeatureOption "" "" optionTypeSecret [] []; "user" := mkFeatureOption "me" "" "string" [] []]}
    "" "" None None None None None [] ∅ ∅ noActions ∅ "" [].
Definition tokenOptions (key : string) : json := JObject [("key", JString key)].
Lemma script_hides_secrets_witness :
  GetFeatureInstallWrapperScript "token" token (GetFeatureEnvVariables token (tokenOptions "abc")) =
  GetFeatureInstallWrapperScript "token" token (GetFeatureEnvVariables token (tokenOptions "xyz")).
Proof.
  apply script_hides_secrets. intros name.
  change (getFeatureValueObject token (tokenOptions ?k)) with
    (list_to_map [("key", JString k)] ∪ getFeatureDefaults token : gmap string json).
  destruct (decide (name = "key")) as [->|Hn].
  - split; [|split; intros _; vm_compute; by eexists]. intros Hk. exfalso. apply Hk.
    apply (bool_decide_unpack _). vm_compute. exact I.
  - assert (E : forall k, (list_to_map [("key", JString k)] ∪ getFeatureDefaults token : gmap string json) !! name
      = getFeatureDefaults token !! name).
    { intros k. apply lookup_union_r. cbn. by rewrite lookup_insert_ne, lookup_empty. }
    rewrite !E. done.
Defined.

(** ** Lockfiles *)

Definition shelfState : lockfileState := mkLockState None oneEntry.
Definition committed : gmap string string * err :=
  commit ∅ (Some shelfState) shelfConfig (mkMode true false false).
Lemma commit_locks_witness :
  LockfilePath (Origin shelfConfig) = "/w/.devcontainer/devcontainer-lock.json" /\
  newLockfileState committed.1 shelfConfig = mkLockState (Some oneEntry) ∅.
Proof.
  split; [vm_compute; reflexivity|].
  destruct committed as [files' e] eqn:Hc.
  refine (proj2 (commit_locks ∅ shelfState shelfConfig (mkMode true false false) files' e _ Hc) _ _ _ _).
  - vm_compute. reflexivity.
  - apply (f_equal snd) in Hc. vm_compute in Hc. by rewrite <- Hc.
  - reflexivity.
  - vm_compute. discriminate.
  - reflexivity.
Defined.
