(* ===== verification/HookExamples.v ===== *)
(** Concrete setups: the hypotheses of the theorems hold of them, and the outcomes
    worth knowing. *)
From S2P Require Import Prelude GoStd GoText GoConv GoPath GoState Json DevTypes Redact HookEnv LogTypes Hooks HookPhases HookSystem HookLife.

(** A container in which the commands named "bad" fail. *)
Definition lastKey (tr : History) : string :=
  default "" (last (omap (fun e => match e with Started _ _ k _ _ _ => Some k | _ => None end) tr)).
Definition outcomeOf (key : string) : CommandResult * err :=
  if bool_decide (key = "bad") then (mkCommandResult 1 "" 5 "no such luck", Some (Sentinel "exec.ExitError" "exit status 1"))
  else (mkCommandResult 0 "" 5 "", None).
#[local] Instance container : HookWorld := {|
  containerDataDir := "/var/devsy";
  secureDataDir _ := true;
  readMarkerError _ _ := None;
  writeMarkerOutcome _ _ _ := None;
  newID n := "id-" +:+ Itoa (Z.of_nat n);
  deterministicID l := Join l "/";
  currentUser _ := inr "root";
  LookPath p _ := inr ("/bin/" +:+ p);
  quoteCommand c := Join c " ";
  runProcess _ tr := outcomeOf (lastKey tr);
  ctxErr _ := false;
  Getenv _ := "";
  probeUserEnv _ _ := inr ∅;
  RunDotfiles _ _ := None;
  walkHook h _ := map_to_list h;
  schedule tr := length tr;
  prepareInteractiveLaunch _ _ := None;
  beginTerminal _ := None;
  runInteractiveProcess key _ := outcomeOf key;
|}.
#[local] Instance container_laws : HookLaws.
Proof. by intros h tr. Qed.

Definition named (l : list (string * list string)) : LifecycleHook := list_to_map l.
Definition merged (waitFor : string) (onCreate postCreate postStart : list LifecycleHook) : MergedDevContainerConfig :=
  mkMerged (mkBase None "" ∅ None None ∅ None None ∅ "" ∅ "" waitFor "" None None "" ∅ None 0 ∅)
    (mkUpdated None (Some onCreate) None (Some postCreate) (Some postStart) None ∅)
    noNonCompose (mkImage "") (mkCompose None "" None) (mkDockerfile "" "" None) (mkRunning "") "".
Definition details : ContainerDetails := mkDetails "2024-01-01" "2024-01-02" "" ∅.
Definition given (mc : MergedDevContainerConfig) : Result := mkResult (Some mc) "/workspaces/app" (Some details).
Definition options (skip : SkipPhases) (terminal : bool) : PreAttachOptions :=
  mkPreAttach false (mkDotfiles "" "" "") [] [] skip "" terminal.
Definition nothingSkipped : SkipPhases := mkSkip false false false.
Definition fresh : HookState := mkHookState ∅ ∅ 0 [].

(** ** A setup that fails *)

Definition failing : MergedDevContainerConfig :=
  merged "postCreateCommand" [named [("", ["make"])]] [named [("good", ["a"]); ("bad", ["b"])]; named [("", ["c"])]] [named [("", ["d"])]].
Definition failedSetup : HookState * (failure + list phaseHook) :=
  RunPreAttachHooks (Some "run") (given failing) failing details (options nothingSkipped false) fresh.
Example failed_records :
  map (fun c => statusOf (trace failedSetup.1) "postCreateCommand" c) [(0%nat, "good"); (0%nat, "bad"); (1%nat, "")] =
    [Some "succeeded"; Some "failed"; Some "skipped"] /\
  statusOf (trace failedSetup.1) "postStartCommand" (0%nat, "") = Some "skipped".
Proof. vm_compute. split; reflexivity. Qed.
Definition isFailed {A} (r : failure + A) : bool := match r with inl (Failed _) => true | _ => false end.
Lemma commands_accounted_witness :
  isFailed failedSetup.2 = true /\ accounted (given failing) failing details (options nothingSkipped false) (trace failedSetup.1).
Proof.
  assert (Hf : isFailed failedSetup.2 = true) by (vm_compute; reflexivity). split; [exact Hf|].
  assert (H : is_Some (Some "run")) by (by eexists).
  generalize (commands_accounted (Some "run") (given failing) failing details (options nothingSkipped false) fresh H eq_refl).
  fold failedSetup. revert Hf. destruct failedSetup as [s1 [[e|]|d]]; [intros _ Hacc; exact Hacc|intros Hf; discriminate Hf..].
Defined.

(** ** A setup that defers *)

Definition working (waitFor : string) : MergedDevContainerConfig :=
  merged waitFor [named [("", ["make"])]] [named [("good", ["a"])]] [named [("", ["d"])]].
Definition setup (waitFor : string) (skip : SkipPhases) : HookState * (failure + list phaseHook) :=
  RunPreAttachHooks None (given (working waitFor)) (working waitFor) details (options skip false) fresh.
Definition leftOver (x : HookState * (failure + list phaseHook)) : list phaseHook :=
  match x.2 with inr d => d | inl _ => [] end.
Lemma lifecycle_order_witness : exists before after,
  map fst (starts before) = ["onCreateCommand"] /\ map fst (starts after) = ["postCreateCommand"; "postStartCommand"] /\
  waitsFor (effectiveWaitFor (working "") (options nothingSkipped false)) before after.
Proof.
  destruct (lifecycle_order None (given (working "")) (working "") details (options nothingSkipped false) fresh
    (setup "" nothingSkipped).1 (leftOver (setup "" nothingSkipped))
    (runDeferred None (leftOver (setup "" nothingSkipped)) (setup "" nothingSkipped).1).1
    (runDeferred None (leftOver (setup "" nothingSkipped)) (setup "" nothingSkipped).1).2) as (before & after & Hb & Ha & _ & _ & Hw & _).
  - vm_compute. reflexivity.
  - destruct (runDeferred _ _ _). reflexivity.
  - exists before, after. split; [|split; [|apply Hw; vm_compute; reflexivity]].
    + cbn [trace fresh app] in Hb. rewrite <- Hb. vm_compute. reflexivity.
    + apply (f_equal (fun tr => map fst (starts tr))) in Ha. rewrite starts_app, map_app in Ha.
      assert (Hl : map fst (starts (trace (runDeferred None (leftOver (setup "" nothingSkipped)) (setup "" nothingSkipped).1).1)) =
        ["onCreateCommand"; "postCreateCommand"; "postStartCommand"]) by (vm_compute; reflexivity).
      assert (Hs : map fst (starts (trace (setup "" nothingSkipped).1)) = ["onCreateCommand"]) by (vm_compute; reflexivity).
      rewrite Hl, Hs in Ha. by injection Ha.
Defined.
(** When the phase to wait for is skipped, nothing is deferred: the phases behind
    it hold the setup up too. *)
Example skipped_wait :
  map fst (starts (trace (setup "postCreateCommand" (mkSkip true false false)).1)) = ["onCreateCommand"; "postStartCommand"] /\
  leftOver (setup "postCreateCommand" (mkSkip true false false)) = [] /\
  map phPhase (leftOver (setup "postCreateCommand" nothingSkipped)) = ["postStartCommand"].
Proof. vm_compute. split_and!; reflexivity. Qed.

(** ** Setups of a container that is there *)

(** Two setups of one start, the second with nothing recorded and another phase
    skipped, and one after a restart of the container. *)
Definition restarted : ContainerDetails := mkDetails "2024-01-01" "2024-01-03" "" ∅.
Definition threeSetups : list Setup :=
  [mkSetup (Some "run") (given failing) failing details (options nothingSkipped false);
   mkSetup None (given failing) failing details (options (mkSkip true false false) true);
   mkSetup None (given failing) failing restarted (options (mkSkip true false false) false)].
Lemma hooks_once_witness :
  starts (trace (sessions threeSetups fresh)) =
    [("onCreateCommand", (0%nat, "")); ("postCreateCommand", (0%nat, "bad")); ("postCreateCommand", (0%nat, "good"));
     ("postStartCommand", (0%nat, "")); ("postStartCommand", (0%nat, ""))] /\
  NoDup (base.filter (fun x : string * cell => x.1 = "postCreateCommand") (starts (trace (sessions threeSetups fresh)))).
Proof.
  split; [vm_compute; reflexivity|].
  destruct (hooks_once threeSetups fresh "postCreateCommand") as (new & Hnew & Hnd).
  - split; [unfold fivePhases; apply list_elem_of_In; cbn; tauto|]. exists "2024-01-01". split; [done|].
    intros su Hsu. apply list_elem_of_In in Hsu. cbn in Hsu. by destruct Hsu as [<-|[<-|[<-|[]]]].
  - by rewrite Hnew.
Defined.
(** A prebuild updates the content every time. *)
Definition updating : MergedDevContainerConfig :=
  mkMerged noBase (mkUpdated None None (Some [named [("", ["make"])]]) None None None ∅)
    noNonCompose (mkImage "") (mkCompose None "" None) (mkDockerfile "" "" None) (mkRunning "") "".
Definition prebuildSetup : Setup :=
  mkSetup None (given updating) updating details (mkPreAttach true (mkDotfiles "" "" "") [] [] nothingSkipped "" false).
Example prebuild_repeats :
  map fst (starts (trace (sessions [prebuildSetup; prebuildSetup] fresh))) = ["updateContentCommand"; "updateContentCommand"].
Proof. vm_compute. reflexivity. Qed.

(** ** An interactive command *)

(** When it fails before an empty one of its hook is come to, nothing is said of
    that one: it stays pending. *)
Definition interactive : MergedDevContainerConfig := merged "postStartCommand" [] [] [named [("bad", ["b"]); ("later", [])]].
Example left_pending :
  let s := (RunPreAttachHooks (Some "run") (given interactive) interactive details (options nothingSkipped true) fresh).1 in
  map (fun c => statusOf (trace s) "postStartCommand" c) [(0%nat, "bad"); (0%nat, "later")] = [Some "failed"; Some "pending"].
Proof. vm_compute. reflexivity. Qed.
